(* ===== verification/_CoqProject ===== *)
-Q . S2P
Prelude.v
Serialization.v
Serializer.v
RunLength.v
Version.v
BlockStore.v
HighLevel.v
Cipher.v
Encrypted.v
KnownBlockVersions.v
Integrity.v
CryCipher.v
ConfigCrypto.v
CryConfig.v
ConfigFile.v
OnDisk.v
LocalState.v
ConfigLoader.v
Cli.v
ParallelAccess.v
Either.v
Threads.v
LeftRight.v
LockPool.v
RandomPool.v
QueueMap.v
Cache.v
Caching.v
Stack.v
Nodes.v
Tree.v
NodeLogic.v
NodeSpec.v
TreeModel.v
TreeSpec.v
RootSpec.v
BlobModel.v
BlobSpec.v
Footprint.v
Blob.v
DirEntry.v
DirEntryList.v
DirSpec.v
Directory.v
FsBlobs.v
FsBlobSpec.v
MemBlobs.v
OnBlocks.v
FsTree.v
FsObjects.v
FsObjSpec.v
FsDirSpec.v
FsView.v
CryFs.v
CrySpec.v
RenameSpec.v
FilesystemImpl.v
OpenFileThreads.v
OpenFiles.v
Filesystem.v
FsRefine.v
FsAttrs.v
Mount.v
Fuse.v
FuseSpec.v
Jni.v
Setup.v
EndToEnd.v
