(* ===== verification/Prelude.v ===== *)
(** * libcryfs: a verification development

    libcryfs is CryFS as a library: an encrypted file system that stores
    everything in blocks of one size. The program is a stack of layers, and
    this development models each layer from its source and proves what it
    promises to the one above.

    ** Parts of the program and where they are modelled

    - Bytes: little endian integers, [Data], block ids (Serialization.v, from
      cpp-utils/data and blockstore/utils/IdWrapper.h); [Serializer] and
      [Deserializer] (Serializer.v).
    - Block stores (blockstore/): the interface [BlockStore2] as a class with
      its contract, the in-memory and read-only stores (BlockStore.v), the
      store on the disk (OnDisk.v); stores with block objects, compression
      (HighLevel.v) and its run length encoding (RunLength.v); the
      framing of ciphers (Cipher.v) and the encrypted store (Encrypted.v); the
      table of block versions with its state file (KnownBlockVersions.v) and
      the integrity store (Integrity.v); the cache: linked queue (QueueMap.v),
      cache (Cache.v), caching store (Caching.v). Stack.v composes them as
      CryDevice.cpp does and proves the contract of the whole stack.
    - Configuration (cryfs/impl/config, cryfs/impl/localstate, gitversion):
      version numbers (Version.v), the table of ciphers, keys and hex strings
      (CryCipher.v), the two layers of encryption (ConfigCrypto.v), the
      configuration as a property tree (CryConfig.v), its file and the key
      providers (ConfigFile.v), what a client remembers of a file system
      (LocalState.v), creating, loading and changing the key (ConfigLoader.v).
    - Opening a file system (cryfs-cli/Cli.cpp, CryDevice.cpp, the JNI
      functions that create a file system or change its key): the checks of
      the base directory and of the remembered file system id (Cli.v), the
      block stores, migrations and the root directory that a configuration
      asks for (Setup.v).
    - The tagged union [either] of cpp-utils, with the lifetimes of its
      members (Either.v).
    - Threads: shared resources with reference counts and promises
      (ParallelAccess.v, from parallelaccessstore); wait-free reading
      (LeftRight.v), locks by name (LockPool.v) and the pool of random bytes
      (RandomPool.v), from cpp-utils; the table of open files
      (OpenFileThreads.v, from fspp/impl). Each has one step per critical
      section or atomic access of a thread, and speaks of all interleavings;
      Threads.v has the lemmas on counting threads and holding mutexes that
      they share.
    - Blobs (blobstore/implementations/onblocks): nodes in blocks (Nodes.v,
      from datanodestore), trees of nodes (Tree.v, from datatreestore). The
      proofs use a program logic in Iris (NodeLogic.v) with specifications of
      the node operations (NodeSpec.v), of traversals (TreeModel.v,
      TreeSpec.v, RootSpec.v) and of blobs as byte strings (BlobModel.v,
      BlobSpec.v, Blob.v); Footprint.v relates the heap of the logic to the
      blocks, OnBlocks.v is the blob store on trees with its open trees.
    - The file system (cryfs/impl/filesystem): directory entries and their
      byte format (DirEntry.v), the ordered vector of entries of a directory
      (DirEntryList.v; DirSpec.v and Directory.v relate it to a finite map);
      the blobs of files, directories and symbolic links with their header
      (FsBlobs.v); the objects in memory and the caching and parallel access
      stores that share them (FsObjects.v); device, nodes and open files
      (CryFs.v).
    - The interface for FUSE (fspp/impl): descriptors, open files and the
      calls of [FilesystemImpl] (FilesystemImpl.v); the callbacks of
      fspp/fuse (Fuse.v, FuseSpec.v) and the JNI functions that call them
      (Jni.v).
    - FsBlobSpec.v states the contract of the blob store that the file system
      needs ([BlobStoreSpec]); MemBlobs.v is the smallest store that keeps it.
      FsTree.v is the abstract file system: a tree of nodes, its invariant and
      what paths and changes mean. FsObjSpec.v, FsDirSpec.v, FsView.v relate
      the objects and the stored bytes to it, CrySpec.v and RenameSpec.v the
      operations of nodes, OpenFiles.v the table of descriptors, Filesystem.v
      and FsRefine.v the calls, FsAttrs.v the attributes that the tree does not
      have. Mount.v has the theorems on whole file systems,
      EndToEnd.v those on a file system whose blobs are kept in blocks.

    ** How the code is modelled

    A computation on a state is a function [M S A] to a result and a new
    state; exceptions are values, and the state reached before a throw is
    kept ([result], [exn] below). Machine integers are [Z] with the
    wrap-around written out ([u8], [u32], [u64], [i32], [i64]); access outside of a
    buffer is the exception [UndefinedBehaviour]. Destructors run where the
    language runs them ([run_destructor], [on_throw]). A class stands for an
    interface of the program; what is not in the repository is a parameter
    (ciphers, hashes and hex strings of Crypto++, scrypt, the property trees
    and paths of boost, random numbers, the clock,
    [std::log] and start positions of searches), with what the code needs of
    it as a hypothesis; every such class has an instance, on which the
    witnesses of the theorems run.

    ** What the theorems show

    - The file system refines a tree, for the sequences of calls that
      [calls_ok] admits: valid arguments, no removal or replacement of a node
      that an open file uses, and not two renames in which the code loses data
      (two theorems of Mount.v show what it does there). Modes, owners and
      times, which are not in the tree, are what [chmod], [chown] and
      [utimens] set them to (FsAttrs.v). Errors are
      error numbers; what is written is read; no node has two paths;
      unmounting and mounting again keeps the tree (Mount.v), also when the
      blobs are trees of blocks (EndToEnd.v). The FUSE callbacks refine the
      same tree, let no exception out and return error numbers, from [init]
      to [destroy] and [init] again (FuseSpec.v); listing a directory through
      JNI gives its children, and a closed pointer is known (Jni.v).
    - A blob refines a byte string under every sequence of writes, resizes,
      reads and reloads within its capacity (Blob.v), as long as the floating
      point logarithm does not round up at powers of the fan-out; where it
      does, a traversal throws (TreeSpec.v).
    - The block store stack refines a map from ids to bytes, also across
      unmounting (Stack.v); creating a block under an id that exists fails,
      as far as the cache knows of the block, and is wrong otherwise
      (Caching.v, Integrity.v); blocks that were rolled back, swapped, tampered
      with or removed behind the program's back are refused
      (KnownBlockVersions.v, Integrity.v). The files of the on-disk store
      refine a map (OnDisk.v), block objects with and without compression
      refine byte strings (HighLevel.v), run length encoding is undone by
      decoding, which ends on every input (RunLength.v).
    - A configuration that was created opens again with its key, a change of
      the password keeps it, opening it read-only writes nothing, unsuitable
      versions and replaced keys are refused (ConfigLoader.v, LocalState.v);
      versions are totally ordered (Version.v).
    - A client that was told the id of a file system refuses another one in
      its place; a file system opens again with its password or with the hash
      that was returned (Cli.v). A new file system on the disk is a map of
      blocks, its root is created once, and a violation of the integrity
      prevents the next opening (Setup.v).
    - Under any interleaving of threads references are counted and removals
      are not lost (ParallelAccess.v); two copies of a value act as one
      atomic value, no copy is changed while it is read, readers never wait
      (LeftRight.v); a name is locked by one thread and the pool of locks
      never gets stuck (LockPool.v); random bytes are handed out once
      (RandomPool.v); no open file is destroyed while a call uses it, and no
      wake-up of a waiting close is lost (OpenFileThreads.v).
    - The queue of the cache refines a list (QueueMap.v), a directory a map
      (Directory.v); directories, the version table and serialized data are
      read back as they were written (Directory.v, KnownBlockVersions.v,
      Serializer.v), and reading arbitrary bytes stays inside the buffer
      (Serializer.v). The hinted search in a directory is the linear search
      (DirEntryList.v).
    - An [either] object acts as a value of a sum type as long as no member
      throws during an assignment (Either.v).
    - Some theorems state that the code does something else than it means to:
      they are collected at the end of the files they belong to.

    ** Bounds and fuel

    Loops over trees recurse on the depth, at most 10 as in the code. The
    migration of old blobs takes fuel (the number of directories on a path),
    drawing a client id takes as many draws as the hypothesis [draws] grants
    (the code draws until the id is not the reserved one), and the loops of
    run length encoding take one round per byte, which is proved to be enough.
    Specifications of operations that allocate carry a budget [n]: a state
    that represents something "with room for [n] steps" has that many unused
    block ids, version numbers and bytes in every directory; every theorem
    says how much an operation uses up (one file system call: 12).

    ** Not modelled

    Threads, except in the files named above: each operation of the other
    files runs alone (the locks of [Cache] and the mutexes of blobs, blocks
    and trees are left out). Memory is sequentially consistent, as it is for
    the atomic members that the code uses. The process around the library
    (timers, environment variables, daemons, signals, update checks), the
    conversion of Java strings and arrays, and logging need the operating
    system or the Java machine. The callback for integrity violations is a
    count during the set-up. Gzip is a call of Crypto++. Setup.v takes the
    blob store on top of the block stores as a parameter, OnBlocks.v is its
    implementation. Of the old block and blob formats only the migration that
    the program still runs is modelled. *)

From stdpp Require Export base option numbers list gmap strings.
From Stdlib Require Export Strings.Byte.
From Stdlib Require Import Lia ZArith.

Open Scope Z_scope.

(** ** Exceptions and fallible computations

    C++ exceptions are values: [ASSERT] throws [AssertFailed] (in release
    builds), [std::runtime_error], [std::logic_error] and
    [std::out_of_range] keep their message, [FuseErrnoException] its errno,
    [CryfsException] its error code; [PtreeError] is what boost's property
    trees throw for bad JSON, paths and data.
    [UndefinedBehaviour] is the outcome of an access outside an object (a
    [memcpy] past the end of a buffer, a read past a [Data]), [BadAlloc] the
    [std::bad_alloc] of an allocation larger than [PTRDIFF_MAX], [Terminate]
    the [std::terminate] of an exception that leaves a destructor, and
    [OutOfFuel] a loop that has not ended after the rounds it was given. *)
Inductive errno := EEXIST | ENOENT | EISDIR | ENOTDIR | ENOTEMPTY | EINVAL | EBUSY | EIO | EBADF.

(** ErrorCodes.h: the codes that the code throws. *)
Inductive ErrorCode :=
| WrongPassword | InaccessibleBaseDir | IntegrityViolation
| TooNewFilesystemFormat | TooOldFilesystemFormat | WrongCipher | FilesystemIdChanged
| EncryptionKeyChanged | FilesystemHasDifferentIntegritySetup | SingleClientFileSystem
| InvalidFilesystem | IntegrityViolationOnPreviousRun.

Inductive exn :=
| AssertFailed (msg : string)
| RuntimeError (msg : string)
| LogicError (msg : string)
| OutOfRange
| InvalidArgument
| FuseErrno (e : errno)
| CryfsException (code : ErrorCode)
| PtreeError
| BadAlloc
| Terminate
| OutOfFuel
| UndefinedBehaviour.

Inductive result (A : Type) :=
| Ok (a : A)
| Throw (e : exn).
Arguments Ok {A} _.
Arguments Throw {A} _.

#[export] Instance errno_eq_dec : EqDecision errno.
Proof. solve_decision. Defined.
#[export] Instance ErrorCode_eq_dec : EqDecision ErrorCode.
Proof. solve_decision. Defined.
#[export] Instance exn_eq_dec : EqDecision exn.
Proof. solve_decision. Defined.
#[export] Instance result_eq_dec {A} `{!EqDecision A} : EqDecision (result A).
Proof. solve_decision. Defined.

#[export] Instance result_ret : MRet result := @Ok.
#[export] Instance result_bind : MBind result := λ A B f r,
  match r with Ok a => f a | Throw e => Throw e end.
#[export] Instance result_throw : MThrow exn result := λ A e, Throw e.

(** A stateful computation that may throw. The state reached before the
    throw is kept: a C++ exception does not undo the writes that came
    before it. *)
Definition M (S A : Type) : Type := S → result A * S.

#[export] Instance M_ret {S} : MRet (M S) := λ A a s, (Ok a, s).
#[export] Instance M_bind {S} : MBind (M S) := λ A B f m s,
  match m s with
  | (Ok a, s') => f a s'
  | (Throw e, s') => (Throw e, s')
  end.
#[export] Instance M_throw {S} : MThrow exn (M S) := λ A e s, (Throw e, s).

Definition get_state {S} : M S S := λ s, (Ok s, s).
Definition put_state {S} (s' : S) : M S unit := λ _, (Ok tt, s').
Definition modify {S} (f : S → S) : M S unit := λ s, (Ok tt, f s).
Definition lift {S A} (r : result A) : M S A := λ s, (r, s).

(** Run a computation on a part of the state. *)
Definition zoom {S T A} (get : S → T) (set : T → S → S) (m : M T A) : M S A :=
  λ s, let '(r, t) := m (get s) in (r, set t s).

(** Stack unwinding: when [m] throws, the destructor [cleanup] of a local
    object runs before the exception leaves. An exception out of a destructor
    ends the program. *)
Definition run_destructor {S} (cleanup : M S unit) : M S unit := λ s,
  match cleanup s with (Ok _, s') => (Ok tt, s') | (Throw _, s') => (Throw Terminate, s') end.
Definition on_throw {S A} (cleanup : M S unit) (m : M S A) : M S A := λ s,
  match m s with
  | (Throw e, s') => match run_destructor cleanup s' with (Ok _, s'') => (Throw e, s'') | (Throw e', s'') => (Throw e', s'') end
  | ok => ok
  end.

(** The macro [ASSERT(expr, msg)] of cpp-utils/assert/assert.h. *)
Definition ASSERT {F : Type → Type} `{!MRet F, !MThrow exn F} (b : bool) (msg : string) : F unit :=
  if b then mret tt else mthrow (AssertFailed msg).

Lemma bind_ok {S A B} (m : M S A) (k : A → M S B) s a s' :
  m s = (Ok a, s') → (m ≫= k) s = k a s'.
Proof. unfold mbind, M_bind. by intros ->. Qed.

Lemma bind_throw {S A B} (m : M S A) (k : A → M S B) s e s' :
  m s = (Throw e, s') → (m ≫= k) s = (Throw e, s').
Proof. unfold mbind, M_bind. by intros ->. Qed.

Lemma bind_inv {S A B} (m : M S A) (k : A → M S B) s b s'' :
  (m ≫= k) s = (Ok b, s'') → ∃ a s', m s = (Ok a, s') ∧ k a s' = (Ok b, s'').
Proof. unfold mbind, M_bind. destruct (m s) as [[a|e] s']; naive_solver. Qed.

Lemma bind_assoc {S A B C} (m : M S A) (k : A → M S B) (l : B → M S C) s :
  ((m ≫= k) ≫= l) s = (m ≫= (λ x, k x ≫= l)) s.
Proof. unfold mbind, M_bind. by destruct (m s) as [[a|e] s']. Qed.

Lemma bind_ext {S A B} (m : M S A) (k k' : A → M S B) s :
  (∀ a s', k a s' = k' a s') → (m ≫= k) s = (m ≫= k') s.
Proof. intros H. unfold mbind, M_bind. destruct (m s) as [[a|e] s']; [apply H|done]. Qed.

(** *** Post-conditions

    [runs m s Q]: started in [s], [m] returns normally, with a result and a
    state that satisfy [Q]. [post m s Q] speaks of every outcome. *)
Definition runs {S A} (m : M S A) (s : S) (Q : A → S → Prop) : Prop :=
  ∃ a s', m s = (Ok a, s') ∧ Q a s'.
Definition post {S A} (m : M S A) (s : S) (Q : result A → S → Prop) : Prop := Q (m s).1 (m s).2.

Section runs.
Context {S : Type}.

Lemma runs_ret {A} (a : A) (s : S) (Q : A → S → Prop) : Q a s → runs (mret a) s Q.
Proof. intros H. by exists a, s. Qed.
Lemma runs_lift {A} (r : result A) (a : A) (s : S) (Q : A → S → Prop) : r = Ok a → Q a s → runs (lift r) s Q.
Proof. intros -> H. by exists a, s. Qed.
Lemma runs_modify f (s : S) (Q : unit → S → Prop) : Q tt (f s) → runs (modify f) s Q.
Proof. intros H. by exists tt, (f s). Qed.
Lemma runs_get (s : S) (Q : S → S → Prop) : Q s s → runs get_state s Q.
Proof. intros H. by exists s, s. Qed.
Lemma runs_assert b msg (s : S) (Q : unit → S → Prop) : b = true → Q tt s → runs (ASSERT (F := M S) b msg) s Q.
Proof. intros -> H. by exists tt, s. Qed.

Lemma runs_mono {A} (m : M S A) (s : S) (Q Q' : A → S → Prop) : runs m s Q → (∀ a s', Q a s' → Q' a s') → runs m s Q'.
Proof. intros (a & s' & E & H) Himp. exists a, s'. auto. Qed.

Lemma runs_bind {A B} (m : M S A) (k : A → M S B) (s : S) (R : A → S → Prop) (Q : B → S → Prop) :
  runs m s R → (∀ a s', R a s' → runs (k a) s' Q) → runs (m ≫= k) s Q.
Proof.
  intros (a & s1 & E & HR) Hk. destruct (Hk a s1 HR) as (b & s2 & E2 & HQ).
  exists b, s2. by rewrite (bind_ok _ _ _ _ _ E).
Qed.

Lemma runs_bind_lift {A B} (r : result A) (a : A) (k : A → M S B) (s : S) (Q : B → S → Prop) :
  r = Ok a → runs (k a) s Q → runs (lift r ≫= k) s Q.
Proof. intros -> H. done. Qed.
Lemma runs_bind_assert {B} b msg (k : unit → M S B) (s : S) (Q : B → S → Prop) :
  b = true → runs (k tt) s Q → runs (ASSERT (F := M S) b msg ≫= k) s Q.
Proof. intros -> H. done. Qed.

Lemma runs_bind_modify {B} f (k : unit → M S B) (s : S) (Q : B → S → Prop) :
  runs (k tt) (f s) Q → runs (modify f ≫= k) s Q.
Proof. done. Qed.
Lemma runs_bind_get {B} (k : S → M S B) (s : S) (Q : B → S → Prop) :
  runs (k s) s Q → runs (get_state ≫= k) s Q.
Proof. done. Qed.
Lemma runs_eq {A} (m : M S A) (s : S) a s' (Q : A → S → Prop) : m s = (Ok a, s') → Q a s' → runs m s Q.
Proof. intros E H. by exists a, s'. Qed.

Lemma runs_bind_eq {A B} (m : M S A) (k : A → M S B) (s : S) a s' (Q : B → S → Prop) :
  m s = (Ok a, s') → runs (k a) s' Q → runs (m ≫= k) s Q.
Proof. intros E (b & s2 & E2 & HQ). exists b, s2. by rewrite (bind_ok _ _ _ _ _ E). Qed.

Lemma runs_zoom {T A} (get : S → T) (set : T → S → S) (m : M T A) (s : S) (Q : A → S → Prop) :
  runs m (get s) (λ a t, Q a (set t s)) → runs (zoom get set m) s Q.
Proof. intros (a & t & E & HQ). exists a, (set t s). unfold zoom. by rewrite E. Qed.

Lemma post_runs {A} (m : M S A) (s : S) (Q : A → S → Prop) (Q' : result A → S → Prop) :
  runs m s Q → (∀ a s', Q a s' → Q' (Ok a) s') → post m s Q'.
Proof. intros (a & s' & E & HQ) H. unfold post. rewrite E. by apply H. Qed.
Lemma post_mono {A} (m : M S A) (s : S) (Q Q' : result A → S → Prop) :
  post m s Q → (∀ r s', Q r s' → Q' r s') → post m s Q'.
Proof. unfold post. auto. Qed.
Lemma post_throw {A} e (s : S) (Q : result A → S → Prop) : Q (Throw e) s → post (mthrow e) s Q.
Proof. done. Qed.
Lemma post_ret {A} (a : A) (s : S) (Q : result A → S → Prop) : Q (Ok a) s → post (mret a) s Q.
Proof. done. Qed.

Lemma post_bind {A B} (m : M S A) (k : A → M S B) (s : S) (R : result A → S → Prop) (Q : result B → S → Prop) :
  post m s R → (∀ a s', R (Ok a) s' → post (k a) s' Q) → (∀ e s', R (Throw e) s' → Q (Throw e) s') → post (m ≫= k) s Q.
Proof.
  unfold post, mbind, M_bind. destruct (m s) as [[a|e] s1] eqn:E; simpl; intros HR Hk He; [|auto].
  apply Hk, HR.
Qed.

Lemma post_bind_runs {A B} (m : M S A) (k : A → M S B) (s : S) (R : A → S → Prop) (Q : result B → S → Prop) :
  runs m s R → (∀ a s', R a s' → post (k a) s' Q) → post (m ≫= k) s Q.
Proof.
  intros (a & s1 & E & HR) Hk. unfold post. rewrite (bind_ok _ _ _ _ _ E). by apply Hk.
Qed.

Lemma post_bind_eq {A B} (m : M S A) (k : A → M S B) (s : S) a s' (Q : result B → S → Prop) :
  m s = (Ok a, s') → post (k a) s' Q → post (m ≫= k) s Q.
Proof. intros E HQ. unfold post. by rewrite (bind_ok _ _ _ _ _ E). Qed.
Lemma post_bind_throw {A B} (m : M S A) (k : A → M S B) (s : S) e s' (Q : result B → S → Prop) :
  m s = (Throw e, s') → Q (Throw e) s' → post (m ≫= k) s Q.
Proof. intros E HQ. unfold post. by rewrite (bind_throw _ _ _ _ _ E). Qed.

Lemma post_zoom {T A} (get : S → T) (set : T → S → S) (m : M T A) (s : S) (Q : result A → S → Prop) :
  post m (get s) (λ r t, Q r (set t s)) → post (zoom get set m) s Q.
Proof. unfold post, zoom. by destruct (m (get s)) as [r t]. Qed.
End runs.

Lemma result_bind_inv {A B} (r : result A) (k : A → result B) b :
  (r ≫= k) = Ok b → ∃ a, r = Ok a ∧ k a = Ok b.
Proof. destruct r; naive_solver. Qed.

Lemma assert_ok {F} `{!MRet F, !MThrow exn F} (b : bool) msg :
  b = true → ASSERT b msg = mret (M := F) tt.
Proof. by intros ->. Qed.

(** ** Machine integers

    A w-bit unsigned integer is a [Z] reduced modulo [2^w]; the reduction is
    written at every place the source converts or computes at that width. *)
Definition u8 (z : Z) : Z := z mod 2 ^ 8.
Definition u16 (z : Z) : Z := z mod 2 ^ 16.
Definition u32 (z : Z) : Z := z mod 2 ^ 32.
Definition u64 (z : Z) : Z := z mod 2 ^ 64.
Definition i32 (z : Z) : Z := (z + 2 ^ 31) mod 2 ^ 32 - 2 ^ 31.
Definition i64 (z : Z) : Z := (z + 2 ^ 63) mod 2 ^ 64 - 2 ^ 63.

Lemma u32_small z : 0 ≤ z < 2 ^ 32 → u32 z = z.
Proof. apply Z.mod_small. Qed.
Lemma u64_small z : 0 ≤ z < 2 ^ 64 → u64 z = z.
Proof. apply Z.mod_small. Qed.
Lemma u16_small z : 0 ≤ z < 2 ^ 16 → u16 z = z.
Proof. apply Z.mod_small. Qed.
Lemma u8_small z : 0 ≤ z < 2 ^ 8 → u8 z = z.
Proof. apply Z.mod_small. Qed.
Lemma i64_small z : - 2 ^ 63 ≤ z < 2 ^ 63 → i64 z = z.
Proof. intros. unfold i64. rewrite Z.mod_small; lia. Qed.
Lemma i32_small z : - 2 ^ 31 ≤ z < 2 ^ 31 → i32 z = z.
Proof. intros. unfold i32. rewrite Z.mod_small; lia. Qed.
Lemma i32_range z : - 2 ^ 31 ≤ i32 z < 2 ^ 31.
Proof. unfold i32. pose proof (Z.mod_pos_bound (z + 2 ^ 31) (2 ^ 32)). lia. Qed.
Lemma u32_range z : 0 ≤ u32 z < 2 ^ 32.
Proof. apply Z.mod_pos_bound. lia. Qed.
Lemma u64_range z : 0 ≤ u64 z < 2 ^ 64.
Proof. apply Z.mod_pos_bound. lia. Qed.

(** ** Bytes *)
Abbreviation bytes := (list byte).

#[export] Instance byte_eq_dec : EqDecision byte := Byte.byte_eq_dec.
#[export] Program Instance byte_countable : Countable byte :=
  inj_countable Byte.to_N Byte.of_N _.
Next Obligation. intros b. apply Byte.of_to_N. Qed.
#[export] Instance byte_inhabited : Inhabited byte := populate x00.

Definition byte_val (b : byte) : Z := Z.of_N (Byte.to_N b).
Definition byte_of (z : Z) : byte := default x00 (Byte.of_N (Z.to_N (z mod 256))).

Lemma byte_val_range b : 0 ≤ byte_val b < 256.
Proof. unfold byte_val. pose proof (Byte.to_N_bounded b). lia. Qed.

Lemma byte_of_val b : byte_of (byte_val b) = b.
Proof.
  unfold byte_of. rewrite Z.mod_small by apply byte_val_range.
  unfold byte_val. by rewrite N2Z.id, Byte.of_to_N.
Qed.

Lemma byte_val_of z : byte_val (byte_of z) = z mod 256.
Proof.
  unfold byte_of, byte_val. pose proof (Z.mod_pos_bound z 256 ltac:(lia)).
  destruct (Byte.of_N (Z.to_N (z mod 256))) as [b|] eqn:E; simpl.
  - apply Byte.to_of_N in E. lia.
  - apply Byte.of_N_None_iff in E. lia.
Qed.

Lemma byte_val_inj b1 b2 : byte_val b1 = byte_val b2 → b1 = b2.
Proof. intros H. by rewrite <- (byte_of_val b1), H, byte_of_val. Qed.

(** ** Contiguous ranges of a list

    [slice off n l] is the source operand of a [memcpy], [splice off src l]
    the buffer after [memcpy(l + off, src)]. *)
Definition slice {A} (off n : nat) (l : list A) : list A := take n (drop off l).
Definition splice {A} (off : nat) (src l : list A) : list A :=
  take off l ++ src ++ drop (off + length src) l.

Section lists.
Context {A : Type}.
Implicit Types (l src : list A) (n off : nat).

Lemma length_slice off n l :
  (off + n ≤ length l)%nat → length (slice off n l) = n.
Proof. intros. unfold slice. rewrite length_take, length_drop. lia. Qed.

Lemma length_splice off src l :
  (off + length src ≤ length l)%nat → length (splice off src l) = length l.
Proof. intros. unfold splice. rewrite !length_app, length_take, length_drop. lia. Qed.

Lemma slice_all l : slice 0 (length l) l = l.
Proof. unfold slice. by rewrite drop_0, firstn_all. Qed.

Lemma slice_app_l off n l1 l2 :
  (off + n ≤ length l1)%nat → slice off n (l1 ++ l2) = slice off n l1.
Proof.
  intros. unfold slice. rewrite drop_app_le by lia.
  rewrite take_app_le; [done | rewrite length_drop; lia].
Qed.

Lemma slice_app_r off n l1 l2 :
  slice (length l1 + off) n (l1 ++ l2) = slice off n l2.
Proof. unfold slice. f_equal. by rewrite <- drop_drop, drop_app_length. Qed.

Lemma slice_app_r' k off n l1 l2 :
  length l1 = k → slice (k + off) n (l1 ++ l2) = slice off n l2.
Proof. intros <-. apply slice_app_r. Qed.

Lemma slice_app_head l1 l2 n : length l1 = n → slice 0 n (l1 ++ l2) = l1.
Proof. intros <-. unfold slice. by rewrite drop_0, take_app_length. Qed.

Lemma slice_lookup off n l i :
  (i < n)%nat → slice off n l !! i = l !! (off + i)%nat.
Proof. intros. unfold slice. rewrite lookup_take_lt by lia. apply lookup_drop. Qed.

Lemma slice_splice_eq off src l :
  (off ≤ length l)%nat → slice off (length src) (splice off src l) = src.
Proof.
  intros. unfold slice, splice.
  rewrite drop_app_length' by (rewrite length_take; lia).
  by rewrite take_app_length.
Qed.

Lemma lookup_splice off src l i :
  (off + length src ≤ length l)%nat →
  splice off src l !! i =
    if decide (off ≤ i < off + length src)%nat then src !! (i - off)%nat else l !! i.
Proof.
  intros Hle. unfold splice. case_decide as Hd.
  - rewrite lookup_app_r by (rewrite length_take; lia).
    rewrite length_take, Nat.min_l by lia. by rewrite lookup_app_l by lia.
  - destruct (decide (i < off)%nat).
    + rewrite lookup_app_l by (rewrite length_take; lia). by apply lookup_take_lt.
    + rewrite lookup_app_r by (rewrite length_take; lia).
      rewrite length_take, Nat.min_l, lookup_app_r by lia.
      rewrite lookup_drop. f_equal. lia.
Qed.

Lemma slice_splice_ne off n off' src l :
  (off' + length src ≤ length l)%nat →
  (off + n ≤ off' ∨ off' + length src ≤ off)%nat →
  slice off n (splice off' src l) = slice off n l.
Proof.
  intros Hle Hd. apply list_eq. intros i. destruct (decide (i < n)%nat).
  - rewrite !slice_lookup, lookup_splice by done. case_decide; [lia | done].
  - unfold slice. by rewrite !lookup_take_ge by lia.
Qed.

Lemma splice_all src l : length src = length l → splice 0 src l = src.
Proof.
  intros H. unfold splice. rewrite take_0, H. simpl.
  by rewrite drop_all, app_nil_r.
Qed.

Lemma splice_nil off l : splice off [] l = l.
Proof. unfold splice. simpl. by rewrite Nat.add_0_r, take_drop. Qed.

Lemma splice_app_head src l1 l2 :
  length src = length l1 → splice 0 src (l1 ++ l2) = src ++ l2.
Proof.
  intros H. unfold splice. rewrite take_0. simpl. f_equal.
  by rewrite H, drop_app_length.
Qed.

Lemma splice_app_r k off src l1 l2 :
  length l1 = k → splice (k + off) src (l1 ++ l2) = l1 ++ splice off src l2.
Proof.
  intros <-. unfold splice. rewrite take_app_add, <- app_assoc. do 3 f_equal.
  by rewrite <- Nat.add_assoc, <- drop_drop, drop_app_length.
Qed.
End lists.

(** ** Pointwise related maps

    [map_rel R m1 m2]: the maps have the same keys and related values; the
    representation relation between the blocks of two layers. *)
Definition map_rel {A B} (R : bytes → A → B → Prop) (m1 : gmap bytes A) (m2 : gmap bytes B) : Prop :=
  ∀ k, match m1 !! k, m2 !! k with
       | Some a, Some b => R k a b
       | None, None => True
       | _, _ => False
       end.

Section map_rel.
Context {A B : Type} (R : bytes → A → B → Prop).

Lemma map_rel_empty : map_rel R ∅ ∅.
Proof. intros k. by rewrite !lookup_empty. Qed.

Lemma map_rel_insert m1 m2 k a b :
  R k a b → map_rel R m1 m2 → map_rel R (<[k := a]> m1) (<[k := b]> m2).
Proof.
  intros HR H k'. destruct (decide (k = k')) as [->|Hne].
  - by rewrite !lookup_insert_eq.
  - rewrite !lookup_insert_ne by done. apply H.
Qed.

Lemma map_rel_delete m1 m2 k : map_rel R m1 m2 → map_rel R (delete k m1) (delete k m2).
Proof.
  intros H k'. destruct (decide (k = k')) as [->|Hne].
  - by rewrite !lookup_delete_eq.
  - rewrite !lookup_delete_ne by done. apply H.
Qed.

Lemma map_rel_lookup_r m1 m2 k b :
  map_rel R m1 m2 → m2 !! k = Some b → ∃ a, m1 !! k = Some a ∧ R k a b.
Proof. intros H E. specialize (H k). rewrite E in H. destruct (m1 !! k); naive_solver. Qed.

Lemma map_rel_lookup_l m1 m2 k a :
  map_rel R m1 m2 → m1 !! k = Some a → ∃ b, m2 !! k = Some b ∧ R k a b.
Proof. intros H E. specialize (H k). rewrite E in H. destruct (m2 !! k); naive_solver. Qed.

Lemma map_rel_None m1 m2 k : map_rel R m1 m2 → m1 !! k = None ↔ m2 !! k = None.
Proof. intros H. specialize (H k). destruct (m1 !! k), (m2 !! k); naive_solver. Qed.

Lemma map_rel_is_Some m1 m2 k : map_rel R m1 m2 → is_Some (m1 !! k) ↔ is_Some (m2 !! k).
Proof. intros H. rewrite <- !not_eq_None_Some. by rewrite (map_rel_None _ _ _ H). Qed.

Lemma map_rel_dom m1 m2 : map_rel R m1 m2 → dom m1 = dom m2.
Proof.
  intros H. apply set_eq. intros k. rewrite !elem_of_dom. by apply map_rel_is_Some.
Qed.
End map_rel.

Lemma keys_dom {A} (m : gmap bytes A) : (map_to_list m).*1 ≡ₚ elements (dom m).
Proof. by rewrite dom_alt, elements_list_to_set by apply NoDup_fst_map_to_list. Qed.

Lemma map_rel_keys {A B} (R : bytes → A → B → Prop) m1 m2 :
  map_rel R m1 m2 → (map_to_list m1).*1 ≡ₚ (map_to_list m2).*1.
Proof. intros H. by rewrite !keys_dom, (map_rel_dom _ _ _ H). Qed.

Lemma map_rel_size {A B} (R : bytes → A → B → Prop) m1 m2 : map_rel R m1 m2 → size m1 = size m2.
Proof. intros H. by rewrite <- !size_dom, (map_rel_dom _ _ _ H). Qed.

(** ** Automation

    [len] normalises the lengths in the goal and the hypotheses and calls
    [lia]; components add their own length equations to the database. *)
Create Rewrite HintDb len.
#[export] Hint Rewrite @length_app @length_take @length_drop @length_replicate
  @length_cons @length_nil @length_insert @length_fmap @length_reverse : len.
Ltac len := autorewrite with len in *; simpl in *; lia.

(** [csimp] reduces monadic binds whose head computation is a known value. *)
Ltac csimp := cbn [mbind M_bind result_bind mret M_ret result_ret mthrow M_throw result_throw
                     get_state put_state modify lift].

(** Case analysis on the first [decide] or [match] scrutinee in the goal. *)
Ltac decide_step :=
  match goal with
  | |- context [decide ?P] => destruct (decide P)
  | |- context [bool_decide ?P] => case_bool_decide
  end.
