(* ===== verification/Serialization.v ===== *)
(** * Binary data and its serialization (cpp-utils/data)

    [serialize]/[deserialize] of SerializationHelper.h copy an integer's
    object representation; the supported targets are little-endian, so this
    is the little-endian encoding. [Data] (Data.h) and [FixedSizeData] are
    byte lists. [Serializer] and [Deserializer] are state machines over a
    buffer and a position.

    A fresh [Data(size)] is uninitialised memory: its contents are an
    argument ([uninit]) of the definitions that allocate one and do not
    overwrite every byte themselves. *)
From S2P Require Import Prelude.
From Stdlib Require Import Lia ZArith.

(** ** SerializationHelper.h *)

(** The bytes of an ASCII string literal. *)
Definition str (s : string) : bytes := String.list_byte_of_string s.

(** [serialize<DataType>] of an unsigned integer of [n] bytes. *)
Fixpoint serialize (n : nat) (obj : Z) : bytes :=
  match n with
  | O => []
  | S n' => byte_of obj :: serialize n' (obj / 256)
  end.

(** The integer an object representation stands for. *)
Fixpoint le_value (l : bytes) : Z :=
  match l with
  | [] => 0
  | b :: l' => byte_val b + 256 * le_value l'
  end.

(** [deserialize<DataType>(src)]: reads [sizeof(DataType)] = [n] bytes. *)
Definition deserialize (n : nat) (src : bytes) : result Z :=
  if decide (n ≤ length src)%nat then Ok (le_value (take n src)) else Throw UndefinedBehaviour.

(** [deserializeWithOffset]. *)
Definition deserializeWithOffset (n : nat) (src : bytes) (offset : nat) : result Z :=
  deserialize n (drop offset src).

Lemma length_serialize n z : length (serialize n z) = n.
Proof. revert z. induction n; intros; simpl; auto. Qed.
#[export] Hint Rewrite length_serialize : len.

Lemma le_value_serialize n z : le_value (serialize n z) = z mod 256 ^ Z.of_nat n.
Proof.
  revert z. induction n as [|n IH]; intros z; simpl.
  - by rewrite Z.mod_1_r.
  - rewrite byte_val_of, IH.
    replace (256 ^ Z.of_nat (S n)) with (256 * 256 ^ Z.of_nat n)
      by (rewrite Nat2Z.inj_succ, Z.pow_succ_r by lia; lia).
    rewrite Z.rem_mul_r by lia. lia.
Qed.

Lemma serialize_le_value l : serialize (length l) (le_value l) = l.
Proof.
  induction l as [|b l IH]; simpl; [done|].
  pose proof (byte_val_range b).
  f_equal.
  - apply byte_val_inj. rewrite byte_val_of.
    rewrite (Z.mul_comm 256), Z.mod_add, Z.mod_small by lia. done.
  - rewrite (Z.mul_comm 256), Z.div_add by lia.
    rewrite Z.div_small, Z.add_0_l by lia. apply IH.
Qed.

Lemma le_value_range l : 0 ≤ le_value l < 256 ^ Z.of_nat (length l).
Proof.
  induction l as [|b l IH]; simpl; [lia|].
  pose proof (byte_val_range b).
  rewrite Nat2Z.inj_succ, Z.pow_succ_r by lia. nia.
Qed.

(** An unsigned value that fits is read back unchanged. *)
Lemma deserialize_serialize n z rest :
  0 ≤ z < 256 ^ Z.of_nat n → deserialize n (serialize n z ++ rest) = Ok z.
Proof.
  intros Hz. unfold deserialize. rewrite length_app, length_serialize.
  rewrite decide_True by lia.
  rewrite take_app_length' by len.
  by rewrite le_value_serialize, Z.mod_small.
Qed.

Lemma deserialize_slice n src off v :
  slice off n src = serialize n v → 0 ≤ v < 256 ^ Z.of_nat n →
  deserializeWithOffset n src off = Ok v.
Proof.
  intros Hs Hv. unfold deserializeWithOffset, deserialize.
  assert (length (slice off n src) = n) as Hl by by rewrite Hs, length_serialize.
  unfold slice in *. rewrite length_take in Hl.
  rewrite decide_True by lia. by rewrite Hs, le_value_serialize, Z.mod_small.
Qed.

#[global] Arguments serialize : simpl never.

(** ** Data.h, DataUtils.cpp *)
Module Data.

(** [malloc] never returns an object of more than [PTRDIFF_MAX] bytes; the
    [Data] constructor then throws [std::bad_alloc]. *)
Definition check_alloc (size : Z) : result unit :=
  if decide (size < 2 ^ 63) then Ok tt else Throw BadAlloc.

Definition FillWithZeroes (size : nat) : bytes := replicate size x00.

(** [memcpy(dst + off, src, src.size())]. *)
Definition memcpy_to (dst : bytes) (off : nat) (src : bytes) : result bytes :=
  if decide (off + length src ≤ length dst)%nat
  then Ok (splice off src dst) else Throw UndefinedBehaviour.

(** [memcpy(dst, src + off, n)]: the bytes read. *)
Definition memcpy_from (src : bytes) (off n : nat) : result bytes :=
  if decide (off + n ≤ length src)%nat
  then Ok (slice off n src) else Throw UndefinedBehaviour.

Definition copyAndRemovePrefix (data : bytes) (prefixSize : nat) : result bytes :=
  ASSERT (bool_decide (prefixSize ≤ length data)%nat) "Can't remove more than there is" ;;
  memcpy_from data prefixSize (length data - prefixSize).

(** DataUtils::resize: keep a prefix, fill the rest with zeroes. *)
Definition resize (data : bytes) (newSize : nat) : result bytes :=
  kept ← memcpy_from data 0 (Nat.min newSize (length data)) ;
  memcpy_to (FillWithZeroes newSize) 0 kept.

Lemma memcpy_to_ok dst off src :
  (off + length src ≤ length dst)%nat → memcpy_to dst off src = Ok (splice off src dst).
Proof. intros. unfold memcpy_to. by rewrite decide_True. Qed.

Lemma memcpy_from_ok src off n :
  (off + n ≤ length src)%nat → memcpy_from src off n = Ok (slice off n src).
Proof. intros. unfold memcpy_from. by rewrite decide_True. Qed.

Lemma copyAndRemovePrefix_app (p d : bytes) n :
  length p = n → copyAndRemovePrefix (p ++ d) n = Ok d.
Proof.
  intros <-. unfold copyAndRemovePrefix.
  rewrite assert_ok by (apply bool_decide_true; rewrite length_app; lia). simpl.
  rewrite memcpy_from_ok by (rewrite length_app; lia). f_equal.
  rewrite length_app. replace (length p) with (length p + 0)%nat at 1 by lia.
  rewrite slice_app_r. replace (length p + length d - length p)%nat with (length d) by lia.
  apply slice_all.
Qed.

(** [resize] keeps the common prefix and pads with zeroes. *)
Lemma resize_spec data newSize :
  resize data newSize = Ok (take newSize data ++ replicate (newSize - length data) x00).
Proof.
  unfold resize. rewrite memcpy_from_ok by lia. simpl.
  assert (slice 0 (newSize `min` length data) data = take newSize data) as ->.
  { unfold slice. rewrite drop_0. destruct (decide (newSize ≤ length data)%nat).
    - by rewrite Nat.min_l.
    - by rewrite Nat.min_r, firstn_all, take_ge by lia. }
  unfold FillWithZeroes.
  rewrite memcpy_to_ok by (rewrite length_replicate, length_take; lia). f_equal.
  unfold splice. rewrite take_0, length_take. simpl. f_equal.
  rewrite drop_replicate. f_equal. lia.
Qed.
End Data.

(** ** FixedSizeData.h and the block ids built on it (IdWrapper.h) *)
Module FixedSizeData.
Definition Null (SIZE : nat) : bytes := replicate SIZE x00.
Definition FromBinary (SIZE : nat) (source : bytes) : result bytes := Data.memcpy_from source 0 SIZE.
Definition ToBinary (d target : bytes) (off : nat) : result bytes := Data.memcpy_to target off d.
Definition take (size : nat) (d : bytes) : bytes := list.take size d.
Definition drop (size : nat) (d : bytes) : bytes := list.drop size d.
End FixedSizeData.

Module BlockId.
Definition BINARY_LENGTH : nat := 16.
Definition Null : bytes := FixedSizeData.Null BINARY_LENGTH.
Definition FromBinary (source : bytes) : result bytes := FixedSizeData.FromBinary BINARY_LENGTH source.

(** The C++ type holds exactly 16 bytes. *)
Definition valid (id : bytes) : Prop := length id = BINARY_LENGTH.
#[export] Instance valid_dec id : Decision (valid id).
Proof. unfold valid. apply _. Defined.

(** [std::less<IdWrapper>]: [0 > memcmp(lhs, rhs, 16)]; [memcmp] compares
    as unsigned bytes, the first difference decides. *)
Fixpoint memcmp (a b : bytes) : comparison :=
  match a, b with
  | x :: a', y :: b' =>
      match byte_val x ?= byte_val y with Eq => memcmp a' b' | c => c end
  | [], [] => Eq
  | [], _ :: _ => Lt
  | _ :: _, [] => Gt
  end.
Definition less (a b : bytes) : bool := bool_decide (memcmp a b = Lt).

Lemma FromBinary_app id rest : valid id → FromBinary (id ++ rest) = Ok id.
Proof.
  intros H. unfold FromBinary, FixedSizeData.FromBinary.
  rewrite Data.memcpy_from_ok by (rewrite length_app, H; lia).
  by rewrite slice_app_head.
Qed.

Lemma memcmp_refl a : memcmp a a = Eq.
Proof. induction a as [|x a IH]; simpl; [done|]. by rewrite Z.compare_refl. Qed.

Lemma memcmp_eq a b : memcmp a b = Eq ↔ a = b.
Proof.
  split; [|intros ->; apply memcmp_refl].
  revert b. induction a as [|x a IH]; intros [|y b]; simpl; try done.
  destruct (byte_val x ?= byte_val y) eqn:E; try done.
  apply Z.compare_eq, byte_val_inj in E as ->. intros H. by rewrite (IH b).
Qed.

Lemma memcmp_antisym a b : memcmp b a = CompOpp (memcmp a b).
Proof.
  revert b. induction a as [|x a IH]; intros [|y b]; simpl; try done.
  rewrite (Z.compare_antisym (byte_val x) (byte_val y)).
  destruct (byte_val x ?= byte_val y); simpl; auto.
Qed.

Lemma memcmp_trans a b c : memcmp a b = Lt → memcmp b c = Lt → memcmp a c = Lt.
Proof.
  revert b c. induction a as [|x a IH]; intros [|y b] [|z c]; simpl; try done.
  destruct (Z.compare_spec (byte_val x) (byte_val y));
    destruct (Z.compare_spec (byte_val y) (byte_val z)); try done; intros H1 H2.
  - destruct (Z.compare_spec (byte_val x) (byte_val z)); try lia. eauto.
  - destruct (Z.compare_spec (byte_val x) (byte_val z)); try lia. done.
  - destruct (Z.compare_spec (byte_val x) (byte_val z)); try lia. done.
  - destruct (Z.compare_spec (byte_val x) (byte_val z)); try lia. done.
Qed.

#[export] Instance less_irrefl : Irreflexive (λ a b, less a b = true).
Proof. intros a H. unfold less in H. by rewrite memcmp_refl in H. Qed.

#[export] Instance less_trans : Transitive (λ a b, less a b = true).
Proof.
  intros a b c. unfold less. rewrite !bool_decide_eq_true. apply memcmp_trans.
Qed.

Lemma less_total a b : less a b = true ∨ a = b ∨ less b a = true.
Proof.
  unfold less. rewrite !bool_decide_eq_true, <- memcmp_eq, (memcmp_antisym a b).
  destruct (memcmp a b); auto.
Qed.

Lemma less_asym a b : less a b = true → less b a = false.
Proof.
  unfold less. rewrite bool_decide_eq_true, bool_decide_eq_false, (memcmp_antisym a b).
  by intros ->.
Qed.
End BlockId.
