(* ===== verification/Serializer.v ===== *)
(** * Serializer.h and Deserializer.h

    The writer fills a buffer of a size fixed at construction and refuses to
    overrun it; [finished] refuses a buffer that is not full. The reader
    walks a byte string with the same calls. *)
From S2P Require Import Prelude Serialization.
From Stdlib Require Import Lia ZArith.

Module Serializer.
Record t := mk { _pos : nat; _result : bytes }.

(** [Serializer(size_t size)]; [uninit] is the content of the fresh buffer,
    [size] its length. *)
Definition new (uninit : bytes) : t := mk 0 uninit.

Definition _writeData (data : bytes) : M t unit := λ s,
  if decide (length (_result s) < _pos s + length data)%nat
  then (Throw (RuntimeError "Serialization failed - size overflow"), s)
  else (Ok tt, mk (_pos s + length data) (splice (_pos s) data (_result s))).

(** [_write<DataType>]: same bound check, then [serialize<DataType>]. *)
Definition _write (n : nat) (obj : Z) : M t unit := _writeData (serialize n obj).

Definition writeUint8 (v : Z) : M t unit := _write 1 v.
Definition writeInt8 (v : Z) : M t unit := _write 1 v.
Definition writeUint16 (v : Z) : M t unit := _write 2 v.
Definition writeInt16 (v : Z) : M t unit := _write 2 v.
Definition writeUint32 (v : Z) : M t unit := _write 4 v.
Definition writeInt32 (v : Z) : M t unit := _write 4 v.
Definition writeUint64 (v : Z) : M t unit := _write 8 v.
Definition writeInt64 (v : Z) : M t unit := _write 8 v.
Definition writeBool (b : bool) : M t unit := writeUint8 (if b then 1 else 0).

Definition writeData (data : bytes) : M t unit :=
  writeUint64 (Z.of_nat (length data)) ;; _writeData data.

Definition writeFixedSizeData (data : bytes) : M t unit := _writeData data.

Definition writeTailData (data : bytes) : M t unit :=
  s ← get_state ;
  ASSERT (bool_decide (_pos s + length data = length (_result s))%nat)
    "Not enough data given to write until the end of the stream" ;;
  _writeData data.

(** [value.c_str()] with its terminating null byte. *)
Definition writeString (value : bytes) : M t unit := _writeData (value ++ [x00]).

Definition BoolSize : nat := 1.
Definition DataSize (value : bytes) : nat := 8 + length value.
Definition StringSize (value : bytes) : nat := length value + 1.

Definition finished : M t bytes := λ s,
  if decide (_pos s = length (_result s)) then (Ok (_result s), s)
  else (Throw (RuntimeError "Serialization failed - size not fully used."), s).
End Serializer.

Module Deserializer.
Record t := mk { _pos : nat; _source : bytes }.

Definition new (source : bytes) : t := mk 0 source.

(** The inner [_readData(void*, size_t)]: an unchecked [memcpy]. *)
Definition _readData (size : nat) : M t bytes := λ s,
  match Data.memcpy_from (_source s) (_pos s) size with
  | Ok d => (Ok d, mk (_pos s + size) (_source s))
  | Throw e => (Throw e, s)
  end.

Definition _read (n : nat) : M t Z := λ s,
  if decide (length (_source s) < _pos s + n)%nat
  then (Throw (RuntimeError "Deserialization failed - size overflow"), s)
  else match deserializeWithOffset n (_source s) (_pos s) with
       | Ok v => (Ok v, mk (_pos s + n) (_source s))
       | Throw e => (Throw e, s)
       end.

(** The same bytes read as a signed integer of [n] bytes. *)
Definition to_signed (n : nat) (v : Z) : Z :=
  if decide (v < 2 ^ (8 * Z.of_nat n - 1)) then v else v - 2 ^ (8 * Z.of_nat n).

Definition readUint8 : M t Z := _read 1.
Definition readUint16 : M t Z := _read 2.
Definition readUint32 : M t Z := _read 4.
Definition readUint64 : M t Z := _read 8.
Definition readInt8 : M t Z := v ← _read 1 ; mret (to_signed 1 v).
Definition readInt16 : M t Z := v ← _read 2 ; mret (to_signed 2 v).
Definition readInt32 : M t Z := v ← _read 4 ; mret (to_signed 4 v).
Definition readInt64 : M t Z := v ← _read 8 ; mret (to_signed 8 v).

Definition readBool : M t bool :=
  read ← readUint8 ;
  if decide (read = 1) then mret true
  else if decide (read = 0) then mret false
  else mthrow (RuntimeError "Read invalid bool value").

(** [_pos + size] is computed in 64 bits and may wrap; the allocation of
    [Data(size)] comes before the copy. *)
Definition readData : M t bytes :=
  size ← readUint64 ;
  s ← get_state ;
  if decide (Z.of_nat (length (_source s)) < u64 (Z.of_nat (_pos s) + size))
  then mthrow (RuntimeError "Deserialization failed - size overflow")
  else lift (Data.check_alloc size) ;; _readData (Z.to_nat size).

(** [_source->size() - _pos] in 64 bits. *)
Definition readTailData : M t bytes :=
  s ← get_state ;
  let size := u64 (Z.of_nat (length (_source s)) - Z.of_nat (_pos s)) in
  lift (Data.check_alloc size) ;; _readData (Z.to_nat size).

Definition readFixedSizeData (SIZE : nat) : M t bytes := _readData SIZE.

(** [memchr] for the null byte in the unread part. *)
Definition readString : M t bytes := λ s,
  match list_find (λ b, b = x00) (drop (_pos s) (_source s)) with
  | None => (Throw (RuntimeError "Deserialization failed - missing nullbyte for string termination"), s)
  | Some (size, _) => (Ok (slice (_pos s) size (_source s)), mk (_pos s + size + 1) (_source s))
  end.

Definition finished : M t unit := λ s,
  if decide (_pos s = length (_source s)) then (Ok tt, s)
  else (Throw (RuntimeError "Deserialization failed - size not fully used."), s).
End Deserializer.

(** ** The calls a client makes, as data

    A [field] is one write call with its argument; [write_field] performs it,
    [read_field] performs the matching read call. *)
Inductive field :=
| FBool (b : bool)
| FUint8 (v : Z) | FUint16 (v : Z) | FUint32 (v : Z) | FUint64 (v : Z)
| FInt8 (v : Z) | FInt16 (v : Z) | FInt32 (v : Z) | FInt64 (v : Z)
| FString (s : bytes) | FData (d : bytes) | FFixed (d : bytes) | FTail (d : bytes).

Definition write_field (f : field) : M Serializer.t unit :=
  match f with
  | FBool b => Serializer.writeBool b
  | FUint8 v => Serializer.writeUint8 v | FUint16 v => Serializer.writeUint16 v
  | FUint32 v => Serializer.writeUint32 v | FUint64 v => Serializer.writeUint64 v
  | FInt8 v => Serializer.writeInt8 v | FInt16 v => Serializer.writeInt16 v
  | FInt32 v => Serializer.writeInt32 v | FInt64 v => Serializer.writeInt64 v
  | FString s => Serializer.writeString s
  | FData d => Serializer.writeData d
  | FFixed d => Serializer.writeFixedSizeData d
  | FTail d => Serializer.writeTailData d
  end.

Definition read_field (f : field) : M Deserializer.t field :=
  match f with
  | FBool _ => b ← Deserializer.readBool ; mret (FBool b)
  | FUint8 _ => v ← Deserializer.readUint8 ; mret (FUint8 v)
  | FUint16 _ => v ← Deserializer.readUint16 ; mret (FUint16 v)
  | FUint32 _ => v ← Deserializer.readUint32 ; mret (FUint32 v)
  | FUint64 _ => v ← Deserializer.readUint64 ; mret (FUint64 v)
  | FInt8 _ => v ← Deserializer.readInt8 ; mret (FInt8 v)
  | FInt16 _ => v ← Deserializer.readInt16 ; mret (FInt16 v)
  | FInt32 _ => v ← Deserializer.readInt32 ; mret (FInt32 v)
  | FInt64 _ => v ← Deserializer.readInt64 ; mret (FInt64 v)
  | FString _ => s ← Deserializer.readString ; mret (FString s)
  | FData _ => d ← Deserializer.readData ; mret (FData d)
  | FFixed d => d ← Deserializer.readFixedSizeData (length d) ; mret (FFixed d)
  | FTail _ => d ← Deserializer.readTailData ; mret (FTail d)
  end.

Fixpoint write_fields (fs : list field) : M Serializer.t unit :=
  match fs with
  | [] => mret tt
  | f :: fs' => write_field f ;; write_fields fs'
  end.

Fixpoint read_fields (fs : list field) : M Deserializer.t (list field) :=
  match fs with
  | [] => mret []
  | f :: fs' => v ← read_field f ; vs ← read_fields fs' ; mret (v :: vs)
  end.

(** The bytes a write call appends. *)
Definition field_bytes (f : field) : bytes :=
  match f with
  | FBool b => serialize 1 (if b then 1 else 0)
  | FUint8 v | FInt8 v => serialize 1 v
  | FUint16 v | FInt16 v => serialize 2 v
  | FUint32 v | FInt32 v => serialize 4 v
  | FUint64 v | FInt64 v => serialize 8 v
  | FString s => s ++ [x00]
  | FData d => serialize 8 (Z.of_nat (length d)) ++ d
  | FFixed d | FTail d => d
  end.

(** The arguments are values of their C++ types; a string has no null byte. *)
Definition field_ok (f : field) : Prop :=
  match f with
  | FUint8 v => 0 ≤ v < 2 ^ 8 | FUint16 v => 0 ≤ v < 2 ^ 16
  | FUint32 v => 0 ≤ v < 2 ^ 32 | FUint64 v => 0 ≤ v < 2 ^ 64
  | FInt8 v => - 2 ^ 7 ≤ v < 2 ^ 7 | FInt16 v => - 2 ^ 15 ≤ v < 2 ^ 15
  | FInt32 v => - 2 ^ 31 ≤ v < 2 ^ 31 | FInt64 v => - 2 ^ 63 ≤ v < 2 ^ 63
  | FString s => x00 ∉ s
  | FBool _ | FData _ | FFixed _ | FTail _ => True
  end.

(** Every call but [writeTailData], which fills the rest of the buffer and
    is the last call of a client. *)
Definition not_tail (f : field) : Prop := match f with FTail _ => False | _ => True end.

Fixpoint fields_ok (fs : list field) : Prop :=
  match fs with
  | [] => True
  | f :: fs' => field_ok f ∧ (fs' ≠ [] → not_tail f) ∧ fields_ok fs'
  end.

Lemma writeData_step data s :
  (Serializer._pos s + length data ≤ length (Serializer._result s))%nat →
  ∃ s', Serializer._writeData data s = (Ok tt, s') ∧
    Serializer._pos s' = (Serializer._pos s + length data)%nat ∧
    length (Serializer._result s') = length (Serializer._result s) ∧
    take (Serializer._pos s') (Serializer._result s') =
      take (Serializer._pos s) (Serializer._result s) ++ data.
Proof.
  intros Hle. unfold Serializer._writeData. rewrite decide_False by lia.
  eexists. split; [done|]. simpl. split; [done|].
  split; [by apply length_splice|]. unfold splice.
  rewrite app_assoc. rewrite take_app_length'; [done | len].
Qed.

Lemma write_field_step f s :
  (Serializer._pos s + length (field_bytes f) ≤ length (Serializer._result s))%nat →
  not_tail f ∨ (Serializer._pos s + length (field_bytes f) = length (Serializer._result s))%nat →
  ∃ s', write_field f s = (Ok tt, s') ∧
    Serializer._pos s' = (Serializer._pos s + length (field_bytes f))%nat ∧
    length (Serializer._result s') = length (Serializer._result s) ∧
    take (Serializer._pos s') (Serializer._result s') =
      take (Serializer._pos s) (Serializer._result s) ++ field_bytes f.
Proof.
  destruct f; cbn [field_bytes]; intros Hle Ht; try by apply writeData_step.
  - unfold write_field, Serializer.writeData, Serializer.writeUint64, Serializer._write.
    rewrite length_app in *.
    edestruct (writeData_step (serialize 8 (Z.of_nat (length d))) s) as (s1 & E1 & P1 & L1 & T1); [lia|].
    rewrite (bind_ok _ _ _ _ _ E1).
    edestruct (writeData_step d s1) as (s2 & E2 & P2 & L2 & T2); [lia|].
    exists s2. rewrite T2, T1, app_assoc. split_and!; [done|lia|lia|done].
  - destruct Ht as [[]|Ht]. unfold write_field, Serializer.writeTailData, mbind, M_bind. csimp.
    rewrite bool_decide_true by done. simpl. by apply writeData_step.
Qed.

Lemma write_fields_step fs s :
  fields_ok fs →
  (Serializer._pos s + length (concat (map field_bytes fs)) = length (Serializer._result s))%nat →
  ∃ s', write_fields fs s = (Ok tt, s') ∧
    Serializer._pos s' = (Serializer._pos s + length (concat (map field_bytes fs)))%nat ∧
    length (Serializer._result s') = length (Serializer._result s) ∧
    take (Serializer._pos s') (Serializer._result s') =
      take (Serializer._pos s) (Serializer._result s) ++ concat (map field_bytes fs).
Proof.
  revert s. induction fs as [|f fs IH]; intros s; simpl; intros Hok Hle.
  - exists s. rewrite app_nil_r. split_and!; [done|lia|done|done].
  - rewrite length_app in *. destruct Hok as (Hf & Hlast & Hok).
    destruct (write_field_step f s) as (s1 & E1 & P1 & L1 & T1);
      [lia|destruct fs; [right; simpl in *; lia|left; by apply Hlast]|].
    rewrite (bind_ok _ _ _ _ _ E1).
    destruct (IH s1) as (s2 & E2 & P2 & L2 & T2); [done|lia|].
    exists s2. rewrite T2, T1, app_assoc. split_and!; [done|lia|lia|done].
Qed.

(** The writer's result is the concatenation of the encodings. *)
Lemma write_fields_finished fs uninit :
  fields_ok fs → length uninit = length (concat (map field_bytes fs)) →
  ∃ s, (write_fields fs ;; Serializer.finished) (Serializer.new uninit) =
    (Ok (concat (map field_bytes fs)), s).
Proof.
  intros Hok Hlen.
  destruct (write_fields_step fs (Serializer.new uninit)) as (s1 & E1 & P1 & L1 & T1);
    simpl in *; [done|lia|].
  exists s1. rewrite (bind_ok _ _ _ _ _ E1). unfold Serializer.finished.
  rewrite decide_True by lia. rewrite take_ge in T1 by lia. by rewrite T1.
Qed.

(** The unread part of a reader. *)
Definition unread (s : Deserializer.t) : bytes :=
  drop (Deserializer._pos s) (Deserializer._source s).

(** [advance d s s']: [s'] is [s] after reading exactly the bytes [d]. *)
Definition advance (d : bytes) (s s' : Deserializer.t) : Prop :=
  s' = Deserializer.mk (Deserializer._pos s + length d) (Deserializer._source s).

Lemma advance_unread d rest s s' :
  advance d s s' → unread s = d ++ rest → unread s' = rest.
Proof.
  unfold unread. intros -> H. simpl. by rewrite <- drop_drop, H, drop_app_length.
Qed.

Lemma unread_length d rest s :
  unread s = d ++ rest →
  (Deserializer._pos s + length d + length rest ≤ length (Deserializer._source s))%nat ∨ d ++ rest = [].
Proof.
  unfold unread. intros H. destruct (decide (d ++ rest = [])); [by right|left].
  assert (length (d ++ rest) ≠ 0)%nat by (by destruct (d ++ rest)).
  apply (f_equal length) in H. len.
Qed.

Lemma read_step n v rest s :
  (0 < n)%nat → unread s = serialize n v ++ rest →
  ∃ s', Deserializer._read n s = (Ok (v mod 256 ^ Z.of_nat n), s') ∧ advance (serialize n v) s s'.
Proof.
  intros Hn H. unfold Deserializer._read.
  destruct (unread_length _ _ _ H) as [Hl|Hl]; [|apply (f_equal length) in Hl; len].
  rewrite length_serialize in Hl. rewrite decide_False by lia.
  unfold unread in H. unfold deserializeWithOffset, deserialize. rewrite H.
  rewrite decide_True by len. rewrite take_app_length' by len.
  rewrite le_value_serialize. eexists. split; [done|]. unfold advance. by rewrite length_serialize.
Qed.

Lemma readData_step d rest s :
  (Deserializer._pos s ≤ length (Deserializer._source s))%nat →
  unread s = d ++ rest →
  ∃ s', Deserializer._readData (length d) s = (Ok d, s') ∧ advance d s s'.
Proof.
  intros Hp H. unfold Deserializer._readData.
  assert (Deserializer._pos s + length d ≤ length (Deserializer._source s))%nat as Hle.
  { apply (f_equal length) in H. unfold unread in H. len. }
  rewrite Data.memcpy_from_ok by done. eexists. split; [|done].
  unfold unread in H. unfold slice. by rewrite H, take_app_length.
Qed.

Lemma list_find_null (s rest : bytes) :
  x00 ∉ s → list_find (λ b, b = x00) (s ++ x00 :: rest) = Some (length s, x00).
Proof.
  intros H. apply list_find_app_Some. right. split; [lia|]. split.
  - apply list_find_None, Forall_forall. by intros x Hx ->.
  - by rewrite Nat.sub_diag.
Qed.

Lemma to_signed_mod n v :
  (0 < n)%nat → - 2 ^ (8 * Z.of_nat n - 1) ≤ v < 2 ^ (8 * Z.of_nat n - 1) →
  Deserializer.to_signed n (v mod 256 ^ Z.of_nat n) = v.
Proof.
  intros Hn Hv. unfold Deserializer.to_signed.
  replace (256 ^ Z.of_nat n) with (2 ^ (8 * Z.of_nat n)) by (by rewrite Z.pow_mul_r by lia).
  assert (2 ^ (8 * Z.of_nat n) = 2 * 2 ^ (8 * Z.of_nat n - 1)) as E
    by (rewrite <- Z.pow_succ_r by lia; f_equal; lia).
  destruct (decide (0 ≤ v)).
  - rewrite Z.mod_small by lia. by rewrite decide_True by lia.
  - assert (v mod 2 ^ (8 * Z.of_nat n) = v + 2 ^ (8 * Z.of_nat n)) as ->.
    { symmetry. apply Z.mod_unique with (-1); lia. }
    rewrite decide_False by lia. lia.
Qed.

Lemma unread_bound d rest s :
  (Deserializer._pos s ≤ length (Deserializer._source s))%nat → unread s = d ++ rest →
  (Deserializer._pos s + length d + length rest = length (Deserializer._source s))%nat.
Proof. unfold unread. intros ? H. apply (f_equal length) in H. len. Qed.

Lemma advance_bound d rest s s' :
  (Deserializer._pos s ≤ length (Deserializer._source s))%nat → unread s = d ++ rest →
  advance d s s' →
  Deserializer._source s' = Deserializer._source s ∧
  (Deserializer._pos s' ≤ length (Deserializer._source s'))%nat.
Proof. intros Hp Hu ->. apply unread_bound in Hu; [|done]. simpl. split; [done|lia]. Qed.

Lemma read_uint_field (K : Z → field) n v rest s :
  (0 < n)%nat → 0 ≤ v < 256 ^ Z.of_nat n → unread s = serialize n v ++ rest →
  ∃ s', (v ← Deserializer._read n ; mret (K v)) s = (Ok (K v), s') ∧ advance (serialize n v) s s'.
Proof.
  intros Hn Hv Hu. destruct (read_step _ _ _ _ Hn Hu) as (s' & E & A).
  exists s'. rewrite (bind_ok _ _ _ _ _ E). by rewrite Z.mod_small by lia.
Qed.

Lemma read_int_field (K : Z → field) n v rest s :
  (0 < n)%nat → - 2 ^ (8 * Z.of_nat n - 1) ≤ v < 2 ^ (8 * Z.of_nat n - 1) →
  unread s = serialize n v ++ rest →
  ∃ s', (v ← (v ← Deserializer._read n ; mret (Deserializer.to_signed n v)) ; mret (K v)) s
          = (Ok (K v), s') ∧ advance (serialize n v) s s'.
Proof.
  intros Hn Hv Hu. destruct (read_step _ _ _ _ Hn Hu) as (s' & E & A).
  exists s'. unfold mbind, M_bind. rewrite E. cbn. by rewrite to_signed_mod.
Qed.

(** Every read call returns what the matching write call wrote and advances
    past it. *)
Lemma readTailData_step d s :
  (Deserializer._pos s ≤ length (Deserializer._source s))%nat →
  Z.of_nat (length (Deserializer._source s)) < 2 ^ 63 →
  unread s = d →
  ∃ s', Deserializer.readTailData s = (Ok d, s') ∧ advance d s s'.
Proof.
  intros Hp Hm Hu. rewrite <- (app_nil_r d) in Hu. pose proof (unread_bound _ _ _ Hp Hu) as Hb.
  simpl in Hb.
  destruct (readData_step d [] s Hp Hu) as (s' & E & A). exists s'. split; [|done].
  unfold Deserializer.readTailData, Data.check_alloc, mbind, M_bind. csimp.
  rewrite u64_small, decide_True by lia. rewrite <- E. simpl. f_equal. lia.
Qed.

Lemma read_field_step f rest s :
  field_ok f → not_tail f ∨ rest = [] → (Deserializer._pos s ≤ length (Deserializer._source s))%nat →
  Z.of_nat (length (Deserializer._source s)) < 2 ^ 63 →
  unread s = field_bytes f ++ rest →
  ∃ s', read_field f s = (Ok f, s') ∧ advance (field_bytes f) s s'.
Proof.
  destruct f; cbn [field_ok field_bytes read_field]; intros Hok Ht Hp Hmax Hu;
    try (apply (read_uint_field _ _ _ rest); [lia|done|done]);
    try (apply (read_int_field _ _ _ rest); [lia|done|done]).
  - destruct (read_step 1 _ _ _ ltac:(lia) Hu) as (s' & E & A). exists s'. split; [|done].
    unfold Deserializer.readBool, Deserializer.readUint8, mbind, M_bind. rewrite E.
    by destruct b.
  - unfold Deserializer.readString. unfold mbind, M_bind. unfold unread in Hu.
    rewrite Hu, <- app_assoc. simpl. rewrite list_find_null by done.
    eexists. split.
    + csimp. unfold slice. by rewrite Hu, <- app_assoc, take_app_length.
    + unfold advance. f_equal. len.
  - rewrite <- app_assoc in Hu. pose proof (unread_bound _ _ _ Hp Hu) as Hb.
    rewrite length_app in Hb.
    destruct (read_step 8 _ _ _ ltac:(lia) Hu) as (s1 & E & A).
    destruct (advance_bound _ _ _ _ Hp Hu A) as [Hs1 Hp1].
    pose proof (advance_unread _ _ _ _ A Hu) as Hu1.
    destruct (readData_step d rest s1 Hp1 Hu1) as (s2 & E2 & A2).
    pose proof (unread_bound _ _ _ Hp1 Hu1) as Hb1. rewrite Hs1 in Hb1.
    exists s2. unfold Deserializer.readData, Deserializer.readUint64, Data.check_alloc.
    rewrite Z.mod_small in E by lia. unfold mbind, M_bind. rewrite E. csimp.
    rewrite Hs1, u64_small, decide_False, decide_True, Nat2Z.id by lia.
    rewrite E2. split; [done|]. rewrite A2, A. unfold advance. f_equal. simpl. len.
  - unfold mbind, M_bind. unfold Deserializer.readFixedSizeData.
    destruct (readData_step d rest s Hp Hu) as (s2 & E2 & A2). rewrite E2. by exists s2.
  - destruct Ht as [[]| ->]. rewrite app_nil_r in Hu.
    destruct (readTailData_step d s Hp Hmax Hu) as (s2 & E2 & A2).
    rewrite (bind_ok _ _ _ _ _ E2). by exists s2.
Qed.

Lemma read_fields_step fs s :
  fields_ok fs → (Deserializer._pos s ≤ length (Deserializer._source s))%nat →
  Z.of_nat (length (Deserializer._source s)) < 2 ^ 63 →
  unread s = concat (map field_bytes fs) →
  ∃ s', read_fields fs s = (Ok fs, s') ∧ advance (concat (map field_bytes fs)) s s'.
Proof.
  revert s. induction fs as [|f fs IH]; intros s Hok Hp Hmax Hu; simpl in *.
  - exists s. split; [done|]. unfold advance. rewrite Nat.add_0_r. by destruct s.
  - destruct Hok as (Hf & Hlast & Hok).
    assert (not_tail f ∨ concat (map field_bytes fs) = []) as Ht
      by (destruct fs; [by right|left; by apply Hlast]).
    destruct (read_field_step f _ s Hf Ht Hp Hmax Hu) as (s1 & E1 & A1).
    destruct (advance_bound _ _ _ _ Hp Hu A1) as [Hs1 Hp1].
    pose proof (advance_unread _ _ _ _ A1 Hu) as Hu1.
    rewrite (bind_ok _ _ _ _ _ E1).
    destruct (IH s1 Hok Hp1 ltac:(by rewrite Hs1) Hu1) as (s2 & E2 & A2).
    rewrite (bind_ok _ _ _ _ _ E2). exists s2. split; [done|].
    rewrite A2, A1. unfold advance. f_equal. simpl. len.
Qed.

(** C39. Serializer/Deserializer round trip. For any sequence of write calls
    whose arguments are values of their types, in which a string has no null
    byte ([string_with_null_truncated]) and [writeTailData] can only be the
    last call, a [Serializer] of exactly the total size (below 2^63 bytes)
    accepts all of them and [finished] returns the buffer; a [Deserializer] on
    that buffer, driven by the same sequence of read calls, returns the same
    values and its [finished] succeeds. *)
Theorem serializer_roundtrip fs uninit :
  fields_ok fs →
  length uninit = length (concat (map field_bytes fs)) →
  Z.of_nat (length uninit) < 2 ^ 63 →
  ∃ data s s',
    (write_fields fs ;; Serializer.finished) (Serializer.new uninit) = (Ok data, s) ∧
    (vs ← read_fields fs ; Deserializer.finished ;; mret vs) (Deserializer.new data) = (Ok fs, s').
Proof.
  intros Hok Hlen Hmax.
  destruct (write_fields_finished fs uninit Hok Hlen) as [s E].
  set (data := concat (map field_bytes fs)) in *.
  destruct (read_fields_step fs (Deserializer.new data)) as (s' & E' & A);
    [done|simpl; lia|simpl; lia|done|].
  exists data, s, s'. split; [done|]. rewrite (bind_ok _ _ _ _ _ E').
  unfold mbind, M_bind, Deserializer.finished. rewrite A. simpl. by rewrite decide_True.
Qed.

Lemma serializer_roundtrip_witness :
  let fs := [FBool true; FUint32 7; FInt16 (-3); FString [x61; x62]; FData [x01; x02]; FFixed [x09]; FTail [x05; x06]] in
  ∃ data s s',
    (write_fields fs ;; Serializer.finished) (Serializer.new (replicate 23 xff)) = (Ok data, s) ∧
    (vs ← read_fields fs ; Deserializer.finished ;; mret vs) (Deserializer.new data) = (Ok fs, s').
Proof.
  apply serializer_roundtrip.
  - repeat split; simpl; try lia; try done. by apply (bool_decide_unpack _).
  - reflexivity.
  - simpl; lia.
Defined.

(** Without the condition on strings: a string with a null byte is written in
    full and read back up to its first null byte; the reader stops there, so
    what follows is read from the middle of the string. *)
Theorem string_with_null_truncated a b rest s :
  x00 ∉ a → unread s = field_bytes (FString (a ++ x00 :: b)) ++ rest →
  ∃ s', read_field (FString (a ++ x00 :: b)) s = (Ok (FString a), s')
    ∧ unread s' = b ++ x00 :: rest.
Proof.
  intros Ha Hu. cbn [field_bytes] in Hu. unfold unread in *.
  assert (drop (Deserializer._pos s) (Deserializer._source s) = a ++ x00 :: b ++ x00 :: rest) as Hd.
  { rewrite Hu, <- !app_assoc. done. }
  unfold read_field, Deserializer.readString, mbind, M_bind. rewrite Hd, list_find_null by done.
  eexists. csimp. unfold slice. rewrite Hd, take_app_length. split; [done|]. csimp.
  replace (Deserializer._pos s + length a + 1)%nat with (Deserializer._pos s + S (length a))%nat by lia.
  cbn [Deserializer._pos Deserializer._source].
  rewrite <- drop_drop, Hd. by rewrite drop_app_ge, Nat.sub_succ_l, Nat.sub_diag by lia.
Qed.

(** A read call either succeeds or throws one of the documented errors. *)
Definition no_ub {S A} (r : result A * S) : Prop := r.1 ≠ Throw UndefinedBehaviour.

Lemma read_safe n s :
  (Deserializer._pos s ≤ length (Deserializer._source s))%nat →
  no_ub (Deserializer._read n s) ∧
  (Deserializer._pos (Deserializer._read n s).2 ≤ length (Deserializer._source (Deserializer._read n s).2))%nat ∧
  Deserializer._source (Deserializer._read n s).2 = Deserializer._source s ∧
  (∀ v, (Deserializer._read n s).1 = Ok v → 0 ≤ v < 256 ^ Z.of_nat n).
Proof.
  intros Hp. unfold no_ub, Deserializer._read. case_decide; [by split_and!|].
  unfold deserializeWithOffset, deserialize. rewrite length_drop.
  rewrite decide_True by lia. simpl. split_and!; [done|lia|done|].
  intros v [= <-]. pose proof (le_value_range (take n (drop (Deserializer._pos s) (Deserializer._source s)))) as Hr.
  rewrite length_take, length_drop, Nat.min_l in Hr by lia. done.
Qed.

(** [read_call f] for every call but [readFixedSizeData], which has no bound
    check of its own. *)
Definition checked (f : field) : Prop := match f with FFixed _ => False | _ => True end.

Definition reader_ok (s : Deserializer.t) : Prop :=
  (Deserializer._pos s ≤ length (Deserializer._source s))%nat ∧
  Z.of_nat (length (Deserializer._source s)) < 2 ^ 63.

(** [m] run on [s] neither overruns the buffer nor leaves it. *)
Definition safe {A} (m : M Deserializer.t A) (s : Deserializer.t) : Prop :=
  no_ub (m s) ∧ reader_ok (m s).2.

Lemma safe_bind {A B} (m : M Deserializer.t A) (k : A → M Deserializer.t B) s :
  safe m s → (∀ a s', m s = (Ok a, s') → reader_ok s' → safe (k a) s') → safe (m ≫= k) s.
Proof.
  intros [Hn Hr] Hk. unfold safe, no_ub, mbind, M_bind in *.
  destruct (m s) as [[a|e] s'] eqn:E; simpl in *.
  - by apply Hk.
  - split; [by intros [= ->]|done].
Qed.

Lemma safe_ret {A} (a : A) s : reader_ok s → safe (mret a) s.
Proof. by split. Qed.

Lemma safe_read n s : reader_ok s → safe (Deserializer._read n) s.
Proof.
  intros [Hp Hm]. destruct (read_safe n s Hp) as (? & ? & Hs & _). split; [done|].
  split; [done|by rewrite Hs].
Qed.

Lemma safe_readString s : reader_ok s → safe Deserializer.readString s.
Proof.
  intros [Hp Hm]. unfold safe, no_ub, reader_ok, Deserializer.readString.
  destruct (list_find _ _) as [[size b]|] eqn:E; simpl; [|done].
  apply list_find_Some in E as (El & _ & _). rewrite lookup_drop in El.
  apply lookup_lt_Some in El. split; [done|]. split; [lia|done].
Qed.

Lemma safe_readData s : reader_ok s → safe Deserializer.readData s.
Proof.
  intros Hs. apply safe_bind; [by apply safe_read|]. intros size s1 E1 [Hp1 Hm1].
  destruct (read_safe 8 s (proj1 Hs)) as (_ & _ & _ & Hv). unfold Deserializer.readUint64 in E1.
  rewrite E1 in Hv. specialize (Hv size eq_refl).
  unfold safe, no_ub, mbind, M_bind. csimp. case_decide as Hd; [done|].
  unfold Data.check_alloc, Deserializer._readData. case_decide; [|done].
  rewrite u64_small in Hd by lia.
  rewrite Data.memcpy_from_ok by lia. simpl. split; [done|]. split; simpl; lia.
Qed.

Lemma safe_readTailData s : reader_ok s → safe Deserializer.readTailData s.
Proof.
  intros [Hp Hm]. unfold safe, no_ub, Deserializer.readTailData, Data.check_alloc, Deserializer._readData,
    mbind, M_bind. csimp. rewrite u64_small, decide_True by lia.
  simpl. rewrite Data.memcpy_from_ok by lia. simpl. split; [done|]. split; simpl; lia.
Qed.

Create HintDb serial.
#[local] Hint Resolve safe_read safe_readString safe_readData safe_readTailData safe_ret : core.

(** C40. Memory safety of the checked reads. On any byte string shorter than
    [PTRDIFF_MAX] and from any position inside it, every read call except
    [readFixedSizeData] stays inside the buffer, whatever the bytes are: it
    never reads out of bounds (including [readData], whose length field may
    make [_pos + size] wrap around 64 bits, and [readTailData], whose size is
    a difference in 64 bits) and leaves the position inside. *)
Theorem deserializer_checked_reads_safe f s :
  checked f → reader_ok s → safe (read_field f) s.
Proof.
  destruct f; simpl; intros Hc Hs; try done;
    (apply safe_bind; [|by auto]); auto;
    try (apply safe_bind; [by apply safe_read|by auto]);
    try by apply safe_read.
  apply safe_bind; [by apply safe_read|]. intros v s' _ Hs'.
  unfold safe, no_ub. repeat case_decide; done.
Qed.

Lemma deserializer_checked_reads_safe_witness :
  safe (read_field (FData [])) (Deserializer.new (replicate 8 xff ++ [x01])).
Proof.
  apply deserializer_checked_reads_safe; [done|]. by split; simpl; lia.
Defined.

(** [readFixedSizeData] has no bound check: with fewer than [SIZE] bytes
    left it copies from beyond the end of the source (unlike every other
    read call, which throws "size overflow"). *)
Theorem readFixedSizeData_unchecked SIZE s :
  (length (Deserializer._source s) < Deserializer._pos s + SIZE)%nat →
  Deserializer.readFixedSizeData SIZE s = (Throw UndefinedBehaviour, s).
Proof.
  intros H. unfold Deserializer.readFixedSizeData, Deserializer._readData, Data.memcpy_from.
  by rewrite decide_False by lia.
Qed.

Lemma readFixedSizeData_unchecked_witness :
  Deserializer.readFixedSizeData 16 (Deserializer.new [x01; x02]) =
    (Throw UndefinedBehaviour, Deserializer.new [x01; x02]).
Proof. apply readFixedSizeData_unchecked. simpl. lia. Defined.

(** ** Composable readers and writers

    [writes m d]: the writer [m] appends the bytes [d]. [reads m d a]: on a
    stream that continues with [d], the reader [m] consumes [d] and returns
    [a]. Clients of the serializer compose these. *)
Definition writes (m : M Serializer.t unit) (d : bytes) : Prop := ∀ s,
  (Serializer._pos s + length d ≤ length (Serializer._result s))%nat →
  ∃ s', m s = (Ok tt, s') ∧
    Serializer._pos s' = (Serializer._pos s + length d)%nat ∧
    length (Serializer._result s') = length (Serializer._result s) ∧
    take (Serializer._pos s') (Serializer._result s') =
      take (Serializer._pos s) (Serializer._result s) ++ d.

Definition reads {A} (m : M Deserializer.t A) (d : bytes) (a : A) : Prop := ∀ s rest,
  reader_ok s → unread s = d ++ rest → ∃ s', m s = (Ok a, s') ∧ advance d s s'.

Lemma advance_ok d rest s s' :
  reader_ok s → unread s = d ++ rest → advance d s s' → reader_ok s' ∧ unread s' = rest.
Proof.
  intros [Hp Hm] Hu Ha. destruct (advance_bound _ _ _ _ Hp Hu Ha) as [Hs' Hp'].
  split; [split; [done|by rewrite Hs']|]. by apply (advance_unread _ _ _ _ Ha).
Qed.

Lemma new_ok d : Z.of_nat (length d) < 2 ^ 63 → reader_ok (Deserializer.new d).
Proof. intros H. split; cbn [Deserializer.new Deserializer._pos Deserializer._source]; [lia|done]. Qed.

Lemma writes_field f : not_tail f → writes (write_field f) (field_bytes f).
Proof. intros Hf s Hl. apply write_field_step; auto. Qed.

Lemma writes_ret : writes (mret tt) [].
Proof. intros s _. exists s. rewrite app_nil_r. split_and!; [done|simpl; lia|done|done]. Qed.

Lemma writes_bind m1 m2 d1 d2 : writes m1 d1 → writes m2 d2 → writes (m1 ;; m2) (d1 ++ d2).
Proof.
  intros H1 H2 s Hl. rewrite length_app in Hl.
  destruct (H1 s) as (s1 & E1 & P1 & L1 & T1); [lia|].
  destruct (H2 s1) as (s2 & E2 & P2 & L2 & T2); [lia|].
  exists s2. rewrite (bind_ok _ _ _ _ _ E1), T2, T1, app_assoc. split_and!; [done|len|lia|done].
Qed.

(** A buffer of exactly the right size is filled and returned. *)
Lemma writes_finished m d uninit :
  writes m d → length uninit = length d →
  ∃ s, (m ;; Serializer.finished) (Serializer.new uninit) = (Ok d, s).
Proof.
  intros H Hl. destruct (H (Serializer.new uninit)) as (s1 & E1 & P1 & L1 & T1); [simpl; lia|].
  exists s1. rewrite (bind_ok _ _ _ _ _ E1). unfold Serializer.finished. simpl in *.
  rewrite decide_True by lia. rewrite take_ge in T1 by lia. by rewrite T1.
Qed.

Lemma reads_ret {A} (a : A) : reads (mret a) [] a.
Proof. intros s rest _ _. exists s. split; [done|]. unfold advance. simpl. rewrite Nat.add_0_r. by destruct s. Qed.

Lemma reads_bind {A B} (m : M Deserializer.t A) (k : A → M Deserializer.t B) d1 d2 a b :
  reads m d1 a → reads (k a) d2 b → reads (m ≫= k) (d1 ++ d2) b.
Proof.
  intros H1 H2 s rest [Hp Hm] Hu. rewrite <- app_assoc in Hu.
  destruct (H1 s _ (conj Hp Hm) Hu) as (s1 & E1 & A1).
  destruct (advance_bound _ _ _ _ Hp Hu A1) as [Hs1 Hp1].
  destruct (H2 s1 rest) as (s2 & E2 & A2);
    [split; [done|by rewrite Hs1]|by apply (advance_unread _ _ _ _ A1)|].
  exists s2. rewrite (bind_ok _ _ _ _ _ E1). split; [done|].
  rewrite A2, A1. unfold advance. f_equal. simpl. len.
Qed.

Lemma reads_fmap {A B} (m : M Deserializer.t A) (f : A → B) d a :
  reads m d a → reads (x ← m ; mret (f x)) d (f a).
Proof. intros H. rewrite <- (app_nil_r d). apply (reads_bind _ _ _ _ a); [done|apply reads_ret]. Qed.

Lemma reads_field f : field_ok f → not_tail f → reads (read_field f) (field_bytes f) f.
Proof. intros Hok Ht s rest [Hp Hm]. apply read_field_step; auto. Qed.

(** The field reads, without the wrapper. *)
Lemma reads_unfield {A} (K : A → field) (m : M Deserializer.t A) d a :
  (∀ x y, K x = K y → x = y) → reads (x ← m ; mret (K x)) d (K a) → reads m d a.
Proof.
  intros Hinj H s rest Hs Hu. destruct (H s rest Hs Hu) as (s' & E & Ha). exists s'. split; [|done].
  unfold mbind, M_bind in E. destruct (m s) as [[x|e] s1]; [|done].
  inversion E as [[Hx Hs']]. by apply Hinj in Hx as ->.
Qed.

Lemma reads_uint n v : (0 < n)%nat → 0 ≤ v < 256 ^ Z.of_nat n → reads (Deserializer._read n) (serialize n v) v.
Proof.
  intros Hn Hv s rest _ Hu. destruct (read_step n v rest s Hn Hu) as (s' & E & Ha).
  exists s'. by rewrite Z.mod_small in E.
Qed.

Lemma reads_bool b : reads Deserializer.readBool (field_bytes (FBool b)) b.
Proof. apply (reads_unfield FBool); [congruence|]. by apply (reads_field (FBool b)). Qed.

Lemma reads_string v : x00 ∉ v → reads Deserializer.readString (v ++ [x00]) v.
Proof. intros H. apply (reads_unfield FString); [congruence|]. by apply (reads_field (FString v)). Qed.

Lemma reads_fixed n d : length d = n → reads (Deserializer.readFixedSizeData n) d d.
Proof. intros <-. apply (reads_unfield FFixed); [congruence|]. by apply (reads_field (FFixed d)). Qed.

Lemma reads_data d : reads Deserializer.readData (field_bytes (FData d)) d.
Proof. apply (reads_unfield FData); [congruence|]. by apply (reads_field (FData d)). Qed.

Lemma reads_tail d s : reader_ok s → unread s = d →
  Deserializer.readTailData s = (Ok d, Deserializer.mk (length (Deserializer._source s)) (Deserializer._source s)).
Proof.
  intros [Hp Hm] Hu. destruct (readTailData_step d s Hp Hm Hu) as (s' & -> & ->).
  rewrite <- (app_nil_r d) in Hu. apply (unread_bound _ _ _ Hp) in Hu. simpl in Hu.
  do 3 f_equal. lia.
Qed.

(** A reader that consumes exactly a whole buffer ends with [finished]. *)
Lemma reads_finished {A} (m : M Deserializer.t A) d a :
  reads m d a → Z.of_nat (length d) < 2 ^ 63 →
  ∃ s', m (Deserializer.new d) = (Ok a, s') ∧ Deserializer.finished s' = (Ok tt, s').
Proof.
  intros H Hd. destruct (H (Deserializer.new d) []) as (s' & E & Ha);
    [by split; simpl; lia|by rewrite app_nil_r|].
  exists s'. split; [done|]. rewrite Ha. unfold Deserializer.finished. simpl. by rewrite decide_True.
Qed.

#[export] Hint Resolve writes_field writes_ret writes_bind reads_ret reads_bind reads_uint reads_bool
  reads_string reads_fixed reads_data : serial.

(** ** Sequences that end with tail data *)

(** A buffer of [n] bytes that has been filled with [d] so far. *)
Definition written (n : nat) (s : Serializer.t) (d : bytes) : Prop :=
  Serializer._pos s = length d ∧ length (Serializer._result s) = n
  ∧ take (Serializer._pos s) (Serializer._result s) = d.

(** [fills n m d out]: with [d] in the buffer, the writer [m] ends with the
    whole buffer [out]. *)
Definition fills (n : nat) (m : M Serializer.t bytes) (d out : bytes) : Prop :=
  ∀ s, written n s d → (m s).1 = Ok out.

Lemma fills_new m u out : fills (length u) m [] out → (m (Serializer.new u)).1 = Ok out.
Proof. intros H. by apply H. Qed.
Lemma fills_then n m k d d' out : writes m d' → (length d + length d' ≤ n)%nat →
  fills n k (d ++ d') out → fills n (m ;; k) d out.
Proof.
  intros Hm Hn Hk s (Hp & Hl & Ht). destruct (Hm s) as (s' & E & P & L & T); [lia|].
  rewrite (bind_ok _ _ _ _ _ E). apply Hk. unfold written. rewrite T, Ht, P. split_and!; [len|lia|done].
Qed.
Lemma fills_tail n d d' : (length d + length d' = n)%nat →
  fills n (Serializer.writeTailData d' ;; Serializer.finished) d (d ++ d').
Proof.
  intros Hn s (Hp & Hl & Ht). unfold Serializer.writeTailData.
  destruct (writeData_step d' s) as (s' & E & P & L & T); [lia|].
  unfold mbind, M_bind. csimp. rewrite bool_decide_true by lia. simpl. rewrite E.
  unfold Serializer.finished. rewrite decide_True by lia.
  rewrite take_ge in T by lia. by rewrite T, Ht.
Qed.

(** [parses m d a]: on a stream that ends after [d], the reader [m] returns
    [a]. *)
Definition parses {A} (m : M Deserializer.t A) (d : bytes) (a : A) : Prop :=
  ∀ s, reader_ok s → unread s = d → (m s).1 = Ok a.

Lemma parses_new {A} (m : M Deserializer.t A) d a : Z.of_nat (length d) < 2 ^ 63 →
  parses m d a → (m (Deserializer.new d)).1 = Ok a.
Proof. intros Hd H. apply H; [by apply new_ok|done]. Qed.
Lemma parses_then {A B} (m : M Deserializer.t A) (k : A → M Deserializer.t B) d a rest b :
  reads m d a → parses (k a) rest b → parses (m ≫= k) (d ++ rest) b.
Proof.
  intros Hm Hk s Hs Hu. destruct (Hm s rest Hs Hu) as (s' & E & Ha).
  rewrite (bind_ok _ _ _ _ _ E). destruct (advance_ok d rest s s' Hs Hu Ha). by apply Hk.
Qed.
Lemma parses_tail {A} (f : bytes → A) d :
  parses (x ← Deserializer.readTailData ; Deserializer.finished ;; mret (f x)) d (f d).
Proof.
  intros s Hs Hu. rewrite (bind_ok _ _ _ _ _ (reads_tail d s Hs Hu)).
  unfold mbind, M_bind, Deserializer.finished. simpl. by rewrite decide_True.
Qed.
Lemma parses_fmap {A B} (m : M Deserializer.t A) (f : A → B) d a :
  parses m d a → parses (x ← m ; mret (f x)) d (f a).
Proof.
  intros H s Hs Hu. specialize (H s Hs Hu). unfold mbind, M_bind. destruct (m s) as [[]?]; simpl in *; congruence.
Qed.
