(* ===== verification/RunLength.v ===== *)
(** * Run length encoding (blockstore/implementations/compressing/compressors)

    The compressor alternates a run of arbitrary bytes with a run of one
    repeated byte, each with its length in 16 bits. The pointers [current]
    and [end] are the list of bytes between them; the string streams are the
    bytes written so far and the bytes not yet read. The loops run on fuel;
    as many rounds as there are bytes are enough, for any input. *)
From S2P Require Import Prelude Serialization.
From Stdlib Require Import Lia ZArith.
Open Scope Z_scope.

Module RunLengthEncoding.
Definition UINT16_MAX : nat := Z.to_nat 65535.
(** A [uint16_t] as it is in memory. *)
Definition size_field (size : Z) : bytes := serialize 2 size.

(** The loop of [_arbitraryRunLength]; [i] is [current - start], the counter
    is a [uint8_t]. *)
Fixpoint find_run (region : bytes) (lastByte : byte) (numIdenticalBytes : Z) (i : Z) : option Z :=
  match region with
  | [] => None
  | current :: region' =>
      if decide (current = lastByte) then
        let numIdenticalBytes := u8 (numIdenticalBytes + 1) in
        if decide (numIdenticalBytes = 6) then Some (u16 (i - 5)) else find_run region' current numIdenticalBytes (i + 1)
      else find_run region' current 1 (i + 1)
  end.
Definition _arbitraryRunLength (start : bytes) : Z :=
  let region := take UINT16_MAX start in
  let lastByte := byte_of (byte_val (default x00 (head start)) + 1) in
  default (u16 (Z.of_nat (length region))) (find_run region lastByte 1 0).

(** The loop of [_countIdenticalBytes] over the bytes after the first. *)
Fixpoint count_identical (start : byte) (region : bytes) (i : Z) : Z :=
  match region with
  | [] => u16 i
  | current :: region' => if decide (current ≠ start) then u16 i else count_identical start region' (i + 1)
  end.
Definition _countIdenticalBytes (start : bytes) : Z :=
  match take UINT16_MAX start with [] => 0 | b :: region => count_identical b region 1 end.

(** The rest of the input and the output. *)
Definition _encodeArbitraryWords (current output : bytes) : bytes * bytes :=
  let size := _arbitraryRunLength current in
  (drop (Z.to_nat size) current, output ++ size_field size ++ take (Z.to_nat size) current).
Definition _encodeIdenticalWords (current output : bytes) : bytes * bytes :=
  let size := _countIdenticalBytes current in
  (drop (Z.to_nat size) current, output ++ size_field size ++ take 1 current).
Definition _extractData (stream : bytes) : result bytes :=
  Data.check_alloc (Z.of_nat (length stream)) ;; mret stream.

Fixpoint compress_loop (fuel : nat) (current output : bytes) : result bytes :=
  match fuel with
  | O => mthrow OutOfFuel
  | Datatypes.S fuel =>
      if decide (current = []) then mret output
      else
        let '(current, output) := _encodeArbitraryWords current output in
        if decide (current = []) then mret output
        else
          let '(current, output) := _encodeIdenticalWords current output in
          compress_loop fuel current output
  end.
Definition Compress (data : bytes) : result bytes :=
  compressed ← compress_loop (length data + 1) data [] ;
  _extractData compressed.

(** [stream->read(.., n)] followed by [ASSERT(stream->good(), ..)]. *)
Definition read (n : nat) (stream : bytes) : result (bytes * bytes) :=
  ASSERT (bool_decide (n ≤ length stream)%nat) "Premature end of stream" ;;
  mret (take n stream, drop n stream).
Definition read_size (stream : bytes) : result (nat * bytes) :=
  '(field, stream) ← read 2 stream ; mret (Z.to_nat (le_value field), stream).
Definition _hasData (stream : bytes) : bool := bool_decide (stream ≠ []).
Definition _decodeArbitraryWords (stream decompressed : bytes) : result (bytes * bytes) :=
  '(size, stream) ← read_size stream ;
  '(run, stream) ← read size stream ;
  mret (stream, decompressed ++ run).
Definition _decodeIdenticalWords (stream decompressed : bytes) : result (bytes * bytes) :=
  '(size, stream) ← read_size stream ;
  '(value, stream) ← read 1 stream ;
  mret (stream, decompressed ++ replicate size (default x00 (head value))).
Fixpoint decompress_loop (fuel : nat) (stream decompressed : bytes) : result bytes :=
  match fuel with
  | O => mthrow OutOfFuel
  | Datatypes.S fuel =>
      if negb (_hasData stream) then mret decompressed
      else
        '(stream, decompressed) ← _decodeArbitraryWords stream decompressed ;
        if negb (_hasData stream) then mret decompressed
        else
          '(stream, decompressed) ← _decodeIdenticalWords stream decompressed ;
          decompress_loop fuel stream decompressed
  end.
Definition Decompress (data : bytes) : result bytes :=
  decompressed ← decompress_loop (length data + 1) data [] ;
  _extractData decompressed.

(** ** The lengths of runs *)
Lemma find_run_range region : ∀ lastByte num i r, 1 ≤ num ≤ 5 → num ≤ i → i + Z.of_nat (length region) ≤ 65535 →
  find_run region lastByte num i = Some r → 0 ≤ r < i + Z.of_nat (length region).
Proof.
  induction region as [|c region IH]; intros lb num i r Hn Hi Hl; simpl; [done|]. cbn [length] in Hl.
  case_decide; [rewrite u8_small by lia; case_decide|].
  - intros [= <-]. rewrite u16_small by lia. lia.
  - intros E%IH; lia.
  - intros E%IH; lia.
Qed.
Lemma take_max (b : byte) (l : bytes) : take UINT16_MAX (b :: l) = b :: take (Z.to_nat 65534) l.
Proof. unfold UINT16_MAX. by replace (Z.to_nat 65535) with (Datatypes.S (Z.to_nat 65534)) by lia. Qed.
(** The first byte is never equal to the initial [lastByte]. *)
Lemma first_byte_differs (b : byte) : byte_of (byte_val b + 1) ≠ b.
Proof.
  intros E%(f_equal byte_val). rewrite byte_val_of in E. pose proof (byte_val_range b).
  destruct (decide (byte_val b = 255)) as [E'|]; [rewrite E' in E; discriminate E|]. rewrite Z.mod_small in E; lia.
Qed.
Lemma arbitrary_range (l : bytes) : l ≠ [] → 0 ≤ _arbitraryRunLength l ≤ Z.of_nat (length l) ∧ _arbitraryRunLength l < 2 ^ 16.
Proof.
  intros Hl. destruct l as [|b l]; [done|]. unfold _arbitraryRunLength. rewrite take_max. cbn [head default find_run].
  rewrite decide_False by (intros E; by apply (first_byte_differs b)).
  pose proof (length_take l (Z.to_nat 65534)) as Ht. set (region := take (Z.to_nat 65534) l) in *.
  cbn [length]. destruct (find_run region b 1 (0 + 1)) as [r|] eqn:E; cbn [default id].
  - apply find_run_range in E; unfold id; lia.
  - rewrite u16_small; lia.
Qed.
Lemma count_identical_spec b region : ∀ i, 1 ≤ i → i + Z.of_nat (length region) ≤ 65535 →
  ∃ k, (k ≤ length region)%nat ∧ count_identical b region i = i + Z.of_nat k ∧ take k region = replicate k b.
Proof.
  induction region as [|c region IH]; intros i Hi Hl; simpl; [exists 0%nat; rewrite u16_small by lia; split; [done|split; [lia|done]]|]. cbn [length] in Hl.
  case_decide as Hc; [exists 0%nat; rewrite u16_small by lia; split; [lia|split; [lia|done]]|].
  subst c. destruct (IH (i + 1)) as (k & Hk & -> & E); [lia|lia|]. exists (Datatypes.S k). split; [lia|]. split; [lia|]. simpl. by rewrite E.
Qed.
Lemma identical_spec (b : byte) (l : bytes) :
  ∃ k, (k ≤ length l)%nat ∧ _countIdenticalBytes (b :: l) = Z.of_nat (Datatypes.S k) ∧ Z.of_nat (Datatypes.S k) < 2 ^ 16 ∧ take k l = replicate k b.
Proof.
  unfold _countIdenticalBytes. rewrite take_max. destruct (count_identical_spec b (take (Z.to_nat 65534) l) 1) as (k & Hk & -> & E); [lia|rewrite length_take; lia|].
  rewrite length_take in Hk. exists k. split; [lia|]. split; [lia|]. split; [lia|]. rewrite take_take in E. by rewrite Nat.min_l in E by lia.
Qed.

(** ** Compressing and decompressing *)
Lemma length_size_field z : length (size_field z) = 2%nat.
Proof. apply length_serialize. Qed.
Lemma read_app n (a b : bytes) : length a = n → read n (a ++ b) = Ok (a, b).
Proof.
  intros <-. unfold read. rewrite assert_ok by (apply bool_decide_true; rewrite length_app; lia). csimp.
  by rewrite take_app_length, drop_app_length.
Qed.
Lemma read_size_app z rest : 0 ≤ z < 2 ^ 16 → read_size (size_field z ++ rest) = Ok (Z.to_nat z, rest).
Proof.
  intros Hz. unfold read_size. rewrite read_app by apply length_size_field. csimp. unfold size_field. rewrite le_value_serialize.
  by rewrite Z.mod_small by lia.
Qed.

Lemma has_data s : s ≠ [] → _hasData s = true.
Proof. apply bool_decide_true. Qed.

(** One round of the compressor, undone by one round of the decompressor. *)
Lemma decode_arbitrary (l rest out : bytes) : l ≠ [] → let n := Z.to_nat (_arbitraryRunLength l) in
  _decodeArbitraryWords (size_field (_arbitraryRunLength l) ++ take n l ++ rest) out = Ok (rest, out ++ take n l).
Proof.
  intros Hl n. destruct (arbitrary_range l Hl) as [H1 H2]. unfold _decodeArbitraryWords. rewrite read_size_app by lia. csimp.
  fold n. rewrite read_app; [done|]. rewrite length_take. lia.
Qed.
Lemma decode_identical (l rest out : bytes) : l ≠ [] → let n := Z.to_nat (_countIdenticalBytes l) in
  _decodeIdenticalWords (size_field (_countIdenticalBytes l) ++ take 1 l ++ rest) out = Ok (rest, out ++ take n l) ∧ (0 < n ≤ length l)%nat.
Proof.
  intros Hl n. destruct l as [|b l]; [done|]. destruct (identical_spec b l) as (k & Hk & E & H16 & Ht). unfold n. rewrite E, Nat2Z.id. split; [|cbn [length]; lia].
  unfold _decodeIdenticalWords. rewrite read_size_app by lia. csimp. rewrite Nat2Z.id. cbn [take].
  rewrite read_app by done. csimp. rewrite Ht. done.
Qed.

Lemma compress_decompress n : ∀ (l : bytes), (length l ≤ n)%nat → ∃ c, (length c ≤ 6 * length l)%nat ∧
  (∀ fuel out, (length l < fuel)%nat → compress_loop fuel l out = Ok (out ++ c)) ∧
  (∀ fuel out, (length c < fuel)%nat → decompress_loop fuel c out = Ok (out ++ l)).
Proof.
  induction n as [|n IH]; intros l Hn.
  { destruct l as [|? ?]; [|cbn [length] in Hn; lia]. exists []. split; [done|]. split; intros [|fuel] out Hf; try lia; simpl; by rewrite app_nil_r. }
  destruct (decide (l = [])) as [->|Hl].
  { exists []. split; [done|]. split; intros [|fuel] out Hf; try lia; simpl; by rewrite app_nil_r. }
  set (a := Z.to_nat (_arbitraryRunLength l)). assert (length l ≠ 0%nat) as Hl0 by (by destruct l).
  assert (∀ rest, size_field (_arbitraryRunLength l) ++ rest ≠ []) as Hne.
  { intros rest E%(f_equal length). rewrite length_app, length_size_field in E. simpl in E. lia. }
  destruct (decide (drop a l = [])) as [Hd|Hd].
  - exists (size_field (_arbitraryRunLength l) ++ take a l ++ []). split; [rewrite !length_app, length_size_field, length_take; simpl; lia|]. split; intros [|fuel] out Hf; try lia.
    + simpl. rewrite decide_False by done. unfold _encodeArbitraryWords. fold a. rewrite decide_True by done. by rewrite app_nil_r.
    + cbn [decompress_loop]. rewrite has_data by apply Hne. cbn [negb]. rewrite decode_arbitrary by done. csimp. fold a.
      cbn. rewrite <- (take_drop a l) at 2. by rewrite Hd, app_nil_r.
  - set (l1 := drop a l) in *. set (k := Z.to_nat (_countIdenticalBytes l1)). destruct (decode_identical l1 [] [] Hd) as [_ Hk]. fold k in Hk.
    assert (length l1 = length l - a)%nat as Hlen by apply length_drop.
    destruct (IH (drop k l1)) as (c & Hc & Hcomp & Hdec); [rewrite length_drop; lia|]. rewrite length_drop in Hc.
    assert (length (take 1 l1) = 1%nat) as H1 by (rewrite length_take; lia).
    exists (size_field (_arbitraryRunLength l) ++ take a l ++ size_field (_countIdenticalBytes l1) ++ take 1 l1 ++ c).
    split; [rewrite !length_app, !length_size_field, length_take, H1; lia|]. split; intros [|fuel] out Hf; try lia.
    + simpl. rewrite decide_False by done. unfold _encodeArbitraryWords. fold a l1. rewrite decide_False by done. unfold _encodeIdenticalWords. fold k.
      rewrite Hcomp by (rewrite length_drop; lia). by rewrite <- !app_assoc.
    + cbn [decompress_loop]. rewrite has_data by apply Hne. cbn [negb]. rewrite decode_arbitrary by done. csimp. fold a.
      rewrite has_data by (intros E%(f_equal length); rewrite length_app, length_size_field in E; simpl in E; lia).
      cbn [negb]. destruct (decode_identical l1 c (out ++ take a l) Hd) as [-> _]. csimp. fold k.
      rewrite Hdec; [rewrite <- !app_assoc, take_drop; unfold l1; by rewrite take_drop|]. rewrite !length_app, !length_size_field in Hf. lia.
Qed.

(** C36. What is compressed is decompressed. For every block of up to
    2^60 bytes, [Compress] returns, with at most six times the bytes, and
    [Decompress] of its result is the block. *)
Theorem rle_roundtrip (data : bytes) : Z.of_nat (length data) ≤ 2 ^ 60 →
  ∃ compressed, Compress data = Ok compressed ∧ (length compressed ≤ 6 * length data)%nat ∧ Decompress compressed = Ok data.
Proof.
  intros Hd. destruct (compress_decompress _ data (Nat.le_refl _)) as (c & Hc & H1 & H2). exists c.
  unfold Compress, Decompress, _extractData, Data.check_alloc. rewrite (H1 (length data + 1)%nat), (H2 (length c + 1)%nat) by lia. csimp.
  cbn [app]. rewrite !decide_True by lia. done.
Qed.

(** ** Decompressing anything *)
Lemma read_shorter n s r s' : read n s = Ok (r, s') → length s = (n + length s')%nat.
Proof. unfold read, ASSERT. case_bool_decide; [|done]. csimp. intros [= <- <-]. rewrite length_drop. lia. Qed.
Definition premature : exn := AssertFailed "Premature end of stream".
Lemma read_result n s : (∃ r s', read n s = Ok (r, s')) ∨ read n s = Throw premature.
Proof. unfold read, ASSERT. case_bool_decide; [left; by eexists _, _|by right]. Qed.
Lemma decode_result (second : bool) s out :
  let r := if second then _decodeIdenticalWords s out else _decodeArbitraryWords s out in
  r = Throw premature ∨ ∃ s' out', r = Ok (s', out') ∧ (length s' < length s)%nat.
Proof.
  assert (read_size s = Throw premature ∨ ∃ n s', read_size s = Ok (n, s') ∧ (length s' < length s)%nat) as H.
  { unfold read_size. destruct (read_result 2 s) as [(r & s' & E)| ->]; [right|by left]. rewrite E. eexists _, _. split; [done|]. apply read_shorter in E. lia. }
  destruct second; cbv zeta; [unfold _decodeIdenticalWords|unfold _decodeArbitraryWords]; (destruct H as [->|(n & s' & -> & Hl)]; [by left|]); csimp;
    [destruct (read_result 1 s') as [(r & s'' & E)| ->]|destruct (read_result n s') as [(r & s'' & E)| ->]]; try (by left); right; rewrite E; eexists _, _;
    (split; [done|]); apply read_shorter in E; lia.
Qed.
Lemma decompress_total fuel : ∀ s out, (length s < fuel)%nat → decompress_loop fuel s out = Throw premature ∨ ∃ data, decompress_loop fuel s out = Ok data.
Proof.
  induction fuel as [|fuel IH]; intros s out Hf; [lia|]. simpl. unfold _hasData. case_bool_decide; simpl; [|right; by eexists].
  destruct (decode_result false s out) as [->|(s1 & out1 & -> & H1)]; [by left|]. csimp. case_bool_decide; simpl; [|right; by eexists].
  destruct (decode_result true s1 out1) as [->|(s2 & out2 & -> & H2)]; [by left|]. csimp. apply IH. lia.
Qed.

(** C37. The decompressor ends on every input, also on bytes no compressor
    wrote: it returns a block, or the assertion about the end of the stream
    fails, or there is not enough memory for the result; it reads nothing
    beyond its input. The fuel, one round per byte, is enough. *)
Theorem decompress_terminates (data : bytes) :
  Decompress data = Throw premature ∨ Decompress data = Throw BadAlloc ∨ ∃ block, Decompress data = Ok block.
Proof.
  unfold Decompress. destruct (decompress_total (length data + 1) data []) as [->|[block ->]]; [lia|by left|]. csimp.
  unfold _extractData, Data.check_alloc. case_decide; [right; right; by eexists|right; by left].
Qed.
End RunLengthEncoding.

Lemma rle_roundtrip_witness : let data := replicate 9 x05 ++ [x01; x02] in
  RunLengthEncoding.Compress data = Ok ([x00; x00; x09; x00; x05; x02; x00; x01; x02]) ∧
  ∃ compressed, RunLengthEncoding.Compress data = Ok compressed ∧ (length compressed ≤ 6 * length data)%nat ∧ RunLengthEncoding.Decompress compressed = Ok data.
Proof. intros data. split; [by vm_compute|]. apply (RunLengthEncoding.rle_roundtrip data). vm_compute. discriminate. Defined.
