(* ===== verification/Version.v ===== *)
(** * Version numbers (gitversion/parser.cpp, gitversion/VersionCompare.cpp)

    Version strings like "0.9.4", "0.10-alpha" and "0.10+7.gabcdef" are taken
    apart with string streams and compared number by number. The comparison
    decides whether a file system is too old, too new, or has to be
    migrated. *)
From S2P Require Import Prelude Serialization.
From Stdlib Require Import Lia ZArith.
Open Scope Z_scope.

(** ** String streams and numbers *)

(** An [istringstream]: what is left to read, and [good()]. *)
Record istringstream := mkStream { s_rest : bytes; s_good : bool }.

(** The bytes before the first delimiter, and those after it. *)
Fixpoint split_first (d : byte) (l : bytes) : option (bytes * bytes) :=
  match l with
  | [] => None
  | x :: l' => if decide (x = d) then Some ([], l') else p ← split_first d l' ; Some (x :: p.1, p.2)
  end.
(** [getline] into an empty string: without a delimiter it takes everything
    and reaches the end; a stream that is not good gives nothing. *)
Definition getline (d : byte) : M istringstream bytes := λ s,
  if s_good s then
    match split_first d (s_rest s) with
    | Some (l, r) => (Ok l, mkStream r true)
    | None => (Ok (s_rest s), mkStream [] false)
    end
  else (Ok [], s).
Definition good : M istringstream bool := λ s, (Ok (s_good s), s).
Definition on_stream {A} (m : M istringstream A) (l : bytes) : result A := (m (mkStream l true)).1.

Definition newline : byte := x0a.
Definition is_space (b : byte) : bool := bool_decide (b ∈ [x20; x09; x0a; x0b; x0c; x0d]).
Definition is_digit (b : byte) : bool := (48 <=? byte_val b) && (byte_val b <=? 57).
Fixpoint skip_spaces (l : bytes) : bytes :=
  match l with x :: l' => if is_space x then skip_spaces l' else l | [] => [] end.
Fixpoint digits (l : bytes) : bytes :=
  match l with x :: l' => if is_digit x then x :: digits l' else [] | [] => [] end.
Definition digits_value (l : bytes) : Z := foldl (λ a b, a * 10 + (byte_val b - 48)) 0 l.

(** [std::stoul]: white space, a sign, digits; what follows is ignored, a
    number with a minus sign wraps around. *)
Definition stoul (l : bytes) : result Z :=
  let l := skip_spaces l in
  let '(neg, l) := match l with x2b :: l' => (false, l') | x2d :: l' => (true, l') | _ => (false, l) end in
  match digits l with
  | [] => mthrow InvalidArgument
  | ds =>
      if decide (digits_value ds < 2 ^ 64)
      then mret (if (neg : bool) then u64 (- digits_value ds) else digits_value ds)
      else mthrow OutOfRange
  end.

(** ** Parser *)
Record VersionInfo := mkInfo {
  isDevVersion : bool;
  isStableVersion : bool;
  versionTag : bytes;
  gitCommitId : bytes;
  majorVersion : bytes;
  minorVersion : bytes;
  hotfixVersion : bytes;
  commitsSinceTag : Z }.

Definition _splitAt (versionString : bytes) (delimiter : byte) : result (bytes * option bytes) :=
  on_stream (
    versionNumber ← getline delimiter ;
    g ← good ;
    if (g : bool) then versionInfo ← getline newline ; mret (versionNumber, Some versionInfo)
    else mret (versionNumber, None)) versionString.

Definition _extractMajorMinorHotfix (versionNumber : bytes) : result (bytes * bytes * bytes) :=
  on_stream (
    major ← getline x2e ;
    g ← good ;
    minor ← (if (g : bool) then getline x2e else mret (str "0")) ;
    g ← good ;
    hotfix ← (if (g : bool) then getline newline else mret (str "0")) ;
    mret (major, minor, hotfix)) versionNumber.

Definition _extractMajorMinorHotfixTag (versionNumber : bytes) : result (bytes * bytes * bytes * bytes) :=
  '(majorMinorHotfix, versionTag) ← _splitAt versionNumber x2d ;
  '(major, minor, hotfix) ← _extractMajorMinorHotfix majorMinorHotfix ;
  mret (major, minor, hotfix, default [] versionTag).

Definition _extractGitCommitIdAndCommitsSinceTag (versionInfo : bytes) : result (bytes * Z) :=
  on_stream (
    commitsSinceTag ← getline x2e ;
    g ← good ;
    if negb g then mthrow (LogicError "Invalid version information: Missing delimiter after commitsSinceTag")
    else
      gitCommitId ← getline x2e ;
      match gitCommitId with
      | x67 :: id => n ← lift (stoul commitsSinceTag) ; mret (id, n)
      | _ => mthrow (LogicError "Invalid version information: Git commit id component doesn't start with 'g'")
      end) versionInfo.

(** [commitsSinceTag] is an [unsigned int]. *)
Definition parse (versionString : bytes) : result VersionInfo :=
  '(versionNumber, versionInfo) ← _splitAt versionString x2b ;
  '(major, minor, hotfix, tag) ← _extractMajorMinorHotfixTag versionNumber ;
  let isDev := match versionInfo with Some _ => true | None => false end in
  let isStable := negb isDev && (bool_decide (tag = []) || bool_decide (tag = str "stable")) in
  '(commitId, commits) ←
    match versionInfo with
    | Some info =>
        if decide (info = str "unknown") then mret ([], 0)
        else '(id, n) ← _extractGitCommitIdAndCommitsSinceTag info ; mret (id, u32 n)
    | None => mret ([], 0)
    end ;
  mret (mkInfo isDev isStable tag commitId major minor hotfix commits).

(** ** VersionCompare *)

(** [strcmp]: up to the first null byte. *)
Fixpoint strcmp (a b : bytes) : comparison :=
  match a, b with
  | [], [] => Eq
  | [], y :: _ => if decide (y = x00) then Eq else Lt
  | x :: _, [] => if decide (x = x00) then Eq else Gt
  | x :: a', y :: b' =>
      match byte_val x ?= byte_val y with Eq => if decide (x = x00) then Eq else strcmp a' b' | c => c end
  end.
Definition _versionTagCompare (tag1 tag2 : bytes) : comparison :=
  if decide (tag1 = []) then (if decide (tag2 = []) then Eq else Gt)
  else if decide (tag2 = []) then Lt else strcmp tag1 tag2.

Definition isOlderThan (v1Str v2Str : bytes) : result bool :=
  v1 ← parse v1Str ;
  v2 ← parse v2Str ;
  v1_major ← stoul (majorVersion v1) ;
  v2_major ← stoul (majorVersion v2) ;
  v1_minor ← stoul (minorVersion v1) ;
  v2_minor ← stoul (minorVersion v2) ;
  v1_hotfix ← stoul (hotfixVersion v1) ;
  v2_hotfix ← stoul (hotfixVersion v2) ;
  let tagCompare := _versionTagCompare (versionTag v1) (versionTag v2) in
  mret ((v1_major <? v2_major) || ((v1_major =? v2_major) && (
        (v1_minor <? v2_minor) || ((v1_minor =? v2_minor) && (
        (v1_hotfix <? v2_hotfix) || ((v1_hotfix =? v2_hotfix) && (
        bool_decide (tagCompare = Lt) || (bool_decide (tagCompare = Eq) && (
        commitsSinceTag v1 <? commitsSinceTag v2))))))))).

Example older_1 : isOlderThan (str "0.9.3") (str "0.9.4") = Ok true.
Proof. done. Qed.
Example older_2 : isOlderThan (str "0.10-alpha") (str "0.10") = Ok true.
Proof. done. Qed.
Example older_3 : isOlderThan (str "0.10") (str "0.10+2.gabc") = Ok true.
Proof. done. Qed.
Example older_4 : isOlderThan (str "0.9.10") (str "0.9.9") = Ok false.
Proof. done. Qed.

(** ** Reference: version texts and their order *)
Definition numeral (l : bytes) : Prop :=
  l ≠ [] ∧ Forall (λ b, is_digit b = true) l ∧ digits_value l < 2 ^ 64.
#[global] Instance numeral_dec l : Decision (numeral l).
Proof. unfold numeral. apply _. Defined.

(** The parts of a version: "major[.minor[.hotfix]][-tag][+commits.gid]", or
    "+unknown" at the end. *)
Record version := mkVersion {
  v_major : bytes;
  v_minor : option (bytes * option bytes);
  v_tag : bytes;
  v_dev : option (option (bytes * bytes)) }.

Definition print_numbers (v : version) : bytes :=
  v_major v ++ match v_minor v with
               | None => []
               | Some (m, None) => x2e :: m
               | Some (m, Some h) => x2e :: m ++ x2e :: h
               end.
Definition print_tag (v : version) : bytes := if decide (v_tag v = []) then [] else x2d :: v_tag v.
Definition print_dev (v : version) : bytes :=
  match v_dev v with
  | None => []
  | Some None => x2b :: str "unknown"
  | Some (Some (n, id)) => x2b :: n ++ x2e :: x67 :: id
  end.
Definition print_version (v : version) : bytes := print_numbers v ++ print_tag v ++ print_dev v.

Definition version_ok (v : version) : Prop :=
  numeral (v_major v)
  ∧ match v_minor v with
    | None => True
    | Some (m, h) => numeral m ∧ match h with None => True | Some h => numeral h end
    end
  ∧ Forall (λ b, b ∉ [x00; newline; x2b]) (v_tag v)
  ∧ match v_dev v with
    | Some (Some (n, id)) => numeral n ∧ digits_value n < 2 ^ 32 ∧ Forall (λ b, b ∉ [newline; x2e]) id
    | _ => True
    end.

Record version_key := mkKey { k_major : Z; k_minor : Z; k_hotfix : Z; k_tag : bytes; k_commits : Z }.
Definition minor_text (v : version) : bytes := match v_minor v with Some (m, _) => m | None => str "0" end.
Definition hotfix_text (v : version) : bytes := match v_minor v with Some (_, Some h) => h | _ => str "0" end.
Definition commits_of (v : version) : Z :=
  match v_dev v with Some (Some (n, _)) => digits_value n | _ => 0 end.
Definition key_of (v : version) : version_key :=
  mkKey (digits_value (v_major v)) (digits_value (minor_text v)) (digits_value (hotfix_text v)) (v_tag v) (commits_of v).

(** Byte strings in dictionary order; a release is newer than all its
    pre-releases. *)
Inductive bytes_lt : bytes → bytes → Prop :=
| bytes_lt_nil x b : bytes_lt [] (x :: b)
| bytes_lt_head x y a b : byte_val x < byte_val y → bytes_lt (x :: a) (y :: b)
| bytes_lt_tail x a b : bytes_lt a b → bytes_lt (x :: a) (x :: b).
Inductive tag_lt : bytes → bytes → Prop :=
| tag_lt_release t : t ≠ [] → tag_lt t []
| tag_lt_tags t u : t ≠ [] → u ≠ [] → bytes_lt t u → tag_lt t u.
Inductive older : version_key → version_key → Prop :=
| older_major k l : k_major k < k_major l → older k l
| older_minor k l : k_major k = k_major l → k_minor k < k_minor l → older k l
| older_hotfix k l : k_major k = k_major l → k_minor k = k_minor l → k_hotfix k < k_hotfix l → older k l
| older_tag k l : k_major k = k_major l → k_minor k = k_minor l → k_hotfix k = k_hotfix l →
    tag_lt (k_tag k) (k_tag l) → older k l
| older_commits k l : k_major k = k_major l → k_minor k = k_minor l → k_hotfix k = k_hotfix l →
    k_tag k = k_tag l → k_commits k < k_commits l → older k l.

(** ** Proofs *)
Lemma split_first_app d a b : d ∉ a → split_first d (a ++ d :: b) = Some (a, b).
Proof.
  induction a as [|x a IH]; intros Hd; simpl.
  - by rewrite decide_True.
  - apply not_elem_of_cons in Hd as [? ?]. by rewrite decide_False, IH.
Qed.
Lemma split_first_None d a : d ∉ a → split_first d a = None.
Proof.
  induction a as [|x a IH]; intros Hd; simpl; [done|].
  apply not_elem_of_cons in Hd as [? ?]. by rewrite decide_False, IH.
Qed.

Ltac streams := unfold on_stream, getline, good, lift, mbind, M_bind, mret, M_ret; simpl.
Lemma splitAt_None d a : d ∉ a → _splitAt a d = Ok (a, None).
Proof. intros Hd. unfold _splitAt. streams. by rewrite split_first_None. Qed.
Lemma splitAt_Some d a b : d ∉ a → newline ∉ b → _splitAt (a ++ d :: b) d = Ok (a, Some b).
Proof.
  intros Hd Hb. unfold _splitAt. streams.
  rewrite split_first_app by done. simpl. by rewrite split_first_None.
Qed.

Lemma digits_all l : Forall (λ b, is_digit b = true) l → digits l = l.
Proof. induction 1 as [|x l Hx _ IH]; simpl; [done|]. by rewrite Hx, IH. Qed.
Lemma digit_not_in b l : is_digit b = false → Forall (λ b, is_digit b = true) l → b ∉ l.
Proof. intros Hb Hl Hin. rewrite Forall_forall in Hl. apply Hl in Hin. congruence. Qed.
Lemma stoul_numeral l : numeral l → stoul l = Ok (digits_value l).
Proof.
  intros (Hne & Hl & Hv). destruct l as [|x l]; [done|]. pose proof (Forall_inv Hl) as Hx.
  unfold stoul. assert (skip_spaces (x :: l) = x :: l) as -> by (destruct x; done).
  assert (match x :: l with x2b :: l' => (false, l') | x2d :: l' => (true, l') | _ => (false, x :: l) end
    = (false, x :: l)) as -> by (destruct x; done).
  rewrite digits_all by done. by rewrite decide_True.
Qed.
Lemma digits_value_nonneg l : Forall (λ b, is_digit b = true) l → 0 ≤ digits_value l.
Proof.
  unfold digits_value. assert (∀ a, 0 ≤ a → Forall (λ b, is_digit b = true) l →
    0 ≤ foldl (λ a b, a * 10 + (byte_val b - 48)) a l) as H; [|by apply H].
  induction l as [|x l IH]; intros a Ha Hl; simpl; [done|]. inversion Hl as [|?? Hx ?]; subst.
  apply IH; [|done]. unfold is_digit in Hx. lia.
Qed.
Lemma numeral_zero : numeral (str "0").
Proof. apply (bool_decide_unpack _). by vm_compute. Qed.

Lemma extract_numbers v : version_ok v →
  _extractMajorMinorHotfix (print_numbers v) = Ok (v_major v, minor_text v, hotfix_text v).
Proof.
  intros ((_ & HM & _) & Hm & _). unfold _extractMajorMinorHotfix, print_numbers, minor_text, hotfix_text.
  streams.
  assert (∀ l, Forall (λ b, is_digit b = true) l → x2e ∉ l) as Hdot by (intros; by apply digit_not_in).
  assert (∀ l, Forall (λ b, is_digit b = true) l → newline ∉ l) as Hnl by (intros; by apply digit_not_in).
  destruct (v_minor v) as [[m [h|]]|].
  - destruct Hm as [(_ & Hm & _) (_ & Hh & _)].
    rewrite split_first_app by auto; simpl. rewrite split_first_app by auto; simpl.
    by rewrite split_first_None by auto.
  - destruct Hm as [(_ & Hm & _) _].
    rewrite split_first_app by auto; simpl. by rewrite split_first_None by auto.
  - rewrite app_nil_r. by rewrite split_first_None by auto.
Qed.

Lemma extract_dev n id : numeral n → Forall (λ b, b ∉ [newline; x2e]) id →
  _extractGitCommitIdAndCommitsSinceTag (n ++ x2e :: x67 :: id) = Ok (id, digits_value n).
Proof.
  intros Hn Hid. unfold _extractGitCommitIdAndCommitsSinceTag. streams.
  rewrite split_first_app by (apply digit_not_in; [done|apply Hn]). simpl.
  rewrite split_first_None; simpl; [by rewrite stoul_numeral|].
  intros Hin. rewrite Forall_forall in Hid. apply Hid in Hin. set_solver.
Qed.

Lemma print_numbers_chars v b : version_ok v → is_digit b = false → b ≠ x2e → b ∉ print_numbers v.
Proof.
  intros ((_ & HM & _) & Hm & _) Hb Hdot. unfold print_numbers.
  destruct (v_minor v) as [[m [h|]]|]; [destruct Hm as [(_ & ? & _) (_ & ? & _)]|destruct Hm as [(_ & ? & _) _]|];
    rewrite ?not_elem_of_app, ?not_elem_of_cons, ?not_elem_of_app, ?not_elem_of_cons, ?app_nil_r;
    repeat split; auto using digit_not_in; set_solver.
Qed.
Lemma tag_chars v b : version_ok v → b ∈ [x00; newline; x2b] → b ∉ v_tag v.
Proof. intros (_ & _ & Ht & _) Hb Hin. rewrite Forall_forall in Ht. by apply (Ht b). Qed.

Lemma extract_tag v : version_ok v →
  _extractMajorMinorHotfixTag (print_numbers v ++ print_tag v) = Ok (v_major v, minor_text v, hotfix_text v, v_tag v).
Proof.
  intros Hv. unfold _extractMajorMinorHotfixTag, print_tag.
  assert (x2d ∉ print_numbers v) by (by apply print_numbers_chars).
  destruct (decide (v_tag v = [])) as [->|].
  - rewrite app_nil_r, splitAt_None by done. simpl. by rewrite extract_numbers.
  - rewrite splitAt_Some; [|done|apply tag_chars; [done|set_solver]]. simpl. by rewrite extract_numbers.
Qed.

Definition info_of (v : version) : VersionInfo :=
  mkInfo (bool_decide (is_Some (v_dev v)))
    (bool_decide (v_dev v = None) && (bool_decide (v_tag v = []) || bool_decide (v_tag v = str "stable")))
    (v_tag v) (match v_dev v with Some (Some (_, id)) => id | _ => [] end)
    (v_major v) (minor_text v) (hotfix_text v) (commits_of v).

Lemma dev_not_unknown n l : numeral n → n ++ l ≠ str "unknown".
Proof. intros (Hne & Hn & _) H. destruct n as [|x n]; [done|]. inversion Hn; subst. by injection H as -> _. Qed.

(** Parsing is the inverse of writing a version out: for a version with
    well-formed numbers, tag and commit information, the parser gives back
    every part, fills in "0" for the numbers that are left out, and
    classifies it as development or stable version. *)
Lemma parse_print v : version_ok v → parse (print_version v) = Ok (info_of v).
Proof.
  intros Hv. unfold parse, print_version, print_dev, info_of, commits_of.
  assert (x2b ∉ print_numbers v ++ print_tag v) as Hplus.
  { rewrite not_elem_of_app. split; [by apply print_numbers_chars|]. unfold print_tag.
    case_decide; [set_solver|]. apply not_elem_of_cons; split; [done|]. apply tag_chars; set_solver. }
  pose proof Hv as (_ & _ & _ & Hdev). rewrite app_assoc. destruct (v_dev v) as [[[n id]|]|].
  - destruct Hdev as (Hn & Hlt & Hid). rewrite splitAt_Some; [|done|].
    2:{ rewrite not_elem_of_app, !not_elem_of_cons. split_and!; [apply digit_not_in; [done|apply Hn]|done|done|].
        intros Hin. rewrite Forall_forall in Hid. apply Hid in Hin. set_solver. }
    simpl. rewrite extract_tag by done. simpl. rewrite decide_False by (by apply dev_not_unknown).
    rewrite extract_dev by done. simpl. unfold u32. by rewrite Z.mod_small by (split; [apply digits_value_nonneg, Hn|done]).
  - rewrite splitAt_Some; [|done|apply (bool_decide_unpack _); by vm_compute]. simpl. by rewrite extract_tag.
  - rewrite app_nil_r, splitAt_None by done. simpl. by rewrite extract_tag.
Qed.

Lemma strcmp_spec t u : x00 ∉ t → x00 ∉ u →
  match strcmp t u with Lt => bytes_lt t u | Eq => t = u | Gt => bytes_lt u t end.
Proof.
  revert u. induction t as [|x t IH]; intros [|y u] Ht Hu; simpl.
  - done.
  - apply not_elem_of_cons in Hu as [? _]. rewrite decide_False by done. constructor.
  - apply not_elem_of_cons in Ht as [? _]. rewrite decide_False by done. constructor.
  - apply not_elem_of_cons in Ht as [? ?], Hu as [? ?].
    destruct (Z.compare_spec (byte_val x) (byte_val y)) as [->%byte_val_inj| |]; [|by constructor..].
    rewrite decide_False by done. specialize (IH u). destruct (strcmp t u); [f_equal|apply bytes_lt_tail..]; auto.
Qed.
Lemma tagCompare_spec t u : x00 ∉ t → x00 ∉ u →
  match _versionTagCompare t u with Lt => tag_lt t u | Eq => t = u | Gt => tag_lt u t end.
Proof.
  intros Ht Hu. unfold _versionTagCompare. repeat case_decide; subst; try done; [by constructor..|].
  pose proof (strcmp_spec t u Ht Hu). destruct (strcmp t u); [done|by apply tag_lt_tags..].
Qed.

#[global] Instance bytes_lt_strict : StrictOrder bytes_lt.
Proof.
  split.
  - intros a H. assert (∀ b, bytes_lt a b → a ≠ b) as Hne; [|by apply (Hne a)].
    clear H. induction 1; [done|intros [= -> _]; lia|congruence].
  - intros a b c H. revert c. induction H as [|x y a b Hxy|x a b H IH]; intros c Hc; inversion Hc; subst;
      constructor; auto; lia.
Qed.
#[global] Instance tag_lt_strict : StrictOrder tag_lt.
Proof.
  split.
  - intros t Ht. inversion Ht; subst; [done|]. by apply (irreflexivity bytes_lt t).
  - intros t u w H1 H2. destruct H1; inversion H2; subst; try done; [by constructor|].
    apply tag_lt_tags; [done..|]. by etrans.
Qed.
#[global] Instance older_strict : StrictOrder older.
Proof.
  split.
  - intros k H. inversion H; subst; try lia. by apply (irreflexivity tag_lt (k_tag k)).
  - intros k l m H1 H2. destruct H1; inversion H2; subst;
      try (apply older_major; lia); try (apply older_minor; lia); try (apply older_hotfix; lia);
      try (apply older_tag; [lia..|]; (by etrans) || congruence).
    apply older_commits; [lia..|congruence|lia].
Qed.

Definition version_tag_ok (k : version_key) : Prop := x00 ∉ k_tag k.
Definition older_compare (k l : version_key) : comparison :=
  match k_major k ?= k_major l with
  | Eq =>
      match k_minor k ?= k_minor l with
      | Eq =>
          match k_hotfix k ?= k_hotfix l with
          | Eq => match _versionTagCompare (k_tag k) (k_tag l) with Eq => k_commits k ?= k_commits l | c => c end
          | c => c
          end
      | c => c
      end
  | c => c
  end.
Lemma older_compare_spec k l : version_tag_ok k → version_tag_ok l →
  match older_compare k l with Lt => older k l | Eq => k = l | Gt => older l k end.
Proof.
  intros Hk Hl. unfold older_compare. pose proof (tagCompare_spec _ _ Hk Hl) as Ht. destruct k, l; simpl in *.
  repeat (case Z.compare_spec; intros; subst);
    try (by apply older_major); try (by apply older_minor); try (by apply older_hotfix).
  all: destruct (_versionTagCompare _ _); subst; first [done|by apply older_tag|by apply older_commits].
Qed.

Lemma older_compare_Lt k l : version_tag_ok k → version_tag_ok l → older_compare k l = Lt ↔ older k l.
Proof.
  intros Hk Hl. pose proof (older_compare_spec k l Hk Hl) as H.
  destruct (older_compare k l); subst; split; try done; intros Ho.
  - by apply irreflexivity in Ho; [|apply _].
  - by destruct (asymmetry Ho H).
Qed.
Lemma numerals_ok v : version_ok v → numeral (v_major v) ∧ numeral (minor_text v) ∧ numeral (hotfix_text v).
Proof.
  intros (HM & Hm & _). unfold minor_text, hotfix_text.
  destruct (v_minor v) as [[m [h|]]|]; [destruct Hm as [? ?]..|]; auto using numeral_zero.
Qed.
Lemma isOlderThan_compare v w : version_ok v → version_ok w →
  isOlderThan (print_version v) (print_version w) =
    Ok (match older_compare (key_of v) (key_of w) with Lt => true | _ => false end).
Proof.
  intros Hv Hw. unfold isOlderThan. rewrite !parse_print by done. simpl.
  destruct (numerals_ok v Hv) as (? & ? & ?), (numerals_ok w Hw) as (? & ? & ?).
  rewrite !stoul_numeral by done. simpl. unfold older_compare, key_of; simpl. f_equal.
  unfold Z.ltb. rewrite !Z.eqb_compare.
  repeat match goal with |- context [Z.compare ?a ?b] => destruct (Z.compare a b); simpl; try done end;
    destruct (_versionTagCompare _ _); done.
Qed.

(** On versions written out in full or in part, [isOlderThan] throws
    nothing and decides a strict total order on what the versions mean: it
    compares major, minor and hotfix number, then the tag, where a release
    comes after all its tagged pre-releases and tags compare in dictionary
    order, then the commits since the tag; of two versions neither of which
    is older, both mean the same. *)
Theorem isOlderThan_orders v w : version_ok v → version_ok w →
  (isOlderThan (print_version v) (print_version w) = Ok true ↔ older (key_of v) (key_of w))
  ∧ (isOlderThan (print_version v) (print_version w) = Ok false ↔ ¬ older (key_of v) (key_of w))
  ∧ (isOlderThan (print_version v) (print_version w) = Ok false →
     isOlderThan (print_version w) (print_version v) = Ok false → key_of v = key_of w)
  ∧ StrictOrder older.
Proof.
  intros Hv Hw. rewrite !isOlderThan_compare by done.
  assert (version_tag_ok (key_of v) ∧ version_tag_ok (key_of w)) as [Tv Tw]
    by (split; apply tag_chars; (done || apply (bool_decide_unpack _); by vm_compute)).
  pose proof (older_compare_Lt _ _ Tv Tw). pose proof (older_compare_Lt _ _ Tw Tv).
  pose proof (older_compare_spec _ _ Tv Tw).
  split_and!; [| | |apply _]; destruct (older_compare (key_of v) (key_of w)), (older_compare (key_of w) (key_of v)); intuition congruence.
Qed.

(** Version 0.10-alpha+7.gab against 0.10. *)
Definition v_alpha : version :=
  mkVersion (str "0") (Some (str "10", None)) (str "alpha") (Some (Some (str "7", str "ab"))).
Definition v_release : version := mkVersion (str "0") (Some (str "10", None)) [] None.
Lemma version_ok_alpha : version_ok v_alpha.
Proof. unfold version_ok; simpl. split_and!; try done; apply (bool_decide_unpack _); by vm_compute. Qed.
Lemma version_ok_release : version_ok v_release.
Proof. unfold version_ok; simpl. split_and!; try done; apply (bool_decide_unpack _); by vm_compute. Qed.
Lemma isOlderThan_orders_witness :
  print_version v_alpha = str "0.10-alpha+7.gab" ∧ print_version v_release = str "0.10"
  ∧ (isOlderThan (print_version v_alpha) (print_version v_release) = Ok true ↔
     older (key_of v_alpha) (key_of v_release))
  ∧ isOlderThan (print_version v_alpha) (print_version v_release) = Ok true.
Proof.
  split_and!; try reflexivity.
  exact (proj1 (isOlderThan_orders v_alpha v_release version_ok_alpha version_ok_release)).
Defined.
