(* ===== verification/BlockStore.v ===== *)
(** * The block store interface (blockstore/interface/BlockStore2.h)

    [BlockStore2] is the interface every layer implements and is built on;
    [BlockStore2Spec] is what a layer promises its client: it behaves like a
    finite map from block ids to byte strings. [InMemoryBlockStore2] and
    [ReadOnlyBlockStore2] are the two simplest implementations. *)
From S2P Require Import Prelude Serialization.
From Stdlib Require Import Lia ZArith.

(** The operations of a block store whose state is [S]. [forEachBlock]
    returns the ids its callback is called with, in order. *)
Class BlockStore2 (S : Type) := {
  tryCreate : bytes → bytes → M S bool;
  remove : bytes → M S bool;
  load : bytes → M S (option bytes);
  store : bytes → bytes → M S unit;
  numBlocks : S → Z;
  estimateNumFreeBytes : S → Z;
  blockSizeFromPhysicalBlockSize : S → Z → Z;
  forEachBlock : M S (list bytes);
}.

(** [BlockStore2::create]: draw ids until one can be created. [candidates] are
    the ids [createBlockId] returns, in order; the loop does not end as long
    as every drawn id is taken, so an exhausted list is [None]. *)
Fixpoint create {S} `{!BlockStore2 S} (candidates : list bytes) (data : bytes) : M S (option bytes) :=
  match candidates with
  | [] => mret None
  | blockId :: candidates' =>
      success ← tryCreate blockId data ;
      if (success : bool) then mret (Some blockId) else create candidates' data
  end.

(** The contract of a block store. [repr n s m]: the state [s] stands for the
    map [m], and the store can still take [n] writes (a layer that numbers
    its writes refuses one after 2^64 - 2 of them). [maxSize] is the largest
    block a client may write. [refuses s id]: in the state [s] the store looks
    at the existing block [id] before it creates one; then [tryCreate] returns
    false and nothing changes, as the interface says. For stores that do not
    always look (the cache, the integrity layer) creating a block is specified
    for ids that are not in use, and for those it does look at. *)
Class BlockStore2Spec (S : Type) `{!BlockStore2 S} := {
  repr : nat → S → gmap bytes bytes → Prop;
  maxSize : Z;
  refuses : S → bytes → Prop;
  load_spec n s m id :
    BlockId.valid id → repr n s m →
    ∃ s', load id s = (Ok (m !! id), s') ∧ repr n s' m;
  store_spec n s m id data :
    BlockId.valid id → Z.of_nat (length data) ≤ maxSize → repr (Datatypes.S n) s m →
    ∃ s', store id data s = (Ok tt, s') ∧ repr n s' (<[id := data]> m);
  tryCreate_spec n s m id data :
    BlockId.valid id → Z.of_nat (length data) ≤ maxSize → m !! id = None → repr (Datatypes.S n) s m →
    ∃ s', tryCreate id data s = (Ok true, s') ∧ repr n s' (<[id := data]> m);
  tryCreate_refused n s m id data :
    BlockId.valid id → Z.of_nat (length data) ≤ maxSize → is_Some (m !! id) → refuses s id → repr n s m →
    ∃ s', tryCreate id data s = (Ok false, s') ∧ repr n s' m;
  remove_spec n s m id :
    BlockId.valid id → repr n s m →
    ∃ s', remove id s = (Ok (bool_decide (is_Some (m !! id))), s') ∧ repr n s' (delete id m);
  numBlocks_spec n s m : repr n s m → numBlocks s = u64 (Z.of_nat (size m));
  forEachBlock_spec n s m :
    repr n s m → ∃ ids s', forEachBlock s = (Ok ids, s') ∧ repr n s' m ∧ ids ≡ₚ (map_to_list m).*1;
  repr_ids n s m id : repr n s m → is_Some (m !! id) → BlockId.valid id;
  repr_size n s m id data : repr n s m → m !! id = Some data → Z.of_nat (length data) ≤ maxSize;
  repr_le n n' s m : (n' ≤ n)%nat → repr n s m → repr n' s m;
}.

(** A program over a block store, and the map it computes. *)
Inductive block_op :=
| OpStore (id data : bytes)
| OpCreate (id data : bytes)
| OpRemove (id : bytes)
| OpLoad (id : bytes).

Inductive op_result := RUnit | RBool (b : bool) | RData (d : option bytes).

Definition run_op {S} `{!BlockStore2 S} (o : block_op) : M S op_result :=
  match o with
  | OpStore id data => store id data ;; mret RUnit
  | OpCreate id data => b ← tryCreate id data ; mret (RBool b)
  | OpRemove id => b ← remove id ; mret (RBool b)
  | OpLoad id => d ← load id ; mret (RData d)
  end.

Fixpoint run_ops {S} `{!BlockStore2 S} (os : list block_op) : M S (list op_result) :=
  match os with
  | [] => mret []
  | o :: os' => r ← run_op o ; rs ← run_ops os' ; mret (r :: rs)
  end.

(** The abstract store: the same operations on a finite map. *)
Definition model_op (o : block_op) (m : gmap bytes bytes) : op_result * gmap bytes bytes :=
  match o with
  | OpStore id data => (RUnit, <[id := data]> m)
  | OpCreate id data =>
      match m !! id with None => (RBool true, <[id := data]> m) | Some _ => (RBool false, m) end
  | OpRemove id => (RBool (bool_decide (is_Some (m !! id))), delete id m)
  | OpLoad id => (RData (m !! id), m)
  end.

Fixpoint model_ops (os : list block_op) (m : gmap bytes bytes) : list op_result * gmap bytes bytes :=
  match os with
  | [] => ([], m)
  | o :: os' =>
      let '(r, m1) := model_op o m in let '(rs, m2) := model_ops os' m1 in (r :: rs, m2)
  end.

(** What every operation must respect: ids of the right length and data
    within the size limit. *)
Definition op_valid (limit : Z) (o : block_op) : Prop :=
  match o with
  | OpStore id data | OpCreate id data => BlockId.valid id ∧ Z.of_nat (length data) ≤ limit
  | OpRemove id | OpLoad id => BlockId.valid id
  end.
(** A creation is of an id that is not in use, or of one that the store in
    the state [s] refuses. *)
Section ops_ok.
Context {S : Type} `{!BlockStore2 S} (refused : S → bytes → Prop) (limit : Z).
Definition op_ok (o : block_op) (s : S) (m : gmap bytes bytes) : Prop :=
  op_valid limit o ∧ match o with OpCreate id _ => is_Some (m !! id) → refused s id | _ => True end.
Fixpoint ops_ok (os : list block_op) (s : S) (m : gmap bytes bytes) : Prop :=
  match os with
  | [] => True
  | o :: os' => op_ok o s m ∧ ops_ok os' (run_op o s).2 (model_op o m).2
  end.
End ops_ok.

Section client.
Context {S : Type} `{!BlockStore2 S} `{!BlockStore2Spec S}.

Lemma run_op_spec n s m o :
  repr (Datatypes.S n) s m → op_ok refuses maxSize o s m →
  ∃ s', run_op o s = (Ok (model_op o m).1, s') ∧ repr n s' (model_op o m).2.
Proof.
  intros Hr [Hok Hfresh]. destruct o; simpl in *.
  - destruct Hok as [Hid Hd]. destruct (store_spec _ _ _ _ _ Hid Hd Hr) as (s' & E & Hr').
    exists s'. by rewrite (bind_ok _ _ _ _ _ E).
  - destruct Hok as [Hid Hd]. destruct (m !! id) as [old|] eqn:Hf.
    + apply (repr_le _ n) in Hr; [|lia].
      destruct (tryCreate_refused n s m id data Hid Hd) as (s' & E & Hr'); [by rewrite Hf|by apply Hfresh|done|].
      exists s'. by rewrite (bind_ok _ _ _ _ _ E).
    + destruct (tryCreate_spec _ _ _ _ _ Hid Hd Hf Hr) as (s' & E & Hr').
      exists s'. by rewrite (bind_ok _ _ _ _ _ E).
  - apply (repr_le _ n) in Hr; [|lia]. destruct (remove_spec _ _ _ _ Hok Hr) as (s' & E & Hr').
    exists s'. by rewrite (bind_ok _ _ _ _ _ E).
  - apply (repr_le _ n) in Hr; [|lia]. destruct (load_spec _ _ _ _ Hok Hr) as (s' & E & Hr').
    exists s'. by rewrite (bind_ok _ _ _ _ _ E).
Qed.

(** A store that meets the contract computes, for every sequence of
    operations, what the finite map computes. *)
Lemma run_ops_spec os n s m :
  repr (n + length os) s m → ops_ok refuses maxSize os s m →
  ∃ s', run_ops os s = (Ok (model_ops os m).1, s') ∧ repr n s' (model_ops os m).2.
Proof.
  revert s m. induction os as [|o os IH]; intros s m Hr Hok; simpl in *.
  - rewrite Nat.add_0_r in Hr. by exists s.
  - destruct Hok as [Ho Hos]. rewrite Nat.add_succ_r in Hr.
    destruct (run_op_spec _ _ _ _ Hr Ho) as (s1 & E1 & Hr1).
    rewrite (bind_ok _ _ _ _ _ E1). rewrite E1 in Hos.
    destruct (model_op o m) as [r m1]; simpl in *.
    destruct (IH s1 m1 Hr1 Hos) as (s2 & E2 & Hr2). exists s2.
    rewrite (bind_ok _ _ _ _ _ E2). by destruct (model_ops os m1).
Qed.

(** Stores that refuse every id in use need no condition on creations. *)
Lemma ops_ok_valid limit os : (∀ (s : S) id, refuses s id) → Forall (op_valid limit) os → ∀ s m, ops_ok refuses limit os s m.
Proof.
  intros Href. induction 1 as [|o os Ho Hos IH]; intros s m; simpl; [done|]. split; [|apply IH].
  split; [done|]. by destruct o; intros; try done.
Qed.
Lemma ops_ok_le (limit limit' : Z) os : limit ≤ limit' → ∀ (s : S) m, ops_ok refuses limit os s m → ops_ok refuses limit' os s m.
Proof.
  intros Hle. induction os as [|o os IH]; intros s m; [done|]. intros [[Ho Hc] Hos]. split; [|by apply IH].
  split; [|done]. destruct o; simpl in *; try done; lia || (destruct Ho; split; [done|lia]).
Qed.

(** [create] skips candidates that are in use and refused, and returns the
    first that is not in use. *)
Lemma create_refused n s m id candidates data :
  BlockId.valid id → Z.of_nat (length data) ≤ maxSize → is_Some (m !! id) → refuses s id → repr n s m →
  ∃ s', create (id :: candidates) data s = create candidates data s' ∧ repr n s' m.
Proof.
  intros Hid Hd Hm Href Hr. destruct (tryCreate_refused n s m id data Hid Hd Hm Href Hr) as (s' & E & Hr').
  exists s'. simpl. by rewrite (bind_ok _ _ _ _ _ E).
Qed.
(** [create] returns the first candidate when it is not in use. *)
Lemma create_spec n s m id candidates data :
  BlockId.valid id → Z.of_nat (length data) ≤ maxSize → m !! id = None →
  repr (Datatypes.S n) s m →
  ∃ s', create (id :: candidates) data s = (Ok (Some id), s') ∧ repr n s' (<[id := data]> m).
Proof.
  intros Hid Hd Hf Hr. simpl.
  destruct (tryCreate_spec _ _ _ _ _ Hid Hd Hf Hr) as (s' & E & Hr').
  exists s'. by rewrite (bind_ok _ _ _ _ _ E).
Qed.
End client.

(** ** InMemoryBlockStore2.cpp

    The [unordered_map] is a finite map; [total_memory] is what
    [get_total_memory] returns. *)
Module InMemoryBlockStore2.
Record t := mk { _blocks : gmap bytes bytes; total_memory : Z }.

Definition set_blocks (b : gmap bytes bytes) (s : t) : t := mk b (total_memory s).

(** [_blocks.insert(make_pair(..))] does nothing when the key exists. *)
Definition _tryCreate (blockId data : bytes) : M t bool := λ s,
  match _blocks s !! blockId with
  | Some _ => (Ok false, s)
  | None => (Ok true, set_blocks (<[blockId := data]> (_blocks s)) s)
  end.

Definition tryCreate (blockId data : bytes) : M t bool := _tryCreate blockId data.

Definition remove (blockId : bytes) : M t bool := λ s,
  match _blocks s !! blockId with
  | None => (Ok false, s)
  | Some _ => (Ok true, set_blocks (delete blockId (_blocks s)) s)
  end.

Definition load (blockId : bytes) : M t (option bytes) := λ s, (Ok (_blocks s !! blockId), s).

Definition store (blockId data : bytes) : M t unit :=
  s ← get_state ;
  match _blocks s !! blockId with
  | None =>
      success ← _tryCreate blockId data ;
      if (success : bool) then mret tt
      else mthrow (RuntimeError "Could neither save nor create the block in InMemoryBlockStore::store()")
  | Some _ => put_state (set_blocks (<[blockId := data]> (_blocks s)) s)
  end.

Definition numBlocks (s : t) : Z := u64 (Z.of_nat (size (_blocks s))).
Definition estimateNumFreeBytes (s : t) : Z := total_memory s.
Definition blockSizeFromPhysicalBlockSize (s : t) (blockSize : Z) : Z := blockSize.
Definition _allBlockIds (s : t) : list bytes := (map_to_list (_blocks s)).*1.
Definition forEachBlock : M t (list bytes) := λ s, (Ok (_allBlockIds s), s).

#[export] Instance ops : BlockStore2 t := {
  tryCreate := tryCreate; remove := remove; load := load; store := store;
  numBlocks := numBlocks; estimateNumFreeBytes := estimateNumFreeBytes;
  blockSizeFromPhysicalBlockSize := blockSizeFromPhysicalBlockSize;
  forEachBlock := forEachBlock }.

(** Blocks are [Data] objects, so at most [PTRDIFF_MAX] bytes long. *)
Definition limit : Z := 2 ^ 63 - 1.

Definition represents (_ : nat) (s : t) (m : gmap bytes bytes) : Prop :=
  _blocks s = m ∧ map_Forall (λ id data, BlockId.valid id ∧ Z.of_nat (length data) ≤ limit) m.

Lemma store_eq id data s :
  store id data s = (Ok tt, set_blocks (<[id := data]> (_blocks s)) s).
Proof.
  unfold store, mbind, M_bind, _tryCreate. csimp.
  by destruct (_blocks s !! id) eqn:E; csimp; rewrite ?E.
Qed.

#[export] Program Instance spec : BlockStore2Spec t := {
  repr := represents; maxSize := limit; refuses _ _ := True }.
Next Obligation. intros n s m id _ [<- H]. by exists s. Qed.
Next Obligation.
  intros n s m id data Hid Hd [<- H]. simpl. rewrite store_eq. eexists. split; [done|].
  split; [done|]. by apply map_Forall_insert_2.
Qed.
Next Obligation.
  intros n s m id data Hid Hd Hf [<- H]. simpl. unfold tryCreate, _tryCreate. rewrite Hf.
  eexists. split; [done|]. split; [done|]. by apply map_Forall_insert_2.
Qed.
Next Obligation.
  intros n s m id data Hid _ [d Hd] _ [<- H]. simpl. unfold tryCreate, _tryCreate. rewrite Hd. by exists s.
Qed.
Next Obligation.
  intros n s m id Hid [<- H]. simpl. unfold remove.
  destruct (_blocks s !! id) eqn:E; eexists; (split; [done|]); (split; simpl).
  - done.
  - by apply map_Forall_delete.
  - by rewrite delete_id.
  - by rewrite delete_id.
Qed.
Next Obligation. by intros n s m [<- _]. Qed.
Next Obligation. intros n s m [<- H]. exists (_allBlockIds s), s. by split_and!. Qed.
Next Obligation. intros n s m id [<- H] [d Hd]. by apply H in Hd as []. Qed.
Next Obligation. intros n s m id d [<- H] Hd. by apply H in Hd as []. Qed.
Next Obligation. done. Qed.
End InMemoryBlockStore2.
#[export] Existing Instance InMemoryBlockStore2.ops.
#[export] Existing Instance InMemoryBlockStore2.spec.

(** ** ReadOnlyBlockStore2.h *)
Module ReadOnlyBlockStore2.
Section readonly.
Context {Base : Type} `{!BlockStore2 Base}.

Definition tryCreate (blockId data : bytes) : M Base bool :=
  mthrow (LogicError "Tried to call tryCreate on a ReadOnlyBlockStore. Writes to the block store aren't allowed.").
Definition remove (blockId : bytes) : M Base bool :=
  mthrow (LogicError "Tried to call remove on a ReadOnlyBlockStore. Writes to the block store aren't allowed.").
Definition load (blockId : bytes) : M Base (option bytes) := BlockStore.load blockId.
Definition store (blockId data : bytes) : M Base unit :=
  mthrow (LogicError "Tried to call store on a ReadOnlyBlockStore. Writes to the block store aren't allowed.").
Definition numBlocks (s : Base) : Z := BlockStore.numBlocks s.
Definition estimateNumFreeBytes (s : Base) : Z := BlockStore.estimateNumFreeBytes s.
Definition blockSizeFromPhysicalBlockSize (s : Base) (blockSize : Z) : Z :=
  BlockStore.blockSizeFromPhysicalBlockSize s blockSize.
Definition forEachBlock : M Base (list bytes) := BlockStore.forEachBlock.

(** The operations of the wrapper, as a block store of its own. *)
Definition ops : BlockStore2 Base := {|
  BlockStore.tryCreate := tryCreate; BlockStore.remove := remove; BlockStore.load := load;
  BlockStore.store := store; BlockStore.numBlocks := numBlocks;
  BlockStore.estimateNumFreeBytes := estimateNumFreeBytes;
  BlockStore.blockSizeFromPhysicalBlockSize := blockSizeFromPhysicalBlockSize;
  BlockStore.forEachBlock := forEachBlock |}.
End readonly.
End ReadOnlyBlockStore2.
