(* ===== verification/HighLevel.v ===== *)
(** * Block stores with block objects (blockstore/interface/Block.h, BlockStore.h)

    A [BlockStore] hands out block objects: a client loads a block, writes to
    it in memory, and the destructor of the object writes it back. A block
    has one owner, so a block object is a value that every operation takes
    and returns. [LowToHighLevelBlockStore] implements the interface on a
    [BlockStore2], [CompressingBlockStore] on another [BlockStore]. The mutex
    of a block is not modelled; a block whose write-back throws is not used
    any more. *)
From S2P Require Import Prelude Serialization BlockStore RunLength.
From Stdlib Require Import Lia ZArith.
Open Scope Z_scope.

(** The interface. *)
Class BlockStoreOps (S B : Type) := {
  h_tryCreate : bytes → bytes → M S (option B);
  h_overwrite : bytes → bytes → M S B;
  h_load : bytes → M S (option B);
  h_remove : bytes → M S unit;
  h_numBlocks : S → Z;
  h_estimateNumFreeBytes : S → Z;
  h_blockSizeFromPhysicalBlockSize : S → Z → Z;
  h_forEachBlock : M S (list bytes);
  b_blockId : B → bytes;
  b_data : B → bytes;
  b_write : bytes → Z → B → result B;
  b_resize : nat → B → result B;
  b_flush : B → M S B;
  b_destruct : B → M S unit }.

Section interface.
Context {S B : Type} `{!BlockStoreOps S B}.
Definition b_size (b : B) : nat := length (b_data b).
(** [remove(unique_ref<Block>)] and [create]; [candidates] are the ids that
    [createBlockId] returns. *)
Definition h_remove_block (b : B) : M S unit := let blockId := b_blockId b in b_destruct b ;; h_remove blockId.
Fixpoint h_create (candidates : list bytes) (data : bytes) : M S (option B) :=
  match candidates with
  | [] => mret None
  | id :: candidates' => b ← h_tryCreate id data ; match b with Some b => mret (Some b) | None => h_create candidates' data end
  end.
End interface.

(** ** LowToHighLevelBlock.cpp, LowToHighLevelBlockStore.cpp *)
Module LowToHighLevel.
Record block := mk { _blockId : bytes; _data : bytes; _dataChanged : bool }.
Section store.
Context {S : Type} `{!BlockStore2 S}.

Definition TryCreateNew (blockId data : bytes) : M S (option block) :=
  success ← BlockStore.tryCreate blockId data ;
  if negb success then mret None else mret (Some (mk blockId data false)).
Definition Overwrite (blockId data : bytes) : M S block :=
  BlockStore.store blockId data ;; mret (mk blockId data false).
Definition Load (blockId : bytes) : M S (option block) :=
  loadedData ← BlockStore.load blockId ;
  match loadedData with None => mret None | Some loadedData => mret (Some (mk blockId loadedData false)) end.
Definition _storeToBaseBlock (b : block) : M S block :=
  if _dataChanged b then BlockStore.store (_blockId b) (_data b) ;; mret (mk (_blockId b) (_data b) false) else mret b.
Definition write (source : bytes) (offset : Z) (b : block) : result block :=
  let size := Z.of_nat (length (_data b)) in
  ASSERT (bool_decide (offset ≤ size) && bool_decide (u64 (offset + Z.of_nat (length source)) ≤ size)) "Write outside of valid area" ;;
  data ← Data.memcpy_to (_data b) (Z.to_nat offset) source ;
  mret (mk (_blockId b) data true).
Definition flush (b : block) : M S block := _storeToBaseBlock b.
Definition resize (newSize : nat) (b : block) : result block :=
  data ← Data.resize (_data b) newSize ; mret (mk (_blockId b) data true).
Definition destruct (b : block) : M S unit := run_destructor (_ ← _storeToBaseBlock b ; mret tt).

(** The message of the exception names the block. *)
Definition remove (blockId : bytes) : M S unit :=
  success ← BlockStore.remove blockId ;
  if negb success then mthrow (RuntimeError "Couldn't delete block with id") else mret tt.

#[export] Instance ops : BlockStoreOps S block := {
  h_tryCreate := TryCreateNew; h_overwrite := Overwrite; h_load := Load; h_remove := remove;
  h_numBlocks := BlockStore.numBlocks; h_estimateNumFreeBytes := BlockStore.estimateNumFreeBytes;
  h_blockSizeFromPhysicalBlockSize := BlockStore.blockSizeFromPhysicalBlockSize; h_forEachBlock := BlockStore.forEachBlock;
  b_blockId := _blockId; b_data := _data; b_write := write; b_resize := resize; b_flush := flush; b_destruct := destruct }.
End store.
End LowToHighLevel.

(** ** Compressors and CompressedBlock.h, CompressingBlockStore.h *)
Class Compressor := { compress : bytes → result bytes; decompress : bytes → result bytes }.
Definition rle : Compressor := {| compress := RunLengthEncoding.Compress; decompress := RunLengthEncoding.Decompress |}.

Module Compressing.
Record block (B : Type) := mk { _baseBlock : B; _decompressedData : bytes; _dataChanged : bool }.
Arguments mk {B} _ _ _.
Arguments _baseBlock {B} _.
Arguments _decompressedData {B} _.
Arguments _dataChanged {B} _.
Section store.
Context {compressor : Compressor} {S B : Type} {base : BlockStoreOps S B}.
Abbreviation blk := (block B).

Definition TryCreateNew (blockId decompressedData : bytes) : M S (option blk) :=
  compressed ← lift (compress decompressedData) ;
  baseBlock ← h_tryCreate blockId compressed ;
  match baseBlock with None => mret None | Some baseBlock => mret (Some (mk baseBlock decompressedData false)) end.
Definition Overwrite (blockId decompressedData : bytes) : M S blk :=
  compressed ← lift (compress decompressedData) ;
  baseBlock ← h_overwrite blockId compressed ;
  mret (mk baseBlock decompressedData false).
Definition Decompress (baseBlock : B) : result blk :=
  decompressed ← decompress (b_data baseBlock) ;
  mret (mk baseBlock decompressed false).
Definition _compressToBaseBlock (b : blk) : result blk :=
  if _dataChanged b then
    compressed ← compress (_decompressedData b) ;
    base1 ← b_resize (length compressed) (_baseBlock b) ;
    base2 ← b_write compressed 0 base1 ;
    mret (mk base2 (_decompressedData b) false)
  else mret b.
(** No check of the offset. *)
Definition write (source : bytes) (offset : Z) (b : blk) : result blk :=
  data ← Data.memcpy_to (_decompressedData b) (Z.to_nat offset) source ;
  mret (mk (_baseBlock b) data true).
Definition flush (b : blk) : M S blk :=
  b ← lift (_compressToBaseBlock b) ;
  base1 ← b_flush (_baseBlock b) ;
  mret (mk base1 (_decompressedData b) (_dataChanged b)).
Definition resize (newSize : nat) (b : blk) : result blk :=
  data ← Data.resize (_decompressedData b) newSize ; mret (mk (_baseBlock b) data true).
Definition releaseBaseBlock (b : blk) : result B := b ← _compressToBaseBlock b ; mret (_baseBlock b).
(** The destructor of the base block runs after the body. *)
Definition destruct (b : blk) : M S unit :=
  match _compressToBaseBlock b with
  | Throw _ => mthrow Terminate
  | Ok b => b_destruct (_baseBlock b)
  end.

Definition load (blockId : bytes) : M S (option blk) :=
  loaded ← h_load blockId ;
  match loaded with None => mret None | Some baseBlock => b ← on_throw (b_destruct baseBlock) (lift (Decompress baseBlock)) ; mret (Some b) end.

#[export] Instance ops : BlockStoreOps S blk := {
  h_tryCreate := TryCreateNew; h_overwrite := Overwrite; h_load := load; h_remove := h_remove;
  h_numBlocks := h_numBlocks; h_estimateNumFreeBytes := h_estimateNumFreeBytes;
  h_blockSizeFromPhysicalBlockSize := h_blockSizeFromPhysicalBlockSize; h_forEachBlock := h_forEachBlock;
  b_blockId b := b_blockId (_baseBlock b); b_data := _decompressedData; b_write := write; b_resize := resize; b_flush := flush; b_destruct := destruct }.
End store.
End Compressing.

(** ** The contract

    [owns b id d d0]: the object [b] is the block [id] with the content [d];
    [d0] is what is stored. A write-back needs one write of the store. *)
Definition resized (d : bytes) (n : nat) : bytes := take n d ++ replicate (n - length d) x00.
Class HighLevelSpec (S B : Type) `{!BlockStoreOps S B} := {
  h_repr : nat → S → gmap bytes bytes → Prop;
  h_max : Z;
  owns : B → bytes → bytes → bytes → Prop;
  (** The store looks at the existing block before it creates one. *)
  h_refuses : S → bytes → Prop;
  owns_data b id d d0 : owns b id d d0 → b_data b = d ∧ b_blockId b = id;
  owns_write b id d d0 src off : owns b id d d0 → (off + length src ≤ length d)%nat → Z.of_nat (length d) ≤ h_max →
    ∃ b', b_write src (Z.of_nat off) b = Ok b' ∧ owns b' id (splice off src d) d0;
  owns_resize b id d d0 n : owns b id d d0 → ∃ b', b_resize n b = Ok b' ∧ owns b' id (resized d n) d0;
  h_flush_spec n s m b id d d0 : owns b id d d0 → h_repr (Datatypes.S n) s m → m !! id = Some d0 → Z.of_nat (length d) ≤ h_max →
    runs (b_flush b) s (λ b' s', owns b' id d d ∧ h_repr n s' (<[id := d]> m));
  h_destruct_spec n s m b id d d0 : owns b id d d0 → h_repr (Datatypes.S n) s m → m !! id = Some d0 → Z.of_nat (length d) ≤ h_max →
    runs (b_destruct b) s (λ _ s', h_repr n s' (<[id := d]> m));
  h_load_spec n s m id : BlockId.valid id → h_repr n s m →
    runs (h_load id) s (λ r s', h_repr n s' m ∧ match m !! id with None => r = None | Some d => ∃ b, r = Some b ∧ owns b id d d end);
  h_tryCreate_spec n s m id d : BlockId.valid id → Z.of_nat (length d) ≤ h_max → m !! id = None → h_repr (Datatypes.S n) s m →
    runs (h_tryCreate id d) s (λ r s', h_repr n s' (<[id := d]> m) ∧ ∃ b, r = Some b ∧ owns b id d d);
  h_tryCreate_refused n s m id d : BlockId.valid id → Z.of_nat (length d) ≤ h_max → is_Some (m !! id) → h_refuses s id → h_repr n s m →
    runs (h_tryCreate id d) s (λ r s', r = None ∧ h_repr n s' m);
  h_overwrite_spec n s m id d : BlockId.valid id → Z.of_nat (length d) ≤ h_max → h_repr (Datatypes.S n) s m →
    runs (h_overwrite id d) s (λ b s', h_repr n s' (<[id := d]> m) ∧ owns b id d d);
  h_remove_spec n s m id : BlockId.valid id → is_Some (m !! id) → h_repr n s m → runs (h_remove id) s (λ _ s', h_repr n s' (delete id m));
  h_remove_missing n s m id : BlockId.valid id → m !! id = None → h_repr n s m →
    ∃ s', h_remove id s = (Throw (RuntimeError "Couldn't delete block with id"), s') ∧ h_repr n s' m;
  h_repr_le n n' s m : (n' ≤ n)%nat → h_repr n s m → h_repr n' s m }.

(** *** LowToHighLevelBlockStore keeps the contract *)
Section low_to_high.
Context {S : Type} `{!BlockStore2 S} `{!BlockStore2Spec S}.
Import LowToHighLevel.

Definition low_owns (b : block) (id d d0 : bytes) : Prop :=
  b = mk id d (_dataChanged b) ∧ BlockId.valid id ∧ (_dataChanged b = false → d = d0).

Lemma storeToBase_spec n s m b id d d0 : low_owns b id d d0 → repr (Datatypes.S n) s m → m !! id = Some d0 → Z.of_nat (length d) ≤ maxSize →
  runs (_storeToBaseBlock b) s (λ b' s', low_owns b' id d d ∧ repr n s' (<[id := d]> m)).
Proof.
  intros (-> & Hid & Hc) Hr Hm Hd. unfold _storeToBaseBlock. cbn [_dataChanged _blockId _data] in *. destruct (_dataChanged b).
  - destruct (store_spec _ _ _ _ _ Hid Hd Hr) as (s' & E & Hr'). eapply runs_bind_eq; [exact E|]. apply runs_ret. done.
  - apply runs_ret. rewrite Hc in * by done. split; [done|]. rewrite insert_id by done. eapply repr_le; [|exact Hr]. lia.
Qed.

#[export] Program Instance low_to_high_spec : HighLevelSpec S block := {
  h_repr := repr; h_max := Z.min maxSize (2 ^ 63); owns := low_owns; h_refuses := refuses }.
Next Obligation. intros b id d d0 (-> & _). done. Qed.
Next Obligation.
  intros b id d d0 src off (-> & Hid & Hc) Hoff Hd. simpl. unfold write. cbn [_data _blockId].
  rewrite assert_ok by (apply andb_true_iff; split; apply bool_decide_true; [lia|rewrite u64_small; lia]). csimp.
  rewrite Nat2Z.id, Data.memcpy_to_ok by done. csimp. eexists. split; [done|]. by split.
Qed.
Next Obligation. intros b id d d0 n (-> & Hid & Hc). simpl. unfold resize. rewrite Data.resize_spec. csimp. eexists. split; [done|]. by split. Qed.
Next Obligation. intros n s m b id d d0 Ho Hr Hm Hd. eapply storeToBase_spec; [done..|lia]. Qed.
Next Obligation.
  intros n s m b id d d0 Ho Hr Hm Hd. destruct (storeToBase_spec n s m b id d d0 Ho Hr Hm ltac:(lia)) as (b' & s' & E & _ & Hr').
  exists tt, s'. split; [|done]. simpl. unfold destruct, run_destructor. by erewrite bind_ok by exact E.
Qed.
Next Obligation.
  intros n s m id Hid Hr. destruct (load_spec _ _ _ _ Hid Hr) as (s' & E & Hr'). simpl. eapply runs_bind_eq; [exact E|].
  destruct (m !! id) as [d|]; apply runs_ret; (split; [done|]); [|done]. eexists. split; [done|]. by split.
Qed.
Next Obligation.
  intros n s m id d Hid Hd Hm Hr. destruct (tryCreate_spec _ _ _ _ _ Hid ltac:(by apply Z.min_glb_l in Hd) Hm Hr) as (s' & E & Hr'). simpl. eapply runs_bind_eq; [exact E|].
  apply runs_ret. split; [done|]. eexists. split; [done|]. by split.
Qed.
Next Obligation.
  intros n s m id d Hid Hd Hm Href Hr. destruct (tryCreate_refused _ _ _ _ _ Hid ltac:(by apply Z.min_glb_l in Hd) Hm Href Hr) as (s' & E & Hr'). simpl.
  eapply runs_bind_eq; [exact E|]. by apply runs_ret.
Qed.
Next Obligation.
  intros n s m id d Hid Hd Hr. destruct (store_spec _ _ _ _ _ Hid ltac:(by apply Z.min_glb_l in Hd) Hr) as (s' & E & Hr'). simpl. eapply runs_bind_eq; [exact E|].
  apply runs_ret. split; [done|]. by split.
Qed.
Next Obligation.
  intros n s m id Hid Hs Hr. destruct (remove_spec _ _ _ _ Hid Hr) as (s' & E & Hr'). simpl. unfold remove. eapply runs_bind_eq; [exact E|].
  rewrite bool_decide_true by done. by apply runs_ret.
Qed.
Next Obligation.
  intros n s m id Hid Hm Hr. destruct (remove_spec _ _ _ _ Hid Hr) as (s' & E & Hr'). exists s'. simpl. unfold remove.
  rewrite (bind_ok _ _ _ _ _ E), bool_decide_false by (rewrite Hm; by intros [? ?]). split; [done|]. by rewrite delete_id in Hr'.
Qed.
Next Obligation. intros n n' s m. apply repr_le. Qed.
End low_to_high.

(** *** CompressingBlockStore keeps the contract *)

(** What a compressor promises: data within [compress_limit] is compressed to
    at most [expansion] times its size, and decompressing gives it back. *)
Class CompressorOk {compressor : Compressor} := {
  compress_limit : Z;
  expansion : Z;
  expansion_pos : 0 < expansion;
  compress_ok d : Z.of_nat (length d) ≤ compress_limit →
    ∃ c, compress d = Ok c ∧ Z.of_nat (length c) ≤ expansion * Z.of_nat (length d) ∧ decompress c = Ok d }.
Lemma rle_compress_ok (d : bytes) : Z.of_nat (length d) ≤ 2 ^ 60 →
  ∃ c, @compress rle d = Ok c ∧ Z.of_nat (length c) ≤ 6 * Z.of_nat (length d) ∧ @decompress rle c = Ok d.
Proof.
  intros Hd. destruct (RunLengthEncoding.compress_decompress _ d (Nat.le_refl _)) as (c & Hc & H1 & H2). exists c. simpl.
  unfold RunLengthEncoding.Compress, RunLengthEncoding.Decompress, RunLengthEncoding._extractData, Data.check_alloc.
  rewrite (H1 (length d + 1)%nat), (H2 (length c + 1)%nat) by lia. csimp. cbn [app]. rewrite !decide_True by lia. split; [done|]. split; [lia|done].
Qed.
Definition rle_ok : @CompressorOk rle := {| compress_limit := 2 ^ 60; expansion := 6; expansion_pos := eq_refl; compress_ok := rle_compress_ok |}.

Section compressing.
Context {compressor : Compressor} {compressor_ok : CompressorOk} {S B : Type} {base : BlockStoreOps S B} {base_spec : HighLevelSpec S B}.
Import Compressing.
Implicit Types (d c : bytes) (m : gmap bytes bytes).

Definition comp_max : Z := Z.min compress_limit (h_max / expansion).
(** The block [c] of the base store stands for the block [d]. *)
Definition stands_for c d : Prop := compress d = Ok c ∧ decompress c = Ok d ∧ Z.of_nat (length c) ≤ h_max.
Definition comp_repr (n : nat) (s : S) m : Prop :=
  ∃ mc, h_repr n s mc ∧ ∀ id, match m !! id, mc !! id with None, None => True | Some d, Some c => stands_for c d | _, _ => False end.
Definition comp_owns (b : block B) (id d d0 : bytes) : Prop :=
  _decompressedData b = d ∧ ∃ c c0, owns (_baseBlock b) id c c0 ∧ stands_for c0 d0 ∧ (_dataChanged b = false → stands_for c d).

Lemma compressible d : Z.of_nat (length d) ≤ comp_max → ∃ c, stands_for c d.
Proof using compressor_ok.
  intros [Hd Hq]%Z.min_glb_iff. pose proof expansion_pos. destruct (compress_ok d Hd) as (c & H1 & H2 & H3).
  exists c. split; [done|]. split; [done|]. etransitivity; [exact H2|].
  etransitivity; [apply Z.mul_le_mono_nonneg_l, Hq; lia|]. by apply Z.mul_div_le.
Qed.
Lemma stands_for_fun c c' d : stands_for c d → stands_for c' d → c = c'.
Proof. intros [H1 _] [H2 _]. congruence. Qed.
Lemma comp_lookup n s m id d : comp_repr n s m → m !! id = Some d → ∃ mc c, h_repr n s mc ∧ mc !! id = Some c ∧ stands_for c d ∧
  ∀ id, match m !! id, mc !! id with None, None => True | Some d, Some c => stands_for c d | _, _ => False end.
Proof. intros (mc & Hr & H) Hm. pose proof (H id) as Hid. rewrite Hm in Hid. destruct (mc !! id) as [c|] eqn:E; [|done]. by exists mc, c. Qed.
Lemma comp_insert n s m mc id d c : h_repr n s (<[id := c]> mc) → stands_for c d →
  (∀ id, match m !! id, mc !! id with None, None => True | Some d, Some c => stands_for c d | _, _ => False end) → comp_repr n s (<[id := d]> m).
Proof.
  intros Hr Hs H. exists (<[id := c]> mc). split; [done|]. intros i. destruct (decide (id = i)) as [<-|Hne]; [by rewrite !lookup_insert_eq|].
  rewrite !lookup_insert_ne by done. apply H.
Qed.

Lemma compressToBase_ok b id d d0 : comp_owns b id d d0 → Z.of_nat (length d) ≤ comp_max →
  ∃ base' c c0, _compressToBaseBlock b = Ok (mk base' d false) ∧ owns base' id c c0 ∧ stands_for c0 d0 ∧ stands_for c d.
Proof using compressor_ok.
  intros (Hd & c & c0 & Ho & H0 & Hc) Hmax. unfold _compressToBaseBlock. destruct (_dataChanged b) eqn:Hch.
  - destruct (compressible d Hmax) as [c1 Hs]. pose proof Hs as (E & _ & Hl). rewrite Hd, E. csimp.
    destruct (owns_resize _ _ _ _ (length c1) Ho) as (b1 & -> & Ho1). csimp.
    assert (length (resized c (length c1)) = length c1) as Hlen by (unfold resized; rewrite length_app, length_take, length_replicate; lia).
    destruct (owns_write b1 id _ c0 c1 0 Ho1) as (b2 & E2 & Ho2); [lia|lia|]. change (Z.of_nat 0) with 0 in E2. rewrite E2. csimp. exists b2, c1, c0. split; [done|]. split; [|done].
    by rewrite splice_all in Ho2 by lia.
  - destruct b as [bb dd ch]. simpl in *. subst. exists bb, c, c0. split; [done|]. split; [done|]. split; [done|]. by apply Hc.
Qed.

#[export] Program Instance compressing_spec : HighLevelSpec S (block B) := {
  h_repr := comp_repr; h_max := comp_max; owns := comp_owns; h_refuses := h_refuses }.
Next Obligation. intros b id d d0 (<- & c & c0 & Ho & _). split; [done|]. simpl. by apply owns_data in Ho as [_ ->]. Qed.
Next Obligation.
  intros b id d d0 src off (<- & c & c0 & Ho & H0 & _) Hoff Hd. simpl. unfold write. rewrite Nat2Z.id, Data.memcpy_to_ok by done. csimp.
  eexists. split; [done|]. split; [done|]. by exists c, c0.
Qed.
Next Obligation.
  intros b id d d0 n (<- & c & c0 & Ho & H0 & _). simpl. unfold resize. rewrite Data.resize_spec. csimp. eexists. split; [done|]. split; [done|]. by exists c, c0.
Qed.
Next Obligation.
  intros n s m b id d d0 Ho Hr Hm Hd. simpl. unfold flush.
  destruct (compressToBase_ok _ _ _ _ Ho Hd) as (b1 & c & c0 & -> & Ho1 & H0 & Hc). destruct (comp_lookup _ _ _ _ _ Hr Hm) as (mc & c0' & Hrc & Hl & Hs & Hall).
  rewrite (stands_for_fun _ _ _ Hs H0) in Hl. eapply runs_bind_eq; [done|]. cbn [_baseBlock].
  eapply runs_bind; [eapply h_flush_spec; [exact Ho1|exact Hrc|exact Hl|apply Hc]|]. intros b2 s' [Ho2 Hr2]. apply runs_ret. split.
  - split; [done|]. by exists c, c.
  - by eapply comp_insert.
Qed.
Next Obligation.
  intros n s m b id d d0 Ho Hr Hm Hd. simpl. unfold destruct.
  destruct (compressToBase_ok _ _ _ _ Ho Hd) as (b1 & c & c0 & -> & Ho1 & H0 & Hc). destruct (comp_lookup _ _ _ _ _ Hr Hm) as (mc & c0' & Hrc & Hl & Hs & Hall).
  rewrite (stands_for_fun _ _ _ Hs H0) in Hl. cbn [_baseBlock]. eapply runs_mono; [eapply h_destruct_spec; [exact Ho1|exact Hrc|exact Hl|apply Hc]|].
  intros u s' Hr2. exact (comp_insert _ _ _ _ _ _ _ Hr2 Hc Hall).
Qed.
Next Obligation.
  intros n s m id Hid (mc & Hr & Hall). simpl. unfold load. eapply runs_bind; [by apply h_load_spec|]. intros r s' [Hr' H]. pose proof (Hall id) as Hi.
  destruct (mc !! id) as [c|] eqn:Ec, (m !! id) as [d|] eqn:Em; try done.
  - destruct H as (b & -> & Ho). destruct (owns_data _ _ _ _ Ho) as [Hdata _]. pose proof Hi as (_ & Hdec & _).
    eapply runs_bind_eq; [unfold on_throw, lift, Decompress; rewrite Hdata, Hdec; done|]. apply runs_ret. split; [by exists mc|].
    eexists. split; [done|]. split; [done|]. by exists c, c.
  - subst r. apply runs_ret. split; [by exists mc|done].
Qed.
Next Obligation.
  intros n s m id d Hid Hd Hm (mc & Hr & Hall). simpl. unfold TryCreateNew. destruct (compressible d Hd) as [c Hc]. pose proof Hc as (E & _ & Hl). rewrite E.
  eapply runs_bind_eq; [done|]. pose proof (Hall id) as Hi. rewrite Hm in Hi. destruct (mc !! id) eqn:Emc; [done|].
  eapply runs_bind; [by eapply h_tryCreate_spec|]. intros r s' [Hr' (b & -> & Ho)]. apply runs_ret. split; [by eapply comp_insert|].
  eexists. split; [done|]. split; [done|]. by exists c, c.
Qed.
Next Obligation.
  intros n s m id d Hid Hd Hm Href (mc & Hr & Hall). simpl. unfold TryCreateNew. destruct (compressible d Hd) as [c Hc]. pose proof Hc as (E & _ & Hl). rewrite E.
  eapply runs_bind_eq; [done|]. pose proof (Hall id) as Hi. destruct Hm as [d0 Hm]. rewrite Hm in Hi. destruct (mc !! id) eqn:Emc; [|done].
  eapply runs_bind; [eapply h_tryCreate_refused; [done|done|by rewrite Emc|done|exact Hr]|]. intros r s' [-> Hr']. apply runs_ret. split; [done|]. by exists mc.
Qed.
Next Obligation.
  intros n s m id d Hid Hd (mc & Hr & Hall). simpl. unfold Overwrite. destruct (compressible d Hd) as [c Hc]. pose proof Hc as (E & _ & Hl). rewrite E.
  eapply runs_bind_eq; [done|]. eapply runs_bind; [by eapply h_overwrite_spec|]. intros b s' [Hr' Ho]. apply runs_ret. split; [by eapply comp_insert|].
  split; [done|]. by exists c, c.
Qed.
Next Obligation.
  intros n s m id Hid [d Hm] Hr. destruct (comp_lookup _ _ _ _ _ Hr Hm) as (mc & c & Hrc & Hl & _ & Hall). simpl.
  eapply runs_mono; [apply h_remove_spec; [done|by eexists|exact Hrc]|]. intros u s' Hr'. exists (delete id mc). split; [done|].
  intros i. destruct (decide (id = i)) as [<-|Hne]; [by rewrite !lookup_delete_eq|]. rewrite !lookup_delete_ne by done. apply Hall.
Qed.
Next Obligation.
  intros n s m id Hid Hm (mc & Hr & Hall). pose proof (Hall id) as Hi. rewrite Hm in Hi. destruct (mc !! id) eqn:Emc; [done|].
  destruct (h_remove_missing n s mc id Hid Emc Hr) as (s' & E & Hr'). exists s'. split; [exact E|]. by exists mc.
Qed.
Next Obligation. intros n n' s m Hle (mc & Hr & H). exists mc. split; [by eapply h_repr_le|done]. Qed.
End compressing.

(** ** Sessions

    A client creates, overwrites or opens a block, edits it and drops it; the
    reply is the content it had at the end, or that there was no block (an id
    in use for a creation, an unknown id for loading). A removal either
    succeeds or throws a [std::runtime_error], which the client catches. *)
Inductive edit := EWrite (off : nat) (src : bytes) | EResize (n : nat) | EFlush.
Inductive session :=
| SCreate (id data : bytes) (es : list edit)
| SOverwrite (id data : bytes) (es : list edit)
| SOpen (id : bytes) (es : list edit)
| SRemove (id : bytes).
Inductive reply := Content (d : bytes) | NoBlock | Removed | NotRemoved.

Section sessions.
Context {S B : Type} {ops : BlockStoreOps S B}.
Fixpoint run_edits (es : list edit) (b : B) : M S B :=
  match es with
  | [] => mret b
  | EWrite off src :: es' => b ← lift (b_write src (Z.of_nat off) b) ; run_edits es' b
  | EResize n :: es' => b ← lift (b_resize n b) ; run_edits es' b
  | EFlush :: es' => b ← b_flush b ; run_edits es' b
  end.
Definition edit_and_drop (es : list edit) (b : B) : M S reply :=
  b ← run_edits es b ; let d := b_data b in b_destruct b ;; mret (Content d).
Definition run_session (x : session) : M S reply :=
  match x with
  | SCreate id data es => b ← h_tryCreate id data ; match b with Some b => edit_and_drop es b | None => mret NoBlock end
  | SOverwrite id data es => b ← h_overwrite id data ; edit_and_drop es b
  | SOpen id es => b ← h_load id ; match b with Some b => edit_and_drop es b | None => mret NoBlock end
  | SRemove id => λ s,
      match h_remove id s with
      | (Ok _, s') => (Ok Removed, s')
      | (Throw (RuntimeError _), s') => (Ok NotRemoved, s')
      | (Throw e, s') => (Throw e, s')
      end
  end.
Fixpoint run_sessions (xs : list session) : M S (list reply) :=
  match xs with [] => mret [] | x :: xs' => r ← run_session x ; rs ← run_sessions xs' ; mret (r :: rs) end.
End sessions.

(** The same on byte strings. *)
Definition model_edit (d : bytes) (e : edit) : bytes :=
  match e with EWrite off src => splice off src d | EResize n => resized d n | EFlush => d end.
Definition model_edits (es : list edit) (d : bytes) : bytes := foldl model_edit d es.
Definition model_session (x : session) (m : gmap bytes bytes) : reply * gmap bytes bytes :=
  match x with
  | SCreate id data es =>
      match m !! id with None => let d := model_edits es data in (Content d, <[id := d]> m) | Some _ => (NoBlock, m) end
  | SOverwrite id data es => let d := model_edits es data in (Content d, <[id := d]> m)
  | SOpen id es => match m !! id with Some d0 => let d := model_edits es d0 in (Content d, <[id := d]> m) | None => (NoBlock, m) end
  | SRemove id => (if decide (is_Some (m !! id)) then Removed else NotRemoved, delete id m)
  end.
Fixpoint model_sessions (xs : list session) (m : gmap bytes bytes) : list reply * gmap bytes bytes :=
  match xs with [] => ([], m) | x :: xs' => let '(r, m1) := model_session x m in let '(rs, m2) := model_sessions xs' m1 in (r :: rs, m2) end.
(** Writes stay inside the block, blocks stay within the limit. *)
Fixpoint edits_ok (limit : Z) (es : list edit) (d : bytes) : Prop :=
  Z.of_nat (length d) ≤ limit ∧
  match es with
  | [] => True
  | e :: es' => match e with EWrite off src => (off + length src ≤ length d)%nat | _ => True end ∧ edits_ok limit es' (model_edit d e)
  end.
(** A creation is of an id that is not in use, or of one that the store in
    its present state refuses. *)
Section sessions_ok.
Context {S B : Type} {ops : BlockStoreOps S B} (refused : S → bytes → Prop) (limit : Z).
Definition session_ok (x : session) (s : S) (m : gmap bytes bytes) : Prop :=
  match x with
  | SCreate id data es => BlockId.valid id ∧ edits_ok limit es data ∧ (is_Some (m !! id) → refused s id)
  | SOverwrite id data es => BlockId.valid id ∧ edits_ok limit es data
  | SOpen id es => BlockId.valid id ∧ ∀ d, m !! id = Some d → edits_ok limit es d
  | SRemove id => BlockId.valid id
  end.
Fixpoint sessions_ok (xs : list session) (s : S) (m : gmap bytes bytes) : Prop :=
  match xs with [] => True | x :: xs' => session_ok x s m ∧ sessions_ok xs' (run_session x s).2 (model_session x m).2 end.
End sessions_ok.
Definition session_cost (x : session) : nat :=
  match x with SCreate _ _ es | SOverwrite _ _ es | SOpen _ es => 2 + length es | SRemove _ => 0 end.
Definition sessions_cost (xs : list session) : nat := sum_list (session_cost <$> xs).

(** *** Any store that keeps the contract *)
Section theorem.
Context {S B : Type} {ops : BlockStoreOps S B} {spec : HighLevelSpec S B}.
Lemma run_edits_spec es : ∀ n s m b id d d0, owns b id d d0 → h_repr (length es + n) s m → m !! id = Some d0 → edits_ok h_max es d →
  runs (run_edits es b) s (λ b' s', ∃ d1, owns b' id (model_edits es d) d1 ∧ h_repr n s' (<[id := d1]> m) ∧ Z.of_nat (length (model_edits es d)) ≤ h_max).
Proof.
  induction es as [|e es IH]; intros n s m b id d d0 Ho Hr Hm [Hd Hok].
  { apply runs_ret. exists d0. rewrite insert_id by done. done. }
  destruct Hok as [He Hok]. cbn [length] in Hr. destruct e as [off src|k|]; simpl.
  - destruct (owns_write _ _ _ _ _ _ Ho He Hd) as (b' & -> & Ho'). eapply runs_bind_eq; [done|]. eapply IH; [exact Ho'|eapply h_repr_le; [|exact Hr]; lia|done|done].
  - destruct (owns_resize _ _ _ _ k Ho) as (b' & -> & Ho'). eapply runs_bind_eq; [done|]. eapply IH; [exact Ho'|eapply h_repr_le; [|exact Hr]; lia|done|done].
  - eapply runs_bind; [by eapply (h_flush_spec (length es + n))|]. intros b' s' [Ho' Hr']. eapply runs_mono; [eapply IH; [exact Ho'|exact Hr'|apply lookup_insert_eq|done]|].
    intros b'' s'' (d1 & H1 & H2 & H3). exists d1. by rewrite insert_insert_eq in H2.
Qed.
Lemma edit_and_drop_spec es n s m b id d : owns b id d d → h_repr (length es + (1 + n)) s m → m !! id = Some d → edits_ok h_max es d →
  runs (edit_and_drop es b) s (λ r s', r = Content (model_edits es d) ∧ h_repr n s' (<[id := model_edits es d]> m)).
Proof.
  intros Ho Hr Hm Hok. eapply runs_bind; [by eapply run_edits_spec|]. intros b' s' (d1 & Ho' & Hr' & Hl). destruct (owns_data _ _ _ _ Ho') as [-> _].
  eapply runs_bind; [eapply h_destruct_spec; [exact Ho'|exact Hr'|apply lookup_insert_eq|done]|]. intros [] s'' Hr''. apply runs_ret. split; [done|].
  by rewrite insert_insert_eq in Hr''.
Qed.
Lemma run_session_spec x n s m : h_repr (session_cost x + n) s m → session_ok h_refuses h_max x s m →
  runs (run_session x) s (λ r s', r = (model_session x m).1 ∧ h_repr n s' (model_session x m).2).
Proof.
  intros Hr Hok. destruct x as [id data es|id data es|id es|id]; simpl in *.
  - destruct Hok as (Hid & Hes & Hre). assert (Z.of_nat (length data) ≤ h_max) as Hl by (by destruct es; destruct Hes).
    destruct (m !! id) as [d0|] eqn:Hm.
    { eapply runs_bind; [eapply h_tryCreate_refused; [done|done|by rewrite Hm|by apply Hre|exact Hr]|]. intros r s' [-> Hr']. apply runs_ret.
      split; [done|]. eapply h_repr_le; [|exact Hr']. lia. }
    replace (Datatypes.S (Datatypes.S (length es + n)))%nat with (Datatypes.S (length es + (1 + n)))%nat in Hr by lia.
    eapply runs_bind; [by eapply h_tryCreate_spec; [done..|exact Hr]|]. intros r s' [Hr' (b & -> & Ho)].
    eapply runs_mono; [by eapply edit_and_drop_spec; [..|apply lookup_insert_eq|]|]. intros r s'' [-> H]. split; [done|]. by rewrite insert_insert_eq in H.
  - destruct Hok as (Hid & Hes). replace (Datatypes.S (Datatypes.S (length es + n)))%nat with (Datatypes.S (length es + (1 + n)))%nat in Hr by lia.
    eapply runs_bind; [eapply h_overwrite_spec; [done| |exact Hr]; by destruct es; destruct Hes|]. intros b s' [Hr' Ho].
    eapply runs_mono; [by eapply edit_and_drop_spec; [..|apply lookup_insert_eq|]|]. intros r s'' [-> H]. split; [done|]. by rewrite insert_insert_eq in H.
  - destruct Hok as (Hid & Hes). eapply runs_bind; [by apply h_load_spec|]. intros r s' [Hr' H]. destruct (m !! id) as [d|] eqn:Hm.
    + destruct H as (b & -> & Ho). eapply runs_mono; [eapply (edit_and_drop_spec es n); [exact Ho|eapply h_repr_le; [|exact Hr']; lia|done|by apply Hes]|]. done.
    + subst r. apply runs_ret. split; [done|]. eapply h_repr_le; [|exact Hr']. lia.
  - destruct (m !! id) as [d|] eqn:Hm.
    + destruct (h_remove_spec n s m id Hok ltac:(by rewrite Hm) Hr) as (u & s' & E & Hr'). exists Removed, s'. by rewrite E, decide_True by done.
    + destruct (h_remove_missing n s m id Hok Hm Hr) as (s' & E & Hr'). exists NotRemoved, s'. rewrite E, decide_False by (by intros [? ?]). by rewrite delete_id.
Qed.

Lemma run_sessions_spec (xs : list session) : ∀ n s m,
  h_repr (sessions_cost xs + n) s m → sessions_ok h_refuses h_max xs s m →
  runs (run_sessions xs) s (λ rs s', rs = (model_sessions xs m).1 ∧ h_repr n s' (model_sessions xs m).2).
Proof.
  induction xs as [|x xs IH]; intros n s m Hr Hok; [by apply runs_ret|]. destruct Hok as [Hx Hxs]. unfold sessions_cost in Hr. simpl in Hr.
  destruct (run_session_spec x (sessions_cost xs + n) s m) as (r & s1 & E & -> & Hr1); [by rewrite Nat.add_assoc|done|].
  eapply runs_bind_eq; [exact E|]. rewrite E in Hxs.
  eapply runs_bind; [by apply IH|]. intros rs s2 [-> Hr2]. apply runs_ret. simpl. destruct (model_session x m) as [r m1]. simpl in *.
  by destruct (model_sessions xs m1).
Qed.
End theorem.

Section stores.
Context {S : Type} `{!BlockStore2 S} `{!BlockStore2Spec S}.
(** The blocks that the compressing store keeps in the store below. *)
Definition compressed_repr (n : nat) (s : S) (m : gmap bytes bytes) : Prop :=
  ∃ mc, repr n s mc ∧ ∀ id, match m !! id, mc !! id with
    | None, None => True
    | Some d, Some c => RunLengthEncoding.Compress d = Ok c ∧ RunLengthEncoding.Decompress c = Ok d
        ∧ Z.of_nat (length c) ≤ Z.min maxSize (2 ^ 63)
    | _, _ => False
    end.
(** Six bytes for one in the worst case. *)
Definition rle_limit : Z := Z.min (2 ^ 60) (Z.min maxSize (2 ^ 63) / 6).

(** C8. Blocks as objects, on [LowToHighLevelBlockStore] over any [BlockStore2]
    that keeps its contract, and on [CompressingBlockStore] with run length
    encoding over it. Every sequence of sessions, in which a client creates,
    overwrites or loads a block, writes to it (within its size), resizes
    and flushes it and drops the object, or removes a block, gives the replies
    that the same sessions on a map of byte strings give, and the store stands for
    that map: what the destructors write back is what the client saw.
    Creating an id that the store below refuses, and loading an unknown one,
    give no block; removing an unknown id throws the documented error; in
    these cases nothing changes. Block ids have 16 bytes and blocks stay
    within the size limit; an id in use is created only when the store below
    looks at it ([refuses]: always in memory and on disk, for cached blocks in
    the stack). *)
Theorem sessions_refine_map (xs : list session) (n : nat) (s : S) (m : gmap bytes bytes) :
  (repr (sessions_cost xs + n) s m → sessions_ok (ops := LowToHighLevel.ops) refuses (Z.min maxSize (2 ^ 63)) xs s m →
   runs (run_sessions (ops := LowToHighLevel.ops) xs) s (λ rs s',
     rs = (model_sessions xs m).1 ∧ repr n s' (model_sessions xs m).2)) ∧
  (compressed_repr (sessions_cost xs + n) s m →
   sessions_ok (ops := @Compressing.ops rle _ _ LowToHighLevel.ops) refuses rle_limit xs s m →
   runs (run_sessions (ops := @Compressing.ops rle _ _ LowToHighLevel.ops) xs) s (λ rs s',
     rs = (model_sessions xs m).1 ∧ compressed_repr n s' (model_sessions xs m).2)).
Proof.
  split.
  - intros Hr Hok. by apply (@run_sessions_spec S _ _ low_to_high_spec).
  - intros Hr Hok. exact (@run_sessions_spec S _ _ (@compressing_spec rle rle_ok _ _ _ low_to_high_spec) xs n s m Hr Hok).
Qed.
End stores.

(** Both stores in memory. *)
Definition c_id : bytes := replicate 16 x01.
Definition c_sessions : list session :=
  [SCreate c_id (replicate 20 x00) [EWrite 3 [x01; x02]; EFlush; EResize 6]; SOpen c_id [EWrite 0 [x09]]; SOpen (replicate 16 x02) [];
   SCreate c_id [x05] []; SRemove c_id; SRemove c_id].
Definition c_replies : list reply :=
  [Content [x00; x00; x00; x01; x02; x00]; Content [x09; x00; x00; x01; x02; x00]; NoBlock; NoBlock; Removed; NotRemoved].
Lemma c_sessions_ok {B} (ops : BlockStoreOps InMemoryBlockStore2.t B) (limit : Z) s : 20 ≤ limit →
  sessions_ok (ops := ops) (λ _ _, True) limit c_sessions s ∅.
Proof.
  intros Hl. assert (∀ k, (k ≤ 20)%nat → Z.of_nat k ≤ limit) as Hmax by lia.
  split; [split; [done|split; [|done]]|].
  { repeat split; first [apply Hmax; vm_compute; lia|vm_compute; lia]. }
  split; [split; [done|]; intros d [= <-]|].
  { repeat split; first [apply Hmax; vm_compute; lia|vm_compute; lia]. }
  split; [split; [done|]; intros d [=]|]. split; [split; [done|split; [|done]]; simpl; lia|]. done.
Qed.
Lemma sessions_refine_map_witness :
  let s := InMemoryBlockStore2.mk ∅ 0 in
  runs (run_sessions (ops := LowToHighLevel.ops) c_sessions) s (λ rs s', rs = c_replies ∧ repr 0 s' (model_sessions c_sessions ∅).2) ∧
  runs (run_sessions (ops := @Compressing.ops rle _ _ LowToHighLevel.ops) c_sessions) s (λ rs s',
    rs = c_replies ∧ compressed_repr 0 s' (model_sessions c_sessions ∅).2).
Proof.
  intros s. assert (∀ n, repr n s ∅) as Hr by (intros n; split; [done|apply map_Forall_empty]).
  destruct (sessions_refine_map c_sessions 0 s ∅) as [H1 H2]. split.
  - eapply runs_mono; [apply H1; [apply Hr|apply c_sessions_ok; by vm_compute]|]. intros rs s' [-> H]. split; [by vm_compute|exact H].
  - eapply runs_mono; [apply H2; [exists ∅; split; [apply Hr|done]|apply c_sessions_ok; by vm_compute]|]. intros rs s' [-> H]. split; [by vm_compute|exact H].
Defined.
