(* ===== verification/Cipher.v ===== *)
(** * Symmetric ciphers (cpp-utils/crypto/symmetric)

    [Cipher] is the interface of Cipher.h ([CipherConcept]); [CipherSpec] is
    what the encrypting block store relies on. [AEADCipher] and [CFB_Cipher]
    implement it around the primitives of the Crypto++ library, which are
    parameters here; [FakeAuthenticatedCipher] is self-contained. *)
From S2P Require Import Prelude Serialization.
From Stdlib Require Import Lia ZArith.

(** ** Random numbers (random/RandomGenerator.h): [get(n)] returns [n] bytes. *)
Class RandomGenerator (Rng : Type) := {
  get_bytes : nat → Rng → bytes * Rng;
  get_bytes_length n r : length (get_bytes n r).1 = n;
}.

Definition random_bytes {Rng} `{!RandomGenerator Rng} (n : nat) : M Rng bytes :=
  λ r, let '(b, r') := get_bytes n r in (Ok b, r').

(** A counter, good enough to run the definitions on. *)
#[export] Program Instance counter_generator : RandomGenerator Z := {
  get_bytes n r := (replicate n (byte_of r), r + 1) }.
Next Obligation. intros. apply length_replicate. Qed.

(** ** Cipher.h

    Sizes are [unsigned int]: the interface truncates a [size_t] length to 32
    bits. [encrypt src size] reads [size] bytes at [src]. *)
Class Cipher (Key Rng : Type) := {
  ciphertextSize : Z → Z;
  plaintextSize : Z → Z;
  encrypt : bytes → Z → Key → M Rng bytes;
  decrypt : bytes → Z → Key → result (option bytes);
}.

Class CipherSpec (Key Rng : Type) `{!Cipher Key Rng} := {
  overhead : Z;
  good_key : Key → Prop;
  overhead_range : 0 ≤ overhead < 2 ^ 31;
  ciphertextSize_spec n : 0 ≤ n → n + overhead < 2 ^ 32 → ciphertextSize n = n + overhead;
  plaintextSize_spec n : overhead ≤ n < 2 ^ 32 → plaintextSize n = n - overhead;
  encrypt_spec plaintext key rng :
    good_key key → Z.of_nat (length plaintext) + overhead < 2 ^ 32 →
    ∃ ciphertext rng',
      encrypt plaintext (Z.of_nat (length plaintext)) key rng = (Ok ciphertext, rng') ∧
      Z.of_nat (length ciphertext) = Z.of_nat (length plaintext) + overhead ∧
      decrypt ciphertext (Z.of_nat (length ciphertext)) key = Ok (Some plaintext);
}.

(** The bytes [src .. src + size), undefined behaviour beyond the end. *)
Definition read_bytes (src : bytes) (size : Z) : result bytes :=
  Data.memcpy_from src 0 (Z.to_nat size).

Lemma read_bytes_all src : read_bytes src (Z.of_nat (length src)) = Ok src.
Proof.
  unfold read_bytes. rewrite Nat2Z.id, Data.memcpy_from_ok by lia. by rewrite slice_all.
Qed.

(** ** AEAD_Cipher.h

    [aead_encrypt key iv plaintext] is the output of Crypto++'s
    [AuthenticatedEncryptionFilter] (ciphertext and tag), [aead_decrypt] that
    of [AuthenticatedDecryptionFilter], [None] when it throws
    [HashVerificationFailed]. *)
Module AEADCipher.
Section aead.
Context {Rng : Type} `{!RandomGenerator Rng}.
Context (KEYSIZE IV_SIZE TAG_SIZE : nat).
Context (aead_encrypt : bytes → bytes → bytes → bytes).
Context (aead_decrypt : bytes → bytes → bytes → option bytes).

Definition ciphertextSize (plaintextBlockSize : Z) : Z :=
  u32 (plaintextBlockSize + Z.of_nat IV_SIZE + Z.of_nat TAG_SIZE).
Definition plaintextSize (ciphertextBlockSize : Z) : Z :=
  u32 (ciphertextBlockSize - Z.of_nat IV_SIZE - Z.of_nat TAG_SIZE).

(** The [ArraySink] takes at most the room left in [ciphertext]. *)
Definition encrypt (plaintext : bytes) (plaintextSize_ : Z) (encKey : bytes) : M Rng bytes :=
  ASSERT (bool_decide (length encKey = KEYSIZE)) "Wrong key size" ;;
  iv ← random_bytes IV_SIZE ;
  p ← lift (read_bytes plaintext plaintextSize_) ;
  let size := Z.to_nat (ciphertextSize plaintextSize_) in
  if decide (size < IV_SIZE)%nat then mthrow UndefinedBehaviour
  else mret (iv ++ take (size - IV_SIZE) (aead_encrypt encKey iv p)).

Definition decrypt (ciphertext : bytes) (ciphertextSize_ : Z) (encKey : bytes) : result (option bytes) :=
  ASSERT (bool_decide (length encKey = KEYSIZE)) "Wrong key size" ;;
  if decide (ciphertextSize_ < Z.of_nat IV_SIZE + Z.of_nat TAG_SIZE) then mret None
  else
    c ← read_bytes ciphertext ciphertextSize_ ;
    match aead_decrypt encKey (take IV_SIZE c) (drop IV_SIZE c) with
    | Some plaintext => mret (Some (take (Z.to_nat (plaintextSize ciphertextSize_)) plaintext))
    | None => mret None
    end.

#[export] Instance ops : Cipher bytes Rng := {
  ciphertextSize := ciphertextSize; plaintextSize := plaintextSize;
  encrypt := encrypt; decrypt := decrypt }.

(** What Crypto++ documents of an authenticated mode: the tag is appended,
    and decryption under the same key and iv inverts encryption. *)
Context (sizes : Z.of_nat IV_SIZE + Z.of_nat TAG_SIZE < 2 ^ 31).
Context (aead_length : ∀ key iv p, length key = KEYSIZE → length iv = IV_SIZE →
  length (aead_encrypt key iv p) = (length p + TAG_SIZE)%nat).
Context (aead_inverse : ∀ key iv p, length key = KEYSIZE → length iv = IV_SIZE →
  aead_decrypt key iv (aead_encrypt key iv p) = Some p).

Lemma aead_decrypt_encrypt plaintext key rng :
  length key = KEYSIZE → Z.of_nat (length plaintext) + (Z.of_nat IV_SIZE + Z.of_nat TAG_SIZE) < 2 ^ 32 →
  ∃ ciphertext rng',
    encrypt plaintext (Z.of_nat (length plaintext)) key rng = (Ok ciphertext, rng') ∧
    Z.of_nat (length ciphertext) = Z.of_nat (length plaintext) + (Z.of_nat IV_SIZE + Z.of_nat TAG_SIZE) ∧
    decrypt ciphertext (Z.of_nat (length ciphertext)) key = Ok (Some plaintext).
Proof.
  intros Hk Hn. unfold encrypt, decrypt. rewrite (bool_decide_true _ Hk).
  unfold mbind, M_bind, random_bytes, ASSERT. csimp.
  pose proof (get_bytes_length IV_SIZE rng) as Hiv.
  destruct (get_bytes IV_SIZE rng) as [iv rng']; simpl in Hiv.
  rewrite read_bytes_all. unfold ciphertextSize. rewrite u32_small by lia.
  rewrite decide_False by lia. csimp.
  pose proof (aead_length key iv plaintext Hk Hiv) as Hl.
  rewrite take_ge by lia. eexists _, _. split; [done|]. split; [len|].
  rewrite decide_False by len. csimp. rewrite read_bytes_all. csimp.
  rewrite take_app_length', drop_app_length', aead_inverse by done. csimp.
  unfold plaintextSize. rewrite u32_small by len. by rewrite take_ge by len.
Qed.

#[export] Program Instance spec : CipherSpec bytes Rng := {
  overhead := Z.of_nat IV_SIZE + Z.of_nat TAG_SIZE;
  good_key key := length key = KEYSIZE }.
Next Obligation. lia. Qed.
Next Obligation. intros n ??. simpl. unfold ciphertextSize. rewrite u32_small; lia. Qed.
Next Obligation. intros n ?. simpl. unfold plaintextSize. rewrite u32_small; lia. Qed.
Next Obligation. intros. by apply aead_decrypt_encrypt. Qed.
End aead.
End AEADCipher.

(** ** CFB_Cipher.h

    [cfb_process key iv data] stands for [ProcessData] of Crypto++'s
    [CFB_Mode<BlockCipher>::Encryption], [cfb_unprocess] for that of
    [::Decryption]. *)
Module CFB_Cipher.
Section cfb.
Context {Rng : Type} `{!RandomGenerator Rng}.
Context (KeySize IV_SIZE : nat).
Context (cfb_process cfb_unprocess : bytes → bytes → bytes → bytes).

Definition ciphertextSize (plaintextBlockSize : Z) : Z := u32 (plaintextBlockSize + Z.of_nat IV_SIZE).
Definition plaintextSize (ciphertextBlockSize : Z) : Z := u32 (ciphertextBlockSize - Z.of_nat IV_SIZE).

Definition encrypt (plaintext : bytes) (plaintextSize_ : Z) (encKey : bytes) : M Rng bytes :=
  ASSERT (bool_decide (length encKey = KeySize)) "Wrong key size" ;;
  iv ← random_bytes IV_SIZE ;
  p ← lift (read_bytes plaintext plaintextSize_) ;
  if decide (ciphertextSize plaintextSize_ < plaintextSize_ + Z.of_nat IV_SIZE)
  then mthrow UndefinedBehaviour
  else mret (iv ++ (if decide (0 < plaintextSize_) then cfb_process encKey iv p else [])).

Definition decrypt (ciphertext : bytes) (ciphertextSize_ : Z) (encKey : bytes) : result (option bytes) :=
  ASSERT (bool_decide (length encKey = KeySize)) "Wrong key size" ;;
  if decide (ciphertextSize_ < Z.of_nat IV_SIZE) then mret None
  else
    c ← read_bytes ciphertext ciphertextSize_ ;
    if decide (0 < plaintextSize ciphertextSize_)
    then mret (Some (cfb_unprocess encKey (take IV_SIZE c) (drop IV_SIZE c)))
    else mret (Some []).

#[export] Instance ops : Cipher bytes Rng := {
  Cipher.ciphertextSize := ciphertextSize; Cipher.plaintextSize := plaintextSize;
  Cipher.encrypt := encrypt; Cipher.decrypt := decrypt }.

(** A stream mode: lengths are kept and decryption inverts encryption. *)
Context (sizes : Z.of_nat IV_SIZE < 2 ^ 31).
Context (cfb_length : ∀ key iv p, length key = KeySize → length iv = IV_SIZE →
  length (cfb_process key iv p) = length p).
Context (cfb_inverse : ∀ key iv p, length key = KeySize → length iv = IV_SIZE →
  cfb_unprocess key iv (cfb_process key iv p) = p).

Lemma cfb_decrypt_encrypt plaintext key rng :
  length key = KeySize → Z.of_nat (length plaintext) + Z.of_nat IV_SIZE < 2 ^ 32 →
  ∃ ciphertext rng',
    encrypt plaintext (Z.of_nat (length plaintext)) key rng = (Ok ciphertext, rng') ∧
    Z.of_nat (length ciphertext) = Z.of_nat (length plaintext) + Z.of_nat IV_SIZE ∧
    decrypt ciphertext (Z.of_nat (length ciphertext)) key = Ok (Some plaintext).
Proof.
  intros Hk Hn. unfold encrypt, decrypt. rewrite (bool_decide_true _ Hk).
  unfold mbind, M_bind, random_bytes, ASSERT. csimp.
  pose proof (get_bytes_length IV_SIZE rng) as Hiv.
  destruct (get_bytes IV_SIZE rng) as [iv rng']; simpl in Hiv.
  rewrite read_bytes_all. unfold ciphertextSize, plaintextSize. rewrite u32_small by lia.
  rewrite decide_False by lia. csimp.
  pose proof (cfb_length key iv plaintext Hk Hiv) as Hl.
  destruct plaintext as [|b plaintext].
  - simpl. rewrite app_nil_r. eexists _, _. split; [done|]. split; [len|].
    rewrite decide_False by len. rewrite u32_small by len. csimp.
    rewrite read_bytes_all. csimp. by rewrite decide_False by len.
  - rewrite decide_True by len. eexists _, _. split; [done|]. split; [len|].
    rewrite decide_False by len. csimp. rewrite u32_small, read_bytes_all by len. csimp.
    rewrite decide_True by len. by rewrite take_app_length', drop_app_length', cfb_inverse by done.
Qed.

#[export] Program Instance spec : CipherSpec bytes Rng := {
  overhead := Z.of_nat IV_SIZE;
  good_key key := length key = KeySize }.
Next Obligation. lia. Qed.
Next Obligation. intros n ??. simpl. unfold ciphertextSize. rewrite u32_small; lia. Qed.
Next Obligation. intros n ?. simpl. unfold plaintextSize. rewrite u32_small; lia. Qed.
Next Obligation. intros. by apply cfb_decrypt_encrypt. Qed.
End cfb.
End CFB_Cipher.

(** ** testutils/FakeAuthenticatedCipher.h

    A xor cipher with an 8-byte iv and an 8-byte checksum. *)
Module FakeAuthenticatedCipher.
Record FakeKey := mkKey { value : Z }.

Definition ciphertextSize (plaintextBlockSize : Z) : Z := u32 (plaintextBlockSize + 8 + 8).
Definition plaintextSize (ciphertextBlockSize : Z) : Z := u32 (ciphertextBlockSize - 8 - 8).

(** Byte [i mod 8] of the key, the most significant first. *)
Definition key_shift (i : Z) : Z := 56 - 8 * (i mod 8).

Fixpoint _xor_from (i : Z) (src : bytes) (key : Z) : bytes :=
  match src with
  | [] => []
  | b :: src' =>
      byte_of (Z.lxor (byte_val b) (Z.land (Z.shiftr key (key_shift i)) 255)) :: _xor_from (i + 1) src' key
  end.
Definition _xor (src : bytes) (key : Z) : bytes := _xor_from 0 src key.

Fixpoint _checksum_from (i : Z) (data : bytes) (checksum : Z) : Z :=
  match data with
  | [] => checksum
  | b :: data' =>
      _checksum_from (i + 1) data' (u64 (Z.lxor checksum (Z.shiftl (byte_val b) (key_shift i))))
  end.
Definition _checksum (data : bytes) (encKey : FakeKey) : Z :=
  _checksum_from 0 data (u64 (34343435 * value encKey)).

Section fake.
Context {Rng : Type} `{!RandomGenerator Rng}.

Definition encrypt (plaintext : bytes) (plaintextSize_ : Z) (encKey : FakeKey) : M Rng bytes :=
  ivb ← random_bytes 8 ;
  let iv := le_value ivb in
  p ← lift (read_bytes plaintext plaintextSize_) ;
  if decide (ciphertextSize plaintextSize_ < plaintextSize_ + 8 + 8) then mthrow UndefinedBehaviour
  else
    let body := serialize 8 iv ++ _xor p (Z.lxor (value encKey) iv) in
    mret (body ++ serialize 8 (_checksum body encKey)).

Definition decrypt (ciphertext : bytes) (ciphertextSize_ : Z) (encKey : FakeKey) : result (option bytes) :=
  if decide (ciphertextSize_ < 16) then mret None
  else
    let size := Z.to_nat (plaintextSize ciphertextSize_) in
    c ← read_bytes ciphertext ciphertextSize_ ;
    let expectedParity := _checksum (take (size + 8) c) encKey in
    actualParity ← deserializeWithOffset 8 c (size + 8) ;
    if decide (expectedParity ≠ actualParity) then mret None
    else
      iv ← deserialize 8 c ;
      mret (Some (_xor (slice 8 size c) (Z.lxor (value encKey) iv))).

#[export] Instance ops : Cipher FakeKey Rng := {
  Cipher.ciphertextSize := ciphertextSize; Cipher.plaintextSize := plaintextSize;
  Cipher.encrypt := encrypt; Cipher.decrypt := decrypt }.

Lemma length_xor_from i src key : length (_xor_from i src key) = length src.
Proof. revert i. induction src; intros; simpl; auto. Qed.

Lemma xor_from_involutive i src key : _xor_from i (_xor_from i src key) key = src.
Proof.
  revert i. induction src as [|b src IH]; intros i; simpl; [done|]. f_equal; [|apply IH].
  apply byte_val_inj. rewrite !byte_val_of. pose proof (byte_val_range b) as Hb.
  set (k := Z.land _ 255). change 256 with (2 ^ 8). rewrite <- !Z.land_ones by lia.
  apply Z.bits_inj'. intros j Hj.
  rewrite Z.land_spec, Z.lxor_spec, Z.land_spec, Z.lxor_spec, Z.testbit_ones_nonneg by lia.
  destruct (Z.ltb_spec j 8).
  - rewrite !andb_true_r. by destruct (Z.testbit (byte_val b) j), (Z.testbit k j).
  - rewrite !andb_false_r. symmetry. destruct (decide (byte_val b = 0)) as [->|];
      [apply Z.bits_0|]. apply Z.bits_above_log2; [lia|].
    apply Z.log2_lt_pow2; [lia|]. assert (2 ^ 8 ≤ 2 ^ j) by (apply Z.pow_le_mono_r; lia). lia.
Qed.

Lemma checksum_from_range i data c : 0 ≤ c < 2 ^ 64 → 0 ≤ _checksum_from i data c < 2 ^ 64.
Proof. revert i c. induction data; intros i c Hc; simpl; [done|]. apply IHdata, u64_range. Qed.

Lemma fake_decrypt_encrypt plaintext key rng :
  Z.of_nat (length plaintext) + 16 < 2 ^ 32 →
  ∃ ciphertext rng',
    encrypt plaintext (Z.of_nat (length plaintext)) key rng = (Ok ciphertext, rng') ∧
    Z.of_nat (length ciphertext) = Z.of_nat (length plaintext) + 16 ∧
    decrypt ciphertext (Z.of_nat (length ciphertext)) key = Ok (Some plaintext).
Proof.
  intros Hn. unfold encrypt, decrypt, mbind, M_bind, random_bytes.
  pose proof (get_bytes_length 8 rng) as Hiv.
  destruct (get_bytes 8 rng) as [ivb rng']; simpl in Hiv. csimp. rewrite read_bytes_all. csimp.
  unfold ciphertextSize, plaintextSize. rewrite u32_small, decide_False by lia.
  set (iv := le_value ivb). set (x := _xor plaintext (Z.lxor (value key) iv)).
  set (sum := _checksum (serialize 8 iv ++ x) key).
  assert (0 ≤ iv < 256 ^ Z.of_nat 8) as Hivr
    by (subst iv; pose proof (le_value_range ivb) as Hr; by rewrite Hiv in Hr).
  assert (length x = length plaintext) as Hx by apply length_xor_from.
  eexists _, _. split; [done|]. split; [len|].
  rewrite decide_False by len. rewrite u32_small by len. rewrite read_bytes_all. csimp.
  replace (Z.to_nat _) with (length plaintext) by len.
  rewrite take_app_length' by len. fold sum.
  unfold deserializeWithOffset. rewrite drop_app_length' by len.
  rewrite <- (app_nil_r (serialize 8 sum)) at 1.
  rewrite deserialize_serialize by apply checksum_from_range, u64_range. csimp.
  rewrite decide_False by tauto. rewrite <- app_assoc, deserialize_serialize by done. csimp.
  unfold slice. rewrite drop_app_length', take_app_length' by len.
  unfold x, _xor. by rewrite xor_from_involutive.
Qed.

#[export] Program Instance spec : CipherSpec FakeKey Rng := {
  overhead := 16; good_key _ := True }.
Next Obligation. lia. Qed.
Next Obligation. intros n ??. simpl. unfold ciphertextSize. rewrite u32_small; lia. Qed.
Next Obligation. intros n ?. simpl. unfold plaintextSize. rewrite u32_small; lia. Qed.
Next Obligation. intros. by apply fake_decrypt_encrypt. Qed.
End fake.
End FakeAuthenticatedCipher.
#[export] Existing Instance FakeAuthenticatedCipher.ops.
#[export] Existing Instance FakeAuthenticatedCipher.spec.
