(* ===== verification/Encrypted.v ===== *)
(** * The encrypting block store (blockstore/implementations/encrypted)

    Every block is written as a two-byte format header and a ciphertext. The
    store implements [BlockStore2Spec] over any base store that does and any
    cipher with [CipherSpec]. *)
From S2P Require Import Prelude Serialization BlockStore Cipher.
From Stdlib Require Import Lia ZArith.

Module EncryptedBlockStore2.
Definition FORMAT_VERSION_HEADER_OLD : Z := 0.
Definition FORMAT_VERSION_HEADER : Z := 1.

Record t (Base Key Rng : Type) := mk { _baseBlockStore : Base; _encKey : Key; rng : Rng }.
Arguments mk {Base Key Rng}.
Arguments _baseBlockStore {Base Key Rng}.
Arguments _encKey {Base Key Rng}.
Arguments rng {Base Key Rng}.

Lemma eta {Base Key Rng} (s : t Base Key Rng) : mk (_baseBlockStore s) (_encKey s) (rng s) = s.
Proof. by destruct s. Qed.

Definition _prependFormatHeaderToData (data : bytes) : bytes :=
  serialize 2 FORMAT_VERSION_HEADER ++ data.

Definition _readFormatHeader (data : bytes) : result Z := deserialize 2 data.

Definition _checkFormatHeader (data : bytes) : result unit :=
  formatVersionHeader ← _readFormatHeader data ;
  if decide (formatVersionHeader = FORMAT_VERSION_HEADER ∨ formatVersionHeader = FORMAT_VERSION_HEADER_OLD)
  then mret tt
  else mthrow (RuntimeError "The encrypted block has the wrong format. Was it created with a newer version of CryFS?").

Definition _blockIdHeaderIsCorrect (blockId data : bytes) : result bool :=
  id ← BlockId.FromBinary data ; mret (bool_decide (blockId = id)).

Definition _migrateBlock (data : bytes) : result bytes :=
  Data.copyAndRemovePrefix data BlockId.BINARY_LENGTH.

Section store.
Context {Base Key Rng : Type} `{!BlockStore2 Base} `{!Cipher Key Rng}.
Abbreviation st := (t Base Key Rng).

(** [Cipher::encrypt] takes the size as an [unsigned int]. *)
Definition _encrypt (data : bytes) : M st bytes :=
  s ← get_state ;
  encrypted ← zoom rng (λ r s, mk (_baseBlockStore s) (_encKey s) r)
                (encrypt data (u32 (Z.of_nat (length data))) (_encKey s)) ;
  mret (_prependFormatHeaderToData encrypted).

Definition _tryDecrypt (encKey : Key) (blockId data : bytes) : result (option bytes) :=
  _checkFormatHeader data ;;
  decrypted ← decrypt (drop 2 data) (u32 (Z.of_nat (length data) - 2)) encKey ;
  match decrypted with
  | None => mret None
  | Some decrypted =>
      header ← _readFormatHeader data ;
      if decide (FORMAT_VERSION_HEADER_OLD = header) then
        correct ← _blockIdHeaderIsCorrect blockId decrypted ;
        if negb correct then mret None
        else migrated ← _migrateBlock decrypted ; mret (Some migrated)
      else mret (Some decrypted)
  end.

(** Run an operation of the base store. *)
Definition base {A} (m : M Base A) : M st A :=
  zoom _baseBlockStore (λ b s, mk b (_encKey s) (rng s)) m.

Definition tryCreate (blockId data : bytes) : M st bool :=
  encrypted ← _encrypt data ; base (BlockStore.tryCreate blockId encrypted).

Definition remove (blockId : bytes) : M st bool := base (BlockStore.remove blockId).

Definition load (blockId : bytes) : M st (option bytes) :=
  loaded ← base (BlockStore.load blockId) ;
  match loaded with
  | None => mret None
  | Some loaded => s ← get_state ; lift (_tryDecrypt (_encKey s) blockId loaded)
  end.

Definition store (blockId data : bytes) : M st unit :=
  encrypted ← _encrypt data ; base (BlockStore.store blockId encrypted).

Definition numBlocks (s : st) : Z := BlockStore.numBlocks (_baseBlockStore s).
Definition estimateNumFreeBytes (s : st) : Z := BlockStore.estimateNumFreeBytes (_baseBlockStore s).
Definition blockSizeFromPhysicalBlockSize (s : st) (blockSize : Z) : Z :=
  let baseBlockSize := BlockStore.blockSizeFromPhysicalBlockSize (_baseBlockStore s) blockSize in
  if decide (baseBlockSize ≤ ciphertextSize 0 + 2) then 0
  else plaintextSize (u32 (baseBlockSize - 2)).
Definition forEachBlock : M st (list bytes) := base BlockStore.forEachBlock.
Definition _setKey (encKey : Key) : M st unit := modify (λ s, mk (_baseBlockStore s) encKey (rng s)).

#[export] Instance ops : BlockStore2 st := {
  BlockStore.tryCreate := tryCreate; BlockStore.remove := remove; BlockStore.load := load;
  BlockStore.store := store; BlockStore.numBlocks := numBlocks;
  BlockStore.estimateNumFreeBytes := estimateNumFreeBytes;
  BlockStore.blockSizeFromPhysicalBlockSize := blockSizeFromPhysicalBlockSize;
  BlockStore.forEachBlock := forEachBlock }.

Context `{!CipherSpec Key Rng} `{!BlockStore2Spec Base}.

Lemma encrypted_base_ok {A} (m : M Base A) (s : st) r b' :
  m (_baseBlockStore s) = (r, b') → base m s = (r, mk b' (_encKey s) (rng s)).
Proof. intros E. unfold base, zoom. by rewrite E. Qed.

(** What [_encrypt] writes is what [_tryDecrypt] reads. *)
Lemma tryDecrypt_encrypt (s : st) blockId data :
  good_key (_encKey s) → Z.of_nat (length data) + overhead < 2 ^ 32 →
  ∃ e r', _encrypt data s = (Ok e, mk (_baseBlockStore s) (_encKey s) r') ∧
    Z.of_nat (length e) = Z.of_nat (length data) + overhead + 2 ∧
    _tryDecrypt (_encKey s) blockId e = Ok (Some data).
Proof.
  intros Hk Hn. pose proof overhead_range. destruct (encrypt_spec data (_encKey s) (rng s) Hk Hn) as (c & r' & E & Hl & D).
  exists (_prependFormatHeaderToData c), r'. unfold _encrypt, zoom, mbind, M_bind. csimp.
  rewrite u32_small by lia. rewrite E. csimp. split; [done|].
  unfold _prependFormatHeaderToData. split; [len|].
  unfold _tryDecrypt, _checkFormatHeader, _readFormatHeader.
  rewrite deserialize_serialize by done. csimp. rewrite decide_True by auto. csimp.
  rewrite drop_app_length' by done. rewrite u32_small by len.
  replace (Z.of_nat _ - 2) with (Z.of_nat (length c)) by len. rewrite D. csimp.
  by rewrite decide_False by done.
Qed.

(** The largest block that fits: what the base store takes less the header
    and the cipher's overhead, and 32 bits. *)
Definition limit : Z := Z.min (maxSize (S := Base) - 2) (2 ^ 32 - 1) - overhead.

Definition represents (n : nat) (s : st) (m : gmap bytes bytes) : Prop :=
  good_key (_encKey s) ∧
  ∃ mb, repr n (_baseBlockStore s) mb ∧
    map_rel (λ id e d, _tryDecrypt (_encKey s) id e = Ok (Some d) ∧ Z.of_nat (length d) ≤ limit) mb m.

#[export] Program Instance spec : BlockStore2Spec st := {
  BlockStore.repr := represents; BlockStore.maxSize := limit;
  BlockStore.refuses s id := BlockStore.refuses (_baseBlockStore s) id }.
Next Obligation.
  intros n s m id Hid (Hk & mb & Hr & Hm). destruct (load_spec _ _ _ _ Hid Hr) as (b' & E & Hr').
  exists (mk b' (_encKey s) (rng s)). split; [|by split; [|exists mb]].
  simpl. unfold load. rewrite (bind_ok _ _ _ _ _ (encrypted_base_ok _ _ _ _ E)).
  specialize (Hm id). destruct (mb !! id), (m !! id); try done.
  unfold mbind, M_bind. csimp. simpl. by rewrite (proj1 Hm).
Qed.
Next Obligation.
  intros n s m id data Hid Hd (Hk & mb & Hr & Hm). unfold limit in Hd.
  destruct (tryDecrypt_encrypt s id data Hk ltac:(lia)) as (e & r' & E & Hl & D).
  assert (Z.of_nat (length e) ≤ maxSize (S := Base)) as He by lia.
  destruct (store_spec n _ mb id e Hid He Hr) as (b' & E' & Hr').
  eexists. split.
  - simpl. unfold store. rewrite (bind_ok _ _ _ _ _ E). by apply encrypted_base_ok.
  - split; [done|]. eexists. split; [exact Hr'|]. by apply map_rel_insert.
Qed.
Next Obligation.
  intros n s m id data Hid Hd Hf (Hk & mb & Hr & Hm). unfold limit in Hd.
  destruct (tryDecrypt_encrypt s id data Hk ltac:(lia)) as (e & r' & E & Hl & D).
  apply (map_rel_None _ _ _ _ Hm) in Hf.
  assert (Z.of_nat (length e) ≤ maxSize (S := Base)) as He by lia.
  destruct (tryCreate_spec n _ mb id e Hid He Hf Hr) as (b' & E' & Hr').
  eexists. split.
  - simpl. unfold tryCreate. rewrite (bind_ok _ _ _ _ _ E). by apply encrypted_base_ok.
  - split; [done|]. eexists. split; [exact Hr'|]. by apply map_rel_insert.
Qed.
Next Obligation.
  intros n s m id data Hid Hd Hs Href (Hk & mb & Hr & Hm). unfold limit in Hd.
  destruct (tryDecrypt_encrypt s id data Hk ltac:(lia)) as (e & r' & E & Hl & D).
  assert (is_Some (mb !! id)) as Hs'.
  { destruct (mb !! id) eqn:Em; [done|]. apply (map_rel_None _ _ _ _ Hm) in Em. rewrite Em in Hs. by destruct Hs. }
  assert (Z.of_nat (length e) ≤ maxSize (S := Base)) as He by lia.
  destruct (tryCreate_refused n _ mb id e Hid He Hs' Href Hr) as (b' & E' & Hr').
  eexists. split.
  - simpl. unfold tryCreate. rewrite (bind_ok _ _ _ _ _ E). by apply encrypted_base_ok.
  - split; [done|]. by exists mb.
Qed.
Next Obligation.
  intros n s m id Hid (Hk & mb & Hr & Hm). destruct (remove_spec _ _ _ _ Hid Hr) as (b' & E & Hr').
  eexists. split.
  - simpl. unfold remove. rewrite (encrypted_base_ok _ _ _ _ E).
    by rewrite (bool_decide_ext _ _ (map_rel_is_Some _ _ _ _ Hm)).
  - split; [done|]. eexists. split; [exact Hr'|]. by apply map_rel_delete.
Qed.
Next Obligation.
  intros n s m (Hk & mb & Hr & Hm). simpl. unfold numBlocks.
  by rewrite (numBlocks_spec _ _ _ Hr), (map_rel_size _ _ _ Hm).
Qed.
Next Obligation.
  intros n s m (Hk & mb & Hr & Hm). destruct (forEachBlock_spec _ _ _ Hr) as (ids & b' & E & Hr' & Hp).
  exists ids. eexists. split; [by apply encrypted_base_ok|]. split.
  - split; [done|]. by exists mb.
  - by rewrite Hp, (map_rel_keys _ _ _ Hm).
Qed.
Next Obligation.
  intros n s m id (Hk & mb & Hr & Hm) Hi. apply (repr_ids _ _ _ _ Hr). by rewrite (map_rel_is_Some _ _ _ _ Hm).
Qed.
Next Obligation.
  intros n s m id d (Hk & mb & Hr & Hm) Hi. by destruct (map_rel_lookup_r _ _ _ _ _ Hm Hi) as (? & ? & ? & ?).
Qed.
Next Obligation.
  intros n n' s m Hn (Hk & mb & Hr & Hm). split; [done|]. exists mb. split; [by apply (repr_le n)|done].
Qed.
End store.
End EncryptedBlockStore2.
#[export] Existing Instance EncryptedBlockStore2.ops.
#[export] Existing Instance EncryptedBlockStore2.spec.
