(* ===== verification/KnownBlockVersions.v ===== *)
(** * The version table of the integrity layer
      (blockstore/implementations/integrity/KnownBlockVersions.cpp)

    For every client and block the highest version seen, and for every block
    the client that wrote it last (0 when it was deleted); saved to a state
    file when the file system is closed. *)
From S2P Require Import Prelude Serialization Serializer.
From Stdlib Require Import Lia ZArith.

Module KnownBlockVersions.
Definition CLIENT_ID_FOR_DELETED_BLOCK : Z := 0.
Definition OLD_HEADER : bytes := str "cryfs.integritydata.knownblockversions;0".
Definition HEADER : bytes := str "cryfs.integritydata.knownblockversions;1".

(** [stateFile] is the content of the file at [_stateFilePath]. *)
Record t := mk {
  _integrityViolationOnPreviousRun : bool;
  _knownVersions : gmap (Z * bytes) Z;
  _lastUpdateClientId : gmap bytes Z;
  stateFile : option bytes;
  _myClientId : Z;
  _valid : bool }.

Definition set_violation v s :=
  mk v (_knownVersions s) (_lastUpdateClientId s) (stateFile s) (_myClientId s) (_valid s).
Definition set_known k s :=
  mk (_integrityViolationOnPreviousRun s) k (_lastUpdateClientId s) (stateFile s) (_myClientId s) (_valid s).
Definition set_last l s :=
  mk (_integrityViolationOnPreviousRun s) (_knownVersions s) l (stateFile s) (_myClientId s) (_valid s).
Definition set_file f s :=
  mk (_integrityViolationOnPreviousRun s) (_knownVersions s) (_lastUpdateClientId s) f (_myClientId s) (_valid s).

Definition setIntegrityViolationOnPreviousRun (value : bool) : M t unit := modify (set_violation value).
Definition integrityViolationOnPreviousRun (s : t) : bool := _integrityViolationOnPreviousRun s.

(** [_knownVersions[{c, id}]]: creates the entry with value 0. *)
Definition known_ref (c : Z) (id : bytes) : M t Z := λ s,
  let v := default 0 (_knownVersions s !! (c, id)) in
  (Ok v, set_known (<[(c, id) := v]> (_knownVersions s)) s).

(** [_lastUpdateClientId[id]]: creates the entry with value 0. *)
Definition last_ref (id : bytes) : M t Z := λ s,
  let c := default 0 (_lastUpdateClientId s !! id) in
  (Ok c, set_last (<[id := c]> (_lastUpdateClientId s)) s).

Definition checkAndUpdateVersion (clientId : Z) (blockId : bytes) (version : Z) : M t bool :=
  ASSERT (bool_decide (clientId ≠ CLIENT_ID_FOR_DELETED_BLOCK)) "This is not a valid client id" ;;
  ASSERT (bool_decide (0 < version)) "Version has to be >0" ;;
  s ← get_state ;
  ASSERT (_valid s) "Object not valid due to a std::move" ;;
  found ← known_ref clientId blockId ;
  if decide (version < found) then mret false
  else
    lastUpdateClientId ← last_ref blockId ;
    if decide (found = version ∧ lastUpdateClientId ≠ clientId) then mret false
    else
      modify (λ s, set_known (<[(clientId, blockId) := version]> (_knownVersions s)) s) ;;
      modify (λ s, set_last (<[blockId := clientId]> (_lastUpdateClientId s)) s) ;;
      mret true.

Definition incrementVersion (blockId : bytes) : M t Z :=
  s ← get_state ;
  found ← known_ref (_myClientId s) blockId ;
  let newVersion := u64 (found + 1) in
  if decide (newVersion = 2 ^ 64 - 1) then mthrow (RuntimeError "Version overflow")
  else
    modify (λ s, set_known (<[(_myClientId s, blockId) := newVersion]> (_knownVersions s)) s) ;;
    modify (λ s, set_last (<[blockId := _myClientId s]> (_lastUpdateClientId s)) s) ;;
    mret newVersion.

Definition markBlockAsDeleted (blockId : bytes) : M t unit :=
  modify (λ s, set_last (<[blockId := CLIENT_ID_FOR_DELETED_BLOCK]> (_lastUpdateClientId s)) s).

Definition blockShouldExist (blockId : bytes) (s : t) : bool :=
  match _lastUpdateClientId s !! blockId with
  | None => false
  | Some c => bool_decide (c ≠ CLIENT_ID_FOR_DELETED_BLOCK)
  end.

Definition existingBlocks (s : t) : gset bytes :=
  dom (filter (λ '(_, c), c ≠ CLIENT_ID_FOR_DELETED_BLOCK) (_lastUpdateClientId s)).

Definition getBlockVersion (clientId : Z) (blockId : bytes) (s : t) : result Z :=
  match _knownVersions s !! (clientId, blockId) with Some v => Ok v | None => Throw OutOfRange end.

Definition myClientId (s : t) : Z := _myClientId s.

(** ** The state file *)
Definition _serializeKnownVersionsEntry (entry : (Z * bytes) * Z) : M Serializer.t unit :=
  Serializer.writeUint32 entry.1.1 ;;
  Serializer.writeFixedSizeData entry.1.2 ;;
  Serializer.writeUint64 entry.2.

Definition _serializeLastUpdateClientIdEntry (entry : bytes * Z) : M Serializer.t unit :=
  Serializer.writeFixedSizeData entry.1 ;; Serializer.writeUint32 entry.2.

(** A range-based [for] over the entries. *)
Fixpoint for_each {A} (f : A → M Serializer.t unit) (l : list A) : M Serializer.t unit :=
  match l with [] => mret tt | x :: l' => f x ;; for_each f l' end.

Definition _serializeKnownVersions (knownVersions : gmap (Z * bytes) Z) : M Serializer.t unit :=
  Serializer.writeUint64 (Z.of_nat (size knownVersions)) ;;
  for_each _serializeKnownVersionsEntry (map_to_list knownVersions).

Definition _serializeLastUpdateClientIds (lastUpdateClientId : gmap bytes Z) : M Serializer.t unit :=
  Serializer.writeUint64 (Z.of_nat (size lastUpdateClientId)) ;;
  for_each _serializeLastUpdateClientIdEntry (map_to_list lastUpdateClientId).

Definition state_file_size (s : t) : nat :=
  Serializer.StringSize HEADER + Serializer.BoolSize +
  8 + size (_knownVersions s) * (4 + BlockId.BINARY_LENGTH + 8) +
  8 + size (_lastUpdateClientId s) * (BlockId.BINARY_LENGTH + 4).

(** The bytes [_saveStateFile] writes; [uninit] is the serializer's fresh
    buffer. *)
Definition state_file_content (s : t) (uninit : bytes) : result bytes :=
  fst ((Serializer.writeString HEADER ;;
        Serializer.writeBool (_integrityViolationOnPreviousRun s) ;;
        _serializeKnownVersions (_knownVersions s) ;;
        _serializeLastUpdateClientIds (_lastUpdateClientId s) ;;
        Serializer.finished) (Serializer.new uninit)).

Definition _saveStateFile : M t unit :=
  s ← get_state ;
  data ← lift (state_file_content s (replicate (state_file_size s) x00)) ;
  modify (set_file (Some data)).

Definition _deserializeKnownVersionsEntry : M Deserializer.t ((Z * bytes) * Z) :=
  clientId ← Deserializer.readUint32 ;
  blockId ← Deserializer.readFixedSizeData BlockId.BINARY_LENGTH ;
  version ← Deserializer.readUint64 ;
  mret ((clientId, blockId), version).

Definition _deserializeLastUpdateClientIdEntry : M Deserializer.t (bytes * Z) :=
  blockId ← Deserializer.readFixedSizeData BlockId.BINARY_LENGTH ;
  clientId ← Deserializer.readUint32 ;
  mret (blockId, clientId).

(** [result.insert(entry)] keeps the first entry of a key. *)
Definition map_insert {K V} `{!EqDecision K} `{!Countable K} (e : K * V) (m : gmap K V) : gmap K V :=
  match m !! e.1 with Some _ => m | None => <[e.1 := e.2]> m end.

Fixpoint read_entries {K V} `{!EqDecision K} `{!Countable K} (read : M Deserializer.t (K * V))
    (numEntries : nat) (result : gmap K V) : M Deserializer.t (gmap K V) :=
  match numEntries with
  | O => mret result
  | S n => entry ← read ; read_entries read n (map_insert entry result)
  end.

Definition _deserializeKnownVersions : M Deserializer.t (gmap (Z * bytes) Z) :=
  numEntries ← Deserializer.readUint64 ;
  read_entries _deserializeKnownVersionsEntry (Z.to_nat numEntries) ∅.

Definition _deserializeLastUpdateClientIds : M Deserializer.t (gmap bytes Z) :=
  numEntries ← Deserializer.readUint64 ;
  read_entries _deserializeLastUpdateClientIdEntry (Z.to_nat numEntries) ∅.

(** The part of [_loadStateFile] common to both formats. It is only called by
    the constructor, so what an exception leaves assigned is never seen. *)
Definition parse_body : M Deserializer.t (gmap (Z * bytes) Z * gmap bytes Z) :=
  known ← _deserializeKnownVersions ;
  last ← _deserializeLastUpdateClientIds ;
  Deserializer.finished ;;
  mret (known, last).

Definition _loadStateFile : M t unit :=
  s ← get_state ;
  match stateFile s with
  | None => mret tt
  | Some file =>
      let d0 := Deserializer.new file in
      match Deserializer.readString d0 with
      | (Throw e, _) => mthrow e
      | (Ok loaded_header, d1) =>
          if decide (OLD_HEADER = loaded_header) then
            match parse_body d1 with
            | (Throw e, _) => mthrow e
            | (Ok (known, last), _) =>
                modify (set_known known) ;; modify (set_last last) ;; _saveStateFile
            end
          else if decide (HEADER ≠ loaded_header) then
            mthrow (RuntimeError "Invalid local state: Invalid integrity file header.")
          else
            match (v ← Deserializer.readBool ; b ← parse_body ; mret (v, b)) d1 with
            | (Throw e, _) => mthrow e
            | (Ok (v, (known, last)), _) =>
                modify (set_violation v) ;; modify (set_known known) ;; modify (set_last last)
            end
      end
  end.

(** The constructor: an exception leaves no object. *)
Definition new (file : option bytes) (clientId : Z) : result t :=
  ASSERT (bool_decide (clientId ≠ CLIENT_ID_FOR_DELETED_BLOCK)) "This is not a valid client id" ;;
  match _loadStateFile (mk false ∅ ∅ file clientId true) with
  | (Ok _, s) => Ok s
  | (Throw e, _) => Throw e
  end.

(** The move constructor: the new object and what is left of [rhs] (the
    standard containers it moves from are left empty). *)
Definition move (rhs : t) : t * t :=
  (mk (_integrityViolationOnPreviousRun rhs) (_knownVersions rhs) (_lastUpdateClientId rhs)
      (stateFile rhs) (_myClientId rhs) true,
   mk (_integrityViolationOnPreviousRun rhs) ∅ ∅ (stateFile rhs) (_myClientId rhs) false).

(** The destructor: the file it leaves behind. *)
Definition destroy (s : t) : option bytes :=
  if _valid s then stateFile (snd (_saveStateFile s)) else stateFile s.

(** ** Versions only grow *)
Definition known (s : t) (c : Z) (id : bytes) : Z := default 0 (_knownVersions s !! (c, id)).
Definition last (s : t) (id : bytes) : Z := default 0 (_lastUpdateClientId s !! id).

(** A version of client [c] that [checkAndUpdateVersion] would accept. *)
Definition acceptable (s : t) (c : Z) (id : bytes) (v : Z) : Prop :=
  known s c id < v ∨ (known s c id = v ∧ last s id = c).
#[export] Instance acceptable_dec s c id v : Decision (acceptable s c id v).
Proof. unfold acceptable. apply _. Defined.

(** The fields hold values of their C++ types. *)
Definition well_typed (s : t) : Prop :=
  map_Forall (λ k v, 0 ≤ k.1 < 2 ^ 32 ∧ BlockId.valid k.2 ∧ 0 ≤ v < 2 ^ 64) (_knownVersions s) ∧
  map_Forall (λ id c, BlockId.valid id ∧ 0 ≤ c < 2 ^ 32) (_lastUpdateClientId s).

(** [updated s c id v s']: [s'] is [s] with client [c]'s version [v] of block
    [id] recorded as the newest. *)
Definition updated (s : t) (c : Z) (id : bytes) (v : Z) (s' : t) : Prop :=
  (∀ c' id', known s' c' id' = if decide (c' = c ∧ id' = id) then v else known s c' id') ∧
  (∀ id', _lastUpdateClientId s' !! id' = if decide (id' = id) then Some c else _lastUpdateClientId s !! id') ∧
  _integrityViolationOnPreviousRun s' = _integrityViolationOnPreviousRun s ∧
  _myClientId s' = _myClientId s ∧ _valid s' = _valid s ∧ stateFile s' = stateFile s ∧
  (well_typed s → BlockId.valid id → 0 ≤ c < 2 ^ 32 → 0 ≤ v < 2 ^ 64 → well_typed s').

Lemma known_insert s c id v c' id' k :
  _knownVersions s = <[(c, id) := v]> k →
  known s c' id' = if decide (c' = c ∧ id' = id) then v else default 0 (k !! (c', id')).
Proof.
  intros E. unfold known. rewrite E. case_decide as Hd.
  - destruct Hd as [-> ->]. by rewrite lookup_insert_eq.
  - rewrite lookup_insert_ne; [done|]. intros [=]; auto.
Qed.

Lemma map_Forall_insert_default {K A} `{!EqDecision K} `{!Countable K} (P : K → A → Prop) (m : gmap K A) k a :
  P k a → map_Forall P m → map_Forall P (<[k := default a (m !! k)]> m).
Proof.
  intros Ha Hm. apply map_Forall_insert_2; [|done]. destruct (m !! k) eqn:E; simpl; [by apply Hm|done].
Qed.

(** Creating entries with value 0 keeps the table well typed. *)
Lemma well_typed_insert s k c id v :
  well_typed s → BlockId.valid id → 0 ≤ c < 2 ^ 32 → 0 ≤ v < 2 ^ 64 →
  k = _knownVersions s ∨ k = <[(c, id) := default 0 (_knownVersions s !! (c, id))]> (_knownVersions s) →
  map_Forall (λ k v, 0 ≤ k.1 < 2 ^ 32 ∧ BlockId.valid k.2 ∧ 0 ≤ v < 2 ^ 64) (<[(c, id) := v]> k).
Proof.
  intros [Hk _] Hid Hc Hv Heq. apply map_Forall_insert_2; [done|].
  destruct Heq as [-> | ->]; [done|]. apply map_Forall_insert_default; [|done]. split_and!; simpl; try done; lia.
Qed.

Lemma checkAndUpdateVersion_accept c id v s :
  c ≠ 0 → 0 < v → _valid s = true → acceptable s c id v →
  ∃ s', checkAndUpdateVersion c id v s = (Ok true, s') ∧ updated s c id v s'.
Proof.
  intros Hc Hv Hvalid Ha. unfold checkAndUpdateVersion, CLIENT_ID_FOR_DELETED_BLOCK.
  rewrite !bool_decide_true by lia. unfold mbind, M_bind, ASSERT. csimp. rewrite Hvalid. csimp.
  unfold known_ref, last_ref, acceptable, known, last in *. simpl.
  rewrite decide_False by lia. csimp. simpl.
  rewrite decide_False by (intros [Hf ?]; destruct Ha as [|[??]]; [lia|done]).
  eexists. split; [done|]. split_and!; simpl; try done.
  - intros c' id'. erewrite known_insert by (simpl; done). case_decide as Hd; [done|].
    rewrite lookup_insert_ne; [done|]. intros [=]; auto.
  - intros id'. case_decide as Hd; [subst; by rewrite lookup_insert_eq|].
    by rewrite !lookup_insert_ne by congruence.
  - intros Hw Hid Hcr Hvr. split; simpl; [by eapply well_typed_insert; eauto|].
    apply map_Forall_insert_2; [done|]. apply map_Forall_insert_default; [split; [done|lia]|apply Hw].
Qed.

(** A rejected version changes no recorded version and no last writer. *)
Lemma checkAndUpdateVersion_reject c id v s :
  c ≠ 0 → 0 < v → _valid s = true → ¬ acceptable s c id v →
  ∃ s', checkAndUpdateVersion c id v s = (Ok false, s') ∧
    (∀ c' id', known s' c' id' = known s c' id') ∧ (∀ id', last s' id' = last s id') ∧
    _myClientId s' = _myClientId s ∧ _valid s' = _valid s.
Proof.
  intros Hc Hv Hvalid Ha. unfold checkAndUpdateVersion, CLIENT_ID_FOR_DELETED_BLOCK.
  rewrite !bool_decide_true by lia. unfold mbind, M_bind, ASSERT. csimp. rewrite Hvalid. csimp.
  unfold known_ref, last_ref, acceptable, known, last in *. simpl.
  assert (∀ k, (default 0 (<[(c, id) := default 0 (_knownVersions s !! (c, id))]> (_knownVersions s) !! k))
     = default 0 (_knownVersions s !! k)) as Hins.
  { intros k. destruct (decide (k = (c, id))) as [->|]; [by rewrite lookup_insert_eq|].
    by rewrite lookup_insert_ne. }
  case_decide as Hd.
  - eexists. split; [done|]. simpl. by split_and!.
  - simpl. rewrite decide_True by (split; [lia|]; intros Hl; naive_solver lia).
    eexists. split; [done|]. simpl. split_and!; try done.
    intros id'. destruct (decide (id' = id)) as [->|]; [by rewrite lookup_insert_eq|].
    by rewrite lookup_insert_ne.
Qed.

Lemma incrementVersion_ok id s :
  0 ≤ known s (_myClientId s) id < 2 ^ 64 - 2 →
  ∃ s', incrementVersion id s = (Ok (known s (_myClientId s) id + 1), s') ∧
    updated s (_myClientId s) id (known s (_myClientId s) id + 1) s'.
Proof.
  intros Hk. unfold incrementVersion, mbind, M_bind, known_ref. csimp. simpl.
  fold (known s (_myClientId s) id). rewrite u64_small, decide_False by lia.
  eexists. split; [done|]. split_and!; simpl; try done.
  - intros c' id'. erewrite known_insert by (simpl; done). case_decide as Hd; [done|].
    rewrite lookup_insert_ne; [done|]. intros [=]; auto.
  - intros id'. case_decide as Hd; [subst; by rewrite lookup_insert_eq|].
    by rewrite !lookup_insert_ne by congruence.
  - intros Hw Hid Hcr Hvr. split; simpl; [by eapply well_typed_insert; eauto|].
    apply map_Forall_insert_2; [done|]. apply Hw.
Qed.

(** One call on the table; a loaded header carries a version below 2^64 - 1. *)
Inductive step : t → t → Prop :=
| step_check c id v s r s' :
    v < 2 ^ 64 - 1 → checkAndUpdateVersion c id v s = (r, s') → step s s'
| step_increment id s r s' : incrementVersion id s = (r, s') → step s s'
| step_delete id s r s' : markBlockAsDeleted id s = (r, s') → step s s'
| step_violation b s r s' : setIntegrityViolationOnPreviousRun b s = (r, s') → step s s'.

Definition inv (s : t) : Prop := _valid s = true ∧ ∀ c id, 0 ≤ known s c id < 2 ^ 64 - 1.

Lemma updated_inv s c id v s' :
  known s c id ≤ v < 2 ^ 64 - 1 → updated s c id v s' → inv s →
  inv s' ∧ ∀ c' id', known s c' id' ≤ known s' c' id'.
Proof.
  intros Hv (Hk & Hl & _ & _ & Hva & _ & _) [Hvalid Hi]. split; [split; [congruence|]|]; intros c' id';
    rewrite Hk; pose proof (Hi c' id'); pose proof (Hi c id); case_decide as Hd; try lia;
    destruct Hd as [-> ->]; lia.
Qed.

Lemma same_known_inv s s' :
  (∀ c id, known s' c id = known s c id) → _valid s' = _valid s → inv s →
  inv s' ∧ ∀ c' id', known s c' id' ≤ known s' c' id'.
Proof.
  intros Hk Hv [Hvalid Hi]. split; [split; [congruence|]|]; intros c id; rewrite Hk; pose proof (Hi c id); lia.
Qed.

Lemma checkAndUpdateVersion_throw c id v s :
  _valid s = true → (c = 0 ∨ v ≤ 0) →
  ∃ e, checkAndUpdateVersion c id v s = (Throw e, s).
Proof.
  intros Hv Hc. unfold checkAndUpdateVersion, CLIENT_ID_FOR_DELETED_BLOCK, ASSERT, mbind, M_bind.
  case_bool_decide; csimp; [|by eexists]. case_bool_decide; csimp; [|by eexists]. lia.
Qed.

Lemma incrementVersion_throw id s :
  known s (_myClientId s) id = 2 ^ 64 - 2 →
  ∃ s', incrementVersion id s = (Throw (RuntimeError "Version overflow"), s') ∧
    (∀ c' id', known s' c' id' = known s c' id') ∧ _valid s' = _valid s.
Proof.
  intros Hk. unfold incrementVersion, mbind, M_bind, known_ref. csimp. simpl.
  fold (known s (_myClientId s) id). rewrite Hk. simpl. eexists. split; [done|]. simpl. split; [|done].
  intros c' id'. erewrite known_insert by (simpl; done). case_decide as Hd; [|done].
  destruct Hd as [-> ->]. done.
Qed.

(** No call ever lowers a recorded version. *)
Lemma step_monotone s s' :
  step s s' → inv s → inv s' ∧ ∀ c id, known s c id ≤ known s' c id.
Proof.
  intros Hs Hi. pose proof Hi as [Hvalid Hr]. destruct Hs as [c id v s r s' Hv E|id s r s' E|id s r s' E|b s r s' E].
  - destruct (decide (c = 0 ∨ v ≤ 0)) as [Hz|Hz].
    { destruct (checkAndUpdateVersion_throw c id v s Hvalid Hz) as [e E']. rewrite E' in E. by simplify_eq. }
    destruct (decide (acceptable s c id v)) as [Ha|Ha].
    + destruct (checkAndUpdateVersion_accept c id v s) as (s1 & E1 & U); [lia|lia|done|done|].
      rewrite E1 in E. simplify_eq. apply (updated_inv _ _ _ _ _) in U; [done| |done].
      destruct Ha; lia.
    + destruct (checkAndUpdateVersion_reject c id v s) as (s1 & E1 & Hk & _ & _ & Hv'); [lia|lia|done|done|].
      rewrite E1 in E. simplify_eq. by apply same_known_inv.
  - destruct (decide (known s (_myClientId s) id = 2 ^ 64 - 2)) as [Hk|Hk].
    + destruct (incrementVersion_throw id s Hk) as (s1 & E1 & Hk' & Hv'). rewrite E1 in E. simplify_eq.
      by apply same_known_inv.
    + pose proof (Hr (_myClientId s) id).
      destruct (incrementVersion_ok id s) as (s1 & E1 & U); [lia|]. rewrite E1 in E. simplify_eq.
      apply (updated_inv _ _ _ _ _) in U; [done|lia|done].
  - inversion E. subst. by apply same_known_inv.
  - inversion E. subst. by apply same_known_inv.
Qed.

Lemma steps_monotone s s' :
  rtc step s s' → inv s → inv s' ∧ ∀ c id, known s c id ≤ known s' c id.
Proof.
  induction 1 as [s|s1 s2 s3 H12 H23 IH]; intros Hi; [done|].
  destruct (step_monotone _ _ H12 Hi) as [Hi2 Hle]. destruct (IH Hi2) as [Hi3 Hle3].
  split; [done|]. intros c id. specialize (Hle c id). specialize (Hle3 c id). lia.
Qed.

(** A call that returned [true] recorded the version. *)
Lemma checkAndUpdateVersion_true c id v s s' :
  inv s → checkAndUpdateVersion c id v s = (Ok true, s') →
  c ≠ 0 ∧ 0 < v ∧ acceptable s c id v ∧ updated s c id v s'.
Proof.
  intros [Hvalid _] E. destruct (decide (c = 0 ∨ v ≤ 0)) as [Hz|Hz].
  { destruct (checkAndUpdateVersion_throw c id v s Hvalid Hz) as [e E']. rewrite E' in E. by simplify_eq. }
  destruct (decide (acceptable s c id v)) as [Ha|Ha].
  - destruct (checkAndUpdateVersion_accept c id v s) as (s1 & E1 & U); [lia|lia|done|done|].
    rewrite E1 in E. simplify_eq. split_and!; [lia|lia|done|done].
  - destruct (checkAndUpdateVersion_reject c id v s) as (s1 & E1 & _); [lia|lia|done|done|].
    rewrite E1 in E. by simplify_eq.
Qed.

(** C15. Rollback protection, for versions below 2^64 - 1. Once a version [v]
    of a block by a client was accepted, no later call accepts a lower version
    of that client for that block, whatever calls happen in between, as long as
    no version offered to [checkAndUpdateVersion] is 2^64 - 1: at that value the
    counter of [incrementVersion] wraps to 0 ([incrementVersion_wraps]). The
    own counter never reaches it, [incrementVersion] throws before. *)
Theorem rollback_rejected c id v v' s s1 s2 :
  inv s → v < 2 ^ 64 - 1 → checkAndUpdateVersion c id v s = (Ok true, s1) →
  rtc step s1 s2 → 0 < v' < v →
  ∃ s3, checkAndUpdateVersion c id v' s2 = (Ok false, s3).
Proof.
  intros Hi Hv E Hs Hv'. destruct (checkAndUpdateVersion_true _ _ _ _ _ Hi E) as (Hc & _ & Ha & U).
  assert (known s c id ≤ v) as Hle by (destruct Ha; lia).
  destruct (updated_inv _ _ _ _ _ (conj Hle Hv) U Hi) as [Hi1 _].
  destruct (steps_monotone _ _ Hs Hi1) as [[Hvalid2 _] Hm].
  specialize (Hm c id). destruct U as [Hk _]. rewrite Hk, decide_True in Hm by done.
  destruct (checkAndUpdateVersion_reject c id v' s2) as (s3 & E3 & _); [done|lia|done| |by exists s3].
  intros []; lia.
Qed.

Definition init (clientId : Z) : t := mk false ∅ ∅ None clientId true.
Definition after (m : M t bool) (s : t) : t := snd (m s).

Lemma init_inv c : inv (init c).
Proof. split; [done|]. intros c' id. unfold known. simpl. rewrite lookup_empty. simpl. lia. Qed.

Lemma rollback_rejected_witness :
  ∃ s3, checkAndUpdateVersion 7 [x01] 4 (after (checkAndUpdateVersion 7 [x01] 5) (init 1)) = (Ok false, s3).
Proof.
  apply (rollback_rejected 7 [x01] 5 4 (init 1) (after (checkAndUpdateVersion 7 [x01] 5) (init 1))).
  - apply init_inv.
  - lia.
  - vm_compute. reflexivity.
  - apply rtc_refl.
  - lia.
Defined.

(** A block that was removed, or that another client has overwritten,
    cannot be brought back. After a state in which client [c] had reached
    version [known s c id], as long as the last recorded writer of the block
    is not [c] (it is 0 after a deletion), every version of [c] up to that
    one is rejected. *)
Theorem superseded_rejected c id v s s1 s2 :
  inv s → c ≠ 0 → 0 < v ≤ known s c id →
  markBlockAsDeleted id s = (Ok tt, s1) ∨ (∃ c' v', c' ≠ c ∧ checkAndUpdateVersion c' id v' s = (Ok true, s1) ∧ v' < 2 ^ 64 - 1) →
  last s1 id ≠ c ∧
  (rtc step s1 s2 → last s2 id ≠ c → ∃ s3, checkAndUpdateVersion c id v s2 = (Ok false, s3)).
Proof.
  intros Hi Hc Hv Hd.
  assert (last s1 id ≠ c ∧ step s s1) as [Hl Hst].
  { destruct Hd as [E|(c' & v' & Hc' & E & Hv')].
    - split; [|by eapply step_delete]. inversion E. unfold last. simpl. by rewrite lookup_insert_eq.
    - split; [|by eapply step_check].
      destruct (checkAndUpdateVersion_true _ _ _ _ _ Hi E) as (_ & _ & _ & _ & Hl & _).
      unfold last. by rewrite Hl, decide_True. }
  split; [done|]. intros Hs Hl2.
  destruct (step_monotone _ _ Hst Hi) as [Hi1 Hm1].
  destruct (steps_monotone _ _ Hs Hi1) as [[Hvalid2 _] Hm2].
  specialize (Hm1 c id). specialize (Hm2 c id).
  destruct (checkAndUpdateVersion_reject c id v s2) as (s3 & E3 & _); [done|lia|done| |by exists s3].
  intros [|[]]; [lia|done].
Qed.

Lemma superseded_rejected_witness :
  let s := after (checkAndUpdateVersion 7 [x01] 5) (init 1) in
  let s1 := after (checkAndUpdateVersion 8 [x01] 1) s in
  last s1 [x01] ≠ 7 ∧
  (rtc step s1 s1 → last s1 [x01] ≠ 7 → ∃ s3, checkAndUpdateVersion 7 [x01] 5 s1 = (Ok false, s3)).
Proof.
  intros s s1. apply (superseded_rejected 7 [x01] 5 s s1 s1).
  - apply (step_monotone (init 1)); [|apply init_inv].
    apply (step_check 7 [x01] 5 _ (Ok true)); [lia|by vm_compute].
  - lia.
  - vm_compute. split; congruence.
  - right. exists 8, 1. split_and!; [lia|by vm_compute|lia].
Defined.

(** The overflow check of [incrementVersion] only sees the counter one
    step before the maximum: with the maximum itself recorded (a block whose
    header carries version 2^64 - 1 was accepted) the counter wraps to 0, the
    block is written with version 0, and every older version becomes
    acceptable again. *)
Theorem incrementVersion_wraps id s :
  known s (_myClientId s) id = 2 ^ 64 - 1 →
  ∃ s', incrementVersion id s = (Ok 0, s') ∧ known s' (_myClientId s) id = 0.
Proof.
  intros Hk. unfold incrementVersion, mbind, M_bind, known_ref. csimp. simpl.
  fold (known s (_myClientId s) id). rewrite Hk. simpl. eexists. split; [done|].
  unfold known. simpl. by rewrite lookup_insert_eq.
Qed.

Lemma incrementVersion_wraps_witness :
  let s := after (checkAndUpdateVersion 1 [x01] (2 ^ 64 - 1)) (init 1) in
  ∃ s', incrementVersion [x01] s = (Ok 0, s') ∧ known s' 1 [x01] = 0.
Proof. intros s. apply (incrementVersion_wraps [x01] s). by vm_compute. Defined.

(** ** The state file round trip *)

Definition known_entry_bytes (e : (Z * bytes) * Z) : bytes :=
  serialize 4 e.1.1 ++ e.1.2 ++ serialize 8 e.2.
Definition last_entry_bytes (e : bytes * Z) : bytes := e.1 ++ serialize 4 e.2.

Lemma writes_for_each {A} (f : A → M Serializer.t unit) (enc : A → bytes) l :
  (∀ x, writes (f x) (enc x)) → writes (for_each f l) (concat (map enc l)).
Proof. intros H. induction l; simpl; [apply writes_ret|by apply writes_bind]. Qed.

Lemma writes_uint n v : writes (Serializer._write n v) (serialize n v).
Proof. intros s. apply writeData_step. Qed.

Lemma writes_known_entry e : writes (_serializeKnownVersionsEntry e) (known_entry_bytes e).
Proof.
  apply writes_bind; [apply writes_uint|]. apply writes_bind; [|apply writes_uint].
  apply (writes_field (FFixed e.1.2) I).
Qed.

Lemma writes_last_entry e : writes (_serializeLastUpdateClientIdEntry e) (last_entry_bytes e).
Proof. apply writes_bind; [|apply writes_uint]. apply (writes_field (FFixed e.1) I). Qed.

(** Reading back entries with distinct keys rebuilds the map. *)
Lemma reads_entries {K V} `{!EqDecision K} `{!Countable K} (read : M Deserializer.t (K * V))
    (enc : K * V → bytes) l (m : gmap K V) :
  (∀ e, e ∈ l → reads read (enc e) e) → NoDup l.*1 → (∀ k, k ∈ l.*1 → m !! k = None) →
  reads (read_entries read (length l) m) (concat (map enc l)) (list_to_map l ∪ m).
Proof.
  revert m. induction l as [|[k v] l IH]; intros m Hr Hn Hm; simpl.
  - rewrite (left_id_L ∅ (∪)). apply reads_ret.
  - apply NoDup_cons in Hn as [Hk Hn].
    apply (reads_bind _ _ _ _ (k, v)); [apply Hr; by left|].
    unfold map_insert. simpl. rewrite Hm by (by left).
    rewrite <- insert_union_l, insert_union_r by (by apply not_elem_of_list_to_map).
    apply IH; [|done|].
    + intros e He. apply Hr. by right.
    + intros k' Hk'. rewrite lookup_insert_ne by (intros ->; done). apply Hm. by right.
Qed.

Lemma reads_known_entry e :
  0 ≤ e.1.1 < 2 ^ 32 → BlockId.valid e.1.2 → 0 ≤ e.2 < 2 ^ 64 →
  reads _deserializeKnownVersionsEntry (known_entry_bytes e) e.
Proof.
  destruct e as [[c id] v]. simpl. intros Hc Hid Hv. unfold known_entry_bytes. cbn [fst snd].
  apply (reads_bind _ _ _ _ c); [by apply reads_uint; [lia|]|].
  apply (reads_bind _ _ _ _ id); [by apply reads_fixed|].
  apply (reads_fmap _ (λ v, ((c, id), v))). by apply reads_uint; [lia|].
Qed.

Lemma reads_last_entry e :
  BlockId.valid e.1 → 0 ≤ e.2 < 2 ^ 32 → reads _deserializeLastUpdateClientIdEntry (last_entry_bytes e) e.
Proof.
  destruct e as [id c]. simpl. intros Hid Hc. unfold last_entry_bytes. cbn [fst snd].
  apply (reads_bind _ _ _ _ id); [by apply reads_fixed|].
  apply (reads_fmap _ (λ c, (id, c))). by apply reads_uint; [lia|].
Qed.

(** The bytes of the state file, as one expression. *)
Definition body_bytes (s : t) : bytes :=
  (serialize 8 (Z.of_nat (size (_knownVersions s))) ++
     concat (map known_entry_bytes (map_to_list (_knownVersions s)))) ++
  serialize 8 (Z.of_nat (size (_lastUpdateClientId s))) ++
     concat (map last_entry_bytes (map_to_list (_lastUpdateClientId s))).
Definition state_file_bytes (s : t) : bytes :=
  (HEADER ++ [x00]) ++ serialize 1 (if _integrityViolationOnPreviousRun s then 1 else 0) ++ body_bytes s.

Lemma length_concat_const {A} (f : A → bytes) n l :
  (∀ x, x ∈ l → length (f x) = n) → length (concat (map f l)) = (length l * n)%nat.
Proof.
  induction l as [|x l IH]; intros H; simpl; [done|].
  rewrite length_app, IH by (intros; apply H; by right). rewrite H by (by left). done.
Qed.

Lemma length_state_file s : well_typed s → length (state_file_bytes s) = state_file_size s.
Proof.
  intros [Hk Hl]. unfold state_file_bytes, body_bytes, state_file_size.
  rewrite !length_app, !length_serialize.
  rewrite (length_concat_const known_entry_bytes 28), (length_concat_const last_entry_bytes 20).
  - rewrite <- !length_map_to_list. change BlockId.BINARY_LENGTH with 16%nat.
    unfold Serializer.StringSize, Serializer.BoolSize. simpl. lia.
  - intros [id c] Hin%elem_of_map_to_list. apply Hl in Hin as [Hid _].
    unfold last_entry_bytes. rewrite length_app, length_serialize. simpl. by rewrite Hid.
  - intros [[c id] v] Hin%elem_of_map_to_list. apply Hk in Hin as (_ & Hid & _).
    unfold known_entry_bytes. rewrite !length_app, !length_serialize. simpl in *. by rewrite Hid.
Qed.

Lemma seq_assoc4 {S A} (m1 m2 m3 m4 : M S unit) (fin : M S A) s :
  (m1 ;; m2 ;; m3 ;; m4 ;; fin) s = ((m1 ;; m2 ;; m3 ;; m4) ;; fin) s.
Proof.
  rewrite bind_assoc. apply bind_ext. intros _ s1. rewrite bind_assoc. apply bind_ext.
  intros _ s2. by rewrite bind_assoc.
Qed.

Lemma state_file_content_ok s uninit :
  well_typed s → length uninit = state_file_size s →
  state_file_content s uninit = Ok (state_file_bytes s).
Proof.
  intros Hw Hu.
  destruct (writes_finished (Serializer.writeString HEADER ;;
        Serializer.writeBool (_integrityViolationOnPreviousRun s) ;;
        _serializeKnownVersions (_knownVersions s) ;;
        _serializeLastUpdateClientIds (_lastUpdateClientId s)) (state_file_bytes s) uninit) as [s' E].
  - apply writes_bind; [apply (writes_field (FString HEADER) I)|].
    apply writes_bind; [apply writes_uint|]. apply writes_bind.
    + apply writes_bind; [apply writes_uint|]. apply writes_for_each, writes_known_entry.
    + apply writes_bind; [apply writes_uint|]. apply writes_for_each, writes_last_entry.
  - by rewrite length_state_file.
  - unfold state_file_content. by rewrite seq_assoc4, E.
Qed.

Lemma reads_body s :
  well_typed s → Z.of_nat (length (state_file_bytes s)) < 2 ^ 63 →
  reads (known ← _deserializeKnownVersions ; last ← _deserializeLastUpdateClientIds ; mret (known, last))
    (body_bytes s) (_knownVersions s, _lastUpdateClientId s).
Proof.
  intros Hw Hlen. pose proof (length_state_file s Hw) as Hl. unfold state_file_size in Hl.
  destruct Hw as [Hk Hla]. unfold body_bytes.
  apply (reads_bind _ _ _ _ (_knownVersions s)).
  - apply (reads_bind _ _ _ _ (Z.of_nat (size (_knownVersions s)))); [apply reads_uint; lia|].
    rewrite Nat2Z.id, <- length_map_to_list.
    rewrite <- (list_to_map_to_list (_knownVersions s)) at 3. rewrite <- (right_id_L ∅ (∪) (list_to_map _)).
    apply reads_entries; [|apply NoDup_fst_map_to_list|by intros; apply lookup_empty].
    intros [[c id] v] Hin%elem_of_map_to_list. apply Hk in Hin as (? & ? & ?). by apply reads_known_entry.
  - apply (reads_fmap _ (λ last, (_knownVersions s, last))).
    apply (reads_bind _ _ _ _ (Z.of_nat (size (_lastUpdateClientId s)))); [apply reads_uint; lia|].
    rewrite Nat2Z.id, <- length_map_to_list.
    rewrite <- (list_to_map_to_list (_lastUpdateClientId s)) at 3. rewrite <- (right_id_L ∅ (∪) (list_to_map _)).
    apply reads_entries; [|apply NoDup_fst_map_to_list|by intros; apply lookup_empty].
    intros [id c] Hin%elem_of_map_to_list. apply Hla in Hin as (? & ?). by apply reads_last_entry.
Qed.

Lemma parse_body_ok s d1 :
  well_typed s → Z.of_nat (length (state_file_bytes s)) < 2 ^ 63 → reader_ok d1 → unread d1 = body_bytes s →
  ∃ d2, parse_body d1 = (Ok (_knownVersions s, _lastUpdateClientId s), d2).
Proof.
  intros Hw Hlen Hd Hu.
  destruct (reads_body s Hw Hlen d1 [] Hd) as (d2 & E & Ha); [by rewrite app_nil_r|].
  exists d2. unfold parse_body. unfold mbind, M_bind in *.
  destruct (_deserializeKnownVersions d1) as [[k|] d']; [|done].
  destruct (_deserializeLastUpdateClientIds d') as [[l|] d'']; [|done]. inversion E; subst.
  unfold Deserializer.finished. rewrite decide_True; [done|]. rewrite Ha.
  cbn [Deserializer._pos Deserializer._source]. destruct Hd as [Hp _]. apply (f_equal length) in Hu. unfold unread in Hu. rewrite length_drop in Hu. lia.
Qed.

Lemma state_file_ok s :
  well_typed s → _valid s = true → _myClientId s ≠ 0 → Z.of_nat (state_file_size s) < 2 ^ 63 →
  ∃ file, destroy s = Some file ∧ new (Some file) (_myClientId s) = Ok (set_file (Some file) s).
Proof.
  intros Hw Hv Hc Hlen. exists (state_file_bytes s).
  rewrite <- length_state_file in Hlen by done. split.
  - unfold destroy. rewrite Hv. unfold _saveStateFile, mbind, M_bind. csimp.
    rewrite state_file_content_ok; [done|done|apply length_replicate].
  - unfold new, CLIENT_ID_FOR_DELETED_BLOCK. rewrite assert_ok by (by apply bool_decide_true). csimp.
    unfold _loadStateFile, mbind at 1, M_bind at 1. csimp. cbn [stateFile].
    destruct (reads_string HEADER ltac:(by apply (bool_decide_unpack _)) (Deserializer.new (state_file_bytes s))
      (serialize 1 (if _integrityViolationOnPreviousRun s then 1 else 0) ++ body_bytes s)) as (d1 & E1 & A1);
      [by apply new_ok|done|].
    rewrite E1, decide_False, decide_False by (by vm_compute || tauto).
    destruct (advance_ok _ (serialize 1 (if _integrityViolationOnPreviousRun s then 1 else 0) ++ body_bytes s)
      _ _ (new_ok _ Hlen) eq_refl A1) as [Hd1 Hu1].
    destruct (reads_bool (_integrityViolationOnPreviousRun s) d1 (body_bytes s) Hd1 Hu1) as (d2 & E2 & A2).
    destruct (advance_ok _ _ _ _ Hd1 Hu1 A2) as [Hd2 Hu2].
    destruct (parse_body_ok s d2 Hw Hlen Hd2 Hu2) as [d3 E3].
    rewrite (bind_ok _ _ _ _ _ E2), (bind_ok _ _ _ _ _ E3). csimp. unfold mbind, M_bind. csimp.
    unfold set_violation, set_known, set_last, set_file. simpl. by rewrite Hv.
Qed.

(** The state file round trip. A table whose fields hold values of their
    C++ types is saved by the destructor to a file from which the
    constructor rebuilds the same table (the violation flag, every version,
    every last writer). *)
Theorem state_file_roundtrip s :
  well_typed s → _valid s = true → _myClientId s ≠ 0 → Z.of_nat (state_file_size s) < 2 ^ 63 →
  ∃ file, destroy s = Some file ∧ new (Some file) (_myClientId s) = Ok (set_file (Some file) s).
Proof. apply state_file_ok. Qed.

Definition sample : t :=
  mk true {[ (5, replicate 16 x01) := 3 ]} {[ replicate 16 x01 := 5 ]} None 9 true.

Lemma state_file_roundtrip_witness :
  ∃ file, destroy sample = Some file ∧ new (Some file) 9 = Ok (set_file (Some file) sample).
Proof.
  apply (state_file_roundtrip sample).
  - split; apply map_Forall_singleton; split_and!; simpl; try lia; done.
  - reflexivity.
  - simpl. lia.
  - vm_compute. reflexivity.
Defined.
End KnownBlockVersions.
