(* ===== verification/Integrity.v ===== *)
(** * The integrity block store (blockstore/implementations/integrity)

    Every block carries its id, the client that wrote it and a version
    number; [KnownBlockVersions] decides whether a loaded version is
    acceptable. The store implements [BlockStore2Spec] over any base store
    that does, and refuses blocks that were rolled back, renamed or
    re-introduced. *)
From S2P Require Import Prelude Serialization Serializer BlockStore KnownBlockVersions.
From Stdlib Require Import Lia ZArith.

Module IntegrityBlockStore2.
Definition FORMAT_VERSION_HEADER_OLD : Z := 0.
Definition FORMAT_VERSION_HEADER : Z := 1.
Definition ID_HEADER_OFFSET : nat := 2.
Definition CLIENTID_HEADER_OFFSET : nat := ID_HEADER_OFFSET + BlockId.BINARY_LENGTH.
Definition VERSION_HEADER_OFFSET : nat := CLIENTID_HEADER_OFFSET + 4.
Definition HEADER_LENGTH : nat := VERSION_HEADER_OFFSET + 8.

(** [violations] counts the calls of the [_onIntegrityViolation] callback. *)
Record t (Base : Type) := mk {
  _baseBlockStore : Base;
  _knownBlockVersions : KnownBlockVersions.t;
  _allowIntegrityViolations : bool;
  _missingBlockIsIntegrityViolation : bool;
  violations : nat }.
Arguments mk {Base}.
Arguments _baseBlockStore {Base}.
Arguments _knownBlockVersions {Base}.
Arguments _allowIntegrityViolations {Base}.
Arguments _missingBlockIsIntegrityViolation {Base}.
Arguments violations {Base}.

Definition _prependHeaderToData (blockId : bytes) (myClientId version : Z) (data : bytes) : bytes :=
  serialize 2 FORMAT_VERSION_HEADER ++ blockId ++ serialize 4 myClientId ++ serialize 8 version ++ data.

Definition _readFormatHeader (data : bytes) : result Z := deserialize 2 data.
Definition _readClientId (data : bytes) : result Z := deserializeWithOffset 4 data CLIENTID_HEADER_OFFSET.
Definition _readBlockId (data : bytes) : result bytes := BlockId.FromBinary (drop ID_HEADER_OFFSET data).
Definition _readVersion (data : bytes) : result Z := deserializeWithOffset 8 data VERSION_HEADER_OFFSET.
Definition _removeHeader (data : bytes) : result bytes := Data.copyAndRemovePrefix data HEADER_LENGTH.

Definition _checkFormatHeader (data : bytes) : result unit :=
  h ← _readFormatHeader data ;
  if decide (FORMAT_VERSION_HEADER ≠ h)
  then mthrow (RuntimeError "The versioned block has the wrong format. Was it created with a newer version of CryFS?")
  else mret tt.

(** Insert the block id behind the format header. *)
Definition _migrateBlock (blockId data : bytes) : result bytes :=
  rest ← Data.memcpy_from data 2 (length data - 2) ;
  let migrated := serialize 2 FORMAT_VERSION_HEADER ++ blockId ++ rest in
  ASSERT (bool_decide (length migrated = 2 + BlockId.BINARY_LENGTH + (length data - 2))%nat) "Wrong offset computation" ;;
  mret migrated.

Section store.
Context {Base : Type} `{!BlockStore2 Base}.
Abbreviation st := (t Base).

Definition base {A} (m : M Base A) : M st A :=
  zoom _baseBlockStore (λ b s, mk b (_knownBlockVersions s) (_allowIntegrityViolations s)
                                 (_missingBlockIsIntegrityViolation s) (violations s)) m.
Definition versions {A} (m : M KnownBlockVersions.t A) : M st A :=
  zoom _knownBlockVersions (λ k s, mk (_baseBlockStore s) k (_allowIntegrityViolations s)
                                     (_missingBlockIsIntegrityViolation s) (violations s)) m.

(** [_onIntegrityViolation()]. *)
Definition _onIntegrityViolation : M st unit :=
  modify (λ s, mk (_baseBlockStore s) (_knownBlockVersions s) (_allowIntegrityViolations s)
                 (_missingBlockIsIntegrityViolation s) (S (violations s))).

Definition integrityViolationDetected : M st unit :=
  s ← get_state ;
  if _allowIntegrityViolations s then mret tt
  else versions (KnownBlockVersions.setIntegrityViolationOnPreviousRun true) ;; _onIntegrityViolation.

Definition _checkVersionHeader (blockId data : bytes) : M st bool :=
  clientId ← lift (_readClientId data) ;
  version ← lift (_readVersion data) ;
  ok ← versions (KnownBlockVersions.checkAndUpdateVersion clientId blockId version) ;
  if negb ok then integrityViolationDetected ;; mret false else mret true.

Definition _checkIdHeader (expectedBlockId data : bytes) : M st bool :=
  actualBlockId ← lift (_readBlockId data) ;
  if decide (expectedBlockId ≠ actualBlockId) then integrityViolationDetected ;; mret false else mret true.

Definition _checkHeader (blockId data : bytes) : M st bool :=
  lift (_checkFormatHeader data) ;;
  idOk ← _checkIdHeader blockId data ;
  if (idOk : bool) then _checkVersionHeader blockId data else mret false.

Definition tryCreate (blockId data : bytes) : M st bool :=
  version ← versions (KnownBlockVersions.incrementVersion blockId) ;
  s ← get_state ;
  base (BlockStore.tryCreate blockId
    (_prependHeaderToData blockId (KnownBlockVersions.myClientId (_knownBlockVersions s)) version data)).

Definition remove (blockId : bytes) : M st bool :=
  versions (KnownBlockVersions.markBlockAsDeleted blockId) ;;
  base (BlockStore.remove blockId).

Definition store (blockId data : bytes) : M st unit :=
  version ← versions (KnownBlockVersions.incrementVersion blockId) ;
  s ← get_state ;
  base (BlockStore.store blockId
    (_prependHeaderToData blockId (KnownBlockVersions.myClientId (_knownBlockVersions s)) version data)).

Definition load (blockId : bytes) : M st (option bytes) :=
  loaded ← base (BlockStore.load blockId) ;
  s ← get_state ;
  match loaded with
  | None =>
      (if _missingBlockIsIntegrityViolation s && KnownBlockVersions.blockShouldExist blockId (_knownBlockVersions s)
       then integrityViolationDetected else mret tt) ;;
      mret None
  | Some loaded =>
      header ← lift (_readFormatHeader loaded) ;
      if decide (FORMAT_VERSION_HEADER_OLD = header) then
        migrated ← lift (_migrateBlock blockId loaded) ;
        ok ← _checkHeader blockId migrated ;
        if negb ok && negb (_allowIntegrityViolations s) then mret None
        else
          content ← lift (_removeHeader migrated) ;
          store blockId content ;;
          result ← lift (_removeHeader migrated) ;
          mret (Some result)
      else
        ok ← _checkHeader blockId loaded ;
        if negb ok && negb (_allowIntegrityViolations s) then mret None
        else result ← lift (_removeHeader loaded) ; mret (Some result)
  end.

Definition numBlocks (s : st) : Z := BlockStore.numBlocks (_baseBlockStore s).
Definition estimateNumFreeBytes (s : st) : Z := BlockStore.estimateNumFreeBytes (_baseBlockStore s).
Definition blockSizeFromPhysicalBlockSize (s : st) (blockSize : Z) : Z :=
  let baseBlockSize := BlockStore.blockSizeFromPhysicalBlockSize (_baseBlockStore s) blockSize in
  if decide (baseBlockSize ≤ Z.of_nat HEADER_LENGTH) then 0 else baseBlockSize - Z.of_nat HEADER_LENGTH.

Definition forEachBlock : M st (list bytes) :=
  s ← get_state ;
  if negb (_missingBlockIsIntegrityViolation s) then base BlockStore.forEachBlock
  else
    let existingBlocks := KnownBlockVersions.existingBlocks (_knownBlockVersions s) in
    ids ← base BlockStore.forEachBlock ;
    (if decide (existingBlocks ∖ list_to_set ids ≠ ∅) then integrityViolationDetected else mret tt) ;;
    mret ids.

#[export] Instance ops : BlockStore2 st := {
  BlockStore.tryCreate := tryCreate; BlockStore.remove := remove; BlockStore.load := load;
  BlockStore.store := store; BlockStore.numBlocks := numBlocks;
  BlockStore.estimateNumFreeBytes := estimateNumFreeBytes;
  BlockStore.blockSizeFromPhysicalBlockSize := blockSizeFromPhysicalBlockSize;
  BlockStore.forEachBlock := forEachBlock }.

(** The constructor throws [IntegrityViolationOnPreviousRun] when the state
    file says so. *)
Definition new (baseBlockStore : Base) (integrityFile : option bytes) (myClientId : Z)
    (allowIntegrityViolations missingBlockIsIntegrityViolation : bool) : result st :=
  known ← KnownBlockVersions.new integrityFile myClientId ;
  if KnownBlockVersions.integrityViolationOnPreviousRun known
  then mthrow (RuntimeError "IntegrityViolationOnPreviousRun")
  else mret (mk baseBlockStore known allowIntegrityViolations missingBlockIsIntegrityViolation 0).

(** Migration of a file system without version numbers, in place. The state
    is the base store and the version table; [signal_occurred] tells whether a
    signal was caught before a block is handled. *)
Definition migrateBlockFromBlockstoreWithoutVersionNumbers (blockId : bytes) : M (Base * KnownBlockVersions.t) unit :=
  data_ ← zoom fst (λ b s, (b, s.2)) (BlockStore.load blockId) ;
  match data_ with
  | None => mret tt
  | Some data =>
      header ← lift (_readFormatHeader data) ;
      if decide (0 ≠ header) then mret tt
      else
        version ← zoom snd (λ k s, (s.1, k)) (KnownBlockVersions.incrementVersion blockId) ;
        s ← get_state ;
        zoom fst (λ b s, (b, s.2)) (BlockStore.store blockId
          (_prependHeaderToData blockId (KnownBlockVersions.myClientId s.2) version data))
  end.

Fixpoint migrate_each (signal_occurred : bytes → bool) (ids : list bytes) : M (Base * KnownBlockVersions.t) unit :=
  match ids with
  | [] => mret tt
  | id :: ids' =>
      if signal_occurred id then mthrow (RuntimeError "Caught signal")
      else migrateBlockFromBlockstoreWithoutVersionNumbers id ;; migrate_each signal_occurred ids'
  end.

(** The destructor of the version table saves it in the integrity file, also
    when the migration is interrupted. *)
Definition migrateFromBlockstoreWithoutVersionNumbers (signal_occurred : bytes → bool) (myClientId : Z) :
    M (Base * option bytes) unit := λ s,
  match KnownBlockVersions.new s.2 myClientId with
  | Throw e => (Throw e, s)
  | Ok known =>
      let '(r, (b, known)) :=
        (ids ← zoom fst (λ b s, (b, s.2)) BlockStore.forEachBlock ; migrate_each signal_occurred ids) (s.1, known) in
      (r, (b, KnownBlockVersions.destroy known))
  end.

(** ** Headers *)
Lemma length_header id c v data :
  BlockId.valid id → length (_prependHeaderToData id c v data) = (HEADER_LENGTH + length data)%nat.
Proof.
  intros Hid. unfold _prependHeaderToData. rewrite !length_app, !length_serialize, Hid. reflexivity.
Qed.

(** The header readers return what [_prependHeaderToData] wrote. *)
Lemma read_header id c v data :
  BlockId.valid id → 0 ≤ c < 2 ^ 32 → 0 ≤ v < 2 ^ 64 →
  let b := _prependHeaderToData id c v data in
  _readFormatHeader b = Ok FORMAT_VERSION_HEADER ∧ _readBlockId b = Ok id ∧
  _readClientId b = Ok c ∧ _readVersion b = Ok v ∧ _removeHeader b = Ok data.
Proof.
  intros Hid Hc Hv. simpl. unfold _prependHeaderToData.
  assert (length (serialize 2 FORMAT_VERSION_HEADER ++ id) = CLIENTID_HEADER_OFFSET) as H1
    by (rewrite length_app, length_serialize, Hid; done).
  assert (length ((serialize 2 FORMAT_VERSION_HEADER ++ id) ++ serialize 4 c) = VERSION_HEADER_OFFSET) as H2
    by (rewrite length_app, length_serialize, H1; done).
  split_and!.
  - by apply deserialize_serialize.
  - unfold _readBlockId. rewrite drop_app_length' by (by rewrite length_serialize). by apply BlockId.FromBinary_app.
  - unfold _readClientId, deserializeWithOffset. rewrite app_assoc, drop_app_length' by done.
    by apply deserialize_serialize.
  - unfold _readVersion, deserializeWithOffset. rewrite 2!app_assoc, drop_app_length' by done.
    by apply deserialize_serialize.
  - unfold _removeHeader. rewrite !app_assoc. apply Data.copyAndRemovePrefix_app.
    rewrite length_app, length_serialize, H2. done.
Qed.

Lemma base_ok {A} (m : M Base A) (s : st) r b' :
  m (_baseBlockStore s) = (r, b') →
  base m s = (r, mk b' (_knownBlockVersions s) (_allowIntegrityViolations s)
                   (_missingBlockIsIntegrityViolation s) (violations s)).
Proof. intros E. unfold base, zoom. by rewrite E. Qed.

Lemma versions_ok {A} (m : M KnownBlockVersions.t A) (s : st) r k' :
  m (_knownBlockVersions s) = (r, k') →
  versions m s = (r, mk (_baseBlockStore s) k' (_allowIntegrityViolations s)
                   (_missingBlockIsIntegrityViolation s) (violations s)).
Proof. intros E. unfold versions, zoom. by rewrite E. Qed.

Context `{!BlockStore2Spec Base}.

Definition limit : Z := maxSize (S := Base) - Z.of_nat HEADER_LENGTH.

(** A stored block [e] that holds [d] and will be accepted, with [n] more
    versions left after it. *)
Definition block_ok (n : nat) (k : KnownBlockVersions.t) (id e d : bytes) : Prop :=
  Z.of_nat (length d) ≤ limit ∧
  ∃ c v, e = _prependHeaderToData id c v d ∧ 0 < c < 2 ^ 32 ∧ 0 < v ∧ v + Z.of_nat n < 2 ^ 64 - 1 ∧
    KnownBlockVersions.acceptable k c id v.

Definition versions_left (n : nat) (k : KnownBlockVersions.t) : Prop :=
  KnownBlockVersions._valid k = true ∧ 0 < KnownBlockVersions._myClientId k < 2 ^ 32 ∧
  KnownBlockVersions.well_typed k ∧ KnownBlockVersions._integrityViolationOnPreviousRun k = false ∧
  ∀ id, 0 ≤ KnownBlockVersions.known k (KnownBlockVersions._myClientId k) id ∧
        KnownBlockVersions.known k (KnownBlockVersions._myClientId k) id + Z.of_nat n < 2 ^ 64 - 1.

Definition represents (n : nat) (s : st) (m : gmap bytes bytes) : Prop :=
  versions_left n (_knownBlockVersions s) ∧
  (∃ mb, repr n (_baseBlockStore s) mb ∧ map_rel (block_ok n (_knownBlockVersions s)) mb m) ∧
  (∀ id, m !! id = None → KnownBlockVersions.blockShouldExist id (_knownBlockVersions s) = false).

Lemma map_rel_impl {A B} (R R' : bytes → A → B → Prop) m1 m2 :
  (∀ k a b, m1 !! k = Some a → m2 !! k = Some b → R k a b → R' k a b) → map_rel R m1 m2 → map_rel R' m1 m2.
Proof. intros HR H k. specialize (H k). destruct (m1 !! k) eqn:E1, (m2 !! k) eqn:E2; eauto. Qed.

Lemma block_ok_le n n' k id e d : (n' ≤ n)%nat → block_ok n k id e d → block_ok n' k id e d.
Proof. intros Hn (Hd & c & v & He & Hc & Hv & Hv' & Ha). split; [done|]. exists c, v. split_and!; try done; lia. Qed.

(** Recording a version of one block leaves the other blocks acceptable. *)
Lemma block_ok_updated n k c id v k' id' e d :
  KnownBlockVersions.updated k c id v k' → id' ≠ id → block_ok n k id' e d → block_ok n k' id' e d.
Proof.
  intros (Hk & Hl & _) Hne (Hd & c' & v' & He & Hc & Hv & Hv' & Ha). split; [done|]. exists c', v'.
  split_and!; try done; try lia. unfold KnownBlockVersions.acceptable, KnownBlockVersions.last in *.
  rewrite Hk, Hl, !decide_False by tauto. done.
Qed.

Lemma block_ok_new n k c id v k' d :
  KnownBlockVersions.updated k c id v k' → Z.of_nat (length d) ≤ limit →
  0 < c < 2 ^ 32 → 0 < v → v + Z.of_nat n < 2 ^ 64 - 1 →
  block_ok n k' id (_prependHeaderToData id c v d) d.
Proof.
  intros (Hk & Hl & _) Hd Hc Hv Hn. split; [done|]. exists c, v. split_and!; try done; try lia.
  right. unfold KnownBlockVersions.last. rewrite Hk, Hl, !decide_True by done. done.
Qed.

Lemma versions_left_updated n k c id v k' :
  KnownBlockVersions.updated k c id v k' → versions_left n k → BlockId.valid id → 0 < c < 2 ^ 32 →
  0 < v → v + Z.of_nat n < 2 ^ 64 - 1 → versions_left n k'.
Proof.
  intros (Hk & _ & Hf & Hc & Hv & _ & Hw) (Hva & Hmy & Hwt & Hfl & Hl) Hid Hcr Hv0 Hvn. unfold versions_left.
  rewrite Hc, Hv, Hf. split_and!; [done|lia|lia|apply Hw; try done; lia|done|].
  intros id'. rewrite Hk. case_decide; [lia|apply Hl].
Qed.

Lemma blockShouldExist_updated k c id v k' id' :
  KnownBlockVersions.updated k c id v k' → id' ≠ id →
  KnownBlockVersions.blockShouldExist id' k' = KnownBlockVersions.blockShouldExist id' k.
Proof.
  intros (_ & Hl & _) Hne. unfold KnownBlockVersions.blockShouldExist. by rewrite Hl, decide_False.
Qed.

(** A good block passes [_checkHeader], which records its version. *)
Lemma checkHeader_ok n s id e d :
  BlockId.valid id → versions_left n (_knownBlockVersions s) → block_ok n (_knownBlockVersions s) id e d →
  ∃ c v k', _checkHeader id e s = (Ok true, mk (_baseBlockStore s) k' (_allowIntegrityViolations s)
                                    (_missingBlockIsIntegrityViolation s) (violations s)) ∧
    KnownBlockVersions.updated (_knownBlockVersions s) c id v k' ∧
    e = _prependHeaderToData id c v d ∧ 0 < c < 2 ^ 32 ∧ 0 < v ∧ v + Z.of_nat n < 2 ^ 64 - 1.
Proof.
  intros Hid (Hva & _) (Hd & c & v & -> & Hc & Hv & Hvn & Ha).
  destruct (read_header id c v d Hid ltac:(lia) ltac:(lia)) as (R1 & R2 & R3 & R4 & R5).
  destruct (KnownBlockVersions.checkAndUpdateVersion_accept c id v (_knownBlockVersions s))
    as (k' & E & U); [lia|done|done|done|].
  exists c, v, k'. split_and!; try done; try lia.
  unfold _checkHeader, _checkFormatHeader, _checkIdHeader, _checkVersionHeader, mbind, M_bind.
  csimp. rewrite R1. csimp. rewrite decide_False by tauto. csimp.
  rewrite R2. csimp. rewrite decide_False by tauto. csimp.
  rewrite R3. csimp. rewrite R4. csimp. by rewrite (versions_ok _ _ _ _ E).
Qed.

Lemma increment_ok n (s : st) id :
  BlockId.valid id → versions_left (S n) (_knownBlockVersions s) →
  let k := _knownBlockVersions s in
  ∃ v k', versions (KnownBlockVersions.incrementVersion id) s =
            (Ok v, mk (_baseBlockStore s) k' (_allowIntegrityViolations s)
                     (_missingBlockIsIntegrityViolation s) (violations s)) ∧
    KnownBlockVersions.updated k (KnownBlockVersions._myClientId k) id v k' ∧
    KnownBlockVersions._myClientId k' = KnownBlockVersions._myClientId k ∧
    0 < v ∧ v + Z.of_nat n < 2 ^ 64 - 1 ∧ versions_left n k'.
Proof.
  intros Hid Hl k. subst k. pose proof Hl as (Hva & Hmy & Hwt & Hfl & Hn). specialize (Hn id).
  destruct (KnownBlockVersions.incrementVersion_ok id (_knownBlockVersions s)) as (k' & E & U); [lia|].
  eexists _, k'. split; [by apply versions_ok|]. pose proof U as (_ & _ & _ & Hc & _).
  split_and!; [done|done|lia|lia|].
  apply (versions_left_updated n _ _ _ _ _ U); [|done|lia|lia|lia].
  split_and!; [done|lia|lia|done|done|]. intros id'. destruct Hl as (_ & _ & _ & _ & Hn').
  specialize (Hn' id'). lia.
Qed.

(** Writing a block, whichever base operation does it. *)
Lemma represents_write n (s : st) m id data k' mb v b' :
  Z.of_nat (length data) ≤ limit → represents (S n) s m →
  let k := _knownBlockVersions s in
  map_rel (block_ok (S n) k) mb m →
  KnownBlockVersions.updated k (KnownBlockVersions._myClientId k) id v k' →
  0 < v → v + Z.of_nat n < 2 ^ 64 - 1 → versions_left n k' →
  repr n b' (<[id := _prependHeaderToData id (KnownBlockVersions._myClientId k) v data]> mb) →
  represents n (mk b' k' (_allowIntegrityViolations s) (_missingBlockIsIntegrityViolation s) (violations s))
    (<[id := data]> m).
Proof.
  intros Hd ((_ & Hmy & _) & _ & Hex) k Hm U Hv Hvn Hl Hr. split_and!; [done| |].
  - eexists. split; [exact Hr|]. intros id'. destruct (decide (id' = id)) as [->|Hne].
    + rewrite !lookup_insert_eq. by eapply block_ok_new.
    + rewrite !lookup_insert_ne by done. specialize (Hm id').
      destruct (mb !! id'), (m !! id'); try done.
      eapply block_ok_updated; [done|done|]. eapply block_ok_le; [|done]. lia.
  - intros id' Hn'. destruct (decide (id' = id)) as [->|Hne]; [by rewrite lookup_insert_eq in Hn'|].
    rewrite lookup_insert_ne in Hn' by done. simpl.
    rewrite (blockShouldExist_updated _ _ _ _ _ _ U Hne). by apply Hex.
Qed.

#[export] Program Instance spec : BlockStore2Spec st := {
  BlockStore.repr := represents; BlockStore.maxSize := limit; BlockStore.refuses _ _ := False }.
Next Obligation.
  intros n s m id Hid Hrep. pose proof Hrep as (Hl & (mb & Hr & Hm) & Hex).
  destruct (load_spec _ _ _ _ Hid Hr) as (b' & E & Hr'). simpl. unfold load.
  rewrite (bind_ok _ _ _ _ _ (base_ok _ _ _ _ E)). pose proof (Hm id) as Hid'.
  destruct (mb !! id) as [e|] eqn:Ee, (m !! id) as [d|] eqn:Ed; try done.
  - set (s1 := mk b' _ _ _ _).
    destruct (checkHeader_ok n s1 id e d Hid Hl Hid') as (c & v & k' & Ec & U & -> & Hc & Hv & Hvn).
    destruct (read_header id c v d Hid ltac:(lia) ltac:(lia)) as (R1 & R2 & R3 & R4 & R5).
    eexists. split.
    + unfold mbind, M_bind in *. csimp. rewrite R1. csimp.
      rewrite decide_False by done. rewrite Ec. csimp. by rewrite R5.
    + split_and!; simpl.
      * eapply versions_left_updated; eauto.
      * exists mb. split; [done|]. intros id'. destruct (decide (id' = id)) as [->|Hne].
        -- rewrite Ee, Ed. eapply block_ok_new; [exact U|apply Hid'|done|done|done].
        -- specialize (Hm id'). destruct (mb !! id'), (m !! id'); try done. by eapply block_ok_updated.
      * intros id' Hn'. destruct (decide (id' = id)) as [->|Hne]; [by rewrite Ed in Hn'|].
        rewrite (blockShouldExist_updated _ _ _ _ _ _ U Hne). by apply Hex.
  - eexists. split; [unfold mbind, M_bind; csimp; simpl; by rewrite (Hex id Ed), andb_false_r|].
    split_and!; [done|by exists mb|done].
Qed.
Next Obligation.
  intros n s m id data Hid Hd Hrep. pose proof Hrep as (Hl & (mb & Hr & Hm) & Hex).
  destruct (increment_ok n s id Hid Hl) as (v & k' & E & U & Hmy & Hv & Hvn & Hl').
  assert (Z.of_nat (length (_prependHeaderToData id (KnownBlockVersions._myClientId (_knownBlockVersions s)) v data))
    ≤ maxSize (S := Base)) as Hlen by (rewrite length_header by done; unfold limit in Hd; lia).
  destruct (store_spec n _ mb id _ Hid Hlen Hr) as (b' & E' & Hr').
  exists (mk b' k' (_allowIntegrityViolations s) (_missingBlockIsIntegrityViolation s) (violations s)).
  split; [|by eapply represents_write].
  simpl. unfold store. rewrite (bind_ok _ _ _ _ _ E). unfold mbind, M_bind, KnownBlockVersions.myClientId. csimp. simpl.
  rewrite Hmy. unfold base, zoom. simpl. by rewrite E'.
Qed.
Next Obligation.
  intros n s m id data Hid Hd Hf Hrep. pose proof Hrep as (Hl & (mb & Hr & Hm) & Hex).
  destruct (increment_ok n s id Hid Hl) as (v & k' & E & U & Hmy & Hv & Hvn & Hl').
  assert (Z.of_nat (length (_prependHeaderToData id (KnownBlockVersions._myClientId (_knownBlockVersions s)) v data))
    ≤ maxSize (S := Base)) as Hlen by (rewrite length_header by done; unfold limit in Hd; lia).
  apply (map_rel_None _ _ _ _ Hm) in Hf.
  destruct (tryCreate_spec n _ mb id _ Hid Hlen Hf Hr) as (b' & E' & Hr').
  exists (mk b' k' (_allowIntegrityViolations s) (_missingBlockIsIntegrityViolation s) (violations s)).
  split; [|by eapply represents_write].
  simpl. unfold tryCreate. rewrite (bind_ok _ _ _ _ _ E). unfold mbind, M_bind, KnownBlockVersions.myClientId. csimp. simpl.
  rewrite Hmy. unfold base, zoom. simpl. by rewrite E'.
Qed.
Next Obligation. by intros ??????? []. Qed.
Next Obligation.
  intros n s m id Hid (Hl & (mb & Hr & Hm) & Hex).
  destruct (remove_spec _ _ _ _ Hid Hr) as (b' & E & Hr').
  eexists. split.
  - simpl. unfold remove, mbind, M_bind, versions, zoom. csimp. simpl.
    unfold base, zoom. simpl. rewrite E. by rewrite (bool_decide_ext _ _ (map_rel_is_Some _ _ _ _ Hm)).
  - split_and!; simpl.
    + destruct Hl as (? & ? & [Hw1 Hw2] & ? & ?). split_and!; simpl; try done; try lia. split; simpl; [done|].
      apply map_Forall_insert_2; [by split|done].
    + exists (delete id mb). split; [done|]. intros id'. destruct (decide (id' = id)) as [->|Hne].
      * by rewrite !lookup_delete_eq.
      * rewrite !lookup_delete_ne by done. specialize (Hm id').
        destruct (mb !! id'), (m !! id'); try done.
        destruct Hm as (Hd & c' & v' & He & Hc & Hv & Hv' & Ha). split; [done|]. exists c', v'.
        split_and!; try done; try lia. unfold KnownBlockVersions.acceptable, KnownBlockVersions.last in *. simpl.
        by rewrite lookup_insert_ne by done.
    + intros id' Hn. unfold KnownBlockVersions.blockShouldExist. simpl.
      destruct (decide (id' = id)) as [->|Hne]; [by rewrite lookup_insert_eq|].
      rewrite lookup_insert_ne by done. rewrite lookup_delete_ne in Hn by done. by apply Hex.
Qed.
Next Obligation.
  intros n s m (Hl & (mb & Hr & Hm) & Hex). simpl. unfold numBlocks.
  by rewrite (numBlocks_spec _ _ _ Hr), (map_rel_size _ _ _ Hm).
Qed.
Next Obligation.
  intros n s m (Hl & (mb & Hr & Hm) & Hex).
  destruct (forEachBlock_spec _ _ _ Hr) as (ids & b' & E & Hr' & Hp).
  exists ids. eexists. split; [|split; [|by rewrite Hp, (map_rel_keys _ _ _ Hm)]].
  - simpl. unfold forEachBlock, mbind, M_bind. csimp. case_match; [by apply base_ok|].
    rewrite (base_ok _ _ _ _ E). rewrite decide_False; [done|]. intros Hne. apply Hne, set_eq. intros id.
    rewrite elem_of_difference, elem_of_list_to_set, Hp, list_elem_of_fmap. split; [|by rewrite elem_of_empty].
    intros [He Hn]. exfalso. unfold KnownBlockVersions.existingBlocks in He.
    apply elem_of_dom in He as [c [Hc Hcd]%map_lookup_filter_Some].
    destruct (m !! id) as [d|] eqn:Ed.
    + destruct (map_rel_lookup_r _ _ _ _ _ Hm Ed) as (e & Ee & _). apply Hn. exists (id, e). split; [done|].
      by apply elem_of_map_to_list.
    + specialize (Hex id Ed). unfold KnownBlockVersions.blockShouldExist in Hex. rewrite Hc in Hex.
      by apply bool_decide_eq_false in Hex.
  - by split_and!; [|exists mb|].
Qed.
Next Obligation.
  intros n s m id (Hl & (mb & Hr & Hm) & Hex) Hi. apply (repr_ids _ _ _ _ Hr). by rewrite (map_rel_is_Some _ _ _ _ Hm).
Qed.
Next Obligation.
  intros n s m id d (Hl & (mb & Hr & Hm) & Hex) Hi.
  by destruct (map_rel_lookup_r _ _ _ _ _ Hm Hi) as (? & ? & ? & ?).
Qed.
Next Obligation.
  intros n n' s m Hn ((Hva & Hmy & Hwt & Hfl & Hl) & (mb & Hr & Hm) & Hex). split_and!.
  - split_and!; [done|lia|lia|done|done|]. intros id. specialize (Hl id). lia.
  - exists mb. split; [by apply (repr_le n)|]. eapply map_rel_impl; [|done]. intros. by eapply block_ok_le.
  - done.
Qed.

(** ** Attacks *)

(** The state after a violation was reported: the flag for the next run is
    set and the callback was called once more. *)
Definition reported (s s' : st) : Prop :=
  KnownBlockVersions._integrityViolationOnPreviousRun (_knownBlockVersions s') = true ∧
  violations s' = S (violations s).

Lemma integrityViolationDetected_ok (s : st) :
  _allowIntegrityViolations s = false →
  ∃ s', integrityViolationDetected s = (Ok tt, s') ∧ reported s s' ∧ _allowIntegrityViolations s' = false.
Proof.
  intros Ha. unfold integrityViolationDetected, mbind, M_bind. csimp. rewrite Ha. by eexists.
Qed.

(** *** What the base store returns, as blocks

    [block_says id data id' c v d]: the bytes [data], stored under [id], are
    a block with payload [d] that names block [id'], client [c] and version
    [v]; a block of the old format has no id of its own. *)
Inductive block_says (id : bytes) : bytes → bytes → Z → Z → bytes → Prop :=
| says_new id' c v d : BlockId.valid id' → 0 ≤ c < 2 ^ 32 → 0 ≤ v < 2 ^ 64 →
    block_says id (_prependHeaderToData id' c v d) id' c v d
| says_old c v d : 0 ≤ c < 2 ^ 32 → 0 ≤ v < 2 ^ 64 →
    block_says id (serialize 2 FORMAT_VERSION_HEADER_OLD ++ serialize 4 c ++ serialize 8 v ++ d) id c v d.

Lemma deserialize_inv n src z : deserialize n src = Ok z →
  src = serialize n z ++ drop n src ∧ 0 ≤ z < 256 ^ Z.of_nat n.
Proof.
  unfold deserialize. case_decide as Hl; [|done]. intros [= <-].
  assert (length (take n src) = n) as E by (rewrite length_take; lia).
  pose proof (serialize_le_value (take n src)) as Hs. pose proof (le_value_range (take n src)) as Hr.
  rewrite E in Hs, Hr. by rewrite Hs, take_drop.
Qed.
Lemma header_parse data id c v :
  _readFormatHeader data = Ok FORMAT_VERSION_HEADER → _readBlockId data = Ok id →
  _readClientId data = Ok c → _readVersion data = Ok v →
  0 ≤ c < 2 ^ 32 ∧ 0 ≤ v < 2 ^ 64 ∧ ∃ d, data = _prependHeaderToData id c v d.
Proof.
  intros [H1 _]%deserialize_inv H2 [H3 Hc]%deserialize_inv [H4 Hv]%deserialize_inv.
  split; [exact Hc|]. split; [exact Hv|]. exists (drop HEADER_LENGTH data).
  assert (drop 2 data = id ++ drop CLIENTID_HEADER_OFFSET data) as H2'.
  { unfold _readBlockId, BlockId.FromBinary, FixedSizeData.FromBinary, Data.memcpy_from in H2.
    case_decide; [|done]. injection H2 as <-. unfold slice. rewrite drop_0.
    change CLIENTID_HEADER_OFFSET with (2 + 16)%nat. rewrite <- drop_drop. symmetry. apply take_drop. }
  rewrite drop_drop in H3, H4. unfold _prependHeaderToData.
  rewrite H1 at 1. f_equal. rewrite H2'. f_equal. rewrite H3. f_equal. exact H4.
Qed.

Lemma checkHeader_true (s s' : st) id data :
  KnownBlockVersions._valid (_knownBlockVersions s) = true →
  _checkHeader id data s = (Ok true, s') →
  ∃ c v d, data = _prependHeaderToData id c v d ∧ 0 < c < 2 ^ 32 ∧ 0 < v < 2 ^ 64 ∧
    KnownBlockVersions.acceptable (_knownBlockVersions s) c id v.
Proof.
  intros Hva. unfold _checkHeader, _checkFormatHeader, _checkIdHeader, _checkVersionHeader.
  intros ([] & s1 & E1 & H)%bind_inv. apply bind_inv in H as ([] & s2 & E2 & H); [|done].
  unfold lift in E1. destruct (_readFormatHeader data) as [h|] eqn:R1; [|done]. simpl in E1.
  case_decide as Hh; [done|]. injection E1 as <-. subst h.
  apply bind_inv in E2 as (id' & s3 & E3 & E2). unfold lift in E3.
  destruct (_readBlockId data) as [i|] eqn:R2; [|done]. injection E3 as -> <-.
  case_decide as Hid; [by apply bind_inv in E2 as (? & ? & _ & ?)|]. injection E2 as <-. subst id'.
  apply bind_inv in H as (c & s3 & E3 & H). unfold lift in E3. destruct (_readClientId data) as [c'|] eqn:R3; [|done]. injection E3 as -> <-.
  apply bind_inv in H as (v & s3 & E3 & H). unfold lift in E3. destruct (_readVersion data) as [v'|] eqn:R4; [|done]. injection E3 as -> <-.
  destruct (header_parse _ _ _ _ R1 R2 R3 R4) as (Hc & Hv & d & Hd). exists c, v, d. split; [done|].
  apply bind_inv in H as (ok & s3 & E3 & H).
  destruct (decide (c = 0 ∨ v ≤ 0)) as [Hz|Hz].
  { destruct (KnownBlockVersions.checkAndUpdateVersion_throw c id v _ Hva Hz) as [e E].
    by rewrite (versions_ok _ _ _ _ E) in E3. }
  split; [lia|]. split; [lia|].
  destruct (decide (KnownBlockVersions.acceptable (_knownBlockVersions s) c id v)) as [|Ha]; [done|].
  destruct (KnownBlockVersions.checkAndUpdateVersion_reject c id v (_knownBlockVersions s)) as (k' & E & _); [lia|lia|done|done|].
  rewrite (versions_ok _ _ _ _ E) in E3. injection E3 as <- <-. by apply bind_inv in H as (? & ? & _ & ?).
Qed.
Lemma checkHeader_bad (s : st) id id' c v d :
  _allowIntegrityViolations s = false → KnownBlockVersions._valid (_knownBlockVersions s) = true →
  BlockId.valid id' → 0 ≤ c < 2 ^ 32 → 0 ≤ v < 2 ^ 64 →
  id ≠ id' ∨ (c ≠ 0 ∧ v ≠ 0 ∧ ¬ KnownBlockVersions.acceptable (_knownBlockVersions s) c id v) →
  ∃ s', _checkHeader id (_prependHeaderToData id' c v d) s = (Ok false, s') ∧ reported s s'.
Proof.
  intros Ha Hva Hid Hc Hv Hbad. destruct (read_header id' c v d Hid Hc Hv) as (R1 & R2 & R3 & R4 & R5).
  unfold _checkHeader, _checkFormatHeader, _checkIdHeader, _checkVersionHeader, mbind, M_bind. csimp.
  rewrite R1. csimp. rewrite decide_False by tauto. csimp. rewrite R2. csimp. case_decide as Hne.
  - destruct (integrityViolationDetected_ok s Ha) as (s2 & E2 & Hrep & Ha2). rewrite E2. by exists s2.
  - csimp. rewrite R3. csimp. rewrite R4. csimp. destruct Hbad as [?|(? & ? & Hacc)]; [done|].
    destruct (KnownBlockVersions.checkAndUpdateVersion_reject c id v (_knownBlockVersions s)) as (k' & Ek & _); [lia|lia|done|done|].
    rewrite (versions_ok _ _ _ _ Ek). simpl negb. cbv iota. set (s2 := mk _ k' _ _ _).
    destruct (integrityViolationDetected_ok s2 Ha) as (s3 & E3 & Hrep & _). cbn [negb]. rewrite E3. by exists s3.
Qed.

(** An old block with the id inserted. *)
Lemma migrateBlock_ok id (loaded : bytes) : BlockId.valid id → (2 ≤ length loaded)%nat →
  _migrateBlock id loaded = Ok (serialize 2 FORMAT_VERSION_HEADER ++ id ++ drop 2 loaded).
Proof.
  intros Hid Hl. unfold _migrateBlock. rewrite Data.memcpy_from_ok by lia. simpl.
  assert (slice 2 (length loaded - 2) loaded = drop 2 loaded) as ->
    by (unfold slice; apply take_ge; rewrite length_drop; lia).
  rewrite assert_ok; [done|]. apply bool_decide_true. simpl. rewrite length_app, length_drop, Hid. done.
Qed.

(** C16. A tampered block is never handed out. With integrity violations not
    allowed ([_allowIntegrityViolations] is false) and whatever bytes the base
    store returns: [load] hands out data only when the bytes are a block, of
    the new or of the old format, that names the requested id, a client id
    that is not 0 and a version above 0 which the table accepts. When they are a
    block that names another id (a renamed or swapped block), or client and
    version are not 0 and the table does not accept the version (a rolled-back,
    superseded or re-introduced block), [load] returns none, calls the
    violation callback and marks the violation for the next run. *)
Theorem load_rejects_tampered (s : st) id loaded b' :
  _allowIntegrityViolations s = false → KnownBlockVersions._valid (_knownBlockVersions s) = true →
  BlockId.valid id → BlockStore.load id (_baseBlockStore s) = (Ok (Some loaded), b') →
  (∀ d s', load id s = (Ok (Some d), s') → ∃ c v, block_says id loaded id c v d ∧ c ≠ 0 ∧ v ≠ 0 ∧
    KnownBlockVersions.acceptable (_knownBlockVersions s) c id v) ∧
  (∀ id' c v d, block_says id loaded id' c v d →
    id ≠ id' ∨ (c ≠ 0 ∧ v ≠ 0 ∧ ¬ KnownBlockVersions.acceptable (_knownBlockVersions s) c id v) →
    ∃ s', load id s = (Ok None, s') ∧ reported s s').
Proof.
  intros Hallow Hva Hid E. unfold load. rewrite (bind_ok _ _ _ _ _ (base_ok _ _ _ _ E)).
  set (s1 := mk b' _ _ _ _). split.
  - intros d s' H. apply bind_inv in H as (s0 & s1' & [= <- <-] & H).
    apply bind_inv in H as (h & s2 & Eh & H). unfold lift in Eh.
    destruct (_readFormatHeader loaded) as [h'|] eqn:R; [|done]. injection Eh as -> <-.
    apply deserialize_inv in R as [R _]. assert (2 ≤ length loaded)%nat as Hl by (rewrite R; rewrite length_app, length_serialize; lia).
    case_decide as Hh.
    + subst h. apply bind_inv in H as (m & s2 & Em & H). unfold lift in Em. rewrite migrateBlock_ok in Em by done. injection Em as <- <-.
      apply bind_inv in H as (ok & s2 & Eok & H). change (_allowIntegrityViolations s1) with (_allowIntegrityViolations s) in H.
      rewrite Hallow in H. destruct ok; [|done]. simpl in H.
      destruct (checkHeader_true s1 s2 id _ Hva Eok) as (c & v & d' & Hd & Hc & Hv & Hacc).
      exists c, v. destruct (read_header id c v d' Hid ltac:(lia) ltac:(lia)) as (_ & _ & _ & _ & R5). rewrite <- Hd in R5.
      rewrite R5 in H. apply bind_inv in H as (? & ? & _ & H). apply bind_inv in H as (? & ? & _ & H).
      injection H as <- _. split; [|split_and!; [lia|lia|done]].
      unfold _prependHeaderToData in Hd. simpl in Hd. injection Hd as Hd. apply app_inv_head in Hd. rewrite R, Hd. apply says_old; lia.
    + apply bind_inv in H as (ok & s2 & Eok & H). change (_allowIntegrityViolations s1) with (_allowIntegrityViolations s) in H.
      rewrite Hallow in H. destruct ok; [|done]. simpl in H.
      destruct (checkHeader_true s1 s2 id _ Hva Eok) as (c & v & d' & -> & Hc & Hv & Hacc).
      exists c, v. destruct (read_header id c v d' Hid ltac:(lia) ltac:(lia)) as (_ & _ & _ & _ & R5).
      rewrite R5 in H. injection H as <- _. split; [by apply says_new; try done; lia|]. split_and!; [lia|lia|done].
  - intros id' c v d Hsays Hbad. destruct Hsays as [id' c v d Hid' Hc Hv|c v d Hc Hv].
    + destruct (checkHeader_bad s1 id id' c v d Hallow Hva Hid' Hc Hv Hbad) as (s2 & E2 & Hrep).
      destruct (read_header id' c v d Hid' Hc Hv) as (R1 & _). exists s2. split; [|done].
      unfold mbind, M_bind. csimp. rewrite R1. csimp. rewrite decide_False by done. rewrite E2.
      by change (_allowIntegrityViolations s1) with (_allowIntegrityViolations s); rewrite Hallow.
    + destruct (checkHeader_bad s1 id id c v d Hallow Hva Hid Hc Hv Hbad) as (s2 & E2 & Hrep). exists s2. split; [|done].
      unfold mbind, M_bind. csimp. unfold _readFormatHeader. rewrite deserialize_serialize by done.
      rewrite decide_True by done. rewrite migrateBlock_ok by (done || (rewrite length_app, length_serialize; lia)).
      rewrite drop_app_length' by (by rewrite length_serialize). unfold _prependHeaderToData in E2. csimp. rewrite E2.
      by change (_allowIntegrityViolations s1) with (_allowIntegrityViolations s); rewrite Hallow.
Qed.

(** C17. A block that the base store does not have. [load] returns none. The
    violation is reported exactly when [_missingBlockIsIntegrityViolation] is
    set (it is off by default), [_allowIntegrityViolations] is not, and this
    client knows that the block exists; otherwise the version table and the
    number of reports do not change. *)
Theorem load_reports_missing (s : st) id b' :
  BlockStore.load id (_baseBlockStore s) = (Ok None, b') →
  ∃ s', load id s = (Ok None, s') ∧ _baseBlockStore s' = b' ∧
    if _missingBlockIsIntegrityViolation s && negb (_allowIntegrityViolations s)
       && KnownBlockVersions.blockShouldExist id (_knownBlockVersions s)
    then reported s s'
    else _knownBlockVersions s' = _knownBlockVersions s ∧ violations s' = violations s.
Proof.
  intros E. unfold load. rewrite (bind_ok _ _ _ _ _ (base_ok _ _ _ _ E)).
  unfold integrityViolationDetected, mbind, M_bind. csimp. simpl.
  destruct (_missingBlockIsIntegrityViolation s), (_allowIntegrityViolations s) eqn:Ha,
    (KnownBlockVersions.blockShouldExist id (_knownBlockVersions s)); simpl; rewrite ?Ha; by eexists.
Qed.
End store.

(** A store over an in-memory base, for client 7. *)
Definition sample : t InMemoryBlockStore2.t :=
  mk (InMemoryBlockStore2.mk ∅ 0) (KnownBlockVersions.init 7) false true 0.
Definition id1 : bytes := replicate 16 x01.
Definition sample1 : t InMemoryBlockStore2.t := snd (store id1 [x0a] sample).
Definition sample2 : t InMemoryBlockStore2.t := snd (store id1 [x0b] sample1).

(** The second version's table with the first version's block: a rollback. *)
Definition rolled_back : t InMemoryBlockStore2.t :=
  mk (_baseBlockStore sample1) (_knownBlockVersions sample2) false true 0.

Lemma load_rejects_tampered_witness :
  ∃ s', load id1 rolled_back = (Ok None, s') ∧ reported rolled_back s'.
Proof.
  assert (∃ b', BlockStore.load id1 (_baseBlockStore rolled_back) =
    (Ok (Some (_prependHeaderToData id1 7 1 [x0a])), b')) as [b' E] by (eexists; vm_compute; reflexivity).
  eapply (load_rejects_tampered rolled_back id1 _ b' eq_refl eq_refl eq_refl E).
  - apply says_new; [reflexivity|lia|lia].
  - right. split; [lia|]. split; [lia|]. by apply (bool_decide_unpack _); vm_compute.
Defined.

Definition block_removed : t InMemoryBlockStore2.t :=
  mk (_baseBlockStore sample) (_knownBlockVersions sample1) false true 0.

Lemma load_reports_missing_witness :
  ∃ s', load id1 block_removed = (Ok None, s') ∧ reported block_removed s'.
Proof.
  assert (∃ b', BlockStore.load id1 (_baseBlockStore block_removed) = (Ok None, b')) as [b' E]
    by (eexists; vm_compute; reflexivity).
  destruct (load_reports_missing block_removed id1 b' E) as (s' & H & _ & Hr). exists s'. split; [exact H|].
  assert (KnownBlockVersions.blockShouldExist id1 (_knownBlockVersions block_removed) = true) as Hx
    by (vm_compute; reflexivity).
  rewrite Hx in Hr. exact Hr.
Defined.

(** [tryCreate] on an id that is in use damages the existing block. It
    increments the recorded version before the base store refuses the
    creation, so the block that is there now has a version that is too low:
    the next [load] treats it as a rollback, although nobody tampered with
    anything. *)
Theorem tryCreate_existing_breaks_block :
  let '(created, s1) := tryCreate id1 [x0b] sample1 in
  created = Ok false ∧
  (load id1 sample1).1 = Ok (Some [x0a]) ∧
  (load id1 s1).1 = Ok None ∧ violations (load id1 s1).2 = 1%nat.
Proof. vm_compute. by split_and!. Qed.
End IntegrityBlockStore2.
#[export] Existing Instance IntegrityBlockStore2.ops.
#[export] Existing Instance IntegrityBlockStore2.spec.
