(* ===== verification/CryCipher.v ===== *)
(** * The ciphers a file system can choose from (cryfs/impl/config/CryCipher.cpp,
    cpp-utils/crypto/symmetric/ciphers.h, EncryptionKey.h)

    The primitives of the Crypto++ library are the class [CryptoPP], what it
    documents of them the class [CryptoPPLaws]. A cipher is one of the
    wrappers of Cipher.v around a primitive; the table of supported ciphers
    gives it a name. *)
From S2P Require Import Prelude Serialization Serializer Cipher.
From Stdlib Require Import Lia ZArith.
Open Scope Z_scope.

(** ** Crypto++ *)
Inductive BlockCipher := AES | Twofish | Serpent | CAST256 | MARS.

Class CryptoPP := {
  BLOCKSIZE : BlockCipher → nat;
  gcm_encrypt : BlockCipher → bytes → bytes → bytes → bytes;
  gcm_decrypt : BlockCipher → bytes → bytes → bytes → option bytes;
  xchacha_encrypt : bytes → bytes → bytes → bytes;
  xchacha_decrypt : bytes → bytes → bytes → option bytes;
  cfb_process : BlockCipher → bytes → bytes → bytes → bytes;
  cfb_unprocess : BlockCipher → bytes → bytes → bytes → bytes;
  (** [HexEncoder] and [HexDecoder] *)
  hex_encode : bytes → bytes;
  hex_decode : bytes → bytes;
}.

(** The key lengths the block ciphers accept, of those in use. *)
Definition valid_key (c : BlockCipher) (n : nat) : Prop :=
  match c with MARS => n ∈ [16; 32; 56]%nat | _ => n ∈ [16; 32]%nat end.
#[global] Instance valid_key_dec c n : Decision (valid_key c n).
Proof. destruct c; simpl; apply _. Defined.

(** Hex digits and the other characters of names and versions. *)
Definition printable (b : byte) : Prop := 32 ≤ byte_val b ≤ 126.
#[global] Instance printable_dec b : Decision (printable b).
Proof. unfold printable. apply _. Defined.

Class CryptoPPLaws `{!CryptoPP} := {
  BLOCKSIZE_16 c : BLOCKSIZE c = 16%nat;
  gcm_length c key iv p : valid_key c (length key) → length iv = BLOCKSIZE c →
    length (gcm_encrypt c key iv p) = (length p + 16)%nat;
  gcm_inverse c key iv p : valid_key c (length key) → length iv = BLOCKSIZE c →
    gcm_decrypt c key iv (gcm_encrypt c key iv p) = Some p;
  xchacha_length key iv p : length key = 32%nat → length iv = 24%nat →
    length (xchacha_encrypt key iv p) = (length p + 16)%nat;
  xchacha_inverse key iv p : length key = 32%nat → length iv = 24%nat →
    xchacha_decrypt key iv (xchacha_encrypt key iv p) = Some p;
  cfb_length c key iv p : valid_key c (length key) → length iv = BLOCKSIZE c →
    length (cfb_process c key iv p) = length p;
  cfb_inverse c key iv p : valid_key c (length key) → length iv = BLOCKSIZE c →
    cfb_unprocess c key iv (cfb_process c key iv p) = p;
  hex_encode_length d : length (hex_encode d) = (2 * length d)%nat;
  hex_encode_printable d : Forall printable (hex_encode d);
  hex_inverse d : hex_decode (hex_encode d) = d;
}.

(** What a fresh allocation of [n] bytes holds. *)
Class Memory := {
  uninit : nat → bytes;
  length_uninit n : length (uninit n) = n;
}.
#[export] Hint Rewrite @length_uninit @hex_encode_length using typeclasses eauto : len.

(** ** Hex strings (Data.cpp, FixedSizeData.h) and EncryptionKey.h *)
Section hex.
Context {crypto : CryptoPP} {memory : Memory}.

(** The sink takes at most the bytes the result has room for. *)
Definition Data_FromString (data : bytes) : result bytes :=
  ASSERT (bool_decide (length data mod 2 = 0)%nat) "hex encoded data cannot have odd number of characters" ;;
  let size := (length data / 2)%nat in
  mret (splice 0 (take size (hex_decode data)) (uninit size)).
Definition Data_ToString (d : bytes) : result bytes :=
  let result := hex_encode d in
  ASSERT (bool_decide (length result = 2 * length d)%nat) "Created wrongly sized string" ;;
  mret result.

(** A [FixedSizeData] starts out zeroed. *)
Definition FixedSizeData_FromString (SIZE : nat) (data : bytes) : result bytes :=
  ASSERT (bool_decide (length data = 2 * SIZE)%nat) "Wrong string size for parsing FixedSizeData" ;;
  mret (splice 0 (take SIZE (hex_decode data)) (replicate SIZE x00)).
Definition FixedSizeData_ToString (d : bytes) : result bytes :=
  let result := hex_encode d in
  ASSERT (bool_decide (length result = 2 * length d)%nat) "Created wrongly sized string" ;;
  mret result.
End hex.

Module EncryptionKey.
Section key.
Context {crypto : CryptoPP} {memory : Memory}.
Definition Null (keySize : nat) : bytes := replicate keySize x00.
Definition binaryLength (key : bytes) : nat := length key.
Definition stringLength (key : bytes) : nat := 2 * binaryLength key.
Definition FromString (keyData : bytes) : result bytes :=
  key ← Data_FromString keyData ;
  ASSERT (bool_decide (stringLength key = length keyData)) "Wrong input size for EncryptionKey::FromString()" ;;
  mret key.
Definition ToString (key : bytes) : result bytes :=
  result ← Data_ToString key ;
  ASSERT (bool_decide (length result = stringLength key)) "Wrong string length" ;;
  mret result.
Definition CreateKey {Rng} `{!RandomGenerator Rng} (keySize : nat) : M Rng bytes := random_bytes keySize.
Definition take (numTaken : nat) (key : bytes) : result bytes :=
  ASSERT (bool_decide (numTaken ≤ length key)%nat) "Out of bounds" ;;
  Data.memcpy_from key 0 numTaken.
Definition drop (numDropped : nat) (key : bytes) : result bytes :=
  ASSERT (bool_decide (numDropped ≤ length key)%nat) "Out of bounds" ;;
  Data.memcpy_from key numDropped (length key - numDropped).
End key.
End EncryptionKey.

Section hex_proofs.
Context {crypto : CryptoPP} {crypto_laws : CryptoPPLaws} {memory : Memory}.

Lemma Data_string_roundtrip d : Data_ToString d = Ok (hex_encode d) ∧ Data_FromString (hex_encode d) = Ok d.
Proof.
  unfold Data_ToString, Data_FromString. rewrite !hex_encode_length, hex_inverse.
  rewrite bool_decide_true by done. split; [done|].
  rewrite (Nat.mul_comm 2), Nat.Div0.mod_mul, Nat.div_mul, bool_decide_true by lia. simpl.
  by rewrite take_ge, splice_all by len.
Qed.
Lemma FixedSizeData_string_roundtrip d :
  FixedSizeData_ToString d = Ok (hex_encode d) ∧ FixedSizeData_FromString (length d) (hex_encode d) = Ok d.
Proof.
  unfold FixedSizeData_ToString, FixedSizeData_FromString. rewrite !hex_encode_length, hex_inverse.
  rewrite !bool_decide_true by done. split; [done|]. simpl. by rewrite take_ge, splice_all by len.
Qed.
Lemma key_string_roundtrip key :
  EncryptionKey.ToString key = Ok (hex_encode key) ∧ EncryptionKey.FromString (hex_encode key) = Ok key.
Proof.
  unfold EncryptionKey.ToString, EncryptionKey.FromString, EncryptionKey.stringLength, EncryptionKey.binaryLength.
  destruct (Data_string_roundtrip key) as [-> ->]. simpl.
  by rewrite !hex_encode_length, !bool_decide_true.
Qed.
Lemma key_take n key : (n ≤ length key)%nat → EncryptionKey.take n key = Ok (take n key).
Proof.
  intros Hn. unfold EncryptionKey.take. rewrite bool_decide_true by done. simpl.
  by rewrite Data.memcpy_from_ok by lia.
Qed.
Lemma key_drop n key : (n ≤ length key)%nat → EncryptionKey.drop n key = Ok (drop n key).
Proof.
  intros Hn. unfold EncryptionKey.drop. rewrite bool_decide_true by done. simpl.
  rewrite Data.memcpy_from_ok by lia. unfold slice. f_equal. apply take_ge. len.
Qed.
End hex_proofs.

(** ** ciphers.h *)
Inductive CipherImpl :=
| AEADCipher_XChaCha20Poly1305 (KeySize IvSize TagSize : nat)
| GCM_Cipher (c : BlockCipher) (KeySize : nat)
| CFB_Cipher (c : BlockCipher) (KeySize : nat).

Record cipher := DECLARE_CIPHER { NAME : bytes; Impl : CipherImpl }.
Module ciphers.
Definition XChaCha20Poly1305 := DECLARE_CIPHER (str "xchacha20-poly1305") (AEADCipher_XChaCha20Poly1305 32 24 16).
Definition AES256_GCM := DECLARE_CIPHER (str "aes-256-gcm") (GCM_Cipher AES 32).
Definition AES256_CFB := DECLARE_CIPHER (str "aes-256-cfb") (CFB_Cipher AES 32).
Definition AES128_GCM := DECLARE_CIPHER (str "aes-128-gcm") (GCM_Cipher AES 16).
Definition AES128_CFB := DECLARE_CIPHER (str "aes-128-cfb") (CFB_Cipher AES 16).
Definition Twofish256_GCM := DECLARE_CIPHER (str "twofish-256-gcm") (GCM_Cipher Twofish 32).
Definition Twofish256_CFB := DECLARE_CIPHER (str "twofish-256-cfb") (CFB_Cipher Twofish 32).
Definition Twofish128_GCM := DECLARE_CIPHER (str "twofish-128-gcm") (GCM_Cipher Twofish 16).
Definition Twofish128_CFB := DECLARE_CIPHER (str "twofish-128-cfb") (CFB_Cipher Twofish 16).
Definition Serpent256_GCM := DECLARE_CIPHER (str "serpent-256-gcm") (GCM_Cipher Serpent 32).
Definition Serpent256_CFB := DECLARE_CIPHER (str "serpent-256-cfb") (CFB_Cipher Serpent 32).
Definition Serpent128_GCM := DECLARE_CIPHER (str "serpent-128-gcm") (GCM_Cipher Serpent 16).
Definition Serpent128_CFB := DECLARE_CIPHER (str "serpent-128-cfb") (CFB_Cipher Serpent 16).
Definition Cast256_GCM := DECLARE_CIPHER (str "cast-256-gcm") (GCM_Cipher CAST256 32).
Definition Cast256_CFB := DECLARE_CIPHER (str "cast-256-cfb") (CFB_Cipher CAST256 32).
Definition Mars448_GCM := DECLARE_CIPHER (str "mars-448-gcm") (GCM_Cipher MARS 56).
Definition Mars448_CFB := DECLARE_CIPHER (str "mars-448-cfb") (CFB_Cipher MARS 56).
Definition Mars256_GCM := DECLARE_CIPHER (str "mars-256-gcm") (GCM_Cipher MARS 32).
Definition Mars256_CFB := DECLARE_CIPHER (str "mars-256-cfb") (CFB_Cipher MARS 32).
Definition Mars128_GCM := DECLARE_CIPHER (str "mars-128-gcm") (GCM_Cipher MARS 16).
Definition Mars128_CFB := DECLARE_CIPHER (str "mars-128-cfb") (CFB_Cipher MARS 16).
End ciphers.
Import ciphers.

Definition KEYSIZE (c : cipher) : nat :=
  match Impl c with AEADCipher_XChaCha20Poly1305 k _ _ | GCM_Cipher _ k | CFB_Cipher _ k => k end.

Section ops.
Context {crypto : CryptoPP} {Rng : Type} {random : RandomGenerator Rng}.

(** [GCM_Cipher] is [AEADCipher] with an iv of the block size and a tag of
    16 bytes; the iv of [CFB_Cipher] is one block. *)
Definition cipher_ops (c : cipher) : Cipher bytes Rng :=
  match Impl c with
  | AEADCipher_XChaCha20Poly1305 k i t => AEADCipher.ops k i t xchacha_encrypt xchacha_decrypt
  | GCM_Cipher b k => AEADCipher.ops k (BLOCKSIZE b) 16 (gcm_encrypt b) (gcm_decrypt b)
  | CFB_Cipher b k => CFB_Cipher.ops k (BLOCKSIZE b) (cfb_process b) (cfb_unprocess b)
  end.
End ops.

(** ** CryCipher.cpp *)
Module CryCiphers.
Definition MAX_KEY_SIZE : nat := 56.
Definition INTEGRITY_WARNING : bytes := str "This cipher does not ensure integrity.".

Record CryCipher := CryCipherInstance { Cipher : cipher; warning : option bytes }.
Definition cipherName (c : CryCipher) : bytes := NAME (Cipher c).

Definition SUPPORTED_CIPHERS : list CryCipher := [
  CryCipherInstance XChaCha20Poly1305 None;
  CryCipherInstance AES256_GCM None;
  CryCipherInstance AES256_CFB (Some INTEGRITY_WARNING);
  CryCipherInstance AES128_GCM None;
  CryCipherInstance AES128_CFB (Some INTEGRITY_WARNING);
  CryCipherInstance Twofish256_GCM None;
  CryCipherInstance Twofish256_CFB (Some INTEGRITY_WARNING);
  CryCipherInstance Twofish128_GCM None;
  CryCipherInstance Twofish128_CFB (Some INTEGRITY_WARNING);
  CryCipherInstance Serpent256_GCM None;
  CryCipherInstance Serpent256_CFB (Some INTEGRITY_WARNING);
  CryCipherInstance Serpent128_GCM None;
  CryCipherInstance Serpent128_CFB (Some INTEGRITY_WARNING);
  CryCipherInstance Cast256_GCM None;
  CryCipherInstance Cast256_CFB (Some INTEGRITY_WARNING);
  CryCipherInstance Mars448_GCM None;
  CryCipherInstance Mars448_CFB (Some INTEGRITY_WARNING);
  CryCipherInstance Mars256_GCM None;
  CryCipherInstance Mars256_CFB (Some INTEGRITY_WARNING);
  CryCipherInstance Mars128_GCM None;
  CryCipherInstance Mars128_CFB (Some INTEGRITY_WARNING)].

Definition supportedCipherNames : list bytes := map cipherName SUPPORTED_CIPHERS.

Definition find (name : bytes) : result CryCipher :=
  match list.list_find (λ c, cipherName c = name) SUPPORTED_CIPHERS with
  | Some (_, c) => mret c
  | None => mthrow (AssertFailed "Unknown Cipher")
  end.

Section instance.
Context {crypto : CryptoPP} {memory : Memory} {Rng : Type} {random : RandomGenerator Rng}.

Definition createKey (c : CryCipher) : M Rng bytes :=
  key ← EncryptionKey.CreateKey (KEYSIZE (Cipher c)) ; lift (EncryptionKey.ToString key).

(** The key that [createEncryptedBlockstore] gives the encrypted store. *)
Definition blockstoreKey (encKey : bytes) : result bytes := EncryptionKey.FromString encKey.

(** The key of the inner encryptor that [createInnerConfigEncryptor] makes. *)
Definition innerConfigKey (c : CryCipher) (key : bytes) : result bytes :=
  ASSERT (bool_decide (EncryptionKey.binaryLength key = MAX_KEY_SIZE)) "Wrong key size" ;;
  EncryptionKey.take (KEYSIZE (Cipher c)) key.
End instance.
End CryCiphers.

(** ** Every supported cipher keeps the contract of [Cipher] *)
Definition cipher_ok (c : cipher) : Prop :=
  match Impl c with
  | AEADCipher_XChaCha20Poly1305 k i t => k = 32%nat ∧ i = 24%nat ∧ t = 16%nat
  | GCM_Cipher b k | CFB_Cipher b k => valid_key b k
  end.
#[global] Instance cipher_ok_dec c : Decision (cipher_ok c).
Proof. unfold cipher_ok. destruct (Impl c); apply _. Defined.
Definition cipher_overhead (c : cipher) : nat :=
  match Impl c with AEADCipher_XChaCha20Poly1305 _ i t => i + t | GCM_Cipher _ _ => 32 | CFB_Cipher _ _ => 16 end.

Section spec.
Context {crypto : CryptoPP} {crypto_laws : CryptoPPLaws} {Rng : Type} {random : RandomGenerator Rng}.

Lemma cipher_decrypt_encrypt c plaintext key rng : cipher_ok c → length key = KEYSIZE c →
  Z.of_nat (length plaintext) + Z.of_nat (cipher_overhead c) < 2 ^ 32 →
  ∃ ciphertext rng',
    @encrypt _ _ (cipher_ops c) plaintext (Z.of_nat (length plaintext)) key rng = (Ok ciphertext, rng') ∧
    Z.of_nat (length ciphertext) = Z.of_nat (length plaintext) + Z.of_nat (cipher_overhead c) ∧
    @decrypt _ Rng (cipher_ops c) ciphertext (Z.of_nat (length ciphertext)) key = Ok (Some plaintext).
Proof.
  unfold cipher_ok, KEYSIZE, cipher_overhead, cipher_ops. intros Hc Hk Hn.
  destruct (Impl c) as [k i t|b k|b k].
  - destruct Hc as (-> & -> & ->). rewrite Nat2Z.inj_add in *.
    apply AEADCipher.aead_decrypt_encrypt; auto using xchacha_length, xchacha_inverse.
  - subst k. replace (Z.of_nat 32) with (Z.of_nat (BLOCKSIZE b) + Z.of_nat 16) in * by (rewrite BLOCKSIZE_16; lia).
    apply AEADCipher.aead_decrypt_encrypt; try done; intros key' ?? Hk' ?;
      [apply gcm_length|apply gcm_inverse]; congruence.
  - subst k. replace (Z.of_nat 16) with (Z.of_nat (BLOCKSIZE b)) in * by (by rewrite BLOCKSIZE_16).
    apply CFB_Cipher.cfb_decrypt_encrypt; try done; intros key' ?? Hk' ?;
      [apply cfb_length|apply cfb_inverse]; congruence.
Qed.

#[program] Definition cipher_spec (c : cipher) (Hc : cipher_ok c) : @CipherSpec bytes Rng (cipher_ops c) := {|
  overhead := Z.of_nat (cipher_overhead c); good_key key := length key = KEYSIZE c |}.
Next Obligation.
  intros c Hc. unfold cipher_overhead, cipher_ok in *. destruct (Impl c); destruct_and?; subst; simpl; lia.
Qed.
Next Obligation.
  intros c Hc n Hn Hlt. unfold cipher_ops, cipher_overhead, cipher_ok, ciphertextSize in *.
  destruct (Impl c); destruct_and?; subst; simpl in *;
    unfold AEADCipher.ciphertextSize, CFB_Cipher.ciphertextSize; rewrite ?BLOCKSIZE_16, u32_small; lia.
Qed.
Next Obligation.
  intros c Hc n Hn. unfold cipher_ops, cipher_overhead, cipher_ok, plaintextSize in *.
  destruct (Impl c); destruct_and?; subst; simpl in *;
    unfold AEADCipher.plaintextSize, CFB_Cipher.plaintextSize; rewrite ?BLOCKSIZE_16, u32_small; lia.
Qed.
Next Obligation. intros. by apply cipher_decrypt_encrypt. Qed.
End spec.

(** ** The table *)
Import CryCiphers.
Definition table_entry_ok (c : CryCipher) : Prop :=
  cipher_ok (Cipher c) ∧ (KEYSIZE (Cipher c) ≤ MAX_KEY_SIZE)%nat ∧ (length (cipherName c) ≤ 18)%nat
  ∧ Forall printable (cipherName c) ∧ (x00 ∉ cipherName c) ∧ (cipher_overhead (Cipher c) ≤ 40)%nat.

Lemma supported_ok c : c ∈ SUPPORTED_CIPHERS → table_entry_ok c.
Proof.
  revert c. apply Forall_forall. unfold table_entry_ok. apply (bool_decide_unpack _). by vm_compute.
Qed.
Lemma supported_names_unique : NoDup supportedCipherNames.
Proof. apply (bool_decide_unpack _). by vm_compute. Qed.

Lemma find_Ok name c : find name = Ok c → c ∈ SUPPORTED_CIPHERS ∧ cipherName c = name.
Proof.
  unfold find. destruct (list.list_find _ _) as [[i c']|] eqn:E; [|done]. intros [= ->].
  apply list_find_Some in E as (Hi & Hn & _). split; [by eapply list_elem_of_lookup_2|done].
Qed.
Lemma find_supported name : name ∈ supportedCipherNames → ∃ c, find name = Ok c.
Proof.
  intros (c & -> & Hc)%list_elem_of_fmap. unfold find.
  destruct (list_find_elem_of (λ c', cipherName c' = cipherName c) _ c Hc eq_refl) as [[i c'] ->]. by exists c'.
Qed.
Lemma find_cipherName c : c ∈ SUPPORTED_CIPHERS → find (cipherName c) = Ok c.
Proof.
  intros Hc. destruct (find_supported (cipherName c)) as [c' E]; [by apply list_elem_of_fmap_2|].
  rewrite E. destruct (find_Ok _ _ E) as [Hc' Hn]. f_equal.
  apply list_elem_of_lookup in Hc as [i Hi], Hc' as [j Hj].
  assert (i = j) as ->; [|congruence]. eapply NoDup_lookup; [apply supported_names_unique|..];
    unfold supportedCipherNames; rewrite list_lookup_fmap; [by rewrite Hi|by rewrite Hj; simpl; rewrite Hn].
Qed.

(** ** An instance to run the definitions on

    Ciphers that append a tag of zeroes, and upper case hex digits. *)
Module Toy.
Definition tag : bytes := replicate 16 x00.
Definition seal (key iv p : bytes) : bytes := p ++ tag.
Definition unseal (key iv c : bytes) : option bytes :=
  if decide (drop (length c - 16) c = tag) then Some (take (length c - 16) c) else None.

Definition hex_digit (z : Z) : byte := byte_of (if decide (z < 10) then 48 + z else 55 + z).
Definition hex_value (b : byte) : Z := if decide (byte_val b < 58) then byte_val b - 48 else byte_val b - 55.
Fixpoint hex (d : bytes) : bytes :=
  match d with [] => [] | b :: d' => hex_digit (byte_val b / 16) :: hex_digit (byte_val b mod 16) :: hex d' end.
Fixpoint unhex (l : bytes) : bytes :=
  match l with x :: y :: l' => byte_of (16 * hex_value x + hex_value y) :: unhex l' | _ => [] end.

#[export] Instance cryptopp : CryptoPP := {
  BLOCKSIZE _ := 16%nat;
  gcm_encrypt _ := seal; gcm_decrypt _ := unseal; xchacha_encrypt := seal; xchacha_decrypt := unseal;
  cfb_process _ _ _ p := p; cfb_unprocess _ _ _ c := c;
  hex_encode := hex; hex_decode := unhex }.

Lemma length_seal key iv p : length (seal key iv p) = (length p + 16)%nat.
Proof. unfold seal. by rewrite length_app. Qed.
Lemma unseal_seal key iv p : unseal key iv (seal key iv p) = Some p.
Proof.
  unfold unseal. rewrite length_seal. unfold seal. replace (length p + 16 - 16)%nat with (length p) by lia.
  rewrite drop_app_length, take_app_length. by rewrite decide_True.
Qed.
Lemma hex_digit_val z : 0 ≤ z < 16 → byte_val (hex_digit z) = if decide (z < 10) then 48 + z else 55 + z.
Proof. intros Hz. unfold hex_digit. rewrite byte_val_of. case_decide; apply Z.mod_small; lia. Qed.
Lemma hex_value_digit z : 0 ≤ z < 16 → hex_value (hex_digit z) = z.
Proof. intros Hz. unfold hex_value. rewrite hex_digit_val by done. repeat case_decide; lia. Qed.
Lemma unhex_hex d : unhex (hex d) = d.
Proof.
  induction d as [|b d IH]; simpl; [done|]. pose proof (byte_val_range b).
  pose proof (Z.div_mod (byte_val b) 16 ltac:(lia)). pose proof (Z.mod_pos_bound (byte_val b) 16 ltac:(lia)).
  rewrite !hex_value_digit, IH by lia. f_equal. rewrite <- Z.div_mod by lia. apply byte_of_val.
Qed.
Lemma hex_printable d : Forall printable (hex d).
Proof.
  induction d as [|b d IH]; simpl; [done|]. pose proof (byte_val_range b).
  pose proof (Z.div_mod (byte_val b) 16 ltac:(lia)). pose proof (Z.mod_pos_bound (byte_val b) 16 ltac:(lia)).
  repeat constructor; try done; rewrite hex_digit_val by lia; case_decide; lia.
Qed.
Lemma length_hex d : length (hex d) = (2 * length d)%nat.
Proof. induction d; simpl; lia. Qed.

#[export] Instance cryptopp_laws : CryptoPPLaws.
Proof.
  split; intros; simpl; auto using length_seal, unseal_seal, unhex_hex, hex_printable, length_hex.
Qed.
#[export, program] Instance memory : Memory := { uninit n := replicate n xcd }.
Next Obligation. intros. apply length_replicate. Qed.
End Toy.
