(* ===== verification/ConfigCrypto.v ===== *)
(** * Encryption of the configuration file (cryfs/impl/config/crypto,
    cpp-utils/crypto/RandomPadding.cpp, cpp-utils/crypto/kdf/SCryptParameters.cpp)

    The configuration is padded and encrypted twice: by the cipher of the
    file system (inner) and by AES-256-GCM (outer), with two parts of one
    derived key. The parameters of the key derivation stand in front in
    plain text. *)
From S2P Require Import Prelude Serialization Serializer Cipher CryCipher.
From Stdlib Require Import Lia ZArith.
Open Scope Z_scope.

(** [catch (const std::exception &)]: memory errors and [std::terminate] are
    not caught. *)
Definition catch_exception {A} (r : result A) (handler : result A) : result A :=
  match r with
  | Throw UndefinedBehaviour | Throw Terminate | Ok _ => r
  | Throw _ => handler
  end.

(** ** RandomPadding.cpp *)
Module RandomPadding.
Section padding.
Context {memory : Memory} {Rng : Type} {random : RandomGenerator Rng}.

Definition add (data : bytes) (targetSize : nat) : M Rng bytes :=
  let size := u32 (Z.of_nat (length data)) in
  if decide (u64 (Z.of_nat targetSize - 4) ≤ size)
  then mthrow (RuntimeError "Data too large. We should increase padding target size.")
  else
    randomData ← random_bytes (Z.to_nat (u64 (Z.of_nat targetSize - 4 - size))) ;
    ASSERT (bool_decide (4 + size + Z.of_nat (length randomData) = Z.of_nat targetSize))
      "Calculated size of randomData incorrectly" ;;
    result ← lift (Data.memcpy_to (uninit targetSize) 0 (serialize 4 size)) ;
    d ← lift (Data.memcpy_from data 0 (Z.to_nat size)) ;
    result ← lift (Data.memcpy_to result 4 d) ;
    lift (Data.memcpy_to result (4 + Z.to_nat size) randomData).

Definition remove (data : bytes) : result (option bytes) :=
  size ← deserialize 4 data ;
  if decide (Z.of_nat (length data) ≤ 4 + size) then mret None
  else result ← Data.memcpy_from data 4 (Z.to_nat size) ; mret (Some result).
End padding.
End RandomPadding.

(** ** SCryptParameters.cpp *)
Module SCryptParameters.
Record t := mk { _salt : bytes; _n : Z; _r : Z; _p : Z }.
Definition _serializedSize (s : t) : nat := length (_salt s) + 8 + 4 + 4.

Section scrypt.
Context {memory : Memory}.
Definition serialize (s : t) : result bytes :=
  ((Serializer.writeUint64 (_n s) ;;
    Serializer.writeUint32 (_r s) ;;
    Serializer.writeUint32 (_p s) ;;
    Serializer.writeTailData (_salt s) ;;
    Serializer.finished) (Serializer.new (uninit (_serializedSize s)))).1.
End scrypt.

Definition deserialize (data : bytes) : result t :=
  ((n ← Deserializer.readUint64 ;
    r ← Deserializer.readUint32 ;
    p ← Deserializer.readUint32 ;
    salt ← Deserializer.readTailData ;
    Deserializer.finished ;;
    mret (mk salt n r p)) (Deserializer.new data)).1.

Definition deserializeOldFormat : M Deserializer.t t :=
  n ← Deserializer.readUint64 ;
  r ← Deserializer.readUint32 ;
  p ← Deserializer.readUint32 ;
  salt ← Deserializer.readData ;
  mret (mk salt n r p).
End SCryptParameters.

(** ** inner/InnerConfig.cpp *)
Module InnerConfig.
Record t := mk { cipherName : bytes; encryptedConfig : bytes }.
Definition HEADER : bytes := str "cryfs.config.inner;0".

Definition serialize `{!Memory} (c : t) : result bytes :=
  ((Serializer.writeString HEADER ;;
    Serializer.writeString (cipherName c) ;;
    Serializer.writeTailData (encryptedConfig c) ;;
    Serializer.finished)
   (Serializer.new (uninit (Serializer.StringSize HEADER + Serializer.StringSize (cipherName c)
                            + length (encryptedConfig c))))).1.

Definition _checkHeader : M Deserializer.t unit :=
  header ← Deserializer.readString ;
  if decide (header ≠ HEADER)
  then mthrow (RuntimeError "Invalid header. Maybe this filesystem was created with a different version of CryFS?")
  else mret tt.
Definition deserialize (data : bytes) : result (option t) :=
  catch_exception
    (((_checkHeader ;;
       cipherName ← Deserializer.readString ;
       result ← Deserializer.readTailData ;
       Deserializer.finished ;;
       mret (Some (mk cipherName result))) (Deserializer.new data)).1)
    (mret None).
End InnerConfig.

(** ** outer/OuterConfig.cpp *)
Module OuterConfig.
Record t := mk { kdfParameters : bytes; encryptedInnerConfig : bytes; wasInDeprecatedConfigFormat : bool }.
Definition OLD_HEADER : bytes := str "cryfs.config;0;scrypt".
Definition HEADER : bytes := str "cryfs.config;1;scrypt".

Definition _writeHeader : M Serializer.t unit := Serializer.writeString HEADER.

Section outer.
Context {memory : Memory}.
Definition serialize (c : t) : result bytes :=
  ((_writeHeader ;;
    Serializer.writeData (kdfParameters c) ;;
    Serializer.writeTailData (encryptedInnerConfig c) ;;
    Serializer.finished)
   (Serializer.new (uninit (Serializer.StringSize HEADER + Serializer.DataSize (kdfParameters c)
                            + length (encryptedInnerConfig c))))).1.

Definition _deserializeOldFormat : M Deserializer.t t :=
  kdfParameters ← SCryptParameters.deserializeOldFormat ;
  kdfParametersSerialized ← lift (SCryptParameters.serialize kdfParameters) ;
  encryptedInnerConfig ← Deserializer.readTailData ;
  Deserializer.finished ;;
  mret (mk kdfParametersSerialized encryptedInnerConfig true).
Definition _deserializeNewFormat : M Deserializer.t t :=
  kdfParameters ← Deserializer.readData ;
  encryptedInnerConfig ← Deserializer.readTailData ;
  Deserializer.finished ;;
  mret (mk kdfParameters encryptedInnerConfig false).
Definition deserialize (data : bytes) : result (option t) :=
  catch_exception
    (((header ← Deserializer.readString ;
       if decide (header = OLD_HEADER) then c ← _deserializeOldFormat ; mret (Some c)
       else if decide (header = HEADER) then c ← _deserializeNewFormat ; mret (Some c)
       else mthrow (RuntimeError "Invalid header")) (Deserializer.new data)).1)
    (mret None).
End outer.
End OuterConfig.

(** ** inner/ConcreteInnerEncryptor.h: the inner encryptor of one cipher *)
Module InnerEncryptor.
Definition CONFIG_SIZE : nat := 900.
Record t := mk { Cipher : cipher; _key : bytes }.

Section inner.
Context {crypto : CryptoPP} {memory : Memory} {Rng : Type} {random : RandomGenerator Rng}.
Definition encrypt (e : t) (config : bytes) : M Rng InnerConfig.t :=
  padded ← RandomPadding.add config CONFIG_SIZE ;
  encrypted ← @Cipher.encrypt _ _ (cipher_ops (Cipher e)) padded (u32 (Z.of_nat (length padded))) (_key e) ;
  mret (InnerConfig.mk (NAME (Cipher e)) encrypted).

Definition decrypt (e : t) (innerConfig : InnerConfig.t) : result (option bytes) :=
  if decide (InnerConfig.cipherName innerConfig ≠ NAME (Cipher e)) then mret None
  else
    decrypted ← @Cipher.decrypt _ Rng (cipher_ops (Cipher e)) (InnerConfig.encryptedConfig innerConfig)
      (u32 (Z.of_nat (length (InnerConfig.encryptedConfig innerConfig)))) (_key e) ;
    match decrypted with
    | None => mret None
    | Some decrypted => RandomPadding.remove decrypted
    end.
End inner.
End InnerEncryptor.

(** ** outer/OuterEncryptor.cpp *)
Module OuterEncryptor.
Definition Cipher : cipher := ciphers.AES256_GCM.
Definition CONFIG_SIZE : nat := 1024.
Record t := mk { _key : bytes; _kdfParameters : bytes }.

Section outer.
Context {crypto : CryptoPP} {memory : Memory} {Rng : Type} {random : RandomGenerator Rng}.
Definition encrypt (e : t) (plaintext : bytes) : M Rng OuterConfig.t :=
  padded ← RandomPadding.add plaintext CONFIG_SIZE ;
  ciphertext ← @Cipher.encrypt _ _ (cipher_ops Cipher) padded (u32 (Z.of_nat (length padded))) (_key e) ;
  mret (OuterConfig.mk (_kdfParameters e) ciphertext false).

Definition decrypt (e : t) (outerConfig : OuterConfig.t) : result (option bytes) :=
  ASSERT (bool_decide (OuterConfig.kdfParameters outerConfig = _kdfParameters e))
    "OuterEncryptor was initialized with wrong key config" ;;
  inner ← @Cipher.decrypt _ Rng (cipher_ops Cipher) (OuterConfig.encryptedInnerConfig outerConfig)
    (u32 (Z.of_nat (length (OuterConfig.encryptedInnerConfig outerConfig)))) (_key e) ;
  match inner with
  | None => mret None
  | Some inner => RandomPadding.remove inner
  end.
End outer.
End OuterEncryptor.

(** ** CryConfigEncryptor.cpp *)
Module CryConfigEncryptor.
Definition OuterKeySize : nat := KEYSIZE OuterEncryptor.Cipher.
Definition MaxTotalKeySize : nat := OuterKeySize + CryCiphers.MAX_KEY_SIZE.
Record t := mk { _derivedKey : bytes; _kdfParameters : bytes }.
Record Decrypted := mkDecrypted { data : bytes; cipherName : bytes; wasInDeprecatedConfigFormat : bool }.

Definition new (derivedKey kdfParameters : bytes) : result t :=
  ASSERT (bool_decide (EncryptionKey.binaryLength derivedKey = MaxTotalKeySize)) "Wrong key size" ;;
  mret (mk derivedKey kdfParameters).

Section encryptor.
Context {crypto : CryptoPP} {memory : Memory} {Rng : Type} {random : RandomGenerator Rng}.
Definition _outerEncryptor (e : t) : result OuterEncryptor.t :=
  outerKey ← EncryptionKey.take OuterKeySize (_derivedKey e) ;
  mret (OuterEncryptor.mk outerKey (_kdfParameters e)).
Definition _innerEncryptor (e : t) (cipherName : bytes) : result InnerEncryptor.t :=
  innerKey ← EncryptionKey.drop OuterKeySize (_derivedKey e) ;
  c ← CryCiphers.find cipherName ;
  key ← CryCiphers.innerConfigKey c innerKey ;
  mret (InnerEncryptor.mk (CryCiphers.Cipher c) key).

Definition encrypt (e : t) (plaintext : bytes) (cipherName : bytes) : M Rng bytes :=
  inner ← lift (_innerEncryptor e cipherName) ;
  innerConfig ← InnerEncryptor.encrypt inner plaintext ;
  serializedInnerConfig ← lift (InnerConfig.serialize innerConfig) ;
  outer ← lift (_outerEncryptor e) ;
  outerConfig ← OuterEncryptor.encrypt outer serializedInnerConfig ;
  lift (OuterConfig.serialize outerConfig).

Definition decrypt (e : t) (d : bytes) : result (option Decrypted) :=
  outerConfig ← OuterConfig.deserialize d ;
  match outerConfig with
  | None => mret None
  | Some outerConfig =>
      outer ← _outerEncryptor e ;
      serializedInnerConfig ← OuterEncryptor.decrypt (Rng := Rng) outer outerConfig ;
      match serializedInnerConfig with
      | None => mret None
      | Some serializedInnerConfig =>
          innerConfig ← InnerConfig.deserialize serializedInnerConfig ;
          match innerConfig with
          | None => mret None
          | Some innerConfig =>
              inner ← _innerEncryptor e (InnerConfig.cipherName innerConfig) ;
              plaintext ← InnerEncryptor.decrypt (Rng := Rng) inner innerConfig ;
              match plaintext with
              | None => mret None
              | Some plaintext =>
                  mret (Some (mkDecrypted plaintext (InnerConfig.cipherName innerConfig)
                    (OuterConfig.wasInDeprecatedConfigFormat outerConfig)))
              end
          end
      end
  end.
End encryptor.
End CryConfigEncryptor.

(** ** Proofs *)
Section proofs.
Context {crypto : CryptoPP} {crypto_laws : CryptoPPLaws} {memory : Memory} {Rng : Type} {random : RandomGenerator Rng}.

Lemma padding_roundtrip data target (rng : Rng) :
  (length data + 4 < target)%nat → Z.of_nat target < 2 ^ 32 →
  ∃ padded rng', RandomPadding.add data target rng = (Ok padded, rng') ∧ length padded = target
    ∧ RandomPadding.remove padded = Ok (Some data).
Proof.
  intros Hd Ht. unfold RandomPadding.add. rewrite u32_small, u64_small, decide_False by lia.
  rewrite u64_small by lia. unfold mbind, M_bind, random_bytes.
  set (n := Z.to_nat _). pose proof (get_bytes_length n rng) as Hl.
  destruct (get_bytes n rng) as [r rng']; simpl in Hl.
  assert (length r = target - 4 - length data)%nat as Hr by (rewrite Hl; unfold n; lia).
  clearbody n. subst n. unfold ASSERT.
  rewrite bool_decide_true by lia. csimp.
  rewrite Data.memcpy_to_ok by len. csimp. rewrite Nat2Z.id.
  rewrite Data.memcpy_from_ok by lia. rewrite slice_all.
  set (b1 := splice 0 _ (uninit target)).
  assert (length b1 = target) as Hb1 by (unfold b1; rewrite length_splice; len).
  rewrite Data.memcpy_to_ok by lia. csimp.
  assert (length (splice 4 data b1) = target) as Hb2 by (rewrite length_splice; lia).
  rewrite Data.memcpy_to_ok by lia. subst b1.
  eexists _, _. split; [done|].
  assert (splice (4 + length data) r (splice 4 data (splice 0 (serialize 4 (Z.of_nat (length data))) (uninit target)))
    = serialize 4 (Z.of_nat (length data)) ++ data ++ r) as ->.
  { rewrite <- (take_drop 4 (uninit target)).
    rewrite splice_app_head by (rewrite length_take, length_uninit, length_serialize; lia).
    rewrite <- (take_drop (length data) (drop 4 (uninit target))).
    rewrite (splice_app_r 4 0) by len.
    rewrite splice_app_head by (rewrite length_take, length_drop, length_uninit; lia).
    rewrite (splice_app_r 4 (length data)) by len. rewrite <- (Nat.add_0_r (length data)) at 2.
    rewrite splice_app_r by done. by rewrite splice_all by len. }
  split; [len|]. unfold RandomPadding.remove. rewrite deserialize_serialize by lia. csimp.
  rewrite decide_False by len. rewrite Nat2Z.id, Data.memcpy_from_ok by len. csimp. do 2 f_equal.
  unfold slice. by rewrite drop_app_length', take_app_length' by len.
Qed.
Lemma padding_too_large data target (rng : Rng) : (4 ≤ target ≤ length data + 4)%nat → Z.of_nat (length data) < 2 ^ 32 →
  RandomPadding.add data target rng = (Throw (RuntimeError "Data too large. We should increase padding target size."), rng).
Proof. intros H Hd. unfold RandomPadding.add. rewrite u32_small by lia. rewrite u64_small, decide_True by lia. done. Qed.

Lemma reads_innerHeader : reads InnerConfig._checkHeader (InnerConfig.HEADER ++ [x00]) tt.
Proof.
  rewrite <- (app_nil_r (InnerConfig.HEADER ++ [x00])). eapply reads_bind; [apply (reads_string InnerConfig.HEADER)|].
  - apply (bool_decide_unpack _). by vm_compute.
  - rewrite decide_False by tauto. apply reads_ret.
Qed.
Lemma InnerConfig_roundtrip c : x00 ∉ InnerConfig.cipherName c →
  Z.of_nat (length (InnerConfig.cipherName c) + length (InnerConfig.encryptedConfig c)) + 22 < 2 ^ 63 →
  ∃ d, InnerConfig.serialize c = Ok d
    ∧ length d = (22 + length (InnerConfig.cipherName c) + length (InnerConfig.encryptedConfig c))%nat
    ∧ InnerConfig.deserialize d = Ok (Some c).
Proof.
  intros Hn Hl. exists (((InnerConfig.HEADER ++ [x00]) ++ InnerConfig.cipherName c ++ [x00]) ++ InnerConfig.encryptedConfig c).
  assert (length InnerConfig.HEADER = 20%nat) as Hh by done.
  split_and!; [|rewrite !length_app, Hh; simpl; lia|].
  - unfold InnerConfig.serialize. apply fills_new. rewrite length_uninit. unfold Serializer.StringSize.
    apply (fills_then _ _ _ _ _ _ (writes_field (FString _) I)); [cbn [field_bytes]; rewrite length_app; simpl; lia|].
    apply (fills_then _ _ _ _ _ _ (writes_field (FString _) I)); [cbn [field_bytes]; rewrite !length_app; simpl; lia|].
    apply fills_tail. cbn [field_bytes]. rewrite !length_app; simpl; lia.
  - unfold InnerConfig.deserialize. erewrite parses_new; [done|rewrite !length_app, Hh; simpl; lia|].
    rewrite <- !app_assoc. rewrite !(app_assoc _ [x00]). eapply parses_then; [apply reads_innerHeader|].
    eapply parses_then; [by apply reads_string|].
    destruct c as [name enc]. apply (parses_tail (λ x, Some (InnerConfig.mk name x))).
Qed.

Lemma OuterConfig_roundtrip c : OuterConfig.wasInDeprecatedConfigFormat c = false →
  Z.of_nat (length (OuterConfig.kdfParameters c) + length (OuterConfig.encryptedInnerConfig c)) + 30 < 2 ^ 63 →
  ∃ d, OuterConfig.serialize c = Ok d
    ∧ length d = (30 + length (OuterConfig.kdfParameters c) + length (OuterConfig.encryptedInnerConfig c))%nat
    ∧ OuterConfig.deserialize d = Ok (Some c).
Proof.
  intros Hw Hl. set (kdf := OuterConfig.kdfParameters c) in *.
  exists (((OuterConfig.HEADER ++ [x00]) ++ field_bytes (FData kdf)) ++ OuterConfig.encryptedInnerConfig c).
  assert (length OuterConfig.HEADER = 21%nat) as Hh by done.
  assert (length (field_bytes (FData kdf)) = 8 + length kdf)%nat as Hf by len.
  split_and!; [|rewrite !length_app, Hh, Hf; simpl; lia|].
  - unfold OuterConfig.serialize. apply fills_new. rewrite length_uninit.
    unfold Serializer.StringSize, Serializer.DataSize. fold kdf.
    apply (fills_then _ _ _ _ _ _ (writes_field (FString _) I)); [cbn [field_bytes]; rewrite length_app; simpl; lia|].
    apply (fills_then _ _ _ _ _ _ (writes_field (FData _) I)); [rewrite Hf; cbn [field_bytes]; rewrite !length_app; simpl; lia|].
    apply fills_tail. rewrite length_app, Hf. cbn [field_bytes]. rewrite !length_app; simpl; lia.
  - unfold OuterConfig.deserialize. erewrite parses_new; [done|rewrite !length_app, Hh, Hf; simpl; lia|].
    rewrite <- (app_assoc (OuterConfig.HEADER ++ [x00])). eapply parses_then; [apply (reads_string OuterConfig.HEADER)|].
    { apply (bool_decide_unpack _). by vm_compute. }
    rewrite decide_False, decide_True by done. apply (parses_fmap _ Some).
    eapply parses_then; [apply reads_data|]. destruct c as [k e w]; simpl in *; subst.
    apply (parses_tail (λ x, OuterConfig.mk k x false)).
Qed.

(** Both layers invert the encryption; the size of what they produce does
    not depend on the plaintext. *)
Lemma InnerEncryptor_roundtrip c key config (rng : Rng) : cipher_ok c → (cipher_overhead c ≤ 40)%nat →
  length key = KEYSIZE c → (length config < 896)%nat →
  ∃ enc rng', InnerEncryptor.encrypt (InnerEncryptor.mk c key) config rng = (Ok (InnerConfig.mk (NAME c) enc), rng')
    ∧ length enc = (900 + cipher_overhead c)%nat
    ∧ InnerEncryptor.decrypt (Rng := Rng) (InnerEncryptor.mk c key) (InnerConfig.mk (NAME c) enc) = Ok (Some config).
Proof.
  intros Hc Ho Hk Hl. unfold InnerEncryptor.encrypt, InnerEncryptor.decrypt, InnerEncryptor.CONFIG_SIZE. simpl.
  destruct (padding_roundtrip config 900 rng) as (padded & rng1 & E1 & L1 & R1); [lia..|].
  rewrite (bind_ok _ _ _ _ _ E1).
  destruct (cipher_decrypt_encrypt c padded key rng1) as (enc & rng2 & E2 & L2 & D2); [done..|lia|].
  rewrite u32_small by lia. exists enc, rng2. rewrite (bind_ok _ _ _ _ _ E2). split_and!; [done|lia|].
  rewrite decide_False by tauto. rewrite u32_small by lia. by rewrite D2.
Qed.
Lemma OuterEncryptor_roundtrip key kdf plaintext (rng : Rng) : length key = 32%nat → (length plaintext < 1020)%nat →
  ∃ enc rng', OuterEncryptor.encrypt (OuterEncryptor.mk key kdf) plaintext rng = (Ok (OuterConfig.mk kdf enc false), rng')
    ∧ length enc = 1056%nat
    ∧ ∀ b, OuterEncryptor.decrypt (Rng := Rng) (OuterEncryptor.mk key kdf) (OuterConfig.mk kdf enc b) = Ok (Some plaintext).
Proof.
  intros Hk Hl. unfold OuterEncryptor.encrypt, OuterEncryptor.decrypt, OuterEncryptor.CONFIG_SIZE.
  cbn [OuterEncryptor._key OuterEncryptor._kdfParameters OuterConfig.kdfParameters OuterConfig.encryptedInnerConfig].
  destruct (padding_roundtrip plaintext 1024 rng) as (padded & rng1 & E1 & L1 & R1); [lia..|].
  rewrite (bind_ok _ _ _ _ _ E1).
  destruct (cipher_decrypt_encrypt OuterEncryptor.Cipher padded key rng1) as (enc & rng2 & E2 & L2 & D2);
    [by apply (bool_decide_unpack _)|done|change (cipher_overhead OuterEncryptor.Cipher) with 32%nat; lia|].
  rewrite u32_small by lia. exists enc, rng2. rewrite (bind_ok _ _ _ _ _ E2).
  change (cipher_overhead OuterEncryptor.Cipher) with 32%nat in L2. split_and!; [done|lia|]. intros b.
  rewrite bool_decide_true by done. cbn [ASSERT]. csimp. rewrite u32_small by lia. by rewrite D2.
Qed.

Definition encryptor_ok (e : CryConfigEncryptor.t) : Prop :=
  length (CryConfigEncryptor._derivedKey e) = CryConfigEncryptor.MaxTotalKeySize
  ∧ Z.of_nat (length (CryConfigEncryptor._kdfParameters e)) < 2 ^ 62.

Lemma encryptors_ok e c : encryptor_ok e → c ∈ CryCiphers.SUPPORTED_CIPHERS →
  ∃ inner outer, length inner = KEYSIZE (CryCiphers.Cipher c) ∧ length outer = 32%nat
    ∧ CryConfigEncryptor._innerEncryptor e (CryCiphers.cipherName c) = Ok (InnerEncryptor.mk (CryCiphers.Cipher c) inner)
    ∧ CryConfigEncryptor._outerEncryptor e = Ok (OuterEncryptor.mk outer (CryConfigEncryptor._kdfParameters e)).
Proof.
  intros [Hk _] Hc. destruct (supported_ok c Hc) as (_ & Hmax & _).
  change CryConfigEncryptor.MaxTotalKeySize with 88%nat in Hk. change CryCiphers.MAX_KEY_SIZE with 56%nat in *.
  unfold CryConfigEncryptor._innerEncryptor, CryConfigEncryptor._outerEncryptor.
  change CryConfigEncryptor.OuterKeySize with 32%nat.
  rewrite key_drop, key_take by lia. csimp. rewrite find_cipherName by done. csimp.
  unfold CryCiphers.innerConfigKey, EncryptionKey.binaryLength. change CryCiphers.MAX_KEY_SIZE with 56%nat.
  rewrite length_drop, bool_decide_true by lia. csimp. simpl. rewrite key_take by (rewrite length_drop; lia).
  eexists _, _. split_and!; [| |done|done]; rewrite length_take, ?length_drop; lia.
Qed.

(** What the file looks like: its size depends on the key derivation
    parameters only. *)
Definition config_file_size (e : CryConfigEncryptor.t) : nat :=
  1086 + length (CryConfigEncryptor._kdfParameters e).

Lemma encrypt_decrypt e c config (rng : Rng) : encryptor_ok e → c ∈ CryCiphers.SUPPORTED_CIPHERS →
  (length config < 896)%nat →
  ∃ file rng', CryConfigEncryptor.encrypt e config (CryCiphers.cipherName c) rng = (Ok file, rng')
    ∧ length file = config_file_size e
    ∧ (∃ body, OuterConfig.deserialize file = Ok (Some (OuterConfig.mk (CryConfigEncryptor._kdfParameters e) body false)))
    ∧ CryConfigEncryptor.decrypt (Rng := Rng) e file =
        Ok (Some (CryConfigEncryptor.mkDecrypted config (CryCiphers.cipherName c) false)).
Proof.
  intros He Hc Hl. destruct (encryptors_ok e c He Hc) as (ik & ok & Li & Lo & Ei & Eo).
  destruct (supported_ok c Hc) as (Hcok & _ & Hname & _ & Hnull & Hover). destruct He as [_ Hkdf].
  unfold CryConfigEncryptor.encrypt, CryConfigEncryptor.decrypt.
  destruct (InnerEncryptor_roundtrip _ ik config rng Hcok Hover Li Hl) as (enc & rng1 & E1 & L1 & D1).
  change (NAME (CryCiphers.Cipher c)) with (CryCiphers.cipherName c) in *.
  destruct (InnerConfig_roundtrip (InnerConfig.mk (CryCiphers.cipherName c) enc)) as (d & E2 & L2 & D2);
    [done|simpl; lia|]. simpl in L2.
  destruct (OuterEncryptor_roundtrip ok (CryConfigEncryptor._kdfParameters e) d rng1 Lo) as (out & rng2 & E3 & L3 & D3);
    [lia|].
  destruct (OuterConfig_roundtrip (OuterConfig.mk (CryConfigEncryptor._kdfParameters e) out false)) as (file & E4 & L4 & D4);
    [done|simpl; lia|]. simpl in L4.
  exists file, rng2. split_and!.
  - rewrite Ei, Eo. unfold mbind, M_bind. csimp. rewrite E1. rewrite E2. rewrite E3. by rewrite E4.
  - unfold config_file_size. lia.
  - by exists out.
  - rewrite D4. csimp. rewrite Eo. csimp. rewrite D3. csimp. rewrite D2. csimp. simpl. rewrite Ei. csimp. by rewrite D1.
Qed.

Lemma encrypt_too_large e c config (rng : Rng) : encryptor_ok e → c ∈ CryCiphers.SUPPORTED_CIPHERS →
  (896 ≤ length config)%nat → Z.of_nat (length config) < 2 ^ 32 →
  CryConfigEncryptor.encrypt e config (CryCiphers.cipherName c) rng =
    (Throw (RuntimeError "Data too large. We should increase padding target size."), rng).
Proof.
  intros He Hc Hl Hm. destruct (encryptors_ok e c He Hc) as (ik & ok & Li & Lo & Ei & Eo).
  unfold CryConfigEncryptor.encrypt. rewrite Ei. unfold mbind, M_bind. csimp.
  unfold InnerEncryptor.encrypt, mbind, M_bind. rewrite padding_too_large; [done| |done].
  unfold InnerEncryptor.CONFIG_SIZE. lia.
Qed.

(** C35. The two layers of configuration encryption. For every supported
    cipher and every derived key of the right length, a configuration of
    less than 896 bytes is encrypted without an error to a file whose length
    depends on nothing but the key derivation parameters, and decrypting it
    with the same encryptor gives back the configuration and the name of the
    cipher; a configuration of 896 bytes or more is refused. *)
Theorem config_encryption_roundtrip e c config (rng : Rng) :
  encryptor_ok e → c ∈ CryCiphers.SUPPORTED_CIPHERS → Z.of_nat (length config) < 2 ^ 32 →
  if decide (length config < 896)%nat then
    ∃ file rng', CryConfigEncryptor.encrypt e config (CryCiphers.cipherName c) rng = (Ok file, rng')
      ∧ length file = config_file_size e
      ∧ CryConfigEncryptor.decrypt (Rng := Rng) e file =
          Ok (Some (CryConfigEncryptor.mkDecrypted config (CryCiphers.cipherName c) false))
  else
    CryConfigEncryptor.encrypt e config (CryCiphers.cipherName c) rng =
      (Throw (RuntimeError "Data too large. We should increase padding target size."), rng).
Proof.
  intros He Hc Hm. case_decide.
  - destruct (encrypt_decrypt e c config rng) as (file & rng' & E & L & _ & D); [done..|]. by exists file, rng'.
  - apply encrypt_too_large; [done..|lia|done].
Qed.

(** ** The old format of the key derivation parameters *)
Definition scrypt_ok (p : SCryptParameters.t) : Prop :=
  0 ≤ SCryptParameters._n p < 2 ^ 64 ∧ 0 ≤ SCryptParameters._r p < 2 ^ 32 ∧ 0 ≤ SCryptParameters._p p < 2 ^ 32
  ∧ Z.of_nat (length (SCryptParameters._salt p)) < 2 ^ 61.
Definition scrypt_head (p : SCryptParameters.t) : bytes :=
  serialize 8 (SCryptParameters._n p) ++ serialize 4 (SCryptParameters._r p) ++ serialize 4 (SCryptParameters._p p).

Lemma scrypt_serialize p : SCryptParameters.serialize p = Ok (scrypt_head p ++ SCryptParameters._salt p).
Proof.
  unfold SCryptParameters.serialize, scrypt_head. apply fills_new. rewrite length_uninit.
  unfold SCryptParameters._serializedSize.
  apply (fills_then _ _ _ _ _ _ (writes_field (FUint64 _) I)); [cbn [field_bytes]; len|].
  apply (fills_then _ _ _ _ _ _ (writes_field (FUint32 _) I)); [cbn [field_bytes]; len|].
  apply (fills_then _ _ _ _ _ _ (writes_field (FUint32 _) I)); [cbn [field_bytes]; len|].
  cbn [field_bytes app]. rewrite (app_assoc (serialize 8 _)). apply fills_tail. len.
Qed.
Lemma scrypt_roundtrip p : scrypt_ok p →
  SCryptParameters.deserialize (scrypt_head p ++ SCryptParameters._salt p) = Ok p.
Proof.
  intros (Hn & Hr & Hp & Hs). unfold SCryptParameters.deserialize, scrypt_head. apply parses_new; [len|].
  rewrite <- !app_assoc. eapply parses_then; [by apply reads_uint; [lia|]|].
  eapply parses_then; [by apply reads_uint; [lia|]|]. eapply parses_then; [by apply reads_uint; [lia|]|].
  destruct p as [salt n r q]. apply (parses_tail (λ x, SCryptParameters.mk x n r q)).
Qed.

(** A file of CryFS before 0.9.3. *)
Definition old_file (p : SCryptParameters.t) (body : bytes) : bytes :=
  (OuterConfig.OLD_HEADER ++ [x00]) ++ (scrypt_head p ++ field_bytes (FData (SCryptParameters._salt p))) ++ body.

Lemma reads_oldScrypt p : scrypt_ok p →
  reads SCryptParameters.deserializeOldFormat (scrypt_head p ++ field_bytes (FData (SCryptParameters._salt p))) p.
Proof.
  intros (Hn & Hr & Hp & Hs). unfold SCryptParameters.deserializeOldFormat, scrypt_head. rewrite <- !app_assoc.
  eapply reads_bind; [by apply reads_uint; [lia|]|]. eapply reads_bind; [by apply reads_uint; [lia|]|].
  eapply reads_bind; [by apply reads_uint; [lia|]|]. destruct p as [salt n r q].
  apply (reads_fmap _ (λ x, SCryptParameters.mk x n r q)), reads_data.
Qed.
Lemma OuterConfig_old p body : scrypt_ok p → Z.of_nat (length body) < 2 ^ 61 →
  OuterConfig.deserialize (old_file p body) =
    Ok (Some (OuterConfig.mk (scrypt_head p ++ SCryptParameters._salt p) body true)).
Proof.
  intros Hp Hb. unfold OuterConfig.deserialize, old_file. pose proof Hp as (_ & _ & _ & Hs).
  assert (length OuterConfig.OLD_HEADER = 21%nat) as Hh by done.
  erewrite parses_new; [done| |].
  { rewrite !length_app, Hh. unfold scrypt_head. cbn [field_bytes]. len. }
  eapply parses_then; [apply (reads_string OuterConfig.OLD_HEADER)|].
  { apply (bool_decide_unpack _). by vm_compute. }
  rewrite decide_True by done. apply (parses_fmap _ Some).
  eapply parses_then; [by apply reads_oldScrypt|]. rewrite scrypt_serialize.
  intros s Hs' Hu. unfold mbind at 1, M_bind at 1. csimp.
  by apply (parses_tail (λ x, OuterConfig.mk (scrypt_head p ++ SCryptParameters._salt p) x true)).
Qed.
End proofs.

(** ** Witness *)
Import Toy.
Definition w_encryptor : CryConfigEncryptor.t := CryConfigEncryptor.mk (replicate 88 x11) (str "kdf").
Lemma w_encryptor_ok : encryptor_ok w_encryptor.
Proof. split; [done|simpl; lia]. Qed.
Lemma config_encryption_roundtrip_witness :
  ∃ file rng', CryConfigEncryptor.encrypt w_encryptor (str "{}") (str "aes-128-gcm") 0 = (Ok file, rng')
    ∧ length file = config_file_size w_encryptor
    ∧ CryConfigEncryptor.decrypt (Rng := Z) w_encryptor file =
        Ok (Some (CryConfigEncryptor.mkDecrypted (str "{}") (str "aes-128-gcm") false)).
Proof.
  exact (config_encryption_roundtrip (crypto := Toy.cryptopp) (memory := Toy.memory) (Rng := Z) w_encryptor
    (CryCiphers.CryCipherInstance ciphers.AES128_GCM None) (str "{}") 0 w_encryptor_ok
    (proj1 (find_Ok (str "aes-128-gcm") _ eq_refl)) ltac:(simpl; lia)).
Defined.
