(* ===== verification/CryConfig.v ===== *)
(** * The configuration of a file system (cryfs/impl/config/CryConfig.cpp)

    [CryConfig] is written as JSON through a property tree of boost. The tree
    and the JSON reader and writer are the class [PropertyTree]; what boost
    documents of them is [PropertyTreeLaws]. *)
From S2P Require Import Prelude Serialization Serializer Version Cipher CryCipher.
From Stdlib Require Import Lia ZArith.
Open Scope Z_scope.

(** ** boost::property_tree *)

(** [put] and [get_optional] of strings; the stream translators of numbers
    and truth values; [read_json] and [write_json]. A path is a dotted
    string. *)
Class PropertyTree := {
  ptree : Type;
  pt_empty : ptree;
  pt_put : bytes → bytes → ptree → ptree;
  pt_get : bytes → ptree → option bytes;
  show_uint : Z → bytes;
  parse_uint : nat → bytes → option Z;
  show_bool : bool → bytes;
  parse_bool : bytes → option bool;
  read_json : bytes → result ptree;
  write_json : ptree → result bytes;
}.

(** [a.b] lies below [a]. *)
Definition below (p q : bytes) : Prop := (p ++ [x2e]) `prefix_of` q.
#[global] Instance below_dec p q : Decision (below p q).
Proof. unfold below. apply _. Defined.

(** Documents that JSON can express: values at the leaves only. *)
Definition entry_ok (kv : bytes * bytes) : Prop := kv.1 ≠ [] ∧ Forall printable kv.1 ∧ Forall printable kv.2.
Definition paths_ok (ps : list bytes) : Prop := NoDup ps ∧ ∀ p q, p ∈ ps → q ∈ ps → ¬ below p q.
Definition build `{!PropertyTree} (doc : list (bytes * bytes)) : ptree :=
  foldl (λ t kv, pt_put kv.1 kv.2 t) pt_empty doc.

(** A tree that was filled by [put] along paths that do not run through each
    other's values, with the set of its paths. *)
Inductive document `{!PropertyTree} : gset bytes → ptree → Prop :=
| document_empty : document ∅ pt_empty
| document_put ps p v t : document ps t → entry_ok (p, v) → (∀ q, q ∈ ps → ¬ below p q ∧ ¬ below q p) →
    document ({[p]} ∪ ps) (pt_put p v t).

Class PropertyTreeLaws `{!PropertyTree} := {
  pt_get_empty p : p ≠ [] → pt_get p pt_empty = None;
  pt_get_put p v t : pt_get p (pt_put p v t) = Some v;
  pt_get_put_ne p q v t : p ≠ q → ¬ below p q → pt_get p (pt_put q v t) = pt_get p t;
  parse_show_uint w n : 0 ≤ n < 2 ^ Z.of_nat w → parse_uint w (show_uint n) = Some n;
  show_uint_printable n : Forall printable (show_uint n);
  parse_show_bool b : parse_bool (show_bool b) = Some b;
  show_bool_printable b : Forall printable (show_bool b);
  json_reads_back ps t : document ps t → ∃ text, write_json t = Ok text ∧ read_json text = Ok t;
}.

(** [get<T>(path)] throws for a missing path and for data that is no [T];
    with a default value it does neither. *)
Section get.
Context `{!PropertyTree}.
Definition get_string (p : bytes) (t : ptree) : result bytes :=
  match pt_get p t with Some v => mret v | None => mthrow PtreeError end.
Definition get_string_or (p default : bytes) (t : ptree) : bytes :=
  match pt_get p t with Some v => v | None => default end.
Definition get_optional_uint (w : nat) (p : bytes) (t : ptree) : option Z := v ← pt_get p t ; parse_uint w v.
Definition get_uint (w : nat) (p : bytes) (t : ptree) : result Z :=
  match get_optional_uint w p t with Some n => mret n | None => mthrow PtreeError end.
Definition get_uint_or (w : nat) (p : bytes) (default : Z) (t : ptree) : Z :=
  match get_optional_uint w p t with Some n => n | None => default end.
Definition get_bool_or (p : bytes) (default : bool) (t : ptree) : bool :=
  match (v ← pt_get p t ; parse_bool v) with Some b => b | None => default end.
End get.

(** ** CryConfig *)
Module CryConfig.
Definition FilesystemFormatVersion : bytes := str "0.10".
Definition FilesystemID_LENGTH : nat := 16.

Record t := mk {
  _rootBlob : bytes;
  _encKey : bytes;
  _cipher : bytes;
  _version : bytes;
  _createdWithVersion : bytes;
  _lastOpenedWithVersion : bytes;
  _blocksizeBytes : Z;
  _filesystemId : bytes;
  _exclusiveClientId : option Z;
  _hasVersionNumbers : bool;
  _hasParentPointers : bool }.

(** [CryConfig()] *)
Definition new : t :=
  mk [] [] [] [] [] [] 0 (FixedSizeData.Null FilesystemID_LENGTH) None true true.

Definition SetRootBlob (v : bytes) (c : t) : t :=
  mk v (_encKey c) (_cipher c) (_version c) (_createdWithVersion c) (_lastOpenedWithVersion c) (_blocksizeBytes c)
    (_filesystemId c) (_exclusiveClientId c) (_hasVersionNumbers c) (_hasParentPointers c).
Definition SetEncryptionKey (v : bytes) (c : t) : t :=
  mk (_rootBlob c) v (_cipher c) (_version c) (_createdWithVersion c) (_lastOpenedWithVersion c) (_blocksizeBytes c)
    (_filesystemId c) (_exclusiveClientId c) (_hasVersionNumbers c) (_hasParentPointers c).
Definition SetCipher (v : bytes) (c : t) : t :=
  mk (_rootBlob c) (_encKey c) v (_version c) (_createdWithVersion c) (_lastOpenedWithVersion c) (_blocksizeBytes c)
    (_filesystemId c) (_exclusiveClientId c) (_hasVersionNumbers c) (_hasParentPointers c).
Definition SetVersion (v : bytes) (c : t) : t :=
  mk (_rootBlob c) (_encKey c) (_cipher c) v (_createdWithVersion c) (_lastOpenedWithVersion c) (_blocksizeBytes c)
    (_filesystemId c) (_exclusiveClientId c) (_hasVersionNumbers c) (_hasParentPointers c).
Definition SetCreatedWithVersion (v : bytes) (c : t) : t :=
  mk (_rootBlob c) (_encKey c) (_cipher c) (_version c) v (_lastOpenedWithVersion c) (_blocksizeBytes c)
    (_filesystemId c) (_exclusiveClientId c) (_hasVersionNumbers c) (_hasParentPointers c).
Definition SetLastOpenedWithVersion (v : bytes) (c : t) : t :=
  mk (_rootBlob c) (_encKey c) (_cipher c) (_version c) (_createdWithVersion c) v (_blocksizeBytes c)
    (_filesystemId c) (_exclusiveClientId c) (_hasVersionNumbers c) (_hasParentPointers c).
Definition SetBlocksizeBytes (v : Z) (c : t) : t :=
  mk (_rootBlob c) (_encKey c) (_cipher c) (_version c) (_createdWithVersion c) (_lastOpenedWithVersion c) v
    (_filesystemId c) (_exclusiveClientId c) (_hasVersionNumbers c) (_hasParentPointers c).
Definition SetFilesystemId (v : bytes) (c : t) : t :=
  mk (_rootBlob c) (_encKey c) (_cipher c) (_version c) (_createdWithVersion c) (_lastOpenedWithVersion c)
    (_blocksizeBytes c) v (_exclusiveClientId c) (_hasVersionNumbers c) (_hasParentPointers c).
Definition SetExclusiveClientId (v : option Z) (c : t) : t :=
  mk (_rootBlob c) (_encKey c) (_cipher c) (_version c) (_createdWithVersion c) (_lastOpenedWithVersion c)
    (_blocksizeBytes c) (_filesystemId c) v (_hasVersionNumbers c) (_hasParentPointers c).
Definition SetHasVersionNumbers (v : bool) (c : t) : t :=
  mk (_rootBlob c) (_encKey c) (_cipher c) (_version c) (_createdWithVersion c) (_lastOpenedWithVersion c)
    (_blocksizeBytes c) (_filesystemId c) (_exclusiveClientId c) v (_hasParentPointers c).
Definition SetHasParentPointers (v : bool) (c : t) : t :=
  mk (_rootBlob c) (_encKey c) (_cipher c) (_version c) (_createdWithVersion c) (_lastOpenedWithVersion c)
    (_blocksizeBytes c) (_filesystemId c) (_exclusiveClientId c) (_hasVersionNumbers c) v.

Definition missingBlockIsIntegrityViolation (c : t) : bool := bool_decide (_exclusiveClientId c ≠ None).

Section io.
Context {crypto : CryptoPP} {boost : PropertyTree} {Rng : Type} {random : RandomGenerator Rng}.

Definition load (data : bytes) : M Rng t :=
  pt ← lift (read_json data) ;
  rootBlob ← lift (get_string (str "cryfs.rootblob") pt) ;
  encKey ← lift (get_string (str "cryfs.key") pt) ;
  cipher ← lift (get_string (str "cryfs.cipher") pt) ;
  let version := get_string_or (str "cryfs.version") (str "0.8") pt in
  let createdWithVersion := get_string_or (str "cryfs.createdWithVersion") version pt in
  let lastOpenedWithVersion := get_string_or (str "cryfs.lastOpenedWithVersion") version pt in
  let blocksizeBytes := get_uint_or 64 (str "cryfs.blocksizeBytes") 32832 pt in
  let exclusiveClientId := get_optional_uint 32 (str "cryfs.exclusiveClientId") pt in
  let hasVersionNumbers := get_bool_or (str "cryfs.migrations.hasVersionNumbers") false pt in
  let hasParentPointers := get_bool_or (str "cryfs.migrations.hasParentPointers") false pt in
  filesystemId ←
    match pt_get (str "cryfs.filesystemId") pt with
    | None => random_bytes FilesystemID_LENGTH
    | Some s => lift (FixedSizeData_FromString FilesystemID_LENGTH s)
    end ;
  mret (mk rootBlob encKey cipher version createdWithVersion lastOpenedWithVersion blocksizeBytes filesystemId
    exclusiveClientId hasVersionNumbers hasParentPointers).

(** The entries that [save] puts into the tree, in its order. *)
Definition entries (c : t) (filesystemId : bytes) : list (bytes * bytes) :=
  [(str "cryfs.rootblob", _rootBlob c);
   (str "cryfs.key", _encKey c);
   (str "cryfs.cipher", _cipher c);
   (str "cryfs.version", _version c);
   (str "cryfs.createdWithVersion", _createdWithVersion c);
   (str "cryfs.lastOpenedWithVersion", _lastOpenedWithVersion c);
   (str "cryfs.blocksizeBytes", show_uint (_blocksizeBytes c));
   (str "cryfs.filesystemId", filesystemId)]
  ++ match _exclusiveClientId c with Some n => [(str "cryfs.exclusiveClientId", show_uint n)] | None => [] end
  ++ [(str "cryfs.migrations.hasVersionNumbers", show_bool (_hasVersionNumbers c));
      (str "cryfs.migrations.hasParentPointers", show_bool (_hasParentPointers c))].

Definition save (c : t) : result bytes :=
  filesystemId ← FixedSizeData_ToString (_filesystemId c) ;
  write_json (build (entries c filesystemId)).
End io.
End CryConfig.

(** ** Proofs *)
Section proofs.
Context {crypto : CryptoPP} {crypto_laws : CryptoPPLaws} {boost : PropertyTree} {boost_laws : PropertyTreeLaws}.

Lemma build_snoc doc kv : build (doc ++ [kv]) = pt_put kv.1 kv.2 (build doc).
Proof. unfold build. by rewrite foldl_snoc. Qed.
Lemma document_build doc : Forall entry_ok doc → paths_ok doc.*1 → document (list_to_set doc.*1) (build doc).
Proof.
  induction doc as [|[p v] doc IH] using rev_ind; intros He [Hnd Hb]; [apply document_empty|].
  apply Forall_app in He as [He Hp]. rewrite fmap_app in *. apply NoDup_app in Hnd as (Hnd & _ & _). rewrite build_snoc.
  assert (list_to_set (doc.*1 ++ [p]) = {[p]} ∪ list_to_set doc.*1 :> gset bytes) as E by set_solver.
  cbn [fmap list_fmap fst]. rewrite E. apply document_put.
  - apply IH; [done|]. split; [done|]. intros. apply Hb; set_solver.
  - rewrite Forall_singleton in Hp. exact Hp.
  - intros q Hq%elem_of_list_to_set. split; apply Hb; set_solver.
Qed.
Lemma json_roundtrip doc : Forall entry_ok doc → paths_ok doc.*1 →
  ∃ text t, write_json (build doc) = Ok text ∧ read_json text = Ok t ∧ ∀ p, pt_get p t = pt_get p (build doc).
Proof. intros He Hp. destruct (json_reads_back _ _ (document_build doc He Hp)) as (text & Ew & Er). by exists text, (build doc). Qed.
Lemma get_build_Some doc p v : paths_ok doc.*1 → (p, v) ∈ doc → pt_get p (build doc) = Some v.
Proof.
  induction doc as [|[q u] doc IH] using rev_ind; intros [Hnd Hb] Hin; [by apply not_elem_of_nil in Hin|].
  rewrite fmap_app in *. rewrite build_snoc. simpl in *. apply NoDup_app in Hnd as (Hnd & Hq & _).
  apply elem_of_app in Hin as [Hin|Hin].
  - assert (p ∈ doc.*1) as Hp by (by apply (list_elem_of_fmap_2 fst _ (p, v))).
    assert (∀ p', p' ∈ doc.*1 → p' ∈ doc.*1 ++ [q]) as Hl by (intros ??; apply elem_of_app; by left).
    assert (q ∈ doc.*1 ++ [q]) as Hr by (apply elem_of_app; right; by apply list_elem_of_singleton).
    rewrite pt_get_put_ne; [|intros ->; by eapply Hq, list_elem_of_singleton|by apply Hb; auto].
    apply IH; [|done]. split; [done|]. intros p' q' ??. by apply Hb; auto.
  - apply list_elem_of_singleton in Hin as [= -> ->]. apply pt_get_put.
Qed.
Lemma get_build_None doc p : p ≠ [] → p ∉ doc.*1 → Forall (λ q, ¬ below p q) doc.*1 → pt_get p (build doc) = None.
Proof.
  intros Hp. induction doc as [|[q u] doc IH] using rev_ind; intros Hin Hb; [by apply pt_get_empty|].
  rewrite fmap_app in *. rewrite build_snoc. simpl in *. apply Forall_app in Hb as [Hb Hq].
  apply not_elem_of_app in Hin as [Hin Hpq]. rewrite pt_get_put_ne; [by apply IH|set_solver|by inversion Hq].
Qed.

Lemma paths_ok_dec ps : bool_decide (NoDup ps ∧ Forall (λ p, Forall (λ q, ¬ below p q) ps) ps) = true → paths_ok ps.
Proof.
  intros [Hn Hb]%bool_decide_eq_true. split; [done|]. intros p q Hp Hq.
  rewrite Forall_forall in Hb. specialize (Hb p Hp). rewrite Forall_forall in Hb. by apply Hb.
Qed.
End proofs.

(** Membership in a list that is written out. *)
Ltac solve_in := repeat first [apply list_elem_of_here|apply list_elem_of_further].

Import CryConfig.
Section config_proofs.
Context {crypto : CryptoPP} {crypto_laws : CryptoPPLaws} {boost : PropertyTree} {boost_laws : PropertyTreeLaws}
  {Rng : Type} {random : RandomGenerator Rng}.

(** The values of the fields are values of their types, and texts that JSON
    keeps. *)
Definition config_ok (c : CryConfig.t) : Prop :=
  Forall (Forall printable) [_rootBlob c; _encKey c; _cipher c; _version c; _createdWithVersion c; _lastOpenedWithVersion c]
  ∧ 0 ≤ _blocksizeBytes c < 2 ^ 64 ∧ length (_filesystemId c) = FilesystemID_LENGTH
  ∧ (∀ n, _exclusiveClientId c = Some n → 0 ≤ n < 2 ^ 32).

Lemma entry_str s v : bool_decide (str s ≠ [] ∧ Forall printable (str s)) = true → Forall printable v →
  entry_ok (str s, v).
Proof. by intros [??]%bool_decide_eq_true. Qed.
Lemma entries_paths c id : paths_ok (entries c id).*1.
Proof. apply paths_ok_dec. unfold entries. destruct (_exclusiveClientId c); by vm_compute. Qed.
Lemma entries_ok c id : config_ok c → Forall printable id → Forall entry_ok (entries c id).
Proof.
  intros (Hs & _) Hid. unfold entries. rewrite !Forall_cons in Hs.
  destruct Hs as (? & ? & ? & ? & ? & ? & _).
  repeat first [apply Forall_app; split|apply Forall_cons; split|apply Forall_nil_2];
    try (apply entry_str; [by vm_compute|auto using show_uint_printable, show_bool_printable]).
  destruct (_exclusiveClientId c); [|done]. apply Forall_singleton.
  apply entry_str; [by vm_compute|apply show_uint_printable].
Qed.

Ltac doc_in :=
  match goal with |- _ ∈ ?d => unfold d, entries end;
  first [apply elem_of_app; left; by solve_in|apply elem_of_app; right; apply elem_of_app; right; by solve_in].

(** What [save] writes, [load] reads. *)
Lemma save_load c : config_ok c → ∃ text, save c = Ok text ∧ ∀ rng : Rng, load text rng = (Ok c, rng).
Proof.
  intros Hc. pose proof Hc as (_ & Hb & Hid & Hx). unfold save.
  destruct (FixedSizeData_string_roundtrip (_filesystemId c)) as [-> Hf]. rewrite Hid in Hf. csimp.
  set (doc := entries c (hex_encode (_filesystemId c))).
  destruct (json_roundtrip doc) as (text & t & -> & Hr & Hg).
  { apply entries_ok; [done|apply hex_encode_printable]. } { apply entries_paths. }
  exists text. split; [done|]. intros rng. unfold load. rewrite Hr. unfold mbind, M_bind. csimp.
  unfold get_string, get_string_or, get_uint_or, get_bool_or, get_optional_uint. rewrite !Hg.
  assert (∀ p v, (p, v) ∈ doc → pt_get p (build doc) = Some v) as Hin
    by (intros; apply get_build_Some; [apply entries_paths|done]).
  rewrite (Hin (str "cryfs.rootblob") (_rootBlob c)),
    (Hin (str "cryfs.key") (_encKey c)),
    (Hin (str "cryfs.cipher") (_cipher c)),
    (Hin (str "cryfs.version") (_version c)),
    (Hin (str "cryfs.createdWithVersion") (_createdWithVersion c)),
    (Hin (str "cryfs.lastOpenedWithVersion") (_lastOpenedWithVersion c)),
    (Hin (str "cryfs.blocksizeBytes") (show_uint (_blocksizeBytes c))),
    (Hin (str "cryfs.filesystemId") (hex_encode (_filesystemId c))),
    (Hin (str "cryfs.migrations.hasVersionNumbers") (show_bool (_hasVersionNumbers c))),
    (Hin (str "cryfs.migrations.hasParentPointers") (show_bool (_hasParentPointers c))) by doc_in.
  assert (pt_get (str "cryfs.exclusiveClientId") (build doc) = show_uint <$> _exclusiveClientId c) as ->.
  { destruct (_exclusiveClientId c) eqn:E; simpl.
    - apply Hin. unfold doc, entries. rewrite E. apply elem_of_app; right. apply elem_of_app; left.
      apply list_elem_of_here.
    - unfold doc, entries. rewrite E.
      apply get_build_None; [done|apply (bool_decide_unpack _); by vm_compute..]. }
  csimp. rewrite Hf. csimp. cbn [mbind option_bind].
  rewrite (parse_show_uint 64) by done. rewrite !parse_show_bool.
  assert ((show_uint <$> _exclusiveClientId c) ≫= (λ v, parse_uint 32 v) = _exclusiveClientId c) as ->.
  { destruct (_exclusiveClientId c) as [n|]; [|done]. apply (parse_show_uint 32). by apply Hx. }
  by destruct c.
Qed.

(** A configuration of CryFS 0.8 has three fields; the rest gets the values
    that such a file system has, and a random id. *)
Definition old_entries (rootBlob key cipher : bytes) : list (bytes * bytes) :=
  [(str "cryfs.rootblob", rootBlob); (str "cryfs.key", key); (str "cryfs.cipher", cipher)].
Lemma load_old rootBlob key cipher :
  Forall (Forall printable) [rootBlob; key; cipher] →
  ∃ text, write_json (build (old_entries rootBlob key cipher)) = Ok text ∧ ∀ rng : Rng,
    load text rng =
      (Ok (CryConfig.mk rootBlob key cipher (str "0.8") (str "0.8") (str "0.8") 32832
             (get_bytes FilesystemID_LENGTH rng).1 None false false), (get_bytes FilesystemID_LENGTH rng).2).
Proof.
  intros Hs. rewrite !Forall_cons in Hs. destruct Hs as (Hr & Hk & Hc & _).
  assert (paths_ok (old_entries rootBlob key cipher).*1) as Hp by (apply paths_ok_dec; by vm_compute).
  destruct (json_roundtrip (old_entries rootBlob key cipher)) as (text & t & -> & Ht & Hg); [|done|].
  { unfold old_entries. rewrite !Forall_cons. split_and!; try done; by apply entry_str; [vm_compute|]. }
  exists text. split; [done|]. intros rng. unfold load. rewrite Ht. unfold mbind, M_bind. csimp.
  unfold get_string, get_string_or, get_uint_or, get_bool_or, get_optional_uint. rewrite !Hg.
  rewrite (get_build_Some _ (str "cryfs.rootblob") rootBlob) by (done || (unfold old_entries; by solve_in)).
  rewrite (get_build_Some _ (str "cryfs.key") key) by (done || (unfold old_entries; by solve_in)).
  rewrite (get_build_Some _ (str "cryfs.cipher") cipher) by (done || (unfold old_entries; by solve_in)).
  rewrite !get_build_None; try done; try (apply (bool_decide_unpack _); by vm_compute).
  unfold random_bytes. csimp. by destruct (get_bytes _ rng).
Qed.
End config_proofs.

(** ** An instance to run the definitions on

    A tree is the list of what was put into it, its text one line for each
    path and value; numbers are written in binary. *)
Module ToyTree.
Definition tree : Type := list (bytes * bytes).
Fixpoint lookup_path (p : bytes) (t : tree) : option bytes :=
  match t with [] => None | (q, v) :: t' => if decide (q = p) then Some v else lookup_path p t' end.
Definition text (t : tree) : bytes := concat (map (λ kv, kv.1 ++ newline :: kv.2 ++ [newline]) t).
Fixpoint parse_lines (fuel : nat) (l : bytes) : result tree :=
  match fuel, l with
  | _, [] => Ok []
  | O, _ => Throw PtreeError
  | S f, _ =>
      match split_first newline l with
      | None => Throw PtreeError
      | Some (p, r) =>
          match split_first newline r with
          | None => Throw PtreeError
          | Some (v, r') => t ← parse_lines f r' ; mret ((p, v) :: t)
          end
      end
  end.

Definition bit (b : bool) : byte := if b then x31 else x30.
Fixpoint show_pos (p : positive) : bytes :=
  match p with xH => [x31] | xO p' => x30 :: show_pos p' | xI p' => x31 :: show_pos p' end.
Definition show (n : Z) : bytes := match n with Zpos p => show_pos p | _ => [] end.
Fixpoint parse_bits (l : bytes) : Z :=
  match l with [] => 0 | b :: l' => (if decide (b = x31) then 1 else 0) + 2 * parse_bits l' end.
Definition parse_number (w : nat) (l : bytes) : option Z :=
  if decide (parse_bits l < 2 ^ Z.of_nat w) then Some (parse_bits l) else None.

#[export] Instance boost : PropertyTree := {
  ptree := tree; pt_empty := []; pt_put p v t := (p, v) :: t; pt_get := lookup_path;
  show_uint := show; parse_uint := parse_number;
  show_bool b := [bit b]; parse_bool l := match l with [x31] => Some true | [x30] => Some false | _ => None end;
  read_json l := parse_lines (length l) l; write_json t := Ok (text t) }.

Lemma parse_bits_show p : parse_bits (show_pos p) = Zpos p.
Proof. induction p as [p IH|p IH|]; cbn [show_pos parse_bits]; rewrite ?IH; simpl; lia. Qed.
Lemma show_pos_printable p : Forall printable (show_pos p).
Proof. induction p; simpl; constructor; try done. Qed.
Lemma printable_no_newline l : Forall printable l → newline ∉ l.
Proof. intros Hl Hin. rewrite Forall_forall in Hl. by apply Hl in Hin as [? _]. Qed.
Lemma parse_lines_text t f : Forall entry_ok t → (length t ≤ f)%nat → parse_lines f (text t) = Ok t.
Proof.
  intros Ht. revert f. induction Ht as [|[p v] t (_ & Hp & Hv) _ IH]; intros f Hf; [by destruct f|].
  destruct f as [|f]; [simpl in Hf; lia|].
  assert (text ((p, v) :: t) = p ++ newline :: v ++ newline :: text t) as ->.
  { unfold text. simpl. by rewrite <- app_assoc; simpl; rewrite <- app_assoc. }
  assert (∀ l : bytes, parse_lines (S f) (p ++ newline :: l) = match split_first newline (p ++ newline :: l) with
    | None => Throw PtreeError
    | Some (p, r) => match split_first newline r with
                     | None => Throw PtreeError
                     | Some (v, r') => t ← parse_lines f r' ; mret ((p, v) :: t) end end) as ->
    by (intros; by destruct p).
  rewrite !split_first_app by (by apply printable_no_newline). simpl in Hf. by rewrite IH by lia.
Qed.
Lemma length_text t : (length t ≤ length (text t))%nat.
Proof. induction t as [|kv t IH]; [simpl; lia|]. unfold text in *. simpl. rewrite !length_app. simpl. lia. Qed.

Lemma length_text_build doc : length (text (build doc)) = sum_list_with (λ kv, length kv.1 + length kv.2 + 2)%nat doc.
Proof.
  induction doc as [|[p v] doc IH] using rev_ind; [done|]. rewrite build_snoc, sum_list_with_app. simpl.
  rewrite <- IH. unfold text. simpl. rewrite !length_app. simpl. rewrite !length_app. simpl. lia.
Qed.

#[export] Instance boost_laws : PropertyTreeLaws.
Proof.
  split; simpl.
  - done.
  - intros. by rewrite decide_True.
  - intros. by rewrite decide_False.
  - intros w n Hn. unfold parse_number. assert (parse_bits (show n) = n) as ->.
    { destruct n; [done|apply parse_bits_show|lia]. } by rewrite decide_True by lia.
  - intros n. unfold show. destruct n; [done|apply show_pos_printable|done].
  - by intros [].
  - intros []; by repeat constructor.
  - intros ps t Ht. exists (text t). split; [done|]. apply parse_lines_text; [|apply length_text].
    induction Ht; constructor; done.
Qed.
End ToyTree.
