(* ===== verification/ConfigFile.v ===== *)
(** * Key derivation and the configuration file (cpp-utils/crypto/kdf/Scrypt.cpp,
    the key providers and CryConfigFile.cpp of cryfs/impl/config)

    The configuration code reads and writes files, draws random numbers and
    hands a derived key back to its caller: [world] holds all three. *)
From S2P Require Import Prelude Serialization Serializer Cipher CryCipher ConfigCrypto CryConfig.
From Stdlib Require Import Lia ZArith.
Open Scope Z_scope.

(** ** Files *)
Abbreviation path := (list bytes).
Definition parent_path (p : path) : path := take (length p - 1) p.

(** [returnedHash] is the key that CryPresetPasswordBasedKeyProvider stores
    through the pointer its caller gave it. *)
Record world (Rng : Type) := mkWorld {
  files : gmap path bytes;
  dirs : gset path;
  rng : Rng;
  returnedHash : option bytes }.
Arguments mkWorld {Rng}. Arguments files {Rng}. Arguments dirs {Rng}. Arguments rng {Rng}. Arguments returnedHash {Rng}.

Section files.
Context {Rng : Type}.
Definition with_rng {A} (m : M Rng A) : M (world Rng) A :=
  zoom rng (λ r w, mkWorld (files w) (dirs w) r (returnedHash w)) m.
Definition set_files (f : gmap path bytes) (w : world Rng) : world Rng :=
  mkWorld f (dirs w) (rng w) (returnedHash w).

(** [Data::LoadFromFile] and [Data::StoreToFile]; a file cannot be opened for
    writing when its directory does not exist. *)
Definition LoadFromFile (filepath : path) : M (world Rng) (option bytes) :=
  w ← get_state ; mret (files w !! filepath).
Definition StoreToFile (data : bytes) (filepath : path) : M (world Rng) unit :=
  w ← get_state ;
  if decide (parent_path filepath ∈ dirs w) then put_state (set_files (<[filepath := data]> (files w)) w)
  else mthrow (RuntimeError "Could not open file for writing").
(** [bf::exists] *)
Definition exists_ (p : path) : M (world Rng) bool :=
  w ← get_state ; mret (bool_decide (is_Some (files w !! p) ∨ p ∈ dirs w)).
End files.

(** ** Scrypt.cpp *)

(** [CryptoPP::Scrypt().DeriveKey]: length, password, salt and the three cost
    parameters; returns a status and the key, or throws for bad parameters. *)
Class ScryptKDF := {
  Scrypt_DeriveKey : nat → bytes → bytes → Z → Z → Z → result (Z * bytes);
}.
(** The parameters that the standard (RFC 7914) and [ValidateParameters] of
    Crypto++ admit: a key length up to (2^32 - 1) * 32, a cost that is a power
    of two greater than 1 and less than 2^(128 * r / 8), a positive block size and
    parallelization whose product is below 2^30; the working memory of
    128 * r * n bytes is at most 2 GiB, so that its size does not overflow and
    it can be allocated. *)
Definition scrypt_params_ok (keySize : nat) (n r p : Z) : Prop :=
  1 ≤ Z.of_nat keySize ≤ (2 ^ 32 - 1) * 32 ∧ (∃ k, 1 ≤ k < 128 * r / 8 ∧ n = 2 ^ k) ∧
  1 ≤ r ∧ 1 ≤ p ∧ r * p < 2 ^ 30 ∧ 128 * r * n ≤ 2 ^ 31.
Class ScryptLaws `{!ScryptKDF} := {
  scrypt_derives keySize password salt n r p : scrypt_params_ok keySize n r p →
    ∃ key, Scrypt_DeriveKey keySize password salt n r p = Ok (1, key) ∧ length key = keySize;
}.

Module SCrypt.
Record SCryptSettings := mkSettings { SALT_LEN : nat; N : Z; r : Z; p : Z }.
Definition ParanoidSettings : SCryptSettings := mkSettings 32 1048576 8 16.
Definition DefaultSettings : SCryptSettings := mkSettings 32 1048576 4 8.
Definition TestSettings : SCryptSettings := mkSettings 32 1024 1 2.

Section scrypt.
Context {kdf : ScryptKDF} {memory : Memory} {Rng : Type} {random : RandomGenerator Rng}.

Definition _derive (keySize : nat) (password : bytes) (kdfParameters : SCryptParameters.t) : result bytes :=
  '(status, result) ← Scrypt_DeriveKey keySize password (SCryptParameters._salt kdfParameters)
    (SCryptParameters._n kdfParameters) (SCryptParameters._r kdfParameters) (SCryptParameters._p kdfParameters) ;
  if decide (status ≠ 1) then mthrow (RuntimeError "Error running scrypt key derivation.") else mret result.

Definition _createNewSCryptParameters (settings : SCryptSettings) : M Rng SCryptParameters.t :=
  salt ← random_bytes (SALT_LEN settings) ; mret (SCryptParameters.mk salt (N settings) (r settings) (p settings)).

Definition deriveExistingKey (keySize : nat) (password kdfParameters : bytes) : result bytes :=
  parameters ← SCryptParameters.deserialize kdfParameters ;
  _derive keySize password parameters.

Definition deriveNewKey (settingsForNewKeys : SCryptSettings) (keySize : nat) (password : bytes) : M Rng (bytes * bytes) :=
  kdfParameters ← _createNewSCryptParameters settingsForNewKeys ;
  key ← lift (_derive keySize password kdfParameters) ;
  serialized ← lift (SCryptParameters.serialize kdfParameters) ;
  mret (key, serialized).
End scrypt.
End SCrypt.

(** ** CryKeyProvider.h: the interface, and its implementations *)
Record CryKeyProvider (Rng : Type) := mkProvider {
  requestKeyForExistingFilesystem : nat → bytes → M (world Rng) bytes;
  requestKeyForNewFilesystem : nat → M (world Rng) (bytes * bytes) }.
Arguments mkProvider {Rng}.
Arguments requestKeyForExistingFilesystem {Rng}. Arguments requestKeyForNewFilesystem {Rng}.

Section providers.
Context {kdf : ScryptKDF} {memory : Memory} {Rng : Type} {random : RandomGenerator Rng}.

(** CryPresetPasswordBasedKeyProvider.cpp; [save] says whether the pointer
    [_returnedHash] is set. *)
Definition saveEncryptionKey (save : bool) (encryptionKey : bytes) : M (world Rng) unit :=
  if save then modify (λ w, mkWorld (files w) (dirs w) (rng w) (Some encryptionKey)) else mret tt.
Definition CryPresetPasswordBasedKeyProvider (password : bytes) (settings : SCrypt.SCryptSettings) (save : bool) :
    CryKeyProvider Rng := mkProvider
  (λ keySize kdfParameters,
    encryptionKey ← lift (SCrypt.deriveExistingKey keySize password kdfParameters) ;
    saveEncryptionKey save encryptionKey ;;
    mret encryptionKey)
  (λ keySize,
    '(key, kdfParameters) ← with_rng (SCrypt.deriveNewKey settings keySize password) ;
    saveEncryptionKey save key ;;
    mret (key, kdfParameters)).

(** CryPasswordBasedKeyProvider.cpp; the two questions to the user are
    arguments. *)
Definition CryPasswordBasedKeyProvider (askExisting askNew : M (world Rng) bytes) (settings : SCrypt.SCryptSettings) :
    CryKeyProvider Rng := mkProvider
  (λ keySize kdfParameters,
    password ← askExisting ;
    lift (SCrypt.deriveExistingKey keySize password kdfParameters))
  (λ keySize,
    password ← askNew ;
    with_rng (SCrypt.deriveNewKey settings keySize password)).

(** CryDirectKeyProvider.cpp *)
Definition CryDirectKeyProvider (_encryptionKey : bytes) : CryKeyProvider Rng := mkProvider
  (λ keySize kdfParameters,
    ASSERT (bool_decide (length _encryptionKey = keySize)) "CryDirectKeyProvider: Invalid key size requested" ;;
    mret _encryptionKey)
  (λ keySize, mthrow (LogicError "CryDirectKeyProvider can't be used for new filesystems")).
End providers.

(** ** crypto/CryConfigEncryptorFactory.cpp *)
Section factory.
Context {crypto : CryptoPP} {memory : Memory} {Rng : Type} {random : RandomGenerator Rng}.

Definition loadExistingKey (data : bytes) (keyProvider : CryKeyProvider Rng) :
    M (world Rng) (option CryConfigEncryptor.t) :=
  outerConfig ← lift (OuterConfig.deserialize data) ;
  match outerConfig with
  | None => mret None
  | Some outerConfig =>
      key ← requestKeyForExistingFilesystem keyProvider CryConfigEncryptor.MaxTotalKeySize
        (OuterConfig.kdfParameters outerConfig) ;
      e ← lift (CryConfigEncryptor.new key (OuterConfig.kdfParameters outerConfig)) ;
      mret (Some e)
  end.

Definition deriveNewKey (keyProvider : CryKeyProvider Rng) : M (world Rng) CryConfigEncryptor.t :=
  '(key, kdfParameters) ← requestKeyForNewFilesystem keyProvider CryConfigEncryptor.MaxTotalKeySize ;
  lift (CryConfigEncryptor.new key kdfParameters).
End factory.

(** ** CryConfigFile.cpp *)
Module CryConfigFile.
Inductive Access := ReadOnly | ReadWrite.
Inductive LoadError := ConfigFileNotFound | DecryptionFailed.
Record t := mk { _path : path; _config : CryConfig.t; _encryptor : CryConfigEncryptor.t; _access : Access }.
#[global] Instance Access_eq_dec : EqDecision Access.
Proof. solve_decision. Defined.

Section file.
Context {crypto : CryptoPP} {memory : Memory} {boost : PropertyTree} {Rng : Type} {random : RandomGenerator Rng}.

Definition save (f : t) : M (world Rng) unit :=
  if decide (_access f = ReadOnly)
  then mthrow (LogicError "Tried to save the cryfs.config file while being in read only mode")
  else
    configData ← lift (CryConfig.save (_config f)) ;
    encrypted ← with_rng (CryConfigEncryptor.encrypt (_encryptor f) configData (CryConfig._cipher (_config f))) ;
    StoreToFile encrypted (_path f).

Definition load (p : path) (keyProvider : CryKeyProvider Rng) (access : Access) : M (world Rng) (LoadError + t) :=
  encryptedConfigData ← LoadFromFile p ;
  match encryptedConfigData with
  | None => mret (inl ConfigFileNotFound)
  | Some encryptedConfigData =>
      encryptor ← loadExistingKey encryptedConfigData keyProvider ;
      match encryptor with
      | None => mret (inl DecryptionFailed)
      | Some encryptor =>
          decrypted ← lift (CryConfigEncryptor.decrypt (Rng := Rng) encryptor encryptedConfigData) ;
          match decrypted with
          | None => mret (inl DecryptionFailed)
          | Some decrypted =>
              config ← with_rng (CryConfig.load (CryConfigEncryptor.data decrypted)) ;
              if decide (CryConfig._cipher config ≠ CryConfigEncryptor.cipherName decrypted)
              then mret (inl DecryptionFailed)
              else
                let configFile := mk p config encryptor access in
                (if CryConfigEncryptor.wasInDeprecatedConfigFormat decrypted
                 then (if decide (access = ReadWrite) then save configFile else mret tt)
                 else mret tt) ;;
                mret (inr configFile)
          end
      end
  end.

Definition create (p : path) (config : CryConfig.t) (keyProvider : CryKeyProvider Rng) : M (world Rng) t :=
  e ← exists_ p ;
  if (e : bool) then mthrow (RuntimeError "Config file exists already.")
  else
    encryptor ← deriveNewKey keyProvider ;
    let result := mk p config encryptor ReadWrite in
    save result ;;
    mret result.
End file.
End CryConfigFile.

(** ** Proofs *)
Definition same_disk {Rng} (w w' : world Rng) : Prop := files w' = files w ∧ dirs w' = dirs w.
#[global] Instance same_disk_preorder {Rng} : PreOrder (@same_disk Rng).
Proof. split; [done|]. intros ??? [??] [??]. split; congruence. Qed.

Section proofs.
Context {crypto : CryptoPP} {crypto_laws : CryptoPPLaws} {memory : Memory} {boost : PropertyTree}
  {boost_laws : PropertyTreeLaws} {kdf : ScryptKDF} {kdf_laws : ScryptLaws} {Rng : Type} {random : RandomGenerator Rng}.

Lemma runs_with_rng {A} (m : M Rng A) (w : world Rng) a r (Q : A → world Rng → Prop) :
  m (rng w) = (Ok a, r) → Q a (mkWorld (files w) (dirs w) r (returnedHash w)) → runs (with_rng m) w Q.
Proof. intros E HQ. eapply runs_eq; [|done]. unfold with_rng, zoom. by rewrite E. Qed.

(** What one component promises to the other: a new key comes with
    parameters for which [pold] later gives the same key. *)
Definition gives_key (P : CryKeyProvider Rng) (kdfParameters key : bytes) : Prop := ∀ w,
  runs (requestKeyForExistingFilesystem P CryConfigEncryptor.MaxTotalKeySize kdfParameters) w
    (λ key' w', key' = key ∧ same_disk w w').
Definition matching (pnew pold : CryKeyProvider Rng) : Prop := ∀ w,
  runs (requestKeyForNewFilesystem pnew CryConfigEncryptor.MaxTotalKeySize) w (λ r w',
    encryptor_ok (CryConfigEncryptor.mk r.1 r.2) ∧ same_disk w w' ∧ gives_key pold r.2 r.1).

Definition settings_ok (s : SCrypt.SCryptSettings) : Prop :=
  Z.of_nat (SCrypt.SALT_LEN s) < 2 ^ 61 ∧
  scrypt_params_ok CryConfigEncryptor.MaxTotalKeySize (SCrypt.N s) (SCrypt.r s) (SCrypt.p s).

Lemma deriveNewKey_ok settings password (rng : Rng) : settings_ok settings →
  ∃ key params rng', SCrypt.deriveNewKey settings CryConfigEncryptor.MaxTotalKeySize password rng = (Ok (key, params), rng')
    ∧ encryptor_ok (CryConfigEncryptor.mk key params)
    ∧ SCrypt.deriveExistingKey CryConfigEncryptor.MaxTotalKeySize password params = Ok key.
Proof.
  intros [Hs Hok]. set (size := CryConfigEncryptor.MaxTotalKeySize).
  pose proof (get_bytes_length (SCrypt.SALT_LEN settings) rng) as Hl.
  destruct (get_bytes (SCrypt.SALT_LEN settings) rng) as [salt rng'] eqn:E; simpl in Hl.
  set (params := SCryptParameters.mk salt (SCrypt.N settings) (SCrypt.r settings) (SCrypt.p settings)).
  assert (0 ≤ SCrypt.N settings < 2 ^ 64 ∧ 0 ≤ SCrypt.r settings < 2 ^ 32 ∧ 0 ≤ SCrypt.p settings < 2 ^ 32) as (? & ? & ?).
  { destruct Hok as (_ & (k & Hk & ->) & Hr & Hp & Hrp & Hm). assert (0 ≤ 2 ^ k) by (apply Z.pow_nonneg; lia). nia. }
  assert (scrypt_ok params) as Hparams by (unfold scrypt_ok; simpl; lia).
  destruct (scrypt_derives size password salt _ _ _ Hok) as (key & Ek & Lk).
  assert (SCrypt._derive size password params = Ok key) as Ed by (unfold SCrypt._derive; cbn [SCryptParameters._salt SCryptParameters._n SCryptParameters._r SCryptParameters._p params]; by rewrite Ek).
  exists key, (scrypt_head params ++ salt), rng'. split_and!.
  - unfold SCrypt.deriveNewKey, SCrypt._createNewSCryptParameters, mbind, M_bind, random_bytes.
    rewrite E. csimp. fold params. by rewrite Ed, scrypt_serialize.
  - split; [done|]. simpl. unfold scrypt_head. len.
  - unfold SCrypt.deriveExistingKey. change salt with (SCryptParameters._salt params).
    by rewrite scrypt_roundtrip by done.
Qed.

Lemma preset_gives_key password settings save params key :
  SCrypt.deriveExistingKey CryConfigEncryptor.MaxTotalKeySize password params = Ok key →
  gives_key (CryPresetPasswordBasedKeyProvider password settings save) params key.
Proof.
  intros E w. eapply runs_bind_lift; [done|]. unfold saveEncryptionKey.
  destruct save; [apply runs_bind_modify|]; by apply runs_ret.
Qed.
Lemma direct_gives_key params key : length key = CryConfigEncryptor.MaxTotalKeySize →
  gives_key (CryDirectKeyProvider key) params key.
Proof. intros Hk w. apply runs_bind_assert; [by apply bool_decide_true|]. by apply runs_ret. Qed.
Lemma matching_preset password settings settings' save save' : settings_ok settings →
  matching (CryPresetPasswordBasedKeyProvider password settings save)
           (CryPresetPasswordBasedKeyProvider password settings' save').
Proof.
  intros Hs w. destruct (deriveNewKey_ok settings password (rng w) Hs) as (key & params & rng' & E & He & Ek).
  eapply runs_bind_eq; [unfold with_rng, zoom; by rewrite E|]. unfold saveEncryptionKey.
  destruct save; [apply runs_bind_modify|]; apply runs_ret; (split_and!; [done|done|by apply preset_gives_key]).
Qed.

(** What the file [file] decrypts to; [old] tells whether it has the
    deprecated format. *)
Definition decrypts (c : CryConfig.t) (e : CryConfigEncryptor.t) (old : bool) (file : bytes) : Prop :=
  ∃ text body, CryConfig.save c = Ok text
    ∧ OuterConfig.deserialize file = Ok (Some (OuterConfig.mk (CryConfigEncryptor._kdfParameters e) body old))
    ∧ CryConfigEncryptor.decrypt (Rng := Rng) e file =
        Ok (Some (CryConfigEncryptor.mkDecrypted text (CryConfig._cipher c) old)).

(** The file [file] holds the configuration [c], encrypted by [e]. *)
Definition stored (c : CryConfig.t) (e : CryConfigEncryptor.t) (file : bytes) : Prop := decrypts c e false file.
(** A configuration that can be encrypted: its text fits into the padding. *)
Definition storable (c : CryConfig.t) : Prop :=
  config_ok c ∧ CryConfig._cipher c ∈ CryCiphers.supportedCipherNames
  ∧ ∀ text, CryConfig.save c = Ok text → (length text < 896)%nat.

Lemma runs_save f (w : world Rng) (Q : unit → world Rng → Prop) :
  CryConfigFile._access f = CryConfigFile.ReadWrite → storable (CryConfigFile._config f) →
  encryptor_ok (CryConfigFile._encryptor f) → parent_path (CryConfigFile._path f) ∈ dirs w →
  (∀ file rng', stored (CryConfigFile._config f) (CryConfigFile._encryptor f) file →
    Q tt (mkWorld (<[CryConfigFile._path f := file]> (files w)) (dirs w) rng' (returnedHash w))) →
  runs (CryConfigFile.save f) w Q.
Proof.
  intros Ha (Hc & Hn & Hs) He Hp HQ. unfold CryConfigFile.save. rewrite Ha, decide_False by done.
  destruct (save_load (Rng := Rng) _ Hc) as (text & Et & _). eapply runs_bind_lift; [done|].
  destruct (find_supported _ Hn) as [cc Ef]. destruct (find_Ok _ _ Ef) as [Hcc Hname].
  destruct (encrypt_decrypt _ cc text (rng w) He Hcc (Hs text Et)) as (file & rng' & E & _ & [body D] & Dec).
  rewrite <- Hname. eapply runs_bind_eq; [unfold with_rng, zoom; by rewrite E|].
  unfold StoreToFile. apply runs_bind_get. rewrite decide_True by done.
  eexists _, _. split; [done|]. apply HQ. exists text, body. by rewrite <- Hname.
Qed.

(** Loading such a file reads the configuration; what is left is the
    migration. *)
Lemma load_decrypts (q : path) P access c e old file (w : world Rng) Q :
  files w !! q = Some file → decrypts c e old file → config_ok c → encryptor_ok e →
  gives_key P (CryConfigEncryptor._kdfParameters e) (CryConfigEncryptor._derivedKey e) →
  (∀ w', same_disk w w' →
    runs ((if old then (if decide (access = CryConfigFile.ReadWrite) then CryConfigFile.save (CryConfigFile.mk q c e access)
                        else mret tt) else mret tt) ;;
          mret (inr (CryConfigFile.mk q c e access))) w' Q) →
  runs (CryConfigFile.load q P access) w Q.
Proof.
  intros Hf (text & body & Et & D & Dec) Hc [He _] HP HQ. unfold CryConfigFile.load.
  eapply runs_bind_eq; [done|]. rewrite Hf. unfold loadExistingKey. rewrite D.
  destruct (save_load (Rng := Rng) c Hc) as (text' & Et' & Hl).
  assert (text' = text) as -> by congruence. eapply runs_bind.
  { apply (runs_bind_lift _ _ _ _ _ eq_refl). simpl. eapply runs_bind; [apply HP|]. intros key w' [-> Hw].
    eapply runs_bind_lift; [unfold CryConfigEncryptor.new, EncryptionKey.binaryLength; by rewrite He, bool_decide_true|].
    apply runs_ret. exact (conj eq_refl Hw : (λ o w', o = Some (CryConfigEncryptor.mk _ _) ∧ same_disk w w') _ _). }
  simpl. intros o w' [-> Hw]. destruct e as [key params]; simpl in *. eapply runs_bind_lift; [done|]. simpl.
  eapply runs_bind_eq; [unfold with_rng, zoom; by rewrite Hl|]. rewrite decide_False by tauto.
  apply HQ. by etrans.
Qed.

Lemma runs_load (q : path) P access c e file (w : world Rng) (Q : CryConfigFile.LoadError + CryConfigFile.t → world Rng → Prop) :
  files w !! q = Some file → stored c e file → config_ok c → encryptor_ok e →
  gives_key P (CryConfigEncryptor._kdfParameters e) (CryConfigEncryptor._derivedKey e) →
  (∀ w', same_disk w w' → Q (inr (CryConfigFile.mk q c e access)) w') →
  runs (CryConfigFile.load q P access) w Q.
Proof.
  intros Hf Hs Hc He HP HQ. apply (load_decrypts q P access c e false file); try done.
  intros w' Hw. eapply runs_bind_eq; [done|]. by apply runs_ret, HQ.
Qed.

(** A file in the old format is opened like one in the new format, and
    replaced by one when it may be written. *)
Lemma runs_load_old (q : path) P access c e file (w : world Rng) :
  files w !! q = Some file → decrypts c e true file → storable c → encryptor_ok e → parent_path q ∈ dirs w →
  gives_key P (CryConfigEncryptor._kdfParameters e) (CryConfigEncryptor._derivedKey e) →
  runs (CryConfigFile.load q P access) w (λ r w', r = inr (CryConfigFile.mk q c e access)
    ∧ match access with
      | CryConfigFile.ReadOnly => same_disk w w'
      | CryConfigFile.ReadWrite => ∃ file', stored c e file' ∧ files w' = <[q := file']> (files w)
      end).
Proof.
  intros Hf Hd Hc He Hp HP. pose proof Hc as (Hok & _). apply (load_decrypts q P access c e true file); try done.
  intros w' [Ef Ed]. destruct access; rewrite ?decide_False, ?decide_True by done.
  - eapply runs_bind_eq; [done|]. by apply runs_ret.
  - eapply runs_bind.
    + apply runs_save; [done..|by rewrite Ed|]. intros file' rng' Hs'.
      exact (ex_intro _ file' (conj Hs' eq_refl) : (λ _ w'', ∃ f, stored c e f ∧ files w'' = <[q := f]> (files w')) tt _).
    + simpl. intros _ w'' (file' & Hs' & E). apply runs_ret. split; [done|]. exists file'. by rewrite E, Ef.
Qed.

Lemma runs_create (q : path) c pnew pold (w : world Rng) (Q : CryConfigFile.t → world Rng → Prop) :
  files w !! q = None → q ∉ dirs w → parent_path q ∈ dirs w → storable c → matching pnew pold →
  (∀ e file w', encryptor_ok e → stored c e file →
    gives_key pold (CryConfigEncryptor._kdfParameters e) (CryConfigEncryptor._derivedKey e) →
    files w' = <[q := file]> (files w) → dirs w' = dirs w →
    Q (CryConfigFile.mk q c e CryConfigFile.ReadWrite) w') →
  runs (CryConfigFile.create q c pnew) w Q.
Proof.
  intros Hf Hd Hp Hc Hm HQ. unfold CryConfigFile.create. eapply runs_bind_eq; [done|].
  rewrite bool_decide_false by (rewrite Hf; intros [[??]|?]; done).
  eapply runs_bind; [unfold deriveNewKey; eapply runs_bind; [apply Hm|]|].
  { intros [key params] w' (He & Hw & HP). simpl in *. eapply runs_lift.
    - unfold CryConfigEncryptor.new, EncryptionKey.binaryLength. by rewrite bool_decide_true by apply He.
    - exact (conj He (conj Hw HP) : (λ e w', encryptor_ok e ∧ same_disk w w'
        ∧ gives_key pold (CryConfigEncryptor._kdfParameters e) (CryConfigEncryptor._derivedKey e))
        (CryConfigEncryptor.mk key params) _). }
  simpl. intros e w' (He & [Ef Ed] & HP).
  apply (runs_bind _ _ _ (λ _ w'', ∃ f, stored c e f ∧ files w'' = <[q := f]> (files w') ∧ dirs w'' = dirs w')).
  - apply runs_save; [done..|by rewrite Ed|]. intros file rng' Hs'. by exists file.
  - simpl. intros _ w'' (file & Hs' & E1 & E2). apply runs_ret. eapply HQ; [done..|by rewrite E1, Ef|congruence].
Qed.

(** Nothing but the two writing calls touches the disk. *)
Definition quiet (P : CryKeyProvider Rng) : Prop := ∀ size k w,
  same_disk w (requestKeyForExistingFilesystem P size k w).2.
Definition keeps_disk {A} (m : M (world Rng) A) : Prop := ∀ w, same_disk w (m w).2.

Lemma keeps_ret {A} (a : A) : keeps_disk (mret a).
Proof. by intros w. Qed.
Lemma keeps_throw {A} (ex : exn) : keeps_disk (mthrow ex : M (world Rng) A).
Proof. by intros w. Qed.
Lemma keeps_lift {A} (r : result A) : keeps_disk (lift r).
Proof. by intros w. Qed.
Lemma keeps_with_rng {A} (m : M Rng A) : keeps_disk (with_rng m).
Proof. intros w. unfold with_rng, zoom. by destruct (m (rng w)). Qed.
Lemma keeps_bind {A B} (m : M (world Rng) A) (k : A → M (world Rng) B) :
  keeps_disk m → (∀ a, keeps_disk (k a)) → keeps_disk (m ≫= k).
Proof.
  intros Hm Hk w. unfold mbind, M_bind. specialize (Hm w). destruct (m w) as [[a|ex] w']; [|done].
  etrans; [done|]. apply Hk.
Qed.
#[local] Hint Resolve keeps_ret keeps_throw keeps_lift keeps_with_rng keeps_bind : core.

Lemma quiet_preset password settings save : quiet (CryPresetPasswordBasedKeyProvider password settings save).
Proof.
  intros size k. apply (keeps_bind (lift _)); [auto|]. intros key. apply keeps_bind; [|auto].
  unfold saveEncryptionKey. destruct save; [by intros w|apply keeps_ret].
Qed.
Lemma quiet_direct key : quiet (CryDirectKeyProvider key).
Proof. intros size k w. cbn. unfold mbind, M_bind. unfold ASSERT. by case_bool_decide. Qed.

Lemma load_keeps_disk (q : path) P access : quiet P → access = CryConfigFile.ReadOnly →
  keeps_disk (CryConfigFile.load q P access).
Proof.
  intros HP Ha. apply keeps_bind; [by intros w|]. intros [file|]; [|auto].
  apply keeps_bind.
  { apply keeps_bind; [auto|]. intros [o|]; [|auto]. apply keeps_bind; [intros w; apply HP|auto]. }
  intros [e|]; [|auto]. apply keeps_bind; [auto|]. intros [d|]; [|auto]. apply keeps_bind; [auto|].
  intros c. case_decide; [auto|]. apply keeps_bind; [|auto].
  destruct (CryConfigEncryptor.wasInDeprecatedConfigFormat d); [|auto]. rewrite decide_False by congruence. auto.
Qed.
End proofs.

(** ** A key derivation to run the definitions on *)
Module ToyKdf.
#[export] Instance kdf : ScryptKDF := {
  Scrypt_DeriveKey keySize password salt _ _ _ := Ok (1, take keySize (password ++ salt ++ replicate keySize x2a)) }.
#[export] Instance kdf_laws : ScryptLaws.
Proof.
  split. intros keySize password salt n r p _. eexists. split; [done|].
  rewrite length_take, !length_app, length_replicate. lia.
Qed.
End ToyKdf.
Lemma TestSettings_ok : settings_ok SCrypt.TestSettings.
Proof. split; [by vm_compute|]. split; [by vm_compute|]. split; [by exists 10|]. by vm_compute. Qed.
