(* ===== verification/OnDisk.v ===== *)
(** * The block store on the disk (blockstore/implementations/ondisk)

    A block is a file with a format header, below a directory that is named
    after the first three hex digits of the block id. [OnDiskBlockStore2]
    keeps no state of its own; its state is the file system of the machine,
    the [world] of ConfigFile.v, where it shares the base directory with the
    configuration file. *)
From S2P Require Import Prelude Serialization BlockStore Cipher CryCipher ConfigFile.
From Stdlib Require Import Lia ZArith.
Open Scope Z_scope.

(** ** boost::filesystem, as far as the store uses it *)
Section boost.
Context {Rng : Type}.
Definition is_regular_file (p : path) (w : world Rng) : bool := bool_decide (is_Some (files w !! p)).
Definition is_directory (p : path) (w : world Rng) : bool := bool_decide (p ∈ dirs w).
(** The entries of a directory, in any order. *)
Definition directory_iterator (p : path) (w : world Rng) : list path :=
  filter (λ q, q ≠ [] ∧ parent_path q = p) (elements (dom (files w) ∪ dirs w)).
Definition is_empty (p : path) (w : world Rng) : bool := bool_decide (directory_iterator p w = []).
(** [bf::filename] *)
Definition filename (p : path) : bytes := default [] (last p).
(** [bf::remove]: a file or an empty directory; true if there was one. *)
Definition bf_remove (p : path) : M (world Rng) bool :=
  w ← get_state ;
  if is_regular_file p w then put_state (set_files (delete p (files w)) w) ;; mret true
  else if is_directory p w then
    if is_empty p w then put_state (mkWorld (files w) (dirs w ∖ {[p]}) (rng w) (returnedHash w)) ;; mret true
    else mthrow (RuntimeError "boost::filesystem::remove")
  else mret false.
(** [bf::create_directory]: the parent has to exist; an existing directory is
    left as it is. *)
Definition create_directory (p : path) : M (world Rng) bool :=
  w ← get_state ;
  if is_directory p w then mret false
  else if is_regular_file p w || negb (is_directory (parent_path p) w) then mthrow (RuntimeError "boost::filesystem::create_directory")
  else put_state (mkWorld (files w) ({[p]} ∪ dirs w) (rng w) (returnedHash w)) ;; mret true.
End boost.

(** ** OnDiskBlockStore2.cpp *)
Module OnDiskBlockStore2.
Definition FORMAT_VERSION_HEADER_PREFIX : bytes := str "cryfs;block;".
Definition FORMAT_VERSION_HEADER : bytes := FORMAT_VERSION_HEADER_PREFIX ++ str "0".
Definition PREFIX_LENGTH : nat := 3.
Definition POSTFIX_LENGTH : nat := 2 * BlockId.BINARY_LENGTH - PREFIX_LENGTH.
Definition ALLOWED_BLOCKID_CHARACTERS : bytes := str "0123456789ABCDEF".
Definition formatVersionHeaderSize : nat := length FORMAT_VERSION_HEADER + 1.
(** The header in a file ends with the null byte of the C string. *)
Definition header : bytes := FORMAT_VERSION_HEADER ++ [x00].

(** [0 == memcmp(data, expected, n)] reads [n] bytes of both. *)
Definition memcmp_equal (data expected : bytes) : result bool :=
  found ← Data.memcpy_from data 0 (length expected) ; mret (bool_decide (found = expected)).
Definition _isAcceptedCryfsHeader (data : bytes) : result bool := memcmp_equal data header.
Definition _isOtherCryfsHeader (data : bytes) : result bool := memcmp_equal data FORMAT_VERSION_HEADER_PREFIX.
Definition _checkAndRemoveHeader (data : bytes) : result bytes :=
  accepted ← _isAcceptedCryfsHeader data ;
  if (accepted : bool) then
    Data.memcpy_from data formatVersionHeaderSize (length data - formatVersionHeaderSize)
  else
    other ← _isOtherCryfsHeader data ;
    if (other : bool)
    then mthrow (RuntimeError "This block is not supported yet. Maybe it was created with a newer version of CryFS?")
    else mthrow (RuntimeError "This is not a valid block.").

Section store.
Context {crypto : CryptoPP} {Rng : Type} (_rootDir : path) (free_disk_space_in_bytes : world Rng → Z).
Abbreviation st := (world Rng).

Definition _getFilepath (blockId : bytes) : result path :=
  blockIdStr ← FixedSizeData_ToString blockId ;
  mret (_rootDir ++ [take PREFIX_LENGTH blockIdStr; drop PREFIX_LENGTH blockIdStr]).

Definition store (blockId data : bytes) : M st unit :=
  lift (Data.check_alloc (Z.of_nat (formatVersionHeaderSize + length data))) ;;
  let fileContent := header ++ data in
  filepath ← lift (_getFilepath blockId) ;
  _ ← create_directory (parent_path filepath) ;
  StoreToFile fileContent filepath.
Definition tryCreate (blockId data : bytes) : M st bool :=
  filepath ← lift (_getFilepath blockId) ;
  e ← exists_ filepath ;
  if (e : bool) then mret false else store blockId data ;; mret true.
Definition remove (blockId : bytes) : M st bool :=
  filepath ← lift (_getFilepath blockId) ;
  w ← get_state ;
  if negb (is_regular_file filepath w) then mret false
  else
    retval ← bf_remove filepath ;
    if negb retval then mret false
    else
      w ← get_state ;
      (if is_empty (parent_path filepath) w then _ ← bf_remove (parent_path filepath) ; mret tt else mret tt) ;;
      mret true.
Definition load (blockId : bytes) : M st (option bytes) :=
  filepath ← lift (_getFilepath blockId) ;
  fileContent ← LoadFromFile filepath ;
  match fileContent with
  | None => mret None
  | Some fileContent => data ← lift (_checkAndRemoveHeader fileContent) ; mret (Some data)
  end.

(** The base directory exists while the store is used; without it the
    iteration would throw. *)
Definition numBlocks (w : st) : Z :=
  foldl (λ count prefixDir,
    if is_directory prefixDir w then u64 (count + Z.of_nat (length (directory_iterator prefixDir w))) else count)
    0 (directory_iterator _rootDir w).
Definition estimateNumFreeBytes (w : st) : Z := free_disk_space_in_bytes w.
Definition blockSizeFromPhysicalBlockSize (_ : st) (blockSize : Z) : Z :=
  if decide (blockSize ≤ Z.of_nat formatVersionHeaderSize) then 0 else blockSize - Z.of_nat formatVersionHeaderSize.

(** [find_first_not_of(...) == npos] *)
Definition allowed (s : bytes) : bool := bool_decide (Forall (λ c, c ∈ ALLOWED_BLOCKID_CHARACTERS) s).
Fixpoint ids_of (blockIdPrefix : bytes) (blocks : list path) : result (list bytes) :=
  match blocks with
  | [] => mret []
  | block :: blocks' =>
      let blockIdPostfix := filename block in
      if bool_decide (length blockIdPostfix = POSTFIX_LENGTH) && allowed blockIdPostfix then
        id ← FixedSizeData_FromString BlockId.BINARY_LENGTH (blockIdPrefix ++ blockIdPostfix) ;
        ids ← ids_of blockIdPrefix blocks' ; mret (id :: ids)
      else ids_of blockIdPrefix blocks'
  end.
Fixpoint ids_below (w : st) (prefixDirs : list path) : result (list bytes) :=
  match prefixDirs with
  | [] => mret []
  | prefixDir :: prefixDirs' =>
      let blockIdPrefix := filename prefixDir in
      if is_directory prefixDir w && bool_decide (length blockIdPrefix = PREFIX_LENGTH) && allowed blockIdPrefix then
        ids ← ids_of blockIdPrefix (directory_iterator prefixDir w) ;
        ids' ← ids_below w prefixDirs' ; mret (ids ++ ids')
      else ids_below w prefixDirs'
  end.
(** The ids the callback is called with. *)
Definition forEachBlock : M st (list bytes) := λ w, (ids_below w (directory_iterator _rootDir w), w).

#[export] Instance ops : BlockStore2 st := {
  BlockStore.tryCreate := tryCreate; BlockStore.remove := remove; BlockStore.load := load;
  BlockStore.store := store; BlockStore.numBlocks := numBlocks;
  BlockStore.estimateNumFreeBytes := estimateNumFreeBytes;
  BlockStore.blockSizeFromPhysicalBlockSize := blockSizeFromPhysicalBlockSize;
  BlockStore.forEachBlock := forEachBlock }.
End store.

(** ** The store is a map of blocks *)

(** The hex digits of Crypto++ are upper case letters by default. *)
Class HexUppercase {crypto : CryptoPP} : Prop := hex_allowed d : Forall (λ c, c ∈ ALLOWED_BLOCKID_CHARACTERS) (hex_encode d).

Section refinement.
Context {crypto : CryptoPP} {laws : CryptoPPLaws} {upper : HexUppercase} {Rng : Type} (_rootDir : path).
Implicit Types (w : world Rng) (m : gmap bytes bytes).

Definition prefix_dir (id : bytes) : path := _rootDir ++ [take PREFIX_LENGTH (hex_encode id)].
Definition block_path (id : bytes) : path := _rootDir ++ [take PREFIX_LENGTH (hex_encode id); drop PREFIX_LENGTH (hex_encode id)].
Definition limit : Z := 2 ^ 63 - 1 - 14.

(** The files below the base directory: one per block, in the directory of
    its prefix, and nothing else two levels deep. The configuration file and
    others may lie in the base directory itself. *)
Record represents (n : nat) w m : Prop := {
  rep_root : _rootDir ∈ dirs w;
  rep_files id : BlockId.valid id → files w !! block_path id = (λ data, header ++ data) <$> m !! id;
  rep_blocks : map_Forall (λ id data, BlockId.valid id ∧ Z.of_nat (length data) ≤ limit) m;
  rep_dirs id : is_Some (m !! id) → prefix_dir id ∈ dirs w;
  rep_prefix id : BlockId.valid id → files w !! prefix_dir id = None;
  rep_only d name : _rootDir ++ [d; name] ∈ dom (files w) ∪ dirs w → ∃ id, is_Some (m !! id) ∧ _rootDir ++ [d; name] = block_path id;
  rep_no_dir id : BlockId.valid id → block_path id ∉ dirs w }.

Lemma getFilepath_eq id : _getFilepath _rootDir id = Ok (block_path id).
Proof. unfold _getFilepath. destruct (FixedSizeData_string_roundtrip id) as [-> _]. done. Qed.
Lemma parent_block id : parent_path (block_path id) = prefix_dir id.
Proof.
  unfold parent_path, block_path, prefix_dir. rewrite length_app. simpl. replace (length _rootDir + 2 - 1)%nat with (length _rootDir + 1)%nat by lia.
  by rewrite firstn_app_2.
Qed.
Lemma parent_prefix id : parent_path (prefix_dir id) = _rootDir.
Proof. unfold parent_path, prefix_dir. rewrite length_app. simpl. replace (length _rootDir + 1 - 1)%nat with (length _rootDir) by lia. apply take_app_length. Qed.
Lemma hex_inj id id' : hex_encode id = hex_encode id' → id = id'.
Proof. intros E. by rewrite <- (hex_inverse id), E, hex_inverse. Qed.
Lemma block_path_inj id id' : block_path id = block_path id' → id = id'.
Proof.
  intros [= E1 E2]%app_inv_head. apply hex_inj. rewrite <- (take_drop PREFIX_LENGTH (hex_encode id)), E1, E2. apply take_drop.
Qed.
#[local] Instance block_path_Inj : Inj (=) (=) block_path.
Proof. exact block_path_inj. Qed.
Lemma prefix_not_block id id' : prefix_dir id ≠ block_path id'.
Proof. intros E%(f_equal length). unfold prefix_dir, block_path in E. rewrite !length_app in E. simpl in E. lia. Qed.
Lemma block_path_cons id : block_path id ≠ [].
Proof. intros E%(f_equal length). unfold block_path in E. rewrite length_app in E. simpl in E. lia. Qed.
Lemma header_length : length header = formatVersionHeaderSize.
Proof. done. Qed.
Lemma check_header data : _checkAndRemoveHeader (header ++ data) = Ok data.
Proof.
  unfold _checkAndRemoveHeader, _isAcceptedCryfsHeader, memcmp_equal. rewrite (Data.memcpy_from_ok _ 0 (length header)) by (rewrite (length_app header); lia). csimp.
  rewrite slice_app_head by done. rewrite bool_decide_true by done. rewrite (length_app header), header_length.
  rewrite Data.memcpy_from_ok by (rewrite (length_app header), header_length; lia). f_equal.
  replace (formatVersionHeaderSize + length data - formatVersionHeaderSize)%nat with (length data) by lia.
  rewrite <- header_length. unfold slice. rewrite drop_app_length. by rewrite firstn_all.
Qed.

Lemma load_repr n w m id : BlockId.valid id → represents n w m → load _rootDir id w = (Ok (m !! id), w).
Proof.
  intros Hid Hr. unfold load. rewrite getFilepath_eq. unfold lift, LoadFromFile, get_state, mbind, M_bind. csimp. rewrite (rep_files _ _ _ Hr id Hid).
  destruct (m !! id) as [data|]; [|done]. cbn [fmap option_fmap option_map]. by rewrite check_header.
Qed.

(** *** Directories *)
Lemma elem_iterator p w q : q ∈ directory_iterator p w ↔ q ≠ [] ∧ parent_path q = p ∧ q ∈ dom (files w) ∪ dirs w.
Proof. unfold directory_iterator. rewrite list_elem_of_filter, elem_of_elements. tauto. Qed.
Lemma iterator_name p w q : q ∈ directory_iterator p w → ∃ name, q = p ++ [name].
Proof.
  intros (Hq & <- & _)%elem_iterator. destruct q as [|x q _] using rev_ind; [done|]. exists x. unfold parent_path. rewrite length_app. simpl.
  replace (length q + 1 - 1)%nat with (length q) by lia. by rewrite take_app_length.
Qed.
Lemma create_directory_repr n w m id : represents n w m → BlockId.valid id →
  ∃ b w', create_directory (prefix_dir id) w = (Ok b, w') ∧ represents n w' m ∧ prefix_dir id ∈ dirs w' ∧ files w' = files w.
Proof.
  intros Hr Hid. unfold create_directory, is_directory, is_regular_file. unfold get_state, mbind, M_bind. csimp.
  case_bool_decide as Hd; [by exists false, w|]. rewrite (rep_prefix _ _ _ Hr id Hid), parent_prefix.
  rewrite (bool_decide_false (is_Some None)) by (by intros []). rewrite bool_decide_true by apply Hr. simpl. eexists true, _. split; [done|]. simpl. split; [|set_solver].
  destruct Hr as [H1 H2 H3 H4 H5 H6 H7]. split; simpl; try done; [set_solver|set_solver| |].
  - intros d name H. apply H6. revert H. rewrite !elem_of_union, elem_of_singleton. intros [?|[E|?]]; [by left| |by right].
    exfalso. apply (f_equal length) in E. unfold prefix_dir in E. rewrite !length_app in E. simpl in E. lia.
  - intros id' Hid' [E%elem_of_singleton|H]%elem_of_union; [by apply (prefix_not_block id id')|by apply (H7 id')].
Qed.

Lemma store_repr n w m id data : BlockId.valid id → Z.of_nat (length data) ≤ limit → represents n w m →
  ∃ w', store _rootDir id data w = (Ok tt, w') ∧ represents n w' (<[id := data]> m).
Proof.
  intros Hid Hd Hr. destruct (create_directory_repr _ _ _ _ Hr Hid) as (b & w1 & E & Hr1 & Hdir & _).
  exists (set_files (<[block_path id := header ++ data]> (files w1)) w1). split.
  { unfold store. rewrite getFilepath_eq. unfold Data.check_alloc. rewrite decide_True by (unfold limit in Hd; change formatVersionHeaderSize with 14%nat; lia).
    erewrite bind_ok by done. cbv zeta. erewrite bind_ok by done. rewrite parent_block. erewrite bind_ok by exact E.
    unfold StoreToFile. erewrite bind_ok by done. rewrite parent_block. by rewrite decide_True. }
  destruct Hr1 as [H1 H2 H3 H4 H5 H6 H7]. split; simpl; try done.
  - intros id' Hid'. destruct (decide (id = id')) as [<-|Hne]; [by rewrite !lookup_insert_eq|].
    rewrite !lookup_insert_ne by (try intros ?%block_path_inj; done). by apply H2.
  - by apply map_Forall_insert_2.
  - intros id' Hs. destruct (decide (id = id')) as [<-|Hne]; [done|]. rewrite lookup_insert_ne in Hs by done. by apply H4.
  - intros id' Hid'. rewrite lookup_insert_ne by (intros E'; by apply (prefix_not_block id' id)). by apply H5.
  - intros d name H. rewrite dom_insert_L, <- (assoc_L (∪)), elem_of_union, elem_of_singleton in H. destruct H as [->|H]; [exists id; by rewrite lookup_insert_eq|].
    destruct (H6 _ _ H) as (id' & Hs & ->). exists id'. split; [|done]. destruct (decide (id = id')) as [<-|]; [by rewrite lookup_insert_eq|by rewrite lookup_insert_ne].
Qed.

Lemma remove_missing n w m id : BlockId.valid id → represents n w m → m !! id = None → remove _rootDir id w = (Ok false, w).
Proof.
  intros Hid Hr Hm. unfold remove. rewrite getFilepath_eq. erewrite bind_ok by done. erewrite bind_ok by done.
  unfold is_regular_file. rewrite (rep_files _ _ _ Hr id Hid), Hm. by rewrite bool_decide_false by (by intros []).
Qed.
(** A removed file and the directory it leaves empty. *)
Lemma remove_file_repr n w m id : represents n w m → BlockId.valid id → represents n (set_files (delete (block_path id) (files w)) w) (delete id m).
Proof.
  intros [H1 H2 H3 H4 H5 H6 H7] Hid. split; simpl; try done.
  - intros id' Hid'. destruct (decide (id = id')) as [<-|Hne]; [by rewrite !lookup_delete_eq|].
    rewrite !lookup_delete_ne by (try intros ?%block_path_inj; done). by apply H2.
  - by apply map_Forall_delete.
  - intros id' [d Hs]. apply lookup_delete_Some in Hs as [_ Hs]. apply H4. by eexists.
  - intros id' Hid'. rewrite lookup_delete_ne by (intros E'; by apply (prefix_not_block id' id)). by apply H5.
  - intros d name H. rewrite dom_delete_L, elem_of_union, elem_of_difference, elem_of_singleton in H.
    destruct (decide (_rootDir ++ [d; name] = block_path id)) as [E|Hne].
    { exfalso. destruct H as [[_ ?]|H]; [done|]. rewrite E in H. by apply (H7 id). }
    destruct (H6 d name) as (id' & Hs & E); [set_solver|]. exists id'. split; [|done]. rewrite lookup_delete_ne; [done|]. intros <-. done.
Qed.
Lemma remove_dir_repr n w m id : represents n w m → is_empty (prefix_dir id) w = true →
  represents n (mkWorld (files w) (dirs w ∖ {[prefix_dir id]}) (rng w) (returnedHash w)) m.
Proof.
  intros [H1 H2 H3 H4 H5 H6 H7] He%bool_decide_eq_true. split; simpl; try done.
  - apply elem_of_difference. split; [done|]. rewrite elem_of_singleton. intros E%(f_equal length). unfold prefix_dir in E. rewrite length_app in E. simpl in E. lia.
  - intros id' Hs. apply elem_of_difference. split; [by apply H4|]. rewrite elem_of_singleton. intros E.
    assert (block_path id' ∈ directory_iterator (prefix_dir id) w) as Hin.
    { apply elem_iterator. split; [apply block_path_cons|]. split; [by rewrite parent_block|]. apply elem_of_union_l, elem_of_dom.
      destruct Hs as [d Hs]. rewrite H2 by (by apply H3 in Hs as []). rewrite Hs. by eexists. }
    rewrite He in Hin. by apply elem_of_nil in Hin.
  - intros d name H. apply H6. set_solver.
  - intros id' Hid' H. apply elem_of_difference in H as [H _]. by apply (H7 id').
Qed.
Lemma remove_repr n w m id : BlockId.valid id → represents n w m →
  ∃ w', remove _rootDir id w = (Ok (bool_decide (is_Some (m !! id))), w') ∧ represents n w' (delete id m).
Proof.
  intros Hid Hr. destruct (m !! id) as [data|] eqn:Hm.
  2:{ exists w. rewrite (remove_missing n w m), delete_id by done. split; [|done]. by rewrite bool_decide_false by (by intros []). }
  pose proof (rep_files _ _ _ Hr id Hid) as Hf. rewrite Hm in Hf. simpl in Hf.
  pose proof (remove_file_repr _ _ _ _ Hr Hid) as Hr1. set (w1 := set_files _ w) in Hr1.
  exists (if is_empty (prefix_dir id) w1 then mkWorld (files w1) (dirs w1 ∖ {[prefix_dir id]}) (rng w1) (returnedHash w1) else w1). split.
  - unfold remove. rewrite getFilepath_eq. erewrite bind_ok by done. erewrite bind_ok by done. rewrite parent_block.
    assert (is_regular_file (block_path id) w = true) as Hreg by (apply bool_decide_true; by eexists). rewrite Hreg. cbn [negb].
    erewrite (bind_ok _ _ w true w1) by (unfold bf_remove; erewrite bind_ok by done; rewrite Hreg; by erewrite bind_ok by done). cbn [negb].
    erewrite bind_ok by done. rewrite (bool_decide_true (is_Some _)) by by eexists.
    destruct (is_empty (prefix_dir id) w1) eqn:He; [|done].
    assert (bf_remove (prefix_dir id) w1 = (Ok true, mkWorld (files w1) (dirs w1 ∖ {[prefix_dir id]}) (rng w1) (returnedHash w1))) as E.
    { unfold bf_remove. erewrite bind_ok by done. unfold is_regular_file, is_directory. rewrite (rep_prefix _ _ _ Hr1 id Hid).
      rewrite (bool_decide_false (is_Some None)) by (by intros []). rewrite bool_decide_true by (apply (rep_dirs _ _ _ Hr id); by eexists). by rewrite He. }
    erewrite bind_ok; [done|]. by erewrite bind_ok by exact E.
  - destruct (is_empty (prefix_dir id) w1) eqn:He; [by apply remove_dir_repr|done].
Qed.

(** *** Counting and listing *)
Definition block_dirs w : list path := filter (λ d, d ∈ dirs w) (directory_iterator _rootDir w).
Definition block_files w : list path := block_dirs w ≫= λ d, directory_iterator d w.

Lemma iterator_NoDup p w : NoDup (directory_iterator p w).
Proof. apply NoDup_filter, NoDup_elements. Qed.
Lemma elem_block_files n w m q : represents n w m → q ∈ block_files w ↔ ∃ id, is_Some (m !! id) ∧ q = block_path id.
Proof.
  intros Hr. unfold block_files, block_dirs. rewrite list_elem_of_bind. split.
  - intros (d & Hq & [Hd Hd']%list_elem_of_filter). destruct (iterator_name _ _ _ Hd') as [x ->]. destruct (iterator_name _ _ _ Hq) as [y ->].
    apply elem_iterator in Hq as (_ & _ & Hq). rewrite <- app_assoc in *. by apply (rep_only _ _ _ Hr).
  - intros (id & Hs & ->). exists (prefix_dir id). pose proof Hs as [data Hd]. apply (rep_blocks _ _ _ Hr) in Hd as Hv. destruct Hv as [Hv _]. split.
    + apply elem_iterator. split; [apply block_path_cons|]. split; [apply parent_block|]. apply elem_of_union_l, elem_of_dom.
      rewrite (rep_files _ _ _ Hr id Hv), Hd. by eexists.
    + apply list_elem_of_filter. split; [by apply (rep_dirs _ _ _ Hr)|]. apply elem_iterator. split.
      * intros E%(f_equal length). unfold prefix_dir in E. rewrite length_app in E. simpl in E. lia.
      * split; [apply parent_prefix|]. apply elem_of_union_r. by apply (rep_dirs _ _ _ Hr).
Qed.
Lemma block_files_perm n w m : represents n w m → block_files w ≡ₚ block_path <$> (map_to_list m).*1.
Proof.
  intros Hr. apply NoDup_Permutation.
  - apply NoDup_bind.
    + intros d1 d2 q _ _ (_ & <- & _)%elem_iterator (_ & <- & _)%elem_iterator. done.
    + intros d _. apply iterator_NoDup.
    + apply NoDup_filter, iterator_NoDup.
  - apply NoDup_fmap_2; [exact block_path_inj|]. apply NoDup_fst_map_to_list.
  - intros q. rewrite (elem_block_files n w m) by done. rewrite list_elem_of_fmap. split.
    + intros (id & [d Hs] & ->). exists id. split; [done|]. apply list_elem_of_fmap. exists (id, d). split; [done|]. by apply elem_of_map_to_list.
    + intros (id & -> & ([id' d] & -> & Hin)%list_elem_of_fmap). exists id'. split; [|done]. apply elem_of_map_to_list in Hin. by eexists.
Qed.

Lemma numBlocks_fold w ds : ∀ count, 0 ≤ count →
  u64 (foldl (λ count prefixDir, if is_directory prefixDir w then u64 (count + Z.of_nat (length (directory_iterator prefixDir w))) else count) count ds)
  = u64 (count + Z.of_nat (length (filter (λ d, d ∈ dirs w) ds ≫= λ d, directory_iterator d w))).
Proof.
  induction ds as [|d ds IH]; intros count Hc; simpl; [f_equal; lia|]. unfold is_directory at 2. rewrite filter_cons.
  case_bool_decide as Hd; [rewrite decide_True by done|rewrite decide_False by done; by apply IH].
  rewrite IH by apply u64_range. csimpl. rewrite length_app, Nat2Z.inj_add. unfold u64. rewrite Zplus_mod_idemp_l. f_equal. lia.
Qed.
Lemma numBlocks_repr n w m : represents n w m → numBlocks _rootDir w = u64 (Z.of_nat (size m)).
Proof.
  intros Hr. assert (∀ ds c, 0 ≤ c < 2 ^ 64 → 0 ≤ foldl (λ count prefixDir, if is_directory prefixDir w then u64 (count + Z.of_nat (length (directory_iterator prefixDir w))) else count) c ds < 2 ^ 64) as Hrange.
  { induction ds as [|d ds IH]; intros c Hc; simpl; [done|]. apply IH. destruct (is_directory d w); [apply u64_range|done]. }
  unfold numBlocks. rewrite <- (u64_small (foldl _ _ _)) by (apply Hrange; lia). rewrite numBlocks_fold by lia.
  change (filter _ _ ≫= _) with (block_files w). rewrite (Permutation_length (block_files_perm _ _ _ Hr)). by rewrite !length_fmap, length_map_to_list.
Qed.

Lemma allowed_hex (f : bytes → bytes) id : (∀ l, f l ⊆ l) → allowed (f (hex_encode id)) = true.
Proof.
  intros Hf. apply bool_decide_true, Forall_forall. intros c Hc. apply Hf in Hc. by eapply Forall_forall in Hc; [|apply (hex_allowed id)].
Qed.
Lemma ids_of_ok pre blocks : Forall (λ b, ∃ id, BlockId.valid id ∧ b = block_path id ∧ take PREFIX_LENGTH (hex_encode id) = pre) blocks →
  ∃ ids, ids_of pre blocks = Ok ids ∧ block_path <$> ids = blocks.
Proof.
  induction 1 as [|b blocks (id & Hv & -> & Hp) _ (ids & E & Hids)]; [by exists []|]. exists (id :: ids). simpl.
  assert (filename (block_path id) = drop PREFIX_LENGTH (hex_encode id)) as ->.
  { unfold filename, block_path. change [?x; ?y] with ([x] ++ [y]). by rewrite app_assoc, last_snoc. }
  rewrite bool_decide_true by (rewrite length_drop, hex_encode_length, Hv; done). rewrite (allowed_hex (drop PREFIX_LENGTH)) by (intros l; apply subseteq_drop). simpl.
  rewrite <- Hp, take_drop. destruct (FixedSizeData_string_roundtrip id) as [_ Hs]. rewrite Hv in Hs. rewrite Hs. csimp. rewrite Hp, E. split; [done|]. by rewrite <- Hids.
Qed.
Lemma ids_below_ok w ds : Forall (λ d, ∃ x, d = _rootDir ++ [x]) ds →
  (∀ d q, d ∈ dirs w → q ∈ directory_iterator d w → d ∈ ds → ∃ id, BlockId.valid id ∧ q = block_path id) →
  ∃ ids, ids_below w ds = Ok ids ∧ block_path <$> ids = filter (λ d, d ∈ dirs w) ds ≫= λ d, directory_iterator d w.
Proof.
  induction 1 as [|d ds [x ->] _ IH]; intros Hq; [by exists []|]. destruct IH as (ids & E & Hids); [intros d q H1 H2 H3; eapply Hq; [done..|by right]|].
  simpl. unfold is_directory. rewrite filter_cons. case_bool_decide as Hd; [rewrite decide_True by done|rewrite decide_False by done; by exists ids].
  assert (filename (_rootDir ++ [x]) = x) as -> by (unfold filename; by rewrite last_snoc). set (bs := directory_iterator (_rootDir ++ [x]) w).
  assert (Forall (λ b, ∃ id, BlockId.valid id ∧ b = block_path id ∧ take PREFIX_LENGTH (hex_encode id) = x) bs) as Hbs.
  { apply Forall_forall. intros b Hb. destruct (Hq (_rootDir ++ [x]) b) as (id & Hv & ->); [done|done|by left|]. exists id. do 2 (split; [done|]).
    apply elem_iterator in Hb as (_ & Hb & _). rewrite parent_block in Hb. unfold prefix_dir in Hb. by apply app_inv_head in Hb as [= ->]. }
  simpl. destruct (bool_decide (length x = PREFIX_LENGTH) && allowed x) eqn:Hx; simpl in *.
  - destruct (ids_of_ok _ _ Hbs) as (ids' & E' & Hids'). rewrite E'. csimp. rewrite E. exists (ids' ++ ids). split; [done|].
    rewrite fmap_app, Hids', Hids. done.
  - exists ids. split; [done|]. rewrite Hids. fold bs. destruct bs as [|b bs']; [done|]. exfalso. apply Forall_cons in Hbs as [(id & Hv & _ & <-) _].
    rewrite allowed_hex in Hx by (intros l; apply subseteq_take). rewrite bool_decide_true in Hx; [done|]. rewrite length_take, hex_encode_length, Hv. done.
Qed.
Lemma forEachBlock_repr n w m : represents n w m → ∃ ids, forEachBlock _rootDir w = (Ok ids, w) ∧ ids ≡ₚ (map_to_list m).*1.
Proof.
  intros Hr. destruct (ids_below_ok w (directory_iterator _rootDir w)) as (ids & E & Hids).
  - apply Forall_forall. intros d Hd. by eapply iterator_name.
  - intros d q Hd Hq Hin. destruct (elem_block_files n w m q Hr) as [H _]. destruct H as (id & [data Hs] & ->).
    + unfold block_files, block_dirs. apply list_elem_of_bind. exists d. split; [done|]. by apply list_elem_of_filter.
    + exists id. split; [|done]. by apply (rep_blocks _ _ _ Hr) in Hs as [].
  - exists ids. split; [unfold forEachBlock; by rewrite E|]. pose proof (block_files_perm _ _ _ Hr) as Hp. unfold block_files, block_dirs in Hp. rewrite <- Hids in Hp.
    destruct (Permutation_map_inv _ _ Hp) as (l & El & Hl). change (map block_path l) with (block_path <$> l) in El. apply (inj (fmap (M := list) block_path)) in El. rewrite El. by symmetry.
Qed.

Context (free : world Rng → Z).
#[local] Existing Instance ops.
#[export] Program Instance spec : @BlockStore2Spec (world Rng) (ops _rootDir free) := {
  repr := represents; maxSize := limit; refuses _ _ := True }.
Next Obligation. intros n w m id Hid Hr. exists w. split; [by eapply load_repr|done]. Qed.
Next Obligation.
  intros n w m id data Hid Hd Hr. destruct (store_repr _ _ _ _ _ Hid Hd Hr) as (w' & E & Hr'). exists w'. split; [done|].
  by destruct Hr'.
Qed.
Next Obligation.
  intros n w m id data Hid Hd Hf Hr. destruct (store_repr _ _ _ _ _ Hid Hd Hr) as (w' & E & Hr'). exists w'. split; [|by destruct Hr'].
  simpl. unfold tryCreate. rewrite getFilepath_eq. erewrite bind_ok by done. unfold exists_. rewrite bind_assoc. erewrite bind_ok by done. erewrite bind_ok by done.
  rewrite bool_decide_false; [by erewrite bind_ok by exact E|]. rewrite (rep_files _ _ _ Hr id Hid), Hf. intros [[? [=]]|H]. by apply (rep_no_dir _ _ _ Hr id).
Qed.
Next Obligation.
  intros n w m id data Hid _ [d Hd] _ Hr. exists w. split; [|done].
  simpl. unfold tryCreate. rewrite getFilepath_eq. erewrite bind_ok by done. unfold exists_. rewrite bind_assoc. erewrite bind_ok by done. erewrite bind_ok by done.
  rewrite bool_decide_true; [done|]. rewrite (rep_files _ _ _ Hr id Hid), Hd. by left.
Qed.
Next Obligation. intros n w m id Hid Hr. by apply remove_repr. Qed.
Next Obligation. intros n w m Hr. by eapply numBlocks_repr. Qed.
Next Obligation. intros n w m Hr. destruct (forEachBlock_repr _ _ _ Hr) as (ids & E & H). by exists ids, w. Qed.
Next Obligation. intros n w m id Hr [d Hd]. by apply (rep_blocks _ _ _ Hr) in Hd as []. Qed.
Next Obligation. intros n w m id d Hr Hd. by apply (rep_blocks _ _ _ Hr) in Hd as []. Qed.
Next Obligation. intros n n' w m _ []. by split. Qed.

(** Operations touch no file that is not a block. *)
Definition frame {A} (p : path) (op : M (world Rng) A) : Prop := ∀ w, files (op w).2 !! p = files w !! p.
Lemma frame_bind {A B} p (op : M (world Rng) A) (k : A → M (world Rng) B) : frame p op → (∀ a, frame p (k a)) → frame p (op ≫= k).
Proof. intros H Hk w. unfold mbind, M_bind. specialize (H w). destruct (op w) as [[a|e] w1]; simpl in *; [by rewrite Hk|done]. Qed.
Lemma frame_same {A} p (op : M (world Rng) A) : (∀ w, files (op w).2 = files w) → frame p op.
Proof. intros H w. by rewrite H. Qed.
Lemma frame_path {A} p id (k : path → M (world Rng) A) : frame p (k (block_path id)) → frame p (lift (_getFilepath _rootDir id) ≫= k).
Proof. rewrite getFilepath_eq. intros H w. apply H. Qed.

Lemma frame_create_directory p q : frame p (create_directory (Rng := Rng) q).
Proof.
  apply frame_same. intros w. unfold create_directory. erewrite bind_ok by done. destruct (is_directory q w); [done|]. by destruct (_ || _).
Qed.
Lemma frame_store p id data : p ≠ block_path id → frame p (store _rootDir id data).
Proof.
  intros Hp. unfold store. apply frame_bind; [by intros w|]. intros _. cbv zeta. apply frame_path.
  apply frame_bind; [apply frame_create_directory|]. intros _ w. unfold StoreToFile. erewrite bind_ok by done.
  case_decide; [|done]. simpl. by rewrite lookup_insert_ne.
Qed.
Lemma frame_bf_remove p q : p ≠ q → frame p (bf_remove (Rng := Rng) q).
Proof.
  intros Hp w. unfold bf_remove. erewrite bind_ok by done. destruct (is_regular_file _ w); [simpl; by rewrite lookup_delete_ne|].
  destruct (is_directory _ w); [by destruct (is_empty _ w)|done].
Qed.
Lemma frame_remove p id : p ≠ block_path id → p ≠ prefix_dir id → frame p (remove _rootDir id).
Proof.
  intros Hp Hq. unfold remove. apply frame_path, frame_bind; [by intros w|]. intros w1. destruct (is_regular_file _ w1); [|by intros w]. simpl.
  apply frame_bind; [by apply frame_bf_remove|]. intros [|]; [|by intros w]. simpl. apply frame_bind; [by intros w|]. intros w2. rewrite parent_block.
  destruct (is_empty _ w2); [|by intros w]. apply frame_bind; [|by intros _ w]. apply frame_bind; [by apply frame_bf_remove|by intros _ w].
Qed.
Lemma frame_load p id : frame p (load _rootDir id).
Proof.
  unfold load. apply frame_path, frame_bind; [by intros w|]. intros [d|]; [|by intros w]. apply frame_bind; [by intros w|by intros a w].
Qed.
Lemma frame_tryCreate p id data : p ≠ block_path id → frame p (tryCreate _rootDir id data).
Proof.
  intros Hp. unfold tryCreate. apply frame_path, frame_bind; [by intros w|]. intros [|]; [by intros w|]. apply frame_bind; [by apply frame_store|by intros _ w].
Qed.

#[local] Existing Instance ops.
Abbreviation run os w := (@run_ops (world Rng) (ops _rootDir free) os w).
Lemma frame_ops p os : (∀ id, p ≠ block_path id ∧ p ≠ prefix_dir id) → frame p (@run_ops (world Rng) (ops _rootDir free) os).
Proof.
  intros Hp. induction os as [|o os IH]; [by intros w|]. simpl. apply frame_bind.
  - destruct o as [id data|id data|id|id]; simpl; (apply frame_bind; [|by intros ? w]); destruct (Hp id).
    + by apply frame_store.
    + by apply frame_tryCreate.
    + by apply frame_remove.
    + apply frame_load.
  - intros r. apply frame_bind; [done|by intros ? w].
Qed.

(** C7. The files of the base directory are the blocks. From a base directory
    without blocks (other files may be there, but not under a name a block
    directory needs), every sequence of block operations with ids of 16
    bytes and data within the size limit returns what the same operations on a
    finite map return; in particular [tryCreate] of an id in use returns false
    and changes nothing. In the end
    [numBlocks] is the size of the map, [forEachBlock] calls back with each
    of its ids once, and no file that is not a block was touched. *)
Theorem ondisk_refines_map (os : list block_op) (w : world Rng) :
  _rootDir ∈ dirs w → (∀ d name, _rootDir ++ [d; name] ∉ dom (files w) ∪ dirs w) →
  (∀ id, BlockId.valid id → files w !! prefix_dir id = None) → Forall (op_valid limit) os →
  ∃ w' ids, run os w = (Ok (model_ops os ∅).1, w') ∧
    numBlocks _rootDir w' = u64 (Z.of_nat (size (model_ops os ∅).2)) ∧
    forEachBlock _rootDir w' = (Ok ids, w') ∧ ids ≡ₚ (map_to_list (model_ops os ∅).2).*1 ∧
    (∀ p, (∀ id, p ≠ block_path id ∧ p ≠ prefix_dir id) → files w' !! p = files w !! p).
Proof.
  intros Hroot Hno Hpre Hok.
  assert (represents (0 + length os) w ∅) as Hr.
  { split; try done.
    - intros id Hid. rewrite lookup_empty. apply not_elem_of_dom. intros H. by apply (Hno (take PREFIX_LENGTH (hex_encode id)) (drop PREFIX_LENGTH (hex_encode id))), elem_of_union_l.
    - intros id [d H]. by rewrite lookup_empty in H.
    - intros d name H. by apply Hno in H.
    - intros id Hid H. by apply (Hno (take PREFIX_LENGTH (hex_encode id)) (drop PREFIX_LENGTH (hex_encode id))), elem_of_union_r. }
  destruct (@BlockStore.run_ops_spec (world Rng) _ spec os 0 w ∅ Hr (@ops_ok_valid (world Rng) _ spec _ _ (λ _ _, Logic.I) Hok w ∅)) as (w' & E & Hr').
  destruct (forEachBlock_repr _ _ _ Hr') as (ids & E2 & Hids). exists w', ids. split; [done|]. split; [by eapply numBlocks_repr|].
  do 2 (split; [done|]). intros p Hp. pose proof (frame_ops p os Hp w) as H. by rewrite E in H.
Qed.

(** A block file that is shorter than the header is read beyond its end. *)
Theorem short_block_undefined (w : world Rng) id file :
  files w !! block_path id = Some file → (length file < formatVersionHeaderSize)%nat →
  load _rootDir id w = (Throw UndefinedBehaviour, w).
Proof.
  intros Hf Hl. unfold load. rewrite getFilepath_eq. erewrite bind_ok by done. unfold LoadFromFile, get_state, mbind, M_bind. csimp. rewrite Hf.
  unfold _checkAndRemoveHeader, _isAcceptedCryfsHeader, memcmp_equal.
  assert (Data.memcpy_from file 0 (length header) = Throw UndefinedBehaviour) as ->; [|done].
  unfold Data.memcpy_from. rewrite decide_False; [done|]. change (length header) with formatVersionHeaderSize. lia.
Qed.
End refinement.
End OnDiskBlockStore2.

(** ** A concrete disk *)
Module OnDiskExample.
Import OnDiskBlockStore2.
#[local] Existing Instance Toy.cryptopp.
#[local] Existing Instance Toy.cryptopp_laws.
Lemma toy_upper : @HexUppercase Toy.cryptopp.
Proof.
  intros d. induction d as [|b d IH]; simpl; [done|]. pose proof (byte_val_range b).
  assert (∀ z, 0 ≤ z < 16 → Toy.hex_digit z ∈ ALLOWED_BLOCKID_CHARACTERS) as Hd.
  { intros z Hz. assert (z = 0 ∨ z = 1 ∨ z = 2 ∨ z = 3 ∨ z = 4 ∨ z = 5 ∨ z = 6 ∨ z = 7 ∨ z = 8 ∨ z = 9 ∨ z = 10 ∨ z = 11 ∨ z = 12 ∨ z = 13 ∨ z = 14 ∨ z = 15) as Hc by lia.
    decompose [or] Hc; subst z; apply (bool_decide_unpack _); by vm_compute. }
  constructor; [apply Hd|constructor; [apply Hd|done]].
  - split; [apply Z.div_pos; lia|apply Z.div_lt_upper_bound; lia].
  - apply Z.mod_pos_bound. lia.
Qed.
Definition base_dir : path := [str "base"].
Definition config_file : path := base_dir ++ [str "cryfs.config"].
Definition new_disk : world unit := mkWorld {[ config_file := [x01] ]} {[ base_dir ]} tt None.
Definition id1 : bytes := replicate 16 x01.
Definition id2 : bytes := replicate 16 x02.
Definition disk_ops : list block_op := [OpCreate id1 [x07; x08]; OpStore id2 [x09]; OpLoad id1; OpRemove id2; OpLoad id2; OpCreate id1 [x0b]; OpStore id1 []].
End OnDiskExample.

Import OnDiskExample.
Lemma ondisk_refines_map_witness :
  ∃ w' ids, @run_ops (world unit) (@OnDiskBlockStore2.ops Toy.cryptopp unit base_dir (λ _, 0)) disk_ops new_disk = (Ok (model_ops disk_ops ∅).1, w') ∧
    OnDiskBlockStore2.numBlocks base_dir w' = u64 (Z.of_nat (size (model_ops disk_ops ∅).2)) ∧
    @OnDiskBlockStore2.forEachBlock Toy.cryptopp unit base_dir w' = (Ok ids, w') ∧ ids ≡ₚ (map_to_list (model_ops disk_ops ∅).2).*1 ∧
    files w' !! config_file = Some [x01].
Proof.
  destruct (@OnDiskBlockStore2.ondisk_refines_map Toy.cryptopp Toy.cryptopp_laws toy_upper unit base_dir (λ _, 0) disk_ops new_disk) as (w' & ids & E & Hn & Hf & Hp & Hframe).
  - by apply elem_of_singleton.
  - intros d name H. unfold new_disk in H. simpl in H. rewrite dom_singleton_L in H.
    apply elem_of_union in H as [H|H]; apply elem_of_singleton in H; discriminate H.
  - intros id Hid. apply lookup_singleton_None. unfold OnDiskBlockStore2.prefix_dir. intros E%app_inv_head. apply (f_equal (λ l, length (default [] (head l)))) in E. simpl in E.
    rewrite length_take in E. unfold OnDiskBlockStore2.PREFIX_LENGTH in E. lia.
  - by repeat constructor; vm_compute.
  - exists w', ids. do 4 (split; [done|]). rewrite Hframe; [apply lookup_singleton_eq|]. intros id. split; intros E'%app_inv_head; [discriminate E'|].
    injection E' as E'. apply (f_equal length) in E'. rewrite length_take in E'. change (12 = 3 `min` length (Toy.hex id))%nat in E'. lia.
Defined.
