(* ===== verification/LocalState.v ===== *)
(** * What a client remembers of a file system (cryfs/impl/localstate,
    cpp-utils/crypto/hash/Hash.cpp)

    Outside of the encrypted file system, a client keeps its client id and a
    salted hash of the encryption key for each file system id, and the file
    system id for each base directory. Both guard against an attacker who
    replaces the file system. *)
From S2P Require Import Prelude Serialization Serializer Version Cipher CryCipher ConfigCrypto CryConfig ConfigFile KnownBlockVersions.
From Stdlib Require Import Lia ZArith.
Open Scope Z_scope.

(** ** Hash.cpp: SHA-512 of Crypto++ over salt and data *)
Class SHA := {
  sha512 : bytes → bytes;
  length_sha512 d : length (sha512 d) = 64%nat;
}.
Record Hash := mkHash { digest : bytes; salt : bytes }.
Definition hash `{!SHA} (data salt : bytes) : Hash := mkHash (sha512 (salt ++ data)) salt.
Definition generateSalt {Rng} `{!RandomGenerator Rng} : M Rng bytes := random_bytes 8.

(** ** Files and directories *)
Section fs.
Context {Rng : Type}.

(** [bf::create_directories]: every missing directory on the way. *)
Definition ancestors (p : path) : list path := map (λ n, take n p) (seq 1 (length p)).
Definition create_directories (p : path) : M (world Rng) unit :=
  w ← get_state ;
  if decide (Exists (λ q, is_Some (files w !! q)) (ancestors p)) then mthrow (RuntimeError "create_directories")
  else put_state (mkWorld (files w) (dirs w ∪ list_to_set (ancestors p)) (rng w) (returnedHash w)).
(** An [ofstream] that cannot be opened ignores what is written to it. *)
Definition ofstream_write (p : path) (content : bytes) : M (world Rng) unit :=
  w ← get_state ;
  if decide (parent_path p ∈ dirs w) then put_state (set_files (<[p := content]> (files w)) w) else mret tt.
Definition remove_file (p : path) : M (world Rng) unit := modify (λ w, set_files (delete p (files w)) w).
End fs.

(** ** LocalStateDir.cpp *)
Module LocalStateDir.
Section dir.
Context {crypto : CryptoPP} {Rng : Type}.
Definition _createDirIfNotExists (p : path) : M (world Rng) unit :=
  e ← exists_ p ; if negb e then create_directories p else mret tt.
Definition forFilesystemId (_appDir : path) (filesystemId : bytes) : M (world Rng) path :=
  _createDirIfNotExists _appDir ;;
  let filesystems_dir := _appDir ++ [str "filesystems"] in
  _createDirIfNotExists filesystems_dir ;;
  id ← lift (FixedSizeData_ToString filesystemId) ;
  let this_filesystem_dir := filesystems_dir ++ [id] in
  _createDirIfNotExists this_filesystem_dir ;;
  mret this_filesystem_dir.
Definition forBasedirMetadata (_appDir : path) : M (world Rng) path :=
  _createDirIfNotExists _appDir ;; mret (_appDir ++ [str "basedirs"]).
End dir.
End LocalStateDir.

(** ** LocalStateMetadata.cpp *)
Module LocalStateMetadata.
Record t := mk { _myClientId : Z; _encryptionKeyHash : Hash }.

(** [istream >> uint32_t]: white space, a sign, digits; 0 when there is no
    number, the largest value when it is too large. *)
Definition extract_uint32 (l : bytes) : Z :=
  let l := skip_spaces l in
  let '(neg, l) := match l with x2b :: l' => (false, l') | x2d :: l' => (true, l') | _ => (false, l) end in
  let v := digits_value (digits l) in
  if decide (v < 2 ^ 32) then (if (neg : bool) then u32 (- v) else v) else 2 ^ 32 - 1.

Section metadata.
Context {crypto : CryptoPP} {boost : PropertyTree} {sha : SHA} {Rng : Type} {random : RandomGenerator Rng}.

Definition serialize_ (m : t) : result bytes :=
  salt ← FixedSizeData_ToString (salt (_encryptionKeyHash m)) ;
  hash ← FixedSizeData_ToString (digest (_encryptionKeyHash m)) ;
  write_json (build [(str "myClientId", show_uint (_myClientId m));
                     (str "encryptionKey.salt", salt);
                     (str "encryptionKey.hash", hash)]).
Definition deserialize_ (text : bytes) : result t :=
  pt ← read_json text ;
  myClientId ← get_uint 32 (str "myClientId") pt ;
  encryptionKeySalt ← get_string (str "encryptionKey.salt") pt ;
  encryptionKeyDigest ← get_string (str "encryptionKey.hash") pt ;
  digest ← FixedSizeData_FromString 64 encryptionKeyDigest ;
  salt ← FixedSizeData_FromString 8 encryptionKeySalt ;
  mret (mk myClientId (mkHash digest salt)).

Definition load_ (metadataFilePath : path) : M (world Rng) (option t) :=
  w ← get_state ;
  match files w !! metadataFilePath with
  | None => mret None
  | Some text => m ← lift (deserialize_ text) ; mret (Some m)
  end.
(** Opening the stream truncates the file. *)
Definition save_ (m : t) (metadataFilePath : path) : M (world Rng) unit :=
  ofstream_write metadataFilePath [] ;;
  text ← lift (serialize_ m) ;
  ofstream_write metadataFilePath text.

(** The loop draws until it gets an id other than the reserved one; [fuel]
    bounds the number of draws. *)
Fixpoint generateClientId_ (fuel : nat) : M Rng Z :=
  match fuel with
  | O => mthrow OutOfFuel
  | S fuel' =>
      b ← random_bytes 4 ;
      result ← lift (deserialize 4 b) ;
      if decide (result = KnownBlockVersions.CLIENT_ID_FOR_DELETED_BLOCK) then generateClientId_ fuel' else mret result
  end.

Definition _tryLoadClientIdFromLegacyFile (metadataFilePath : path) : M (world Rng) (option Z) :=
  let myClientIdFile := parent_path metadataFilePath ++ [str "myClientId"] in
  w ← get_state ;
  match files w !! myClientIdFile with
  | None => mret None
  | Some text => remove_file myClientIdFile ;; mret (Some (extract_uint32 text))
  end.

Definition generate_ (fuel : nat) (metadataFilePath : path) (encryptionKey : bytes) : M (world Rng) t :=
  myClientId ← with_rng (generateClientId_ fuel) ;
  legacy ← _tryLoadClientIdFromLegacyFile metadataFilePath ;
  let myClientId := match legacy with Some id => id | None => myClientId end in
  salt ← with_rng generateSalt ;
  let result := mk myClientId (hash encryptionKey salt) in
  save_ result metadataFilePath ;;
  mret result.

Definition loadOrGenerate (fuel : nat) (statePath : path) (encryptionKey : bytes) (allowReplacedFilesystem : bool) :
    M (world Rng) t :=
  let metadataFile := statePath ++ [str "metadata"] in
  loaded ← load_ metadataFile ;
  match loaded with
  | None => generate_ fuel metadataFile encryptionKey
  | Some loaded =>
      if decide (allowReplacedFilesystem = false
                 ∧ digest (_encryptionKeyHash loaded) ≠ digest (hash encryptionKey (salt (_encryptionKeyHash loaded))))
      then mthrow (CryfsException EncryptionKeyChanged)
      else mret loaded
  end.
End metadata.
End LocalStateMetadata.

(** ** BasedirMetadata.cpp; [normal] stands for [bf::absolute] and
    [lexically_normal] *)
Module BasedirMetadata.
Section basedir.
Context {crypto : CryptoPP} {boost : PropertyTree} {Rng : Type} (normal : path → bytes).
Record t := mk { _filename : path; _data : ptree }.

Definition jsonPathForBasedir (basedir : path) : bytes := normal basedir ++ str ".filesystemId".
Definition _load (metadataFilePath : path) : M (world Rng) ptree :=
  w ← get_state ;
  match files w !! metadataFilePath with None => mret pt_empty | Some text => lift (read_json text) end.
Definition _save (metadataFilePath : path) (data : ptree) : M (world Rng) unit :=
  ofstream_write metadataFilePath [] ;;
  text ← lift (write_json data) ;
  ofstream_write metadataFilePath text.
Definition load (_appDir : path) : M (world Rng) t :=
  filename ← LocalStateDir.forBasedirMetadata _appDir ;
  loaded ← _load filename ;
  mret (mk filename loaded).
Definition save (b : t) : M (world Rng) unit := _save (_filename b) (_data b).
Definition filesystemIdForBasedirIsCorrect (b : t) (basedir : path) (filesystemId : bytes) : result bool :=
  match pt_get (jsonPathForBasedir basedir) (_data b) with
  | None => mret true
  | Some entry =>
      filesystemIdFromState ← FixedSizeData_FromString CryConfig.FilesystemID_LENGTH entry ;
      mret (bool_decide (filesystemIdFromState = filesystemId))
  end.
Definition updateFilesystemIdForBasedir (b : t) (basedir : path) (filesystemId : bytes) : result t :=
  id ← FixedSizeData_ToString filesystemId ;
  mret (mk (_filename b) (pt_put (jsonPathForBasedir basedir) id (_data b))).
End basedir.
End BasedirMetadata.

(** ** Proofs *)
Import LocalStateMetadata.
Section proofs.
Context {crypto : CryptoPP} {crypto_laws : CryptoPPLaws} {boost : PropertyTree} {boost_laws : PropertyTreeLaws}
  {sha : SHA} {Rng : Type} {random : RandomGenerator Rng}.

Definition metadata_ok (m : t) : Prop :=
  0 ≤ _myClientId m < 2 ^ 32 ∧ length (digest (_encryptionKeyHash m)) = 64%nat ∧ length (salt (_encryptionKeyHash m)) = 8%nat.

Lemma metadata_roundtrip m : metadata_ok m → ∃ text, serialize_ m = Ok text ∧ deserialize_ text = Ok m.
Proof.
  intros (Hid & Hd & Hs). unfold serialize_.
  destruct (FixedSizeData_string_roundtrip (salt (_encryptionKeyHash m))) as [-> Rs]. rewrite Hs in Rs.
  destruct (FixedSizeData_string_roundtrip (digest (_encryptionKeyHash m))) as [-> Rd]. rewrite Hd in Rd. csimp.
  set (doc := [_; _; _]). assert (paths_ok doc.*1) as Hp by (apply paths_ok_dec; by vm_compute).
  destruct (json_roundtrip doc) as (text & pt & -> & Hr & Hg); [|done|].
  { unfold doc. rewrite !Forall_cons. split_and!; try done;
      apply entry_str; auto using show_uint_printable, hex_encode_printable. }
  exists text. split; [done|]. unfold deserialize_. rewrite Hr. csimp.
  unfold get_uint, get_optional_uint, get_string. rewrite !Hg.
  rewrite (get_build_Some _ (str "myClientId") (show_uint (_myClientId m))) by (done || (unfold doc; by solve_in)).
  rewrite (get_build_Some _ (str "encryptionKey.salt") (hex_encode (salt (_encryptionKeyHash m))))
    by (done || (unfold doc; by solve_in)).
  rewrite (get_build_Some _ (str "encryptionKey.hash") (hex_encode (digest (_encryptionKeyHash m))))
    by (done || (unfold doc; by solve_in)).
  cbn [mbind option_bind]. rewrite (parse_show_uint 32) by done. csimp. rewrite Rd. csimp. rewrite Rs. csimp.
  by destruct m as [id [d s]].
Qed.

(** The metadata [m] is stored below [statePath]. *)
Definition remembered (statePath : path) (m : t) (w : world Rng) : Prop :=
  ∃ text, files w !! (statePath ++ [str "metadata"]) = Some text ∧ deserialize_ text = Ok m.
(** The generator finds an id within [fuel] draws. *)
Definition draws (fuel : nat) (r : Rng) : Prop := ∃ id r', generateClientId_ fuel r = (Ok id, r').

Lemma generateClientId_range fuel r id r' : generateClientId_ fuel r = (Ok id, r') → 0 < id < 2 ^ 32.
Proof.
  revert r. induction fuel as [|fuel IH]; intros r E; [done|]. simpl in E.
  unfold mbind, M_bind, random_bytes in E. pose proof (get_bytes_length 4 r) as Hl.
  destruct (get_bytes 4 r) as [b r1]; simpl in Hl. csimp. unfold deserialize in E.
  rewrite decide_True in E by lia. simpl in E. rewrite take_ge in E by lia.
  pose proof (le_value_range b) as Hb. rewrite Hl in Hb.
  case_decide as Hz; [by apply (IH r1)|]. injection E as <- <-.
  unfold KnownBlockVersions.CLIENT_ID_FOR_DELETED_BLOCK in Hz. change (256 ^ Z.of_nat 4) with (2 ^ 32) in Hb. lia.
Qed.

Lemma parent_path_app (p : path) x : parent_path (p ++ [x]) = p.
Proof. unfold parent_path. rewrite length_app. simpl. rewrite Nat.add_sub. by rewrite take_app_length. Qed.

(** Without metadata, the id is that of the legacy file or else the one that
    was drawn; it is stored. *)
Lemma runs_generate_id fuel statePath key allow (w : world Rng) id r1 legacy w2 :
  let chosen := match legacy with Some l => l | None => id end in
  files w !! (statePath ++ [str "metadata"]) = None → generateClientId_ fuel (rng w) = (Ok id, r1) →
  _tryLoadClientIdFromLegacyFile (statePath ++ [str "metadata"]) (mkWorld (files w) (dirs w) r1 (returnedHash w)) =
    (Ok legacy, w2) →
  statePath ∈ dirs w2 → 0 ≤ chosen < 2 ^ 32 →
  runs (loadOrGenerate fuel statePath key allow) w (λ m w',
    _myClientId m = chosen ∧ digest (_encryptionKeyHash m) = sha512 (salt (_encryptionKeyHash m) ++ key)
    ∧ remembered statePath m w' ∧ dirs w' = dirs w2
    ∧ ∀ q, q ≠ statePath ++ [str "metadata"] → files w' !! q = files w2 !! q).
Proof.
  intros chosen Hm E El Hd Hid. unfold loadOrGenerate. eapply runs_bind_eq.
  { unfold load_, mbind, M_bind. csimp. by rewrite Hm. }
  unfold generate_. eapply runs_bind_eq; [unfold with_rng, zoom; by rewrite E|].
  eapply runs_bind_eq; [exact El|]. fold chosen.
  pose proof (get_bytes_length 8 (rng w2)) as Hs. unfold generateSalt, random_bytes.
  destruct (get_bytes 8 (rng w2)) as [s r2] eqn:Es; simpl in Hs.
  eapply runs_bind_eq; [unfold with_rng, zoom; simpl; by rewrite Es|]. simpl.
  set (m := mk chosen (hash key s)). destruct (metadata_roundtrip m) as (text & Et & Ed).
  { unfold metadata_ok, m; simpl. rewrite length_sha512. split_and!; [lia|lia|done|done]. }
  eapply runs_bind_eq.
  { unfold save_, ofstream_write, mbind, M_bind. csimp. simpl. rewrite parent_path_app, decide_True by done. csimp.
    rewrite Et. csimp. simpl. rewrite decide_True by done. done. }
  apply runs_ret. split_and!; [done|done| |done|].
  - exists text. simpl. by rewrite lookup_insert_eq.
  - intros q Hq. simpl. by rewrite !lookup_insert_ne by done.
Qed.

Lemma runs_generate fuel statePath key (w : world Rng) :
  files w !! (statePath ++ [str "metadata"]) = None → files w !! (statePath ++ [str "myClientId"]) = None →
  statePath ∈ dirs w → draws fuel (rng w) → ∀ allow,
  runs (loadOrGenerate fuel statePath key allow) w (λ m w',
    0 < _myClientId m < 2 ^ 32 ∧ digest (_encryptionKeyHash m) = sha512 (salt (_encryptionKeyHash m) ++ key)
    ∧ remembered statePath m w' ∧ dirs w' = dirs w
    ∧ ∀ q, q ≠ statePath ++ [str "metadata"] → files w' !! q = files w !! q).
Proof.
  intros Hm Hl Hd (id & r1 & E) allow. pose proof (generateClientId_range _ _ _ _ E) as Hid.
  eapply runs_mono; [eapply (runs_generate_id _ _ _ _ _ id r1 None); [done|done| |..]|].
  { unfold _tryLoadClientIdFromLegacyFile, mbind, M_bind. csimp. rewrite parent_path_app. simpl. by rewrite Hl. }
  { done. } { lia. }
  simpl. intros m w' (-> & Hrest). by split.
Qed.

Lemma loadOrGenerate_remembered fuel statePath m key allow (w : world Rng) : remembered statePath m w →
  loadOrGenerate fuel statePath key allow w =
    (if decide (allow = false ∧ digest (_encryptionKeyHash m) ≠ sha512 (salt (_encryptionKeyHash m) ++ key))
     then Throw (CryfsException EncryptionKeyChanged) else Ok m, w).
Proof.
  intros (text & Hf & Hd). unfold loadOrGenerate, load_, mbind, M_bind. csimp. rewrite Hf. rewrite Hd. csimp.
  change (digest (hash key (salt (_encryptionKeyHash m)))) with (sha512 (salt (_encryptionKeyHash m) ++ key)).
  by case_decide.
Qed.

(** The first time a client opens a file system it stores a client id
    other than the one reserved for deleted blocks and a salted hash of the
    encryption key. As long as that file is kept, whatever else happens to
    the files, opening with the same key gives the same client id; opening
    with a key of another hash is refused with [EncryptionKeyChanged],
    unless replaced file systems are allowed. *)
Theorem key_change_detected fuel statePath key allow (w : world Rng) :
  files w !! (statePath ++ [str "metadata"]) = None → files w !! (statePath ++ [str "myClientId"]) = None →
  statePath ∈ dirs w → draws fuel (rng w) →
  ∃ m w', loadOrGenerate fuel statePath key allow w = (Ok m, w')
    ∧ _myClientId m ≠ KnownBlockVersions.CLIENT_ID_FOR_DELETED_BLOCK
    ∧ ∀ w'', files w'' !! (statePath ++ [str "metadata"]) = files w' !! (statePath ++ [str "metadata"]) →
        (∀ fuel' allow', loadOrGenerate fuel' statePath key allow' w'' = (Ok m, w''))
        ∧ ∀ fuel' key', sha512 (salt (_encryptionKeyHash m) ++ key') ≠ sha512 (salt (_encryptionKeyHash m) ++ key) →
            loadOrGenerate fuel' statePath key' false w'' = (Throw (CryfsException EncryptionKeyChanged), w'')
            ∧ loadOrGenerate fuel' statePath key' true w'' = (Ok m, w'').
Proof.
  intros Hm Hl Hd Hf. destruct (runs_generate fuel statePath key w Hm Hl Hd Hf allow) as (m & w' & E & Hid & Hh & Hr & _).
  exists m, w'. split_and!; [done|unfold KnownBlockVersions.CLIENT_ID_FOR_DELETED_BLOCK; lia|].
  intros w'' Hw. assert (remembered statePath m w'') as Hr'' by (unfold remembered; by rewrite Hw).
  split.
  - intros. rewrite (loadOrGenerate_remembered _ _ m) by done. by rewrite decide_False by tauto.
  - intros fuel' key' Hne. rewrite !(loadOrGenerate_remembered _ _ m) by done.
    rewrite decide_True by (rewrite Hh; auto). by rewrite decide_False by (by intros [? _]).
Qed.

(** An id from the file of an older version is taken as it is, also the
    reserved one, which a file without a number gives. *)
Theorem legacy_client_id_unchecked fuel statePath key text allow (w : world Rng) :
  files w !! (statePath ++ [str "metadata"]) = None → files w !! (statePath ++ [str "myClientId"]) = Some text →
  extract_uint32 text = KnownBlockVersions.CLIENT_ID_FOR_DELETED_BLOCK →
  statePath ∈ dirs w → draws fuel (rng w) →
  runs (loadOrGenerate fuel statePath key allow) w (λ m w',
    _myClientId m = KnownBlockVersions.CLIENT_ID_FOR_DELETED_BLOCK ∧ remembered statePath m w').
Proof.
  intros Hm Hl Ht Hd (id & r1 & E).
  eapply runs_mono; [eapply (runs_generate_id _ _ _ _ _ id r1 (Some 0)); [done|done| |..]|].
  { unfold _tryLoadClientIdFromLegacyFile, mbind, M_bind. csimp. rewrite parent_path_app. simpl. rewrite Hl. csimp.
    rewrite Ht. done. }
  { done. } { lia. }
  simpl. intros m w' (-> & _ & Hr & _). done.
Qed.

(** The directory of a file system is there after it has been asked for. *)
Definition no_file_above (p : path) (w : world Rng) : Prop := Forall (λ q, files w !! q = None) (ancestors p).
Definition grown (p : path) (w w' : world Rng) : Prop :=
  files w' = files w ∧ dirs w ⊆ dirs w' ∧ rng w' = rng w ∧ ∀ x, x ∈ dirs w' → x ∈ dirs w ∨ x ∈ ancestors p.

Lemma ancestors_self (p : path) : p ≠ [] → p ∈ ancestors p.
Proof.
  intros Hp. unfold ancestors. apply list_elem_of_fmap. exists (length p). split; [by rewrite firstn_all|].
  apply elem_of_seq. destruct p; [done|simpl; lia].
Qed.
Lemma ancestors_app (p q : path) x : x ∈ ancestors p → x ∈ ancestors (p ++ q).
Proof.
  unfold ancestors. intros (n & -> & [? ?]%elem_of_seq)%list_elem_of_fmap. apply list_elem_of_fmap.
  exists n. split; [by rewrite take_app_le by lia|]. apply elem_of_seq. rewrite length_app. lia.
Qed.
Lemma no_file_above_app (p q : path) w : no_file_above (p ++ q) w → no_file_above p w.
Proof. unfold no_file_above. rewrite !Forall_forall. eauto using ancestors_app. Qed.
Lemma runs_createDir (p : path) (w : world Rng) : p ≠ [] → no_file_above p w →
  runs (LocalStateDir._createDirIfNotExists p) w (λ _ w', grown p w w' ∧ p ∈ dirs w').
Proof.
  intros Hp Hn. pose proof Hn as Hn'. unfold no_file_above in Hn. rewrite Forall_forall in Hn.
  unfold LocalStateDir._createDirIfNotExists. eapply runs_bind_eq; [done|].
  case_bool_decide as He; simpl.
  - destruct He as [[? Hf]|Hd]; [by rewrite Hn in Hf by (by apply ancestors_self)|]. apply runs_ret.
    split; [|done]. split_and!; [done|done|done|by left].
  - unfold create_directories. apply runs_bind_get. rewrite decide_False.
    + eexists _, _. split; [done|]. split; [split_and!; [done|simpl; set_solver|done|]|]; simpl.
      { intros x [?|?%elem_of_list_to_set]%elem_of_union; auto. }
      apply elem_of_union_r, elem_of_list_to_set. by apply ancestors_self.
    + rewrite Exists_exists. intros (q & Hq & [? Hf]). by rewrite Hn in Hf.
Qed.
Definition state_dir (appDir : path) (id : bytes) : path := (appDir ++ [str "filesystems"]) ++ [hex_encode id].
Lemma runs_forFilesystemId appDir id (w : world Rng) : appDir ≠ [] → no_file_above (state_dir appDir id) w →
  runs (LocalStateDir.forFilesystemId appDir id) w (λ p w', p = state_dir appDir id ∧ grown p w w' ∧ p ∈ dirs w').
Proof.
  intros Ha Hn. pose proof (no_file_above_app _ _ _ Hn) as Hn1. pose proof (no_file_above_app _ _ _ Hn1) as Hn0.
  unfold LocalStateDir.forFilesystemId. eapply runs_bind; [by apply runs_createDir|].
  intros _ w1 [(F1 & D1 & R1 & A1) _]. eapply runs_bind; [apply runs_createDir|].
  { by destruct appDir. } { unfold no_file_above. by rewrite F1. }
  intros _ w2 [(F2 & D2 & R2 & A2) _]. destruct (FixedSizeData_string_roundtrip id) as [E _].
  eapply runs_bind_lift; [done|]. eapply runs_bind; [apply runs_createDir|].
  { by destruct appDir. } { unfold no_file_above. by rewrite F2, F1. }
  intros _ w3 [(F3 & D3 & R3 & A3) Hin]. apply runs_ret. split_and!; [done| |done].
  split_and!; [congruence|set_solver|congruence|]. intros x Hx. unfold state_dir.
  destruct (A3 x Hx) as [[[?|?]%A1|?]%A2|?]; auto using ancestors_app.
Qed.

(** BasedirMetadata: the id that was stored last is the only correct one. *)
Lemma basedir_update normal b basedir id id' :
  length id = CryConfig.FilesystemID_LENGTH →
  ∃ b', BasedirMetadata.updateFilesystemIdForBasedir normal b basedir id = Ok b'
    ∧ BasedirMetadata.filesystemIdForBasedirIsCorrect normal b' basedir id' = Ok (bool_decide (id = id')).
Proof.
  intros Hid. unfold BasedirMetadata.updateFilesystemIdForBasedir.
  destruct (FixedSizeData_string_roundtrip id) as [-> E]. eexists. split; [done|].
  unfold BasedirMetadata.filesystemIdForBasedirIsCorrect. simpl. rewrite pt_get_put, <- Hid, E. done.
Qed.
End proofs.

(** ** Witness *)
Module ToySha.
Definition pad (d : bytes) : bytes := take 64 (d ++ replicate 64 x00).
Lemma length_sha_pad d : length (pad d) = 64%nat.
Proof. unfold pad. rewrite length_take, length_app, length_replicate. lia. Qed.
#[export] Instance sha : SHA := { sha512 := pad; length_sha512 := length_sha_pad }.
End ToySha.
Import Toy ToyTree ToySha.

(** Two draws of the counter are enough: only one value in 256 gives 0. *)
Lemma counter_draws r : draws (Rng := Z) 2 r.
Proof.
  unfold draws. simpl. unfold mbind, M_bind, random_bytes. simpl.
  rewrite byte_val_of. case_decide as H1; [|by eexists _, _]. rewrite byte_val_of.
  case_decide as H2; [|by eexists _, _]. exfalso. unfold KnownBlockVersions.CLIENT_ID_FOR_DELETED_BLOCK in *.
  assert (r mod 256 = 0) as Hr by (pose proof (Z.mod_pos_bound r 256); lia).
  assert ((r + 1) mod 256 = 0) as Hr1 by (pose proof (Z.mod_pos_bound (r + 1) 256); lia).
  pose proof (Z.div_mod r 256). pose proof (Z.div_mod (r + 1) 256). lia.
Qed.
Definition w_client : world Z := mkWorld ∅ {[ [str "state"] ]} 5 None.
Lemma key_change_detected_witness :
  ∃ m w', loadOrGenerate 2 [str "state"] (str "key") false w_client = (Ok m, w')
    ∧ _myClientId m ≠ KnownBlockVersions.CLIENT_ID_FOR_DELETED_BLOCK
    ∧ loadOrGenerate 0 [str "state"] (str "key") false w' = (Ok m, w')
    ∧ loadOrGenerate 0 [str "state"] (str "other") false w' = (Throw (CryfsException EncryptionKeyChanged), w').
Proof.
  destruct (key_change_detected (crypto := Toy.cryptopp) 2 [str "state"] (str "key") false w_client
    eq_refl eq_refl ltac:(by apply elem_of_singleton) (counter_draws _)) as (m & w' & E & Hid & H).
  destruct (H w' eq_refl) as [H1 H2]. exists m, w'. split_and!; [exact E|exact Hid|apply H1|].
  apply H2. revert E. intros [= <- _]. by vm_compute.
Defined.
