(* ===== verification/ConfigLoader.v ===== *)
(** * Creating and opening a configuration (CryConfigConsole.cpp,
    CryConfigCreator.cpp and CryConfigLoader.cpp of cryfs/impl/config)

    [VersionString] is the version of the running program, which the build
    generates. *)
From S2P Require Import Prelude Serialization Serializer Version Cipher CryCipher ConfigCrypto CryConfig ConfigFile LocalState.
From Stdlib Require Import Lia ZArith.
Open Scope Z_scope.

(** ** CryConfigConsole.cpp *)
Module CryConfigConsole.
Definition DEFAULT_CIPHER : bytes := str "xchacha20-poly1305".
Definition DEFAULT_BLOCKSIZE_BYTES : Z := 16 * 1024.
Definition DEFAULT_MISSINGBLOCKISINTEGRITYVIOLATION : bool := false.
Definition askCipher : bytes := DEFAULT_CIPHER.
Definition askBlocksizeBytes : Z := DEFAULT_BLOCKSIZE_BYTES.
Definition askMissingBlockIsIntegrityViolation : bool := DEFAULT_MISSINGBLOCKISINTEGRITYVIOLATION.
End CryConfigConsole.

(** ** CryConfigCreator.cpp *)
Module CryConfigCreator.
Section creator.
Context {crypto : CryptoPP} {memory : Memory} {boost : PropertyTree} {sha : SHA} {Rng : Type} {random : RandomGenerator Rng}
  (VersionString : bytes) (fuel : nat) (_localStateDir : path).

Definition _generateBlocksizeBytes (blocksizeBytesFromCommandLine : option Z) : Z :=
  match blocksizeBytesFromCommandLine with Some n => n | None => CryConfigConsole.askBlocksizeBytes end.
Definition _generateCipher (cipherFromCommandLine : option bytes) : result bytes :=
  match cipherFromCommandLine with
  | Some c => ASSERT (bool_decide (c ∈ CryCiphers.supportedCipherNames)) "Invalid cipher" ;; mret c
  | None => mret CryConfigConsole.askCipher
  end.
Definition _generateMissingBlockIsIntegrityViolation (fromCommandLine : option bool) : bool :=
  match fromCommandLine with Some b => b | None => CryConfigConsole.askMissingBlockIsIntegrityViolation end.
Definition _generateExclusiveClientId (fromCommandLine : option bool) (myClientId : Z) : option Z :=
  if negb (_generateMissingBlockIsIntegrityViolation fromCommandLine) then None else Some myClientId.
Definition _generateEncKey (cipher : bytes) : M Rng bytes :=
  c ← lift (CryCiphers.find cipher) ; CryCiphers.createKey c.
Definition _generateRootBlobId : bytes := [].
Definition _generateFilesystemID : M Rng bytes := random_bytes CryConfig.FilesystemID_LENGTH.

Definition create (cipherFromCommandLine : option bytes) (blocksizeBytesFromCommandLine : option Z)
    (missingBlockIsIntegrityViolationFromCommandLine : option bool) (allowReplacedFilesystem : bool) :
    M (world Rng) (CryConfig.t * Z) :=
  let config := CryConfig.new in
  cipher ← lift (_generateCipher cipherFromCommandLine) ;
  let config := CryConfig.SetCipher cipher config in
  let config := CryConfig.SetVersion CryConfig.FilesystemFormatVersion config in
  let config := CryConfig.SetCreatedWithVersion VersionString config in
  let config := CryConfig.SetLastOpenedWithVersion VersionString config in
  let config := CryConfig.SetBlocksizeBytes (_generateBlocksizeBytes blocksizeBytesFromCommandLine) config in
  let config := CryConfig.SetRootBlob _generateRootBlobId config in
  filesystemId ← with_rng _generateFilesystemID ;
  let config := CryConfig.SetFilesystemId filesystemId config in
  encryptionKey ← with_rng (_generateEncKey (CryConfig._cipher config)) ;
  statePath ← LocalStateDir.forFilesystemId _localStateDir (CryConfig._filesystemId config) ;
  key ← lift (Data_FromString encryptionKey) ;
  localState ← LocalStateMetadata.loadOrGenerate fuel statePath key allowReplacedFilesystem ;
  let myClientId := LocalStateMetadata._myClientId localState in
  let config := CryConfig.SetEncryptionKey encryptionKey config in
  let config := CryConfig.SetExclusiveClientId
    (_generateExclusiveClientId missingBlockIsIntegrityViolationFromCommandLine myClientId) config in
  let config := CryConfig.SetHasVersionNumbers true config in
  mret (config, myClientId).
End creator.
End CryConfigCreator.

(** ** CryConfigLoader.cpp *)
Module CryConfigLoader.
Record t (Rng : Type) := mk {
  _keyProvider : CryKeyProvider Rng;
  _cipherFromCommandLine : option bytes;
  _blocksizeBytesFromCommandLine : option Z;
  _missingBlockIsIntegrityViolationFromCommandLine : option bool;
  _localStateDir : path }.
Arguments mk {Rng}. Arguments _keyProvider {Rng}. Arguments _cipherFromCommandLine {Rng}.
Arguments _blocksizeBytesFromCommandLine {Rng}. Arguments _missingBlockIsIntegrityViolationFromCommandLine {Rng}.
Arguments _localStateDir {Rng}.
Record ConfigLoadResult := mkResult { oldConfig : CryConfig.t; configFile : CryConfigFile.t; myClientId : Z }.

(** The mutable [config()] of a configuration file. *)
Definition update_config (f : CryConfig.t → CryConfig.t) (c : CryConfigFile.t) : CryConfigFile.t :=
  CryConfigFile.mk (CryConfigFile._path c) (f (CryConfigFile._config c)) (CryConfigFile._encryptor c) (CryConfigFile._access c).

Section loader.
Context {crypto : CryptoPP} {memory : Memory} {boost : PropertyTree} {sha : SHA} {Rng : Type} {random : RandomGenerator Rng}
  (VersionString : bytes) (fuel : nat).

Definition _checkVersion (config : CryConfig.t) (allowFilesystemUpgrade : bool) : result unit :=
  tooOld ← isOlderThan (CryConfig._version config) (str "0.9.4") ;
  if (tooOld : bool) then mthrow (CryfsException TooOldFilesystemFormat)
  else
    tooNew ← isOlderThan CryConfig.FilesystemFormatVersion (CryConfig._version config) ;
    if (tooNew : bool) then mthrow (CryfsException TooNewFilesystemFormat)
    else if allowFilesystemUpgrade then mret tt
    else
      older ← isOlderThan (CryConfig._version config) CryConfig.FilesystemFormatVersion ;
      if (older : bool) then mthrow (CryfsException TooOldFilesystemFormat) else mret tt.

Definition _checkCipher (l : t Rng) (config : CryConfig.t) : result unit :=
  match _cipherFromCommandLine l with
  | Some c => if decide (CryConfig._cipher config ≠ c) then mthrow (CryfsException WrongCipher) else mret tt
  | None => mret tt
  end.

Definition _checkMissingBlocksAreIntegrityViolations (l : t Rng) (config : CryConfig.t) (myClientId : Z) : result unit :=
  if decide (_missingBlockIsIntegrityViolationFromCommandLine l = Some true ∧ CryConfig._exclusiveClientId config = None)
  then mthrow (CryfsException FilesystemHasDifferentIntegritySetup)
  else if decide (_missingBlockIsIntegrityViolationFromCommandLine l = Some false ∧ CryConfig._exclusiveClientId config ≠ None)
  then mthrow (CryfsException FilesystemHasDifferentIntegritySetup)
  else
    match CryConfig._exclusiveClientId config with
    | Some id => if decide (id ≠ myClientId) then mthrow (CryfsException SingleClientFileSystem) else mret tt
    | None => mret tt
    end.

(** Save after a change when the file may be written. *)
Definition save_if_writable (access : CryConfigFile.Access) (f : CryConfigFile.t) : M (world Rng) unit :=
  if decide (access = CryConfigFile.ReadWrite) then CryConfigFile.save f else mret tt.

Definition _loadConfig (l : t Rng) (filename : path) (allowFilesystemUpgrade allowReplacedFilesystem : bool)
    (access : CryConfigFile.Access) : M (world Rng) (CryConfigFile.LoadError + ConfigLoadResult) :=
  config ← CryConfigFile.load filename (_keyProvider l) access ;
  match config with
  | inl e => mret (inl e)
  | inr config =>
      let oldConfig := CryConfigFile._config config in
      let config :=
        if decide (CryConfig._version (CryConfigFile._config config) = str "0.9.7"
                   ∨ CryConfig._version (CryConfigFile._config config) = str "0.9.8")
        then update_config (CryConfig.SetVersion (str "0.9.6")) config else config in
      lift (_checkVersion (CryConfigFile._config config) allowFilesystemUpgrade) ;;
      config ←
        (if decide (CryConfig._version (CryConfigFile._config config) ≠ CryConfig.FilesystemFormatVersion) then
           let config := update_config (CryConfig.SetVersion CryConfig.FilesystemFormatVersion) config in
           save_if_writable access config ;; mret config
         else mret config) ;
      config ←
        (if decide (CryConfig._lastOpenedWithVersion (CryConfigFile._config config) ≠ VersionString) then
           let config := update_config (CryConfig.SetLastOpenedWithVersion VersionString) config in
           save_if_writable access config ;; mret config
         else mret config) ;
      lift (_checkCipher l (CryConfigFile._config config)) ;;
      statePath ← LocalStateDir.forFilesystemId (_localStateDir l) (CryConfig._filesystemId (CryConfigFile._config config)) ;
      key ← lift (Data_FromString (CryConfig._encKey (CryConfigFile._config config))) ;
      localState ← LocalStateMetadata.loadOrGenerate fuel statePath key allowReplacedFilesystem ;
      let myClientId := LocalStateMetadata._myClientId localState in
      lift (_checkMissingBlocksAreIntegrityViolations l (CryConfigFile._config config) myClientId) ;;
      mret (inr (mkResult oldConfig config myClientId))
  end.

Definition load (l : t Rng) (filename : path) (allowFilesystemUpgrade allowReplacedFilesystem : bool)
    (access : CryConfigFile.Access) : M (world Rng) (CryConfigFile.LoadError + ConfigLoadResult) :=
  _loadConfig l filename allowFilesystemUpgrade allowReplacedFilesystem access.

Definition _createConfig (l : t Rng) (filename : path) (allowReplacedFilesystem : bool) : M (world Rng) ConfigLoadResult :=
  '(config, myClientId) ← CryConfigCreator.create VersionString fuel (_localStateDir l) (_cipherFromCommandLine l)
    (_blocksizeBytesFromCommandLine l) (_missingBlockIsIntegrityViolationFromCommandLine l) allowReplacedFilesystem ;
  result ← CryConfigFile.create filename config (_keyProvider l) ;
  mret (mkResult config result myClientId).

Definition loadOrCreate (l : t Rng) (filename : path) (allowFilesystemUpgrade allowReplacedFilesystem : bool) :
    M (world Rng) (CryConfigFile.LoadError + ConfigLoadResult) :=
  e ← exists_ filename ;
  if (e : bool)
  then _loadConfig l filename allowFilesystemUpgrade allowReplacedFilesystem CryConfigFile.ReadWrite
  else r ← _createConfig l filename allowReplacedFilesystem ; mret (inr r).

Definition changeEncryptionKey (l : t Rng) (filename : path) (allowFilesystemUpgrade allowReplacedFilesystem : bool)
    (newKeyProvider : CryKeyProvider Rng) : M (world Rng) (option CryConfigFile.LoadError) :=
  config ← _loadConfig l filename allowFilesystemUpgrade allowReplacedFilesystem CryConfigFile.ReadWrite ;
  match config with
  | inl e => mret (Some e)
  | inr r =>
      encryptor ← deriveNewKey newKeyProvider ;
      CryConfigFile.save (CryConfigFile.mk filename (CryConfigFile._config (configFile r)) encryptor CryConfigFile.ReadWrite) ;;
      mret None
  end.
End loader.
End CryConfigLoader.

(** ** Proofs *)
Import CryConfigLoader.

(** *** The version gate *)
Definition v_0_9_4 : version := mkVersion (str "0") (Some (str "9", Some (str "4"))) [] None.
Definition v_0_10 : version := mkVersion (str "0") (Some (str "10", None)) [] None.
Lemma v_0_9_4_ok : version_ok v_0_9_4.
Proof. unfold version_ok; simpl. split_and!; try done; apply (bool_decide_unpack _); by vm_compute. Qed.
Lemma v_0_10_ok : version_ok v_0_10.
Proof. unfold version_ok; simpl. split_and!; try done; apply (bool_decide_unpack _); by vm_compute. Qed.

Lemma isOlderThan_older v w : version_ok v → version_ok w →
  ∃ b, isOlderThan (print_version v) (print_version w) = Ok b ∧ (b = true ↔ older (key_of v) (key_of w)).
Proof.
  intros Hv Hw. eexists. split; [by apply isOlderThan_compare|].
  rewrite <- older_compare_Lt by (by apply tag_chars; [|apply (bool_decide_unpack _); vm_compute]).
  by destruct (older_compare _ _).
Qed.

(** C34. Which file systems are opened. A version below 0.9.4 is too old, one
    above the format version 0.10 of the program too new; one in between is
    opened if it is 0.10 itself or upgrades are allowed, and otherwise
    rejected as too old. *)
Theorem version_gate v config allowUpgrade : version_ok v → CryConfig._version config = print_version v →
  (older (key_of v) (key_of v_0_9_4) → _checkVersion config allowUpgrade = Throw (CryfsException TooOldFilesystemFormat))
  ∧ (older (key_of v_0_10) (key_of v) → _checkVersion config allowUpgrade = Throw (CryfsException TooNewFilesystemFormat))
  ∧ (¬ older (key_of v) (key_of v_0_9_4) → older (key_of v) (key_of v_0_10) →
      _checkVersion config allowUpgrade = if allowUpgrade then Ok tt else Throw (CryfsException TooOldFilesystemFormat))
  ∧ (key_of v = key_of v_0_10 → _checkVersion config allowUpgrade = Ok tt).
Proof.
  intros Hv Hc. unfold _checkVersion. rewrite Hc.
  destruct (isOlderThan_older v v_0_9_4 Hv v_0_9_4_ok) as (b1 & E1 & H1).
  destruct (isOlderThan_older v_0_10 v v_0_10_ok Hv) as (b2 & E2 & H2).
  destruct (isOlderThan_older v v_0_10 Hv v_0_10_ok) as (b3 & E3 & H3).
  change (str "0.9.4") with (print_version v_0_9_4). change CryConfig.FilesystemFormatVersion with (print_version v_0_10).
  rewrite E1. csimp.
  assert (older (key_of v_0_9_4) (key_of v_0_10)) as H4 by (apply older_minor; simpl; vm_compute; done).
  assert (older (key_of v_0_10) (key_of v) → b1 = false) as X1.
  { intros H. apply not_true_is_false. rewrite H1. intros Ho. by apply (asymmetry H4), (transitivity H Ho). }
  assert (older (key_of v) (key_of v_0_10) → b2 = false) as X2.
  { intros H. apply not_true_is_false. rewrite H2. intros Ho. by apply (asymmetry H). }
  assert (key_of v = key_of v_0_10 → b1 = false ∧ b2 = false ∧ b3 = false) as X3.
  { intros H. rewrite H in *. split_and!; apply not_true_is_false; rewrite ?H1, ?H2, ?H3;
      [intros ?; by apply (asymmetry H4)|intros ?; by apply (irreflexivity older (key_of v_0_10))..]. }
  split_and!.
  - intros ->%H1. done.
  - intros H. rewrite X1 by done. rewrite E2. csimp. by apply H2 in H as ->.
  - intros Hn Ho. destruct b1; [by exfalso; apply Hn, H1|]. rewrite E2. csimp. rewrite X2 by done.
    destruct allowUpgrade; [done|]. rewrite E3. csimp. by apply H3 in Ho as ->.
  - intros H. destruct (X3 H) as (-> & -> & ->). rewrite E2. csimp. destruct allowUpgrade; [done|]. by rewrite E3.
Qed.

(** *** Opening a current configuration *)
Section loader_proofs.
Context {crypto : CryptoPP} {crypto_laws : CryptoPPLaws} {memory : Memory} {boost : PropertyTree}
  {boost_laws : PropertyTreeLaws} {sha : SHA} {Rng : Type} {random : RandomGenerator Rng}
  (VersionString : bytes) (fuel : nat).

(** The loader [l] can open the configuration [c] at [q] as client [m]. *)
Record openable (l : t Rng) (q : path) (c : CryConfig.t) (e : CryConfigEncryptor.t) (m : LocalStateMetadata.t)
    (w : world Rng) : Prop := {
  op_file : ∃ file, files w !! q = Some file ∧ stored (Rng := Rng) c e file;
  op_config : storable c;
  op_encryptor : encryptor_ok e;
  op_key : gives_key (_keyProvider l) (CryConfigEncryptor._kdfParameters e) (CryConfigEncryptor._derivedKey e);
  op_version : CryConfig._version c = CryConfig.FilesystemFormatVersion;
  op_opened : CryConfig._lastOpenedWithVersion c = VersionString;
  op_cipher : _checkCipher l c = Ok tt;
  op_client : _checkMissingBlocksAreIntegrityViolations l c (LocalStateMetadata._myClientId m) = Ok tt;
  op_dir : _localStateDir l ≠ [] ∧ no_file_above (state_dir (_localStateDir l) (CryConfig._filesystemId c)) w;
  op_state : remembered (state_dir (_localStateDir l) (CryConfig._filesystemId c)) m w;
  op_hash : ∃ key, CryConfig._encKey c = hex_encode key
    ∧ digest (LocalStateMetadata._encryptionKeyHash m) = sha512 (salt (LocalStateMetadata._encryptionKeyHash m) ++ key) }.

Lemma runs_loadConfig l q c e m up allow access (w : world Rng) : openable l q c e m w →
  runs (_loadConfig VersionString fuel l q up allow access) w (λ r w',
    r = inr (mkResult c (CryConfigFile.mk q c e access) (LocalStateMetadata._myClientId m))
    ∧ files w' = files w ∧ dirs w ⊆ dirs w').
Proof.
  intros [(file & Hf & Hs) Hc He Hk Hv Ho Hci Hcl [Ha Hn] Hr (key & Ekey & Hh)]. unfold _loadConfig.
  eapply runs_bind. { eapply runs_load; [done..|apply Hc|done|done|]. intros w1 H1.
    exact (conj eq_refl H1 : (λ r w1, r = inr _ ∧ same_disk w w1) _ _). }
  cbv zeta beta. intros r w1 [-> [F1 D1]]. rewrite (decide_False (P := _ ∨ _)) by (cbn [CryConfigFile._config]; rewrite Hv; intros [H|H]; discriminate H).
  cbn [CryConfigFile._config].
  eapply runs_bind_lift. { unfold _checkVersion. rewrite Hv. by destruct up. }
  rewrite decide_False by (cbn [CryConfigFile._config]; tauto). eapply runs_bind_eq; [done|].
  rewrite decide_False by (cbn [CryConfigFile._config]; tauto). eapply runs_bind_eq; [done|]. simpl.
  eapply runs_bind_lift; [done|]. eapply runs_bind.
  { apply runs_forFilesystemId; [done|]. unfold no_file_above. by rewrite F1. }
  simpl. intros p w2 (-> & (F2 & D2 & _ & _) & _). rewrite Ekey.
  eapply runs_bind_lift; [apply Data_string_roundtrip|]. eapply runs_bind_eq.
  { rewrite (loadOrGenerate_remembered _ _ m). { rewrite decide_False by tauto. done. }
    unfold remembered. by rewrite F2, F1. }
  eapply runs_bind_lift; [done|]. apply runs_ret. split_and!; [done|congruence|set_solver].
Qed.

(** The configuration file and the local state are in different places. *)
Definition separate (appDir q : path) : Prop := ¬ (appDir `prefix_of` q) ∧ ¬ (q `prefix_of` appDir).

Lemma separate_prefix appDir q rest : separate appDir q → ¬ q `prefix_of` appDir ++ rest.
Proof.
  intros [H1 H2] Hq. destruct (prefix_weak_total q appDir (appDir ++ rest) Hq) as [?|?];
    [by apply prefix_app_r|done|done].
Qed.
Lemma state_dir_app appDir id : state_dir appDir id = appDir ++ [str "filesystems"; hex_encode id].
Proof. unfold state_dir. by rewrite <- app_assoc. Qed.
Lemma separate_state appDir q id : separate appDir q →
  (q ∉ ancestors (state_dir appDir id)) ∧ ∀ x, q ≠ state_dir appDir id ++ [x].
Proof.
  intros Hs. rewrite state_dir_app. split.
  - unfold ancestors. intros (n & -> & _)%list_elem_of_fmap.
    by apply (separate_prefix appDir _ [str "filesystems"; hex_encode id] Hs), prefix_take.
  - intros x ->. rewrite <- app_assoc in Hs. by apply (proj1 Hs), prefix_app_r.
Qed.

(** The client's files do not change when the configuration is written. *)
Lemma local_state_kept appDir q id m file (w w' : world Rng) : separate appDir q →
  files w' = <[q := file]> (files w) →
  (no_file_above (state_dir appDir id) w → no_file_above (state_dir appDir id) w')
  ∧ (remembered (state_dir appDir id) m w → remembered (state_dir appDir id) m w').
Proof.
  intros Hs E. destruct (separate_state appDir q id Hs) as [Ha Hm].
  unfold no_file_above, remembered. rewrite E. split.
  - rewrite !Forall_forall. intros H p Hp. rewrite lookup_insert_ne by (intros ->; done). by apply H.
  - intros (text & H1 & H2). exists text. by rewrite lookup_insert_ne by apply Hm.
Qed.

Definition with_provider (P : CryKeyProvider Rng) (l : t Rng) : t Rng :=
  mk P (_cipherFromCommandLine l) (_blocksizeBytesFromCommandLine l)
    (_missingBlockIsIntegrityViolationFromCommandLine l) (_localStateDir l).

(** The password is changed by writing the same configuration with another
    key. *)
Lemma runs_changeEncryptionKey l q c e m up allow pnew pold (w : world Rng) :
  openable l q c e m w → parent_path q ∈ dirs w → matching pnew pold → separate (_localStateDir l) q →
  runs (changeEncryptionKey VersionString fuel l q up allow pnew) w (λ r w', r = None
    ∧ (∀ p, p ≠ q → files w' !! p = files w !! p) ∧ ∃ e', openable (with_provider pold l) q c e' m w').
Proof.
  intros Ho Hp Hm Hs. unfold changeEncryptionKey. eapply runs_bind; [by apply runs_loadConfig|].
  simpl. intros r w1 (-> & F1 & D1). unfold deriveNewKey.
  apply (runs_bind _ _ _ (λ e' w2, encryptor_ok e' ∧ same_disk w1 w2
    ∧ gives_key pold (CryConfigEncryptor._kdfParameters e') (CryConfigEncryptor._derivedKey e'))).
  { eapply runs_bind; [apply Hm|]. intros [key params] w2 (He & Hw & HP). simpl in *. eapply runs_lift; [|done].
    unfold CryConfigEncryptor.new, EncryptionKey.binaryLength. by rewrite bool_decide_true by apply He. }
  intros e' w2 (He & [F2 D2] & HP). simpl.
  apply (runs_bind _ _ _ (λ _ w3, ∃ file, stored (Rng := Rng) c e' file ∧ files w3 = <[q := file]> (files w))).
  { apply runs_save; [done|apply Ho|done|rewrite D2; by apply D1|]. intros file rng' Hst. exists file. simpl.
    by rewrite F2, F1. }
  intros _ w3 (file & Hst & E3). apply runs_ret. split_and!; [done|intros p Hpq; by rewrite E3, lookup_insert_ne by done|].
  destruct (local_state_kept _ q (CryConfig._filesystemId c) m file w w3 Hs E3) as [Hno Hre].
  exists e'. destruct Ho as [_ ? _ _ ? ? ? ? [? ?] ? ?]. split; try done.
  - exists file. by rewrite E3, lookup_insert_eq.
  - split; [done|]. by apply Hno.
  - by apply Hre.
Qed.

(** C33. Changing the password. When a loader can open a configuration, it
    changes the key without an error; the configuration and all other files
    stay as they are, and a loader with the new key provider opens the same
    configuration as the same client, in any mode. *)
Theorem password_change_keeps_config l q c e m up allow pnew pold (w : world Rng) :
  openable l q c e m w → parent_path q ∈ dirs w → matching pnew pold → separate (_localStateDir l) q →
  runs (changeEncryptionKey VersionString fuel l q up allow pnew) w (λ r w', r = None
    ∧ (∀ p, p ≠ q → files w' !! p = files w !! p)
    ∧ ∃ e', ∀ up' allow' access,
        runs (load VersionString fuel (with_provider pold l) q up' allow' access) w' (λ r' w'',
          r' = inr (mkResult c (CryConfigFile.mk q c e' access) (LocalStateMetadata._myClientId m)) ∧ files w'' = files w')).
Proof.
  intros Ho Hp Hm Hs. eapply runs_mono; [by eapply runs_changeEncryptionKey|].
  intros r w' (-> & Hf & e' & Ho'). split_and!; [done|done|]. exists e'. intros.
  eapply runs_mono; [by apply runs_loadConfig|]. naive_solver.
Qed.

(** *** Creating a configuration *)

(** The choices of the command line, or else the defaults. *)
Definition chosen_cipher (l : t Rng) : bytes :=
  match _cipherFromCommandLine l with Some c => c | None => CryConfigConsole.askCipher end.
Definition created_config (l : t Rng) (id key : bytes) (clientId : Z) : CryConfig.t :=
  CryConfig.mk [] (hex_encode key) (chosen_cipher l) CryConfig.FilesystemFormatVersion VersionString VersionString
    (CryConfigCreator._generateBlocksizeBytes (_blocksizeBytesFromCommandLine l)) id
    (CryConfigCreator._generateExclusiveClientId (_missingBlockIsIntegrityViolationFromCommandLine l) clientId)
    true true.

(** The command line is valid, and the text of the configuration fits into
    its padding. *)
Record creatable (l : t Rng) : Prop := {
  cr_cipher : chosen_cipher l ∈ CryCiphers.supportedCipherNames;
  cr_blocksize : ∀ n, _blocksizeBytesFromCommandLine l = Some n → 0 ≤ n < 2 ^ 32;
  cr_version : Forall printable VersionString;
  cr_text id key clientId text : length id = CryConfig.FilesystemID_LENGTH → (length key ≤ CryCiphers.MAX_KEY_SIZE)%nat →
    0 < clientId < 2 ^ 32 → CryConfig.save (created_config l id key clientId) = Ok text → (length text < 896)%nat;
  cr_draws r : draws (Rng := Rng) fuel r }.

Lemma created_storable l id key clientId : creatable l → length id = CryConfig.FilesystemID_LENGTH →
  (length key ≤ CryCiphers.MAX_KEY_SIZE)%nat → 0 < clientId < 2 ^ 32 → storable (created_config l id key clientId).
Proof.
  intros Hl Hid Hk Hc. split_and!; [|apply Hl|by intros; eapply (cr_text l Hl)]. unfold config_ok.
  destruct (find_supported _ (cr_cipher l Hl)) as [cc Ef]. destruct (find_Ok _ _ Ef) as [Hcc Hname].
  destruct (supported_ok cc Hcc) as (_ & _ & _ & Hpr & _). rewrite Hname in Hpr. simpl. split_and!.
  - repeat constructor; try done; try apply hex_encode_printable; try apply Hl.
  - unfold CryConfigCreator._generateBlocksizeBytes. destruct (_blocksizeBytesFromCommandLine l) as [n|] eqn:E.
    + pose proof (cr_blocksize l Hl n E). lia.
    + by vm_compute.
  - unfold CryConfigCreator._generateBlocksizeBytes. destruct (_blocksizeBytesFromCommandLine l) as [n|] eqn:E.
    + pose proof (cr_blocksize l Hl n E). lia.
    + by vm_compute.
  - done.
  - intros n. unfold CryConfigCreator._generateExclusiveClientId. case_match; [done|]. intros [= <-]. lia.
Qed.

(** No local state yet. *)
Definition fresh_client (appDir : path) (w : world Rng) : Prop :=
  appDir ≠ [] ∧ ∀ p, is_Some (files w !! p) → separate appDir p.
Lemma fresh_no_file appDir id (w : world Rng) : fresh_client appDir w →
  no_file_above (state_dir appDir id) w ∧ ∀ x, files w !! (state_dir appDir id ++ [x]) = None.
Proof.
  intros [_ H]. split.
  - apply Forall_forall. intros p Hp. apply eq_None_not_Some. intros Hf.
    by apply (proj1 (separate_state _ _ id (H p Hf))).
  - intros x. apply eq_None_not_Some. intros Hf. by apply (proj2 (separate_state _ _ id (H _ Hf)) x).
Qed.

Lemma generateCipher_ok l : creatable l →
  CryConfigCreator._generateCipher (_cipherFromCommandLine l) = Ok (chosen_cipher l).
Proof.
  intros Hl. pose proof (cr_cipher l Hl) as Hc. unfold CryConfigCreator._generateCipher, chosen_cipher in *.
  destruct (_cipherFromCommandLine l); [|done]. by rewrite bool_decide_true.
Qed.
(** A key of the length the chosen cipher needs. *)
Definition key_of_cipher (l : t Rng) (key : bytes) : Prop := (length key ≤ CryCiphers.MAX_KEY_SIZE)%nat
  ∧ ∃ c, CryCiphers.find (chosen_cipher l) = Ok c ∧ length key = KEYSIZE (CryCiphers.Cipher c).
Lemma generateEncKey_ok l (r : Rng) : creatable l →
  ∃ key r', CryConfigCreator._generateEncKey (chosen_cipher l) r = (Ok (hex_encode key), r') ∧ key_of_cipher l key.
Proof.
  intros Hl. destruct (find_supported _ (cr_cipher l Hl)) as [c Ef]. destruct (find_Ok _ _ Ef) as [Hc _].
  destruct (supported_ok c Hc) as (_ & Hmax & _).
  unfold CryConfigCreator._generateEncKey, CryCiphers.createKey, EncryptionKey.CreateKey, mbind, M_bind, random_bytes.
  rewrite Ef. csimp. pose proof (get_bytes_length (KEYSIZE (CryCiphers.Cipher c)) r) as Hk.
  destruct (get_bytes _ r) as [key r']; simpl in Hk. destruct (key_string_roundtrip key) as [-> _].
  exists key, r'. split; [done|]. split; [lia|]. by exists c.
Qed.
Lemma ancestors_not_metadata (p : path) x : Forall (λ q, q ≠ p ++ [x]) (ancestors p).
Proof.
  apply Forall_forall. unfold ancestors. intros q (n & -> & _)%list_elem_of_fmap E.
  apply (f_equal length) in E. rewrite length_take, length_app in E. simpl in E. lia.
Qed.

Lemma runs_create_config l allow (w : world Rng) : creatable l → fresh_client (_localStateDir l) w →
  runs (CryConfigCreator.create VersionString fuel (_localStateDir l) (_cipherFromCommandLine l)
          (_blocksizeBytesFromCommandLine l) (_missingBlockIsIntegrityViolationFromCommandLine l) allow) w (λ r w',
    ∃ id key m, r = (created_config l id key (LocalStateMetadata._myClientId m), LocalStateMetadata._myClientId m)
      ∧ length id = CryConfig.FilesystemID_LENGTH ∧ key_of_cipher l key
      ∧ 0 < LocalStateMetadata._myClientId m < 2 ^ 32
      ∧ digest (LocalStateMetadata._encryptionKeyHash m) = sha512 (salt (LocalStateMetadata._encryptionKeyHash m) ++ key)
      ∧ remembered (state_dir (_localStateDir l) id) m w' ∧ dirs w ⊆ dirs w'
      ∧ (∀ p, p ≠ state_dir (_localStateDir l) id ++ [str "metadata"] → files w' !! p = files w !! p)
      ∧ ∀ p, p ∈ dirs w' → p ∈ dirs w ∨ p ∈ ancestors (state_dir (_localStateDir l) id)).
Proof.
  intros Hl Hfresh. unfold CryConfigCreator.create. eapply runs_bind_lift; [by apply generateCipher_ok|].
  pose proof (get_bytes_length CryConfig.FilesystemID_LENGTH (rng w)) as Hid.
  destruct (get_bytes CryConfig.FilesystemID_LENGTH (rng w)) as [id r1] eqn:Eid; simpl in Hid.
  eapply runs_bind_eq; [unfold CryConfigCreator._generateFilesystemID, with_rng, zoom, random_bytes; by rewrite Eid|].
  destruct (generateEncKey_ok l r1 Hl) as (key & r2 & Ekey & Hkey).
  eapply runs_bind_eq; [unfold with_rng, zoom; simpl; by rewrite Ekey|].
  set (w2 := mkWorld _ _ _ _). assert (files w2 = files w ∧ dirs w2 = dirs w) as [F2 D2] by done. clearbody w2.
  destruct (fresh_no_file _ id w Hfresh) as [Hno Hnone]. eapply runs_bind.
  { apply runs_forFilesystemId; [apply Hfresh|]. unfold no_file_above. rewrite F2. apply Hno. }
  simpl. intros p w3 (-> & (F3 & D3 & _ & A3) & Hin). eapply runs_bind_lift; [apply Data_string_roundtrip|].
  eapply runs_bind; [apply runs_generate; [rewrite F3, F2; apply Hnone..|done|apply Hl]|].
  simpl. intros m w4 (Hc & Hh & Hr & D4 & F4). apply runs_ret. exists id, key, m.
  split_and!; [done|done|done|lia|lia|done|done| | |].
  - set_solver.
  - intros p Hp. by rewrite F4, F3, F2 by done.
  - intros p. rewrite D4, <- D2. apply A3.
Qed.

(** What creating a configuration leaves as it was, and what it chose. *)
Record created (l : t Rng) (q : path) (id key : bytes) (m : LocalStateMetadata.t) (w w' : world Rng) : Prop := {
  cd_id : length id = CryConfig.FilesystemID_LENGTH;
  cd_key : key_of_cipher l key;
  cd_client : 0 < LocalStateMetadata._myClientId m < 2 ^ 32;
  cd_files p : p ≠ q → p ≠ state_dir (_localStateDir l) id ++ [str "metadata"] → files w' !! p = files w !! p;
  cd_dirs p : p ∈ dirs w' → p ∈ dirs w ∨ p ∈ ancestors (state_dir (_localStateDir l) id) }.

Lemma runs_createConfig l q allow pold (w : world Rng) : creatable l → fresh_client (_localStateDir l) w →
  files w !! q = None → q ∉ dirs w → parent_path q ∈ dirs w → separate (_localStateDir l) q →
  matching (_keyProvider l) pold →
  runs (_createConfig VersionString fuel l q allow) w (λ r w', ∃ id key e m,
    let c := created_config l id key (LocalStateMetadata._myClientId m) in
    r = mkResult c (CryConfigFile.mk q c e CryConfigFile.ReadWrite) (LocalStateMetadata._myClientId m)
    ∧ 0 < LocalStateMetadata._myClientId m ∧ dirs w ⊆ dirs w' ∧ created l q id key m w w'
    ∧ ∀ l', _keyProvider l' = pold → _localStateDir l' = _localStateDir l → _checkCipher l' c = Ok tt →
        _checkMissingBlocksAreIntegrityViolations l' c (LocalStateMetadata._myClientId m) = Ok tt → openable l' q c e m w').
Proof.
  intros Hl Hfresh Hf Hd Hp Hs Hm. unfold _createConfig. eapply runs_bind; [by apply runs_create_config|].
  simpl. intros [c cid] w1 (id & key & m & [= -> ->] & Hid & Hkey & Hcid & Hh & Hr & D1 & F1 & A1).
  destruct (separate_state _ _ id Hs) as [Hanc Hmeta]. pose proof (created_storable l id key _ Hl Hid (proj1 Hkey) Hcid) as Hst.
  apply (runs_bind _ _ _ (λ f w2, ∃ e file, f = CryConfigFile.mk q (created_config l id key (LocalStateMetadata._myClientId m)) e CryConfigFile.ReadWrite
    ∧ encryptor_ok e ∧ stored (Rng := Rng) (created_config l id key (LocalStateMetadata._myClientId m)) e file
    ∧ gives_key pold (CryConfigEncryptor._kdfParameters e) (CryConfigEncryptor._derivedKey e)
    ∧ files w2 = <[q := file]> (files w1) ∧ dirs w2 = dirs w1)).
  { eapply runs_create; [by rewrite F1|by intros [?|?]%A1|by apply D1|done|done|]. intros e file w2 ? ? ? ? ?. by exists e, file. }
  intros f w2 (e & file & -> & He & Hstored & HP & F2 & D2). apply runs_ret. exists id, key, e, m. split_and!; [done|lia|by rewrite D2| |].
  { split; [done|done|done|intros p Hpq Hpm; rewrite F2, lookup_insert_ne by done; by apply F1|rewrite D2; apply A1]. }
  intros l' <- Hdir Hci Hcl. destruct (local_state_kept _ q id m file w1 w2 Hs F2) as [Hno Hre].
  split; try done.
  - exists file. by rewrite F2, lookup_insert_eq.
  - rewrite Hdir. split; [apply Hfresh|]. apply Hno. destruct (fresh_no_file _ id w Hfresh) as [Hno' _].
    eapply Forall_impl; [apply Forall_and; split; [apply Hno'|by apply ancestors_not_metadata]|].
    simpl. intros p [Hpn Hne]. by rewrite F1.
  - rewrite Hdir. by apply Hre.
  - by exists key.
Qed.

(** The command line of [l'] asks for nothing else than what [l] created. *)
Definition agrees (l l' : t Rng) : Prop :=
  (_cipherFromCommandLine l' = None ∨ _cipherFromCommandLine l' = Some (chosen_cipher l))
  ∧ (_missingBlockIsIntegrityViolationFromCommandLine l' = None
     ∨ _missingBlockIsIntegrityViolationFromCommandLine l' =
         Some (CryConfigCreator._generateMissingBlockIsIntegrityViolation (_missingBlockIsIntegrityViolationFromCommandLine l))).
Lemma agrees_checks l l' id key clientId : agrees l l' →
  _checkCipher l' (created_config l id key clientId) = Ok tt
  ∧ _checkMissingBlocksAreIntegrityViolations l' (created_config l id key clientId) clientId = Ok tt.
Proof.
  intros [Hc Hm]. split.
  - unfold _checkCipher. destruct Hc as [-> | ->]; [done|]. simpl. by rewrite decide_False by tauto.
  - unfold _checkMissingBlocksAreIntegrityViolations. simpl. unfold CryConfigCreator._generateExclusiveClientId.
    destruct (CryConfigCreator._generateMissingBlockIsIntegrityViolation _); simpl;
      destruct Hm as [-> | ->]; repeat (case_decide; try (by destruct_and!)); done.
Qed.

(** A file system that has been created can be opened again. With a
    valid command line, room for the configuration and no local state,
    [loadOrCreate] creates a configuration with the chosen cipher, block size
    and client binding, and a client id that is not the reserved one. After
    that, any loader of the same client whose key provider gives the key that
    was used, and whose command line does not ask for something else, opens
    the same configuration with the same client id, with or without
    permission to write, and changes no file by it. *)
Theorem created_config_reopens l q up allow pold (w : world Rng) : creatable l → fresh_client (_localStateDir l) w →
  files w !! q = None → q ∉ dirs w → parent_path q ∈ dirs w → separate (_localStateDir l) q →
  matching (_keyProvider l) pold →
  runs (loadOrCreate VersionString fuel l q up allow) w (λ r w', ∃ id key e clientId,
    let c := created_config l id key clientId in
    r = inr (mkResult c (CryConfigFile.mk q c e CryConfigFile.ReadWrite) clientId) ∧ 0 < clientId
    ∧ ∀ l' up' allow' access, _keyProvider l' = pold → _localStateDir l' = _localStateDir l → agrees l l' →
        runs (load VersionString fuel l' q up' allow' access) w' (λ r' w'',
          r' = inr (mkResult c (CryConfigFile.mk q c e access) clientId) ∧ files w'' = files w')).
Proof.
  intros Hl Hfresh Hf Hd Hp Hs Hm. unfold loadOrCreate. eapply runs_bind_eq; [done|].
  rewrite bool_decide_false by (rewrite Hf; intros [[??]|?]; done).
  eapply runs_bind; [by apply runs_createConfig|]. intros r w' (id & key & e & m & -> & Hid & _ & _ & Ho). apply runs_ret.
  exists id, key, e, (LocalStateMetadata._myClientId m). split_and!; [done|done|]. intros l' up' allow' access HP Hdir Ha.
  destruct (agrees_checks l l' id key (LocalStateMetadata._myClientId m) Ha) as [H1 H2].
  eapply runs_mono; [by eapply runs_loadConfig, Ho|]. simpl. intros ?? (? & ? & _). done.
Qed.

(** *** Reading without permission to write *)
Definition keeps_file (q : path) {A} (m : M (world Rng) A) : Prop := ∀ w, files (m w).2 !! q = files w !! q.
Lemma keeps_disk_file q {A} (m : M (world Rng) A) : keeps_disk m → keeps_file q m.
Proof. intros H w. by rewrite (proj1 (H w)). Qed.
Lemma keeps_file_bind q {A B} (m : M (world Rng) A) (k : A → M (world Rng) B) :
  keeps_file q m → (∀ a, keeps_file q (k a)) → keeps_file q (m ≫= k).
Proof.
  intros Hm Hk w. unfold mbind, M_bind. specialize (Hm w). destruct (m w) as [[a|ex] w']; [|done]. by rewrite Hk.
Qed.
Lemma keeps_file_bind_Ok q {A B} (m : M (world Rng) A) (k : A → M (world Rng) B) :
  keeps_file q m → (∀ a w w', m w = (Ok a, w') → keeps_file q (k a)) → keeps_file q (m ≫= k).
Proof.
  intros Hm Hk w. unfold mbind, M_bind. specialize (Hm w). destruct (m w) as [[a|ex] w'] eqn:E; [|done].
  by rewrite (Hk _ _ _ E).
Qed.
Lemma keeps_file_write q p content : p ≠ q → keeps_file q (ofstream_write (Rng := Rng) p content).
Proof.
  intros Hp w. unfold ofstream_write, mbind, M_bind. csimp. case_decide; [|done]. simpl. by rewrite lookup_insert_ne.
Qed.
Lemma keeps_file_createDir q p : keeps_file q (LocalStateDir._createDirIfNotExists (Rng := Rng) p).
Proof.
  apply keeps_file_bind; [by intros w|]. intros []; [by intros w|]. intros w. simpl.
  unfold create_directories, mbind, M_bind. csimp. by case_decide.
Qed.
#[local] Hint Resolve keeps_ret keeps_lift keeps_throw keeps_with_rng : core.

Lemma keeps_file_forFilesystemId q appDir id : keeps_file q (LocalStateDir.forFilesystemId (Rng := Rng) appDir id).
Proof.
  repeat (apply keeps_file_bind; [apply keeps_file_createDir || (apply keeps_disk_file; auto)|intros]).
  apply keeps_disk_file; auto.
Qed.
Lemma forFilesystemId_returns appDir id p (w w' : world Rng) :
  LocalStateDir.forFilesystemId appDir id w = (Ok p, w') → p = state_dir appDir id.
Proof.
  unfold LocalStateDir.forFilesystemId. destruct (FixedSizeData_string_roundtrip id) as [-> _].
  intros (_ & w1 & _ & (_ & w2 & _ & (? & w3 & [= <- <-] & (_ & w4 & _ & [= <- _])%bind_inv)%bind_inv)%bind_inv)%bind_inv.
  done.
Qed.
Lemma keeps_file_loadOrGenerate q (p : path) key allow : (∀ x, q ≠ p ++ [x]) →
  keeps_file q (LocalStateMetadata.loadOrGenerate (Rng := Rng) fuel p key allow).
Proof.
  intros Hq. apply keeps_file_bind.
  { intros w. unfold LocalStateMetadata.load_, mbind, M_bind. csimp. destruct (files w !! _); [|done].
    by destruct (LocalStateMetadata.deserialize_ _). }
  intros [m|]; [case_decide; apply keeps_disk_file; auto|].
  unfold LocalStateMetadata.generate_. apply keeps_file_bind; [apply keeps_disk_file; auto|]. intros id.
  apply keeps_file_bind.
  { intros w. unfold LocalStateMetadata._tryLoadClientIdFromLegacyFile, mbind, M_bind. csimp.
    rewrite parent_path_app. destruct (files w !! _); [|done]. simpl. by rewrite lookup_delete_ne by (intros E; by eapply Hq). }
  intros legacy. apply keeps_file_bind; [apply keeps_disk_file; auto|]. intros s.
  apply keeps_file_bind; [|intros; apply keeps_disk_file; auto].
  apply keeps_file_bind; [apply keeps_file_write; intros E; by eapply Hq|]. intros _.
  apply keeps_file_bind; [apply keeps_disk_file; auto|]. intros text. apply keeps_file_write. intros E. by eapply Hq.
Qed.

(** Opening a file system read-only never writes its configuration file,
    whatever the file contains, whichever way the call ends and whatever the
    command line allows: no migration, no version update. *)
Theorem readonly_keeps_config l q up allow (w : world Rng) : quiet (_keyProvider l) → separate (_localStateDir l) q →
  files (load VersionString fuel l q up allow CryConfigFile.ReadOnly w).2 !! q = files w !! q.
Proof.
  intros HP Hs. revert w. change (keeps_file q (load VersionString fuel l q up allow CryConfigFile.ReadOnly)).
  unfold load, _loadConfig. apply keeps_file_bind; [by apply keeps_disk_file, load_keeps_disk|].
  intros [e|f]; [apply keeps_disk_file; auto|]. cbv zeta. set (f1 := if decide _ then _ else f). clearbody f1.
  assert (∀ g, save_if_writable (Rng := Rng) CryConfigFile.ReadOnly g = mret tt) as Hsave by done.
  apply keeps_file_bind; [by apply keeps_disk_file|]. intros _.
  apply keeps_file_bind; [rewrite Hsave; case_decide; by apply keeps_disk_file|]. intros f2.
  apply keeps_file_bind; [rewrite Hsave; case_decide; by apply keeps_disk_file|]. intros f3.
  apply keeps_file_bind; [by apply keeps_disk_file|]. intros _.
  apply keeps_file_bind_Ok; [apply keeps_file_forFilesystemId|]. intros p w w' ->%forFilesystemId_returns.
  apply keeps_file_bind; [by apply keeps_disk_file|]. intros key.
  apply keeps_file_bind; [by apply keeps_file_loadOrGenerate, separate_state|]. intros m.
  apply keeps_file_bind; [by apply keeps_disk_file|]. intros _. by apply keeps_disk_file.
Qed.
End loader_proofs.

(** ** Witnesses *)
Import Toy ToyTree ToyKdf ToySha.

Definition w_version : bytes := str "0.11.1".
Definition w_appDir : path := [str "home"; str "state"].
Definition w_file : path := [str "base"; str "cryfs.config"].
Definition w_provider (password : bytes) : CryKeyProvider Z := CryPresetPasswordBasedKeyProvider password SCrypt.TestSettings false.
Definition w_loader (password : bytes) : t Z := mk (w_provider password) (Some (str "aes-128-gcm")) None None w_appDir.
Definition w_disk : world Z := mkWorld ∅ {[ [str "base"] ]} 1 None.

Lemma w_creatable password : creatable w_version 2 (w_loader password).
Proof.
  split.
  - apply (bool_decide_unpack _). by vm_compute.
  - done.
  - apply (bool_decide_unpack _). by vm_compute.
  - intros id key clientId text Hid Hkey _. change CryConfig.FilesystemID_LENGTH with 16%nat in Hid.
    change CryCiphers.MAX_KEY_SIZE with 56%nat in Hkey. unfold CryConfig.save.
    destruct (FixedSizeData_string_roundtrip id) as [E _]. cbn [CryConfig._filesystemId created_config]. rewrite E.
    intros [= <-]. rewrite length_text_build. unfold CryConfig.entries. rewrite !sum_list_with_app. simpl sum_list_with.
    rewrite !length_hex, Hid. simpl. lia.
  - intros r. apply counter_draws.
Qed.
Lemma w_fresh : fresh_client w_appDir w_disk.
Proof. split; [done|]. intros p [? Hp]. cbn [files w_disk] in Hp. by rewrite lookup_empty in Hp. Qed.
Lemma w_separate : separate w_appDir w_file.
Proof. split; apply (bool_decide_unpack _); by vm_compute. Qed.
Lemma w_parent : parent_path w_file ∈ dirs w_disk.
Proof. cbn [dirs w_disk]. by apply elem_of_singleton. Qed.
Lemma w_no_dir : w_file ∉ dirs w_disk.
Proof. cbn [dirs w_disk]. by intros ?%elem_of_singleton. Qed.
Lemma w_matching password : matching (w_provider password) (w_provider password).
Proof. apply matching_preset, TestSettings_ok. Qed.

Lemma created_config_reopens_witness :
  runs (loadOrCreate w_version 2 (w_loader (str "pw")) w_file false false) w_disk (λ r w', ∃ id key e clientId,
    let c := created_config w_version (w_loader (str "pw")) id key clientId in
    r = inr (mkResult c (CryConfigFile.mk w_file c e CryConfigFile.ReadWrite) clientId) ∧ 0 < clientId
    ∧ runs (load w_version 2 (w_loader (str "pw")) w_file false false CryConfigFile.ReadOnly) w' (λ r' w'',
        r' = inr (mkResult c (CryConfigFile.mk w_file c e CryConfigFile.ReadOnly) clientId) ∧ files w'' = files w')).
Proof.
  eapply runs_mono.
  - exact (created_config_reopens w_version 2 (w_loader (str "pw")) w_file false false (w_provider (str "pw")) w_disk
      (w_creatable _) w_fresh eq_refl w_no_dir w_parent w_separate (w_matching _)).
  - intros r w' (id & key & e & clientId & -> & Hid & H). exists id, key, e, clientId. split_and!; [done|done|].
    apply H; [done|done|]. split; [by right|by left].
Defined.

Lemma password_change_keeps_config_witness : ∃ w c e m,
  openable w_version (w_loader (str "pw")) w_file c e m w
  ∧ runs (changeEncryptionKey w_version 2 (w_loader (str "pw")) w_file false false (w_provider (str "new"))) w
      (λ r w', r = None ∧ (∀ p, p ≠ w_file → files w' !! p = files w !! p)
    ∧ ∃ e', ∀ up' allow' access,
        runs (load w_version 2 (with_provider (w_provider (str "new")) (w_loader (str "pw"))) w_file up' allow' access) w'
          (λ r' w'', r' = inr (mkResult c (CryConfigFile.mk w_file c e' access) (LocalStateMetadata._myClientId m))
            ∧ files w'' = files w')).
Proof.
  destruct (runs_createConfig w_version 2 (w_loader (str "pw")) w_file false (w_provider (str "pw")) w_disk
    (w_creatable _) w_fresh eq_refl w_no_dir w_parent w_separate (w_matching _))
    as (r & w & E & id & key & e & m & _ & _ & Hd & _ & Ho).
  destruct (agrees_checks w_version (w_loader (str "pw")) (w_loader (str "pw")) id key (LocalStateMetadata._myClientId m))
    as [H1 H2]; [split; [by right|by left]|].
  specialize (Ho (w_loader (str "pw")) eq_refl eq_refl H1 H2).
  assert (parent_path w_file ∈ dirs w) as Hp by (apply Hd, w_parent).
  exists w, (created_config w_version (w_loader (str "pw")) id key (LocalStateMetadata._myClientId m)), e, m.
  split; [exact Ho|].
  exact (password_change_keeps_config w_version 2 (w_loader (str "pw")) w_file _ e m false false
    (w_provider (str "new")) (w_provider (str "new")) w Ho Hp (w_matching _) w_separate).
Defined.

Lemma readonly_keeps_config_witness :
  files (load w_version 2 (w_loader (str "pw")) w_file true true CryConfigFile.ReadOnly w_disk).2 !! w_file = files w_disk !! w_file.
Proof. exact (readonly_keeps_config w_version 2 (w_loader (str "pw")) w_file true true w_disk (quiet_preset _ _ _) w_separate). Defined.

Lemma version_gate_witness :
  _checkVersion (CryConfig.SetVersion (str "0.11") CryConfig.new) true = Throw (CryfsException TooNewFilesystemFormat).
Proof.
  apply (version_gate (mkVersion (str "0") (Some (str "11", None)) [] None)).
  - unfold version_ok; simpl. split_and!; try done; apply (bool_decide_unpack _); by vm_compute.
  - reflexivity.
  - apply older_minor; by vm_compute.
Defined.
