(* ===== verification/Cli.v ===== *)
(** * Opening a file system from the command line's options (cryfs-cli/Cli.cpp,
    program_options/ProgramOptions.h)

    The part of [Cli::initFilesystem] that works on the configuration: the
    checks of the base directory, the choice of the key provider, loading or
    creating the configuration, and the check that the file system in a base
    directory is still the one that was there before. The rest of
    [initFilesystem] is in Setup.v.

    [normal] stands for [bf::absolute] and [lexically_normal], paths in the
    options are absolute. *)
From S2P Require Import Prelude Serialization Serializer Version Cipher CryCipher ConfigCrypto CryConfig ConfigFile OnDisk LocalState ConfigLoader.
From Stdlib Require Import Lia ZArith.
Open Scope Z_scope.

Module Cli.
(** ** ProgramOptions.h, [Cli::Credentials] *)
Record ProgramOptions := mkOptions {
  baseDir : path;
  configFile : option path;
  localStateDir : path;
  allowFilesystemUpgrade : bool;
  allowReplacedFilesystem : bool;
  createMissingBasedir : bool;
  cipher : option bytes;
  blocksizeBytes : option Z;
  allowIntegrityViolations : bool;
  missingBlockIsIntegrityViolation : option bool }.
(** [returnedHash] says whether the pointer is set. *)
Record Credentials := mkCredentials { password : option bytes; givenHash : bytes; returnedHash : bool }.

Section cli.
Context {crypto : CryptoPP} {memory : Memory} {boost : PropertyTree} {sha : SHA} {kdf : ScryptKDF} {Rng : Type}
  {random : RandomGenerator Rng} (VersionString : bytes) (fuel : nat) (normal : path → bytes)
  (_scryptSettings : SCrypt.SCryptSettings).

Definition _determineConfigFile (options : ProgramOptions) : path :=
  match configFile options with
  | None => baseDir options ++ [str "cryfs.config"]
  | Some configFile => configFile
  end.

Definition _checkConfigIntegrity (basedir localStateDir : path) (config : CryConfigFile.t) (allowReplacedFilesystem : bool) :
    M (world Rng) unit :=
  basedirMetadata ← BasedirMetadata.load localStateDir ;
  let filesystemId := CryConfig._filesystemId (CryConfigFile._config config) in
  (if negb allowReplacedFilesystem then
     correct ← lift (BasedirMetadata.filesystemIdForBasedirIsCorrect normal basedirMetadata basedir filesystemId) ;
     if negb correct then mthrow (CryfsException FilesystemIdChanged) else mret tt
   else mret tt) ;;
  basedirMetadata ← lift (BasedirMetadata.updateFilesystemIdForBasedir normal basedirMetadata basedir filesystemId) ;
  BasedirMetadata.save basedirMetadata.

Definition _createKeyProvider (credentials : Credentials) : CryKeyProvider Rng :=
  match password credentials with
  | None => CryDirectKeyProvider (givenHash credentials)
  | Some password => CryPresetPasswordBasedKeyProvider password _scryptSettings (returnedHash credentials)
  end.

Definition _loadOrCreateConfigFile (configFilePath localStateDir : path) (credentials : Credentials) (cipher : option bytes)
    (blocksizeBytes : option Z) (allowFilesystemUpgrade : bool) (missingBlockIsIntegrityViolation : option bool)
    (allowReplacedFilesystem : bool) : M (world Rng) (CryConfigFile.LoadError + CryConfigLoader.ConfigLoadResult) :=
  CryConfigLoader.loadOrCreate VersionString fuel
    (CryConfigLoader.mk (_createKeyProvider credentials) cipher blocksizeBytes missingBlockIsIntegrityViolation localStateDir)
    configFilePath allowFilesystemUpgrade allowReplacedFilesystem.

Definition _loadOrCreateConfig (options : ProgramOptions) (localStateDir : path) (credentials : Credentials) :
    M (world Rng) CryConfigLoader.ConfigLoadResult :=
  let configFile := _determineConfigFile options in
  config ← _loadOrCreateConfigFile configFile localStateDir credentials (cipher options) (blocksizeBytes options)
    (allowFilesystemUpgrade options) (missingBlockIsIntegrityViolation options) (allowReplacedFilesystem options) ;
  match config with
  | inl CryConfigFile.DecryptionFailed => mthrow (CryfsException WrongPassword)
  | inl CryConfigFile.ConfigFileNotFound => mthrow (CryfsException InvalidFilesystem)
  | inr config =>
      _checkConfigIntegrity (baseDir options) localStateDir (CryConfigLoader.configFile config)
        (allowReplacedFilesystem options) ;;
      mret config
  end.

Definition _checkDirAccessible (dir : path) (createMissingDir : bool) (errorCode : ErrorCode) : M (world Rng) unit :=
  e ← exists_ dir ;
  (if negb e then
     if createMissingDir then
       created ← create_directory dir ;
       if negb created then mthrow (CryfsException errorCode) else mret tt
     else mthrow (CryfsException errorCode)
   else mret tt) ;;
  w ← get_state ;
  if negb (is_directory dir w) then mthrow (CryfsException errorCode) else mret tt.
Definition _sanityChecks (options : ProgramOptions) : M (world Rng) unit :=
  _checkDirAccessible (baseDir options) (createMissingBasedir options) InaccessibleBaseDir.
End cli.
End Cli.

(** ** What the client remembers of base directories *)
Import Cli.
Section guard.
Context {crypto : CryptoPP} {crypto_laws : CryptoPPLaws} {boost : PropertyTree} {boost_laws : PropertyTreeLaws}
  {Rng : Type} (normal : path → bytes).
Implicit Types (w : world Rng) (m : gmap bytes bytes).

Definition id_key (b : bytes) : bytes := b ++ str ".filesystemId".
Definition basedirs_file (appDir : path) : path := appDir ++ [str "basedirs"].

(** The file [basedirs] holds the map [m] from base directories to the ids
    of their file systems; no file is the empty map. *)
Definition knows (appDir : path) m w : Prop := ∃ t, document (set_map id_key (dom m)) t
  ∧ (∀ b, (∀ b', b' ∈ dom m → ¬ below (id_key b) (id_key b')) → pt_get (id_key b) t = hex_encode <$> m !! b)
  ∧ map_Forall (λ _ id, length id = CryConfig.FilesystemID_LENGTH) m
  ∧ match files w !! basedirs_file appDir with None => t = pt_empty | Some text => read_json text = Ok t end.

(** The name of a base directory fits into the document: it is not the name
    of another one followed by [.filesystemId]. *)
Definition fits (b : bytes) m : Prop := Forall printable b ∧
  ∀ b', b' ∈ dom m → ¬ below (id_key b) (id_key b') ∧ ¬ below (id_key b') (id_key b).
(** The directory of the local state can be created. *)
Definition has_room (appDir : path) w : Prop := appDir ≠ [] ∧ no_file_above appDir w.

Lemma id_key_inj b b' : id_key b = id_key b' → b = b'.
Proof. apply app_inj_2. done. Qed.
Lemma not_below_self p : ¬ below p p.
Proof. intros [k E]. apply (f_equal length) in E. rewrite !length_app in E. simpl in E. lia. Qed.
Lemma knows_nothing appDir w : files w !! basedirs_file appDir = None → knows appDir ∅ w.
Proof.
  intros Hf. exists pt_empty. rewrite Hf, dom_empty_L, set_map_empty. split; [constructor|]. split; [|by split; [apply map_Forall_empty|]].
  intros b _. rewrite lookup_empty, pt_get_empty; [done|]. unfold id_key. by destruct b.
Qed.
Lemma knows_files appDir m w w' : files w' !! basedirs_file appDir = files w !! basedirs_file appDir → knows appDir m w → knows appDir m w'.
Proof. unfold knows. by intros ->. Qed.

(** A new entry keeps the tree a document. *)
Lemma knows_put m t b id : document (set_map id_key (dom m)) t → fits b m → length id = CryConfig.FilesystemID_LENGTH →
  (∀ b, (∀ b', b' ∈ dom m → ¬ below (id_key b) (id_key b')) → pt_get (id_key b) t = hex_encode <$> m !! b) →
  document (set_map id_key (dom (<[b := id]> m))) (pt_put (id_key b) (hex_encode id) t)
  ∧ (∀ c, (∀ b', b' ∈ dom (<[b := id]> m) → ¬ below (id_key c) (id_key b')) →
       pt_get (id_key c) (pt_put (id_key b) (hex_encode id) t) = hex_encode <$> <[b := id]> m !! c).
Proof.
  intros Ht [Hp Hb] Hid Hg. split.
  - assert (set_map id_key (dom (<[b := id]> m)) = {[id_key b]} ∪ set_map (D := gset bytes) id_key (dom m)) as ->
      by (rewrite dom_insert_L, set_map_union_L, set_map_singleton_L; done).
    apply document_put; [done| |by intros q (b' & -> & Hq)%elem_of_map; apply Hb].
    split; [simpl; unfold id_key; by destruct b|]. split; simpl; [|apply hex_encode_printable].
    apply Forall_app. split; [done|]. apply (bool_decide_unpack _). by vm_compute.
  - intros c Hc. destruct (decide (c = b)) as [->|Hne]; [by rewrite pt_get_put, lookup_insert_eq|].
    rewrite lookup_insert_ne by done. rewrite pt_get_put_ne; [|by intros ?%id_key_inj|apply Hc; rewrite dom_insert; set_solver].
    apply Hg. intros b' Hb'. apply Hc. rewrite dom_insert. set_solver.
Qed.

Lemma runs_load_basedirs appDir m w : knows appDir m w → has_room appDir w →
  runs (BasedirMetadata.load appDir) w (λ d w', BasedirMetadata._filename d = basedirs_file appDir
    ∧ document (set_map id_key (dom m)) (BasedirMetadata._data d)
    ∧ (∀ b, (∀ b', b' ∈ dom m → ¬ below (id_key b) (id_key b')) → pt_get (id_key b) (BasedirMetadata._data d) = hex_encode <$> m !! b)
    ∧ grown appDir w w' ∧ appDir ∈ dirs w').
Proof.
  intros (t & Ht & Hg & _ & Hf) [Ha Hn]. unfold BasedirMetadata.load, LocalStateDir.forBasedirMetadata.
  apply (runs_bind _ _ _ (λ p w1, p = basedirs_file appDir ∧ grown appDir w w1 ∧ appDir ∈ dirs w1)).
  { eapply runs_bind; [by apply runs_createDir|]. intros [] w1 Hw1. by apply runs_ret. }
  intros p w1 (-> & Hgr & Hd). pose proof Hgr as (F1 & _). eapply runs_bind_eq.
  { unfold BasedirMetadata._load, mbind, M_bind. csimp. rewrite F1.
    instantiate (2 := t). destruct (files w !! basedirs_file appDir); [by rewrite Hf|by rewrite Hf]. }
  apply runs_ret. done.
Qed.

Lemma ofstream_write_ok (p : path) content w : parent_path p ∈ dirs w →
  ofstream_write p content w = (Ok tt, set_files (<[p := content]> (files w)) w).
Proof. intros Hp. unfold ofstream_write, mbind, M_bind. csimp. by rewrite decide_True. Qed.
Lemma save_basedirs appDir t text w : appDir ∈ dirs w → write_json t = Ok text →
  runs (BasedirMetadata.save (BasedirMetadata.mk (basedirs_file appDir) t)) w
    (λ _ w', files w' = <[basedirs_file appDir := text]> (files w) ∧ dirs w' = dirs w).
Proof.
  intros Hd Ew. assert (parent_path (basedirs_file appDir) ∈ dirs w) as Hp by (unfold basedirs_file; by rewrite parent_path_app).
  unfold BasedirMetadata.save, BasedirMetadata._save. cbn [BasedirMetadata._filename BasedirMetadata._data].
  eapply runs_bind_eq; [by apply ofstream_write_ok|]. eapply runs_bind_lift; [done|].
  eapply runs_eq; [by apply ofstream_write_ok|]. simpl. by rewrite insert_insert_eq.
Qed.

(** The check compares with the map and updates it. *)
Lemma basedir_correct m t appDir basedir id : fits (normal basedir) m → length id = CryConfig.FilesystemID_LENGTH →
  map_Forall (λ _ id, length id = CryConfig.FilesystemID_LENGTH) m →
  (∀ b, (∀ b', b' ∈ dom m → ¬ below (id_key b) (id_key b')) → pt_get (id_key b) t = hex_encode <$> m !! b) →
  BasedirMetadata.filesystemIdForBasedirIsCorrect normal (BasedirMetadata.mk (basedirs_file appDir) t) basedir id =
    Ok (bool_decide (m !! normal basedir = None ∨ m !! normal basedir = Some id)).
Proof.
  intros [_ Hb] Hid Hm Hg. unfold BasedirMetadata.filesystemIdForBasedirIsCorrect, BasedirMetadata.jsonPathForBasedir. simpl.
  fold (id_key (normal basedir)). rewrite Hg by (intros; by apply Hb).
  destruct (m !! normal basedir) as [id'|] eqn:E; cbn [fmap option_fmap option_map]; [|by rewrite bool_decide_true by auto].
  destruct (FixedSizeData_string_roundtrip id') as [_ E']. rewrite (Hm _ _ E) in E'. rewrite E'. csimp.
  f_equal. apply bool_decide_ext. naive_solver.
Qed.

Definition grown_dirs (p : path) w w' : Prop := dirs w ⊆ dirs w' ∧ ∀ x, x ∈ dirs w' → x ∈ dirs w ∨ x ∈ ancestors p.
Lemma checkConfigIntegrity_spec appDir m basedir config allow w :
  let id := CryConfig._filesystemId (CryConfigFile._config config) in
  knows appDir m w → has_room appDir w → fits (normal basedir) m → length id = CryConfig.FilesystemID_LENGTH →
  ∃ w', (∀ p, p ≠ basedirs_file appDir → files w' !! p = files w !! p) ∧ grown_dirs appDir w w' ∧
    if decide (allow = true ∨ m !! normal basedir = None ∨ m !! normal basedir = Some id)
    then _checkConfigIntegrity normal basedir appDir config allow w = (Ok tt, w') ∧ knows appDir (<[normal basedir := id]> m) w'
    else _checkConfigIntegrity normal basedir appDir config allow w = (Throw (CryfsException FilesystemIdChanged), w') ∧ knows appDir m w'.
Proof.
  intros id Hk Hr Hb Hid. pose proof Hk as (_ & _ & _ & Hm & _).
  destruct (runs_load_basedirs appDir m w Hk Hr) as ([fn t] & w1 & E & Hfn & Ht & Hg & (F1 & D1 & _ & A1) & Hd). simpl in Hfn, Ht, Hg. subst fn.
  destruct (knows_put m t (normal basedir) id Ht Hb Hid Hg) as [Ht' Hg'].
  destruct (json_reads_back _ _ Ht') as (text & Ew & Er).
  assert (∀ w2, w2 = w1 → runs (d ← lift (BasedirMetadata.updateFilesystemIdForBasedir normal (BasedirMetadata.mk (basedirs_file appDir) t) basedir id) ; BasedirMetadata.save d) w2
    (λ _ w', files w' = <[basedirs_file appDir := text]> (files w) ∧ dirs w' = dirs w1)) as Hsave.
  { intros w2 ->. destruct (FixedSizeData_string_roundtrip id) as [Es _].
    eapply runs_bind_lift; [unfold BasedirMetadata.updateFilesystemIdForBasedir; by rewrite Es|].
    eapply runs_mono; [by apply save_basedirs|]. simpl. intros _ w' [-> ->]. by rewrite F1. }
  unfold _checkConfigIntegrity. erewrite bind_ok by exact E. fold id.
  assert (∀ w', files w' = <[basedirs_file appDir := text]> (files w) → knows appDir (<[normal basedir := id]> m) w') as Hnew.
  { intros w' F. eexists. split; [exact Ht'|]. split; [done|]. split; [by apply map_Forall_insert_2|]. by rewrite F, lookup_insert_eq. }
  destruct allow; cbn [negb].
  - destruct (Hsave w1 eq_refl) as ([] & w' & E' & F' & D'). exists w'. rewrite decide_True by auto.
    split_and!; [intros p Hp; by rewrite F', lookup_insert_ne|unfold grown_dirs; by rewrite D'| |by apply Hnew].
    erewrite bind_ok by done. exact E'.
  - rewrite (basedir_correct m) by done. case_bool_decide as Hc.
    + destruct (Hsave w1 eq_refl) as ([] & w' & E' & F' & D'). exists w'. rewrite decide_True by tauto.
      split_and!; [intros p Hp; by rewrite F', lookup_insert_ne|unfold grown_dirs; by rewrite D'| |by apply Hnew].
      erewrite bind_ok by done. exact E'.
    + exists w1. rewrite decide_False by (intros [?|?]; [done|tauto]). split_and!; [by rewrite F1|done|done|].
      eapply knows_files, Hk. by rewrite F1.
Qed.
End guard.

(** ** Loading and creating leave other files alone *)
Section frame.
Context {crypto : CryptoPP} {crypto_laws : CryptoPPLaws} {memory : Memory} {boost : PropertyTree} {boost_laws : PropertyTreeLaws}
  {sha : SHA} {kdf : ScryptKDF} {Rng : Type} {random : RandomGenerator Rng} (VersionString : bytes) (fuel : nat).
Import CryConfigLoader.
#[local] Hint Resolve keeps_ret keeps_lift keeps_throw keeps_with_rng keeps_disk_file : core.

Definition quiet_new (P : CryKeyProvider Rng) : Prop := ∀ size w, same_disk w (requestKeyForNewFilesystem P size w).2.
Lemma quiet_createKeyProvider settings credentials :
  quiet (_createKeyProvider (Rng := Rng) settings credentials) ∧ quiet_new (_createKeyProvider (Rng := Rng) settings credentials).
Proof.
  unfold _createKeyProvider. destruct (password credentials) as [pw|]; (split; [auto using quiet_preset, quiet_direct|]); intros size.
  - apply (keeps_bind (with_rng _)); [auto|]. intros [key params]. apply keeps_bind; [|auto].
    unfold saveEncryptionKey. destruct (returnedHash credentials); [by intros w|auto].
  - by intros w.
Qed.

Lemma keeps_file_store p q content : p ≠ q → keeps_file p (StoreToFile (Rng := Rng) content q).
Proof. intros Hp w. unfold StoreToFile, mbind, M_bind. csimp. case_decide; [|done]. simpl. by rewrite lookup_insert_ne. Qed.
Lemma keeps_file_save p f : p ≠ CryConfigFile._path f → keeps_file p (CryConfigFile.save (Rng := Rng) f).
Proof.
  intros Hp. unfold CryConfigFile.save. case_decide; [auto|]. do 2 (apply keeps_file_bind; [auto|intros ?]). by apply keeps_file_store.
Qed.
Lemma keeps_file_save_if p access f : p ≠ CryConfigFile._path f → keeps_file p (save_if_writable (Rng := Rng) access f).
Proof. intros Hp. unfold save_if_writable. case_decide; auto using keeps_file_save. Qed.
Lemma keeps_file_load p q P access : p ≠ q → quiet P → keeps_file p (CryConfigFile.load (Rng := Rng) q P access).
Proof.
  intros Hp HP. apply keeps_file_bind; [by intros w|]. intros [file|]; [|auto]. apply keeps_file_bind.
  { apply keeps_disk_file, keeps_bind; [auto|]. intros [o|]; [|auto]. apply keeps_bind; [intros w; apply HP|auto using keeps_bind]. }
  intros [e|]; [|auto]. apply keeps_file_bind; [auto|]. intros [d|]; [|auto]. apply keeps_file_bind; [auto|].
  intros c. case_decide; [auto|]. apply keeps_file_bind; [|auto].
  destruct (CryConfigEncryptor.wasInDeprecatedConfigFormat d); [|auto]. case_decide; auto using keeps_file_save.
Qed.

(** The path of a loaded configuration file is the one that was asked for. *)
Lemma load_path (q : path) P access (w w' : world Rng) f : CryConfigFile.load q P access w = (Ok (inr f), w') → CryConfigFile._path f = q.
Proof.
  intros ([file|] & w1 & _ & E)%bind_inv; [|done]. apply bind_inv in E as ([e|] & w2 & _ & E); [|done].
  apply bind_inv in E as ([d|] & w3 & _ & E); [|done]. apply bind_inv in E as (c & w4 & _ & E). case_decide; [done|].
  by apply bind_inv in E as (_ & w5 & _ & [= <- _]).
Qed.

Lemma keeps_file_metadata p appDir id key allow : (∀ id x, p ≠ state_dir appDir id ++ [x]) →
  keeps_file p (statePath ← LocalStateDir.forFilesystemId (Rng := Rng) appDir id ; key ← lift key ;
                LocalStateMetadata.loadOrGenerate fuel statePath key allow).
Proof.
  intros Hp. apply keeps_file_bind_Ok; [apply keeps_file_forFilesystemId|]. intros ? w w' ->%forFilesystemId_returns.
  apply keeps_file_bind; [auto|]. intros k. by apply keeps_file_loadOrGenerate.
Qed.

Lemma keeps_file_loadConfig p l q up allow access : p ≠ q → quiet (_keyProvider l) → (∀ id x, p ≠ state_dir (_localStateDir l) id ++ [x]) →
  keeps_file p (_loadConfig (Rng := Rng) VersionString fuel l q up allow access).
Proof.
  intros Hpq HP Hs. unfold _loadConfig. apply keeps_file_bind_Ok; [by apply keeps_file_load|].
  intros [e|f] w w'; [auto|]. intros Hf%load_path. cbv zeta. set (f1 := if decide _ then _ else f).
  assert (CryConfigFile._path f1 = q) as H1 by (unfold f1; by case_decide). clearbody f1.
  apply keeps_file_bind; [auto|]. intros _.
  apply keeps_file_bind_Ok.
  { case_decide; [|auto]. apply keeps_file_bind; [apply keeps_file_save_if; simpl; congruence|auto]. }
  intros f2 w1 w2 E2. assert (CryConfigFile._path f2 = q) as H2.
  { case_decide; [|by injection E2 as <-]. by apply bind_inv in E2 as (_ & ? & _ & [= <- _]). }
  clear E2. apply keeps_file_bind.
  { case_decide; [|auto]. apply keeps_file_bind; [apply keeps_file_save_if; simpl; congruence|auto]. }
  intros f3. apply keeps_file_bind; [auto|]. intros _.
  apply keeps_file_bind_Ok; [apply keeps_file_forFilesystemId|]. intros ? w3 w4 ->%forFilesystemId_returns.
  apply keeps_file_bind; [auto|]. intros key. apply keeps_file_bind; [by apply keeps_file_loadOrGenerate|]. intros m.
  apply keeps_file_bind; auto.
Qed.

Lemma keeps_file_create p (l : t Rng) allow : (∀ id x, p ≠ state_dir (_localStateDir l) id ++ [x]) →
  keeps_file p (CryConfigCreator.create (Rng := Rng) VersionString fuel (_localStateDir l) (_cipherFromCommandLine l)
    (_blocksizeBytesFromCommandLine l) (_missingBlockIsIntegrityViolationFromCommandLine l) allow).
Proof.
  intros Hs. unfold CryConfigCreator.create. do 3 (apply keeps_file_bind; [auto|intros ?]).
  apply keeps_file_bind_Ok; [apply keeps_file_forFilesystemId|]. intros ? w3 w4 ->%forFilesystemId_returns.
  apply keeps_file_bind; [auto|]. intros k. apply keeps_file_bind; [by apply keeps_file_loadOrGenerate|]. auto.
Qed.
Lemma keeps_file_createConfig p l q allow : p ≠ q → quiet_new (_keyProvider l) → (∀ id x, p ≠ state_dir (_localStateDir l) id ++ [x]) →
  keeps_file p (_createConfig (Rng := Rng) VersionString fuel l q allow).
Proof.
  intros Hpq HP Hs. unfold _createConfig. apply keeps_file_bind; [by apply keeps_file_create|]. intros [c clientId].
  apply keeps_file_bind; [|auto]. unfold CryConfigFile.create. apply keeps_file_bind; [by intros w|]. intros []; [auto|].
  apply keeps_file_bind.
  { apply keeps_disk_file, keeps_bind; [intros w; apply HP|]. intros [k ps]. auto. }
  intros e. apply keeps_file_bind; [by apply keeps_file_save|auto].
Qed.
Lemma keeps_file_loadOrCreate p l q up allow : p ≠ q → quiet (_keyProvider l) → quiet_new (_keyProvider l) →
  (∀ id x, p ≠ state_dir (_localStateDir l) id ++ [x]) →
  keeps_file p (loadOrCreate (Rng := Rng) VersionString fuel l q up allow).
Proof.
  intros Hpq HP HP' Hs. unfold loadOrCreate. apply keeps_file_bind; [by intros w|]. intros [].
  - by apply keeps_file_loadConfig.
  - apply keeps_file_bind; [by apply keeps_file_createConfig|auto].
Qed.

(** *** File system ids have the length of their type *)
Lemma FromString_length n s d : FixedSizeData_FromString n s = Ok d → length d = n.
Proof.
  unfold FixedSizeData_FromString, ASSERT. case_bool_decide; [|done]. csimp. intros E.
  change (Ok (splice 0 (take n (hex_decode s)) (replicate n x00)) = Ok d) in E. assert (splice 0 (take n (hex_decode s)) (replicate n x00) = d) as <- by congruence.
  rewrite length_splice; rewrite length_replicate; [done|]. rewrite length_take. lia.
Qed.
Lemma load_id_length data (r r' : Rng) c : CryConfig.load data r = (Ok c, r') → length (CryConfig._filesystemId c) = CryConfig.FilesystemID_LENGTH.
Proof.
  unfold CryConfig.load. intros (pt & r1 & _ & (rb & r2 & _ & (k & r3 & _ & (ci & r4 & _ & E)%bind_inv)%bind_inv)%bind_inv)%bind_inv.
  apply bind_inv in E as (id & r5 & E & [= <- _]). simpl. destruct (pt_get _ pt) as [s|].
  - eapply FromString_length. unfold lift in E. by injection E.
  - unfold random_bytes in E. pose proof (get_bytes_length CryConfig.FilesystemID_LENGTH r4) as Hl.
    destruct (get_bytes _ r4). injection E as <- _. done.
Qed.
Definition file_id (f : CryConfigFile.t) : bytes := CryConfig._filesystemId (CryConfigFile._config f).
Lemma load_file_id (q : path) P access (w w' : world Rng) f : CryConfigFile.load q P access w = (Ok (inr f), w') →
  length (file_id f) = CryConfig.FilesystemID_LENGTH.
Proof.
  intros ([file|] & w1 & _ & E)%bind_inv; [|done]. apply bind_inv in E as ([e|] & w2 & _ & E); [|done].
  apply bind_inv in E as ([d|] & w3 & _ & E); [|done]. apply bind_inv in E as (c & w4 & Ec & E). case_decide; [done|].
  apply bind_inv in E as (_ & w5 & _ & [= <- _]). unfold with_rng, zoom in Ec.
  destruct (CryConfig.load _ (rng w3)) as [[c'|] r'] eqn:El; [|done]. injection Ec as <- _. by eapply load_id_length.
Qed.
Lemma updated_id access g (b : Prop) `{!Decision b} f f' (w w' : world Rng) :
  (if decide b then (save_if_writable access (update_config g f) ;; mret (update_config g f)) else mret f) w = (Ok f', w') →
  (∀ c, CryConfig._filesystemId (g c) = CryConfig._filesystemId c) → file_id f' = file_id f.
Proof.
  intros E Hg. case_decide; [|by injection E as <-]. apply bind_inv in E as (_ & ? & _ & [= <- _]). apply Hg.
Qed.
Lemma loadConfig_id l q up allow access (w w' : world Rng) r : _loadConfig VersionString fuel l q up allow access w = (Ok (inr r), w') →
  length (file_id (configFile r)) = CryConfig.FilesystemID_LENGTH.
Proof.
  intros ([e|f] & w1 & Hf & E)%bind_inv; [done|]. apply load_file_id in Hf. cbv zeta in E. revert E. set (f1 := if decide _ then _ else f).
  assert (file_id f1 = file_id f) as H1 by (unfold f1; by case_decide). clearbody f1.
  intros (_ & w2 & _ & (f2 & w3 & E2 & (f3 & w4 & E3 & E)%bind_inv)%bind_inv)%bind_inv.
  apply updated_id in E2; [|done]. apply updated_id in E3; [|done].
  apply bind_inv in E as (_ & w5 & _ & (p & w6 & _ & (k & w7 & _ & (m & w8 & _ & (_ & w9 & _ & [= <- _])%bind_inv)%bind_inv)%bind_inv)%bind_inv).
  simpl. congruence.
Qed.
Lemma createConfig_id l q allow (w w' : world Rng) r : _createConfig VersionString fuel l q allow w = (Ok r, w') →
  length (file_id (configFile r)) = CryConfig.FilesystemID_LENGTH.
Proof.
  intros ([c cid] & w1 & Hc & (f & w2 & Hf & [= <- _])%bind_inv)%bind_inv. simpl.
  assert (CryConfigFile._config f = c) as Ef.
  { apply bind_inv in Hf as ([] & w3 & _ & Hf); [done|]. apply bind_inv in Hf as (e & w4 & _ & (_ & w5 & _ & [= <- _])%bind_inv). done. }
  unfold file_id. rewrite Ef. unfold CryConfigCreator.create in Hc.
  apply bind_inv in Hc as (ci & w3 & _ & Hc). apply bind_inv in Hc as (id & w4 & Hid & Hc). apply bind_inv in Hc as (k & w5 & _ & Hc).
  apply bind_inv in Hc as (sp & w6 & _ & Hc). apply bind_inv in Hc as (k' & w7 & _ & Hc). apply bind_inv in Hc as (m & w8 & _ & [= <- _]).
  simpl. unfold with_rng, zoom, CryConfigCreator._generateFilesystemID, random_bytes in Hid.
  pose proof (get_bytes_length CryConfig.FilesystemID_LENGTH (rng w3)) as Hl. destruct (get_bytes _ (rng w3)). by injection Hid as <- _.
Qed.
Lemma loadOrCreate_id l q up allow (w w' : world Rng) r : loadOrCreate VersionString fuel l q up allow w = (Ok (inr r), w') →
  length (file_id (configFile r)) = CryConfig.FilesystemID_LENGTH.
Proof.
  intros ([] & w1 & _ & E)%bind_inv; [by eapply loadConfig_id|]. apply bind_inv in E as (r' & w2 & E & [= <- _]). by eapply createConfig_id.
Qed.
End frame.

(** ** A replaced file system is noticed *)
Section replaced.
Context {crypto : CryptoPP} {crypto_laws : CryptoPPLaws} {memory : Memory} {boost : PropertyTree} {boost_laws : PropertyTreeLaws}
  {sha : SHA} {kdf : ScryptKDF} {Rng : Type} {random : RandomGenerator Rng} (VersionString : bytes) (fuel : nat)
  (normal : path → bytes) (settings : SCrypt.SCryptSettings).

Lemma basedirs_not_state appDir id x : basedirs_file appDir ≠ state_dir appDir id ++ [x].
Proof. intros E%(f_equal length). unfold basedirs_file, state_dir in E. rewrite !length_app in E. simpl in E. lia. Qed.
Lemma ancestor_not_state appDir p id x : p ∈ ancestors appDir → p ≠ state_dir appDir id ++ [x].
Proof.
  unfold ancestors. intros (n & -> & _)%list_elem_of_fmap E%(f_equal length).
  unfold state_dir in E. rewrite length_take, !length_app in E. simpl in E. lia.
Qed.
Lemma basedirs_not_above appDir id : basedirs_file appDir ∉ ancestors (state_dir appDir id).
Proof.
  unfold ancestors. intros (n & E & _)%list_elem_of_fmap. rewrite state_dir_app in E.
  assert (basedirs_file appDir `prefix_of` appDir ++ [str "filesystems"; hex_encode id]) as H by (rewrite E; apply prefix_take).
  by apply prefix_app_inv, prefix_cons_inv_1 in H.
Qed.
Lemma basedirs_not_ancestor appDir : basedirs_file appDir ∉ ancestors appDir.
Proof.
  unfold ancestors, basedirs_file. intros (n & E%(f_equal length) & _)%list_elem_of_fmap. rewrite length_app, length_take in E. simpl in E. lia.
Qed.
Lemma separate_basedirs appDir q : separate appDir q → basedirs_file appDir ≠ q ∧ (q ∉ ancestors appDir).
Proof.
  intros [H1 H2]. split; [intros <-; by apply H1, prefix_app_r|]. unfold ancestors.
  intros (n & -> & _)%list_elem_of_fmap. apply H2, prefix_take.
Qed.

(** Loading and creating keep what the client remembers. *)
Lemma loadOrCreateConfigFile_keeps appDir q credentials ci bs up miss allow known (w w' : world Rng) res : separate appDir q →
  _loadOrCreateConfigFile VersionString fuel settings q appDir credentials ci bs up miss allow w = (res, w') →
  (knows appDir known w → knows appDir known w') ∧ (has_room appDir w → has_room appDir w').
Proof.
  intros [Hb Hq]%separate_basedirs E. destruct (quiet_createKeyProvider (Rng := Rng) settings credentials) as [H1 H2].
  assert (∀ p, p ≠ q → (∀ id x, p ≠ state_dir appDir id ++ [x]) → files w' !! p = files w !! p) as K.
  { intros p Hp Hs. pose proof (keeps_file_loadOrCreate VersionString fuel p (CryConfigLoader.mk (_createKeyProvider settings credentials) ci bs miss appDir)
      q up allow Hp H1 H2 Hs w) as K. unfold _loadOrCreateConfigFile in E. by rewrite E in K. }
  split.
  - apply knows_files, K; [done|]. intros. apply basedirs_not_state.
  - intros [Ha Hn]. split; [done|]. unfold no_file_above in *. rewrite Forall_forall in *. intros p Hp.
    rewrite K; [by apply Hn|by intros ->|]. intros. by apply ancestor_not_state.
Qed.

(** C13. Whatever has happened to the base directory, and whatever the
    options and credentials are: if a configuration is accepted, then the id
    of its file system is the one the client remembers for this base
    directory, unless it remembers none or replaced file systems are
    allowed; and from then on it remembers this id. *)
Theorem replaced_filesystem_refused appDir known options credentials r (w w' : world Rng) :
  let b := normal (baseDir options) in
  let id := CryConfig._filesystemId (CryConfigFile._config (CryConfigLoader.configFile r)) in
  knows appDir known w → fits b known → has_room appDir w → separate appDir (_determineConfigFile options) →
  _loadOrCreateConfig VersionString fuel normal settings options appDir credentials w = (Ok r, w') →
  (allowReplacedFilesystem options = false → known !! b = None ∨ known !! b = Some id) ∧ knows appDir (<[b := id]> known) w'.
Proof.
  intros b id Hk Hb Hr Hs ([e|r'] & w1 & Hl & E)%bind_inv; [by destruct e|]. apply bind_inv in E as ([] & w2 & E & [= -> ->]).
  destruct (loadOrCreateConfigFile_keeps _ _ _ _ _ _ _ _ known _ _ _ Hs Hl) as [Hk1 Hr1].
  destruct (checkConfigIntegrity_spec normal appDir known (baseDir options) (CryConfigLoader.configFile r) (allowReplacedFilesystem options) w1)
    as (w3 & _ & _ & Hc); [by apply Hk1|by apply Hr1|done|by eapply loadOrCreate_id|].
  fold b id in Hc. case_decide as Hd; destruct Hc as [Hc Hk']; rewrite Hc in E; [|done]. injection E as <-.
  split; [|done]. intros Ha. destruct Hd as [Hd|Hd]; [congruence|done].
Qed.
End replaced.

(** ** Creating a file system and opening it again *)
Section session.
Context {crypto : CryptoPP} {crypto_laws : CryptoPPLaws} {memory : Memory} {boost : PropertyTree} {boost_laws : PropertyTreeLaws}
  {sha : SHA} {kdf : ScryptKDF} {kdf_laws : ScryptLaws} {Rng : Type} {random : RandomGenerator Rng} (VersionString : bytes) (fuel : nat)
  (normal : path → bytes) (settings : SCrypt.SCryptSettings).
Import CryConfigLoader.

Definition loader_of (options : ProgramOptions) (credentials : Credentials) : t Rng :=
  mk (_createKeyProvider settings credentials) (cipher options) (blocksizeBytes options) (missingBlockIsIntegrityViolation options)
    (localStateDir options).

(** *** Only the key provider writes the returned hash *)
Definition keeps_hash {A} (m : M (world Rng) A) : Prop := ∀ w, ConfigFile.returnedHash (m w).2 = ConfigFile.returnedHash w.
Lemma keeps_hash_bind {A B} (m : M (world Rng) A) (k : A → M (world Rng) B) : keeps_hash m → (∀ a, keeps_hash (k a)) → keeps_hash (m ≫= k).
Proof. intros Hm Hk w. unfold mbind, M_bind. specialize (Hm w). destruct (m w) as [[a|ex] w']; [|done]. by rewrite Hk. Qed.
Lemma keeps_hash_lift {A} (r : result A) : keeps_hash (lift r).
Proof. by intros w. Qed.
Lemma keeps_hash_ret {A} (a : A) : keeps_hash (mret a).
Proof. by intros w. Qed.
Lemma keeps_hash_throw {A} (ex : exn) : keeps_hash (mthrow ex : M (world Rng) A).
Proof. by intros w. Qed.
Lemma keeps_hash_rng {A} (m : M Rng A) : keeps_hash (with_rng m).
Proof. intros w. unfold with_rng, zoom. by destruct (m (rng w)). Qed.
Lemma keeps_hash_write p content : keeps_hash (ofstream_write (Rng := Rng) p content).
Proof. intros w. unfold ofstream_write, mbind, M_bind. csimp. by case_decide. Qed.
Lemma keeps_hash_store p content : keeps_hash (StoreToFile (Rng := Rng) content p).
Proof. intros w. unfold StoreToFile, mbind, M_bind. csimp. by case_decide. Qed.
Lemma keeps_hash_createDir p : keeps_hash (LocalStateDir._createDirIfNotExists (Rng := Rng) p).
Proof.
  apply keeps_hash_bind; [by intros w|]. intros []; [by intros w|]. intros w. simpl.
  unfold create_directories, mbind, M_bind. csimp. by case_decide.
Qed.
#[local] Hint Resolve keeps_hash_lift keeps_hash_ret keeps_hash_throw keeps_hash_rng keeps_hash_write keeps_hash_store keeps_hash_createDir : core.
Lemma keeps_hash_checkConfigIntegrity basedir appDir config allow : keeps_hash (_checkConfigIntegrity (Rng := Rng) normal basedir appDir config allow).
Proof.
  apply keeps_hash_bind.
  { apply keeps_hash_bind; [apply keeps_hash_bind; auto|]. intros fn. apply keeps_hash_bind; [|auto].
    intros w. unfold BasedirMetadata._load, mbind, M_bind. csimp. by destruct (files w !! fn). }
  intros d. apply keeps_hash_bind.
  { destruct allow; cbn [negb]; [auto|]. apply keeps_hash_bind; [auto|]. intros []; cbn [negb]; auto. }
  intros _. apply keeps_hash_bind; [auto|]. intros d'. apply keeps_hash_bind; [auto|]. intros _. apply keeps_hash_bind; auto.
Qed.
Lemma keeps_hash_save f : keeps_hash (CryConfigFile.save (Rng := Rng) f).
Proof. unfold CryConfigFile.save. case_decide; [auto|]. do 2 (apply keeps_hash_bind; [auto|intros ?]). auto. Qed.

(** A new key is returned. *)
Lemma create_returns_hash q c pw (w w' : world Rng) f :
  CryConfigFile.create q c (CryPresetPasswordBasedKeyProvider pw settings true) w = (Ok f, w') →
  ConfigFile.returnedHash w' = Some (CryConfigEncryptor._derivedKey (CryConfigFile._encryptor f)).
Proof.
  intros ([] & w1 & _ & E)%bind_inv; [done|]. apply bind_inv in E as (e & w2 & He & E).
  apply bind_inv in E as ([] & w3 & Hs & [= <- <-]). simpl. pose proof (keeps_hash_save (CryConfigFile.mk q c e CryConfigFile.ReadWrite) w2) as Hh.
  rewrite Hs in Hh. simpl in Hh. rewrite Hh. clear Hs Hh.
  unfold deriveNewKey in He. apply bind_inv in He as ([key params] & w4 & Hk & He).
  apply bind_inv in Hk as ([key' params'] & w5 & _ & Hk). apply bind_inv in Hk as ([] & w6 & Hm & [= -> -> ->]).
  injection Hm as <-. unfold lift, CryConfigEncryptor.new in He.
  destruct (ASSERT _ _) as [[]|] eqn:Ea in He; [|done]. injection He as <- <-. done.
Qed.

(** *** Other ways to the same key *)
Lemma preset_gives_any pw s s' save save' params key :
  gives_key (Rng := Rng) (CryPresetPasswordBasedKeyProvider pw s save) params key → gives_key (Rng := Rng) (CryPresetPasswordBasedKeyProvider pw s' save') params key.
Proof.
  intros H w. destruct (H w) as (k & w' & E & -> & _). apply preset_gives_key. apply bind_inv in E as (k' & w1 & Ek & E).
  injection Ek as Ek <-. apply bind_inv in E as (_ & w2 & _ & [= -> _]). done.
Qed.
Lemma openable_provider P l q c e m (w : world Rng) : openable VersionString l q c e m w →
  gives_key P (CryConfigEncryptor._kdfParameters e) (CryConfigEncryptor._derivedKey e) → openable VersionString (with_provider P l) q c e m w.
Proof. intros [] HP. by split. Qed.
Lemma openable_files l q c e m (w w' : world Rng) : openable VersionString l q c e m w → separate (_localStateDir l) q →
  (∀ p, p ≠ basedirs_file (_localStateDir l) → files w' !! p = files w !! p) → openable VersionString l q c e m w'.
Proof.
  intros [?? ?????? [Ha Hn] Hr ?] Hs%separate_basedirs Hf. split; try done.
  - rewrite Hf; [done|]. intros ->. by apply (proj1 Hs).
  - split; [done|]. unfold no_file_above in *. rewrite Forall_forall in *. intros p Hp. rewrite Hf; [by apply Hn|]. intros ->.
    by apply basedirs_not_above in Hp.
  - unfold remembered in *. rewrite Hf; [done|]. intros E. symmetry in E. by apply basedirs_not_state in E.
Qed.

(** *** The options agree with what they created *)
Lemma agrees_self (l : t Rng) : agrees l l.
Proof.
  unfold agrees, chosen_cipher, CryConfigCreator._generateMissingBlockIsIntegrityViolation.
  destruct (_cipherFromCommandLine l), (_missingBlockIsIntegrityViolationFromCommandLine l); auto.
Qed.

(** A fresh client remembers nothing and has room. *)
Lemma fresh_knows appDir (w : world Rng) : fresh_client appDir w → knows appDir ∅ w ∧ has_room appDir w.
Proof.
  intros [Ha Hs]. split; [|split; [done|]].
  - apply knows_nothing, eq_None_not_Some. intros Hf. apply (proj1 (Hs _ Hf)). by apply prefix_app_r.
  - apply Forall_forall. intros p Hp. apply eq_None_not_Some. intros Hf. apply (proj2 (Hs _ Hf)).
    unfold ancestors in Hp. apply list_elem_of_fmap in Hp as (n & -> & _). apply prefix_take.
Qed.
Lemma fits_empty b : Forall printable b → fits b ∅.
Proof. intros Hb. split; [done|]. rewrite dom_empty_L. set_solver. Qed.
Lemma fits_self b id : Forall printable b → fits b {[ b := id ]}.
Proof. intros Hb. split; [done|]. rewrite dom_singleton_L. intros b' ->%elem_of_singleton. split; apply not_below_self. Qed.

(** Opening what can be opened. *)
Lemma runs_open options credentials c e m known (w : world Rng) :
  let q := _determineConfigFile options in
  let b := normal (baseDir options) in
  openable VersionString (loader_of options credentials) q c e m w → separate (localStateDir options) q →
  knows (localStateDir options) known w → fits b known → has_room (localStateDir options) w →
  length (CryConfig._filesystemId c) = CryConfig.FilesystemID_LENGTH →
  (allowReplacedFilesystem options = true ∨ known !! b = None ∨ known !! b = Some (CryConfig._filesystemId c)) →
  runs (_loadOrCreateConfig VersionString fuel normal settings options (localStateDir options) credentials) w (λ r w',
    r = mkResult c (CryConfigFile.mk q c e CryConfigFile.ReadWrite) (LocalStateMetadata._myClientId m)
    ∧ knows (localStateDir options) (<[b := CryConfig._filesystemId c]> known) w'
    ∧ ∀ p, p ≠ basedirs_file (localStateDir options) → files w' !! p = files w !! p).
Proof.
  intros q b Ho Hs Hk Hb [Ha Hn] Hid Hd. unfold _loadOrCreateConfig. fold q. pose proof Ho as [(file & Hf & _) ? ? ? ? ? ? ? ? ? ?].
  apply (runs_bind _ _ _ (λ r w1, r = inr (mkResult c (CryConfigFile.mk q c e CryConfigFile.ReadWrite) (LocalStateMetadata._myClientId m))
    ∧ files w1 = files w)).
  { unfold _loadOrCreateConfigFile, loadOrCreate. fold (loader_of options credentials). eapply runs_bind_eq; [done|].
    rewrite bool_decide_true by (rewrite Hf; by left). eapply runs_mono; [by apply runs_loadConfig|]. naive_solver. }
  simpl. intros r w1 [-> F1].
  destruct (checkConfigIntegrity_spec normal (localStateDir options) known (baseDir options) (CryConfigFile.mk q c e CryConfigFile.ReadWrite)
    (allowReplacedFilesystem options) w1) as (w2 & F2 & _ & Hc); [|split; [done|]|done|done|].
  { eapply knows_files, Hk. by rewrite F1. } { unfold no_file_above. by rewrite F1. }
  simpl in Hc. fold b in Hc. rewrite decide_True in Hc by done. destruct Hc as [Hc Hk2].
  eapply runs_bind_eq; [exact Hc|]. apply runs_ret. split_and!; [done|done|]. intros p Hp. by rewrite F2, F1.
Qed.

(** A client opens a base directory for the first time, with a password. *)
Section first.
Context (pw : bytes).
Definition first : Credentials := mkCredentials (Some pw) [] true.
Record first_ok (options : ProgramOptions) (w : world Rng) : Prop := {
  fi_options : creatable VersionString fuel (loader_of options first);
  fi_client : fresh_client (localStateDir options) w;
  fi_file : files w !! _determineConfigFile options = None;
  fi_dir : _determineConfigFile options ∉ dirs w;
  fi_parent : parent_path (_determineConfigFile options) ∈ dirs w;
  fi_separate : separate (localStateDir options) (_determineConfigFile options);
  fi_settings : settings_ok settings;
  fi_name : Forall printable (normal (baseDir options)) }.

(** What the first opening leaves behind. *)
Record first_opened (options : ProgramOptions) (id key : bytes) (e : CryConfigEncryptor.t) (m : LocalStateMetadata.t)
    (r : ConfigLoadResult) (w w' : world Rng) : Prop := {
  fo_result : r = mkResult (created_config VersionString (loader_of options first) id key (LocalStateMetadata._myClientId m))
    (CryConfigFile.mk (_determineConfigFile options) (created_config VersionString (loader_of options first) id key (LocalStateMetadata._myClientId m))
      e CryConfigFile.ReadWrite) (LocalStateMetadata._myClientId m);
  fo_hash : ConfigFile.returnedHash w' = Some (CryConfigEncryptor._derivedKey e);
  fo_openable : openable VersionString (loader_of options first) (_determineConfigFile options)
    (created_config VersionString (loader_of options first) id key (LocalStateMetadata._myClientId m)) e m w';
  fo_knows : knows (localStateDir options) {[ normal (baseDir options) := id ]} w';
  fo_room : has_room (localStateDir options) w';
  fo_id : length id = CryConfig.FilesystemID_LENGTH;
  fo_key : key_of_cipher (loader_of options first) key;
  fo_client : 0 < LocalStateMetadata._myClientId m < 2 ^ 32;
  fo_files p : p ≠ _determineConfigFile options → p ≠ state_dir (localStateDir options) id ++ [str "metadata"] →
    p ≠ basedirs_file (localStateDir options) → files w' !! p = files w !! p;
  fo_dirs : grown_dirs (state_dir (localStateDir options) id) w w' }.

Lemma runs_first options (w : world Rng) : first_ok options w →
  runs (_loadOrCreateConfig VersionString fuel normal settings options (localStateDir options) first) w
    (λ r w', ∃ id key e m, first_opened options id key e m r w w').
Proof.
  intros [Hl Hfresh Hf Hd Hp Hs Hset Hpr]. set (q := _determineConfigFile options) in *. set (appDir := localStateDir options) in *.
  set (l := loader_of options first) in *.
  assert (matching (_keyProvider l) (_keyProvider l)) as Hm by (by apply matching_preset).
  destruct (runs_createConfig VersionString fuel l q (allowReplacedFilesystem options) (_keyProvider l) w Hl Hfresh Hf Hd Hp Hs Hm)
    as (r & w1 & E & id & key & e & m & Hr & _ & D1 & [Hid Hkey Hcl HF HD] & Ho). cbv zeta in Hr.
  destruct (agrees_checks VersionString l l id key (LocalStateMetadata._myClientId m) (agrees_self l)) as [H1 H2].
  specialize (Ho l eq_refl eq_refl H1 H2).
  assert (_loadOrCreateConfigFile VersionString fuel settings q appDir first (cipher options) (blocksizeBytes options) (allowFilesystemUpgrade options)
    (missingBlockIsIntegrityViolation options) (allowReplacedFilesystem options) w = (Ok (inr r), w1)) as El.
  { unfold _loadOrCreateConfigFile, loadOrCreate. erewrite bind_ok by done.
    rewrite bool_decide_false by (rewrite Hf; intros [[??]|?]; done). fold (loader_of options first). fold l. by erewrite bind_ok by exact E. }
  destruct (loadOrCreateConfigFile_keeps _ _ _ _ _ _ _ _ _ _ _ ∅ _ _ _ Hs El) as [Hk1 Hr1].
  destruct (fresh_knows _ _ Hfresh) as [Hk0 Hr0]. specialize (Hk1 Hk0). specialize (Hr1 Hr0).
  destruct (checkConfigIntegrity_spec normal appDir ∅ (baseDir options) (configFile r) (allowReplacedFilesystem options) w1 Hk1 Hr1)
    as (w2 & F2 & [D2 A2] & Hc); [by apply fits_empty|by rewrite Hr|].
  rewrite lookup_empty, decide_True in Hc by auto. destruct Hc as [Hc Hk2].
  exists r, w2. split; [unfold _loadOrCreateConfig; erewrite bind_ok by exact El; cbv beta iota; by erewrite bind_ok by exact Hc|].
  exists id, key, e, m. split; try done.
  - pose proof (keeps_hash_checkConfigIntegrity (baseDir options) appDir (configFile r) (allowReplacedFilesystem options) w1) as Hh.
    rewrite Hc in Hh. simpl in Hh. rewrite Hh. apply bind_inv in E as ([c' cid] & w3 & _ & (f & w4 & Ef & [= <- <-])%bind_inv).
    apply create_returns_hash in Ef. rewrite Ef. by injection Hr as _ -> _.
  - by apply (openable_files l q _ e m w1).
  - rewrite insert_empty, Hr in Hk2. exact Hk2.
  - split; [apply Hr0|]. unfold no_file_above. destruct Hr1 as [_ Hn]. unfold no_file_above in Hn. rewrite Forall_forall in *.
    intros p Hin. rewrite F2; [by apply Hn|]. intros ->. by apply basedirs_not_ancestor in Hin.
  - intros p ???. rewrite F2 by done. by apply HF.
  - split; [set_solver|]. intros x [Hx|Hx]%A2; [by apply HD|]. right. rewrite state_dir_app. by apply ancestors_app.
Qed.
End first.

(** C14. A session of a client. With valid options, room for the files and
    nothing remembered, opening a base directory with a password creates a
    file system and returns the hash of the password. After that, the same
    options with the same password, or with this hash instead, open the same
    configuration as the same client, and leave the configuration file and
    the client's metadata as they are. *)
Theorem cli_session options pw (w : world Rng) : first_ok pw options w →
  runs (_loadOrCreateConfig VersionString fuel normal settings options (localStateDir options) (first pw)) w (λ r w', ∃ hash,
    ConfigFile.returnedHash w' = Some hash
    ∧ CryConfig._cipher (CryConfigFile._config (configFile r)) = chosen_cipher (loader_of options (first pw))
    ∧ ∀ credentials, (password credentials = Some pw ∨ (password credentials = None ∧ givenHash credentials = hash)) →
        runs (_loadOrCreateConfig VersionString fuel normal settings options (localStateDir options) credentials) w' (λ r' w'', r' = r
          ∧ ∀ p, p ≠ basedirs_file (localStateDir options) → files w'' !! p = files w' !! p)).
Proof.
  intros Hok. pose proof Hok as [_ _ _ _ _ Hs _ Hpr]. eapply runs_mono; [by apply runs_first|].
  intros r w2 (id & key & e & m & [Hr Hh Ho Hk2 Hroom Hid _ _ _ _]).
  exists (CryConfigEncryptor._derivedKey e). split_and!; [done|by rewrite Hr|]. intros credentials Hcred.
  assert (openable VersionString (loader_of options credentials) (_determineConfigFile options)
    (created_config VersionString (loader_of options (first pw)) id key (LocalStateMetadata._myClientId m)) e m w2) as Ho2.
  { apply (openable_provider (_createKeyProvider settings credentials) (loader_of options (first pw))); [done|].
    unfold _createKeyProvider. destruct Hcred as [-> | [-> ->]]; [by eapply preset_gives_any, Ho|apply direct_gives_key, Ho]. }
  eapply runs_mono; [apply (runs_open options credentials _ e m _ w2 Ho2 Hs Hk2)|].
  - by apply fits_self.
  - done.
  - done.
  - right. right. by rewrite lookup_singleton_eq.
  - simpl. intros r' w'' (-> & _ & Hfiles). by rewrite Hr.
Qed.
End session.

(** ** The base directory *)
Section sanity.
Context {Rng : Type}.

(** The checks of the base directory: a missing one is created on demand in
    an existing directory, otherwise the call reports [InaccessibleBaseDir],
    as it does for a file in its place. *)
Theorem sanityChecks_spec options (w : world Rng) :
  let dir := baseDir options in
  _sanityChecks options w =
    if decide (dir ∈ dirs w) then (Ok tt, w)
    else if decide (is_Some (files w !! dir)) then (Throw (CryfsException InaccessibleBaseDir), w)
    else if createMissingBasedir options then
      if decide (parent_path dir ∈ dirs w) then (Ok tt, mkWorld (files w) ({[dir]} ∪ dirs w) (rng w) (ConfigFile.returnedHash w))
      else (Throw (RuntimeError "boost::filesystem::create_directory"), w)
    else (Throw (CryfsException InaccessibleBaseDir), w).
Proof.
  intros dir. unfold _sanityChecks, _checkDirAccessible, exists_, create_directory, is_directory, is_regular_file. fold dir.
  unfold get_state, put_state, mbind, M_bind. csimp.
  destruct (decide (dir ∈ dirs w)) as [Hd|Hd].
  { rewrite bool_decide_true by auto. simpl. by rewrite bool_decide_true. }
  destruct (decide (is_Some (files w !! dir))) as [Hf|Hf].
  { rewrite bool_decide_true by auto. simpl. by rewrite bool_decide_false. }
  rewrite (bool_decide_false (_ ∨ _)) by tauto. simpl. destruct (createMissingBasedir options); [|done].
  rewrite !(bool_decide_false (dir ∈ dirs w)), (bool_decide_false (is_Some _)) by done. simpl.
  destruct (decide (parent_path dir ∈ dirs w)) as [Hp|Hp]; [|by rewrite bool_decide_false].
  rewrite bool_decide_true by done. simpl. rewrite bool_decide_true by set_solver. done.
Qed.
End sanity.

(** ** Witnesses *)
Module CliExample.
Import Toy ToyTree ToyKdf ToySha.
Definition ex_normal (p : path) : bytes := concat (map (λ c, x2f :: c) p).
Definition ex_options : ProgramOptions :=
  mkOptions [str "base"] None w_appDir false false true (Some (str "aes-128-gcm")) None false None.
Definition ex_first : Credentials := first (str "pw").
Abbreviation ex_open credentials := (_loadOrCreateConfig (Rng := Z) w_version 2 ex_normal SCrypt.TestSettings ex_options w_appDir credentials).

Lemma ex_creatable : creatable w_version 2 (loader_of (Rng := Z) SCrypt.TestSettings ex_options ex_first).
Proof. destruct (w_creatable (str "pw")). by split. Qed.
Lemma ex_first_ok : first_ok w_version 2 ex_normal SCrypt.TestSettings (str "pw") ex_options w_disk.
Proof.
  split; [apply ex_creatable|apply w_fresh|done|apply w_no_dir|apply w_parent|apply w_separate|apply TestSettings_ok|].
  apply (bool_decide_unpack _). by vm_compute.
Qed.
Lemma cli_session_witness :
  runs (ex_open ex_first) w_disk (λ r w', ∃ hash,
    ConfigFile.returnedHash w' = Some hash
    ∧ CryConfig._cipher (CryConfigFile._config (CryConfigLoader.configFile r)) = str "aes-128-gcm"
    ∧ runs (ex_open (mkCredentials None hash false)) w' (λ r' w'', r' = r)).
Proof.
  eapply runs_mono.
  - exact (cli_session w_version 2 ex_normal SCrypt.TestSettings ex_options (str "pw") w_disk ex_first_ok).
  - intros r w' (hash & H1 & H2 & H3). exists hash. split_and!; [done|done|].
    eapply runs_mono; [apply H3; by right|]. naive_solver.
Defined.

Lemma replaced_filesystem_refused_witness : ∃ r w',
  ex_open ex_first w_disk = (Ok r, w')
  ∧ knows w_appDir {[ ex_normal [str "base"] := CryConfig._filesystemId (CryConfigFile._config (CryConfigLoader.configFile r)) ]} w'.
Proof.
  destruct (ex_open ex_first w_disk) as [[r|x] w'] eqn:E.
  - exists r, w'. split; [done|]. destruct (fresh_knows w_appDir w_disk w_fresh) as [Hk Hr].
    assert (fits (ex_normal [str "base"]) ∅) as Hb by (apply fits_empty, (bool_decide_unpack _); by vm_compute).
    destruct (replaced_filesystem_refused w_version 2 ex_normal SCrypt.TestSettings w_appDir ∅ ex_options ex_first r w_disk w'
      Hk Hb Hr w_separate E) as [_ Hk']. rewrite insert_empty in Hk'. exact Hk'.
  - exfalso. assert (match (ex_open ex_first w_disk).1 with Ok _ => True | _ => False end) as H by (by vm_compute). by rewrite E in H.
Defined.

(** The id is compared after the configuration has been created: when the
    configuration file is missing, a client that remembers the base directory
    first writes a new configuration and then refuses it. *)
Definition ex_deleted : world Z := let w := (ex_open ex_first w_disk).2 in set_files (delete w_file (files w)) w.
Theorem missing_config_is_written_and_refused :
  files ex_deleted !! w_file = None ∧ (ex_open ex_first ex_deleted).1 = Throw (CryfsException FilesystemIdChanged)
  ∧ is_Some (files (ex_open ex_first ex_deleted).2 !! w_file).
Proof. split_and!; [by vm_compute..|]. vm_compute. by eexists. Qed.
End CliExample.
