(* ===== verification/ParallelAccess.v ===== *)
(** * Sharing of open resources (parallelaccessstore/ParallelAccessStore.h)

    The store that hands out references to blocks, trees and file system
    blobs: one resource object per key is open, its references are counted,
    and a thread that removes a resource waits until the last reference is
    released. The methods are atomic while they hold the mutex; a removal has
    several atomic parts, and other threads run in between. The steps of all
    threads form a transition system, of which the states that can be reached
    are studied. *)
From stdpp Require Import gmap sets.
From S2P Require Import Prelude Serialization.
From Stdlib Require Import Lia ZArith.
Open Scope Z_scope.

(** ** State *)

(** Resource objects have a number, so that two objects for the same key can
    be told apart. *)
Record OpenResource := mkOpen { _resource : nat; _refCount : Z }.
Definition getReference (r : OpenResource) : OpenResource := mkOpen (_resource r) (u32 (_refCount r + 1)).
Definition releaseReference (r : OpenResource) : OpenResource := mkOpen (_resource r) (u32 (_refCount r - 1)).
Definition refCountIsZero (r : OpenResource) : bool := bool_decide (_refCount r = 0).

(** A [boost::promise]: not set, set, or set and retrieved by the future. *)
Inductive promise := Unset | Ready (o : nat) | Retrieved.
Definition is_unset (p : promise) : bool := match p with Unset => true | _ => false end.

(** A reference that a client holds; [r_removing] when it was passed to
    [remove]. *)
Record Ref := mkRef { r_key : bytes; r_object : nat; r_removing : bool }.

(** Where a thread is in [remove]: before the promise is inserted (with the
    reference in the overload that takes one), before its reference is
    released, at [future.get()], before the resource is removed from the
    base store; or about to remove a resource that was not open. *)
Inductive phase :=
| RemoveFuture (key : bytes) (ref : option nat)
| RemoveRelease (key : bytes) (ref : nat)
| RemoveWait (key : bytes)
| RemoveErase (key : bytes) (o : nat)
| RemoveBase (key : bytes).

(** [stored] are the keys of the base store, [refs] the live references. *)
Record pstate := mkP {
  _openResources : gmap bytes OpenResource;
  _resourcesToRemove : gmap bytes promise;
  stored : gset bytes;
  objects : nat;
  refs : gmap nat Ref;
  nrefs : nat;
  threads : gmap nat phase }.
Definition p_init : pstate := mkP ∅ ∅ ∅ 0 ∅ 0 ∅.

Definition set_open f (s : pstate) := mkP (f (_openResources s)) (_resourcesToRemove s) (stored s) (objects s) (refs s) (nrefs s) (threads s).
Definition set_toRemove f (s : pstate) := mkP (_openResources s) (f (_resourcesToRemove s)) (stored s) (objects s) (refs s) (nrefs s) (threads s).
Definition set_stored f (s : pstate) := mkP (_openResources s) (_resourcesToRemove s) (f (stored s)) (objects s) (refs s) (nrefs s) (threads s).
Definition set_refs f (s : pstate) := mkP (_openResources s) (_resourcesToRemove s) (stored s) (objects s) (f (refs s)) (nrefs s) (threads s).
Definition set_threads f (s : pstate) := mkP (_openResources s) (_resourcesToRemove s) (stored s) (objects s) (refs s) (nrefs s) (f (threads s)).
Definition new_object : M pstate nat := λ s,
  (Ok (objects s), mkP (_openResources s) (_resourcesToRemove s) (stored s) (S (objects s)) (refs s) (nrefs s) (threads s)).
(** [createResourceRef] and [init]. *)
Definition new_ref (key : bytes) (o : nat) : M pstate nat := λ s,
  (Ok (nrefs s), mkP (_openResources s) (_resourcesToRemove s) (stored s) (objects s) (<[nrefs s := mkRef key o false]> (refs s)) (S (nrefs s)) (threads s)).

(** ** The methods, as far as they hold the mutex *)
Definition isOpened (key : bytes) : M pstate bool := s ← get_state ; mret (bool_decide (is_Some (_openResources s !! key))).

Definition _add (key : bytes) (resource : nat) : M pstate nat :=
  s ← get_state ;
  ASSERT (bool_decide (_openResources s !! key = None)) "Inserting failed. Already exists." ;;
  modify (set_open (insert key (getReference (mkOpen resource 0)))) ;;
  new_ref key resource.
Definition add (key : bytes) (resource : nat) : M pstate nat := _add key resource.

Definition loadOrAdd (key : bytes) (onExists : nat → M pstate unit) (onAdd : M pstate nat) : M pstate nat :=
  s ← get_state ;
  match _openResources s !! key with
  | None => resource ← onAdd ; _add key resource
  | Some r =>
      modify (set_open (insert key (getReference r))) ;;
      ref ← new_ref key (_resource r) ;
      onExists ref ;;
      mret ref
  end.

Definition loadFromBaseStore (key : bytes) : M pstate (option nat) :=
  s ← get_state ;
  if decide (key ∈ stored s) then o ← new_object ; mret (Some o) else mret None.

Definition load (key : bytes) : M pstate (option nat) :=
  s ← get_state ;
  match _openResources s !! key with
  | None =>
      resource ← loadFromBaseStore key ;
      match resource with
      | None => mret None
      | Some resource => ref ← _add key resource ; mret (Some ref)
      end
  | Some r =>
      modify (set_open (insert key (getReference r))) ;;
      ref ← new_ref key (_resource r) ;
      mret (Some ref)
  end.

(** Setting a promise twice throws [promise_already_satisfied]. *)
Definition set_value (key : bytes) (o : nat) : M pstate unit :=
  s ← get_state ;
  match _resourcesToRemove s !! key with
  | None => mret tt
  | Some Unset => modify (set_toRemove (insert key (Ready o)))
  | Some _ => mthrow (LogicError "The state of the promise has already been set.")
  end.
Definition release (key : bytes) : M pstate unit :=
  s ← get_state ;
  match _openResources s !! key with
  | None => mthrow (AssertFailed "Didn't find key")
  | Some r =>
      modify (set_open (insert key (releaseReference r))) ;;
      if refCountIsZero (releaseReference r) then
        set_value key (_resource r) ;;
        modify (set_open (delete key))
      else mret tt
  end.
(** [~ResourceRefBase]. *)
Definition destruct_ref (ref : nat) (key : bytes) : M pstate unit :=
  run_destructor (release key) ;; modify (set_refs (delete ref)).

Definition _resourceToRemoveFuture (key : bytes) : M pstate unit :=
  s ← get_state ;
  ASSERT (bool_decide (_resourcesToRemove s !! key = None)) "Inserting failed" ;;
  modify (set_toRemove (insert key Unset)).

(** [~ParallelAccessStore]. *)
Definition destroy : M pstate unit :=
  s ← get_state ;
  ASSERT (bool_decide (_openResources s = ∅)) "Still resources open when trying to destruct" ;;
  ASSERT (bool_decide (_resourcesToRemove s = ∅)) "Still resources to remove when trying to destruct".

(** ** Threads *)
Definition goto (t : nat) (p : phase) : M pstate unit := modify (set_threads (insert t p)).
Definition finish (t : nat) : M pstate unit := modify (set_threads (delete t)).

(** The next atomic part of a removal; [None] when the thread has to wait. *)
Definition thread_step (t : nat) (p : phase) (s : pstate) : option (M pstate unit) :=
  match p with
  | RemoveFuture key ref =>
      Some (finish t ;;
            on_throw (match ref with Some r => destruct_ref r key | None => mret tt end) (_resourceToRemoveFuture key) ;;
            goto t (match ref with Some r => RemoveRelease key r | None => RemoveWait key end))
  | RemoveRelease key ref => Some (destruct_ref ref key ;; goto t (RemoveWait key))
  | RemoveWait key =>
      match _resourcesToRemove s !! key with
      | Some (Ready o) => Some (modify (set_toRemove (insert key Retrieved)) ;; goto t (RemoveErase key o))
      | _ => None
      end
  | RemoveErase key o => Some (modify (set_toRemove (delete key)) ;; modify (set_stored (.∖ {[ key ]})) ;; finish t)
  | RemoveBase key => Some (modify (set_stored (.∖ {[ key ]})) ;; finish t)
  end.

(** What may happen next: a thread creates a resource, loads one, releases a
    reference, calls one of the two overloads of [remove], or goes on. *)
Inductive action :=
| ACreate (key : bytes)
| ALoad (key : bytes)
| ARelease (ref : nat)
| ARemoveRef (t ref : nat)
| ARemove (t : nat) (key : bytes)
| AStep (t : nat).

Definition act (a : action) (s : pstate) : option (M pstate unit) :=
  match a with
  | ACreate key =>
      if decide (key ∈ stored s ∨ is_Some (_openResources s !! key) ∨ is_Some (_resourcesToRemove s !! key)) then None
      else Some (modify (set_stored ({[ key ]} ∪.)) ;; o ← new_object ; _ ← add key o ; mret tt)
  | ALoad key => Some (_ ← load key ; mret tt)
  | ARelease ref =>
      match refs s !! ref with
      | Some r => if r_removing r then None else Some (destruct_ref ref (r_key r))
      | None => None
      end
  | ARemoveRef t ref =>
      match refs s !! ref, threads s !! t with
      | Some r, None =>
          if r_removing r then None
          else Some (modify (set_refs (insert ref (mkRef (r_key r) (r_object r) true))) ;; goto t (RemoveFuture (r_key r) (Some ref)))
      | _, _ => None
      end
  | ARemove t key =>
      match threads s !! t with
      | None => Some (goto t (if decide (is_Some (_openResources s !! key)) then RemoveFuture key None else RemoveBase key))
      | Some _ => None
      end
  | AStep t => match threads s !! t with Some p => thread_step t p s | None => None end
  end.

(** A step of the program; an exception of [remove] goes to its caller, an
    exception that leaves a destructor ends the program. *)
Definition step (s : pstate) (a : action) (s' : pstate) : Prop := ∃ m r, act a s = Some m ∧ m s = (r, s') ∧ r ≠ Throw Terminate.
Definition crashes (s : pstate) (a : action) : Prop := ∃ m, act a s = Some m ∧ (m s).1 = Throw Terminate.
Definition room_for_refs (s : pstate) : Prop := Z.of_nat (size (refs s)) < 2 ^ 32 - 1.

(** The states that can be reached with actions that [ok] allows, as long as
    the counters of references do not overflow. *)
Inductive reachable (ok : pstate → action → bool) : pstate → Prop :=
| reach_init : reachable ok p_init
| reach_step s a s' : reachable ok s → room_for_refs s → ok s a = true → step s a s' → reachable ok s'.

Definition anything (s : pstate) (a : action) : bool := true.
(** Clients that remove resources through a reference only. *)
Definition by_reference (s : pstate) (a : action) : bool := match a with ARemove _ _ => false | _ => true end.
(** ... and that do not load a resource between the release of its last
    reference and its removal from the base store. *)
Definition disciplined (s : pstate) (a : action) : bool :=
  match a with
  | ARemove _ _ => false
  | ALoad key => match _resourcesToRemove s !! key with Some p => is_unset p | None => true end
  | _ => true
  end.

(** Run a sequence of actions. *)
Fixpoint run_actions (ok : pstate → action → bool) (l : list action) (s : pstate) : option pstate :=
  match l with
  | [] => Some s
  | a :: l' =>
      if ok s a && (Z.of_nat (size (refs s)) <? 2 ^ 32 - 1) then
        match act a s with
        | Some m => match m s with (Throw Terminate, _) => None | (_, s') => run_actions ok l' s' end
        | None => None
        end
      else None
  end.
Lemma run_reachable ok l s s' : reachable ok s → run_actions ok l s = Some s' → reachable ok s'.
Proof.
  revert s. induction l as [|a l IH]; intros s Hs; [by intros [= <-]|]. simpl. destruct (ok s a) eqn:Eok; [|done]. simpl. destruct (_ <? _) eqn:Er; [|done].
  destruct (act a s) as [m|] eqn:Em; [|done]. destruct (m s) as [r s1] eqn:E. intros H. apply (IH s1); [|by destruct r as [|[]]].
  eapply reach_step; [exact Hs|by apply Z.ltb_lt|done|]. exists m, r. split; [done|]. split; [done|]. intros ->. done.
Qed.

(** The state after a sequence of actions. *)
Definition after_actions (ok : pstate → action → bool) (l : list action) : pstate := default p_init (run_actions ok l p_init).
Lemma after_reachable ok l : match run_actions ok l p_init with Some _ => true | None => false end = true → reachable ok (after_actions ok l).
Proof. unfold after_actions. destruct (run_actions ok l p_init) as [s|] eqn:E; [|done]. intros _. eapply run_reachable; [apply reach_init|done]. Qed.

(** ** Counting references *)
Definition count (key : bytes) (m : gmap nat Ref) : nat := size (filter (λ p : nat * Ref, r_key p.2 = key) m).

Lemma count_insert key m id r : m !! id = None → count key (<[id := r]> m) = ((if decide (r_key r = key) then 1 else 0) + count key m)%nat.
Proof.
  intros H. unfold count. case_decide as Hk.
  - rewrite map_filter_insert_True by done. rewrite map_size_insert_None; [done|]. apply map_lookup_filter_None. by left.
  - rewrite map_filter_insert_False by done. by rewrite delete_id.
Qed.
Lemma count_delete key m id r : m !! id = Some r → count key m = ((if decide (r_key r = key) then 1 else 0) + count key (delete id m))%nat.
Proof. intros H. rewrite <- (count_insert key (delete id m) id r) by apply lookup_delete_eq. by rewrite insert_delete_id. Qed.
Lemma count_update key m id r r' : m !! id = Some r → r_key r' = r_key r → count key (<[id := r']> m) = count key m.
Proof.
  intros H E. rewrite <- (insert_delete_eq m id r'), count_insert by apply lookup_delete_eq. rewrite (count_delete key m id r H). by rewrite E.
Qed.
Lemma count_pos m id r : m !! id = Some r → (1 ≤ count (r_key r) m)%nat.
Proof. intros H. rewrite (count_delete _ _ _ _ H), decide_True by done. lia. Qed.
Lemma count_two m id id' r r' : m !! id = Some r → m !! id' = Some r' → id ≠ id' → r_key r = r_key r' → (2 ≤ count (r_key r) m)%nat.
Proof.
  intros H H' Hne E. rewrite (count_delete _ _ _ _ H), decide_True by done. rewrite <- (lookup_delete_ne m id id' Hne) in H'.
  pose proof (count_pos _ _ _ H'). rewrite E. lia.
Qed.
Lemma count_le key m : (count key m ≤ size m)%nat.
Proof. unfold count. apply map_subseteq_size, map_filter_subseteq. Qed.
Lemma count_exists key m : (1 ≤ count key m)%nat → ∃ id r, m !! id = Some r ∧ r_key r = key.
Proof.
  intros H. unfold count in H. destruct (map_choose (filter (λ p : nat * Ref, r_key p.2 = key) m)) as (id & r & Hr).
  - intros E. rewrite E, map_size_empty in H. lia.
  - apply map_lookup_filter_Some in Hr as [? ?]. by exists id, r.
Qed.

(** ** The invariant *)
Definition holds (p : phase) (ref : nat) : Prop :=
  match p with RemoveFuture _ (Some r) | RemoveRelease _ r => r = ref | _ => False end.
Definition phase_key (p : phase) : bytes :=
  match p with RemoveFuture k _ | RemoveRelease k _ | RemoveWait k | RemoveErase k _ | RemoveBase k => k end.
(** The thread has a promise in the table. *)
Definition promised (p : phase) : bool := match p with RemoveRelease _ _ | RemoveWait _ | RemoveErase _ _ => true | _ => false end.
Definition expects (p : phase) (v : promise) : Prop :=
  match p, v with
  | RemoveRelease _ _, Unset | RemoveWait _, (Unset | Ready _) | RemoveErase _ _, Retrieved => True
  | _, _ => False
  end.

(** The open resources [O] and the references [R]. *)
Record counted (O : gmap bytes OpenResource) (R : gmap nat Ref) (n : nat) : Prop := {
  counted_refs id r : R !! id = Some r → (id < n)%nat ∧ ∃ q, O !! r_key r = Some q ∧ _resource q = r_object r;
  counted_open key q : O !! key = Some q → _refCount q = Z.of_nat (count key R) ∧ (1 ≤ count key R)%nat;
}.
(** The promises [T] and the threads [P]. *)
Record matched (T : gmap bytes promise) (R : gmap nat Ref) (P : gmap nat phase) : Prop := {
  matched_holds t p ref : P !! t = Some p → holds p ref → ∃ r, R !! ref = Some r ∧ r_key r = phase_key p ∧ r_removing r = true;
  matched_own t t' p p' ref : P !! t = Some p → P !! t' = Some p' → holds p ref → holds p' ref → t = t';
  matched_promise t p : P !! t = Some p → promised p = true → ∃ v, T !! phase_key p = Some v ∧ expects p v;
  matched_thread key v : T !! key = Some v → ∃ t p, P !! t = Some p ∧ promised p = true ∧ phase_key p = key;
  matched_once t t' p p' : P !! t = Some p → P !! t' = Some p' → promised p = true → promised p' = true → phase_key p = phase_key p' → t = t';
}.
Definition inv (s : pstate) : Prop :=
  counted (_openResources s) (refs s) (nrefs s) ∧ matched (_resourcesToRemove s) (refs s) (threads s).

Lemma inv_init : inv p_init.
Proof. split; split; simpl; intros *; rewrite ?lookup_empty; done. Qed.

Section counted.
Implicit Types (O : gmap bytes OpenResource) (R : gmap nat Ref) (key : bytes).
Lemma counted_none O R n key : counted O R n → O !! key = None → count key R = 0%nat.
Proof.
  intros [I1 I2] H. destruct (count key R) eqn:E; [done|]. destruct (count_exists key R) as (id & r & Hr & <-); [lia|].
  destruct (I1 _ _ Hr) as (_ & q & H' & _). congruence.
Qed.

(** Getting a reference. *)
Lemma counted_get O R n key q0 : counted O R n → Z.of_nat (size R) < 2 ^ 32 - 1 → (∀ q, O !! key = Some q → q = q0) → (O !! key = None → _refCount q0 = 0) →
  counted (<[key := getReference q0]> O) (<[n := mkRef key (_resource q0) false]> R) (S n).
Proof.
  intros HC Hroom Hq Hq0. pose proof HC as [I1 I2]. assert (R !! n = None) as Hfresh.
  { apply eq_None_not_Some. intros [r Hr]. apply I1 in Hr as [? _]. lia. }
  split.
  - intros id r Hr. destruct (decide (n = id)) as [<-|Hid].
    + rewrite lookup_insert_eq in Hr. injection Hr as <-. simpl. split; [lia|]. eexists. split; [apply lookup_insert_eq|done].
    + rewrite lookup_insert_ne in Hr by done. destruct (I1 _ _ Hr) as (Hlt & q & E & Eo). split; [lia|].
      destruct (decide (key = r_key r)) as [->|Hk]; [|exists q; by rewrite lookup_insert_ne].
      eexists. split; [apply lookup_insert_eq|]. by rewrite <- (Hq _ E).
  - intros k q Hk. rewrite count_insert by done. simpl. destruct (decide (key = k)) as [<-|Hne'].
    + rewrite lookup_insert_eq in Hk. injection Hk as <-. simpl. pose proof (count_le key R).
      destruct (O !! key) as [q|] eqn:E.
      * rewrite <- (Hq q) by done. destruct (I2 _ _ E) as [-> _]. rewrite u32_small; lia.
      * rewrite Hq0, (counted_none _ _ _ _ HC) by done. rewrite u32_small; lia.
    + rewrite lookup_insert_ne in Hk by done. by apply I2.
Qed.

(** Dropping one, which is the last one or not. *)
Lemma counted_drop O R n id r q : counted O R n → R !! id = Some r → O !! r_key r = Some q →
  counted (if decide (count (r_key r) R = 1%nat) then delete (r_key r) O else <[r_key r := mkOpen (_resource q) (_refCount q - 1)]> O) (delete id R) n.
Proof.
  intros [I1 I2] Hr Hq. destruct (I2 _ _ Hq) as [Ec Hc]. assert (∀ k, count k R = ((if decide (r_key r = k) then 1 else 0) + count k (delete id R))%nat) as Hcount by (intros; by apply count_delete).
  split.
  - intros i x Hi. apply lookup_delete_Some in Hi as [Hne Hi]. destruct (I1 _ _ Hi) as (Hlt & q' & E & Eo). split; [done|].
    case_decide as H1.
    + destruct (decide (r_key r = r_key x)) as [Ek|]; [|exists q'; by rewrite lookup_delete_ne]. pose proof (count_two _ _ _ _ _ Hr Hi Hne Ek). lia.
    + destruct (decide (r_key r = r_key x)) as [Ek|]; [|exists q'; by rewrite lookup_insert_ne]. rewrite <- Ek in E |- *. rewrite lookup_insert_eq.
      eexists. split; [done|]. simpl. congruence.
  - intros k x Hk. specialize (Hcount k). case_decide as H1.
    + apply lookup_delete_Some in Hk as [Hne Hk]. rewrite decide_False in Hcount by done. rewrite Nat.add_0_l in Hcount. rewrite <- Hcount. by apply I2.
    + destruct (decide (r_key r = k)) as [<-|Hne].
      * rewrite lookup_insert_eq in Hk. injection Hk as <-. simpl. lia.
      * rewrite lookup_insert_ne in Hk by done. rewrite Nat.add_0_l in Hcount. rewrite <- Hcount. by apply I2.
Qed.

Lemma counted_update O R n id r r' : counted O R n → R !! id = Some r → r_key r' = r_key r → r_object r' = r_object r → counted O (<[id := r']> R) n.
Proof.
  intros [I1 I2] Hr Ek Eo. split.
  - intros i x Hi. destruct (decide (id = i)) as [<-|]; [|rewrite lookup_insert_ne in Hi by done; by apply I1].
    rewrite lookup_insert_eq in Hi. injection Hi as <-. rewrite Ek, Eo. by apply (I1 id).
  - intros k q. rewrite (count_update _ _ _ _ _ Hr Ek). apply I2.
Qed.
End counted.

Section matched.
Implicit Types (T : gmap bytes promise) (R : gmap nat Ref) (P : gmap nat phase) (key : bytes).

(** The references that no thread removes may change. *)
Lemma matched_refs T R R' P : matched T R P →
  (∀ id r, R !! id = Some r → r_removing r = true → R' !! id = Some r) → matched T R' P.
Proof.
  intros [I1 I2 I3 I4 I5] H. split; [|done..]. intros t p ref Ht Hh. destruct (I1 _ _ _ Ht Hh) as (r & Hr & Ek & Er). exists r. by rewrite (H _ _ Hr Er).
Qed.
Lemma matched_delete_thread T R P t p : matched T R P → P !! t = Some p → promised p = false → matched T R (delete t P).
Proof.
  intros [I1 I2 I3 I4 I5] Ht Hp. split.
  - intros t' p' ref [_ H]%lookup_delete_Some. by apply (I1 t').
  - intros t1 t2 p1 p2 ref [_ H1]%lookup_delete_Some [_ H2]%lookup_delete_Some. by eapply I2.
  - intros t' p' [_ H]%lookup_delete_Some. by apply (I3 t').
  - intros key v Hv. destruct (I4 _ _ Hv) as (t' & p' & H1 & H2 & H3). exists t', p'. split; [|done]. apply lookup_delete_Some. split; [|done]. intros ->. congruence.
  - intros t1 t2 p1 p2 [_ H1]%lookup_delete_Some [_ H2]%lookup_delete_Some. by eapply I5.
Qed.
(** A thread starts to remove. *)
Lemma matched_start T R P t p : matched T R P → P !! t = None → promised p = false →
  (∀ ref, holds p ref → (∃ r, R !! ref = Some r ∧ r_key r = phase_key p ∧ r_removing r = true) ∧ ∀ t' p', P !! t' = Some p' → ¬ holds p' ref) →
  matched T R (<[t := p]> P).
Proof.
  intros [I1 I2 I3 I4 I5] Ht Hp Hh. split.
  - intros t' p' ref [[-> ->]|[_ H]]%lookup_insert_Some; [by intros [? _]%Hh|by apply (I1 t')].
  - intros t1 t2 p1 p2 ref [[<- <-]|[_ H1]]%lookup_insert_Some [[<- <-]|[_ H2]]%lookup_insert_Some Hh1 Hh2; [done| | |by eapply I2].
    + destruct (Hh _ Hh1) as [_ Hx]. by destruct (Hx _ _ H2).
    + destruct (Hh _ Hh2) as [_ Hx]. by destruct (Hx _ _ H1).
  - intros t' p' [[-> ->]|[_ H]]%lookup_insert_Some; [congruence|by apply (I3 t')].
  - intros key v Hv. destruct (I4 _ _ Hv) as (t' & p' & H1 & H2 & H3). exists t', p'. rewrite lookup_insert_ne; [done|]. intros ->. congruence.
  - intros t1 t2 p1 p2 [[<- <-]|[_ H1]]%lookup_insert_Some [[<- <-]|[_ H2]]%lookup_insert_Some; [done|congruence|congruence|by eapply I5].
Qed.
(** A thread goes on, the promise of its key gets the value [v]. *)
Lemma matched_move T R P t p p' v : matched T R P → P !! t = Some p → phase_key p' = phase_key p → promised p' = true → expects p' v →
  (∀ ref, holds p' ref → holds p ref) → (promised p = true ∨ T !! phase_key p = None) →
  matched (<[phase_key p := v]> T) R (<[t := p']> P).
Proof.
  intros [I1 I2 I3 I4 I5] Ht Ek Hp He Hh Hor.
  assert (∀ t' q, P !! t' = Some q → promised q = true → phase_key q = phase_key p → t' = t) as Honly.
  { intros t' q Hq Hpq Eq. destruct Hor as [Hpp|Hn]; [by eapply I5|]. destruct (I3 _ _ Hq Hpq) as (w & Hw & _). congruence. }
  split.
  - intros t' q ref [[-> ->]|[_ H]]%lookup_insert_Some; [|by apply (I1 t')]. intros ?%Hh. rewrite Ek. by eapply I1.
  - intros t1 t2 p1 p2 ref [[<- <-]|[_ H1]]%lookup_insert_Some [[<- <-]|[_ H2]]%lookup_insert_Some Hh1 Hh2; [done|eapply I2|eapply I2|eapply I2]; eauto.
  - intros t' q [[-> ->]|[Hne H]]%lookup_insert_Some Hq; [rewrite Ek; exists v; by rewrite lookup_insert_eq|].
    destruct (decide (phase_key q = phase_key p)) as [E|Hk]; [by destruct Hne; symmetry; eapply Honly|].
    rewrite lookup_insert_ne by done. by apply (I3 t').
  - intros key w [[<- <-]|[Hne Hw]]%lookup_insert_Some; [exists t, p'; by rewrite lookup_insert_eq|].
    destruct (I4 _ _ Hw) as (t' & q & H1 & H2 & H3). exists t', q. rewrite lookup_insert_ne; [done|]. intros ->. congruence.
  - intros t1 t2 p1 p2 [[<- <-]|[_ H1]]%lookup_insert_Some [[<- <-]|[_ H2]]%lookup_insert_Some Hp1 Hp2 E; [done|symmetry|symmetry|by eapply I5].
    + eapply Honly; [done..|congruence].
    + symmetry. eapply Honly; [done..|congruence].
Qed.
(** The last reference is gone and the promise is kept. *)
Lemma matched_ready T R P key o : matched T R P → T !! key = Some Unset → count key R = 0%nat → matched (<[key := Ready o]> T) R P.
Proof.
  intros [I1 I2 I3 I4 I5] Hk Hc. split; [done|done| | |done].
  - intros t p Ht Hp. destruct (I3 _ _ Ht Hp) as (v & Hv & He). destruct (decide (key = phase_key p)) as [E|]; [|exists v; by rewrite lookup_insert_ne].
    exists (Ready o). rewrite E, lookup_insert_eq. split; [done|]. rewrite <- E, Hk in Hv. injection Hv as <-. destruct p as [| |k|k o'|]; simpl in *; try done.
    destruct (I1 _ _ ref Ht eq_refl) as (r & Hr & Er & _). simpl in Er. pose proof (count_pos _ _ _ Hr) as Hpos. rewrite Er, <- E in Hpos. lia.
  - intros k v [[<- <-]|[_ Hv]]%lookup_insert_Some; [by apply (I4 key Unset)|by apply (I4 k v)].
Qed.
(** The removal is done. *)
Lemma matched_finish T R P t p : matched T R P → P !! t = Some p → promised p = true → (∀ ref, ¬ holds p ref) → matched (delete (phase_key p) T) R (delete t P).
Proof.
  intros [I1 I2 I3 I4 I5] Ht Hp Hh. split.
  - intros t' p' ref [_ H]%lookup_delete_Some. by apply (I1 t').
  - intros t1 t2 p1 p2 ref [_ H1]%lookup_delete_Some [_ H2]%lookup_delete_Some. by eapply I2.
  - intros t' p' [Hne H]%lookup_delete_Some Hp'. rewrite lookup_delete_ne; [by apply (I3 t')|]. intros E. destruct Hne. by eapply I5.
  - intros key v [Hne Hv]%lookup_delete_Some. destruct (I4 _ _ Hv) as (t' & p' & H1 & H2 & H3). exists t', p'. split; [|done].
    apply lookup_delete_Some. split; [|done]. intros <-. congruence.
  - intros t1 t2 p1 p2 [_ H1]%lookup_delete_Some [_ H2]%lookup_delete_Some. by eapply I5.
Qed.
Lemma matched_drop T R P id : matched T R P → (∀ t p, P !! t = Some p → ¬ holds p id) → matched T (delete id R) P.
Proof.
  intros [I1 I2 I3 I4 I5] H. split; [|done..]. intros t p ref Ht Hh. destruct (I1 _ _ _ Ht Hh) as (r & Hr & Ek & Er). exists r.
  rewrite lookup_delete_ne; [done|]. intros <-. by eapply H.
Qed.
(** A reference that is not being removed is held by no thread. *)
Lemma matched_free T R P id r t p : matched T R P → R !! id = Some r → r_removing r = false → P !! t = Some p → ¬ holds p id.
Proof. intros [I1 _ _ _ _] Hr Hf Ht Hh. destruct (I1 _ _ _ Ht Hh) as (r' & Hr' & _ & E). congruence. Qed.
End matched.

(** ** Releasing a reference *)
Section release.
Implicit Types (s : pstate) (r : Ref).

(** The state after the reference [id] of a resource [q] is gone; [T] are
    the promises then. *)
Definition dropped s (id : nat) r (q : OpenResource) (T : gmap bytes promise) : pstate :=
  mkP (if decide (count (r_key r) (refs s) = 1%nat) then delete (r_key r) (_openResources s)
       else <[r_key r := mkOpen (_resource q) (_refCount q - 1)]> (_openResources s))
      T (stored s) (objects s) (delete id (refs s)) (nrefs s) (threads s).
(** What becomes of the promise when the last reference is gone. *)
Definition promise_after s r (q : OpenResource) (T : gmap bytes promise) : Prop :=
  if decide (count (r_key r) (refs s) = 1%nat) then
    match _resourcesToRemove s !! r_key r with
    | None => T = _resourcesToRemove s
    | Some Unset => T = <[r_key r := Ready (_resource q)]> (_resourcesToRemove s)
    | Some _ => False
    end
  else T = _resourcesToRemove s.

Lemma destruct_ref_cases s id r :
  inv s → Z.of_nat (size (refs s)) < 2 ^ 32 → refs s !! id = Some r →
  ∃ q, _openResources s !! r_key r = Some q ∧ _resource q = r_object r ∧
    ((∃ T, promise_after s r q T ∧ destruct_ref id (r_key r) s = (Ok tt, dropped s id r q T)) ∨
     (∃ v, _resourcesToRemove s !! r_key r = Some v ∧ is_unset v = false ∧ (destruct_ref id (r_key r) s).1 = Throw Terminate)).
Proof.
  intros [[I1 I2] _] Hroom Hr. destruct (I1 _ _ Hr) as (_ & q & Hq & Eo). destruct (I2 _ _ Hq) as [Ec Hc]. exists q. split; [done|]. split; [done|].
  pose proof (count_le (r_key r) (refs s)) as Hle.
  unfold destruct_ref, run_destructor, release, get_state, mbind, M_bind. rewrite Hq. unfold modify, refCountIsZero. simpl. unfold dropped, promise_after.
  rewrite Ec, u32_small by lia. case_decide as H1.
  - rewrite bool_decide_true by lia. unfold set_value, get_state, mbind, M_bind, set_open. simpl.
    destruct (_resourcesToRemove s !! r_key r) as [[| |]|] eqn:Et; simpl.
    + left. eexists. split; [done|]. unfold modify, set_toRemove. simpl. by rewrite delete_insert_eq.
    + right. by eexists.
    + right. by eexists.
    + left. eexists. split; [done|]. unfold modify. simpl. by rewrite delete_insert_eq.
  - rewrite bool_decide_false by lia. left. eexists. split; [done|]. unfold set_refs, set_open, releaseReference. simpl. by rewrite Ec, u32_small by lia.
Qed.

Lemma inv_dropped s id r q T : inv s → refs s !! id = Some r → _openResources s !! r_key r = Some q → promise_after s r q T →
  (∀ t p, threads s !! t = Some p → ¬ holds p id) → inv (dropped s id r q T).
Proof.
  intros [HC HM] Hr Hq HT Hh. split; [by apply counted_drop|]. simpl. apply (matched_drop _ _ _ id) in HM; [|done].
  unfold promise_after in HT. case_decide as H1; [|by subst T]. destruct (_resourcesToRemove s !! r_key r) as [[| |]|] eqn:Et; subst; try done.
  apply matched_ready; [done|done|]. rewrite (count_delete _ _ _ _ Hr), decide_True in H1 by done. lia.
Qed.
End release.

(** ** Every step keeps the invariant *)
Section steps.
Implicit Types (s : pstate) (key : bytes).

Lemma inv_add s key (o : nat) r s' : inv s → room_for_refs s → add key o s = (r, s') → inv s' ∧ r ≠ Throw Terminate.
Proof.
  intros [HC HM] Hroom. unfold add, _add, get_state, mbind, M_bind. destruct (_openResources s !! key) as [q|] eqn:E; simpl; intros [= <- <-]; [by split|].
  split; [|done]. split; simpl.
  - apply (counted_get _ _ _ key (mkOpen o 0)); [done..| |done]. intros q. congruence.
  - eapply matched_refs; [done|]. intros i r Hr Hf. rewrite lookup_insert_ne; [done|]. intros <-. destruct HC as [I1 _]. apply I1 in Hr as [? _]. lia.
Qed.
Lemma inv_share s key q : inv s → room_for_refs s → _openResources s !! key = Some q →
  inv (new_ref key (_resource q) (set_open (insert key (getReference q)) s)).2.
Proof.
  intros [HC HM] Hroom E. split; simpl.
  - apply counted_get; [done..| |congruence]. intros q'. congruence.
  - eapply matched_refs; [done|]. intros i r Hr Hf. rewrite lookup_insert_ne; [done|]. intros <-. destruct HC as [I1 _]. apply I1 in Hr as [? _]. lia.
Qed.
Lemma inv_load s key r s' : inv s → room_for_refs s → load key s = (r, s') → inv s' ∧ r ≠ Throw Terminate.
Proof.
  intros Hinv Hroom. unfold load, get_state, mbind, M_bind. destruct (_openResources s !! key) as [q|] eqn:E.
  - simpl. intros [= <- <-]. split; [|done]. by apply inv_share.
  - unfold loadFromBaseStore, get_state, mbind, M_bind. case_decide; [|by intros [= <- <-]]. simpl.
    destruct (_add key (objects s) _) as [ra sa] eqn:Ea. change (_add key (objects s)) with (add key (objects s)) in Ea.
    apply inv_add in Ea as [Ha Hne]; [|done..]. destruct ra; simpl; intros [= <- <-]; split; done || congruence.
Qed.
Lemma inv_destruct s id r r' s' : inv s → room_for_refs s → refs s !! id = Some r → (∀ t p, threads s !! t = Some p → ¬ holds p id) →
  destruct_ref id (r_key r) s = (r', s') → r' ≠ Throw Terminate → inv s' ∧ r' = Ok tt ∧ threads s' = threads s ∧ refs s' = delete id (refs s).
Proof.
  intros Hinv Hroom Hr Hh E Hne. unfold room_for_refs in Hroom.
  destruct (destruct_ref_cases s id r Hinv ltac:(lia) Hr) as (q & Hq & _ & [(T & HT & E')|(v & _ & _ & E')]); rewrite E in E'; [|done].
  injection E' as -> ->. split; [by apply inv_dropped|done].
Qed.

Lemma inv_threads s P : inv s → matched (_resourcesToRemove s) (refs s) P → inv (set_threads (λ _, P) s).
Proof. intros [HC _] HM. by split. Qed.

Lemma inv_RemoveFuture s t key ref r s' m :
  inv s → room_for_refs s → threads s !! t = Some (RemoveFuture key ref) →
  thread_step t (RemoveFuture key ref) s = Some m → m s = (r, s') → r ≠ Throw Terminate → inv s'.
Proof.
  intros Hinv Hroom Ht [= <-]. pose proof Hinv as [HC HM].
  assert (inv (set_threads (delete t) s)) as Hinv1 by (apply (inv_threads s (delete t (threads s)) Hinv); by eapply matched_delete_thread).
  unfold finish, _resourceToRemoveFuture, on_throw, get_state, mbind, M_bind. simpl.
  destruct (_resourcesToRemove s !! key) as [v|] eqn:Et; simpl.
  - destruct ref as [id|]; [|by intros [= <- <-]]. destruct (matched_holds _ _ _ HM _ _ id Ht eq_refl) as (x & Hx & Ek & Hrem). simpl in Ek. subst key. unfold run_destructor.
    destruct (destruct_ref id (r_key x) (set_threads (delete t) s)) as [rd sd] eqn:Ed.
    destruct (decide (rd = Throw Terminate)) as [->|Hne]; [simpl; by intros [= <- <-]|].
    apply inv_destruct in Ed as (Hd & -> & _); [by intros [= <- <-]|done..| |done].
    simpl. intros t' p [Hne' Hp]%lookup_delete_Some Hh. destruct Hne'. by eapply (matched_own _ _ _ HM).
  - intros [= <- <-] _. split; [done|]. simpl. rewrite insert_delete_eq.
    apply (matched_move _ _ _ t (RemoveFuture key ref)); [done|done|by destruct ref|by destruct ref|by destruct ref|by destruct ref|by right].
Qed.

Lemma inv_RemoveRelease s t key ref r s' :
  inv s → room_for_refs s → threads s !! t = Some (RemoveRelease key ref) →
  (destruct_ref ref key ;; goto t (RemoveWait key)) s = (r, s') → r ≠ Throw Terminate → inv s'.
Proof.
  intros Hinv Hroom Ht E Hne. pose proof Hinv as [HC HM]. destruct (matched_holds _ _ _ HM _ _ ref Ht eq_refl) as (x & Hx & Ek & Hrem). simpl in Ek. subst key.
  destruct (matched_promise _ _ _ HM _ _ Ht eq_refl) as (v & Hv & He). simpl in Hv. destruct v; try done.
  pose (s1 := set_threads (insert t (RemoveWait (r_key x))) s).
  assert (inv s1) as Hinv1.
  { apply (inv_threads s (<[t := RemoveWait (r_key x)]> (threads s)) Hinv). rewrite <- (insert_id _ _ _ Hv).
    by apply (matched_move _ _ _ t (RemoveRelease (r_key x) ref)); [..|left]. }
  unfold room_for_refs in Hroom. unfold mbind, M_bind in E.
  destruct (destruct_ref_cases s ref x Hinv ltac:(lia) Hx) as (q & Hq & _ & [(T & HT & Ed)|(v & _ & _ & Ed)]).
  - rewrite Ed in E. injection E as <- <-. change (inv (dropped s1 ref x q T)). apply inv_dropped; [done..|].
    intros t' p Hp Hh. simpl in Hp. apply lookup_insert_Some in Hp as [[<- <-]|[Hne' Hp]]; [done|]. destruct Hne'. by eapply (matched_own _ _ _ HM).
  - destruct (destruct_ref ref (r_key x) s) as [rd sd]. simpl in Ed. subst rd. by injection E as <- <-.
Qed.

Lemma inv_thread_step s t p r s' m :
  inv s → room_for_refs s → threads s !! t = Some p → thread_step t p s = Some m → m s = (r, s') → r ≠ Throw Terminate → inv s'.
Proof.
  intros Hinv Hroom Ht Em E Hne. destruct p as [key ref|key ref|key|key o|key].
  - by eapply inv_RemoveFuture.
  - injection Em as <-. by eapply inv_RemoveRelease.
  - simpl in Em. destruct (_resourcesToRemove s !! key) as [[|o|]|] eqn:Et; try done. injection Em as <-. injection E as <- <-.
    pose proof Hinv as [HC HM]. split; [done|]. by apply (matched_move _ _ _ t (RemoveWait key)); [..|left].
  - injection Em as <-. injection E as <- <-. pose proof Hinv as [HC HM]. split; [done|]. apply (matched_finish _ _ _ t (RemoveErase key o)); [done..|by intros ref []].
  - injection Em as <-. injection E as <- <-. pose proof Hinv as [HC HM]. split; [done|]. by eapply matched_delete_thread.
Qed.

Lemma inv_step s a s' : inv s → room_for_refs s → step s a s' → inv s'.
Proof.
  intros Hinv Hroom (m & r & Em & E & Hne). destruct a as [key|key|ref|t ref|t key|t]; simpl in Em.
  - case_decide as Hk; [done|]. injection Em as <-. unfold mbind, M_bind in E. simpl in E.
    destruct (add key (objects s) _) as [ra sa] eqn:Ea. apply inv_add in Ea as [Ha _]; [|done..]. by destruct ra; injection E as <- <-.
  - injection Em as <-. unfold mbind, M_bind in E. destruct (load key s) as [ra sa] eqn:Ea. apply inv_load in Ea as [Ha _]; [|done..].
    by destruct ra; injection E as <- <-.
  - destruct (refs s !! ref) as [x|] eqn:Hx; [|done]. destruct (r_removing x) eqn:Hrem; [done|]. injection Em as <-.
    pose proof Hinv as [HC HM]. eapply inv_destruct in E; [by apply E|done..| |done]. intros t p Ht. by eapply matched_free.
  - destruct (refs s !! ref) as [x|] eqn:Hx; [|done]. destruct (threads s !! t) eqn:Ht; [done|]. destruct (r_removing x) eqn:Hrem; [done|]. injection Em as <-.
    injection E as <- <-. pose proof Hinv as [HC HM]. split; [by eapply counted_update|]. simpl. apply matched_start; [|done|done|].
    + eapply matched_refs; [done|]. intros i y Hy Hry. rewrite lookup_insert_ne; [done|]. intros <-. congruence.
    + intros i <-. split; [eexists; by rewrite lookup_insert_eq|]. intros t' p' Hp. by eapply matched_free.
  - destruct (threads s !! t) eqn:Ht; [done|]. injection Em as <-. injection E as <- <-. pose proof Hinv as [HC HM]. split; [done|]. simpl.
    apply matched_start; [done|done|by case_decide|]. intros ref. by case_decide.
  - destruct (threads s !! t) as [p|] eqn:Ht; [|done]. by eapply inv_thread_step.
Qed.

Lemma inv_reachable ok s : reachable ok s → inv s.
Proof. induction 1; [apply inv_init|by eapply inv_step]. Qed.
End steps.

(** ** The effects of a step on open resources, promises and stored keys *)
Section effects.
Implicit Types (s : pstate) (key : bytes).

Inductive effect s : action → gmap bytes OpenResource → gmap bytes promise → gset bytes → Prop :=
| effect_none a : effect s a (_openResources s) (_resourcesToRemove s) (stored s)
| effect_create key q : _resourcesToRemove s !! key = None →
    effect s (ACreate key) (<[key := q]> (_openResources s)) (_resourcesToRemove s) ({[ key ]} ∪ stored s)
| effect_load key q : is_Some (_openResources s !! key) ∨ key ∈ stored s →
    effect s (ALoad key) (<[key := q]> (_openResources s)) (_resourcesToRemove s) (stored s)
| effect_drop a id r q T : refs s !! id = Some r → _openResources s !! r_key r = Some q → promise_after s r q T →
    effect s a (_openResources (dropped s id r q T)) T (stored s)
| effect_promise t key ref : threads s !! t = Some (RemoveFuture key ref) → _resourcesToRemove s !! key = None →
    effect s (AStep t) (_openResources s) (<[key := Unset]> (_resourcesToRemove s)) (stored s)
| effect_retrieve t key o : _resourcesToRemove s !! key = Some (Ready o) →
    effect s (AStep t) (_openResources s) (<[key := Retrieved]> (_resourcesToRemove s)) (stored s)
| effect_erase t key : _resourcesToRemove s !! key = Some Retrieved →
    effect s (AStep t) (_openResources s) (delete key (_resourcesToRemove s)) (stored s ∖ {[ key ]})
| effect_base t key : threads s !! t = Some (RemoveBase key) →
    effect s (AStep t) (_openResources s) (_resourcesToRemove s) (stored s ∖ {[ key ]}).

(** The phases of a removal through a reference. *)
Definition plain (P : gmap nat phase) : Prop :=
  ∀ t p, P !! t = Some p → match p with RemoveFuture _ None | RemoveBase _ => False | _ => True end.
Lemma plain_insert P t p : plain P → match p with RemoveFuture _ None | RemoveBase _ => False | _ => True end → plain (<[t := p]> P).
Proof. intros H Hp t' p' [[<- <-]|[_ H']]%lookup_insert_Some; [done|by eapply H]. Qed.
Lemma plain_delete P t : plain P → plain (delete t P).
Proof. intros H t' p' [_ H']%lookup_delete_Some. by eapply H. Qed.

Lemma drop_effect s id r r' s' :
  inv s → room_for_refs s → refs s !! id = Some r → destruct_ref id (r_key r) s = (r', s') → r' ≠ Throw Terminate →
  r' = Ok tt ∧ ∃ q T, _openResources s !! r_key r = Some q ∧ promise_after s r q T ∧ s' = dropped s id r q T.
Proof.
  intros Hinv Hroom Hr E Hne. unfold room_for_refs in Hroom.
  destruct (destruct_ref_cases s id r Hinv ltac:(lia) Hr) as (q & Hq & _ & [(T & HT & E')|(v & _ & _ & E')]); rewrite E in E'; [|done].
  injection E' as -> ->. split; [done|]. by exists q, T.
Qed.

Lemma thread_effect s t p r s' m :
  inv s → room_for_refs s → threads s !! t = Some p → thread_step t p s = Some m → m s = (r, s') → r ≠ Throw Terminate →
  effect s (AStep t) (_openResources s') (_resourcesToRemove s') (stored s') ∧ (plain (threads s) → plain (threads s')).
Proof.
  intros Hinv Hroom Ht Em E Hne. pose proof Hinv as [HC HM]. destruct p as [key ref|key ref|key|key o|key].
  - injection Em as <-. revert E. unfold finish, _resourceToRemoveFuture, on_throw, get_state, mbind, M_bind. simpl.
    destruct (_resourcesToRemove s !! key) as [v|] eqn:Et; simpl.
    + destruct ref as [id|]; [|intros [= <- <-]; split; [apply (effect_none s)|apply plain_delete]].
      destruct (matched_holds _ _ _ HM _ _ id Ht eq_refl) as (x & Hx & Ek & Hrem). simpl in Ek. subst key. unfold run_destructor.
      assert (inv (set_threads (delete t) s)) as Hinv1 by (apply (inv_threads s (delete t (threads s)) Hinv); by eapply matched_delete_thread).
      destruct (destruct_ref id (r_key x) (set_threads (delete t) s)) as [rd sd] eqn:Ed.
      destruct (decide (rd = Throw Terminate)) as [->|Hne']; [simpl; by intros [= <- <-]|].
      apply drop_effect in Ed as (-> & q & T & Hq & HT & ->); [|done..]. intros [= <- <-]. split; [by apply (effect_drop s _ id x q T)|apply plain_delete].
    + intros [= <- <-]. split; [by apply (effect_promise s t key ref)|]. simpl. intros Hpl. apply plain_insert; [by apply plain_delete|].
      specialize (Hpl _ _ Ht). by destruct ref.
  - injection Em as <-. destruct (matched_holds _ _ _ HM _ _ ref Ht eq_refl) as (x & Hx & Ek & Hrem). simpl in Ek. subst key. unfold mbind, M_bind in E.
    destruct (destruct_ref ref (r_key x) s) as [rd sd] eqn:Ed. destruct (decide (rd = Throw Terminate)) as [->|Hne']; [by injection E as <- <-|].
    apply drop_effect in Ed as (-> & q & T & Hq & HT & ->); [|done..]. injection E as <- <-.
    split; [by apply (effect_drop s _ ref x q T)|]. intros Hpl. by apply plain_insert.
  - simpl in Em. destruct (_resourcesToRemove s !! key) as [[|o|]|] eqn:Et; try done. injection Em as <-. injection E as <- <-.
    split; [by apply (effect_retrieve s t key o)|]. intros Hpl. by apply plain_insert.
  - injection Em as <-. injection E as <- <-. destruct (matched_promise _ _ _ HM _ _ Ht eq_refl) as (v & Hv & He). simpl in Hv. destruct v; try done.
    split; [by apply (effect_erase s t key)|apply plain_delete].
  - injection Em as <-. injection E as <- <-. split; [by apply (effect_base s t key)|apply plain_delete].
Qed.

Lemma step_effect s a s' : inv s → room_for_refs s → step s a s' →
  effect s a (_openResources s') (_resourcesToRemove s') (stored s') ∧ (by_reference s a = true → plain (threads s) → plain (threads s')).
Proof.
  intros Hinv Hroom (m & r & Em & E & Hne). destruct a as [key|key|ref|t ref|t key|t]; simpl in Em.
  - case_decide as Hk; [done|]. injection Em as <-. revert E. unfold add, _add, get_state, mbind, M_bind. simpl.
    rewrite bool_decide_true by (apply eq_None_not_Some; naive_solver). simpl. intros [= <- <-]. split; [|done]. apply (effect_create s), eq_None_not_Some. naive_solver.
  - injection Em as <-. revert E. unfold load, get_state, mbind, M_bind. destruct (_openResources s !! key) as [q|] eqn:Eq.
    + simpl. intros [= <- <-]. split; [|done]. apply (effect_load s). left. by eexists.
    + unfold loadFromBaseStore, get_state, mbind, M_bind. case_decide as Hs; [|intros [= <- <-]; split; [apply (effect_none s)|done]]. simpl.
      unfold _add, get_state, mbind, M_bind. simpl. rewrite bool_decide_true by done. simpl. intros [= <- <-]. split; [|done]. apply (effect_load s). by right.
  - destruct (refs s !! ref) as [x|] eqn:Hx; [|done]. destruct (r_removing x) eqn:Hrem; [done|]. injection Em as <-.
    eapply drop_effect in E as (-> & q & T & Hq & HT & ->); [|done..]. split; [by apply (effect_drop s _ ref x q T)|done].
  - destruct (refs s !! ref) as [x|] eqn:Hx; [|done]. destruct (threads s !! t) eqn:Ht; [done|]. destruct (r_removing x) eqn:Hrem; [done|]. injection Em as <-.
    injection E as <- <-. split; [apply (effect_none s)|]. intros _ Hpl. by apply plain_insert.
  - destruct (threads s !! t) eqn:Ht; [done|]. injection Em as <-. injection E as <- <-. split; [apply (effect_none s)|done].
  - destruct (threads s !! t) as [p|] eqn:Ht; [|done]. by destruct (thread_effect s t p r s' m) as [H1 H2].
Qed.
End effects.

(** ** Consequences *)
Section consequences.
Implicit Types (s : pstate) (key : bytes).

(** Without a removal by key, a promise that is not kept belongs to an open
    resource. *)
Definition unset_open s : Prop := ∀ key, _resourcesToRemove s !! key = Some Unset → is_Some (_openResources s !! key).
Lemma unset_open_dropped s id r q T : unset_open s → promise_after s r q T → unset_open (dropped s id r q T).
Proof.
  intros Hu HT key Hk. simpl in *. unfold promise_after in HT. case_decide as H1; [|subst T; apply lookup_insert_is_Some'; right; by apply Hu].
  destruct (_resourcesToRemove s !! r_key r) as [[| |]|] eqn:E; subst; try done.
  - apply lookup_insert_Some in Hk as [[_ Hk]|[Hne Hk]]; [done|]. rewrite lookup_delete_ne by done. by apply Hu.
  - destruct (decide (r_key r = key)) as [<-|Hne]; [congruence|]. rewrite lookup_delete_ne by done. by apply Hu.
Qed.
Lemma unset_open_step s a s' : inv s → room_for_refs s → plain (threads s) → unset_open s → step s a s' → unset_open s'.
Proof.
  intros Hinv Hroom Hpl Hu Hs. destruct (step_effect s a s' Hinv Hroom Hs) as [He _].
  inversion He as [a' Ea EO ET ES|key q Hn Ea EO ET ES|key q Hor Ea EO ET ES|a' id r q T Hr Hq HT Ea EO ET ES|t key ref Ht Hn Ea EO ET ES|t key o Ht Ea EO ET ES|t key Ht Ea EO ET ES|t key Ht Ea EO ET ES];
    intros k; rewrite <- EO, <- ET; intros Hk.
  - by apply Hu.
  - apply lookup_insert_is_Some'. right. by apply Hu.
  - apply lookup_insert_is_Some'. right. by apply Hu.
  - rewrite <- ET in HT. by apply (unset_open_dropped s id r q T Hu HT).
  - apply lookup_insert_Some in Hk as [[<- _]|[_ Hk]]; [|by apply Hu]. pose proof (Hpl _ _ Ht) as Hp. destruct ref as [ref|]; [|done].
    destruct Hinv as [[I1 _] [J1 _ _ _ _]]. destruct (J1 _ _ ref Ht eq_refl) as (r & Hr & Er & _). destruct (I1 _ _ Hr) as (_ & q & Hq & _). simpl in Er. rewrite <- Er. by eexists.
  - apply lookup_insert_Some in Hk as [[_ Hk]|[_ Hk]]; [done|by apply Hu].
  - apply lookup_delete_Some in Hk as [_ Hk]. by apply Hu.
  - by apply Hu.
Qed.
Lemma by_reference_inv ok s : (∀ s a, ok s a = true → by_reference s a = true) → reachable ok s → plain (threads s) ∧ unset_open s.
Proof.
  intros Hok. induction 1 as [|s a s' Hr [IH1 IH2] Hroom Ha Hs]; [split; intros ?; by rewrite ?lookup_empty|].
  pose proof (inv_reachable _ _ Hr) as Hinv. split; [|by eapply unset_open_step]. apply (step_effect s a s' Hinv Hroom Hs); [by eapply Hok|done].
Qed.

(** With disciplined clients an open resource is stored and a resource whose
    last reference is gone is not opened again. *)
Definition kept s : Prop :=
  (∀ key, is_Some (_openResources s !! key) → key ∈ stored s) ∧
  (∀ key v, _resourcesToRemove s !! key = Some v → is_unset v = false → _openResources s !! key = None).
Lemma kept_step s a s' : inv s → room_for_refs s → plain (threads s) → kept s → disciplined s a = true → step s a s' → kept s'.
Proof.
  intros Hinv Hroom Hpl [K1 K2] Hd Hs. destruct (step_effect s a s' Hinv Hroom Hs) as [He _].
  inversion He as [a' Ea EO ET ES|key q Hn Ea EO ET ES|key q Hor Ea EO ET ES|a' id r q T Hr Hq HT Ea EO ET ES|t key ref Ht Hn Ea EO ET ES|t key o Ht Ea EO ET ES|t key Ht Ea EO ET ES|t key Ht Ea EO ET ES];
    unfold kept; rewrite <- EO, <- ET, <- ES; clear EO ES; try (rewrite <- ET in HT); clear ET; rewrite <- ?Ea in Hd.
  - done.
  - split; [intros k [->|[_ H]]%lookup_insert_is_Some; set_solver|]. intros k v Hk Hv. destruct (decide (key = k)) as [<-|]; [congruence|].
    rewrite lookup_insert_ne by done. by eapply K2.
  - split; [intros k [->|[_ H]]%lookup_insert_is_Some; [destruct Hor; auto|auto]|]. intros k v Hk Hv. destruct (decide (key = k)) as [<-|].
    + simpl in Hd. rewrite Hk in Hd. congruence.
    + rewrite lookup_insert_ne by done. by eapply K2.
  - simpl. unfold promise_after in HT. case_decide as H1.
    + split; [intros k [_ H]%lookup_delete_is_Some; auto|]. intros k v Hk Hv. destruct (decide (r_key r = k)) as [<-|]; [apply lookup_delete_eq|].
      rewrite lookup_delete_ne by done. destruct (_resourcesToRemove s !! r_key r) as [[| |]|] eqn:E; subst; try done.
      * rewrite lookup_insert_ne in Hk by done. by eapply K2.
      * by eapply K2.
    + subst T. split; [intros k [<-|[_ H]]%lookup_insert_is_Some; [apply K1; by eexists|auto]|]. intros k v Hk Hv.
      pose proof (K2 _ _ Hk Hv) as Hn. rewrite lookup_insert_ne; [done|]. intros <-. congruence.
  - split; [done|]. intros k v [[_ <-]|[_ Hk]]%lookup_insert_Some Hv; [done|by eapply K2].
  - split; [done|]. intros k v [[<- <-]|[_ Hk]]%lookup_insert_Some Hv; [by eapply K2|by eapply K2].
  - split; [|intros k v [_ Hk]%lookup_delete_Some Hv; by eapply K2]. intros k Hk. pose proof (K1 _ Hk) as H. apply elem_of_difference. split; [done|].
    intros ->%elem_of_singleton. rewrite (K2 _ _ Ht eq_refl) in Hk. by destruct Hk.
  - by destruct (Hpl _ _ Ht).
Qed.
Lemma kept_reachable s : reachable disciplined s → plain (threads s) ∧ kept s.
Proof.
  induction 1 as [|s a s' Hr [IH1 IH2] Hroom Ha Hs]; [split; [by intros ? ?|split; intros ?; by rewrite ?lookup_empty; intros []]|].
  pose proof (inv_reachable _ _ Hr) as Hinv. split; [|by eapply kept_step]. apply (step_effect s a s' Hinv Hroom Hs); [by destruct a|done].
Qed.

(** The only way to end the program. *)
Lemma destruct_crash s id r : inv s → room_for_refs s → refs s !! id = Some r → (destruct_ref id (r_key r) s).1 = Throw Terminate →
  ∃ v, _resourcesToRemove s !! r_key r = Some v ∧ is_unset v = false ∧ is_Some (_openResources s !! r_key r).
Proof.
  intros Hinv Hroom Hr E. unfold room_for_refs in Hroom.
  destruct (destruct_ref_cases s id r Hinv ltac:(lia) Hr) as (q & Hq & _ & [(T & _ & E')|(v & Hv & Hu & _)]); [by rewrite E' in E|].
  exists v. split; [done|]. split; [done|]. by eexists.
Qed.
Lemma bind_terminate {B} (m : M pstate unit) (k : unit → M pstate B) s : (∀ s', (k tt s').1 ≠ Throw Terminate) → ((m ≫= k) s).1 = Throw Terminate → (m s).1 = Throw Terminate.
Proof. unfold mbind, M_bind. destruct (m s) as [[[]|e] s'] eqn:E; simpl; [by intros H ?%H|by intros _ [= ->]]. Qed.
Lemma crash_reloaded s a : inv s → room_for_refs s → crashes s a →
  ∃ key v, _resourcesToRemove s !! key = Some v ∧ is_unset v = false ∧ is_Some (_openResources s !! key).
Proof.
  intros Hinv Hroom (m & Em & E). pose proof Hinv as [HC HM]. destruct a as [key|key|ref|t ref|t key|t]; simpl in Em.
  - case_decide as Hk; [done|]. injection Em as <-. unfold mbind, M_bind in E. simpl in E.
    destruct (add key (objects s) _) as [ra sa] eqn:Ea. apply inv_add in Ea as [_ Ha]; [|done..]. by destruct ra; simpl in E; congruence.
  - injection Em as <-. unfold mbind, M_bind in E. destruct (load key s) as [ra sa] eqn:Ea. apply inv_load in Ea as [_ Ha]; [|done..].
    by destruct ra; simpl in E; congruence.
  - destruct (refs s !! ref) as [x|] eqn:Hx; [|done]. destruct (r_removing x) eqn:Hrem; [done|]. injection Em as <-.
    destruct (destruct_crash s ref x Hinv Hroom Hx E) as (v & H). by exists (r_key x), v.
  - destruct (refs s !! ref) as [x|] eqn:Hx; [|done]. destruct (threads s !! t) eqn:Ht; [done|]. destruct (r_removing x); [done|]. by injection Em as <-.
  - destruct (threads s !! t); [done|]. by injection Em as <-.
  - destruct (threads s !! t) as [p|] eqn:Ht; [|done]. destruct p as [key ref|key ref|key|key o|key].
    + injection Em as <-. revert E. unfold finish, _resourceToRemoveFuture, on_throw, get_state, mbind, M_bind. simpl.
      destruct (_resourcesToRemove s !! key) as [v|] eqn:Et; simpl; [|done]. destruct ref as [id|]; [|done].
      destruct (matched_holds _ _ _ HM _ _ id Ht eq_refl) as (x & Hx & Ek & Hrem). simpl in Ek. subst key.
      assert (inv (set_threads (delete t) s)) as Hinv1 by (apply (inv_threads s (delete t (threads s)) Hinv); by eapply matched_delete_thread).
      unfold run_destructor. destruct (destruct_ref id (r_key x) (set_threads (delete t) s)) as [rd sd] eqn:Ed. destruct rd as [|e]; simpl; [done|]. intros _.
      destruct (destruct_crash (set_threads (delete t) s) id x Hinv1 Hroom Hx) as (w & H); [|by exists (r_key x), w]. rewrite Ed. simpl.
      destruct (decide (@Throw unit e = Throw Terminate)) as [?|Hne]; [done|]. by apply drop_effect in Ed as [? _].
    + injection Em as <-. destruct (matched_holds _ _ _ HM _ _ ref Ht eq_refl) as (x & Hx & Ek & Hrem). simpl in Ek. subst key.
      apply bind_terminate in E; [|done]. destruct (destruct_crash s ref x Hinv Hroom Hx E) as (v & H). by exists (r_key x), v.
    + simpl in Em. destruct (_resourcesToRemove s !! key) as [[|o|]|]; try done. by injection Em as <-.
    + by injection Em as <-.
    + by injection Em as <-.
Qed.
End consequences.

Lemma crashes_intro s a : match act a s with Some m => (m s).1 = Throw Terminate | None => False end → crashes s a.
Proof. unfold crashes. destruct (act a s) as [m|]; [by exists m|done]. Qed.

(** ** The theorems *)
Section theorems.
Implicit Types (s : pstate) (key : bytes).

(** C21. References are safe whatever threads do. In every state that can be
    reached, a live reference points to the open resource object of its key
    (no reference dangles, no key has two open objects), a resource is open
    exactly as long as it has references, its counter is their number, and
    when no reference and no removal is left the destructor of the store
    succeeds. The program ends only if a resource that is open was opened
    after the last reference to it had been released for a removal. *)
Theorem references_counted s :
  reachable anything s →
  (∀ id r, refs s !! id = Some r → ∃ q, _openResources s !! r_key r = Some q ∧ _resource q = r_object r) ∧
  (∀ key q, _openResources s !! key = Some q → _refCount q = Z.of_nat (count key (refs s)) ∧ (1 ≤ count key (refs s))%nat) ∧
  (refs s = ∅ → threads s = ∅ → destroy s = (Ok tt, s)) ∧
  (∀ a, room_for_refs s → crashes s a → ∃ key v, _resourcesToRemove s !! key = Some v ∧ is_unset v = false ∧ is_Some (_openResources s !! key)).
Proof.
  intros Hr. pose proof (inv_reachable _ _ Hr) as Hinv. pose proof Hinv as [[I1 I2] [_ _ _ J4 _]]. split; [|split; [done|split]].
  - intros id r H. destruct (I1 _ _ H) as [_ Hq]. exact Hq.
  - intros H1 H2. assert (_openResources s = ∅) as Ho.
    { apply map_eq. intros key. rewrite lookup_empty. apply eq_None_not_Some. intros [q Hq]. apply I2 in Hq as [_ Hc].
      rewrite H1 in Hc. unfold count in Hc. rewrite map_filter_empty, map_size_empty in Hc. lia. }
    assert (_resourcesToRemove s = ∅) as Ht.
    { apply map_eq. intros key. rewrite lookup_empty. apply eq_None_not_Some. intros [v Hv]. apply J4 in Hv as (t & p & Hp & _).
      by rewrite H2, lookup_empty in Hp. }
    unfold destroy, get_state, mbind, M_bind. by rewrite Ho, Ht.
  - intros a Hroom Hc. by eapply crash_reloaded.
Qed.

(** C22. No removal is lost. As long as resources are removed through a
    reference, a thread that waits in [remove] can go on as soon as the
    resource has no reference any more; without live references no thread
    waits. *)
Theorem removal_not_lost s t key :
  reachable by_reference s → threads s !! t = Some (RemoveWait key) →
  (∃ m, act (AStep t) s = Some m) ∨ (∃ id r, refs s !! id = Some r ∧ r_key r = key).
Proof.
  intros Hr Ht. pose proof (inv_reachable _ _ Hr) as [[_ I2] HM]. destruct (by_reference_inv by_reference s) as [_ Hu]; [done|done|].
  destruct (matched_promise _ _ _ HM _ _ Ht eq_refl) as (v & Hv & He). simpl in Hv. unfold act. rewrite Ht. simpl. rewrite Hv.
  destruct v; [|left; by eexists|done]. right. destruct (Hu _ Hv) as [q Hq]. apply I2 in Hq as [_ Hc]. by apply count_exists.
Qed.

(** Removal is safe for disciplined clients. If no thread loads a resource
    between the release of its last reference and its removal from the base
    store, the program never ends in a destructor, every live reference is
    to a resource that is still stored, and a resource is removed from the
    base store only when it is not open. *)
Theorem disciplined_clients_safe s :
  reachable disciplined s →
  (∀ a, room_for_refs s → ¬ crashes s a) ∧
  (∀ id r, refs s !! id = Some r → r_key r ∈ stored s) ∧
  (∀ t key o, threads s !! t = Some (RemoveErase key o) → _openResources s !! key = None).
Proof.
  intros Hr. pose proof (inv_reachable _ _ Hr) as Hinv. pose proof Hinv as [[I1 _] HM]. destruct (kept_reachable s Hr) as [_ [K1 K2]]. split; [|split].
  - intros a Hroom Hc. destruct (crash_reloaded s a Hinv Hroom Hc) as (key & v & Hv & Hu & Ho). rewrite (K2 _ _ Hv Hu) in Ho. by destruct Ho.
  - intros id r H. destruct (I1 _ _ H) as (_ & q & Hq & _). apply K1. by eexists.
  - intros t key o Ht. destruct (matched_promise _ _ _ HM _ _ Ht eq_refl) as (v & Hv & He). simpl in Hv. destruct v; try done. by apply (K2 _ Retrieved).
Qed.

(** A removal by key can wait forever. The thread looks for the key without
    the lock and finds the resource open; then the last reference is
    released, and only then the promise is inserted. Nobody keeps it: the
    thread waits although nothing is open and no other thread is left. *)
Theorem remove_by_key_waits_forever :
  ∃ s t key, reachable anything s ∧ threads s = {[ t := RemoveWait key ]} ∧ refs s = ∅ ∧ _openResources s = ∅ ∧ act (AStep t) s = None.
Proof.
  exists (after_actions anything [ACreate [x01]; ARemove 1 [x01]; ARelease 0; AStep 1]), 1%nat, [x01].
  split; [apply after_reachable; by vm_compute|]. split_and!; by vm_compute.
Qed.

(** A resource that is loaded while it is being removed (after its last
    reference is released, before the remover has the lock) is opened a
    second time: its reference outlives the resource in the base store; and
    if it is released before the removal goes on, the promise is set twice,
    the exception leaves a destructor and the program ends. *)
Theorem load_during_removal_breaks :
  (∃ s id r, reachable by_reference s ∧ refs s !! id = Some r ∧ r_key r ∉ stored s) ∧
  (∃ s a, reachable by_reference s ∧ crashes s a).
Proof.
  split.
  - exists (after_actions by_reference [ACreate [x01]; ARemoveRef 1 0; AStep 1; AStep 1; AStep 1; ALoad [x01]; AStep 1]), 1%nat, (mkRef [x01] 1 false).
    split; [apply after_reachable; by vm_compute|]. split; [by vm_compute|]. apply (bool_decide_unpack _). by vm_compute.
  - exists (after_actions by_reference [ACreate [x01]; ARemoveRef 1 0; AStep 1; AStep 1; AStep 1; ALoad [x01]]), (ARelease 1).
    split; [apply after_reachable; by vm_compute|]. apply crashes_intro. by vm_compute.
Qed.
End theorems.

(** Two threads share a resource, one of them removes it. *)
Definition shared_actions : list action := [ACreate [x01]; ALoad [x01]; ACreate [x02]; ARemoveRef 7 0; AStep 7; AStep 7].
Definition shared_state : pstate := after_actions disciplined shared_actions.
Lemma reachable_mono ok ok' s : (∀ s a, ok s a = true → ok' s a = true) → reachable ok s → reachable ok' s.
Proof. intros Hok. induction 1; [apply reach_init|]. eapply reach_step; eauto. Qed.
Lemma shared_reachable ok : (∀ s a, disciplined s a = true → ok s a = true) → reachable ok shared_state.
Proof.
  intros Hok. apply (reachable_mono _ _ _ Hok), after_reachable. by vm_compute.
Qed.

Lemma references_counted_witness :
  _openResources shared_state !! [x01] = Some (mkOpen 0 1) ∧ (1 ≤ count [x01] (refs shared_state))%nat.
Proof.
  split; [by vm_compute|]. destruct (references_counted shared_state) as (_ & H & _); [by apply shared_reachable|].
  apply (H [x01] (mkOpen 0 1)). by vm_compute.
Defined.
Lemma removal_not_lost_witness :
  threads shared_state !! 7%nat = Some (RemoveWait [x01]) ∧
  ((∃ m, act (AStep 7) shared_state = Some m) ∨ (∃ id r, refs shared_state !! id = Some r ∧ r_key r = [x01])).
Proof.
  split; [by vm_compute|]. apply (removal_not_lost shared_state 7 [x01]); [|by vm_compute]. apply shared_reachable. by intros s [].
Defined.
Lemma disciplined_clients_safe_witness : refs shared_state !! 1%nat = Some (mkRef [x01] 0 false) ∧ [x01] ∈ stored shared_state.
Proof.
  split; [by vm_compute|]. destruct (disciplined_clients_safe shared_state) as (_ & H & _); [by apply shared_reachable|].
  apply (H 1%nat (mkRef [x01] 0 false)). by vm_compute.
Defined.
