(* ===== verification/Either.v ===== *)
(** * The tagged union [either] (cpp-utils/either.h)

    The results of loading a configuration are [either] objects: a union of
    two members and a side that says which of them is alive. The model keeps
    track of the lifetimes: a member is [Some] from its construction to its
    destruction, and to use or destroy a member that is not alive, or to
    construct one where one is alive, is [UndefinedBehaviour]. Objects live
    at addresses, so that assigning an object to itself can be seen. The
    copy and move constructors and the equality of the members are
    parameters. *)
From S2P Require Import Prelude.
From Stdlib Require Import Lia ZArith.

Module Either.
Inductive Side := left_side | right_side.
#[export] Instance Side_eq_dec : EqDecision Side.
Proof. solve_decision. Defined.

Section either.
Context {Left Right : Type}.
(** A copy may throw; a move leaves something behind in the source. *)
Context (copyLeft : Left → result Left) (copyRight : Right → result Right).
Context (moveLeft : Left → result Left * Left) (moveRight : Right → result Right * Right).
Context (eqLeft : Left → Left → bool) (eqRight : Right → Right → bool).

Record either := mk { _left : option Left; _right : option Right; _side : Side }.

Abbreviation H := (gmap nat either).

Definition object (a : nat) : M H either :=
  h ← get_state ; match h !! a with Some e => mret e | None => mthrow UndefinedBehaviour end.
Definition put (a : nat) (e : either) : M H unit := modify <[a := e]>.
(** Using a member of the union. *)
Definition member_left (a : nat) : M H Left :=
  e ← object a ; match _left e with Some x => mret x | None => mthrow UndefinedBehaviour end.
Definition member_right (a : nat) : M H Right :=
  e ← object a ; match _right e with Some y => mret y | None => mthrow UndefinedBehaviour end.

Definition _construct_left (a : nat) (r : result Left) : M H unit :=
  e ← object a ;
  match _left e, _right e with
  | None, None => x ← lift r ; put a (mk (Some x) None (_side e))
  | _, _ => mthrow UndefinedBehaviour
  end.
Definition _construct_right (a : nat) (r : result Right) : M H unit :=
  e ← object a ;
  match _left e, _right e with
  | None, None => y ← lift r ; put a (mk None (Some y) (_side e))
  | _, _ => mthrow UndefinedBehaviour
  end.
Definition _destruct (a : nat) : M H unit :=
  e ← object a ;
  match _side e, _left e, _right e with
  | left_side, Some _, r => put a (mk None r left_side)
  | right_side, l, Some _ => put a (mk l None right_side)
  | _, _, _ => mthrow UndefinedBehaviour
  end.
(** The source of a move after it. *)
Definition move_left (b : nat) : M H (result Left) :=
  x ← member_left b ; e ← object b ;
  let '(r, x') := moveLeft x in put b (mk (Some x') (_right e) (_side e)) ;; mret r.
Definition move_right (b : nat) : M H (result Right) :=
  y ← member_right b ; e ← object b ;
  let '(r, y') := moveRight y in put b (mk (_left e) (Some y') (_side e)) ;; mret r.

(** [explicit either(Side side)]: no member is alive. *)
Definition either_side (a : nat) (side : Side) : M H unit :=
  h ← get_state ;
  match h !! a with None => put a (mk None None side) | Some _ => mthrow UndefinedBehaviour end.
(** A constructor whose body throws: there is no object, and its destructor
    does not run. *)
Definition constructor (a : nat) (side : Side) (body : M H unit) : M H unit := λ h,
  match (either_side a side ;; body) h with
  | (Ok _, h') => (Ok tt, h')
  | (Throw e, h') => (Throw e, delete a h')
  end.
Definition either_left (a : nat) (r : result Left) : M H unit := constructor a left_side (_construct_left a r).
Definition either_right (a : nat) (r : result Right) : M H unit := constructor a right_side (_construct_right a r).
Definition copy_members (a b : nat) : M H unit :=
  e ← object a ;
  match _side e with
  | left_side => x ← member_left b ; _construct_left a (copyLeft x)
  | right_side => y ← member_right b ; _construct_right a (copyRight y)
  end.
Definition move_members (a b : nat) : M H unit :=
  e ← object a ;
  match _side e with
  | left_side => r ← move_left b ; _construct_left a r
  | right_side => r ← move_right b ; _construct_right a r
  end.
Definition either_copy (a b : nat) : M H unit := rhs ← object b ; constructor a (_side rhs) (copy_members a b).
Definition either_move (a b : nat) : M H unit := rhs ← object b ; constructor a (_side rhs) (move_members a b).
Definition destructor (a : nat) : M H unit := _destruct a ;; modify (delete a).
Definition set_side (a : nat) (side : Side) : M H unit := e ← object a ; put a (mk (_left e) (_right e) side).
Definition assign_copy (a b : nat) : M H unit :=
  if decide (a = b) then mret tt
  else _destruct a ;; rhs ← object b ; set_side a (_side rhs) ;; copy_members a b.
Definition assign_move (a b : nat) : M H unit :=
  if decide (a = b) then mret tt
  else _destruct a ;; rhs ← object b ; set_side a (_side rhs) ;; move_members a b.

Definition is_left (a : nat) : M H bool := e ← object a ; mret (bool_decide (_side e = left_side)).
Definition is_right (a : nat) : M H bool := e ← object a ; mret (bool_decide (_side e = right_side)).
Definition left (a : nat) : M H Left :=
  l ← is_left a ;
  if negb l then mthrow (LogicError "Tried to get left side of an either which is right.") else member_left a.
Definition right (a : nat) : M H Right :=
  r ← is_right a ;
  if negb r then mthrow (LogicError "Tried to get right side of an either which is left.") else member_right a.
Definition left_opt (a : nat) : M H (option Left) :=
  l ← is_left a ; if (l : bool) then x ← member_left a ; mret (Some x) else mret None.
Definition right_opt (a : nat) : M H (option Right) :=
  r ← is_right a ; if (r : bool) then y ← member_right a ; mret (Some y) else mret None.
(** The variants for temporaries move the content out. *)
Definition left_opt_move (a : nat) : M H (option Left) :=
  l ← is_left a ; if (l : bool) then r ← move_left a ; x ← lift r ; mret (Some x) else mret None.
Definition right_opt_move (a : nat) : M H (option Right) :=
  r ← is_right a ; if (r : bool) then r ← move_right a ; y ← lift r ; mret (Some y) else mret None.
Definition equal (a b : nat) : M H bool :=
  la ← is_left a ; lb ← is_left b ;
  if negb (Bool.eqb la lb) then mret false
  else if (la : bool) then x ← left a ; y ← left b ; mret (eqLeft x y)
  else x ← right a ; y ← right b ; mret (eqRight x y).
Definition not_equal (a b : nat) : M H bool := e ← equal a b ; mret (negb e).

(** [make_left] and [make_right]: here the object exists when its member is
    constructed, so when that throws the destructor of the object runs. The
    result is built in place. *)
Definition unwinding (a : nat) (m : M H unit) : M H unit := λ h,
  match m h with
  | (Ok _, h') => (Ok tt, h')
  | (Throw e, h') => match destructor a h' with (Ok _, h'') => (Throw e, h'') | (Throw e', h'') => (Throw e', h'') end
  end.
Definition make_left (a : nat) (r : result Left) : M H unit := either_side a left_side ;; unwinding a (_construct_left a r).
Definition make_right (a : nat) (r : result Right) : M H unit := either_side a right_side ;; unwinding a (_construct_right a r).

(** ** The objects as values of a sum type *)
Abbreviation value := (Left + Right)%type.
Definition inj (v : value) : either :=
  match v with inl x => mk (Some x) None left_side | inr y => mk None (Some y) right_side end.
Definition copy (v : value) : result value :=
  match v with inl x => x' ← copyLeft x ; mret (inl x') | inr y => y' ← copyRight y ; mret (inr y') end.
(** The moved value, and what is left in the source. *)
Definition move (v : value) : result value * value :=
  match v with
  | inl x => let '(r, x') := moveLeft x in (x1 ← r ; mret (inl x1), inl x')
  | inr y => let '(r, y') := moveRight y in (y1 ← r ; mret (inr y1), inr y')
  end.
Definition eqb (v w : value) : bool :=
  match v, w with inl x, inl y => eqLeft x y | inr x, inr y => eqRight x y | _, _ => false end.

Inductive op :=
| MakeLeft (a : nat) (r : result Left) | MakeRight (a : nat) (r : result Right)
| NewLeft (a : nat) (r : result Left) | NewRight (a : nat) (r : result Right)
| NewCopy (a b : nat) | NewMove (a b : nat) | Destroy (a : nat)
| AssignCopy (a b : nat) | AssignMove (a b : nat)
| GetLeft (a : nat) | GetRight (a : nat) | LeftOpt (a : nat) | RightOpt (a : nat)
| TakeLeft (a : nat) | TakeRight (a : nat) | Equal (a b : nat).
Inductive output := Done | VLeft (x : Left) | VRight (y : Right) | VOptLeft (x : option Left) | VOptRight (y : option Right) | VBool (b : bool).

Definition run_op (o : op) : M H output :=
  match o with
  | MakeLeft a r => make_left a r ;; mret Done
  | MakeRight a r => make_right a r ;; mret Done
  | NewLeft a r => either_left a r ;; mret Done
  | NewRight a r => either_right a r ;; mret Done
  | NewCopy a b => either_copy a b ;; mret Done
  | NewMove a b => either_move a b ;; mret Done
  | Destroy a => destructor a ;; mret Done
  | AssignCopy a b => assign_copy a b ;; mret Done
  | AssignMove a b => assign_move a b ;; mret Done
  | GetLeft a => x ← left a ; mret (VLeft x)
  | GetRight a => y ← right a ; mret (VRight y)
  | LeftOpt a => x ← left_opt a ; mret (VOptLeft x)
  | RightOpt a => y ← right_opt a ; mret (VOptRight y)
  | TakeLeft a => x ← left_opt_move a ; mret (VOptLeft x)
  | TakeRight a => y ← right_opt_move a ; mret (VOptRight y)
  | Equal a b => e ← equal a b ; mret (VBool e)
  end.

(** The same operations on values. *)
Definition create (a : nat) (r : result value) (A : gmap nat value) : result output * gmap nat value :=
  match r with Ok v => (Ok Done, <[a := v]> A) | Throw e => (Throw e, A) end.
Definition spec_op (o : op) (A : gmap nat value) : result output * gmap nat value :=
  match o with
  | MakeLeft a r | NewLeft a r => create a (x ← r ; mret (inl x)) A
  | MakeRight a r | NewRight a r => create a (y ← r ; mret (inr y)) A
  | NewCopy a b => match A !! b with Some v => create a (copy v) A | None => (Throw UndefinedBehaviour, A) end
  | NewMove a b => match A !! b with Some v => create a (move v).1 (<[b := (move v).2]> A) | None => (Throw UndefinedBehaviour, A) end
  | Destroy a => (Ok Done, delete a A)
  | AssignCopy a b =>
      if decide (a = b) then (Ok Done, A)
      else match A !! b with Some v => create a (copy v) A | None => (Throw UndefinedBehaviour, A) end
  | AssignMove a b =>
      if decide (a = b) then (Ok Done, A)
      else match A !! b with Some v => create a (move v).1 (<[b := (move v).2]> A) | None => (Throw UndefinedBehaviour, A) end
  | GetLeft a => (match A !! a with
                  | Some (inl x) => Ok (VLeft x)
                  | _ => Throw (LogicError "Tried to get left side of an either which is right.") end, A)
  | GetRight a => (match A !! a with
                   | Some (inr y) => Ok (VRight y)
                   | _ => Throw (LogicError "Tried to get right side of an either which is left.") end, A)
  | LeftOpt a => (Ok (VOptLeft (match A !! a with Some (inl x) => Some x | _ => None end)), A)
  | RightOpt a => (Ok (VOptRight (match A !! a with Some (inr y) => Some y | _ => None end)), A)
  | TakeLeft a => match A !! a with
                  | Some (inl x) => (x1 ← (moveLeft x).1 ; mret (VOptLeft (Some x1)), <[a := inl (moveLeft x).2]> A)
                  | _ => (Ok (VOptLeft None), A) end
  | TakeRight a => match A !! a with
                   | Some (inr y) => (y1 ← (moveRight y).1 ; mret (VOptRight (Some y1)), <[a := inr (moveRight y).2]> A)
                   | _ => (Ok (VOptRight None), A) end
  | Equal a b => (Ok (VBool (match A !! a, A !! b with Some v, Some w => eqb v w | _, _ => false end)), A)
  end.

Definition returns {B} (r : result B) : bool := match r with Ok _ => true | Throw _ => false end.
(** What a client may do: construct where there is nothing, use what exists.
    A constructor of a member may throw in a constructor of [either], not in
    [make_left], [make_right] or an assignment. *)
Definition allowed (A : gmap nat value) (o : op) : bool :=
  match o with
  | MakeLeft a r => bool_decide (A !! a = None) && returns r
  | MakeRight a r => bool_decide (A !! a = None) && returns r
  | NewLeft a _ | NewRight a _ => bool_decide (A !! a = None)
  | NewCopy a b | NewMove a b => bool_decide (A !! a = None) && bool_decide (is_Some (A !! b))
  | AssignCopy a b => bool_decide (is_Some (A !! a)) && match A !! b with Some v => bool_decide (a = b) || returns (copy v) | None => false end
  | AssignMove a b => bool_decide (is_Some (A !! a)) && match A !! b with Some v => bool_decide (a = b) || returns (move v).1 | None => false end
  | Destroy a | GetLeft a | GetRight a | LeftOpt a | RightOpt a | TakeLeft a | TakeRight a => bool_decide (is_Some (A !! a))
  | Equal a b => bool_decide (is_Some (A !! a)) && bool_decide (is_Some (A !! b))
  end.

(** ** What the parts do *)
Definition side_of (v : value) : Side := match v with inl _ => left_side | inr _ => right_side end.
Definition empty_of (v : value) : either := mk None None (side_of v).

Ltac at_object := unfold member_left, member_right, object, put, modify, mbind, M_bind, get_state, mret, M_ret, mthrow, M_throw.
Lemma object_at a e (h : H) : h !! a = Some e → object a h = (Ok e, h).
Proof. intros E. at_object. by rewrite E. Qed.
Lemma construct_left_at a s r (h : H) :
  h !! a = Some (mk None None s) →
  _construct_left a r h = match r with Ok x => (Ok tt, <[a := mk (Some x) None s]> h) | Throw e => (Throw e, h) end.
Proof. intros E. unfold _construct_left. rewrite (bind_ok _ _ _ _ _ (object_at _ _ _ E)). by destruct r. Qed.
Lemma construct_right_at a s r (h : H) :
  h !! a = Some (mk None None s) →
  _construct_right a r h = match r with Ok x => (Ok tt, <[a := mk None (Some x) s]> h) | Throw e => (Throw e, h) end.
Proof. intros E. unfold _construct_right. rewrite (bind_ok _ _ _ _ _ (object_at _ _ _ E)). by destruct r. Qed.
Lemma destruct_at a v (h : H) : h !! a = Some (inj v) → _destruct a h = (Ok tt, <[a := empty_of v]> h).
Proof. intros E. unfold _destruct. rewrite (bind_ok _ _ _ _ _ (object_at _ _ _ E)). by destruct v. Qed.
Lemma copy_members_at a b v (h : H) :
  h !! a = Some (empty_of v) → h !! b = Some (inj v) →
  copy_members a b h = match copy v with Ok w => (Ok tt, <[a := inj w]> h) | Throw e => (Throw e, h) end.
Proof.
  intros Ea Eb. unfold copy_members. rewrite (bind_ok _ _ _ _ _ (object_at _ _ _ Ea)). destruct v as [x|y]; simpl in *.
  - rewrite (bind_ok _ _ h x h) by (at_object; by rewrite Eb). rewrite (construct_left_at _ _ _ _ Ea). by destruct (copyLeft x).
  - rewrite (bind_ok _ _ h y h) by (at_object; by rewrite Eb). rewrite (construct_right_at _ _ _ _ Ea). by destruct (copyRight y).
Qed.
Lemma move_left_at b x r s (h : H) :
  h !! b = Some (mk (Some x) r s) → move_left b h = (Ok (moveLeft x).1, <[b := mk (Some (moveLeft x).2) r s]> h).
Proof. intros E. unfold move_left. at_object. rewrite E. simpl. rewrite ?E. by destruct (moveLeft x). Qed.
Lemma move_right_at b y l s (h : H) :
  h !! b = Some (mk l (Some y) s) → move_right b h = (Ok (moveRight y).1, <[b := mk l (Some (moveRight y).2) s]> h).
Proof. intros E. unfold move_right. at_object. rewrite E. simpl. rewrite ?E. by destruct (moveRight y). Qed.
Lemma move_members_at a b v (h : H) :
  h !! a = Some (empty_of v) → h !! b = Some (inj v) →
  move_members a b h =
    match (move v).1 with
    | Ok w => (Ok tt, <[a := inj w]> (<[b := inj (move v).2]> h))
    | Throw e => (Throw e, <[b := inj (move v).2]> h)
    end.
Proof.
  intros Ea Eb. assert (a ≠ b) by (intros ->; rewrite Ea in Eb; by destruct v).
  unfold move_members. rewrite (bind_ok _ _ _ _ _ (object_at _ _ _ Ea)). destruct v as [x|y]; simpl in *.
  - rewrite (bind_ok _ _ _ _ _ (move_left_at _ _ _ _ _ Eb)).
    rewrite (construct_left_at a left_side) by by rewrite lookup_insert_ne. by destruct (moveLeft x) as [[]].
  - rewrite (bind_ok _ _ _ _ _ (move_right_at _ _ _ _ _ Eb)).
    rewrite (construct_right_at a right_side) by by rewrite lookup_insert_ne. by destruct (moveRight y) as [[]].
Qed.
(** A constructor whose body replaces the new object [a], if it returns. *)
Lemma constructor_at a s body (h h' : H) r :
  h !! a = None → body (<[a := mk None None s]> h) = (r, h') →
  constructor a s body h = match r with Ok _ => (Ok tt, h') | Throw e => (Throw e, delete a h') end.
Proof.
  intros E Hb. unfold constructor, either_side. at_object. rewrite E. simpl. rewrite Hb. by destruct r.
Qed.
Lemma side_inj v : _side (inj v) = side_of v.
Proof. by destruct v. Qed.

(** ** The refinement *)
Abbreviation objects A := (inj <$> A : H).
Lemma objects_lookup (A : gmap nat value) a v : A !! a = Some v → objects A !! a = Some (inj v).
Proof. intros E. by rewrite lookup_fmap, E. Qed.
Lemma objects_none (A : gmap nat value) a : A !! a = None → objects A !! a = None.
Proof. intros E. by rewrite lookup_fmap, E. Qed.
Lemma is_left_at a v (h : H) : h !! a = Some (inj v) → is_left a h = (Ok (match v with inl _ => true | _ => false end), h).
Proof. intros E. unfold is_left. rewrite (bind_ok _ _ _ _ _ (object_at _ _ _ E)). by destruct v. Qed.
Lemma is_right_at a v (h : H) : h !! a = Some (inj v) → is_right a h = (Ok (match v with inr _ => true | _ => false end), h).
Proof. intros E. unfold is_right. rewrite (bind_ok _ _ _ _ _ (object_at _ _ _ E)). by destruct v. Qed.
Lemma left_at a v (h : H) :
  h !! a = Some (inj v) →
  left a h = (match v with inl x => Ok x | _ => Throw (LogicError "Tried to get left side of an either which is right.") end, h).
Proof.
  intros E. unfold left. rewrite (bind_ok _ _ _ _ _ (is_left_at _ _ _ E)). destruct v; [|done]. simpl. at_object. by rewrite E.
Qed.
Lemma right_at a v (h : H) :
  h !! a = Some (inj v) →
  right a h = (match v with inr y => Ok y | _ => Throw (LogicError "Tried to get right side of an either which is left.") end, h).
Proof.
  intros E. unfold right. rewrite (bind_ok _ _ _ _ _ (is_right_at _ _ _ E)). destruct v; [done|]. simpl. at_object. by rewrite E.
Qed.

Lemma delete_new {A} (m : gmap nat A) a x : m !! a = None → delete a (<[a := x]> m) = m.
Proof. intros E. by rewrite delete_insert_eq, delete_id. Qed.
(** The new object of a constructor, in a heap of objects. *)
Lemma fresh_copy (A : gmap nat value) a b v :
  A !! b = Some v → a ≠ b →
  copy_members a b (<[a := empty_of v]> (objects A)) =
    match copy v with Ok w => (Ok tt, objects (<[a := w]> A)) | Throw e => (Throw e, <[a := empty_of v]> (objects A)) end.
Proof.
  intros Hb Hne. rewrite (copy_members_at a b v).
  - destruct (copy v); [|done]. by rewrite insert_insert_eq, fmap_insert.
  - apply lookup_insert_eq.
  - rewrite lookup_insert_ne by done. by apply objects_lookup.
Qed.
Lemma fresh_move (A : gmap nat value) a b v :
  A !! b = Some v → a ≠ b →
  move_members a b (<[a := empty_of v]> (objects A)) =
    match (move v).1 with
    | Ok w => (Ok tt, objects (<[a := w]> (<[b := (move v).2]> A)))
    | Throw e => (Throw e, <[a := empty_of v]> (objects (<[b := (move v).2]> A)))
    end.
Proof.
  intros Hb Hne. rewrite (move_members_at a b v).
  - destruct ((move v).1); rewrite (insert_insert_ne _ b a) by done; rewrite ?insert_insert_eq, ?fmap_insert; done.
  - apply lookup_insert_eq.
  - rewrite lookup_insert_ne by done. by apply objects_lookup.
Qed.
Lemma constructor_result (A : gmap nat value) a s body (r : result value) (B : gmap nat value) :
  A !! a = None → B !! a = None →
  body (<[a := mk None None s]> (objects A)) =
    match r with Ok w => (Ok tt, objects (<[a := w]> B)) | Throw e => (Throw e, <[a := mk None None s]> (objects B)) end →
  (constructor a s body ;; mret Done) (objects A) = ((create a r B).1, objects (create a r B).2).
Proof.
  intros Ha HB Hb. unfold mbind at 1, M_bind at 1.
  destruct r as [w|e]; rewrite (constructor_at _ _ _ _ _ _ (objects_none A a Ha) Hb); simpl; [done|].
  by rewrite delete_new by by apply objects_none.
Qed.
Lemma assign_at (A : gmap nat value) a b u v (members : M H unit) :
  A !! a = Some u → A !! b = Some v → a ≠ b →
  (_destruct a ;; rhs ← object b ; set_side a (_side rhs) ;; members) (objects A) = members (<[a := empty_of v]> (objects A)).
Proof.
  intros Ha Hb Hne. rewrite (bind_ok _ _ _ _ _ (destruct_at a u (objects A) (objects_lookup A a u Ha))).
  assert (Eb : (<[a := empty_of u]> (objects A)) !! b = Some (inj v)).
  { rewrite lookup_insert_ne by done. by apply objects_lookup. }
  rewrite (bind_ok _ _ _ _ _ (object_at _ _ _ Eb)), side_inj.
  assert (Es : set_side a (side_of v) (<[a := empty_of u]> (objects A)) = (Ok tt, <[a := empty_of v]> (objects A))).
  { unfold set_side. rewrite (bind_ok _ _ _ _ _ (object_at a (empty_of u) _ (lookup_insert_eq _ _ _))).
    unfold put, modify. by rewrite insert_insert_eq. }
  by rewrite (bind_ok _ _ _ _ _ Es).
Qed.
Lemma make_left_at (A : gmap nat value) a x :
  A !! a = None → (make_left a (Ok x) ;; mret Done) (objects A) = (Ok Done, objects (<[a := inl x]> A)).
Proof.
  intros Ha%objects_none. unfold make_left, either_side, unwinding, mbind, M_bind, get_state, put, modify. rewrite Ha. simpl.
  rewrite (construct_left_at a left_side) by apply lookup_insert_eq. by rewrite insert_insert_eq, fmap_insert.
Qed.
Lemma make_right_at (A : gmap nat value) a y :
  A !! a = None → (make_right a (Ok y) ;; mret Done) (objects A) = (Ok Done, objects (<[a := inr y]> A)).
Proof.
  intros Ha%objects_none. unfold make_right, either_side, unwinding, mbind, M_bind, get_state, put, modify. rewrite Ha. simpl.
  rewrite (construct_right_at a right_side) by apply lookup_insert_eq. by rewrite insert_insert_eq, fmap_insert.
Qed.
Lemma read_at {B} (f : M H B) (g : B → output) (h h' : H) r :
  f h = (r, h') → (x ← f ; mret (g x)) h = (x ← r ; mret (g x), h').
Proof. intros E. unfold mbind at 1, M_bind at 1. rewrite E. by destruct r. Qed.

Lemma then_done (m : M H unit) (h h' : H) r :
  m h = (r, h') → (m ;; mret Done) h = (match r with Ok _ => Ok Done | Throw e => Throw e end, h').
Proof. intros E. unfold mbind, M_bind. rewrite E. by destruct r. Qed.
Lemma either_op_refines (A : gmap nat value) (o : op) :
  allowed A o = true → run_op o (objects A) = ((spec_op o A).1, objects (spec_op o A).2).
Proof.
  destruct o as [a r|a r|a r|a r|a b|a b|a|a b|a b|a|a|a|a|a|a|a b]; simpl; intros Hok;
    rewrite ?andb_true_iff, ?bool_decide_eq_true in Hok.
  - destruct Hok as [Ha Hr]. destruct r; [|done]. by apply make_left_at.
  - destruct Hok as [Ha Hr]. destruct r; [|done]. by apply make_right_at.
  - apply constructor_result; [done..|]. rewrite (construct_left_at a left_side) by apply lookup_insert_eq.
    destruct r; [|done]. simpl. by rewrite insert_insert_eq, fmap_insert.
  - apply constructor_result; [done..|]. rewrite (construct_right_at a right_side) by apply lookup_insert_eq.
    destruct r; [|done]. simpl. by rewrite insert_insert_eq, fmap_insert.
  - destruct Hok as [Ha [v Hb]]. rewrite Hb. unfold either_copy. rewrite bind_assoc.
    rewrite (bind_ok _ _ _ _ _ (object_at _ _ _ (objects_lookup A b v Hb))), side_inj.
    apply constructor_result; [done..|]. apply fresh_copy; [done|congruence].
  - destruct Hok as [Ha [v Hb]]. rewrite Hb. unfold either_move. rewrite bind_assoc.
    rewrite (bind_ok _ _ _ _ _ (object_at _ _ _ (objects_lookup A b v Hb))), side_inj.
    assert (a ≠ b) by congruence.
    apply constructor_result; [done|by rewrite lookup_insert_ne|]. by apply fresh_move.
  - destruct Hok as [v Ha]. unfold destructor. rewrite !bind_assoc.
    rewrite (bind_ok _ _ _ _ _ (destruct_at a v _ (objects_lookup A a v Ha))).
    unfold mbind, M_bind, modify. simpl. by rewrite delete_insert_eq, fmap_delete.
  - destruct Hok as [[u Ha] Hr]. destruct (A !! b) as [v|] eqn:Hb; [|done]. unfold assign_copy. destruct (decide (a = b)) as [Hab|Hab]; [done|].
    rewrite bool_decide_false in Hr by done. simpl in Hr.
    pose proof (fresh_copy A a b v Hb Hab) as Hm. rewrite <-(assign_at A a b u v _ Ha Hb Hab) in Hm.
    destruct (copy v); [|done]. by rewrite (then_done _ _ _ _ Hm).
  - destruct Hok as [[u Ha] Hr]. destruct (A !! b) as [v|] eqn:Hb; [|done]. unfold assign_move. destruct (decide (a = b)) as [Hab|Hab]; [done|].
    rewrite bool_decide_false in Hr by done. simpl in Hr.
    pose proof (fresh_move A a b v Hb Hab) as Hm. rewrite <-(assign_at A a b u v _ Ha Hb Hab) in Hm.
    destruct ((move v).1); [|done]. by rewrite (then_done _ _ _ _ Hm).
  - destruct Hok as [v Ha]. rewrite (read_at _ _ _ _ _ (left_at _ _ _ (objects_lookup A a v Ha))), Ha. by destruct v.
  - destruct Hok as [v Ha]. rewrite (read_at _ _ _ _ _ (right_at _ _ _ (objects_lookup A a v Ha))), Ha. by destruct v.
  - destruct Hok as [v Ha]. pose proof (objects_lookup A a v Ha) as E. unfold left_opt. rewrite bind_assoc.
    rewrite (bind_ok _ _ _ _ _ (is_left_at _ _ _ E)), Ha. destruct v; [|done]. at_object. by rewrite E.
  - destruct Hok as [v Ha]. pose proof (objects_lookup A a v Ha) as E. unfold right_opt. rewrite bind_assoc.
    rewrite (bind_ok _ _ _ _ _ (is_right_at _ _ _ E)), Ha. destruct v; [done|]. at_object. by rewrite E.
  - destruct Hok as [v Ha]. pose proof (objects_lookup A a v Ha) as E. unfold left_opt_move. rewrite bind_assoc.
    rewrite (bind_ok _ _ _ _ _ (is_left_at _ _ _ E)), Ha. destruct v as [x|]; [|done]. rewrite !bind_assoc.
    rewrite (bind_ok _ _ _ _ _ (move_left_at _ _ _ _ _ E)). simpl. rewrite fmap_insert. by destruct ((moveLeft x).1).
  - destruct Hok as [v Ha]. pose proof (objects_lookup A a v Ha) as E. unfold right_opt_move. rewrite bind_assoc.
    rewrite (bind_ok _ _ _ _ _ (is_right_at _ _ _ E)), Ha. destruct v as [|y]; [done|]. rewrite !bind_assoc.
    rewrite (bind_ok _ _ _ _ _ (move_right_at _ _ _ _ _ E)). simpl. rewrite fmap_insert. by destruct ((moveRight y).1).
  - destruct Hok as [[v Ha] [w Hb]]. pose proof (objects_lookup A a v Ha) as Ea. pose proof (objects_lookup A b w Hb) as Eb.
    unfold equal. rewrite bind_assoc, (bind_ok _ _ _ _ _ (is_left_at _ _ _ Ea)), bind_assoc, (bind_ok _ _ _ _ _ (is_left_at _ _ _ Eb)), Ha, Hb.
    destruct v as [x|x], w as [y|y]; simpl; [|done|done|]; rewrite !bind_assoc.
    + rewrite (bind_ok _ _ _ _ _ (left_at _ _ _ Ea)), bind_assoc, (bind_ok _ _ _ _ _ (left_at _ _ _ Eb)). done.
    + rewrite (bind_ok _ _ _ _ _ (right_at _ _ _ Ea)), bind_assoc, (bind_ok _ _ _ _ _ (right_at _ _ _ Eb)). done.
Qed.

(** Operations one after the other, a client that catches all exceptions. *)
Fixpoint run_ops (l : list op) (h : H) : list (result output) * H :=
  match l with
  | [] => ([], h)
  | o :: l => let '(r, h1) := run_op o h in let '(rs, h2) := run_ops l h1 in (r :: rs, h2)
  end.
Fixpoint spec_ops (l : list op) (A : gmap nat value) : list (result output) * gmap nat value :=
  match l with
  | [] => ([], A)
  | o :: l => let '(r, A1) := spec_op o A in let '(rs, A2) := spec_ops l A1 in (r :: rs, A2)
  end.
Fixpoint allowed_ops (A : gmap nat value) (l : list op) : bool :=
  match l with [] => true | o :: l => allowed A o && allowed_ops (spec_op o A).2 l end.

Lemma run_ops_refine (A : gmap nat value) (l : list op) :
  allowed_ops A l = true → run_ops l (objects A) = ((spec_ops l A).1, objects (spec_ops l A).2).
Proof.
  revert A. induction l as [|o l IH]; intros A; [done|]. simpl. intros [Ho Hl]%andb_true_iff.
  rewrite (either_op_refines A o Ho). destruct (spec_op o A) as [r A1]. simpl in *. rewrite (IH A1 Hl). by destruct (spec_ops l A1).
Qed.
(** A member that throws in an assignment. *)
Lemma assign_copy_throws (A : gmap nat value) (a b : nat) (u v : value) (e : exn) :
  A !! a = Some u → A !! b = Some v → a ≠ b → copy v = Throw e →
  assign_copy a b (objects A) = (Throw e, <[a := empty_of v]> (objects A)).
Proof.
  intros Ha Hb Hab He. unfold assign_copy. destruct (decide (a = b)); [done|].
  rewrite (assign_at A a b u v) by done. by rewrite fresh_copy, He by done.
Qed.
Lemma assign_move_throws (A : gmap nat value) (a b : nat) (u v : value) (e : exn) :
  A !! a = Some u → A !! b = Some v → a ≠ b → (move v).1 = Throw e →
  assign_move a b (objects A) = (Throw e, <[a := empty_of v]> (objects (<[b := (move v).2]> A))).
Proof.
  intros Ha Hb Hab He. unfold assign_move. destruct (decide (a = b)); [done|].
  rewrite (assign_at A a b u v) by done. by rewrite fresh_move, He by done.
Qed.

(** C29. Objects of [either] act as values of a sum type. In a sequence of
    constructions, copies, moves, assignments (also of an object to itself),
    accesses, comparisons and destructions, in which objects are constructed
    where there is none, used only while they exist, and members throw only in
    the constructors of [either] (not in assignments, [make_left] or
    [make_right]), every operation returns or throws what the same operation
    does on values, and leaves objects that hold these values, with exactly
    the member of their side alive; no dead member is used and no live one is
    overwritten. When the copy or move of a member throws in an assignment
    after such a sequence, the exception is passed on, the object assigned to
    stays without a member, with the side of the source, and the others hold
    their values. *)
Theorem either_refines_sum (A : gmap nat value) (l : list op) :
  allowed_ops A l = true →
  let A' := (spec_ops l A).2 in
  run_ops l (objects A) = ((spec_ops l A).1, objects A') ∧
  ∀ a b u v e, A' !! a = Some u → A' !! b = Some v → a ≠ b →
    (copy v = Throw e → run_op (AssignCopy a b) (objects A') = (Throw e, <[a := empty_of v]> (objects A'))) ∧
    ((move v).1 = Throw e →
     run_op (AssignMove a b) (objects A') = (Throw e, <[a := empty_of v]> (objects (<[b := (move v).2]> A')))).
Proof.
  intros Hl A'. split; [by apply run_ops_refine|]. intros a b u v e Ha Hb Hab. split; intros He.
  - exact (then_done _ _ _ _ (assign_copy_throws A' a b u v e Ha Hb Hab He)).
  - exact (then_done _ _ _ _ (assign_move_throws A' a b u v e Ha Hb Hab He)).
Qed.

(** *** Where a member that throws leaves a dead member behind *)

(** An assignment destroys the old member before it copies the new one: when
    the copy throws, the object stays without a member, and its destructor
    destroys a member that is not alive. *)
Theorem throwing_assignment_breaks_object (A : gmap nat value) (a b : nat) (u v : value) (e : exn) :
  A !! a = Some u → A !! b = Some v → a ≠ b → copy v = Throw e →
  ∃ h, assign_copy a b (objects A) = (Throw e, h) ∧ destructor a h = (Throw UndefinedBehaviour, h).
Proof.
  intros Ha Hb Hab He. exists (<[a := empty_of v]> (objects A)). split; [by eapply assign_copy_throws|].
  unfold destructor, _destruct, object, mbind, M_bind, get_state. rewrite lookup_insert_eq. by destruct v.
Qed.
(** [make_left] has a complete object when it constructs the member: when
    that throws, the destructor of the object destroys a member that was
    never there. *)
Theorem throwing_make_left_undefined (A : gmap nat value) (a : nat) (e : exn) :
  A !! a = None → (make_left a (Throw e) (objects A)).1 = Throw UndefinedBehaviour.
Proof.
  intros Ha%objects_none. unfold make_left, either_side, unwinding, mbind, M_bind, get_state, put, modify. rewrite Ha. simpl.
  rewrite (construct_left_at a left_side) by apply lookup_insert_eq.
  unfold destructor, _destruct, object, mbind, M_bind, get_state. by rewrite lookup_insert_eq.
Qed.
End either.
End Either.

(** ** An example: the left member is a number that cannot be copied when it
       is zero, the right one a string that is empty after a move *)
Module EitherExample.
Import Either.
Definition copyZ (x : Z) : result Z := if decide (x = 0%Z) then Throw BadAlloc else Ok x.
Definition moveS (y : string) : result string * string := (Ok y, ""%string).
Definition ops : list (op (Left := Z) (Right := string)) :=
  [NewLeft 0 (Ok 0%Z); NewRight 1 (Ok "abc"%string); NewCopy 2 0; NewMove 2 1; AssignCopy 0 2; AssignCopy 0 0;
   GetLeft 0; GetRight 0; RightOpt 1; Equal 0 2; Destroy 2; Destroy 1; Destroy 0].
Lemma either_refines_sum_witness :
  run_ops copyZ Ok (λ x, (Ok x, x)) moveS Z.eqb String.eqb ops (inj <$> (∅ : gmap nat (Z + string))) =
  ([Ok Done; Ok Done; Throw BadAlloc; Ok Done; Ok Done; Ok Done;
    Throw (LogicError "Tried to get left side of an either which is right."); Ok (VRight "abc"); Ok (VOptRight (Some ""%string));
    Ok (VBool true); Ok Done; Ok Done; Ok Done], ∅).
Proof.
  destruct (either_refines_sum copyZ Ok (λ x, (Ok x, x)) moveS Z.eqb String.eqb ∅ ops) as [H _]; [vm_compute; reflexivity|].
  etransitivity; [exact H|]. vm_compute. reflexivity.
Defined.
End EitherExample.
