(* ===== verification/Threads.v ===== *)
(** * Counting threads

    The models of concurrent code keep for each thread where it is, in a
    finite map. [tally P m] is the number of threads that satisfy [P]; the
    lemmas say how it changes when one thread takes a step. *)
From S2P Require Import Prelude.
From Stdlib Require Import Lia.

Section tally.
Context {A : Type} (P : A → bool).
Implicit Types (m : gmap nat A) (t : nat) (p : A).

Definition tally m : nat := size (filter (λ tp : nat * A, P tp.2 = true) m).

Lemma tally_insert m t p p' :
  m !! t = Some p → (tally (<[t := p']> m) + Nat.b2n (P p) = tally m + Nat.b2n (P p'))%nat.
Proof.
  intros Ht. unfold tally.
  rewrite <-(insert_delete_id m t p Ht) at 2. rewrite <-insert_delete_eq.
  assert (Hn : filter (λ tp, P tp.2 = true) (delete t m) !! t = None).
  { apply map_lookup_filter_None. left. apply lookup_delete_eq. }
  assert (Hc : ∀ q, size (filter (λ tp, P tp.2 = true) (<[t := q]> (delete t m))) =
    (size (filter (λ tp, P tp.2 = true) (delete t m)) + Nat.b2n (P q))%nat).
  { intros q. rewrite map_filter_insert. simpl. destruct (P q) eqn:Hq; simpl.
    - rewrite map_size_insert_None by done. lia.
    - rewrite delete_delete_eq. lia. }
  rewrite !Hc. lia.
Qed.
Lemma tally_le m : (tally m ≤ size m)%nat.
Proof. unfold tally. apply map_subseteq_size, map_filter_subseteq. Qed.
Lemma tally_zero m t p : tally m = 0%nat → m !! t = Some p → P p = false.
Proof.
  intros E Ht. destruct (P p) eqn:Hp; [|done]. unfold tally in E. apply map_size_empty_inv in E.
  assert (Hf : filter (λ tp, P tp.2 = true) m !! t = Some p) by by apply map_lookup_filter_Some.
  by rewrite E in Hf.
Qed.
Lemma tally_pos m : tally m ≠ 0%nat → ∃ t p, m !! t = Some p ∧ P p = true.
Proof.
  intros H. destruct (map_choose (filter (λ tp, P tp.2 = true) m)) as (t & p & Hf).
  - intros E. apply H. unfold tally. by rewrite E.
  - apply map_lookup_filter_Some in Hf as [Ht Hp]. eauto.
Qed.
Lemma tally_none m : (∀ t p, m !! t = Some p → P p = false) → tally m = 0%nat.
Proof.
  intros H. destruct (decide (tally m = 0%nat)) as [|Hne]; [done|].
  apply tally_pos in Hne as (t & p & Ht & Hp). apply H in Ht. congruence.
Qed.
End tally.
(** Waking threads up does not change a count that does not see the change. *)
Lemma tally_fmap {A} (P : A → bool) (f : A → A) (m : gmap nat A) : (∀ p, P (f p) = P p) → tally P (f <$> m) = tally P m.
Proof.
  intros Hf. unfold tally. rewrite map_filter_fmap, map_size_fmap. f_equal.
  apply map_filter_strong_ext. intros t p. simpl. by rewrite Hf.
Qed.

(** ** Who holds a mutex

    [h p]: a thread at [p] holds the mutex; [m] is its holder. *)
Section held.
Context {A : Type} (h : A → bool).
Implicit Types (T : gmap nat A) (m : option nat) (t : nat) (p : A).

Definition held m T : Prop :=
  (∀ t p, T !! t = Some p → (h p = true ↔ m = Some t)) ∧ (∀ t, m = Some t → is_Some (T !! t)).

Lemma held_holder m T t : held m T → m = Some t → ∃ p, T !! t = Some p ∧ h p = true.
Proof. intros [H1 H2] Hm. destruct (H2 t Hm) as [p Hp]. exists p. split; [done|]. by apply (H1 t p). Qed.
Lemma held_same m T t p p' : held m T → T !! t = Some p → h p' = h p → held m (<[t := p']> T).
Proof.
  intros [H1 H2] Ht E. split; intros u; [intros q|]; rewrite lookup_insert; case_decide as Hu; subst.
  - intros [= <-]. rewrite E. by apply H1.
  - apply H1.
  - by eexists.
  - apply H2.
Qed.
Lemma held_acquire T t p p' : held None T → T !! t = Some p → h p' = true → held (Some t) (<[t := p']> T).
Proof.
  intros [H1 H2] Ht E. split; intros u; [intros q|]; rewrite lookup_insert; case_decide as Hu; subst.
  - by intros [= <-].
  - intros Hq%H1. rewrite Hq. naive_solver.
  - by eexists.
  - intros [= ->]. done.
Qed.
Lemma held_release m T t p p' : held m T → T !! t = Some p → h p = true → h p' = false → held None (<[t := p']> T).
Proof.
  intros [H1 H2] Ht E E'. split; [|done]. intros u q. rewrite lookup_insert. case_decide as Hu.
  - intros [= <-]. by rewrite E'.
  - intros Hq%H1. apply (H1 t p Ht) in E. rewrite Hq, E. naive_solver.
Qed.
Lemma held_fmap m T (f : A → A) : (∀ p, h (f p) = h p) → held m T → held m (f <$> T).
Proof.
  intros Hf [H1 H2]. split; intros t; [intros p|]; rewrite lookup_fmap.
  - intros (q & Hq & ->)%fmap_Some. rewrite Hf. by apply H1.
  - intros [p Hp]%H2. rewrite Hp. by eexists.
Qed.
Lemma held_none T : (∀ t p, T !! t = Some p → h p = false) → held None T.
Proof. intros H. split; [|done]. intros t p Ht. by rewrite (H t p Ht). Qed.
End held.
