(* ===== verification/LeftRight.v ===== *)
(** * Wait-free reading (cpp-utils/thread/LeftRight.h)

    [LeftRight] keeps two copies of a value. Readers announce themselves in
    one of two counters and read the foreground copy without waiting; a
    writer changes the background copy, exchanges the copies, waits until no
    reader can be left on the old one and changes that too.

    Threads are interleaved at the loads and stores of the atomic members.
    Running a user function on a copy takes from one step to the next, so
    that two threads that use the same copy at once can be seen. An index is
    a truth value, [index ^ 1] is its negation. *)
From S2P Require Import Prelude Threads.
From Stdlib Require Import Lia ZArith.
Open Scope Z_scope.

Module LeftRight.
Section left_right.
Context {T : Type}.

(** A function that is called on a copy returns the new value or throws. It
    is called twice, [false] is the first time: an object with a state of its
    own may throw only the second time, but what it does to the copy when it
    returns must be the same. *)
Definition writer := bool → T → option T.
Definition consistent (f : writer) : Prop := ∀ x y z, f false x = Some y → f true x = Some z → z = y.

(** Where a thread is; the arguments are its local variables. *)
Inductive pc :=
| Idle
(** [read] *)
| ReadStart
| ReadIncrement (counter : bool)
| ReadCheck (counter : bool)
| ReadLoadData (counter : bool)
| Reading (counter data : bool)
| ReadDecrement (counter : bool)
(** [write] and [_write] *)
| WriteLock (f : writer)
| WriteCheck (f : writer)
| WriteLoadData (f : writer)
| WritingFirst (f : writer) (localDataIndex : bool)
| WriteSwitchData (f : writer) (localDataIndex : bool)
| WriteLoadCounter (f : writer) (localDataIndex : bool)
| WriteWaitFirst (f : writer) (localDataIndex localCounterIndex : bool)
| WriteSwitchCounter (f : writer) (localDataIndex localCounterIndex : bool)
| WriteWaitSecond (f : writer) (localDataIndex localCounterIndex : bool)
| WritingSecond (f : writer) (localDataIndex : bool)
| WriteUnlock
(** the destructor *)
| DestructFlag
| DestructLock
| DestructUnlock
| DestructWaitFirst
| DestructWaitSecond
| Destructed.

Record state := mk {
  _writeMutex : option nat;
  _foregroundCounterIndex : bool;
  _foregroundDataIndex : bool;
  _counters : bool → Z;
  _data : bool → T;
  _inDestruction : bool;
  threads : gmap nat pc }.

Definition at_index {A} (i : bool) (x : A) (f : bool → A) : bool → A := λ j, if decide (j = i) then x else f j.
Definition goto (t : nat) (p : pc) (s : state) : state :=
  mk (_writeMutex s) (_foregroundCounterIndex s) (_foregroundDataIndex s) (_counters s) (_data s) (_inDestruction s) (<[t := p]> (threads s)).
Definition set_mutex (m : option nat) (s : state) : state :=
  mk m (_foregroundCounterIndex s) (_foregroundDataIndex s) (_counters s) (_data s) (_inDestruction s) (threads s).
Definition set_foregroundCounterIndex (c : bool) (s : state) : state :=
  mk (_writeMutex s) c (_foregroundDataIndex s) (_counters s) (_data s) (_inDestruction s) (threads s).
Definition set_foregroundDataIndex (d : bool) (s : state) : state :=
  mk (_writeMutex s) (_foregroundCounterIndex s) d (_counters s) (_data s) (_inDestruction s) (threads s).
Definition set_counter (c : bool) (n : Z) (s : state) : state :=
  mk (_writeMutex s) (_foregroundCounterIndex s) (_foregroundDataIndex s) (at_index c n (_counters s)) (_data s) (_inDestruction s) (threads s).
Definition set_data (d : bool) (x : T) (s : state) : state :=
  mk (_writeMutex s) (_foregroundCounterIndex s) (_foregroundDataIndex s) (_counters s) (at_index d x (_data s)) (_inDestruction s) (threads s).
Definition set_inDestruction (s : state) : state :=
  mk (_writeMutex s) (_foregroundCounterIndex s) (_foregroundDataIndex s) (_counters s) (_data s) true (threads s).

(** [IncrementRAII]: the constructor and the destructor. *)
Definition increment (c : bool) (s : state) : state := set_counter c (i32 (_counters s c + 1)) s.
Definition decrement (c : bool) (s : state) : state := set_counter c (i32 (_counters s c - 1)) s.

(** [_callWriteFuncOnBackgroundInstance]: the copy after the call, and
    whether it threw; then the copy is the foreground again. *)
Definition _callWriteFuncOnBackgroundInstance (f : T → option T) (localDataIndex : bool) (s : state) : bool * state :=
  match f (_data s (negb localDataIndex)) with
  | Some x => (true, set_data (negb localDataIndex) x s)
  | None => (false, set_data (negb localDataIndex) (_data s localDataIndex) s)
  end.
Definition _waitForBackgroundCounterToBeZero (counterIndex : bool) (s : state) : bool :=
  bool_decide (_counters s (negb counterIndex) = 0).

(** What a thread does next; [None] when it waits for a mutex or has nothing
    to do. A loop that waits for a counter goes on with its loop. *)
Definition run (t : nat) (s : state) : option state :=
  p ← threads s !! t ;
  match p with
  | Idle | Destructed => None
  | ReadStart => Some (goto t (ReadIncrement (_foregroundCounterIndex s)) s)
  | ReadIncrement c => Some (goto t (ReadCheck c) (increment c s))
  | ReadCheck c => Some (goto t (if _inDestruction s then ReadDecrement c else ReadLoadData c) s)
  | ReadLoadData c => Some (goto t (Reading c (_foregroundDataIndex s)) s)
  | Reading c d => Some (goto t (ReadDecrement c) s)
  | ReadDecrement c => Some (goto t Idle (decrement c s))
  | WriteLock f =>
      match _writeMutex s with Some _ => None | None => Some (goto t (WriteCheck f) (set_mutex (Some t) s)) end
  | WriteCheck f => Some (goto t (if _inDestruction s then WriteUnlock else WriteLoadData f) s)
  | WriteLoadData f => Some (goto t (WritingFirst f (_foregroundDataIndex s)) s)
  | WritingFirst f d =>
      let '(ok, s') := _callWriteFuncOnBackgroundInstance (f false) d s in
      Some (goto t (if (ok : bool) then WriteSwitchData f d else WriteUnlock) s')
  | WriteSwitchData f d => Some (goto t (WriteLoadCounter f (negb d)) (set_foregroundDataIndex (negb d) s))
  | WriteLoadCounter f d => Some (goto t (WriteWaitFirst f d (_foregroundCounterIndex s)) s)
  | WriteWaitFirst f d c =>
      Some (goto t (if _waitForBackgroundCounterToBeZero c s then WriteSwitchCounter f d c else WriteWaitFirst f d c) s)
  | WriteSwitchCounter f d c => Some (goto t (WriteWaitSecond f d (negb c)) (set_foregroundCounterIndex (negb c) s))
  | WriteWaitSecond f d c =>
      Some (goto t (if _waitForBackgroundCounterToBeZero c s then WritingSecond f d else WriteWaitSecond f d c) s)
  | WritingSecond f d => let '(_, s') := _callWriteFuncOnBackgroundInstance (f true) d s in Some (goto t WriteUnlock s')
  | WriteUnlock => Some (goto t Idle (set_mutex None s))
  | DestructFlag => Some (goto t DestructLock (set_inDestruction s))
  | DestructLock =>
      match _writeMutex s with Some _ => None | None => Some (goto t DestructUnlock (set_mutex (Some t) s)) end
  | DestructUnlock => Some (goto t DestructWaitFirst (set_mutex None s))
  | DestructWaitFirst => Some (goto t (if bool_decide (_counters s false = 0) then DestructWaitSecond else DestructWaitFirst) s)
  | DestructWaitSecond => Some (goto t (if bool_decide (_counters s true = 0) then Destructed else DestructWaitFirst) s)
  end.

(** A thread that is idle calls [read], [write] or the destructor. *)
Definition entry (p : pc) : Prop :=
  match p with ReadStart | DestructFlag => True | WriteLock f => consistent f | _ => False end.
Inductive step : state → state → Prop :=
| step_run t s s' : run t s = Some s' → step s s'
| step_call t p s : threads s !! t = Some Idle → entry p → step s (goto t p s).

(** [n] threads that do nothing, the two copies are the default value. *)
Definition initial (default : T) (n : nat) : state :=
  mk None false false (λ _, 0) (λ _, default) false (gset_to_gmap Idle (set_seq 0 n)).
Definition reachable (default : T) (n : nat) : state → Prop := rtc step (initial default n).

(** ** What the invariant speaks about *)

(** The value that a new reader gets. *)
Definition value (s : state) : T := _data s (_foregroundDataIndex s).

(** The counter a reader has incremented and not yet decremented. *)
Definition registered (p : pc) : option bool :=
  match p with ReadCheck c | ReadLoadData c | Reading c _ | ReadDecrement c => Some c | _ => None end.
(** The writer, or the destructor, has the mutex. *)
Definition holds (p : pc) : bool :=
  match p with
  | WriteCheck _ | WriteLoadData _ | WritingFirst _ _ | WriteSwitchData _ _ | WriteLoadCounter _ _ | WriteWaitFirst _ _ _
  | WriteSwitchCounter _ _ _ | WriteWaitSecond _ _ _ | WritingSecond _ _ | WriteUnlock | DestructUnlock => true
  | _ => false
  end.
Definition func (p : pc) : option writer :=
  match p with
  | WriteLock f | WriteCheck f | WriteLoadData f | WritingFirst f _ | WriteSwitchData f _ | WriteLoadCounter f _
  | WriteWaitFirst f _ _ | WriteSwitchCounter f _ _ | WriteWaitSecond f _ _ | WritingSecond f _ => Some f
  | _ => None
  end.
Definition reads (s : state) (c d : bool) : Prop := ∃ t, threads s !! t = Some (Reading c d).

(** No writer is changing anything: the copies are the same and all readers
    are on the foreground. *)
Definition quiet (s : state) : Prop :=
  _data s false = _data s true ∧ ∀ c, ¬ reads s c (negb (_foregroundDataIndex s)).
(** The new value is in the foreground, the background has the old one. *)
Definition switched (f : writer) (d : bool) (s : state) : Prop :=
  d = _foregroundDataIndex s ∧ f false (_data s (negb d)) = Some (_data s d).
Definition phase (p : pc) (s : state) : Prop :=
  match p with
  | WritingFirst _ d => d = _foregroundDataIndex s ∧ quiet s
  | WriteSwitchData f d =>
      d = _foregroundDataIndex s ∧ f false (_data s d) = Some (_data s (negb d)) ∧ ∀ c, ¬ reads s c (negb d)
  | WriteLoadCounter f d => switched f d s
  | WriteWaitFirst f d c => switched f d s ∧ c = _foregroundCounterIndex s
  | WriteSwitchCounter f d c => switched f d s ∧ c = _foregroundCounterIndex s ∧ ¬ reads s (negb c) (negb d)
  | WriteWaitSecond f d c => switched f d s ∧ c = _foregroundCounterIndex s ∧ ¬ reads s c (negb d)
  | WritingSecond f d => switched f d s ∧ ∀ c, ¬ reads s c (negb d)
  | _ => quiet s
  end.

Definition count (c : bool) : gmap nat pc → nat := tally (λ p, bool_decide (registered p = Some c)).
Definition counted (s : state) : Prop := ∀ c, _counters s c = Z.of_nat (count c (threads s)).
Definition locked (s : state) : Prop :=
  ∀ t p, threads s !! t = Some p → (holds p = true ↔ _writeMutex s = Some t).
Definition phased (s : state) : Prop :=
  match _writeMutex s with
  | Some t => ∃ p, threads s !! t = Some p ∧ phase p s
  | None => quiet s
  end.
Definition funcs_ok (s : state) : Prop := ∀ t p f, threads s !! t = Some p → func p = Some f → consistent f.
Record inv (n : nat) (s : state) : Prop := {
  inv_size : size (threads s) = n;
  inv_counted : counted s;
  inv_locked : locked s;
  inv_phased : phased s;
  inv_funcs : funcs_ok s }.

(** ** Counting *)
Lemma registered_insert c m t p p' :
  m !! t = Some p →
  (count c (<[t := p']> m) + Nat.b2n (bool_decide (registered p = Some c)) =
   count c m + Nat.b2n (bool_decide (registered p' = Some c)))%nat.
Proof. apply (tally_insert (λ p, bool_decide (registered p = Some c))). Qed.
Lemma registered_le c m : (count c m ≤ size m)%nat.
Proof. apply tally_le. Qed.
Lemma count_zero c s : _counters s c = 0 → counted s → ∀ t p, threads s !! t = Some p → registered p ≠ Some c.
Proof.
  intros H0 Hc t p Ht. specialize (Hc c). rewrite H0 in Hc.
  assert (Hz : count c (threads s) = 0%nat) by lia. by apply (tally_zero _ _ _ _ Hz), bool_decide_eq_false in Ht.
Qed.
Lemma count_nonzero c s : _counters s c ≠ 0 → counted s → ∃ t p, threads s !! t = Some p ∧ registered p = Some c.
Proof.
  intros H0 Hc. specialize (Hc c). assert (Hz : count c (threads s) ≠ 0%nat) by lia.
  apply tally_pos in Hz as (t & p & Ht & Hp). apply bool_decide_eq_true in Hp. eauto.
Qed.

(** ** Every step keeps the invariant *)
Ltac run_cases H Ht :=
  let p := fresh "p" in
  unfold run in H;
  match type of H with (threads ?s !! ?t ≫= _) = _ => destruct (threads s !! t) as [p|] eqn:Ht; [simpl in H|done] end;
  destruct p; simplify_eq/=;
  unfold _callWriteFuncOnBackgroundInstance in *;
  repeat (case_match; simplify_eq/=).

Lemma run_counted n t s s' :
  Z.of_nat n < 2 ^ 31 → size (threads s) = n → counted s → run t s = Some s' → counted s'.
Proof.
  intros Hn Hsz Hc Hr c'. pose proof (Hc c') as Hf. pose proof (registered_le c' (threads s)).
  run_cases Hr Ht.
  all: match goal with |- context [<[?u := ?q]> ?m] => pose proof (registered_insert c' m u _ q Ht) as Hi;
    pose proof (registered_le c' (<[u := q]> m)) as Hle; rewrite map_size_insert_Some in Hle by by eexists end.
  all: simpl in *; unfold at_index.
  all: repeat case_bool_decide; repeat case_decide; simplify_eq/=; rewrite ?i32_small by lia; lia.
Qed.

(** What a step does to the mutex and to the copies: a thread without the
    mutex changes neither the copies nor the indices, and starts to read only
    on the foreground. *)
Definition same_data (s s' : state) : Prop :=
  _data s' = _data s ∧ _foregroundDataIndex s' = _foregroundDataIndex s ∧ _foregroundCounterIndex s' = _foregroundCounterIndex s.
Definition reads_foreground (p' : pc) (s : state) : Prop := ∀ c d, p' = Reading c d → d = _foregroundDataIndex s.
Inductive effect (t : nat) (p p' : pc) (s s' : state) : Prop :=
| effect_outside : holds p = false → holds p' = false → _writeMutex s' = _writeMutex s → same_data s s' → reads_foreground p' s → effect t p p' s s'
| effect_acquire : holds p = false → holds p' = true → _writeMutex s = None → _writeMutex s' = Some t → same_data s s' →
    (phase p' s' ↔ quiet s') → effect t p p' s s'
| effect_inside : holds p = true → holds p' = true → _writeMutex s' = _writeMutex s → run t s = Some s' → effect t p p' s s'
| effect_release : holds p = true → holds p' = false → (∀ c d, p' ≠ Reading c d) → _writeMutex s' = None → same_data s s' → (phase p s → quiet s) → effect t p p' s s'.
Lemma run_effect t s s' :
  run t s = Some s' → ∃ p p', threads s !! t = Some p ∧ threads s' = <[t := p']> (threads s) ∧
    (∀ f, func p' = Some f → func p = Some f) ∧ effect t p p' s s'.
Proof.
  intros Hr. pose proof Hr as Hr'. run_cases Hr Ht.
  all: eexists _, _; split_and!; [reflexivity|reflexivity|done|].
  all: first [by apply effect_inside; first [done|apply Hr'] | by (apply effect_outside; [done..|intros ???; simplify_eq])
    | by apply effect_acquire | by apply effect_release].
Qed.
Lemma step_inv s s' :
  step s s' → ∃ t p p', threads s !! t = Some p ∧ threads s' = <[t := p']> (threads s) ∧
    (∀ f, func p' = Some f → func p = Some f ∨ consistent f) ∧ effect t p p' s s'.
Proof.
  intros [t ? ? Hr|t p ? Ht He].
  - destruct (run_effect t _ _ Hr) as (p & p' & ? & ? & ? & ?). exists t, p, p'. naive_solver.
  - exists t, Idle, p. split_and!; [done..| |].
    + intros f Hf. destruct p; naive_solver.
    + apply effect_outside; [done| |done..|intros ???; simplify_eq; done]. by destruct p.
Qed.

Lemma step_locked s s' : locked s → step s s' → locked s'.
Proof.
  intros Hl (t & p & p' & Ht & E & _ & He)%step_inv u q. rewrite E, lookup_insert. pose proof (Hl _ _ Ht) as Hlt.
  case_decide as Hu; intros Hq; [|specialize (Hl _ _ Hq)]; destruct He; simplify_eq;
    rewrite ?Hl, ?Hlt in *; naive_solver congruence.
Qed.
Lemma step_funcs s s' : funcs_ok s → step s s' → funcs_ok s'.
Proof.
  intros Hl (t & p & p' & Ht & E & Hf & _)%step_inv u q f. rewrite E, lookup_insert.
  case_decide; [|by apply Hl]. intros ? Hq; simplify_eq. destruct (Hf f Hq); [|done]. by eapply Hl.
Qed.
Lemma step_size s s' : step s s' → size (threads s') = size (threads s).
Proof. intros (t & p & p' & Ht & E & _)%step_inv. rewrite E. apply map_size_insert_Some. by eexists. Qed.
Lemma step_counted n s s' : Z.of_nat n < 2 ^ 31 → size (threads s) = n → counted s → step s s' → counted s'.
Proof.
  intros Hn Hsz Hc Hs. destruct Hs as [t s s' Hr|t p s Ht He]; [by apply (run_counted n t s)|]. intros c. simpl. rewrite (Hc c).
  pose proof (registered_insert c _ t _ p Ht) as Hi. assert (Hp : registered p = None) by by destruct p. rewrite Hp in Hi. simpl in Hi. lia.
Qed.

(** *** The phases of the writer *)

(** The readers of the background can only become fewer. *)
Definition undisturbed (s s' : state) : Prop :=
  same_data s s' ∧ ∀ c, reads s' c (negb (_foregroundDataIndex s)) → reads s c (negb (_foregroundDataIndex s)).
Lemma quiet_undisturbed s s' : undisturbed s s' → quiet s → quiet s'.
Proof. intros [(Ed & Ef & _) Hr] [Hq Hn]. split; [by rewrite Ed|]. intros c Hc. rewrite Ef in Hc. by eapply Hn, Hr. Qed.
Lemma switched_undisturbed f d s s' : undisturbed s s' → switched f d s → switched f d s'.
Proof. intros [(Ed & Ef & _) _] [-> Hs]. split; [done|]. by rewrite Ed. Qed.
Lemma phase_undisturbed p s s' : undisturbed s s' → phase p s → phase p s'.
Proof.
  intros Hu. pose proof Hu as [(Ed & Ef & Ec) Hr]. pose proof (quiet_undisturbed _ _ Hu) as Hq.
  destruct p; simpl; rewrite ?Ec, ?Ef, ?Ed; try done; try naive_solver.
  all: intros Hp; try (assert (Hsw : switched f localDataIndex s') by (eapply switched_undisturbed; naive_solver)).
  all: try naive_solver.
  all: destruct Hp as ([-> ?] & ?); naive_solver.
Qed.
Lemma undisturbed_insert t p' s s' :
  same_data s s' → threads s' = <[t := p']> (threads s) → reads_foreground p' s → undisturbed s s'.
Proof.
  intros Hd E Hp. split; [done|]. intros c [u Hu]. rewrite E, lookup_insert in Hu. case_decide; [|by exists u].
  simplify_eq. specialize (Hp c _ eq_refl). by destruct (_foregroundDataIndex s).
Qed.

Lemma at_index_eq {A} i (x : A) f : at_index i x f i = x.
Proof. unfold at_index. by rewrite decide_True. Qed.
Lemma at_index_ne {A} i j (x : A) f : j ≠ i → at_index i x f j = f j.
Proof. intros. unfold at_index. by rewrite decide_False. Qed.
Lemma at_index_copy {A} i j (f : bool → A) : at_index (negb i) (f i) f j = f i.
Proof. unfold at_index. case_decide; [done|]. f_equal. by destruct i, j. Qed.

(** The steps of the thread that has the mutex. *)
Lemma reads_goto c d t p p' s s' :
  threads s !! t = Some p → threads s' = <[t := p']> (threads s) → holds p' = true → reads s' c d → reads s c d.
Proof. intros _ E Hh [u Hu]. rewrite E, lookup_insert in Hu. case_decide; simplify_eq/=. by exists u. Qed.
Lemma no_reader s c d : counted s → _counters s c = 0 → ¬ reads s c d.
Proof. intros Hc H0 [t Ht]. by eapply count_zero in Ht. Qed.
Lemma run_inside t s s' p p' :
  counted s → funcs_ok s → threads s !! t = Some p → run t s = Some s' → threads s' !! t = Some p' →
  holds p = true → holds p' = true → phase p s → phase p' s'.
Proof.
  intros Hc Hf Ht Hr Ht' Hp Hp' Hph.
  assert (Hrd : ∀ c d, reads s' c d → reads s c d).
  { destruct (run_effect t s s' Hr) as (q & q' & Hq & E & _). rewrite E, lookup_insert_eq in Ht'. simplify_eq.
    intros c d. by eapply reads_goto. }
  pose proof (Hf t p) as Hcons. run_cases Hr Hq; rewrite lookup_insert_eq in Ht'; simplify_eq/=.
  all: unfold quiet, switched, _waitForBackgroundCounterToBeZero in *; simpl in *.
  all: try match goal with H : bool_decide _ = true |- _ => apply bool_decide_eq_true in H end.
  all: try by naive_solver.
  - destruct Hph as (-> & Hd & Hn). rewrite at_index_eq, at_index_ne by by destruct (_foregroundDataIndex s).
    split_and!; [done| |naive_solver]. rewrite <-H0. f_equal. by destruct (_foregroundDataIndex s).
  - destruct Hph as (-> & Hd & Hn). rewrite !at_index_copy. split; [|naive_solver]. done.
  - rewrite negb_involutive. naive_solver.
  - split_and!; [naive_solver..|]. intros Hx%Hrd. by eapply no_reader.
  - split; [naive_solver|]. intros c Hx%Hrd. destruct Hph as (_ & _ & Hn).
    destruct (decide (c = localCounterIndex)) as [->|Hne]; [done|].
    replace c with (negb localCounterIndex) in Hx by by destruct c, localCounterIndex. by eapply no_reader.
  - destruct Hph as ([-> Hd] & Hn). assert (t0 = _data s (_foregroundDataIndex s)) as -> by (eapply Hcons; eauto).
    rewrite !at_index_copy. split; [done|naive_solver].
  - destruct Hph as ([-> Hd] & Hn). rewrite !at_index_copy. split; [done|naive_solver].
Qed.

Lemma step_phased n s s' : inv n s → step s s' → phased s'.
Proof.
  intros [_ Hc Hl Hp Hf] Hs. pose proof Hs as (t & p & p' & Ht & E & _ & He)%step_inv. unfold phased in *.
  destruct He as [Hh Hh' Em Hd Hrf|Hh Hh' Em Em' Hd Hph|Hh Hh' Em Hr|Hh Hh' Hnr Em Hd Hph].
  - rewrite Em. assert (Hu : undisturbed s s') by by eapply undisturbed_insert.
    destruct (_writeMutex s) as [u|] eqn:Eu; [|by eapply quiet_undisturbed].
    destruct Hp as (q & Hq & Hpq). exists q. split; [|by eapply phase_undisturbed].
    rewrite E, lookup_insert_ne; [done|]. intros <-. pose proof (proj2 (Hl _ _ Ht) Eu). congruence.
  - rewrite Em'. rewrite Em in Hp. exists p'. rewrite E, lookup_insert_eq. split; [done|].
    apply Hph. eapply quiet_undisturbed, Hp. eapply undisturbed_insert; [done..|]. intros c d ->. done.
  - assert (Et : _writeMutex s = Some t) by by apply (Hl t p). rewrite Em, Et in *.
    exists p'. rewrite E, lookup_insert_eq. split; [done|]. destruct Hp as (q & Hq & Hpq). simplify_eq.
    eapply run_inside; eauto. by rewrite E, lookup_insert_eq.
  - assert (Et : _writeMutex s = Some t) by by apply (Hl t p). rewrite Em, Et in *.
    destruct Hp as (q & Hq & Hpq). simplify_eq. eapply quiet_undisturbed, Hph, Hpq.
    eapply undisturbed_insert; [done..|]. intros c d Hrd. by destruct (Hnr c d).
Qed.

Lemma left_right_step_inv n s s' : Z.of_nat n < 2 ^ 31 → inv n s → step s s' → inv n s'.
Proof.
  intros Hn Hi Hs. pose proof (step_phased n s s' Hi Hs). destruct Hi as [Hz Hc Hl Hp Hf]. split; [| | |done|].
  - by rewrite (step_size s s' Hs).
  - by eapply step_counted.
  - by eapply step_locked.
  - by eapply step_funcs.
Qed.
Lemma initial_thread default n t p : threads (initial default n) !! t = Some p → p = Idle.
Proof. simpl. rewrite lookup_gset_to_gmap. intros H. by repeat (case_guard || simplify_eq/=). Qed.
Lemma initial_inv default n : inv n (initial default n).
Proof.
  split.
  - simpl. rewrite <-(size_dom (D := gset nat)), dom_gset_to_gmap. apply size_set_seq.
  - intros c. simpl. unfold count. rewrite tally_none; [done|]. by intros t p ->%(initial_thread default).
  - intros t p ->%initial_thread. done.
  - split; [done|]. by intros c [t Ht%initial_thread].
  - by intros t p f ->%initial_thread.
Qed.
Lemma reachable_inv default n s : Z.of_nat n < 2 ^ 31 → reachable default n s → inv n s.
Proof.
  intros Hn Hr. unfold reachable in Hr. pose proof (initial_inv default n) as Hi.
  induction Hr as [|s1 s2 s3 Hs _ IH]; [done|]. by eapply IH, left_right_step_inv.
Qed.

(** ** An atomic value

    What the object is to its users: a value that is changed in one step, and
    for every reader the value that it looks at. A call of [read] takes the
    value in one step, a call of [write] whose function does not throw the
    first time applies it in one step. *)
Definition spec_state : Type := T * gmap nat T.
Inductive event := Silent | Begin (t : nat) | End (t : nat) | Write (f : T → option T).
Inductive spec_step : event → spec_state → spec_state → Prop :=
| spec_silent v m : spec_step Silent (v, m) (v, m)
| spec_begin t v m : m !! t = None → spec_step (Begin t) (v, m) (v, <[t := v]> m)
| spec_end t x v m : m !! t = Some x → spec_step (End t) (v, m) (v, delete t m)
| spec_write f v v' m : f v = Some v' → spec_step (Write f) (v, m) (v', m).
Definition looks_at (s : state) (p : pc) : option T :=
  match p with Reading _ d => Some (_data s d) | _ => None end.
Definition abs (s : state) : spec_state := (value s, omap (looks_at s) (threads s)).
Definition event_of (t : nat) (p : pc) : event :=
  match p with
  | ReadLoadData _ => Begin t
  | Reading _ _ => End t
  | WriteSwitchData f _ => Write (f false)
  | _ => Silent
  end.

Lemma background_write n t p s s' :
  inv n s → threads s !! t = Some p → holds p = true → run t s = Some s' →
  (∀ c d, reads s c d → _data s' d = _data s d) ∧
  match p with WriteSwitchData f _ => f false (value s) = Some (value s') | _ => value s' = value s end.
Proof.
  intros [_ _ Hl Hp _] Ht Hh Hr. unfold phased in Hp. rewrite (proj1 (Hl _ _ Ht) Hh) in Hp.
  destruct Hp as (q & Hq & Hph). simplify_eq. unfold value.
  run_cases Hr Ht'; unfold quiet, switched in *; simplify_eq/=; try (by split).
  3: { by destruct Hph as (-> & Hf & Hn). }
  all: destruct_and?; subst; split; [intros c d Hr|]; apply at_index_ne; [|by destruct (_foregroundDataIndex s)].
  all: intros ->; naive_solver.
Qed.

(** A reader that goes on reading, and what the others look at. *)
Lemma looks_at_same t p p' s s' :
  threads s !! t = Some p → threads s' = <[t := p']> (threads s) →
  (∀ c d, reads s c d → _data s' d = _data s d) →
  omap (looks_at s') (threads s') = match looks_at s' p' with
    | Some x => <[t := x]> (omap (looks_at s) (threads s)) | None => delete t (omap (looks_at s) (threads s)) end.
Proof.
  intros Ht E Hd. apply map_eq. intros u. rewrite lookup_omap, E.
  assert (Hu : ∀ q, threads s !! u = Some q → looks_at s' q = looks_at s q).
  { intros q Hq. destruct q; try done. simpl. f_equal. eapply Hd. by exists u. }
  destruct (decide (t = u)) as [<-|Hne].
  - rewrite lookup_insert_eq. simpl. destruct (looks_at s' p'); [by rewrite lookup_insert_eq|by rewrite lookup_delete_eq].
  - rewrite lookup_insert_ne by done. transitivity (threads s !! u ≫= looks_at s).
    { destruct (threads s !! u) as [q|] eqn:Eu; [|done]. by apply Hu. }
    destruct (looks_at s' p'); rewrite ?lookup_insert_ne, ?lookup_delete_ne by done; by rewrite lookup_omap.
Qed.
Lemma looks_none t p s : threads s !! t = Some p → looks_at s p = None → omap (looks_at s) (threads s) !! t = None.
Proof. intros Ht Hp. by rewrite lookup_omap, Ht. Qed.
Lemma looks_unchanged t p p' s s' :
  threads s !! t = Some p → threads s' = <[t := p']> (threads s) → looks_at s p = None → looks_at s' p' = None →
  (∀ c d, reads s c d → _data s' d = _data s d) → (abs s').2 = (abs s).2.
Proof.
  intros Ht E Hp Hp' Hd. simpl. rewrite (looks_at_same t p p' s s') by done. rewrite Hp'.
  apply delete_id. by eapply looks_none.
Qed.
Lemma same_data_value s s' : same_data s s' → value s' = value s.
Proof. intros (Ed & Ef & _). unfold value. by rewrite Ed, Ef. Qed.
Lemma run_spec n t p s s' :
  inv n s → threads s !! t = Some p → run t s = Some s' → spec_step (event_of t p) (abs s) (abs s').
Proof.
  intros Hi Ht Hr. destruct (run_effect t s s' Hr) as (q & p' & Hq & E & _ & He). simplify_eq.
  destruct (holds p) eqn:Hh.
  - destruct (background_write n t p s s' Hi Ht Hh Hr) as [Hd Hv].
    assert (E2 : (abs s').2 = (abs s).2).
    { eapply looks_unchanged; [done..|by destruct p| |done]. destruct He; destruct p'; congruence || done. }
    unfold abs in *. simpl in E2. rewrite E2.
    destruct p; try done; simpl; first [by constructor | rewrite Hv; constructor].
  - assert (Hsd : same_data s s') by (destruct He; congruence || done).
    assert (Hd : ∀ c d, reads s c d → _data s' d = _data s d) by by destruct Hsd as [-> _].
    assert (Hv : value s' = value s) by by apply same_data_value.
    unfold abs. rewrite Hv. rewrite (looks_at_same t p p' s s') by done.
    assert (Ht' : threads s' !! t = Some p') by by rewrite E, lookup_insert_eq.
    unfold run in Hr. rewrite Ht in Hr. simpl in Hr.
    destruct p; simplify_eq/=; repeat (case_match; simplify_eq/=); rewrite lookup_insert_eq in Ht'; simplify_eq/=.
    all: try (rewrite delete_id; [constructor|by eapply looks_none]).
    + apply spec_begin. by eapply looks_none.
    + eapply spec_end. by rewrite lookup_omap, Ht.
Qed.

(** ** The destructor *)

(** How far the destructor is, and what the other threads can still do. *)
Definition stage (p : pc) : nat :=
  match p with DestructLock => 1 | DestructUnlock | DestructWaitFirst => 2 | DestructWaitSecond => 3 | Destructed => 4 | _ => 0 end.
Definition working (p : pc) : bool :=
  match p with WriteCheck _ | WriteUnlock | DestructUnlock => false | _ => holds p end.
Definition inside (c : bool) (p : pc) : bool :=
  match p with ReadLoadData c' | Reading c' _ => Bool.eqb c c' | _ => false end.
Definition stopped (k : nat) (q : pc) : Prop :=
  (2 ≤ k → working q = false)%nat ∧ (3 ≤ k → inside false q = false)%nat ∧ (4 ≤ k → inside true q = false)%nat.
Definition stopping (s : state) : Prop :=
  ∀ t p, threads s !! t = Some p → (1 ≤ stage p)%nat →
    _inDestruction s = true ∧ ∀ u q, threads s !! u = Some q → stopped (stage p) q.

Lemma stopped_mono k k' q : (k ≤ k')%nat → stopped k' q → stopped k q.
Proof. unfold stopped. intros ? (?&?&?). split_and!; intros; auto with lia. Qed.
(** After the flag is set no thread starts to work. *)
Lemma run_stopped t s s' p p' k :
  threads s !! t = Some p → run t s = Some s' → threads s' !! t = Some p' →
  _inDestruction s = true → stopped k p → stopped k p'.
Proof.
  intros Ht Hr Ht' Hd Hk. unfold stopped in *.
  run_cases Hr Hq; rewrite lookup_insert_eq in Ht'; simplify_eq/=; naive_solver.
Qed.
Lemma stopped_early k q : (k ≤ 1)%nat → stopped k q.
Proof. unfold stopped. lia. Qed.
Lemma step_flag s s' : step s s' → _inDestruction s = true → _inDestruction s' = true.
Proof. intros [t ? ? Hr|]; [|done]. by run_cases Hr Ht. Qed.
Lemma run_stage n t s s' p p' :
  inv n s → stopping s → threads s !! t = Some p → run t s = Some s' → threads s' !! t = Some p' → (1 ≤ stage p')%nat →
  _inDestruction s' = true ∧ (∀ u q, threads s !! u = Some q → stopped (stage p') q).
Proof.
  intros [_ Hc Hl _ _] Hs Ht Hr Ht' H1. specialize (Hs _ _ Ht).
  run_cases Hr Hq; rewrite lookup_insert_eq in Ht'; simplify_eq/=; try lia.
  - split; [done|]. intros. by apply stopped_early.
  - destruct Hs as [Hd _]; [lia|]. split; [done|]. intros u q Hu. pose proof (Hl _ _ Hu) as Hlu.
    unfold stopped. split_and!; [|lia..]. intros _. destruct q; naive_solver.
  - destruct Hs as [Hd Hs]; [lia|]. done.
  - destruct Hs as [Hd Hs]; [lia|]. split; [done|]. intros u q Hu. apply bool_decide_eq_true in H.
    destruct (Hs u q Hu) as (Hw & _ & _). split_and!; [auto with lia| |lia]. intros _.
    pose proof (count_zero false s H Hc u q Hu). by destruct q as [| | | |[]|[]| | | | | | | | | | | | | | | | | |].
  - apply Hs. lia.
  - destruct Hs as [Hd Hs]; [lia|]. split; [done|]. intros u q Hu. apply bool_decide_eq_true in H.
    destruct (Hs u q Hu) as (Hw & Hf & _). split_and!; [auto with lia|auto with lia|]. intros _.
    pose proof (count_zero true s H Hc u q Hu). by destruct q as [| | | |[]|[]| | | | | | | | | | | | | | | | | |].
  - destruct Hs as [Hd Hs]; [lia|]. split; [done|]. intros u q Hu. eapply stopped_mono, Hs, Hu. lia.
Qed.
Lemma step_stopping n s s' : inv n s → stopping s → step s s' → stopping s'.
Proof.
  intros Hi Hs Hst. pose proof (step_flag s s' Hst) as Hfl.
  destruct Hst as [t s s' Hr|t p s Ht He].
  - destruct (run_effect t s s' Hr) as (p & p' & Ht & E & _ & _).
    assert (Ht' : threads s' !! t = Some p') by by rewrite E, lookup_insert_eq.
    assert (Hall : ∀ k, (∀ u q, threads s !! u = Some q → stopped k q) → (2 ≤ k → _inDestruction s = true)%nat →
      ∀ u q, threads s' !! u = Some q → stopped k q).
    { intros k Hk Hd u q. destruct (decide (k ≤ 1)%nat) as [?|?]; [intros; by apply stopped_early|].
      rewrite E, lookup_insert. case_decide as Eu; [|by apply Hk]. intros [= <-]. subst u.
      apply (run_stopped t s s' p p' k); [done..|apply Hd; lia|by apply (Hk t)]. }
    intros u q Hu H1. destruct (decide (u = t)) as [->|Hne].
    + rewrite Ht' in Hu. injection Hu as <-. destruct (run_stage n t s s' p p') as [Hd Hq]; [done..|]. split; [done|].
      apply Hall; [done|]. intros H2. run_cases Hr Hx; rewrite lookup_insert_eq in Ht'; simplify_eq/=; try lia;
        apply (Hs _ _ Hx); simpl; lia.
    + rewrite E, lookup_insert_ne in Hu by done. destruct (Hs u q Hu H1) as [Hd Hq]. split; [by apply Hfl|].
      by apply Hall.
  - intros u q. simpl. rewrite lookup_insert. case_decide; intros Hu H1; simplify_eq.
    + destruct q; simpl in *; first [lia|done].
    + destruct (Hs u q Hu H1) as [Hd Hq]. split; [done|]. intros v x. rewrite lookup_insert. case_decide; [|by apply Hq].
      intros [= <-]. by destruct p.
Qed.
Lemma reachable_stopping default n s : Z.of_nat n < 2 ^ 31 → reachable default n s → stopping s.
Proof.
  intros Hn Hr. cut (inv n s ∧ stopping s); [naive_solver|]. revert Hr. unfold reachable.
  generalize (initial_inv default n).
  assert (H0 : stopping (initial default n)) by (intros t p ->%initial_thread; simpl; lia). revert H0.
  generalize (initial default n) as s0. intros s0 H0 Hi Hr. induction Hr as [|s1 s2 s3 Hs _ IH]; [done|].
  apply IH; [by eapply step_stopping|by eapply left_right_step_inv].
Qed.

(** ** Waiting *)
Definition busy (p : pc) : bool := match p with Idle | Destructed => false | _ => true end.
Definition waits (p : pc) (s : state) : bool :=
  match p with
  | WriteLock _ | DestructLock => bool_decide (is_Some (_writeMutex s))
  | WriteWaitFirst _ _ c | WriteWaitSecond _ _ c => negb (_waitForBackgroundCounterToBeZero c s)
  | DestructWaitFirst => negb (bool_decide (_counters s false = 0))
  | DestructWaitSecond => negb (bool_decide (_counters s true = 0))
  | _ => false
  end.
(** The steps a reader has still to take. *)
Definition reader_steps (p : pc) : nat :=
  match p with
  | ReadStart => 6 | ReadIncrement _ => 5 | ReadCheck _ => 4 | ReadLoadData _ => 3 | Reading _ _ => 2 | ReadDecrement _ => 1
  | _ => 0
  end.
Definition someone_moves (s : state) : Prop :=
  ∃ u q, threads s !! u = Some q ∧ busy q = true ∧ waits q s = false ∧ is_Some (run u s).

Lemma awake_moves t p s : threads s !! t = Some p → busy p = true → waits p s = false → someone_moves s.
Proof.
  intros Ht Hb Hw. exists t, p. split_and!; [done..|]. unfold run. rewrite Ht. simpl.
  destruct p; simpl in *; try done; unfold _callWriteFuncOnBackgroundInstance; repeat case_match; try done;
    apply bool_decide_eq_false in Hw; naive_solver.
Qed.
Lemma reader_moves c s : counted s → _counters s c ≠ 0 → someone_moves s.
Proof.
  intros Hc H0. destruct (count_nonzero c s H0 Hc) as (t & p & Ht & Hp). by apply (awake_moves t p); destruct p.
Qed.
Lemma holder_moves t p s : counted s → threads s !! t = Some p → holds p = true → someone_moves s.
Proof.
  intros Hc Ht Hh. destruct (waits p s) eqn:Hw; [|by apply (awake_moves t p); destruct p].
  destruct p; simpl in *; try done; apply negb_true_iff, bool_decide_eq_false in Hw; by eapply reader_moves.
Qed.
Lemma busy_moves n t p s : inv n s → threads s !! t = Some p → busy p = true → someone_moves s.
Proof.
  intros [_ Hc Hl Hp _] Ht Hb. destruct (waits p s) eqn:Hw; [|by apply (awake_moves t p)].
  assert (Hm : is_Some (_writeMutex s) → someone_moves s).
  { intros [u Hu]. unfold phased in Hp. rewrite Hu in Hp. destruct Hp as (q & Hq & _).
    apply (holder_moves u q); [done..|]. by apply (Hl u q). }
  destruct p; simpl in *; try done.
  all: first [apply bool_decide_eq_true in Hw; by apply Hm
    | apply negb_true_iff, bool_decide_eq_false in Hw; by eapply reader_moves].
Qed.

(** ** The theorems *)

(** The copy that a thread reads or changes. *)
Definition uses (p : pc) (d : bool) : Prop := match p with Reading _ d' => d' = d | _ => False end.
Definition changes (p : pc) (d : bool) : Prop :=
  match p with WritingFirst _ d' | WritingSecond _ d' => d = negb d' | _ => False end.

Lemma changing_phase p d s : phase p s → changes p d → d = negb (_foregroundDataIndex s) ∧ ∀ c, ¬ reads s c d.
Proof. intros Hp Hc. destruct p; simpl in *; try done; subst; unfold quiet, switched in *; naive_solver. Qed.
Lemma changes_holds p d : changes p d → holds p = true.
Proof. by destruct p. Qed.

(** C23. The object refines an atomic value, for every interleaving of fewer than
    2^31 threads: a step of a thread that is about to load the index of the
    foreground copy takes the value for this reader, a step of a writer that
    is about to exchange the copies applies its function to the value, the
    end of a read gives back what the reader has taken, whatever was written
    meanwhile, and all the other steps change nothing. *)
Theorem left_right_atomic (default : T) (n : nat) (s : state) :
  Z.of_nat n < 2 ^ 31 → reachable default n s →
  (∀ t p s', threads s !! t = Some p → run t s = Some s' → spec_step (event_of t p) (abs s) (abs s')) ∧
  (∀ t p, threads s !! t = Some Idle → entry p → abs (goto t p s) = abs s).
Proof.
  intros Hn Hr. pose proof (reachable_inv default n s Hn Hr) as Hi. split.
  - intros t p s'. by apply (run_spec n).
  - intros t p Ht He. unfold abs. f_equal.
    apply (looks_unchanged t Idle p s (goto t p s)); [done..|by destruct p|done].
Qed.

(** C24. No copy is changed while another thread reads or changes it, and when the
    destructor has come to its end no thread reads or changes a copy or will
    do so, for every interleaving of fewer than 2^31 threads. *)
Theorem left_right_exclusive (default : T) (n : nat) (s : state) :
  Z.of_nat n < 2 ^ 31 → reachable default n s →
  (∀ t u p q d, threads s !! t = Some p → threads s !! u = Some q → changes p d → uses q d ∨ changes q d → t = u) ∧
  (∀ t u q d, threads s !! t = Some Destructed → threads s !! u = Some q → ¬ uses q d ∧ ¬ changes q d).
Proof.
  intros Hn Hr. pose proof (reachable_inv default n s Hn Hr) as [_ _ Hl Hp _]. split.
  - intros t u p q d Ht Hu Hc Hq. pose proof (proj1 (Hl _ _ Ht) (changes_holds p d Hc)) as Hm.
    unfold phased in Hp. rewrite Hm in Hp. destruct Hp as (p' & Ht' & Hph). simplify_eq.
    destruct Hq as [Hq|Hq%changes_holds].
    + destruct (changing_phase _ d s Hph Hc) as [_ Hno]. destruct q; simpl in *; try done. subst.
      exfalso. eapply Hno. by exists u.
    + apply (Hl u q Hu) in Hq. congruence.
  - intros t u q d Ht Hu. destruct (reachable_stopping default n s Hn Hr t Destructed Ht) as [_ Hs]; [simpl; lia|].
    destruct (Hs u q Hu) as (Hw & Hf & Hg). simpl in *.
    specialize (Hw ltac:(lia)). specialize (Hf ltac:(lia)). specialize (Hg ltac:(lia)).
    split; intros Hq; destruct q; simpl in *; try done. by destruct counter.
Qed.

(** Reading is wait-free: a thread in [read] always has a next step, and ends
    after at most six of its own steps. And no thread waits for ever because
    all do: when a thread is busy, some thread can take a step that is not a
    round of a waiting loop. *)
Theorem left_right_progress (default : T) (n : nat) (s : state) :
  Z.of_nat n < 2 ^ 31 → reachable default n s →
  (∀ t p, threads s !! t = Some p → (0 < reader_steps p)%nat →
     ∃ s' p', run t s = Some s' ∧ threads s' !! t = Some p' ∧ (reader_steps p' < reader_steps p)%nat) ∧
  (∀ t p, threads s !! t = Some p → busy p = true → someone_moves s).
Proof.
  intros Hn Hr. split.
  - intros t p Ht Hp. unfold run. rewrite Ht. simpl.
    destruct p; simpl in Hp; try lia; eexists _, _; (split; [reflexivity|]); simpl; rewrite lookup_insert_eq;
      (split; [reflexivity|]); try case_match; simpl; lia.
  - intros t p. by apply (busy_moves n), reachable_inv with default.
Qed.
End left_right.
End LeftRight.

(** ** An execution

    A writer adds one to 5 while a reader is on the old copy; the reader ends
    before the writer changes that copy; then the destructor runs. *)
Module LeftRightExample.
Import LeftRight.
Inductive call := CallRead | CallWrite (g : Z → option Z) | CallDestroy | Continue.
Definition begin (c : call) : option pc :=
  match c with
  | CallRead => Some ReadStart | CallWrite g => Some (WriteLock (λ _, g)) | CallDestroy => Some DestructFlag | Continue => None
  end.
Definition exec1 (tc : nat * call) (s : state) : option (state (T := Z)) :=
  match begin tc.2, threads s !! tc.1 with
  | Some p, Some Idle => Some (goto tc.1 p s)
  | Some _, _ => None
  | None, _ => run tc.1 s
  end.
Fixpoint exec (l : list (nat * call)) (s : state) : option state :=
  match l with [] => Some s | tc :: l => exec1 tc s ≫= exec l end.
Lemma exec_reaches l s s' : exec l s = Some s' → rtc step s s'.
Proof.
  revert s. induction l as [|[t c] l IH]; simpl; intros s Hs; [by simplify_eq|].
  apply bind_Some in Hs as (s1 & Hs1 & Hs). apply rtc_l with s1; [|by apply IH].
  unfold exec1 in Hs1. simpl in Hs1. destruct (begin c) as [p|] eqn:Hb; [|by apply step_run with t].
  repeat case_match; simplify_eq/=. apply step_call; [done|].
  destruct c; simplify_eq/=; try done. intros x y z ??. congruence.
Qed.
Definition steps (t k : nat) : list (nat * call) := replicate k (t, Continue).
Definition plus_one (x : Z) : option Z := Some (x + 1).
(** The reader, thread 1, has loaded the index; the writer, thread 0, waits. *)
Definition overlap : list (nat * call) := [(1%nat, CallRead)] ++ steps 1 4 ++ [(0%nat, CallWrite plus_one)] ++ steps 0 9.
Definition at_overlap : state := default (initial 5 3) (exec overlap (initial 5 3)).
Lemma at_overlap_reachable : reachable 5 3 at_overlap.
Proof. unfold at_overlap. destruct (exec overlap (initial 5 3)) as [s|] eqn:E; [by eapply exec_reaches|apply rtc_refl]. Qed.
(** The reader and the writer end, and thread 2 destroys the object. *)
Definition at_end : state := default (initial 5 3) (exec (steps 1 2 ++ steps 0 3 ++ [(2%nat, CallDestroy)] ++ steps 2 5) at_overlap).
Lemma at_end_reachable : reachable 5 3 at_end.
Proof.
  unfold at_end. destruct (exec _ at_overlap) as [s|] eqn:E; [|apply rtc_refl].
  unfold reachable. etransitivity; [apply at_overlap_reachable|by eapply exec_reaches].
Qed.
Example overlap_values :
  value at_overlap = 6 ∧ threads at_overlap !! 1%nat = Some (Reading false false) ∧ _data at_overlap false = 5 ∧
  threads at_overlap !! 0%nat = Some (WriteWaitSecond (λ _, plus_one) true true).
Proof. vm_compute. done. Qed.

(** The read that began before the write ends with the old value 5. *)
Lemma left_right_atomic_witness :
  ∃ s', run 1 at_overlap = Some s' ∧ spec_step (End 1) (abs at_overlap) (abs s') ∧
    abs at_overlap = (6, {[1%nat := 5]}) ∧ abs s' = (6, ∅).
Proof.
  eexists. split; [reflexivity|]. split; [|split; vm_compute; reflexivity].
  apply (proj1 (left_right_atomic 5 3 at_overlap ltac:(lia) at_overlap_reachable) 1%nat (Reading false false)); reflexivity.
Defined.
Lemma left_right_exclusive_witness :
  threads at_end !! 2%nat = Some Destructed ∧ ∀ u q d, threads at_end !! u = Some q → ¬ uses q d ∧ ¬ changes q d.
Proof.
  split; [vm_compute; reflexivity|]. intros u q d.
  apply (proj2 (left_right_exclusive 5 3 at_end ltac:(lia) at_end_reachable) 2%nat). vm_compute. reflexivity.
Defined.
(** The writer waits for the reader, who moves. *)
Lemma left_right_progress_witness :
  waits (WriteWaitSecond (λ _, plus_one) true true) at_overlap = true ∧ someone_moves at_overlap.
Proof.
  split; [vm_compute; reflexivity|].
  apply (proj2 (left_right_progress 5 3 at_overlap ltac:(lia) at_overlap_reachable) 0%nat (WriteWaitSecond (λ _, plus_one) true true));
    vm_compute; reflexivity.
Defined.
End LeftRightExample.
