(* ===== verification/LockPool.v ===== *)
(** * Locks by name (cpp-utils/lock)

    [LockPool] keeps the names that are locked in a vector, under a mutex of
    its own. A [MutexPoolLock] locks a name in its constructor and releases it
    in [unlock] or in its destructor; [guards] are the live objects of this
    class, with the thread that has them. A caller may pass a mutex of its
    own, the outer one, which is given up while the pool waits
    ([CombinedLock]: the outer mutex is always taken first). Taking a mutex is
    a step, what is done under the mutex of the pool is another.

    Clients are arbitrary: a thread outside of the pool takes and gives up the
    outer mutex, locks any name with or without passing the outer mutex,
    releases any name it has, or moves a guard to another thread, in any order
    ([may] says what the assertions ask of it). The clients in Cache.h, which
    follow a narrower protocol, are [cache_client]. *)
From S2P Require Import Prelude Threads.
From Stdlib Require Import Lia ZArith.

Module LockPool.
Section lock_pool.
Context {LockName : Type} `{!EqDecision LockName}.

(** Where a thread is; [outer] says that the call was given the outer mutex. *)
Inductive pc :=
(** in the code of the client *)
| Idle
(** the client takes its own mutex *)
| TakeOuter
(** woken up in [CombinedLock::lock]: waits for the outer mutex *)
| Relock (lockName : LockName)
(** [lock] waits for the mutex of the pool, then runs [_lock]. *)
| TakeMutex (outer : bool) (lockName : LockName)
| InLock (outer : bool) (lockName : LockName)
(** asleep on the condition variable *)
| Asleep (outer : bool) (lockName : LockName)
(** [release] *)
| TakeMutexRelease (lockName : LockName)
| InRelease (lockName : LockName)
(** an assertion has failed *)
| Failed.

Record state := mk {
  _lockedLocks : list LockName;
  _mutex : option nat;
  outer_mutex : option nat;
  guards : list (LockName * nat);
  threads : gmap nat pc }.
Definition goto (t : nat) (p : pc) (s : state) : state :=
  mk (_lockedLocks s) (_mutex s) (outer_mutex s) (guards s) (<[t := p]> (threads s)).
Definition set_mutex (m : option nat) (s : state) : state :=
  mk (_lockedLocks s) m (outer_mutex s) (guards s) (threads s).
Definition set_outer (m : option nat) (s : state) : state :=
  mk (_lockedLocks s) (_mutex s) m (guards s) (threads s).
Definition set_lockedLocks (l : list LockName) (s : state) : state :=
  mk l (_mutex s) (outer_mutex s) (guards s) (threads s).
Definition set_guards (g : list (LockName * nat)) (s : state) : state :=
  mk (_lockedLocks s) (_mutex s) (outer_mutex s) g (threads s).

Definition _isLocked (lockName : LockName) (s : state) : bool := bool_decide (lockName ∈ _lockedLocks s).
(** [_lockedLocks.erase(found)] with the iterator of [std::find]. *)
Fixpoint erase_first (lockName : LockName) (l : list LockName) : option (list LockName) :=
  match l with
  | [] => None
  | x :: l => if decide (x = lockName) then Some l else cons x <$> erase_first lockName l
  end.

(** Waking up: the combined lock takes the outer mutex again first. *)
Definition wake (p : pc) : pc :=
  match p with Asleep true n => Relock n | Asleep false n => TakeMutex false n | p => p end.
Definition notify_all (s : state) : state :=
  mk (_lockedLocks s) (_mutex s) (outer_mutex s) (guards s) (wake <$> threads s).

(** [CombinedLock::unlock] or the unlocking of the one mutex, before the
    thread sleeps. *)
Definition unlock (outer : bool) (s : state) : state :=
  let s' := set_mutex None s in if outer then set_outer None s' else s'.
(** [lockToFreeWhileWaiting->owns_lock()], for the call without one [true]. *)
Definition owns_outer (t : nat) (outer : bool) (s : state) : bool :=
  if outer then bool_decide (outer_mutex s = Some t) else true.
(** [_lock], the assertion of [lock] that the mutexes are locked again, and
    the release of the mutex of the pool at the end of [lock]; the
    constructor of the guard ends with it. *)
Definition _lock (t : nat) (outer : bool) (lockName : LockName) (s : state) : state :=
  if _isLocked lockName s then goto t (Asleep outer lockName) (unlock outer s)
  else
    let s := set_lockedLocks (_lockedLocks s ++ [lockName]) s in
    if bool_decide (_mutex s = Some t) && owns_outer t outer s
    then goto t Idle (set_mutex None (set_guards (guards s ++ [(lockName, t)]) s))
    else goto t Failed (set_mutex None s).
Definition release (t : nat) (lockName : LockName) (s : state) : state :=
  match erase_first lockName (_lockedLocks s) with
  | Some l =>
      let s := set_guards (filter (λ g, g.1 ≠ lockName) (guards s)) (set_lockedLocks l s) in
      goto t Idle (set_mutex None (notify_all s))
  | None => goto t Failed (set_mutex None s)
  end.

(** What a thread does next inside of the pool, or when it waits for the
    outer mutex; [None] when it sleeps, waits for a mutex that is taken, or is
    in the code of the client. *)
Definition run (t : nat) (s : state) : option state :=
  p ← threads s !! t ;
  match p with
  | Idle | Asleep _ _ | Failed => None
  | TakeOuter => match outer_mutex s with None => Some (goto t Idle (set_outer (Some t) s)) | Some _ => None end
  | Relock n => match outer_mutex s with None => Some (goto t (TakeMutex true n) (set_outer (Some t) s)) | Some _ => None end
  | TakeMutex o n => match _mutex s with None => Some (goto t (InLock o n) (set_mutex (Some t) s)) | Some _ => None end
  | InLock o n => Some (_lock t o n s)
  | TakeMutexRelease n => match _mutex s with None => Some (goto t (InRelease n) (set_mutex (Some t) s)) | Some _ => None end
  | InRelease n => Some (release t n s)
  end.

(** ** Clients *)
Inductive request :=
| LockOuter
| UnlockOuter
| Lock (outer : bool) (lockName : LockName)
| Unlock (lockName : LockName)
| Move (lockName : LockName) (to : nat).
Definition move_guard (n : LockName) (u : nat) (g : LockName * nat) : LockName * nat :=
  if decide (g.1 = n) then (n, u) else g.
(** The entry of [lock] checks the mutex it is given. *)
Definition call (t : nat) (r : request) (s : state) : state :=
  match r with
  | LockOuter => goto t TakeOuter s
  | UnlockOuter => set_outer None s
  | Lock o n => if owns_outer t o s then goto t (TakeMutex o n) s else goto t Failed s
  | Unlock n => goto t (TakeMutexRelease n) s
  | Move n u => set_guards (move_guard n u <$> guards s) s
  end.
(** A mutex is not taken twice and only given up or passed by its owner; a
    guard is released or moved by the thread that has it. *)
Definition may (t : nat) (r : request) (s : state) : Prop :=
  match r with
  | LockOuter => outer_mutex s ≠ Some t
  | UnlockOuter => outer_mutex s = Some t
  | Lock o n => o = true → outer_mutex s = Some t
  | Unlock n | Move n _ => (n, t) ∈ guards s
  end.
(** The protocol of Cache.h. [pop] takes the mutex of the cache, locks the
    key with it and releases the key before the mutex; [_deleteEntry] locks
    the key under the mutex without passing it, gives the mutex up, releases
    the key and takes the mutex again. A thread takes the mutex or locks a key
    only when it has no key. *)
Definition cache_client (t : nat) (r : request) (s : state) : Prop :=
  may t r s ∧
  match r with
  | LockOuter => ∀ n, (n, t) ∉ guards s
  | Lock _ _ => outer_mutex s = Some t ∧ ∀ n, (n, t) ∉ guards s
  | UnlockOuter | Unlock _ => True
  | Move _ _ => False
  end.

(** A thread runs, a client that follows [C] calls, a sleeping thread wakes
    up for no reason. *)
Inductive step (C : nat → request → state → Prop) : state → state → Prop :=
| step_run t s s' : run t s = Some s' → step C s s'
| step_call t r s : threads s !! t = Some Idle → C t r s → step C s (call t r s)
| step_spurious t p s : threads s !! t = Some p → step C s (goto t (wake p) s).
Definition initial (n : nat) : state := mk [] None None [] (gset_to_gmap Idle (set_seq 0 n)).
Definition reachable (C : nat → request → state → Prop) (n : nat) : state → Prop := rtc (step C) (initial n).
(** The assertion of the destructor of the pool. *)
Definition destruct_ok (s : state) : bool := bool_decide (length (_lockedLocks s) = 0%nat).

(** ** The invariant *)
Definition has_mutex (p : pc) : bool := match p with InLock _ _ | InRelease _ => true | _ => false end.
(** What holds of thread [t] at [p]: who passed the outer mutex owns it, who
    waits for it does not, who releases a name has its guard, who sleeps
    sleeps for a name that is locked; no assertion has failed. *)
Definition fine (s : state) (t : nat) (p : pc) : Prop :=
  match p with
  | Idle => True
  | TakeOuter | Relock _ => outer_mutex s ≠ Some t
  | TakeMutex o _ | InLock o _ => o = true → outer_mutex s = Some t
  | Asleep o n => n ∈ _lockedLocks s ∧ (o = true → outer_mutex s ≠ Some t)
  | TakeMutexRelease n | InRelease n => (n, t) ∈ guards s
  | Failed => False
  end.
Record inv (s : state) : Prop := {
  inv_guards : (guards s).*1 = _lockedLocks s;
  inv_nodup : NoDup (_lockedLocks s);
  inv_mutex : held has_mutex (_mutex s) (threads s);
  inv_outer t : outer_mutex s = Some t → is_Some (threads s !! t);
  inv_fine t p : threads s !! t = Some p → fine s t p }.

Lemma guard_owner n t u s : inv s → (n, t) ∈ guards s → (n, u) ∈ guards s → t = u.
Proof.
  intros [Hg Hd _ _ _] (i & Hi)%list_elem_of_lookup (j & Hj)%list_elem_of_lookup.
  rewrite <- Hg in Hd. assert (i = j) as ->; [|congruence].
  apply (proj1 (NoDup_alt _) Hd i j n); rewrite list_lookup_fmap; [by rewrite Hi|by rewrite Hj].
Qed.
Lemma guard_locked n t s : inv s → (n, t) ∈ guards s → n ∈ _lockedLocks s.
Proof. intros Hi Hn. rewrite <- (inv_guards s Hi). apply list_elem_of_fmap. by exists (n, t). Qed.
Lemma locked_guard n s : inv s → n ∈ _lockedLocks s → ∃ t, (n, t) ∈ guards s.
Proof. intros Hi. rewrite <- (inv_guards s Hi). intros ([n' t] & -> & Ht)%list_elem_of_fmap. eauto. Qed.

Lemma filter_absent n (l : list LockName) : n ∉ l → filter (λ x, x ≠ n) l = l.
Proof.
  induction l as [|y l IH]; [done|]. rewrite not_elem_of_cons, filter_cons. intros [Hy Hn].
  rewrite decide_True by done. by rewrite IH.
Qed.
Lemma erase_first_filter n l : NoDup l → n ∈ l → erase_first n l = Some (filter (λ x, x ≠ n) l).
Proof.
  induction l as [|y l IH]; intros Hd Hn; [by apply not_elem_of_nil in Hn|].
  apply NoDup_cons in Hd as [Hy Hd]. simpl. rewrite filter_cons. case_decide as Hyn.
  - subst. rewrite decide_False by naive_solver. f_equal. by rewrite filter_absent.
  - rewrite decide_True by done. apply elem_of_cons in Hn as [?|Hn]; [congruence|]. by rewrite IH.
Qed.
Lemma filter_fst n (g : list (LockName * nat)) : (filter (λ g, g.1 ≠ n) g).*1 = filter (λ x, x ≠ n) g.*1.
Proof. induction g as [|[x t] g IH]; [done|]. rewrite filter_cons. csimpl. rewrite filter_cons. simpl. case_decide; csimpl; by rewrite IH. Qed.

(** *** Every step keeps the invariant *)
(** Thread [t] moves and the shared parts change in a way that keeps what
    holds of the others. *)
Lemma inv_move t p p' s s' :
  inv s → threads s !! t = Some p → threads s' = <[t := p']> (threads s) →
  (guards s').*1 = _lockedLocks s' → NoDup (_lockedLocks s') →
  held has_mutex (_mutex s') (threads s') →
  (∀ u, outer_mutex s' = Some u → u = t ∨ outer_mutex s = Some u) →
  fine s' t p' → (∀ u q, u ≠ t → threads s !! u = Some q → fine s u q → fine s' u q) → inv s'.
Proof.
  intros Hi Ht E Hg Hd Hm Ho Hf Hu. split; [done..| |].
  - intros u Hou. rewrite E, lookup_insert. case_decide; [by eexists|].
    destruct (Ho u Hou) as [->|?]; [done|]. by apply (inv_outer s Hi).
  - intros u q. rewrite E, lookup_insert. case_decide as Hut; [subst; by intros [= <-]|].
    intros Hq. apply Hu; [done..|]. by apply (inv_fine s Hi).
Qed.
Lemma goto_inv t p p' s :
  inv s → threads s !! t = Some p → has_mutex p' = has_mutex p → fine s t p' → inv (goto t p' s).
Proof.
  intros Hi Ht E Hf. eapply inv_move; [done|exact Ht|done|apply Hi|apply Hi|by eapply held_same; [apply Hi|..]|by auto|done|].
  by intros u q _ _ Hq; destruct q.
Qed.
Lemma take_mutex_inv t p p' s :
  inv s → threads s !! t = Some p → _mutex s = None → has_mutex p' = true → fine s t p' →
  inv (goto t p' (set_mutex (Some t) s)).
Proof.
  intros Hi Ht E E' Hf. eapply (inv_move t p p' s); [done|done|done|apply Hi|apply Hi| |by auto|by destruct p'|].
  - simpl. eapply held_acquire; [|done..]. rewrite <- E. apply Hi.
  - by intros u q _ _ Hq; destruct q.
Qed.
Lemma take_outer_inv t p p' s :
  inv s → threads s !! t = Some p → outer_mutex s = None → has_mutex p' = has_mutex p →
  fine (set_outer (Some t) s) t p' → inv (goto t p' (set_outer (Some t) s)).
Proof.
  intros Hi Ht E E' Hf. eapply (inv_move t p p' s);
    [done|done|done|apply Hi|apply Hi|by eapply held_same; [apply Hi|..]|simpl; naive_solver|by destruct p'|].
  intros u q Hut _ Hq. destruct q; simpl in *; rewrite ?E in *; naive_solver.
Qed.
Lemma drop_outer_fine t u q s s' :
  u ≠ t → outer_mutex s = Some t → outer_mutex s' = None → guards s' = guards s → _lockedLocks s' = _lockedLocks s →
  fine s u q → fine s' u q.
Proof. intros Hut Ho Ho' Hg Hl. destruct q; simpl; rewrite ?Hg, ?Hl, ?Ho, ?Ho'; naive_solver. Qed.
Lemma lock_inv t o n s : inv s → threads s !! t = Some (InLock o n) → inv (_lock t o n s).
Proof.
  intros Hi Ht. pose proof (inv_fine s Hi t _ Ht) as Hf. simpl in Hf. unfold _lock, _isLocked.
  case_bool_decide as Hn.
  - assert (Hm : held has_mutex None (<[t := Asleep o n]> (threads s))) by (eapply held_release; [apply Hi|done..]).
    destruct o; (eapply inv_move; [done|exact Ht|done|apply Hi|apply Hi|exact Hm|simpl; by auto|simpl; naive_solver|]).
    + intros u q Hut _. apply drop_outer_fine with t; auto.
    + by intros u q _ _ Hq; destruct q.
  - assert (E : _mutex s = Some t) by by apply (proj1 (inv_mutex s Hi) t _ Ht). simpl. rewrite bool_decide_true by done.
    assert (Ho : owns_outer t o (set_lockedLocks (_lockedLocks s ++ [n]) s) = true)
      by (destruct o; [by apply bool_decide_true, Hf|done]). rewrite Ho. simpl.
    eapply inv_move; [done|exact Ht|done| | |by eapply held_release; [apply Hi|..]|by auto|done|].
    + simpl. by rewrite fmap_app, (inv_guards s Hi).
    + simpl. apply NoDup_app. split_and!; [apply Hi| |apply NoDup_singleton].
      intros x Hx. rewrite list_elem_of_singleton. by intros ->.
    + intros u q _ _. destruct q; simpl; rewrite ?elem_of_app; naive_solver.
Qed.
Lemma wake_fine s s' u q :
  outer_mutex s' = outer_mutex s → (∀ n, (n, u) ∈ guards s → (n, u) ∈ guards s') →
  fine s u q → fine s' u (wake q).
Proof.
  intros Ho Hg. destruct q as [| |n|o n|o n|[] n|n|n|]; simpl in *; rewrite ?Ho; naive_solver.
Qed.
Lemma has_mutex_wake p : has_mutex (wake p) = has_mutex p.
Proof. by destruct p as [| | | | |[]| | |]. Qed.
Lemma release_inv t n s : inv s → threads s !! t = Some (InRelease n) → inv (release t n s).
Proof.
  intros Hi Ht. pose proof (inv_fine s Hi t _ Ht) as Hf. simpl in Hf. unfold release.
  rewrite erase_first_filter by (by try apply Hi; eapply guard_locked).
  assert (Ht' : (wake <$> threads s) !! t = Some (InRelease n)) by by rewrite lookup_fmap, Ht.
  split; simpl.
  - by rewrite filter_fst, (inv_guards s Hi).
  - by apply NoDup_filter, Hi.
  - eapply held_release; [|done..]. apply held_fmap; [apply has_mutex_wake|apply Hi].
  - intros u Hu%(inv_outer s Hi). rewrite lookup_insert. case_decide; [by eexists|]. by rewrite lookup_fmap, fmap_is_Some.
  - intros u q. rewrite lookup_insert. case_decide as Hut; [by intros [= <-]|]. rewrite lookup_fmap.
    intros (q' & Hq & ->)%fmap_Some. apply (wake_fine s); [done| |by apply Hi].
    intros m Hm. simpl. apply list_elem_of_filter. split; [|done]. simpl. intros ->.
    by apply Hut, (guard_owner n t u s).
Qed.
Lemma run_inv t s s' : inv s → run t s = Some s' → inv s'.
Proof.
  intros Hi Hr. unfold run in Hr. destruct (threads s !! t) as [p|] eqn:Ht; [|done]. simpl in Hr.
  pose proof (inv_fine s Hi t p Ht) as Hf.
  destruct p as [| |n|o n|o n|o n|n|n|]; try done.
  - destruct (outer_mutex s) eqn:E; simplify_eq. by eapply take_outer_inv.
  - destruct (outer_mutex s) eqn:E; simplify_eq. by eapply take_outer_inv.
  - destruct (_mutex s) eqn:E; simplify_eq. by eapply take_mutex_inv.
  - simplify_eq. by apply lock_inv.
  - destruct (_mutex s) eqn:E; simplify_eq. by eapply take_mutex_inv.
  - simplify_eq. by apply release_inv.
Qed.
Lemma move_guard_fst n u (g : list (LockName * nat)) : (move_guard n u <$> g).*1 = g.*1.
Proof. induction g as [|[x v] g IH]; [done|]. csimpl. rewrite IH. f_equal. unfold move_guard. simpl. by case_decide. Qed.
Lemma lock_call_inv t r s : inv s → threads s !! t = Some Idle → may t r s → inv (call t r s).
Proof.
  intros Hi Ht. destruct r as [| |o n|n|n u]; simpl; intros Hm.
  - by eapply goto_inv.
  - eapply (inv_move t Idle Idle s); [done|done|simpl; by rewrite insert_id|apply Hi|apply Hi|apply Hi|done|done|].
    intros u q Hut _. apply drop_outer_fine with t; auto.
  - assert (owns_outer t o s = true) as -> by (destruct o; [by apply bool_decide_true, Hm|done]). by eapply goto_inv.
  - by eapply goto_inv.
  - eapply (inv_move t Idle Idle s); [done|done|simpl; by rewrite insert_id| |apply Hi|apply Hi|by auto|done|].
    + simpl. rewrite move_guard_fst. apply Hi.
    + assert (Hk : ∀ v m, v ≠ t → (m, v) ∈ guards s → (m, v) ∈ move_guard n u <$> guards s).
      { intros v m Hvt Hv. apply list_elem_of_fmap. exists (m, v). split; [|done]. unfold move_guard. simpl.
        rewrite decide_False; [done|]. intros ->. by apply Hvt, (guard_owner n v t s). }
      intros v q Hvt _. destruct q; simpl; auto.
Qed.
Lemma initial_idle n t p : threads (initial n) !! t = Some p → p = Idle.
Proof. simpl. rewrite lookup_gset_to_gmap. intros H. by repeat (case_guard || simplify_eq/=). Qed.
Lemma lock_initial_inv n : inv (initial n).
Proof.
  split; [done|apply NoDup_nil; done| |done|by intros t p ->%initial_idle].
  apply held_none. by intros t p ->%initial_idle.
Qed.
Lemma spurious_inv t p s : inv s → threads s !! t = Some p → inv (goto t (wake p) s).
Proof.
  intros Hi Ht. eapply goto_inv; [done..|by rewrite has_mutex_wake|].
  apply (wake_fine s); [done|by auto|by apply Hi].
Qed.
Lemma lock_step_inv (C : nat → request → state → Prop) s s' :
  (∀ t r s, C t r s → may t r s) → inv s → step C s s' → inv s'.
Proof.
  intros HC Hi Hs. destruct Hs as [t s s' Hr|t r s Ht Hc|t p s Ht].
  - by apply (run_inv t s).
  - apply lock_call_inv; auto.
  - by apply spurious_inv.
Qed.
Lemma pool_inv C n s : (∀ t r s, C t r s → may t r s) → reachable C n s → inv s.
Proof.
  intros HC. unfold reachable. pose proof (lock_initial_inv n) as Hi. revert Hi. generalize (initial n). intros s0 Hi Hr.
  induction Hr as [|s1 s2 s3 Hs _ IH]; [done|]. eapply IH, lock_step_inv; eauto.
Qed.

(** ** The clients of the cache *)
(** A thread that has a key is in its own code or releases the key. *)
Definition at_rest (p : pc) : Prop := match p with Idle | TakeMutexRelease _ | InRelease _ => True | _ => False end.
Definition keys_released (s : state) : Prop :=
  ∀ n t, (n, t) ∈ guards s → ∃ p, threads s !! t = Some p ∧ at_rest p.
Lemma keys_goto t p p' s :
  keys_released s → threads s !! t = Some p → (at_rest p → at_rest p') → keys_released (goto t p' s).
Proof.
  intros Hk Ht Hp n u Hu. destruct (Hk n u Hu) as (q & Hq & Hr). simpl. rewrite lookup_insert.
  case_decide; [|by eauto]. subst. exists p'. split; [done|]. apply Hp. congruence.
Qed.
Lemma keys_run t s s' : inv s → keys_released s → run t s = Some s' → keys_released s'.
Proof.
  intros Hi Hk Hr. unfold run in Hr. destruct (threads s !! t) as [p|] eqn:Ht; [|done]. simpl in Hr.
  destruct p as [| |n|o n|o n|o n|n|n|]; try done.
  - destruct (outer_mutex s); simplify_eq. by apply (keys_goto t TakeOuter _ (set_outer (Some t) s)).
  - destruct (outer_mutex s); simplify_eq. by apply (keys_goto t (Relock n) _ (set_outer (Some t) s)).
  - destruct (_mutex s); simplify_eq. by apply (keys_goto t (TakeMutex o n) _ (set_mutex (Some t) s)).
  - simplify_eq. unfold _lock. case_match.
    + by apply (keys_goto t (InLock o n) _ (unlock o s)); destruct o.
    + case_match; [|by apply (keys_goto t (InLock o n))].
      intros m u. simpl. rewrite elem_of_app, list_elem_of_singleton, lookup_insert.
      intros [Hm|[= -> ->]]; [|exists Idle; by rewrite decide_True].
      destruct (decide (t = u)); [by exists Idle|by apply (Hk m)].
  - destruct (_mutex s); simplify_eq. by apply (keys_goto t (TakeMutexRelease n) _ (set_mutex (Some t) s)).
  - simplify_eq. unfold release. case_match; [|intros m u Hu; simpl; rewrite lookup_insert; case_decide].
    + intros m u. simpl. rewrite list_elem_of_filter, lookup_insert. intros [_ Hu].
      case_decide; [by exists Idle|]. destruct (Hk m u Hu) as (q & Hq & Hr). exists q.
      rewrite lookup_fmap, Hq. by destruct q.
    + pose proof (inv_fine s Hi t _ Ht) as Hf. simpl in Hf.
      rewrite erase_first_filter in *; [done|apply Hi|by eapply guard_locked].
    + by apply (Hk m).
Qed.
Lemma cache_keys n s : reachable cache_client n s → inv s ∧ keys_released s.
Proof.
  unfold reachable. intros Hr.
  assert (H0 : inv (initial n) ∧ keys_released (initial n)).
  { split; [apply lock_initial_inv|]. by intros m u Hu%not_elem_of_nil. }
  revert H0 Hr. generalize (initial n). intros s0 H0 Hr.
  induction Hr as [|s1 s2 s3 Hs _ IH]; [done|]. apply IH. clear IH. destruct H0 as [Hi Hk].
  split; [eapply lock_step_inv; [|done..]; by intros t r s [? _]|].
  destruct Hs as [t s s' Hr|t r s Ht Hc|t p s Ht].
  - by eapply keys_run.
  - destruct Hc as [Hm Hc]. destruct r as [| |o m|m|]; simpl in *; try done.
    + intros x u Hu. destruct (Hk x u Hu) as (q & Hq & Hr). exists q. simpl. split; [|done].
      rewrite lookup_insert_ne; [done|]. intros ->. by apply (Hc x).
    + destruct Hc as [_ Hc]. case_match; intros x u Hu; destruct (Hk x u Hu) as (q & Hq & Hr); exists q; simpl;
        (split; [|done]); rewrite lookup_insert_ne; try done; intros ->; by apply (Hc x).
    + by apply (keys_goto t Idle).
  - eapply keys_goto; [done..|]. by destruct p.
Qed.

(** [can_go s u]: thread [u] can take a step inside of the pool, or it is in
    the code of its client with a name or the outer mutex and will give it
    up. *)
Definition can_go (s : state) (u : nat) : Prop :=
  is_Some (run u s) ∨ (threads s !! u = Some Idle ∧ (outer_mutex s = Some u ∨ ∃ n, (n, u) ∈ guards s)).
Definition busy (p : pc) : bool := match p with Idle | Failed => false | _ => true end.
Lemma mutex_moves s t p :
  inv s → threads s !! t = Some p → (_mutex s = None → is_Some (run t s)) → ∃ u, can_go s u.
Proof.
  intros Hi Ht Hrun. destruct (_mutex s) as [u|] eqn:E; [|exists t; left; by apply Hrun].
  destruct (held_holder _ _ _ _ (inv_mutex s Hi) E) as (q & Hq & Hh). exists u. left. unfold run. rewrite Hq. by destruct q.
Qed.
Lemma key_moves s n t : inv s → keys_released s → (n, t) ∈ guards s → ∃ u, can_go s u.
Proof.
  intros Hi Hk Hn. destruct (Hk n t Hn) as (p & Hp & Hr). destruct p; try done.
  - exists t. right. eauto.
  - eapply mutex_moves; [done|exact Hp|]. intros E. unfold run. by rewrite Hp; simpl; rewrite E.
  - exists t. left. unfold run. by rewrite Hp.
Qed.
Definition waits_outer (p : pc) : bool := match p with TakeOuter | Relock _ => true | _ => false end.
Lemma inside_moves s t p :
  inv s → keys_released s → threads s !! t = Some p → busy p = true → waits_outer p = false → ∃ u, can_go s u.
Proof.
  intros Hi Hk Ht Hb Hp. pose proof (inv_fine s Hi t p Ht) as Hf. destruct p as [| |n|o n|o n|o n|n|n|]; try done.
  - eapply mutex_moves; [done|exact Ht|]. intros E. unfold run. by rewrite Ht; simpl; rewrite E.
  - exists t. left. unfold run. by rewrite Ht.
  - destruct Hf as [Hn _]. apply locked_guard in Hn as [u Hu]; [|done]. by eapply key_moves.
  - by eapply key_moves.
  - by eapply key_moves.
Qed.
Lemma cache_moves s t p :
  inv s → keys_released s → threads s !! t = Some p → busy p = true → ∃ u, can_go s u.
Proof.
  intros Hi Hk Ht Hb. destruct (waits_outer p) eqn:Hw; [|by eapply inside_moves].
  destruct (outer_mutex s) as [u|] eqn:E.
  - destruct (inv_outer s Hi u E) as [q Hq]. pose proof (inv_fine s Hi u q Hq) as Hf.
    destruct (busy q) eqn:Hbq; [|exists u; right; destruct q; try done; by auto].
    eapply inside_moves; [done..|]. by destruct q.
  - exists t. left. unfold run. rewrite Ht. destruct p; try done; simpl; by rewrite E.
Qed.

(** C27. Whatever the clients do within [may] (several names per thread,
    names locked and released with or without the outer mutex, guards moved
    between threads), a name is locked by at most one thread, it is in the
    vector exactly as long as a guard has it, so that the destructor finds an
    empty vector exactly when all guards are gone, and no assertion of [lock]
    or [release] fails. A thread that sleeps waits for a name that some
    guard has, and a release leaves nobody asleep and its name free, so no
    wake-up is lost. The clients of the cache cannot block each other: as long
    as a thread waits or is inside of a call, some thread can take a step, or
    runs its own code with a key or the mutex of the cache. (Clients that hold
    several names can block each other; no client in the program does.) *)
Theorem lock_pool_exclusive (k : nat) (s : state) :
  reachable may k s →
  (∀ n t u, (n, t) ∈ guards s → (n, u) ∈ guards s → t = u) ∧
  (∀ n, n ∈ _lockedLocks s ↔ ∃ t, (n, t) ∈ guards s) ∧
  (destruct_ok s = true ↔ guards s = []) ∧
  (∀ t, threads s !! t ≠ Some Failed) ∧
  (∀ t o n, threads s !! t = Some (Asleep o n) → ∃ u, (n, u) ∈ guards s) ∧
  (∀ t n, threads s !! t = Some (InRelease n) → ∃ s', run t s = Some s' ∧ (n ∉ _lockedLocks s') ∧
    (∀ u o m, threads s' !! u ≠ Some (Asleep o m))) ∧
  (reachable cache_client k s → ∀ t p, threads s !! t = Some p → busy p = true → ∃ u, can_go s u).
Proof.
  intros Hi%pool_inv; [|done]. split_and!.
  - intros n t u. by apply guard_owner.
  - intros n. split; [by apply locked_guard|]. intros [t Ht]. by eapply guard_locked.
  - unfold destruct_ok. rewrite bool_decide_eq_true, <- (inv_guards s Hi), length_fmap. apply length_zero_iff_nil.
  - intros t Ht. exact (inv_fine s Hi t Failed Ht).
  - intros t o n Ht. apply locked_guard; [done|]. apply (inv_fine s Hi t _ Ht).
  - intros t n Ht. eexists. unfold run. rewrite Ht. split; [done|].
    pose proof (inv_fine s Hi t _ Ht) as Hf. simpl in Hf. unfold release.
    rewrite erase_first_filter by (by try apply Hi; eapply guard_locked). split.
    + simpl. rewrite list_elem_of_filter. naive_solver.
    + intros u o m. simpl. rewrite lookup_insert. case_decide; [done|]. rewrite lookup_fmap.
      intros (q & _ & Hq)%fmap_Some. by destruct q as [| | | | |[]| | |].
  - intros [_ Hk]%cache_keys t p. by apply cache_moves.
Qed.
End lock_pool.
End LockPool.

(** ** An execution: thread 1 waits for the name that thread 0 has *)
Module LockPoolExample.
Import LockPool.
Inductive action := ACall (t : nat) (r : request (LockName := Z)) | ARun (t : nat).
Definition allowed (t : nat) (r : request (LockName := Z)) (s : state) : bool :=
  match r with
  | LockOuter => bool_decide (outer_mutex s ≠ Some t) && bool_decide (t ∉ (guards s).*2)
  | UnlockOuter => bool_decide (outer_mutex s = Some t)
  | Lock _ _ => bool_decide (outer_mutex s = Some t) && bool_decide (t ∉ (guards s).*2)
  | Unlock n => bool_decide ((n, t) ∈ guards s)
  | Move _ _ => false
  end.
Lemma allowed_cache t r s : allowed t r s = true → cache_client t r s.
Proof.
  assert (Hg : t ∉ (guards s).*2 → ∀ n, (n, t) ∉ guards s).
  { intros H n Hn. apply H, list_elem_of_fmap. by exists (n, t). }
  unfold cache_client. destruct r; simpl; rewrite ?andb_true_iff, ?bool_decide_eq_true; naive_solver.
Qed.
Definition act (a : action) (s : state) : option state :=
  match a with
  | ACall t r => match threads s !! t with Some Idle => if allowed t r s then Some (call t r s) else None | _ => None end
  | ARun t => run t s
  end.
Fixpoint acts (l : list action) (s : state) : option state :=
  match l with [] => Some s | a :: l => act a s ≫= acts l end.
Lemma acts_rtc l s s' : acts l s = Some s' → rtc (step cache_client) s s'.
Proof.
  revert s. induction l as [|a l IH]; simpl; intros s Hs; [by simplify_eq|].
  apply bind_Some in Hs as (s1 & Hs1 & Hs). apply rtc_l with s1; [|by apply IH].
  destruct a as [t r|t]; simpl in Hs1; [|by eapply step_run]. repeat case_match; simplify_eq.
  apply step_call; [done|]. by apply allowed_cache.
Qed.
Lemma cache_may s s' : rtc (step (LockName := Z) cache_client) s s' → rtc (step may) s s'.
Proof.
  apply rtc_subrel. intros x y []; [by eapply step_run|apply step_call; [done|]|by apply step_spurious].
  by match goal with H : cache_client _ _ _ |- _ => destruct H end.
Qed.
(** Thread 0 deletes the entry of key 5 and has given up the mutex of the
    cache; thread 1 pops the entry. *)
Definition schedule : list action :=
  [ACall 0 LockOuter; ARun 0; ACall 0 (Lock false 5); ARun 0; ARun 0; ACall 0 UnlockOuter;
   ACall 1 LockOuter; ARun 1; ACall 1 (Lock true 5); ARun 1; ARun 1].
Definition waiting : state := default (initial 2) (acts schedule (initial 2)).
Lemma waiting_reached : reachable cache_client 2 waiting.
Proof. apply (acts_rtc schedule). vm_compute. reflexivity. Qed.
Lemma lock_pool_exclusive_witness :
  threads waiting !! 1%nat = Some (Asleep true 5) ∧ outer_mutex waiting = None ∧ guards waiting = [(5, 0%nat)] ∧
  ∃ u, can_go waiting u.
Proof.
  split; [vm_compute; reflexivity|]. split; [vm_compute; reflexivity|]. split; [vm_compute; reflexivity|].
  destruct (lock_pool_exclusive 2 waiting (cache_may _ _ waiting_reached)) as (_ & _ & _ & _ & _ & _ & H).
  apply (H waiting_reached 1%nat (Asleep true 5)); vm_compute; reflexivity.
Defined.
(** Thread 0 releases the key; thread 1 gets it with the mutex of the cache. *)
Example handed_over :
  (λ s, (threads s !! 1%nat, guards s, outer_mutex s)) <$>
    acts [ACall 0 (Unlock 5); ARun 0; ARun 0; ARun 1; ARun 1; ARun 1] waiting =
  Some (Some Idle, [(5, 1%nat)], Some 1%nat).
Proof. vm_compute. reflexivity. Qed.
End LockPoolExample.
