(* ===== verification/RandomPool.v ===== *)
(** * The pool of random bytes (cpp-utils/random)

    A thread fills a buffer with random bytes, the others take them:
    [RandomDataBuffer], [ThreadsafeRandomDataBuffer], [RandomGeneratorThread]
    and [PseudoRandomPool]. The generator of Crypto++ is a parameter, a stream
    of bytes. A critical section of the buffer's mutex is one step, between
    two of them other threads run. *)
From S2P Require Import Prelude Serialization.
From Stdlib Require Import Lia ZArith.
Open Scope Z_scope.

(** ** RandomDataBuffer.h *)
Module RandomDataBuffer.
Record t := mk { _usedUntil : Z; _data : bytes }.
Definition new : t := mk 0 [].
Definition size (s : t) : Z := u64 (Z.of_nat (length (_data s)) - _usedUntil s).
(** The bytes that are copied to the target. *)
Definition get (numBytes : Z) : M t bytes :=
  s ← get_state ;
  ASSERT (bool_decide (numBytes ≤ size s)) "Too many bytes requested. Buffer is smaller." ;;
  copied ← lift (Data.memcpy_from (_data s) (Z.to_nat (_usedUntil s)) (Z.to_nat numBytes)) ;
  put_state (mk (u64 (_usedUntil s + numBytes)) (_data s)) ;;
  mret copied.
Definition add (uninit : byte) (newData : bytes) : M t unit :=
  s ← get_state ;
  let oldSize := size s in
  let combinedSize := u64 (oldSize + Z.of_nat (length newData)) in
  lift (Data.check_alloc combinedSize) ;;
  old ← get oldSize ;
  combined ← lift (Data.memcpy_to (replicate (Z.to_nat combinedSize) uninit) 0 old) ;
  combined ← lift (Data.memcpy_to combined (Z.to_nat oldSize) newData) ;
  put_state (mk 0 combined).

(** The bytes that can still be taken. *)
Definition rest (s : t) : bytes := drop (Z.to_nat (_usedUntil s)) (_data s).
Definition ok (s : t) : Prop := 0 ≤ _usedUntil s ≤ Z.of_nat (length (_data s)) ∧ Z.of_nat (length (_data s)) < 2 ^ 63.

Lemma size_rest s : ok s → size s = Z.of_nat (length (rest s)).
Proof. intros [??]. unfold size, rest. rewrite length_drop, u64_small; lia. Qed.

Lemma get_spec n s :
  ok s → 0 ≤ n ≤ size s →
  get n s = (Ok (take (Z.to_nat n) (rest s)), mk (_usedUntil s + n) (_data s)) ∧
  ok (mk (_usedUntil s + n) (_data s)) ∧ rest (mk (_usedUntil s + n) (_data s)) = drop (Z.to_nat n) (rest s).
Proof.
  intros Hok Hn. pose proof (size_rest s Hok) as Hs. destruct Hok as [??]. unfold rest in Hs. rewrite length_drop in Hs.
  split_and!.
  - unfold get, mbind, M_bind, get_state. rewrite assert_ok by (apply bool_decide_true; lia). simpl.
    rewrite Data.memcpy_from_ok by lia. unfold lift, put_state. by rewrite u64_small by lia.
  - split; simpl; lia.
  - unfold rest. simpl. rewrite drop_drop. f_equal. lia.
Qed.
Lemma buffer_add_spec uninit new s :
  ok s → size s + Z.of_nat (length new) < 2 ^ 63 →
  add uninit new s = (Ok tt, mk 0 (rest s ++ new)) ∧ ok (mk 0 (rest s ++ new)).
Proof.
  intros Hok Hn. pose proof (size_rest s Hok) as Hs.
  assert (Hle : 0 ≤ size s ≤ size s) by (rewrite Hs; lia). destruct (get_spec _ s Hok Hle) as (Hg & _ & _).
  split; [|split; simpl; rewrite length_app; lia].
  unfold add. rewrite (bind_ok _ _ s s s) by done. rewrite u64_small by lia.
  rewrite (bind_ok _ _ s tt s) by (unfold lift, Data.check_alloc; by rewrite decide_True by lia).
  rewrite (bind_ok _ _ _ _ _ Hg). rewrite Hs, Nat2Z.id, firstn_all.
  unfold mbind, M_bind, lift. rewrite Data.memcpy_to_ok by (rewrite length_replicate; lia).
  rewrite Data.memcpy_to_ok by (rewrite length_splice, length_replicate; rewrite ?length_replicate; lia).
  unfold put_state. do 2 f_equal. unfold splice. rewrite take_0, drop_replicate. simpl.
  rewrite take_app_length' by done. rewrite drop_ge by (rewrite length_app, length_replicate; lia).
  by rewrite app_nil_r.
Qed.
End RandomDataBuffer.

(** ** ThreadsafeRandomDataBuffer.h, RandomGeneratorThread.cpp and
       PseudoRandomPool.h *)
Module PseudoRandomPool.
Definition MIN_BUFFER_SIZE : Z := 1 * 1024 * 1024.
Definition MAX_BUFFER_SIZE : Z := 2 * 1024 * 1024.

Section pool.
(** [stream] is the output of the generator, byte after byte. *)
Context (stream : nat → byte) (uninit : byte) (_minSize _maxSize : Z).

(** A thread in [get]: the target, the variable [alreadyGotten] and the size
    of the target. A thread that threw stays [Failed]. *)
Inductive client :=
| Idle
| Getting (target : bytes) (alreadyGotten : Z) (numBytes : Z)
| Failed (e : exn).
(** The refilling thread: the parts of [_loopIteration]. *)
Inductive refill :=
| Wait
| LoadSize
| CheckSize (neededRandomDataSize : Z)
| Add (neededRandomDataSize : Z)
| Crashed (e : exn).

(** [drawn] is the number of bytes that the generator has made; [handed] is
    what was copied out of the buffer, with the thread, in order; [returned]
    what [get] has returned. *)
Record state := mk {
  _buffer : RandomDataBuffer.t;
  clients : gmap nat client;
  _refillThread : refill;
  drawn : nat;
  handed : list (nat * bytes);
  returned : list (nat * bytes) }.
Definition set_client (t : nat) (c : client) (s : state) : state :=
  mk (_buffer s) (<[t := c]> (clients s)) (_refillThread s) (drawn s) (handed s) (returned s).
Definition set_refill (r : refill) (s : state) : state :=
  mk (_buffer s) (clients s) r (drawn s) (handed s) (returned s).

(** [_get] after it has waited. *)
Definition _get (numBytes : Z) : M RandomDataBuffer.t bytes :=
  s ← get_state ;
  let gettableBytes := Z.min (RandomDataBuffer.size s) numBytes in
  RandomDataBuffer.get gettableBytes.
(** What [get] does with the bytes: they are written behind the bytes it
    has; the result is the new target and the new [alreadyGotten]. *)
Definition got (target : bytes) (alreadyGotten numBytes : Z) (b : bytes) : result (bytes * Z) :=
  target' ← Data.memcpy_to target (Z.to_nat alreadyGotten) b ;
  let alreadyGotten' := u64 (alreadyGotten + Z.of_nat (length b)) in
  ASSERT (bool_decide (alreadyGotten' ≤ numBytes)) "Got too many bytes" ;;
  mret (target', alreadyGotten').
(** One round of the loop in [get]; [None] while the buffer is empty. *)
Definition get_round (t : nat) (s : state) : option state :=
  match clients s !! t with
  | Some (Getting target alreadyGotten numBytes) =>
      if bool_decide (alreadyGotten < numBytes) then
        if bool_decide (0 < RandomDataBuffer.size (_buffer s)) then
          match _get numBytes (_buffer s) with
          | (Ok b, buffer) =>
              let s' := mk buffer (clients s) (_refillThread s) (drawn s) (handed s ++ [(t, b)]) (returned s) in
              Some (match got target alreadyGotten numBytes b with
                    | Ok (target', alreadyGotten') => set_client t (Getting target' alreadyGotten' numBytes) s'
                    | Throw e => set_client t (Failed e) s'
                    end)
          | (Throw e, buffer) => Some (mk buffer (<[t := Failed e]> (clients s)) (_refillThread s) (drawn s) (handed s) (returned s))
          end
        else None
      else Some (mk (_buffer s) (<[t := Idle]> (clients s)) (_refillThread s) (drawn s) (handed s) (returned s ++ [(t, target)]))
  | _ => None
  end.
(** [RandomGenerator::get]. *)
Definition call_get (t : nat) (size : Z) (s : state) : option state :=
  match clients s !! t with
  | Some Idle => Some (set_client t (Getting (replicate (Z.to_nat size) uninit) 0 size) s)
  | _ => None
  end.

Definition _generateRandomData (size : Z) (drawn : nat) : bytes := map stream (seq drawn (Z.to_nat size)).
(** [_loopIteration], one critical section after the other. *)
Definition loopIteration (s : state) : option state :=
  match _refillThread s with
  | Wait => if bool_decide (RandomDataBuffer.size (_buffer s) < _minSize) then Some (set_refill LoadSize s) else None
  | LoadSize => Some (set_refill (CheckSize (u64 (_maxSize - RandomDataBuffer.size (_buffer s)))) s)
  | CheckSize needed =>
      Some (set_refill (if bool_decide (RandomDataBuffer.size (_buffer s) < _maxSize) then Add needed
                        else Crashed (AssertFailed "This could theoretically fail if another thread refilled the buffer. But we should be the only refilling thread.")) s)
  | Add needed =>
      let randomData := _generateRandomData needed (drawn s) in
      let d := (drawn s + Z.to_nat needed)%nat in
      match RandomDataBuffer.add uninit randomData (_buffer s) with
      | (Ok _, buffer) => Some (mk buffer (clients s) Wait d (handed s) (returned s))
      | (Throw e, buffer) => Some (mk buffer (clients s) (Crashed e) d (handed s) (returned s))
      end
  | Crashed _ => None
  end.

Inductive step : state → state → Prop :=
| step_call t size s s' : 0 ≤ size < 2 ^ 63 → call_get t size s = Some s' → step s s'
| step_get t s s' : get_round t s = Some s' → step s s'
| step_refill s s' : loopIteration s = Some s' → step s s'.
Definition initial (n : nat) : state :=
  mk RandomDataBuffer.new (gset_to_gmap Idle (set_seq 0 n)) Wait 0 [] [].
Definition reachable (n : nat) : state → Prop := rtc step (initial n).

(** ** The invariant *)
Definition pieces (t : nat) (l : list (nat * bytes)) : bytes := concat (snd <$> filter (λ p, p.1 = t) l).
Definition partial (c : client) : bytes := match c with Getting target a _ => take (Z.to_nat a) target | _ => [] end.
Definition client_ok (s : state) (t : nat) (c : client) : Prop :=
  match c with
  | Idle => pieces t (handed s) = pieces t (returned s)
  | Getting target a n =>
      Z.of_nat (length target) = n ∧ 0 ≤ a ≤ n ∧ n < 2 ^ 63 ∧ pieces t (handed s) = pieces t (returned s) ++ partial c
  | Failed e => e = UndefinedBehaviour
  end.
Definition refill_ok (s : state) : Prop :=
  match _refillThread s with
  | Wait => True
  | LoadSize => RandomDataBuffer.size (_buffer s) < _minSize
  | CheckSize needed =>
      RandomDataBuffer.size (_buffer s) < _minSize ∧ 0 ≤ needed ∧ RandomDataBuffer.size (_buffer s) + needed ≤ _maxSize
  | Add needed => 0 ≤ needed ∧ RandomDataBuffer.size (_buffer s) + needed ≤ _maxSize
  | Crashed _ => False
  end.
Record inv (s : state) : Prop := {
  inv_buffer : RandomDataBuffer.ok (_buffer s);
  inv_stream : map stream (seq 0 (drawn s)) = concat (snd <$> handed s) ++ RandomDataBuffer.rest (_buffer s);
  inv_size : RandomDataBuffer.size (_buffer s) ≤ _maxSize;
  inv_refill : refill_ok s;
  inv_clients : ∀ t c, clients s !! t = Some c → client_ok s t c }.

Lemma pieces_snoc t u b l : pieces t (l ++ [(u, b)]) = pieces t l ++ (if decide (u = t) then b else []).
Proof.
  unfold pieces. rewrite filter_app, fmap_app, concat_app. f_equal. rewrite filter_cons. simpl.
  case_decide; simpl; by rewrite ?app_nil_r.
Qed.
Lemma inv_initial n : 0 ≤ _maxSize → inv (initial n).
Proof.
  intros Hm. split; simpl; try done. intros t c. rewrite lookup_gset_to_gmap. intros Hc. by repeat (case_guard || simplify_eq/=).
Qed.

(** The other threads do not see a change of one thread and of the buffer. *)
Lemma clients_frame t c' s s' :
  inv s → clients s' = <[t := c']> (clients s) →
  (∀ u, u ≠ t → pieces u (handed s') = pieces u (handed s) ∧ pieces u (returned s') = pieces u (returned s)) →
  client_ok s' t c' → ∀ u c, clients s' !! u = Some c → client_ok s' u c.
Proof.
  intros Hi E Hp Hc u c. rewrite E, lookup_insert. case_decide as Hu; [by intros [= <-]; subst|].
  intros Hl%(inv_clients s Hi). destruct (Hp u) as [Hh Hr]; [done|]. unfold client_ok in *. by rewrite Hh, Hr.
Qed.
Lemma refill_shrinks s s' :
  _refillThread s' = _refillThread s → RandomDataBuffer.size (_buffer s') ≤ RandomDataBuffer.size (_buffer s) →
  refill_ok s → refill_ok s'.
Proof. intros E Hs. unfold refill_ok. rewrite E. destruct (_refillThread s); lia || done. Qed.

Lemma call_inv t size s s' : 0 ≤ size < 2 ^ 63 → inv s → call_get t size s = Some s' → inv s'.
Proof.
  intros Hn Hi. unfold call_get. destruct (clients s !! t) as [[| |]|] eqn:Et; try done. intros [= <-].
  pose proof Hi as [H1 H2 H3 H4 H5]. split; try done.
  eapply clients_frame; [done|done|done|]. simpl. apply H5 in Et. simpl in Et.
  rewrite length_replicate. split_and!; [lia..|]. by rewrite Et, app_nil_r.
Qed.
Lemma got_ok target a n b target' a' :
  Z.of_nat (length target) = n → 0 ≤ a → n < 2 ^ 63 → got target a n b = Ok (target', a') →
  a' = a + Z.of_nat (length b) ∧ a' ≤ n ∧ length target' = length target ∧
  take (Z.to_nat a') target' = take (Z.to_nat a) target ++ b.
Proof.
  intros Hl Ha Hn. unfold got, Data.memcpy_to. case_decide as Hd; [|done]. simpl. rewrite u64_small by lia.
  rewrite assert_ok by (apply bool_decide_true; lia). simpl. intros [= <- <-].
  split_and!; [done|lia|by apply length_splice|]. unfold splice. rewrite app_assoc.
  apply take_app_length'. rewrite length_app, length_take. lia.
Qed.
Lemma got_throws target a n b e :
  Z.of_nat (length target) = n → 0 ≤ a → n < 2 ^ 63 → got target a n b = Throw e → e = UndefinedBehaviour.
Proof.
  intros Hl Ha Hn. unfold got, Data.memcpy_to. case_decide as Hd; [|by intros [= <-]]. simpl. rewrite u64_small by lia.
  by rewrite assert_ok by (apply bool_decide_true; lia).
Qed.
Lemma shared_get_spec n s :
  RandomDataBuffer.ok s → 0 ≤ n → ∃ s', _get n s = (Ok (take (Z.to_nat n) (RandomDataBuffer.rest s)), s') ∧
    RandomDataBuffer.ok s' ∧ RandomDataBuffer.rest s' = drop (Z.to_nat n) (RandomDataBuffer.rest s) ∧
    RandomDataBuffer.size s' ≤ RandomDataBuffer.size s.
Proof.
  intros Hok Hn. pose proof (RandomDataBuffer.size_rest s Hok) as Hs.
  set (k := Z.min (RandomDataBuffer.size s) n).
  destruct (RandomDataBuffer.get_spec k s Hok) as (Hg & Hok' & Hr); [lia|]. eexists. split_and!.
  - change (_get n s) with (RandomDataBuffer.get k s). rewrite Hg. do 2 f_equal.
    destruct (decide (n ≤ RandomDataBuffer.size s)); [f_equal; lia|]. rewrite !take_ge by lia. done.
  - done.
  - rewrite Hr. destruct (decide (n ≤ RandomDataBuffer.size s)); [f_equal; lia|]. rewrite !drop_ge by lia. done.
  - rewrite !RandomDataBuffer.size_rest, Hr, length_drop by done. lia.
Qed.

Lemma get_inv t s s' : inv s → get_round t s = Some s' → inv s'.
Proof.
  intros Hi. unfold get_round. destruct (clients s !! t) as [[|target a n|]|] eqn:Et; try done.
  pose proof Hi as [H1 H2 H3 H4 H5]. pose proof (H5 _ _ Et) as (Hl & Ha & Hn & Hp).
  case_bool_decide as Han.
  - case_bool_decide as Hpos; [|done]. destruct (shared_get_spec n (_buffer s) H1) as (buf & Eg & Hok & Hr & Hsz); [lia|].
    rewrite Eg. set (b := take (Z.to_nat n) (RandomDataBuffer.rest (_buffer s))).
    assert (Hst : map stream (seq 0 (drawn s)) = concat (snd <$> handed s ++ [(t, b)]) ++ RandomDataBuffer.rest buf).
    { rewrite H2, fmap_app, concat_app, Hr. simpl. rewrite app_nil_r, <-app_assoc. unfold b. by rewrite take_drop. }
    destruct (got target a n b) as [[target' a']|e] eqn:Egot; intros [= <-].
    + destruct (got_ok target a n b target' a' Hl (proj1 Ha) Hn Egot) as (Ea & Ha' & Hl' & Htk).
      split; [done|done|simpl; lia|by eapply (refill_shrinks s)|].
      eapply clients_frame; [done|done| |].
      * intros u Hu. simpl. rewrite pieces_snoc, decide_False by done. by rewrite app_nil_r.
      * simpl. rewrite Hl', pieces_snoc, decide_True, Hp by done. simpl. split_and!; [lia..|]. by rewrite <-app_assoc, Htk.
    + split; [done|done|simpl; lia|by eapply (refill_shrinks s)|].
      eapply clients_frame; [done|done| |].
      * intros u Hu. simpl. rewrite pieces_snoc, decide_False by done. by rewrite app_nil_r.
      * simpl. by apply got_throws in Egot; [|done|lia|done].
  - intros [= <-]. split; try done. eapply clients_frame; [done|done| |].
    + intros u Hu. simpl. rewrite pieces_snoc, decide_False by done. by rewrite app_nil_r.
    + simpl. rewrite pieces_snoc, decide_True, Hp by done. f_equal. simpl. apply take_ge. lia.
Qed.
Lemma refill_inv s s' : _minSize ≤ _maxSize < 2 ^ 63 → inv s → loopIteration s = Some s' → inv s'.
Proof.
  intros Hm Hi. pose proof Hi as [H1 H2 H3 H4 H5]. unfold loopIteration. unfold refill_ok in H4.
  pose proof (RandomDataBuffer.size_rest _ H1) as Hs.
  destruct (_refillThread s) as [| |needed|needed|] eqn:Er; [| | | |done].
  - case_bool_decide; [|done]. intros [= <-]. by split.
  - intros [= <-]. split; try done. simpl. unfold refill_ok. simpl. rewrite u64_small; lia.
  - rewrite bool_decide_true by lia. intros [= <-]. split; try done. unfold refill_ok. simpl. lia.
  - destruct (RandomDataBuffer.buffer_add_spec uninit (_generateRandomData needed (drawn s)) (_buffer s) H1) as [Ea Hok].
    { unfold _generateRandomData. rewrite length_map, length_seq. lia. }
    rewrite Ea. intros [= <-]. split; [done| | |done|done]; simpl.
    + rewrite seq_app, map_app, H2, <-app_assoc. done.
    + rewrite RandomDataBuffer.size_rest by done. unfold RandomDataBuffer.rest at 1. simpl. rewrite drop_0, length_app.
      unfold _generateRandomData. rewrite length_map, length_seq. lia.
Qed.
Lemma random_pool_inv n s : 0 ≤ _minSize ≤ _maxSize → _maxSize < 2 ^ 63 → reachable n s → inv s.
Proof.
  intros Hm Hx Hr. unfold reachable in Hr. pose proof (inv_initial n ltac:(lia)) as Hi.
  induction Hr as [|s1 s2 s3 Hs _ IH]; [done|]. apply IH.
  destruct Hs; [by eapply call_inv|by eapply get_inv|eapply refill_inv; [lia|done..]].
Qed.

(** ** The theorems *)

(** C28. Random bytes are handed out once and in order, under every interleaving
    of threads: what was copied out, followed by what is in the buffer, is
    what the generator has made. What a thread has got back from its calls
    and what it has in its target is what was copied out for it. The buffer
    never holds more than its maximum, and the refilling thread never fails
    its assertion. A thread that fails does so by writing past its target:
    its assertion comes too late. *)
Theorem random_bytes_once (n : nat) (s : state) :
  0 ≤ _minSize ≤ _maxSize → _maxSize < 2 ^ 63 → reachable n s →
  map stream (seq 0 (drawn s)) = concat (snd <$> handed s) ++ RandomDataBuffer.rest (_buffer s) ∧
  Z.of_nat (length (RandomDataBuffer.rest (_buffer s))) ≤ _maxSize ∧
  (∀ e, _refillThread s ≠ Crashed e) ∧
  (∀ t c, clients s !! t = Some c →
     match c with
     | Failed e => e = UndefinedBehaviour
     | _ => pieces t (handed s) = pieces t (returned s) ++ partial c
     end).
Proof.
  intros Hm Hx Hr. destruct (random_pool_inv n s Hm Hx Hr) as [H1 H2 H3 H4 H5]. split_and!.
  - done.
  - by rewrite <-RandomDataBuffer.size_rest.
  - intros e E. unfold refill_ok in H4. by rewrite E in H4.
  - intros t c Hc%H5. destruct c; simpl in *; [by rewrite app_nil_r|naive_solver|done].
Qed.

(** A call that finds enough bytes in the buffer takes them in one round and
    then returns them. *)
Theorem get_takes_next (n : nat) (s : state) (t : nat) (target : bytes) (k : Z) :
  0 ≤ _minSize ≤ _maxSize → _maxSize < 2 ^ 63 → reachable n s →
  clients s !! t = Some (Getting target 0 k) → 0 < k ≤ Z.of_nat (length (RandomDataBuffer.rest (_buffer s))) →
  ∃ s1 s2, get_round t s = Some s1 ∧ get_round t s1 = Some s2 ∧
    returned s2 = returned s ++ [(t, take (Z.to_nat k) (RandomDataBuffer.rest (_buffer s)))].
Proof.
  intros Hm Hx Hr Ht Hk. destruct (random_pool_inv n s Hm Hx Hr) as [H1 H2 H3 H4 H5].
  pose proof (H5 _ _ Ht) as (Hl & _ & Hn & _). pose proof (RandomDataBuffer.size_rest _ H1) as Hs.
  destruct (shared_get_spec k (_buffer s) H1) as (buf & Eg & _); [lia|].
  set (b := take (Z.to_nat k) (RandomDataBuffer.rest (_buffer s))) in *.
  assert (Hb : length b = Z.to_nat k) by (unfold b; rewrite length_take; lia).
  assert (Egot : got target 0 k b = Ok (b, k)).
  { unfold got. rewrite Data.memcpy_to_ok by (simpl; lia). simpl. rewrite u64_small by lia.
    rewrite assert_ok by (apply bool_decide_true; lia). unfold splice. rewrite drop_ge by lia. simpl. rewrite app_nil_r.
    f_equal. f_equal. lia. }
  eexists _, _. split_and!.
  - unfold get_round. rewrite Ht. rewrite bool_decide_true by lia. rewrite bool_decide_true by lia. rewrite Eg, Egot. reflexivity.
  - unfold get_round. simpl. rewrite lookup_insert_eq, bool_decide_false by lia. reflexivity.
  - done.
Qed.
(** A call that found too few bytes asks for the whole number again: when the
    buffer has that many by then, they are written past the target. *)
Theorem second_round_overflows (s : state) (t : nat) (target : bytes) (a k : Z) :
  RandomDataBuffer.ok (_buffer s) → clients s !! t = Some (Getting target a k) → Z.of_nat (length target) = k →
  0 < a < k → k ≤ Z.of_nat (length (RandomDataBuffer.rest (_buffer s))) →
  ∃ s', get_round t s = Some s' ∧ clients s' !! t = Some (Failed UndefinedBehaviour).
Proof.
  intros H1 Ht Hl Ha Hk. pose proof (RandomDataBuffer.size_rest _ H1) as Hs.
  destruct (shared_get_spec k (_buffer s) H1) as (buf & Eg & _); [lia|].
  eexists. unfold get_round. rewrite Ht. rewrite !bool_decide_true by lia. rewrite Eg.
  split; [reflexivity|]. unfold got, Data.memcpy_to. rewrite decide_False by (rewrite length_take; lia).
  apply lookup_insert_eq.
Qed.
End pool.
End PseudoRandomPool.

(** ** An execution: two threads ask for three bytes of a pool of four *)
Module PoolExample.
Import PseudoRandomPool.
Definition stream (i : nat) : byte := byte_of (Z.of_nat i + 1).
Inductive action := ACall (t : nat) (size : Z) | AGet (t : nat) | ARefill.
Definition act (a : action) (s : state) : option state :=
  match a with
  | ACall t size => if bool_decide (0 ≤ size ∧ size < 2 ^ 63) then call_get x00 t size s else None
  | AGet t => get_round t s
  | ARefill => loopIteration stream x00 2 4 s
  end.
Fixpoint acts (l : list action) (s : state) : option state :=
  match l with [] => Some s | a :: l => act a s ≫= acts l end.
Lemma acts_reach l s s' : acts l s = Some s' → rtc (step stream x00 2 4) s s'.
Proof.
  revert s. induction l as [|a l IH]; simpl; intros s Hs; [by simplify_eq|].
  apply bind_Some in Hs as (s1 & Hs1 & Hs). apply rtc_l with s1; [|by apply IH].
  destruct a; simpl in Hs1; [|by eapply step_get|by eapply step_refill].
  case_bool_decide; [|done]. by eapply step_call.
Qed.
Definition refilled : list action := [ARefill; ARefill; ARefill; ARefill].
Definition one_served : state := default (initial 2) (acts (refilled ++ [ACall 0 3; ACall 1 3; AGet 0; AGet 0; AGet 1]) (initial 2)).
Lemma one_served_reachable : reachable stream x00 2 4 2 one_served.
Proof. apply (acts_reach (refilled ++ [ACall 0 3; ACall 1 3; AGet 0; AGet 0; AGet 1])). vm_compute. reflexivity. Qed.
Lemma random_bytes_once_witness :
  handed one_served = [(0%nat, [x01; x02; x03]); (1%nat, [x04])] ∧ returned one_served = [(0%nat, [x01; x02; x03])] ∧
  pieces 1 (handed one_served) = pieces 1 (returned one_served) ++ partial (Getting [x04; x00; x00] 1 3).
Proof.
  split; [vm_compute; reflexivity|]. split; [vm_compute; reflexivity|].
  pose proof (random_bytes_once stream x00 2 4 2 one_served ltac:(lia) ltac:(lia) one_served_reachable) as (_ & _ & _ & H).
  apply (H 1%nat (Getting [x04; x00; x00] 1 3)). vm_compute. reflexivity.
Defined.
(** The second thread then writes three more bytes behind its first one. *)
Example overflow : clients <$> acts (refilled ++ [AGet 1]) one_served = Some (<[1%nat := Failed UndefinedBehaviour]> (clients one_served)).
Proof. vm_compute. reflexivity. Qed.
End PoolExample.
