(* ===== verification/QueueMap.v ===== *)
(** * The addressable queue (blockstore/implementations/caching/cache/QueueMap.h)

    A doubly linked list threaded through the entries of a hash map, with a
    sentinel. A pointer to an entry is the key of the map node that holds it,
    [None] the address of the sentinel. [represents q l]: following the links
    from the sentinel visits exactly the list [l], oldest entry first. *)
From S2P Require Import Prelude.
From Stdlib Require Import Lia ZArith.

Module QueueMap.
Section queue.
Context {Key Value : Type} `{!EqDecision Key} `{!Countable Key}.

Definition ptr : Type := option Key.
Record Entry := mkEntry { prev : ptr; next : ptr; value : Value }.
Record t := mk { _entries : gmap Key Entry; sentinel_prev : ptr; sentinel_next : ptr }.

Definition new : t := mk ∅ None None.

(** [p->next = q] and [p->prev = q]. *)
Definition set_next (p q : ptr) (s : t) : t :=
  match p with
  | None => mk (_entries s) (sentinel_prev s) q
  | Some k => mk (alter (λ e, mkEntry (prev e) q (value e)) k (_entries s)) (sentinel_prev s) (sentinel_next s)
  end.
Definition set_prev (p q : ptr) (s : t) : t :=
  match p with
  | None => mk (_entries s) q (sentinel_next s)
  | Some k => mk (alter (λ e, mkEntry q (next e) (value e)) k (_entries s)) (sentinel_prev s) (sentinel_next s)
  end.

Definition push (key : Key) (v : Value) : M t unit := λ s,
  match _entries s !! key with
  | Some _ => (Throw (LogicError "There is already an element with this key"), s)
  | None =>
      let s1 := mk (<[key := mkEntry (sentinel_prev s) None v]> (_entries s)) (sentinel_prev s) (sentinel_next s) in
      let s2 := set_next (sentinel_prev s1) (Some key) s1 in
      (Ok tt, mk (_entries s2) (Some key) (sentinel_next s2))
  end.

Definition _removeFromQueue (e : Entry) (s : t) : t :=
  set_prev (next e) (prev e) (set_next (prev e) (next e) s).

Definition pop (key : Key) : M t (option Value) := λ s,
  match _entries s !! key with
  | None => (Ok None, s)
  | Some found =>
      let s1 := _removeFromQueue found s in
      (Ok (Some (value found)), mk (delete key (_entries s1)) (sentinel_prev s1) (sentinel_next s1))
  end.

(** [pop()] of the oldest entry. *)
Definition pop_front : M t (option Value) := λ s,
  match sentinel_next s with
  | None => (Ok None, s)
  | Some k => pop k s
  end.

Definition peekKey (s : t) : option Key := sentinel_next s.

Definition peek (s : t) : result (option Value) :=
  match sentinel_next s with
  | None => Ok None
  | Some k => match _entries s !! k with Some e => Ok (Some (value e)) | None => Throw UndefinedBehaviour end
  end.

Definition size (s : t) : Z := u32 (Z.of_nat (base.size (_entries s))).

(** ** The queue as a list *)
Definition prev_key (l : list (Key * Value)) (i : nat) : ptr :=
  match i with O => None | S j => fst <$> l !! j end.
Definition entry_at (l : list (Key * Value)) (i : nat) (v : Value) : Entry :=
  mkEntry (prev_key l i) (fst <$> l !! S i) v.

Definition represents (s : t) (l : list (Key * Value)) : Prop :=
  NoDup l.*1 ∧
  (∀ k, _entries s !! k = None ↔ k ∉ l.*1) ∧
  (∀ i k v, l !! i = Some (k, v) → _entries s !! k = Some (entry_at l i v)) ∧
  sentinel_next s = fst <$> l !! 0%nat ∧
  sentinel_prev s = prev_key l (length l).

Lemma represents_new : represents new [].
Proof. split_and!; try done; [constructor|]. intros k. simpl. rewrite lookup_empty, elem_of_nil. naive_solver. Qed.

Lemma key_index (l : list (Key * Value)) i j k v v' :
  NoDup l.*1 → l !! i = Some (k, v) → l !! j = Some (k, v') → i = j.
Proof.
  intros Hn Hi Hj. eapply (NoDup_lookup l.*1 i j k); [done| |].
  - by rewrite list_lookup_fmap, Hi.
  - by rewrite list_lookup_fmap, Hj.
Qed.

Lemma key_in (l : list (Key * Value)) i k v : l !! i = Some (k, v) → k ∈ l.*1.
Proof. intros H. apply list_elem_of_fmap. exists (k, v). split; [done|]. by eapply list_elem_of_lookup_2. Qed.

Lemma in_key (l : list (Key * Value)) k : k ∈ l.*1 → ∃ i v, l !! i = Some (k, v).
Proof.
  intros ([k' v] & -> & H)%list_elem_of_fmap. apply list_elem_of_lookup in H as [i Hi]. by exists i, v.
Qed.

Lemma prev_key_Some (l : list (Key * Value)) i p :
  prev_key l i = Some p → ∃ j v, i = S j ∧ l !! j = Some (p, v).
Proof.
  destruct i as [|j]; simpl; [done|]. intros ([k v] & Hl & ->)%fmap_Some. by exists j, v.
Qed.

Lemma prev_key_last (l : list (Key * Value)) i k v :
  NoDup l.*1 → l !! i = Some (k, v) → prev_key l (length l) = Some k ↔ S i = length l.
Proof.
  intros Hn Hi. split.
  - intros (j & v' & El & Hj)%prev_key_Some. rewrite El. f_equal. by eapply key_index.
  - intros <-. simpl. by rewrite Hi.
Qed.

(** What the links say of one key. *)
Lemma represents_entry s l k :
  represents s l →
  (∃ i v, l !! i = Some (k, v) ∧ _entries s !! k = Some (entry_at l i v)) ∨
  ((k ∉ l.*1) ∧ _entries s !! k = None).
Proof.
  intros (Hn & Hd & He & _). destruct (decide (k ∈ l.*1)) as [Hk|Hk].
  - left. apply in_key in Hk as (i & v & Hi). exists i, v. split; [done|]. by apply He.
  - right. split; [done|]. by apply Hd.
Qed.

Lemma represents_size s l : represents s l → base.size (_entries s) = length l.
Proof.
  intros (Hn & Hd & _). rewrite <- size_dom, <- (length_fmap fst l).
  rewrite <- (size_list_to_set (C := gset Key)) by done. f_equal. apply set_eq. intros k.
  rewrite elem_of_list_to_set, elem_of_dom. split.
  - intros Hs. apply dec_stable. intros Hk. apply Hd in Hk. rewrite Hk in Hs. by inversion Hs.
  - intros Hk. apply not_eq_None_Some. intros Hnone. by apply Hd in Hnone.
Qed.

Lemma push_duplicate s l k v :
  represents s l → k ∈ l.*1 →
  push k v s = (Throw (LogicError "There is already an element with this key"), s).
Proof.
  intros Hr Hk. unfold push. destruct (represents_entry s l k Hr) as [(i & v' & _ & ->)|[Hn _]]; done.
Qed.

(** Lookups and sentinel links after a pointer assignment. *)
Lemma lookup_set_next p q s k :
  _entries (set_next p q s) !! k =
    if decide (p = Some k) then (λ e, mkEntry (prev e) q (value e)) <$> _entries s !! k else _entries s !! k.
Proof.
  destruct p as [k'|]; [|done]. cbn [set_next set_prev _entries].
  destruct (decide (k' = k)) as [->|]; [rewrite lookup_alter_eq, decide_True|
    rewrite lookup_alter_ne, decide_False]; congruence.
Qed.

Lemma lookup_set_prev p q s k :
  _entries (set_prev p q s) !! k =
    if decide (p = Some k) then (λ e, mkEntry q (next e) (value e)) <$> _entries s !! k else _entries s !! k.
Proof.
  destruct p as [k'|]; [|done]. cbn [set_next set_prev _entries].
  destruct (decide (k' = k)) as [->|]; [rewrite lookup_alter_eq, decide_True|
    rewrite lookup_alter_ne, decide_False]; congruence.
Qed.

Lemma sentinel_set_next p q s :
  sentinel_next (set_next p q s) = (match p with None => q | Some _ => sentinel_next s end) ∧
  sentinel_prev (set_next p q s) = sentinel_prev s.
Proof. by destruct p. Qed.

Lemma sentinel_set_prev p q s :
  sentinel_prev (set_prev p q s) = (match p with None => q | Some _ => sentinel_prev s end) ∧
  sentinel_next (set_prev p q s) = sentinel_next s.
Proof. by destruct p. Qed.

(** The links of a list with one more or one less entry. *)
Lemma entry_at_app l k v i v' :
  (i < length l)%nat →
  entry_at (l ++ [(k, v)]) i v' =
    if decide (S i = length l) then mkEntry (prev_key l i) (Some k) v' else entry_at l i v'.
Proof.
  intros Hi. unfold entry_at.
  assert (prev_key (l ++ [(k, v)]) i = prev_key l i) as ->
    by (destruct i; [done|]; simpl; by rewrite lookup_app_l by lia).
  case_decide as Hd.
  - by rewrite lookup_app_r, Hd, Nat.sub_diag by lia.
  - by rewrite lookup_app_l by lia.
Qed.

Lemma prev_key_delete (l : list (Key * Value)) i j :
  prev_key (delete i l) j = if decide (j ≤ i)%nat then prev_key l j else prev_key l (S j).
Proof.
  destruct j as [|j]; [by rewrite decide_True by lia|]. cbn [prev_key].
  rewrite list_lookup_delete. repeat case_decide; done || lia.
Qed.

Lemma push_ok s l k v :
  represents s l → k ∉ l.*1 → ∃ s', push k v s = (Ok tt, s') ∧ represents s' (l ++ [(k, v)]).
Proof.
  intros (Hn & Hd & He & Hnext & Hprev) Hk. unfold push.
  rewrite (proj2 (Hd k)) by done. eexists. split; [done|].
  assert (sentinel_prev s ≠ Some k) as Hpk.
  { rewrite Hprev. intros (j & v0 & _ & Hl)%prev_key_Some. by apply Hk, (key_in _ _ _ _ Hl). }
  split_and!; simpl.
  - rewrite fmap_app. apply NoDup_app. split_and!; [done| |apply NoDup_singleton].
    intros k' Hk' ->%list_elem_of_singleton. done.
  - intros k'. rewrite lookup_set_next, fmap_app, elem_of_app. cbn. rewrite list_elem_of_singleton.
    specialize (Hd k'). destruct (decide (k' = k)) as [->|Hne].
    + rewrite lookup_insert_eq. case_decide; split; [done|tauto|done|tauto].
    + rewrite lookup_insert_ne by done. case_decide; rewrite ?fmap_None; tauto.
  - intros i k' v' Hi. rewrite lookup_set_next. simpl. apply lookup_app_Some in Hi as [Hi|[Hle Hi]].
    + pose proof (lookup_lt_Some _ _ _ Hi). assert (k ≠ k') by (intros ->; apply Hk; by eapply key_in).
      rewrite lookup_insert_ne, (He i k' v' Hi), entry_at_app by done. rewrite Hprev.
      pose proof (prev_key_last l i k' v' Hn Hi).
      case_decide; case_decide; try done; tauto.
    + apply list_lookup_singleton_Some in Hi as [Hi [= <- <-]].
      rewrite decide_False, lookup_insert_eq by done. unfold entry_at.
      rewrite lookup_app_r, lookup_ge_None_2 by (simpl; lia). simpl. do 2 f_equal. rewrite Hprev.
      replace i with (length l) by lia. destruct (length l) eqn:El; [done|]. simpl. by rewrite lookup_app_l by lia.
  - rewrite (proj1 (sentinel_set_next _ _ _)). simpl. rewrite Hprev, Hnext. destruct l as [|x l]; [done|].
    destruct (lookup_lt_is_Some_2 (x :: l) (length l)) as [y Hy]; [simpl; lia|]. simpl prev_key. by rewrite Hy.
  - rewrite length_app. simpl. rewrite Nat.add_1_r. simpl. by rewrite lookup_app_r, Nat.sub_diag by lia.
Qed.

Lemma pop_none s l k : represents s l → k ∉ l.*1 → pop k s = (Ok None, s).
Proof. intros (_ & Hd & _) Hk. unfold pop. by rewrite (proj2 (Hd k)). Qed.

Lemma delete_key_in (l : list (Key * Value)) i k v k' :
  NoDup l.*1 → l !! i = Some (k, v) → k' ∈ (delete i l).*1 ↔ k' ∈ l.*1 ∧ k' ≠ k.
Proof.
  intros Hn Hi. split.
  - intros (j & v' & Hj)%in_key. rewrite list_lookup_delete in Hj. split; [by eapply key_in|].
    intros ->. pose proof (key_index _ _ _ _ _ _ Hn Hi Hj). case_decide; lia.
  - intros [(j & v' & Hj)%in_key Hne]. destruct (decide (j < i)%nat).
    + eapply (key_in _ j). by rewrite list_lookup_delete_lt.
    + assert (j ≠ i) by (intros ->; rewrite Hi in Hj; congruence).
      eapply (key_in _ (j - 1)). rewrite list_lookup_delete_ge by lia. by replace (S (j - 1)) with j by lia.
Qed.

Lemma pop_ok s l i k v :
  represents s l → l !! i = Some (k, v) →
  ∃ s', pop k s = (Ok (Some v), s') ∧ represents s' (delete i l).
Proof.
  intros (Hn & Hd & He & Hnext & Hprev) Hi. unfold pop. rewrite (He i k v Hi).
  eexists. split; [done|]. pose proof (lookup_lt_Some _ _ _ Hi) as Hlt. unfold _removeFromQueue. simpl.
  split_and!; simpl.
  - eapply sublist_NoDup; [exact Hn|]. apply fmap_sublist, sublist_delete.
  - intros k'. rewrite delete_key_in by done. destruct (decide (k' = k)) as [->|Hne].
    + rewrite lookup_delete_eq. tauto.
    + rewrite lookup_delete_ne, lookup_set_prev, lookup_set_next by done. specialize (Hd k').
      repeat case_decide; rewrite ?fmap_None; tauto.
  - intros j k' v' Hj. rewrite list_lookup_delete in Hj.
    set (j0 := if decide (j < i)%nat then j else S j) in Hj.
    assert (k' ≠ k) as Hne by (intros ->; pose proof (key_index _ _ _ _ _ _ Hn Hi Hj); subst j0; case_decide; lia).
    assert (prev_key l i = Some k' ↔ i = S j0) as Hp.
    { split; [intros (j' & v0 & Heq & Hl)%prev_key_Some; rewrite Heq; f_equal; by eapply key_index|].
      intros Heq. rewrite Heq. simpl. by rewrite Hj. }
    assert (fst <$> l !! S i = Some k' ↔ S i = j0) as Hq.
    { split; [intros ([k0 v0] & Hl & E)%fmap_Some; simpl in E; subst k0; by eapply key_index|].
      intros Heq. by rewrite Heq, Hj. }
    rewrite lookup_delete_ne, lookup_set_prev, lookup_set_next, (He j0 k' v' Hj) by done.
    unfold entry_at. rewrite prev_key_delete, list_lookup_delete. subst j0.
    rewrite (decide_ext _ _ _ _ Hp), (decide_ext _ _ _ _ Hq). clear Hp Hq.
    repeat case_decide; try lia; cbn [prev next value fmap option_fmap option_map];
      do 2 f_equal; try done; do 2 f_equal; lia.
  - rewrite (proj2 (sentinel_set_prev _ _ _)), (proj1 (sentinel_set_next _ _ _)), list_lookup_delete.
    destruct i as [|i]; simpl; [done|]. destruct (lookup_lt_is_Some_2 l i) as [y Hy]; [lia|].
    rewrite Hy. simpl. by rewrite Hnext.
  - rewrite (proj1 (sentinel_set_prev _ _ _)), (proj2 (sentinel_set_next _ _ _)).
    rewrite length_delete by done. rewrite prev_key_delete.
    destruct (decide (S i = length l)) as [HS|HS].
    + rewrite lookup_ge_None_2 by lia. simpl. rewrite decide_True by lia. f_equal. lia.
    + destruct (lookup_lt_is_Some_2 l (S i)) as [y Hy]; [lia|]. rewrite Hy. simpl.
      rewrite decide_False by lia. rewrite Hprev. destruct (length l) as [|n]; [lia|].
      by replace (S n - 1)%nat with n by lia.
Qed.

Lemma pop_front_ok s l k v :
  represents s ((k, v) :: l) → ∃ s', pop_front s = (Ok (Some v), s') ∧ represents s' l.
Proof.
  intros Hr. pose proof Hr as (_ & _ & _ & Hnext & _). unfold pop_front. rewrite Hnext. simpl.
  by destruct (pop_ok s _ 0 k v Hr eq_refl) as (s' & E & Hr'); exists s'.
Qed.

Lemma pop_front_nil s : represents s [] → pop_front s = (Ok None, s).
Proof. intros (_ & _ & _ & Hnext & _). unfold pop_front. by rewrite Hnext. Qed.

(** ** Refinement: the queue is a list without duplicate keys *)
Inductive op := Push (k : Key) (v : Value) | Pop (k : Key) | PopFront | PeekKey | Peek | Size.
Inductive res := RVal (r : result (option Value)) | RKey (k : option Key) | RSize (n : Z).

Definition run_op (o : op) (s : t) : res * t :=
  match o with
  | Push k v => let '(r, s') := (push k v ;; mret None) s in (RVal r, s')
  | Pop k => let '(r, s') := pop k s in (RVal r, s')
  | PopFront => let '(r, s') := pop_front s in (RVal r, s')
  | PeekKey => (RKey (peekKey s), s)
  | Peek => (RVal (peek s), s)
  | Size => (RSize (size s), s)
  end.

Definition list_op (o : op) (l : list (Key * Value)) : res * list (Key * Value) :=
  match o with
  | Push k v =>
      if decide (k ∈ l.*1) then (RVal (Throw (LogicError "There is already an element with this key")), l)
      else (RVal (Ok None), l ++ [(k, v)])
  | Pop k =>
      match list_find (λ e, e.1 = k) l with
      | None => (RVal (Ok None), l)
      | Some (i, (_, v)) => (RVal (Ok (Some v)), delete i l)
      end
  | PopFront => match l with [] => (RVal (Ok None), []) | (_, v) :: l' => (RVal (Ok (Some v)), l') end
  | PeekKey => (RKey (fst <$> head l), l)
  | Peek => (RVal (Ok (snd <$> head l)), l)
  | Size => (RSize (u32 (Z.of_nat (length l))), l)
  end.

Fixpoint run {S R} (step : op → S → R * S) (os : list op) (s : S) : list R * S :=
  match os with
  | [] => ([], s)
  | o :: os' => let '(r, s1) := step o s in let '(rs, s2) := run step os' s1 in (r :: rs, s2)
  end.

Lemma run_op_refines o s l :
  represents s l → (run_op o s).1 = (list_op o l).1 ∧ represents (run_op o s).2 (list_op o l).2.
Proof.
  intros Hr. pose proof Hr as (Hn & Hd & He & Hnext & Hprev). destruct o as [k v|k| | | |]; simpl.
  - case_decide as Hk.
    + unfold mbind, M_bind. by rewrite (push_duplicate s l k v Hr Hk).
    + destruct (push_ok s l k v Hr Hk) as (s' & E & Hr'). by rewrite (bind_ok _ _ _ _ _ E).
  - destruct (list_find _ l) as [[i [k' v]]|] eqn:Ef.
    + apply list_find_Some in Ef as (Hi & Hk & _). simpl in Hk. subst k'.
      destruct (pop_ok s l i k v Hr Hi) as (s' & E & Hr'). by rewrite E.
    + rewrite (pop_none s l k Hr); [done|]. intros (i & v & Hi)%in_key.
      apply list_find_None in Ef. by apply (Forall_lookup_1 _ _ _ _ Ef) in Hi.
  - destruct l as [|[k v] l].
    + by rewrite (pop_front_nil s Hr).
    + destruct (pop_front_ok s l k v Hr) as (s' & E & Hr'). by rewrite E.
  - split; [|done]. unfold peekKey. rewrite Hnext. by destruct l.
  - split; [|done]. unfold peek. rewrite Hnext. destruct l as [|[k v] l]; [done|]. simpl.
    by rewrite (He 0%nat k v eq_refl).
  - split; [|done]. unfold size. by rewrite (represents_size s l Hr).
Qed.

(** C20. The linked queue behaves like a list. Whatever calls are made on a
    new queue, every call returns (or throws) what the same call returns on
    a plain list of key/value pairs, oldest first: the links of the entries
    and of the sentinel always describe that list. *)
Theorem queue_refines_list (os : list op) :
  (run run_op os new).1 = (run list_op os []).1 ∧ represents (run run_op os new).2 (run list_op os []).2.
Proof.
  assert (∀ s l, represents s l →
    (run run_op os s).1 = (run list_op os l).1 ∧ represents (run run_op os s).2 (run list_op os l).2) as H;
    [|apply H, represents_new].
  induction os as [|o os IH]; intros s l Hr; simpl; [done|].
  destruct (run_op_refines o s l Hr) as [E1 Hr1].
  destruct (run_op o s) as [r s1], (list_op o l) as [r' l1]. simpl in *. subst r'.
  destruct (IH s1 l1 Hr1) as [E2 Hr2].
  destruct (run run_op os s1), (run list_op os l1). simpl in *. by subst.
Qed.
End queue.
Arguments Entry : clear implicits.
Arguments t _ _ {_ _}.
End QueueMap.
