(* ===== verification/Cache.v ===== *)
(** * The cache (blockstore/implementations/caching/cache/Cache.h, CacheEntry.h)

    A bounded queue of values by key. An entry leaves the cache when it is
    popped, when a new entry needs its place, or when it is old; in the last
    two cases its value is destructed, which may have effects ([destroy]) on
    the rest of the program ([S]). The mutex and the lock pool serialise the
    operations; they are run here one after the other. *)
From S2P Require Import Prelude QueueMap.
From Stdlib Require Import Lia ZArith.

Record CacheEntry (Value : Type) := mkCacheEntry { _lastAccess : Z; _value : Value }.
Arguments mkCacheEntry {Value}.
Arguments _lastAccess {Value}.
Arguments _value {Value}.

Module Cache.
(** [clock] is the current time in microseconds. *)
Record t (Key Value : Type) `{!EqDecision Key} `{!Countable Key} := mk {
  _cachedBlocks : QueueMap.t Key (CacheEntry Value); clock : Z }.
Arguments mk {Key Value _ _}.
Arguments _cachedBlocks {Key Value _ _}.
Arguments clock {Key Value _ _}.

(** [PURGE_LIFETIME_SEC], in microseconds. *)
Definition PURGE_LIFETIME : Z := 500000.

Section cache.
Context {Key Value : Type} `{!EqDecision Key} `{!Countable Key} {S : Type}.
Context (destroy : Value → M S unit) (MAX_ENTRIES : Z).
Abbreviation queue := (QueueMap.t Key (CacheEntry Value)).
Abbreviation st := (t Key Value * S)%type.

Definition on_queue {A} (m : M queue A) : M st A :=
  zoom (λ s, _cachedBlocks s.1) (λ q s, (mk q (clock s.1), s.2)) m.
Definition on_rest {A} (m : M S A) : M st A := zoom snd (λ x s, (s.1, x)) m.

Definition size (s : st) : Z := QueueMap.size (_cachedBlocks s.1).

Definition pop (key : Key) : M st (option Value) :=
  found ← on_queue (QueueMap.pop key) ; mret (_value <$> found).

Definition _deleteEntry : M st unit :=
  s ← get_state ;
  ASSERT (bool_decide (is_Some (QueueMap.peekKey (_cachedBlocks s.1)))) "There was no entry to delete" ;;
  value ← on_queue QueueMap.pop_front ;
  match value with
  | Some e => on_rest (run_destructor (destroy (_value e)))
  | None => mret tt
  end.

(** The [while] loop of [_makeSpaceForEntry]. *)
Fixpoint while_full (fuel : nat) : M st unit :=
  match fuel with
  | O => mret tt
  | Datatypes.S fuel' =>
      s ← get_state ;
      if decide (size s = MAX_ENTRIES) then _deleteEntry ;; while_full fuel' else mret tt
  end.

Definition _makeSpaceForEntry : M st unit :=
  s ← get_state ;
  while_full (Datatypes.S (Z.to_nat (size s))) ;;
  s ← get_state ;
  ASSERT (bool_decide (size s < MAX_ENTRIES)) "Removing entry from cache didn't work".

(** The value is a by-value argument: it is destructed when [push] throws. *)
Definition push (key : Key) (value : Value) : M st unit :=
  on_throw (on_rest (destroy value)) (
    s ← get_state ;
    ASSERT (bool_decide (size s ≤ MAX_ENTRIES)) "Cache too full" ;;
    _makeSpaceForEntry ;;
    s ← get_state ;
    on_queue (QueueMap.push key (mkCacheEntry (clock s.1) value))).

Definition _deleteMatchingEntryAtBeginning (matches : CacheEntry Value → bool) : M st bool :=
  s ← get_state ;
  if decide (0 < size s) then
    e ← lift (QueueMap.peek (_cachedBlocks s.1)) ;
    match e with
    | Some e => if matches e then _deleteEntry ;; mret true else mret false
    | None => mthrow UndefinedBehaviour
    end
  else mret false.

Fixpoint while_deleted (fuel : nat) (matches : CacheEntry Value → bool) : M st unit :=
  match fuel with
  | O => mret tt
  | Datatypes.S fuel' =>
      b ← _deleteMatchingEntryAtBeginning matches ;
      if (b : bool) then while_deleted fuel' matches else mret tt
  end.

Definition _deleteMatchingEntriesAtBeginning (matches : CacheEntry Value → bool) : M st unit :=
  s ← get_state ; while_deleted (Datatypes.S (Z.to_nat (size s))) matches.

Definition _deleteOldEntriesParallel : M st unit :=
  s ← get_state ;
  _deleteMatchingEntriesAtBeginning (λ e, bool_decide (PURGE_LIFETIME < clock s.1 - _lastAccess e)).

Definition _deleteAllEntriesParallel : M st unit := _deleteMatchingEntriesAtBeginning (λ _, true).

Definition flush : M st unit := _deleteAllEntriesParallel.

(** [~Cache]. *)
Definition destructor : M st unit :=
  _deleteAllEntriesParallel ;;
  s ← get_state ;
  ASSERT (bool_decide (size s = 0)) "Error in _deleteAllEntriesParallel()".

(** ** Operations on the represented list

    [I l x] is an invariant of the cached entries and the rest of the program
    that destructing the oldest entry keeps. *)
Context (I : list (Key * CacheEntry Value) → S → Prop).
Definition evictable : Prop := ∀ k e l x, I ((k, e) :: l) x →
  ∃ x', destroy (_value e) x = (Ok tt, x') ∧ I l x'.
Context (Hevict : evictable) (Hmax : 0 < MAX_ENTRIES < 2 ^ 32).

Abbreviation qrep := (QueueMap.represents).

Lemma size_ok s l : qrep (_cachedBlocks s.1) l → Z.of_nat (length l) < 2 ^ 32 → size s = Z.of_nat (length l).
Proof. intros Hq Hl. unfold size, QueueMap.size. rewrite (QueueMap.represents_size _ _ Hq). apply u32_small. lia. Qed.

Lemma on_queue_ok {A} (m : M queue A) s r q' :
  m (_cachedBlocks s.1) = (r, q') → on_queue m s = (r, (mk q' (clock s.1), s.2)).
Proof. intros E. unfold on_queue, zoom. by rewrite E. Qed.

Lemma deleteEntry_ok s k e l :
  qrep (_cachedBlocks s.1) ((k, e) :: l) → I ((k, e) :: l) s.2 →
  ∃ s', _deleteEntry s = (Ok tt, s') ∧ qrep (_cachedBlocks s'.1) l ∧ I l s'.2 ∧ clock s'.1 = clock s.1.
Proof.
  intros Hq HI. destruct (Hevict _ _ _ _ HI) as (x' & Ed & HI').
  destruct (QueueMap.pop_front_ok _ _ _ _ Hq) as (q' & Eq & Hq').
  pose proof Hq as (_ & _ & _ & Hnext & _).
  unfold _deleteEntry, mbind, M_bind, QueueMap.peekKey, ASSERT. csimp. rewrite Hnext, bool_decide_true by (by eexists).
  csimp. rewrite (on_queue_ok _ _ _ _ Eq). unfold on_rest, zoom, run_destructor. simpl. rewrite Ed.
  eexists. split; [done|]. done.
Qed.

Lemma while_full_ok fuel s l :
  (0 < fuel)%nat → qrep (_cachedBlocks s.1) l → Z.of_nat (length l) ≤ MAX_ENTRIES → I l s.2 →
  (fuel = 1%nat → Z.of_nat (length l) < MAX_ENTRIES) →
  ∃ s' l', while_full fuel s = (Ok tt, s') ∧ qrep (_cachedBlocks s'.1) l' ∧ Z.of_nat (length l') < MAX_ENTRIES ∧
    I l' s'.2 ∧ clock s'.1 = clock s.1.
Proof.
  intros Hf Hq Hl HI H1. destruct fuel as [|fuel]; [lia|]. simpl. unfold mbind at 1, M_bind at 1. csimp.
  rewrite (size_ok s l Hq) by lia. case_decide as Hd; [|exists s, l; split_and!; try done; lia].
  destruct l as [|[k e] l]; [simpl in Hd; lia|].
  destruct (deleteEntry_ok s k e l Hq HI) as (s1 & E1 & Hq1 & HI1 & Hc1).
  rewrite (bind_ok _ _ _ _ _ E1). destruct fuel as [|fuel]; [lia|]. simpl in *. unfold mbind, M_bind. csimp.
  rewrite (size_ok s1 l Hq1) by lia. rewrite decide_False by lia.
  exists s1, l. split_and!; try done. lia.
Qed.

Lemma cache_push_ok s l key value :
  qrep (_cachedBlocks s.1) l → Z.of_nat (length l) ≤ MAX_ENTRIES → I l s.2 → (∀ l x, I l x → key ∉ l.*1) →
  ∃ s' l' e, push key value s = (Ok tt, s') ∧ _value e = value ∧
    qrep (_cachedBlocks s'.1) (l' ++ [(key, e)]) ∧ Z.of_nat (length l') < MAX_ENTRIES ∧ I l' s'.2.
Proof.
  intros Hq Hl HI Hk.
  destruct (while_full_ok (Datatypes.S (Z.to_nat (size s))) s l) as (s1 & l1 & E1 & Hq1 & Hl1 & HI1 & Hc1);
    [lia|done|done|done|rewrite (size_ok s l Hq) by lia; lia|].
  destruct (QueueMap.push_ok _ _ key (mkCacheEntry (clock s1.1) value) Hq1 (Hk _ _ HI1)) as (q2 & E2 & Hq2).
  eexists _, l1, (mkCacheEntry (clock s1.1) value). split.
  - unfold push, on_throw, _makeSpaceForEntry, mbind, M_bind. csimp.
    rewrite bool_decide_true by (rewrite (size_ok s l Hq); lia). unfold ASSERT. csimp. rewrite E1. csimp.
    rewrite bool_decide_true by (rewrite (size_ok s1 l1 Hq1); lia). csimp.
    rewrite (on_queue_ok _ _ _ _ E2). done.
  - by split_and!.
Qed.

Lemma cache_pop_ok s l i key e :
  qrep (_cachedBlocks s.1) l → l !! i = Some (key, e) →
  ∃ q', pop key s = (Ok (Some (_value e)), (mk q' (clock s.1), s.2)) ∧ qrep q' (delete i l).
Proof.
  intros Hq Hi. destruct (QueueMap.pop_ok _ _ _ _ _ Hq Hi) as (q' & E & Hq'). exists q'. split; [|done].
  unfold pop, mbind, M_bind. by rewrite (on_queue_ok _ _ _ _ E).
Qed.

Lemma cache_pop_none s l key :
  qrep (_cachedBlocks s.1) l → key ∉ l.*1 → pop key s = (Ok None, s).
Proof.
  intros Hq Hk. unfold pop, mbind, M_bind. rewrite (on_queue_ok _ _ _ _ (QueueMap.pop_none _ _ _ Hq Hk)).
  by destruct s as [[]].
Qed.

(** Deleting from the front ends with an entry that does not match. *)
Lemma while_deleted_ok matches l fuel s :
  (length l < fuel)%nat → Z.of_nat (length l) ≤ MAX_ENTRIES → qrep (_cachedBlocks s.1) l → I l s.2 →
  ∃ s' l', while_deleted fuel matches s = (Ok tt, s') ∧ qrep (_cachedBlocks s'.1) l' ∧ I l' s'.2 ∧
    l' `suffix_of` l ∧ (∀ k e l'', l' = (k, e) :: l'' → matches e = false).
Proof.
  revert fuel s. induction l as [|[k e] l IH]; intros fuel s Hf Hl Hq HI;
    (destruct fuel as [|fuel]; [simpl in Hf; lia|]); cbn [while_deleted].
  - exists s, []. unfold _deleteMatchingEntryAtBeginning, mbind, M_bind. csimp.
    rewrite (size_ok s [] Hq) by (simpl; lia). simpl. split_and!; try done.
  - unfold _deleteMatchingEntryAtBeginning. simpl in Hf, Hl. rewrite bind_assoc. unfold mbind at 1, M_bind at 1. csimp.
    rewrite (size_ok s _ Hq) by (simpl; lia). rewrite decide_True by (simpl; lia).
    pose proof Hq as (_ & _ & He & Hnext & _). unfold QueueMap.peek. rewrite Hnext. simpl.
    rewrite (He 0%nat k e eq_refl). simpl. unfold mbind at 1, M_bind at 1. unfold mbind at 1, M_bind at 1. csimp.
    destruct (matches e) eqn:Em.
    + destruct (deleteEntry_ok s k e l Hq HI) as (s1 & E1 & Hq1 & HI1 & _).
      unfold mbind, M_bind. rewrite E1. csimp.
      destruct (IH fuel s1 ltac:(lia) ltac:(lia) Hq1 HI1) as (s' & l' & E' & Hq' & HI' & Hs & Hm).
      exists s', l'. split_and!; try done. by apply suffix_cons_r.
    + exists s, ((k, e) :: l). split_and!; try done. naive_solver.
Qed.

Lemma cache_flush_ok s l :
  Z.of_nat (length l) ≤ MAX_ENTRIES → qrep (_cachedBlocks s.1) l → I l s.2 →
  ∃ s', flush s = (Ok tt, s') ∧ qrep (_cachedBlocks s'.1) [] ∧ I [] s'.2.
Proof.
  intros Hl Hq HI.
  destruct (while_deleted_ok (λ _, true) l (Datatypes.S (Z.to_nat (size s))) s) as (s' & l' & E & Hq' & HI' & _ & Hm);
    [rewrite (size_ok s l Hq); lia|done|done|done|].
  exists s'. split; [exact E|]. destruct l' as [|[k e] l']; [done|]. by specialize (Hm k e l' eq_refl).
Qed.
End cache.
End Cache.
