(* ===== verification/Caching.v ===== *)
(** * The caching block store (blockstore/implementations/caching)

    A write-back cache over a base store: [_cachedBlocksNotInBaseStore] are
    the ids of cached blocks that were created and not written yet. Writing
    a dirty block back happens in the destructor of [CachedBlock], when the
    cache evicts it. *)
From S2P Require Import Prelude Serialization BlockStore QueueMap Cache.
From Stdlib Require Import Lia ZArith.

Module CachingBlockStore2.
Definition MAX_ENTRIES : Z := 1000.

Record CachedBlock := mkBlock { _blockId : bytes; _data : bytes; _dirty : bool }.

(** The rest of the store, which the destructor of a block works on. *)
Record inner (Base : Type) := mkInner {
  _baseBlockStore : Base;
  _cachedBlocksNotInBaseStore : gset bytes }.
Arguments mkInner {Base}.
Arguments _baseBlockStore {Base}.
Arguments _cachedBlocksNotInBaseStore {Base}.

Section store.
Context {Base : Type} `{!BlockStore2 Base}.

Abbreviation st := (Cache.t bytes CachedBlock * inner Base)%type.

Definition base {A} (m : M Base A) : M (inner Base) A :=
  zoom _baseBlockStore (λ b s, mkInner b (_cachedBlocksNotInBaseStore s)) m.
Definition set_not_in_base (f : gset bytes → gset bytes) : M (inner Base) unit :=
  modify (λ s, mkInner (_baseBlockStore s) (f (_cachedBlocksNotInBaseStore s))).

Definition read (b : CachedBlock) : bytes := _data b.
Definition markNotDirty (b : CachedBlock) : CachedBlock := mkBlock (_blockId b) (_data b) false.
Definition write (data : bytes) (b : CachedBlock) : CachedBlock := mkBlock (_blockId b) data true.

(** [~CachedBlock]. *)
Definition destroy (b : CachedBlock) : M (inner Base) unit :=
  (if _dirty b then base (BlockStore.store (_blockId b) (_data b)) else mret tt) ;;
  set_not_in_base (λ X, X ∖ {[ _blockId b ]}).

Definition rest {A} (m : M (inner Base) A) : M st A := Cache.on_rest m.
Definition cache_pop (blockId : bytes) : M st (option CachedBlock) := Cache.pop blockId.
Definition cache_push (blockId : bytes) (b : CachedBlock) : M st unit :=
  Cache.push destroy MAX_ENTRIES blockId b.

Definition tryCreate (blockId data : bytes) : M st bool :=
  popped ← cache_pop blockId ;
  match popped with
  | Some b => cache_push blockId b ;; mret false
  | None =>
      cache_push blockId (mkBlock blockId data true) ;;
      rest (set_not_in_base (λ X, {[ blockId ]} ∪ X)) ;;
      mret true
  end.

Definition remove (blockId : bytes) : M st bool :=
  popped ← cache_pop blockId ;
  match popped with
  | Some b =>
      on_throw (rest (destroy b)) (
        s ← get_state ;
        if decide (blockId ∉ _cachedBlocksNotInBaseStore s.2) then
          existedInBaseStore ← rest (base (BlockStore.remove blockId)) ;
          if negb existedInBaseStore
          then mthrow (RuntimeError "Tried to remove block. Block existed in cache and stated it exists in base store, but wasn't found there.")
          else mret tt
        else mret tt) ;;
      rest (run_destructor (destroy (markNotDirty b))) ;;
      mret true
  | None => rest (base (BlockStore.remove blockId))
  end.

Definition _loadFromCacheOrBaseStore (blockId : bytes) : M st (option CachedBlock) :=
  popped ← cache_pop blockId ;
  match popped with
  | Some b => mret (Some b)
  | None =>
      loaded ← rest (base (BlockStore.load blockId)) ;
      match loaded with
      | None => mret None
      | Some d => mret (Some (mkBlock blockId d false))
      end
  end.

Definition load (blockId : bytes) : M st (option bytes) :=
  loaded ← _loadFromCacheOrBaseStore blockId ;
  match loaded with
  | None => mret None
  | Some b => cache_push blockId b ;; mret (Some (read b))
  end.

Definition store (blockId data : bytes) : M st unit :=
  popped ← cache_pop blockId ;
  match popped with
  | Some b => cache_push blockId (write data b)
  | None =>
      let b := mkBlock blockId data false in
      on_throw (rest (destroy b)) (rest (base (BlockStore.store blockId data))) ;;
      cache_push blockId b
  end.

Definition numBlocks (s : st) : Z :=
  u64 (BlockStore.numBlocks (_baseBlockStore s.2) + Z.of_nat (size (_cachedBlocksNotInBaseStore s.2))).
Definition estimateNumFreeBytes (s : st) : Z := BlockStore.estimateNumFreeBytes (_baseBlockStore s.2).
Definition blockSizeFromPhysicalBlockSize (s : st) (blockSize : Z) : Z :=
  BlockStore.blockSizeFromPhysicalBlockSize (_baseBlockStore s.2) blockSize.

Definition forEachBlock : M st (list bytes) :=
  s ← get_state ;
  ids ← rest (base BlockStore.forEachBlock) ;
  mret (elements (_cachedBlocksNotInBaseStore s.2) ++ ids).

Definition flush : M st unit := Cache.flush destroy.

#[export] Instance ops : BlockStore2 st := {
  BlockStore.tryCreate := tryCreate; BlockStore.remove := remove; BlockStore.load := load;
  BlockStore.store := store; BlockStore.numBlocks := numBlocks;
  BlockStore.estimateNumFreeBytes := estimateNumFreeBytes;
  BlockStore.blockSizeFromPhysicalBlockSize := blockSizeFromPhysicalBlockSize;
  BlockStore.forEachBlock := forEachBlock }.

Definition new (b : Base) : st := (Cache.mk QueueMap.new 0, mkInner b ∅).

(** ** What the cache and the base store stand for

    [rel n m bl x]: with the blocks [bl] in the cache, the rest [x] of the
    store stands for the map [m], and [n] more writes are possible besides
    writing the dirty blocks back. *)
Context `{!BlockStore2Spec Base}.
Abbreviation limit := (maxSize (S := Base)).

Definition ndirty (bl : list (bytes * CachedBlock)) : nat := length (filter (λ p, _dirty p.2 = true) bl).

Definition rel (n : nat) (m : gmap bytes bytes) (bl : list (bytes * CachedBlock)) (x : inner Base) : Prop :=
  NoDup bl.*1 ∧
  ∃ mb, repr (n + ndirty bl) (_baseBlockStore x) mb ∧
    (∀ id b, (id, b) ∈ bl →
       _blockId b = id ∧ BlockId.valid id ∧ Z.of_nat (length (_data b)) ≤ limit ∧ m !! id = Some (_data b) ∧
       (_dirty b = false → mb !! id = Some (_data b)) ∧
       (id ∈ _cachedBlocksNotInBaseStore x ↔ mb !! id = None)) ∧
    (∀ id, id ∉ bl.*1 → m !! id = mb !! id ∧ id ∉ _cachedBlocksNotInBaseStore x).

Lemma rel_perm n m bl bl' x : bl ≡ₚ bl' → rel n m bl x → rel n m bl' x.
Proof.
  intros Hp (Hn & mb & Hr & Hin & Hout). split; [by rewrite <- Hp|]. exists mb. split_and!.
  - unfold ndirty in *. by rewrite <- Hp.
  - intros id b Hb. apply Hin. by rewrite Hp.
  - intros id Hid. apply Hout. by rewrite Hp.
Qed.

Lemma rel_le n n' m bl x : (n' ≤ n)%nat → rel n m bl x → rel n' m bl x.
Proof.
  intros Hle (Hn & mb & Hr & Hin & Hout). split; [done|]. exists mb. split; [|done].
  eapply repr_le; [|exact Hr]. lia.
Qed.

Lemma ndirty_cons id b bl : ndirty ((id, b) :: bl) = ((if _dirty b then 1 else 0) + ndirty bl)%nat.
Proof. unfold ndirty. rewrite filter_cons. simpl. destruct (_dirty b); by case_decide. Qed.

Lemma caching_base_ok {A} (m : M Base A) (x : inner Base) r b' :
  m (_baseBlockStore x) = (r, b') → base m x = (r, mkInner b' (_cachedBlocksNotInBaseStore x)).
Proof. intros E. unfold base, zoom. by rewrite E. Qed.

Lemma in_keys {A} (id : bytes) (b : A) bl : (id, b) ∈ bl → id ∈ bl.*1.
Proof. intros H. apply list_elem_of_fmap. by exists (id, b). Qed.

(** Destructing a cached block writes it back; the map is the same. *)
Lemma rel_destroy n m id b bl x :
  rel n m ((id, b) :: bl) x → ∃ x', destroy b x = (Ok tt, x') ∧ rel n m bl x'.
Proof.
  intros (Hn & mb & Hr & Hin & Hout). rewrite ndirty_cons in Hr.
  apply NoDup_cons in Hn as [Hid Hn].
  destruct (Hin id b) as (Hb & Hv & Hl & Hm & Hclean & Hnot); [by left|].
  unfold destroy, mbind, M_bind. destruct (_dirty b) eqn:Ed.
  - replace (n + (1 + ndirty bl))%nat with (S (n + ndirty bl)) in Hr by lia. rewrite Hb.
    destruct (store_spec _ _ _ _ _ Hv Hl Hr) as (b' & E & Hr'). rewrite (caching_base_ok _ _ _ _ E).
    eexists. split; [done|]. split; [done|]. simpl. exists (<[id := _data b]> mb). split_and!; [done| |].
    + intros id' b0 Hb0. assert (id' ≠ id) by (intros ->; by apply Hid, (in_keys _ b0)).
      rewrite lookup_insert_ne by done. destruct (Hin id' b0) as (? & ? & ? & ? & ? & Hnot'); [by right|].
      split_and!; try done. simpl. rewrite elem_of_difference, elem_of_singleton. tauto.
    + intros id' Hid'. simpl. rewrite elem_of_difference, elem_of_singleton.
      destruct (decide (id' = id)) as [->|Hne]; [rewrite lookup_insert_eq; tauto|].
      rewrite lookup_insert_ne by done. destruct (Hout id') as [? ?]; [|tauto].
      intros [?|?]%elem_of_cons; done.
  - csimp. eexists. split; [done|]. split; [done|]. exists mb. split_and!; [done| |].
    + intros id' b0 Hb0. assert (id' ≠ id) by (intros ->; by apply Hid, (in_keys _ b0)).
      destruct (Hin id' b0) as (? & ? & ? & ? & ? & Hnot'); [by right|].
      split_and!; try done. simpl. rewrite elem_of_difference, elem_of_singleton, Hb. tauto.
    + intros id' Hid'. simpl. rewrite elem_of_difference, elem_of_singleton, Hb.
      destruct (decide (id' = id)) as [->|Hne]; [rewrite (Hclean eq_refl), Hm; tauto|].
      destruct (Hout id') as [? ?]; [|tauto]. intros [?|?]%elem_of_cons; done.
Qed.

(** Keeping a loaded or just stored block in the cache. *)
Lemma rel_add_clean n m id d bl x :
  rel n m bl x → id ∉ bl.*1 → BlockId.valid id → m !! id = Some d →
  rel n m ((id, mkBlock id d false) :: bl) x.
Proof.
  intros (Hn & mb & Hr & Hin & Hout) Hid Hv Hm. split; [by apply NoDup_cons|].
  exists mb. rewrite ndirty_cons. simpl. destruct (Hout id Hid) as [Hmb Hnot].
  split_and!; [done| |].
  - intros id' b [[= -> ->]|Hb]%elem_of_cons; [|by apply Hin]. simpl. rewrite Hm in Hmb.
    split_and!; try done; [by eapply repr_size|]. rewrite <- Hmb. split; done.
  - intros id' [??]%not_elem_of_cons. by apply Hout.
Qed.

(** Overwriting a cached block. *)
Lemma rel_write n m id b data bl x :
  rel (S n) m ((id, b) :: bl) x → Z.of_nat (length data) ≤ limit →
  rel n (<[id := data]> m) ((id, write data b) :: bl) x.
Proof.
  intros (Hn & mb & Hr & Hin & Hout) Hl. split; [done|]. exists mb. rewrite ndirty_cons in *.
  pose proof (Hin id b ltac:(by left)) as (Hb & Hv & _ & _ & _ & Hnot).
  apply NoDup_cons in Hn as [Hid Hn]. split_and!.
  - eapply repr_le; [|exact Hr]. simpl. destruct (_dirty b); lia.
  - intros id' b0 [[= -> ->]|Hb0]%elem_of_cons.
    + simpl. rewrite lookup_insert_eq. by split_and!.
    + assert (id' ≠ id) by (intros ->; by apply Hid, (in_keys _ b0)).
      rewrite lookup_insert_ne by done. apply Hin. by right.
  - intros id' [Hne ?]%not_elem_of_cons. rewrite lookup_insert_ne by done. apply Hout. by apply not_elem_of_cons.
Qed.

(** The base store's operations on a block that is not in the cache. *)
Lemma rel_load n m id bl x :
  rel n m bl x → id ∉ bl.*1 → BlockId.valid id →
  ∃ b', BlockStore.load id (_baseBlockStore x) = (Ok (m !! id), b') ∧
    rel n m bl (mkInner b' (_cachedBlocksNotInBaseStore x)).
Proof.
  intros (Hn & mb & Hr & Hin & Hout) Hid Hv. destruct (load_spec _ _ _ _ Hv Hr) as (b' & E & Hr').
  exists b'. rewrite (proj1 (Hout id Hid)). split; [done|]. split; [done|]. by exists mb.
Qed.

Lemma rel_store n m id data bl x :
  rel (S n) m bl x → id ∉ bl.*1 → BlockId.valid id → Z.of_nat (length data) ≤ limit →
  ∃ b', BlockStore.store id data (_baseBlockStore x) = (Ok tt, b') ∧
    rel n (<[id := data]> m) bl (mkInner b' (_cachedBlocksNotInBaseStore x)).
Proof.
  intros (Hn & mb & Hr & Hin & Hout) Hid Hv Hd. destruct (store_spec _ _ _ _ _ Hv Hd Hr) as (b' & E & Hr').
  exists b'. split; [done|]. split; [done|]. exists (<[id := data]> mb). split_and!; [done| |].
  - intros id' b0 Hb0. assert (id' ≠ id) by (intros ->; by apply Hid, (in_keys _ b0)).
    rewrite !lookup_insert_ne by done. by apply Hin.
  - intros id' Hid'. simpl. destruct (decide (id' = id)) as [->|Hne].
    + rewrite !lookup_insert_eq. split; [done|]. by apply Hout.
    + rewrite !lookup_insert_ne by done. by apply Hout.
Qed.

Lemma rel_remove n m id bl x :
  rel n m bl x → id ∉ bl.*1 → BlockId.valid id →
  ∃ b', BlockStore.remove id (_baseBlockStore x) = (Ok (bool_decide (is_Some (m !! id))), b') ∧
    rel n (delete id m) bl (mkInner b' (_cachedBlocksNotInBaseStore x)).
Proof.
  intros (Hn & mb & Hr & Hin & Hout) Hid Hv. destruct (remove_spec _ _ _ _ Hv Hr) as (b' & E & Hr').
  exists b'. rewrite (proj1 (Hout id Hid)). split; [done|]. split; [done|]. exists (delete id mb). split_and!; [done| |].
  - intros id' b0 Hb0. assert (id' ≠ id) by (intros ->; by apply Hid, (in_keys _ b0)).
    rewrite !lookup_delete_ne by done. by apply Hin.
  - intros id' Hid'. simpl. destruct (decide (id' = id)) as [->|Hne].
    + rewrite !lookup_delete_eq. split; [done|]. by apply Hout.
    + rewrite !lookup_delete_ne by done. by apply Hout.
Qed.

(** Removing a cached block: from the base store too, unless it is not there
    yet. *)
Lemma rel_take_out n m id b bl x :
  rel n m ((id, b) :: bl) x →
  ∃ b', ((id ∉ _cachedBlocksNotInBaseStore x) ∧
           BlockStore.remove id (_baseBlockStore x) = (Ok true, b') ∨
         id ∈ _cachedBlocksNotInBaseStore x ∧ b' = _baseBlockStore x) ∧
    rel n (delete id m) bl (mkInner b' (_cachedBlocksNotInBaseStore x ∖ {[ _blockId b ]})).
Proof.
  intros (Hn & mb & Hr & Hin & Hout). apply NoDup_cons in Hn as [Hid Hn].
  destruct (Hin id b) as (Hb & Hv & Hl & Hm & _ & Hnot); [by left|]. rewrite ndirty_cons in Hr.
  apply (repr_le _ (n + ndirty bl)) in Hr; [|lia].
  assert (∀ b', repr (n + ndirty bl) b' (delete id mb) →
    rel n (delete id m) bl (mkInner b' (_cachedBlocksNotInBaseStore x ∖ {[ _blockId b ]}))) as Hrel.
  { intros b' Hb'. split; [done|]. exists (delete id mb). rewrite Hb. split_and!; [done| |].
    - intros id' b0 Hb0. assert (id' ≠ id) by (intros ->; by apply Hid, (in_keys _ b0)).
      rewrite !lookup_delete_ne by done. destruct (Hin id' b0) as (? & ? & ? & ? & ? & ?); [by right|].
      split_and!; try done. simpl. rewrite elem_of_difference, elem_of_singleton. tauto.
    - intros id' Hid'. simpl. rewrite elem_of_difference, elem_of_singleton.
      destruct (decide (id' = id)) as [->|Hne]; [rewrite !lookup_delete_eq; tauto|].
      rewrite !lookup_delete_ne by done. destruct (Hout id'); [by apply not_elem_of_cons|]. tauto. }
  destruct (decide (id ∈ _cachedBlocksNotInBaseStore x)) as [Hi|Hi].
  - exists (_baseBlockStore x). split; [by right|]. apply Hrel. by rewrite delete_id by tauto.
  - destruct (remove_spec _ _ _ _ Hv Hr) as (b' & E & Hr'). exists b'. split; [|by apply Hrel].
    left. split; [done|]. rewrite E, bool_decide_true; [done|]. apply not_eq_None_Some. tauto.
Qed.

(** Creating a block in the cache only. *)
Lemma rel_create n m id data bl x :
  rel (S n) m bl x → id ∉ bl.*1 → BlockId.valid id → Z.of_nat (length data) ≤ limit → m !! id = None →
  rel n (<[id := data]> m) ((id, mkBlock id data true) :: bl)
    (mkInner (_baseBlockStore x) ({[ id ]} ∪ _cachedBlocksNotInBaseStore x)).
Proof.
  intros (Hn & mb & Hr & Hin & Hout) Hid Hv Hl Hm. split; [by apply NoDup_cons|].
  destruct (Hout id Hid) as [Hmb Hnot]. rewrite Hm in Hmb. exists mb. rewrite ndirty_cons. simpl. split_and!.
  - by replace (n + S (ndirty bl))%nat with (S n + ndirty bl)%nat by lia.
  - intros id' b0 [[= -> ->]|Hb0]%elem_of_cons.
    + simpl. rewrite lookup_insert_eq, elem_of_union, elem_of_singleton, <- Hmb. split_and!; try done; tauto.
    + assert (id' ≠ id) by (intros ->; by apply Hid, (in_keys _ b0)).
      rewrite lookup_insert_ne by done. destruct (Hin _ _ Hb0) as (? & ? & ? & ? & ? & ?).
      split_and!; try done. simpl. rewrite elem_of_union, elem_of_singleton. tauto.
  - intros id' [Hne ?]%not_elem_of_cons. rewrite lookup_insert_ne by done. destruct (Hout id'); [done|].
    split; [done|]. simpl. rewrite elem_of_union, elem_of_singleton. tauto.
Qed.

(** ** The contract *)
Definition blocks (l : list (bytes * CacheEntry CachedBlock)) : list (bytes * CachedBlock) :=
  (λ p, (p.1, _value p.2)) <$> l.

Definition represents (n : nat) (s : st) (m : gmap bytes bytes) : Prop :=
  ∃ l, QueueMap.represents (Cache._cachedBlocks s.1) l ∧ Z.of_nat (length l) ≤ MAX_ENTRIES ∧
    rel n m (blocks l) s.2.

Lemma blocks_keys l : (blocks l).*1 = l.*1.
Proof. unfold blocks. by rewrite <- list_fmap_compose. Qed.

Lemma blocks_app l id e : blocks (l ++ [(id, e)]) ≡ₚ (id, _value e) :: blocks l.
Proof. unfold blocks. rewrite fmap_app. simpl. by rewrite Permutation_app_comm. Qed.

Lemma blocks_delete l i id e :
  l !! i = Some (id, e) → (id, _value e) :: blocks (delete i l) ≡ₚ blocks l.
Proof.
  intros Hi. unfold blocks. rewrite (delete_Permutation l i (id, e) Hi) at 2. done.
Qed.

(** The state while block [b] of [id] is out of the cache. *)
Definition held (n : nat) (m : gmap bytes bytes) (id : bytes) (b : CachedBlock)
    (l : list (bytes * CacheEntry CachedBlock)) (x : inner Base) : Prop := rel n m ((id, b) :: blocks l) x.

Lemma held_evictable n m id b : Cache.evictable destroy (held n m id b).
Proof.
  intros k e l x H. unfold held in *. simpl in H.
  apply (rel_perm _ _ _ ((k, _value e) :: (id, b) :: blocks l)) in H; [|apply Permutation_swap].
  by apply rel_destroy in H.
Qed.

Lemma held_key n m id b l x : held n m id b l x → id ∉ l.*1.
Proof. intros [Hn _]. simpl in Hn. apply NoDup_cons in Hn as [Hn _]. by rewrite blocks_keys in Hn. Qed.

(** Putting the block back. *)
Lemma push_held n m id b s l :
  QueueMap.represents (Cache._cachedBlocks s.1) l → Z.of_nat (length l) ≤ MAX_ENTRIES → held n m id b l s.2 →
  ∃ s', cache_push id b s = (Ok tt, s') ∧ represents n s' m.
Proof.
  intros Hq Hl Hh.
  destruct (Cache.cache_push_ok destroy MAX_ENTRIES (held n m id b) (held_evictable n m id b) ltac:(done) s l id b Hq Hl Hh)
    as (s' & l' & e & E & He & Hq' & Hl' & Hh'); [intros ??; apply held_key|].
  exists s'. split; [done|]. exists (l' ++ [(id, e)]). split_and!; [done|rewrite length_app; simpl; lia|].
  eapply rel_perm; [symmetry; apply blocks_app|]. by rewrite He.
Qed.

(** [pop] either takes a cached block out or finds none. *)
Lemma pop_cases n m s id :
  represents n s m →
  (∃ b q l, cache_pop id s = (Ok (Some b), (Cache.mk q (Cache.clock s.1), s.2)) ∧ QueueMap.represents q l ∧
     Z.of_nat (length l) < MAX_ENTRIES ∧ held n m id b l s.2) ∨
  (∃ l, cache_pop id s = (Ok None, s) ∧ QueueMap.represents (Cache._cachedBlocks s.1) l ∧
     Z.of_nat (length l) ≤ MAX_ENTRIES ∧ rel n m (blocks l) s.2 ∧ id ∉ (blocks l).*1).
Proof.
  intros (l & Hq & Hl & Hr). destruct (decide (id ∈ l.*1)) as [Hid|Hid].
  - apply QueueMap.in_key in Hid as (i & e & Hi). left.
    destruct (Cache.cache_pop_ok s l i id e Hq Hi) as (q & E & Hq').
    exists (_value e), q, (delete i l). split_and!; [done|done| |].
    + rewrite length_delete by done. apply lookup_lt_Some in Hi. lia.
    + unfold held. by eapply rel_perm; [symmetry; apply blocks_delete|].
  - right. exists l. split_and!; try done; [by apply (Cache.cache_pop_none s l)|by rewrite blocks_keys].
Qed.

Lemma rest_ok {A} (m : M (inner Base) A) (s : st) r x' : m s.2 = (r, x') → rest m s = (r, (s.1, x')).
Proof. intros E. unfold rest, Cache.on_rest, zoom. by rewrite E. Qed.

Lemma held_data n m id b l x : held n m id b l x → m !! id = Some (_data b).
Proof. intros (_ & mb & _ & Hin & _). by destruct (Hin id b) as (_ & _ & _ & Hm & _); [left|]. Qed.

Lemma load_ok n s m id :
  BlockId.valid id → represents n s m → ∃ s', load id s = (Ok (m !! id), s') ∧ represents n s' m.
Proof.
  intros Hid Hr. unfold load, _loadFromCacheOrBaseStore.
  destruct (pop_cases n m s id Hr) as [(b & q & l & E & Hq & Hl & Hh)|(l & E & Hq & Hl & Hrel & Hk)];
    rewrite bind_assoc, (bind_ok _ _ _ _ _ E).
  - destruct (push_held n m id b (Cache.mk q (Cache.clock s.1), s.2) l Hq ltac:(lia) Hh) as (s' & E' & Hr').
    exists s'. unfold mbind, M_bind. csimp. rewrite E'. csimp. by rewrite (held_data _ _ _ _ _ _ Hh).
  - destruct (rel_load _ _ id _ _ Hrel Hk Hid) as (b' & Eb & Hrel').
    rewrite bind_assoc, (bind_ok _ _ _ _ _ (rest_ok _ _ _ _ (caching_base_ok _ _ _ _ Eb))).
    destruct (m !! id) as [d|] eqn:Em; unfold mbind, M_bind; csimp.
    + destruct (push_held n m id (mkBlock id d false) (s.1, mkInner b' (_cachedBlocksNotInBaseStore s.2)) l Hq Hl)
        as (s' & E' & Hr'); [by apply rel_add_clean|].
      exists s'. by rewrite E'.
    + eexists. split; [done|]. by exists l.
Qed.

Lemma store_ok n s m id data :
  BlockId.valid id → Z.of_nat (length data) ≤ limit → represents (S n) s m →
  ∃ s', store id data s = (Ok tt, s') ∧ represents n s' (<[id := data]> m).
Proof.
  intros Hid Hd Hr. unfold store.
  destruct (pop_cases (S n) m s id Hr) as [(b & q & l & E & Hq & Hl & Hh)|(l & E & Hq & Hl & Hrel & Hk)];
    rewrite (bind_ok _ _ _ _ _ E).
  - apply (push_held _ _ _ _ (Cache.mk q (Cache.clock s.1), s.2) l Hq ltac:(lia)). by apply rel_write.
  - destruct (rel_store n m id data (blocks l) s.2) as (b1 & Eb1 & Hrel'); [done..|].
    unfold mbind, M_bind, on_throw. rewrite (rest_ok _ _ _ _ (caching_base_ok _ _ _ _ Eb1)).
    apply (push_held n _ id (mkBlock id data false) (s.1, mkInner b1 (_cachedBlocksNotInBaseStore s.2)) l Hq Hl).
    apply rel_add_clean; [done|done|done|]. by rewrite lookup_insert_eq.
Qed.

Lemma tryCreate_ok n s m id data :
  BlockId.valid id → Z.of_nat (length data) ≤ limit → m !! id = None → represents (S n) s m →
  ∃ s', tryCreate id data s = (Ok true, s') ∧ represents n s' (<[id := data]> m).
Proof.
  intros Hid Hd Hf Hr. unfold tryCreate.
  destruct (pop_cases (S n) m s id Hr) as [(b & q & l & E & Hq & Hl & Hh)|(l & E & Hq & Hl & Hrel & Hk)];
    rewrite (bind_ok _ _ _ _ _ E).
  - apply held_data in Hh. congruence.
  - destruct (Cache.cache_push_ok destroy MAX_ENTRIES (λ l x, rel (S n) m (blocks l) x ∧ id ∉ l.*1))
      with (s := s) (l := l) (key := id) (value := mkBlock id data true)
      as (s' & l' & e & E' & He & Hq' & Hl' & Hrel' & Hk').
    + intros k e l0 x [H Hk0]. simpl in H. destruct (rel_destroy _ _ _ _ _ _ H) as (x' & Ex & Hx).
      exists x'. split_and!; [done|done|]. intros Hin. apply Hk0. by right.
    + done.
    + done.
    + done.
    + split; [done|]. by rewrite <- blocks_keys.
    + by intros ?? [].
    + eexists. split.
      * unfold mbind, M_bind, cache_push. rewrite E'. csimp. done.
      * exists (l' ++ [(id, e)]). split_and!; [done|rewrite length_app; simpl; lia|].
        eapply rel_perm; [symmetry; apply blocks_app|]. rewrite He. simpl.
        apply rel_create; try done. by rewrite blocks_keys.
Qed.

(** [cached s id]: the cache holds the block [id]. Only then [tryCreate]
    notices that the block exists. *)
Definition cached (s : st) (id : bytes) : Prop := is_Some (QueueMap._entries (Cache._cachedBlocks s.1) !! id).
Lemma tryCreate_cached n s m id data :
  cached s id → represents n s m → ∃ s', tryCreate id data s = (Ok false, s') ∧ represents n s' m.
Proof.
  intros Hc Hr. unfold tryCreate.
  destruct (pop_cases n m s id Hr) as [(b & q & l & E & Hq & Hl & Hh)|(l & E & Hq & Hl & Hrel & Hk)];
    rewrite (bind_ok _ _ _ _ _ E).
  - destruct (push_held n m id b (Cache.mk q (Cache.clock s.1), s.2) l Hq ltac:(lia) Hh) as (s' & E' & Hr').
    exists s'. by rewrite (bind_ok _ _ _ _ _ E').
  - rewrite blocks_keys in Hk. destruct (QueueMap.represents_entry _ _ id Hq) as [(i & v & Hi & _)|[_ Hn]].
    + destruct Hk. apply list_elem_of_fmap. exists (id, v). split; [done|]. by eapply list_elem_of_lookup_2.
    + unfold cached in Hc. rewrite Hn in Hc. by destruct Hc.
Qed.

Lemma remove_ok n s m id :
  BlockId.valid id → represents n s m →
  ∃ s', remove id s = (Ok (bool_decide (is_Some (m !! id))), s') ∧ represents n s' (delete id m).
Proof.
  intros Hid Hr. unfold remove.
  destruct (pop_cases n m s id Hr) as [(b & q & l & E & Hq & Hl & Hh)|(l & E & Hq & Hl & Hrel & Hk)];
    rewrite (bind_ok _ _ _ _ _ E).
  - rewrite (held_data _ _ _ _ _ _ Hh), bool_decide_true by (by eexists).
    destruct (rel_take_out _ _ _ _ _ _ Hh) as (b' & E1 & Hrel').
    unfold mbind, M_bind, on_throw. csimp.
    destruct E1 as [[Hn E1]|[Hn ->]]; simpl.
    + rewrite decide_True by done.
      rewrite (rest_ok _ (Cache.mk q (Cache.clock s.1), s.2) _ _ (caching_base_ok _ _ _ _ E1)). simpl.
      eexists. split; [done|]. exists l. split_and!; [done|lia|]. done.
    + rewrite decide_False by tauto. simpl. eexists. split; [done|]. exists l. split_and!; [done|lia|]. done.
  - destruct (rel_remove n m id (blocks l) s.2) as (b' & Eb & Hrel'); [done..|].
    eexists. split; [by rewrite (rest_ok _ _ _ _ (caching_base_ok _ _ _ _ Eb))|]. by exists l.
Qed.

(** The blocks of the store: those of the base store, and the cached ones
    that are not there. *)
Lemma rel_dom n m bl x :
  rel n m bl x → ∃ mb, repr (n + ndirty bl) (_baseBlockStore x) mb ∧
    dom m = _cachedBlocksNotInBaseStore x ∪ dom mb ∧ _cachedBlocksNotInBaseStore x ## dom mb ∧
    (∀ b', repr (n + ndirty bl) b' mb → rel n m bl (mkInner b' (_cachedBlocksNotInBaseStore x))) ∧
    (∀ id d, m !! id = Some d → BlockId.valid id ∧ Z.of_nat (length d) ≤ limit).
Proof.
  intros (Hn & mb & Hr & Hin & Hout). exists mb. split; [done|].
  assert (∀ id, (id ∈ dom m ↔ id ∈ _cachedBlocksNotInBaseStore x ∨ id ∈ dom mb) ∧
                (id ∈ _cachedBlocksNotInBaseStore x → id ∉ dom mb)) as H.
  { intros id. rewrite !elem_of_dom. destruct (decide (id ∈ bl.*1)) as [Hid|Hid].
    - apply list_elem_of_fmap in Hid as ([id' b] & -> & Hb). simpl.
      destruct (Hin _ _ Hb) as (_ & _ & _ & -> & _ & ->). destruct (mb !! id').
      + split; [split; eauto|done].
      + split; [split; [by left|by eexists]|by intros _ []].
    - destruct (Hout id Hid) as [-> Hnot]. tauto. }
  split_and!.
  - apply set_eq. intros id. rewrite elem_of_union. apply H.
  - intros id H1 H2. by apply (H id).
  - intros b' Hb'. split; [done|]. by exists mb.
  - intros id d Hd. destruct (decide (id ∈ bl.*1)) as [Hid|Hid].
    + apply list_elem_of_fmap in Hid as ([id' b] & -> & Hb). simpl in Hd.
      destruct (Hin _ _ Hb) as (_ & Hv & Hl & Hm & _). rewrite Hm in Hd. by injection Hd as <-.
    + rewrite (proj1 (Hout id Hid)) in Hd. split; [by eapply repr_ids; [exact Hr|eexists]|by eapply repr_size].
Qed.

#[export] Program Instance spec : BlockStore2Spec st := {
  BlockStore.repr := represents; BlockStore.maxSize := limit; BlockStore.refuses := cached }.
Next Obligation. intros. by apply load_ok. Qed.
Next Obligation. intros. by apply store_ok. Qed.
Next Obligation. intros. by apply tryCreate_ok. Qed.
Next Obligation. intros. by apply tryCreate_cached. Qed.
Next Obligation. intros. by apply remove_ok. Qed.
Next Obligation.
  intros n s m (l & Hq & Hl & Hrel). destruct (rel_dom _ _ _ _ Hrel) as (mb & Hr & Hd & Hdis & Hb' & Hok).
  simpl. unfold numBlocks. rewrite (numBlocks_spec _ _ _ Hr), <- (size_dom m), Hd, size_union, size_dom by done.
  unfold u64. rewrite Zplus_mod_idemp_l. f_equal. lia.
Qed.
Next Obligation.
  intros n s m (l & Hq & Hl & Hrel). destruct (rel_dom _ _ _ _ Hrel) as (mb & Hr & Hd & Hdis & Hb' & Hok).
  destruct (forEachBlock_spec _ _ _ Hr) as (ids & b' & E & Hr' & Hp).
  exists (elements (_cachedBlocksNotInBaseStore s.2) ++ ids). eexists. split; [|split].
  - simpl. unfold forEachBlock, mbind, M_bind. csimp. by rewrite (rest_ok _ _ _ _ (caching_base_ok _ _ _ _ E)).
  - exists l. split_and!; [done|done|]. by apply Hb'.
  - rewrite Hp, !keys_dom, Hd. by rewrite elements_disj_union.
Qed.
Next Obligation.
  intros n s m id (l & Hq & Hl & Hrel) [d Hd]. destruct (rel_dom _ _ _ _ Hrel) as (mb & _ & _ & _ & _ & Hok).
  by destruct (Hok _ _ Hd).
Qed.
Next Obligation.
  intros n s m id d (l & Hq & Hl & Hrel) Hd. destruct (rel_dom _ _ _ _ Hrel) as (mb & _ & _ & _ & _ & Hok).
  by destruct (Hok _ _ Hd).
Qed.
Next Obligation.
  intros n n' s m Hn (l & Hq & Hl & Hrel). exists l. split_and!; [done|done|]. by eapply rel_le.
Qed.

Lemma caching_represents_new n b m : repr n b m → represents n (new b) m.
Proof.
  intros Hr. exists []. split_and!; [apply QueueMap.represents_new|done|].
  split; [constructor|]. exists m. simpl. unfold ndirty. simpl. rewrite Nat.add_0_r. split_and!; [done| |].
  - intros id d []%elem_of_nil.
  - intros id _. split; [done|]. apply not_elem_of_empty.
Qed.

(** With nothing cached, the base store is the whole store. *)
Lemma rel_nil n m x : rel n m [] x → repr n (_baseBlockStore x) m ∧ _cachedBlocksNotInBaseStore x = ∅.
Proof.
  intros (_ & mb & Hr & _ & Hout). simpl in Hout. unfold ndirty in Hr. simpl in Hr. rewrite Nat.add_0_r in Hr. split.
  - assert (m = mb) as ->; [|done]. apply map_eq. intros id. apply Hout, not_elem_of_nil.
  - apply set_eq. intros id. split; [|by intros ?%elem_of_empty].
    intros Hi. by destruct (Hout id) as [_ []]; [apply not_elem_of_nil|].
Qed.

Lemma caching_flush_ok n s m :
  represents n s m → ∃ s', flush s = (Ok tt, s') ∧ rel n m [] s'.2 ∧ Cache.size s' = 0.
Proof.
  intros (l & Hq & Hl & Hrel).
  destruct (Cache.cache_flush_ok destroy MAX_ENTRIES (λ l x, rel n m (blocks l) x)) with (s := s) (l := l)
    as (s' & E & Hq' & Hrel'); [|done|done|done|done|].
  { intros k e l0 x H. by apply rel_destroy in H. }
  exists s'. split_and!; try done. by rewrite (Cache.size_ok _ [] Hq').
Qed.

End store.

(** A block that is only in the base store. *)
Definition sample_id : bytes := replicate 16 x01.
Definition sample_store : Cache.t bytes CachedBlock * inner InMemoryBlockStore2.t :=
  new (InMemoryBlockStore2.mk {[ sample_id := [x0a] ]} 0).

(** [tryCreate] does not look into the base store. For an id whose block
    is only there it claims success instead of returning false, the old
    content is gone, the block is counted twice, and flushing the cache
    overwrites it in the base store. *)
Theorem tryCreate_overwrites_base_block :
  let '(created, s1) := tryCreate sample_id [x0b] sample_store in
  (load sample_id sample_store).1 = Ok (Some [x0a]) ∧
  created = Ok true ∧
  (load sample_id s1).1 = Ok (Some [x0b]) ∧
  numBlocks s1 = 2 ∧
  InMemoryBlockStore2._blocks (_baseBlockStore (flush s1).2.2) !! sample_id = Some [x0b].
Proof. vm_compute. by split_and!. Qed.
End CachingBlockStore2.
#[export] Existing Instance CachingBlockStore2.ops.
#[export] Existing Instance CachingBlockStore2.spec.
