(* ===== verification/Stack.v ===== *)
(** * The block store stack of a file system
      (cryfs/impl/filesystem/CryDevice.cpp: [CreateBlobStore],
      [CreateIntegrityEncryptedBlockStore])

    A mounted file system stores its blocks through a cache, the integrity
    layer and the encryption layer: [Caching (Integrity (Encrypted base))].
    Because every layer implements the contract over any base that does, the
    whole stack does; it is a finite map from block ids to blocks. *)
From S2P Require Import Prelude Serialization BlockStore Cipher Encrypted KnownBlockVersions Integrity QueueMap Cache Caching.
From Stdlib Require Import Lia ZArith.

Section stack.
Context {Base Key Rng : Type} `{!BlockStore2 Base} `{!BlockStore2Spec Base} `{!Cipher Key Rng} `{!CipherSpec Key Rng}.

Abbreviation integrity_t := (IntegrityBlockStore2.t (EncryptedBlockStore2.t Base Key Rng)).
Abbreviation stack_t := (Cache.t bytes CachingBlockStore2.CachedBlock * CachingBlockStore2.inner integrity_t)%type.

(** [CreateIntegrityEncryptedBlockStore] for a file system that needs no
    migration. *)
Definition CreateIntegrityEncryptedBlockStore (blockStore : Base) (encKey : Key) (rng : Rng)
    (integrityFile : option bytes) (myClientId : Z)
    (allowIntegrityViolations missingBlockIsIntegrityViolation : bool) : result integrity_t :=
  IntegrityBlockStore2.new (EncryptedBlockStore2.mk blockStore encKey rng) integrityFile myClientId
    allowIntegrityViolations missingBlockIsIntegrityViolation.

(** The block store [CreateBlobStore] puts under the blob store. *)
Definition CreateBlockStore (blockStore : Base) (encKey : Key) (rng : Rng) (integrityFile : option bytes)
    (myClientId : Z) (allowIntegrityViolations missingBlockIsIntegrityViolation : bool) : result stack_t :=
  i ← CreateIntegrityEncryptedBlockStore blockStore encKey rng integrityFile myClientId
        allowIntegrityViolations missingBlockIsIntegrityViolation ;
  mret (CachingBlockStore2.new i).

Lemma integrity_represents_new n (b : Base) key rng client allow missing :
  repr n b ∅ → good_key key → 0 < client < 2 ^ 32 → Z.of_nat n < 2 ^ 64 - 1 →
  repr n (IntegrityBlockStore2.mk (EncryptedBlockStore2.mk b key rng) (KnownBlockVersions.init client) allow missing 0) ∅.
Proof.
  intros Hr Hk Hc Hn. simpl. split_and!; simpl.
  - split_and!; simpl; [done|lia|lia|split; apply map_Forall_empty|done|]. intros id. unfold KnownBlockVersions.known. simpl. rewrite lookup_empty. simpl. lia.
  - exists ∅. split; [|apply map_rel_empty]. split; [done|]. exists ∅. split; [done|]. apply map_rel_empty.
  - intros id _. unfold KnownBlockVersions.blockShouldExist. simpl. by rewrite lookup_empty.
Qed.

(** C5. A new file system's block store is a map. For any base store and
    cipher that meet their contracts, creating the stack over an empty base
    store succeeds, and any sequence of block operations (stores, creations,
    removals, loads) with ids of 16 bytes and data within the size limit, in
    which a creation is of an id that is not in use or of one whose block is
    in the cache, returns exactly what the same operations on a finite map
    return: no operation throws, every loaded block is the one last stored, and
    a creation of a cached id returns false and changes nothing. (Creating an
    id in use whose block is not cached overwrites it:
    [tryCreate_overwrites_base_block].) *)
Theorem stack_refines_map (os : list block_op) (b : Base) key rng client allow missing :
  repr (length os) b ∅ → good_key key → 0 < client < 2 ^ 32 → Z.of_nat (length os) < 2 ^ 64 - 1 →
  ∃ s, CreateBlockStore b key rng None client allow missing = Ok s ∧
    (ops_ok CachingBlockStore2.cached (maxSize (S := stack_t)) os s ∅ →
     ∃ s', run_ops os s = (Ok (model_ops os ∅).1, s') ∧ repr 0 s' (model_ops os ∅).2).
Proof.
  intros Hr Hk Hc Hn. eexists. split; [|intros Hok; apply (run_ops_spec os 0); [|exact Hok]].
  2: { simpl. apply CachingBlockStore2.caching_represents_new. by apply integrity_represents_new. }
  - unfold CreateBlockStore, CreateIntegrityEncryptedBlockStore, IntegrityBlockStore2.new,
      KnownBlockVersions.new, KnownBlockVersions.CLIENT_ID_FOR_DELETED_BLOCK.
    rewrite assert_ok by (apply bool_decide_true; lia). done.
Qed.

(** C6. Unmounting and mounting again loses nothing. From any state of the
    stack that stands for a map, flushing the cache and destructing the
    store (which saves the version table) leaves a base store and a state
    file from which [CreateBlockStore] builds a stack that stands for the
    same map. *)
Theorem remount_preserves_blocks (n : nat) (s : stack_t) (m : gmap bytes bytes) allow missing :
  repr n s m →
  ∃ s', CachingBlockStore2.flush s = (Ok tt, s') ∧
    let i := CachingBlockStore2._baseBlockStore s'.2 in
    let e := IntegrityBlockStore2._baseBlockStore i in
    let k := IntegrityBlockStore2._knownBlockVersions i in
    Z.of_nat (KnownBlockVersions.state_file_size k) < 2 ^ 63 →
    ∃ file s2, KnownBlockVersions.destroy k = Some file ∧
      CreateBlockStore (EncryptedBlockStore2._baseBlockStore e) (EncryptedBlockStore2._encKey e)
        (EncryptedBlockStore2.rng e) (Some file) (KnownBlockVersions._myClientId k) allow missing = Ok s2 ∧
      repr n s2 m.
Proof.
  intros Hr. destruct (CachingBlockStore2.caching_flush_ok n s m Hr) as (s' & E & Hrel' & _).
  destruct (CachingBlockStore2.rel_nil _ _ _ Hrel') as [Hr' _].
  exists s'. split; [done|]. intros i e k Hsize. pose proof Hr' as ((Hva & Hmy & Hwt & Hfl & _) & _).
  destruct (KnownBlockVersions.state_file_ok k Hwt Hva) as (file & Ef & En); [intros Hz; unfold k, i in Hz; lia|exact Hsize|].
  eexists file, _. split; [done|]. split.
  - unfold CreateBlockStore, CreateIntegrityEncryptedBlockStore, IntegrityBlockStore2.new. rewrite En. csimp.
    unfold KnownBlockVersions.integrityViolationOnPreviousRun. simpl. unfold k, i. by rewrite Hfl.
  - apply CachingBlockStore2.caching_represents_new. destruct Hr' as (Hleft & (mb & Hmb & Hm) & Hex).
    split_and!; [exact Hleft| |exact Hex]. exists mb. split; [|exact Hm].
    cbn [IntegrityBlockStore2._baseBlockStore]. rewrite EncryptedBlockStore2.eta. exact Hmb.
Qed.
End stack.

(** ** A concrete stack: in-memory base store, the fake cipher, a counter *)
Definition sample_base : InMemoryBlockStore2.t := InMemoryBlockStore2.mk ∅ 0.
Definition sample_key : FakeAuthenticatedCipher.FakeKey := FakeAuthenticatedCipher.mkKey 5.
Definition bid (n : Z) : bytes := replicate 15 x00 ++ [byte_of n].

Definition sample_ops : list block_op :=
  [OpCreate (bid 1) [x01; x02]; OpStore (bid 2) [x03]; OpLoad (bid 1); OpStore (bid 1) [x04]; OpRemove (bid 2);
   OpLoad (bid 1); OpLoad (bid 2); OpCreate (bid 1) [x05]; OpLoad (bid 1)].

Lemma sample_base_ok n : repr n sample_base ∅.
Proof. split; [done|]. apply map_Forall_empty. Qed.


Abbreviation sample_stack_t := (Cache.t bytes CachingBlockStore2.CachedBlock * CachingBlockStore2.inner
  (IntegrityBlockStore2.t (EncryptedBlockStore2.t InMemoryBlockStore2.t FakeAuthenticatedCipher.FakeKey Z)))%type.

Definition sample_stack : sample_stack_t :=
  CachingBlockStore2.new (IntegrityBlockStore2.mk (EncryptedBlockStore2.mk sample_base sample_key 0)
    (KnownBlockVersions.init 7) false true 0).

(** The operations of the witness respect the interface; the second creation
    is of a block that is in the cache. *)
Lemma sample_ops_ok : ops_ok CachingBlockStore2.cached (maxSize (S := sample_stack_t)) sample_ops sample_stack ∅.
Proof.
  unfold sample_ops.
  repeat (split; [split; [by repeat split; vm_compute|first [exact Logic.I|by intros [? [=]]|intros _; vm_compute; by eexists]]|]).
  done.
Qed.

Lemma stack_refines_map_witness :
  ∃ s' : sample_stack_t, CreateBlockStore sample_base sample_key 0 None 7 false true = Ok sample_stack ∧
    run_ops sample_ops sample_stack = (Ok (model_ops sample_ops ∅).1, s') ∧ repr 0 s' (model_ops sample_ops ∅).2.
Proof.
  destruct (stack_refines_map sample_ops sample_base sample_key 0 7 false true) as (s & E & H).
  - apply sample_base_ok.
  - exact Logic.I.
  - lia.
  - simpl. lia.
  - assert (CreateBlockStore sample_base sample_key 0 None 7 false true = Ok sample_stack) as E' by reflexivity.
    rewrite E' in E. injection E as <-. destruct (H sample_ops_ok) as (s' & H'). exists s'. split; [exact E'|exact H'].
Defined.

Lemma sample_stack_ok n : Z.of_nat n < 2 ^ 64 - 1 → repr n sample_stack ∅.
Proof.
  intros Hn. apply CachingBlockStore2.caching_represents_new, integrity_represents_new; [apply sample_base_ok|exact Logic.I|lia|done].
Qed.

Lemma remount_preserves_blocks_witness :
  ∃ (s s' : sample_stack_t) (m : gmap bytes bytes),
    run_ops sample_ops sample_stack = (Ok (model_ops sample_ops ∅).1, s) ∧ m !! bid 1 = Some [x04] ∧
    CachingBlockStore2.flush s = (Ok tt, s') ∧
    let i := CachingBlockStore2._baseBlockStore s'.2 in
    let e := IntegrityBlockStore2._baseBlockStore i in
    let k := IntegrityBlockStore2._knownBlockVersions i in
    Z.of_nat (KnownBlockVersions.state_file_size k) < 2 ^ 63 →
    ∃ file (s2 : sample_stack_t), KnownBlockVersions.destroy k = Some file ∧
      CreateBlockStore (EncryptedBlockStore2._baseBlockStore e) (EncryptedBlockStore2._encKey e)
        (EncryptedBlockStore2.rng e) (Some file) (KnownBlockVersions._myClientId k) false true = Ok s2 ∧
      repr 5 s2 m.
Proof.
  destruct (run_ops_spec sample_ops 5 sample_stack ∅) as (s & E & Hr).
  { apply sample_stack_ok. simpl. lia. }
  { exact sample_ops_ok. }
  destruct (remount_preserves_blocks 5 s (model_ops sample_ops ∅).2 false true Hr) as (s' & Ef & H).
  exists s, s', (model_ops sample_ops ∅).2. split; [exact E|]. split; [vm_compute; reflexivity|]. split; [exact Ef|exact H].
Defined.
