(* ===== verification/Nodes.v ===== *)
(** * Tree nodes in blocks (blobstore/implementations/onblocks/datanodestore)

    A blob is a tree of nodes, one node per block: leaves hold data, inner
    nodes the ids of their children. This file holds the layout of a node
    block and the operations on nodes.

    A node object is a handle on its block. The block store below hands out
    one [Block] object per id (ParallelAccessBlockStore) and writes it back
    when the last handle is gone, so the state is one map from block ids to
    the current block contents, shared by all handles, and a handle is the
    block's id. [ids] are the ids [createBlockId] will return, in order;
    [ext] is state of the operation that runs (a target buffer, flags). *)
From S2P Require Import Prelude Serialization.
From Stdlib Require Import Lia ZArith.

Record store (X : Type) := mkStore { blocks : gmap bytes bytes; ids : list bytes; ext : X }.
Arguments mkStore {X}.
Arguments blocks {X}.
Arguments ids {X}.
Arguments ext {X}.

Section store_ops.
Context {X : Type}.
Abbreviation St := (store X).

Definition get_ext : M St X := λ s, (Ok (ext s), s).
Definition set_ext (f : X → X) : M St unit := λ s, (Ok tt, mkStore (blocks s) (ids s) (f (ext s))).

Definition update_blocks (f : gmap bytes bytes → gmap bytes bytes) : M St unit := λ s,
  (Ok tt, mkStore (f (blocks s)) (ids s) (ext s)).

(** ** The blocks (blockstore/interface/Block.h, BlockStore.h) *)

(** [block->data()], [block->size()]. *)
Definition block_data (id : bytes) : M St bytes := λ s,
  match blocks s !! id with
  | Some b => (Ok b, s)
  | None => (Throw UndefinedBehaviour, s)
  end.
Definition block_size (id : bytes) : M St Z := b ← block_data id ; mret (Z.of_nat (length b)).

(** [Block::write(source, offset, count)] as LowToHighLevelBlock implements
    it; [offset + count] is computed in 64 bits. *)
Definition block_write (id source : bytes) (offset : Z) : M St unit :=
  b ← block_data id ;
  ASSERT (bool_decide (offset ≤ Z.of_nat (length b)) &&
          bool_decide (u64 (offset + Z.of_nat (length source)) ≤ Z.of_nat (length b))) "Write outside of valid area" ;;
  update_blocks (<[id := splice (Z.to_nat offset) source b]>).

Definition block_load (id : bytes) : M St (option bytes) := λ s,
  (Ok (match blocks s !! id with Some _ => Some id | None => None end), s).

Definition block_overwrite (id data : bytes) : M St bytes := λ s,
  (Ok id, mkStore (<[id := data]> (blocks s)) (ids s) (ext s)).

(** [BlockStore::remove] throws when the block does not exist. *)
Definition block_remove (id : bytes) : M St unit := λ s,
  match blocks s !! id with
  | Some _ => (Ok tt, mkStore (delete id (blocks s)) (ids s) (ext s))
  | None => (Throw (RuntimeError "Couldn't delete block"), s)
  end.

(** [BlockStore::create]: draws ids until one is not in use. The model stops
    with an error value when the given ids are used up. *)
Fixpoint create_from (candidates : list bytes) (data : bytes) (s : St) : result bytes * St :=
  match candidates with
  | [] => (Throw (RuntimeError "no more block ids"), mkStore (blocks s) [] (ext s))
  | id :: candidates' =>
      match blocks s !! id with
      | Some _ => create_from candidates' data s
      | None => (Ok id, mkStore (<[id := data]> (blocks s)) candidates' (ext s))
      end
  end.
Definition block_create (data : bytes) : M St bytes := λ s, create_from (ids s) data s.

(** BlockStoreUtils.cpp. *)
Definition copyToNewBlock (source : bytes) : M St bytes := d ← block_data source ; block_create d.
Definition copyTo (target source : bytes) : M St unit :=
  t ← block_size target ; d ← block_data source ;
  ASSERT (bool_decide (t = Z.of_nat (length d))) "Can't copy block data when blocks have different sizes" ;;
  block_write target d 0.
Definition fillWithZeroes (target : bytes) : M St unit :=
  size ← block_size target ; block_write target (Data.FillWithZeroes (Z.to_nat size)) 0.
End store_ops.

(** ** DataNodeLayout *)
Module DataNodeLayout.
Record t := mk { _blocksizeBytes : Z }.
Definition HEADERSIZE_BYTES : Z := 8.
Definition FORMAT_VERSION_OFFSET_BYTES : Z := 0.
Definition DEPTH_OFFSET_BYTES : Z := 3.
Definition SIZE_OFFSET_BYTES : Z := 4.

(** The constructor; the block size is kept in 32 bits. *)
Definition new (blocksizeBytes : Z) : result t :=
  if decide (HEADERSIZE_BYTES + 2 * 16 ≤ blocksizeBytes) then mret (mk (u32 blocksizeBytes))
  else mthrow (LogicError "Blocksize too small, not enough space to store two children in an inner node").

Definition blocksizeBytes (l : t) : Z := _blocksizeBytes l.
Definition datasizeBytes (l : t) : Z := u32 (_blocksizeBytes l - HEADERSIZE_BYTES).
Definition maxChildrenPerInnerNode (l : t) : Z := datasizeBytes l / 16.
Definition maxBytesPerLeaf (l : t) : Z := datasizeBytes l.
End DataNodeLayout.

(** ** DataNodeView, DataNode, DataInnerNode, DataLeafNode, DataNodeStore

    [layout] is the store's layout; [uninit] is what the byte of a fresh
    block that no code initialises happens to hold. *)
Section nodes.
Context {X : Type} (layout : DataNodeLayout.t) (uninit : byte).
Abbreviation St := (store X).
Import DataNodeLayout.

Definition FORMAT_VERSION_HEADER : Z := 0.
Definition MAX_DEPTH : Z := 10.

(** [serialize_]: the header's third byte is not written. *)
Definition serialize_ (formatVersion depth size : Z) (data : bytes) : bytes :=
  serialize 2 formatVersion ++ [uninit] ++ serialize 1 depth ++ serialize 4 size ++
  data ++ replicate (Z.to_nat (datasizeBytes layout) - length data) x00.

Definition view_create (formatVersion depth size : Z) (data : bytes) : M St bytes :=
  ASSERT (bool_decide (Z.of_nat (length data) ≤ datasizeBytes layout)) "Data is too large for node" ;;
  let serialized := serialize_ formatVersion depth size data in
  ASSERT (bool_decide (Z.of_nat (length serialized) = blocksizeBytes layout)) "Wrong block size" ;;
  block_create serialized.

Definition view_initialize (block : bytes) (formatVersion depth size : Z) (data : bytes) : M St bytes :=
  blockSize ← block_size block ;
  l ← lift (DataNodeLayout.new blockSize) ;
  ASSERT (bool_decide (Z.of_nat (length data) ≤ datasizeBytes l)) "Data is too large for node" ;;
  let serialized := serialize_ formatVersion depth size data in
  ASSERT (bool_decide (Z.of_nat (length serialized) = blockSize)) "Block has wrong size" ;;
  block_write block serialized 0 ;;
  mret block.

Definition view_overwrite (formatVersion depth size : Z) (blockId data : bytes) : M St bytes :=
  ASSERT (bool_decide (Z.of_nat (length data) ≤ datasizeBytes layout)) "Data is too large for node" ;;
  block_overwrite blockId (serialize_ formatVersion depth size data).

Definition FormatVersion (node : bytes) : M St Z :=
  b ← block_data node ; lift (deserializeWithOffset 2 b (Z.to_nat FORMAT_VERSION_OFFSET_BYTES)).
Definition Depth (node : bytes) : M St Z :=
  b ← block_data node ; lift (deserializeWithOffset 1 b (Z.to_nat DEPTH_OFFSET_BYTES)).
Definition Size (node : bytes) : M St Z :=
  b ← block_data node ; lift (deserializeWithOffset 4 b (Z.to_nat SIZE_OFFSET_BYTES)).
Definition setFormatVersion (node : bytes) (value : Z) : M St unit :=
  block_write node (serialize 2 value) FORMAT_VERSION_OFFSET_BYTES.
Definition setDepth (node : bytes) (value : Z) : M St unit := block_write node (serialize 1 value) DEPTH_OFFSET_BYTES.
Definition setSize (node : bytes) (value : Z) : M St unit := block_write node (serialize 4 value) SIZE_OFFSET_BYTES.
Definition view_data (node : bytes) : M St bytes :=
  b ← block_data node ; mret (drop (Z.to_nat HEADERSIZE_BYTES) b).
Definition view_write (node source : bytes) (offset : Z) : M St unit :=
  block_write node source (u64 (offset + HEADERSIZE_BYTES)).
Definition view_layout (node : bytes) : M St DataNodeLayout.t :=
  size ← block_size node ; lift (DataNodeLayout.new size).

(** ** DataLeafNode.cpp *)
Definition leaf_numBytes (leaf : bytes) : M St Z := Size leaf.
Definition maxStoreableBytes (leaf : bytes) : M St Z := l ← view_layout leaf ; mret (maxBytesPerLeaf l).

(** The constructor's checks. *)
Definition DataLeafNode (view : bytes) : M St bytes :=
  depth ← Depth view ;
  ASSERT (bool_decide (depth = 0)) "Leaf node must have depth 0. Is it an inner node instead?" ;;
  numBytes ← leaf_numBytes view ; maxBytes ← maxStoreableBytes view ;
  ASSERT (bool_decide (numBytes ≤ maxBytes)) "Leaf says it stores more bytes than it has space for" ;;
  version ← FormatVersion view ;
  if decide (version ≠ FORMAT_VERSION_HEADER)
  then mthrow (RuntimeError "This node format is not supported. Was it created with a newer version of CryFS?")
  else mret view.

Definition leaf_CreateNewNode (data : bytes) : M St bytes :=
  ASSERT (bool_decide (Z.of_nat (length data) ≤ maxBytesPerLeaf layout)) "Data passed in is too large for one leaf." ;;
  view ← view_create FORMAT_VERSION_HEADER 0 (u32 (Z.of_nat (length data))) data ;
  DataLeafNode view.

Definition leaf_OverwriteNode (blockId data : bytes) : M St bytes :=
  ASSERT (bool_decide (Z.of_nat (length data) = maxBytesPerLeaf layout)) "Data passed in is too large for one leaf." ;;
  view ← view_overwrite FORMAT_VERSION_HEADER 0 (u32 (Z.of_nat (length data))) blockId data ;
  DataLeafNode view.

Definition leaf_read (leaf : bytes) (offset size : Z) : M St bytes :=
  n ← Size leaf ;
  ASSERT (bool_decide (offset ≤ n) && bool_decide (u64 (offset + size) ≤ n)) "Read out of valid area" ;;
  d ← view_data leaf ;
  lift (Data.memcpy_from d (Z.to_nat offset) (Z.to_nat size)).

Definition leaf_write (leaf source : bytes) (offset : Z) : M St unit :=
  n ← Size leaf ;
  ASSERT (bool_decide (offset ≤ n) && bool_decide (u64 (offset + Z.of_nat (length source)) ≤ n)) "Write out of valid area" ;;
  view_write leaf source offset.

Definition fillDataWithZeroesFromTo (leaf : bytes) (begin end_ : Z) : M St unit :=
  view_write leaf (Data.FillWithZeroes (Z.to_nat (end_ - begin))) begin.

Definition leaf_resize (leaf : bytes) (new_size : Z) : M St unit :=
  maxBytes ← maxStoreableBytes leaf ;
  ASSERT (bool_decide (new_size ≤ maxBytes)) "Trying to resize to a size larger than the maximal size" ;;
  old_size ← Size leaf ;
  (if decide (new_size < old_size) then fillDataWithZeroesFromTo leaf new_size old_size else mret tt) ;;
  setSize leaf new_size.

(** ** DataInnerNode.cpp *)
Definition DataInnerNode (view : bytes) : M St bytes :=
  depth ← Depth view ;
  ASSERT (bool_decide (0 < depth)) "Inner node can't have depth 0. Is this a leaf maybe?" ;;
  version ← FormatVersion view ;
  if decide (version ≠ FORMAT_VERSION_HEADER)
  then mthrow (RuntimeError "This node format is not supported. Was it created with a newer version of CryFS?")
  else mret view.

Definition _serializeChildren (children : list bytes) : bytes := concat children.

Definition inner_InitializeNewNode (block : bytes) (depth : Z) (children : list bytes) : M St bytes :=
  ASSERT (bool_decide (1 ≤ length children)%nat) "An inner node must have at least one child" ;;
  view ← view_initialize block FORMAT_VERSION_HEADER depth (u32 (Z.of_nat (length children))) (_serializeChildren children) ;
  DataInnerNode view.

Definition inner_CreateNewNode (depth : Z) (children : list bytes) : M St bytes :=
  ASSERT (bool_decide (1 ≤ length children)%nat) "An inner node must have at least one child" ;;
  view ← view_create FORMAT_VERSION_HEADER depth (u32 (Z.of_nat (length children))) (_serializeChildren children) ;
  DataInnerNode view.

Definition numChildren (inner : bytes) : M St Z := Size inner.

Definition readChild (inner : bytes) (index : Z) : M St bytes :=
  n ← numChildren inner ;
  ASSERT (bool_decide (index < n)) "Accessing child out of range" ;;
  d ← view_data inner ;
  lift (BlockId.FromBinary (drop (Z.to_nat (index * 16)) d)).

Definition _writeChild (inner : bytes) (index : Z) (child : bytes) : M St unit :=
  n ← numChildren inner ;
  ASSERT (bool_decide (index < n)) "Accessing child out of range" ;;
  view_write inner child (index * 16).

(** [numChildren() - 1] in 32 bits. *)
Definition readLastChild (inner : bytes) : M St bytes := n ← numChildren inner ; readChild inner (u32 (n - 1)).
Definition _writeLastChild (inner child : bytes) : M St unit :=
  n ← numChildren inner ; _writeChild inner (u32 (n - 1)) child.

Definition maxStoreableChildren (inner : bytes) : M St Z :=
  l ← view_layout inner ; mret (u32 (maxChildrenPerInnerNode l)).

Definition addChild (inner child : bytes) : M St unit :=
  n ← numChildren inner ; maxChildren ← maxStoreableChildren inner ;
  ASSERT (bool_decide (n < maxChildren)) "Adding more children than we can store" ;;
  childDepth ← Depth child ; depth ← Depth inner ;
  ASSERT (bool_decide (childDepth = depth - 1)) "The child that should be added has wrong depth" ;;
  n ← Size inner ;
  setSize inner (u32 (n + 1)) ;;
  _writeLastChild inner child.

Definition removeLastChild (inner : bytes) : M St unit :=
  n ← Size inner ;
  ASSERT (bool_decide (1 < n)) "There is no child to remove" ;;
  _writeLastChild inner BlockId.Null ;;
  n ← Size inner ;
  setSize inner (u32 (n - 1)).

(** ** DataNode.cpp, DataNodeStore.cpp

    A loaded node is a leaf or an inner node. *)
Inductive node := LeafNode (id : bytes) | InnerNode (id : bytes).
Definition node_id (n : node) : bytes := match n with LeafNode id | InnerNode id => id end.

Definition load_block (block : bytes) : M St node :=
  depth ← Depth block ;
  if decide (depth = 0) then leaf ← DataLeafNode block ; mret (LeafNode leaf)
  else if decide (depth ≤ MAX_DEPTH) then inner ← DataInnerNode block ; mret (InnerNode inner)
  else mthrow (RuntimeError "Tree is to deep. Data corruption?").

Definition load (blockId : bytes) : M St (option node) :=
  block ← block_load blockId ;
  match block with
  | None => mret None
  | Some block =>
      size ← block_size block ;
      ASSERT (bool_decide (size = blocksizeBytes layout)) "Loading block of wrong size" ;;
      n ← load_block block ; mret (Some n)
  end.

Definition createNewInnerNode (depth : Z) (children : list bytes) : M St bytes :=
  ASSERT (bool_decide (1 ≤ length children)%nat) "Inner node must have at least one child" ;;
  inner_CreateNewNode depth children.
Definition createNewLeafNode (data : bytes) : M St bytes := leaf_CreateNewNode data.
Definition overwriteLeaf (blockId data : bytes) : M St bytes := leaf_OverwriteNode blockId data.

Definition createNewNodeAsCopyFrom (source : bytes) : M St node :=
  l ← view_layout source ;
  ASSERT (bool_decide (blocksizeBytes l = blocksizeBytes layout)) "Source node has wrong layout. Is it from the same DataNodeStore?" ;;
  newBlock ← copyToNewBlock source ;
  load_block newBlock.

Definition overwriteNodeWith (target source : bytes) : M St node :=
  lt ← view_layout target ;
  ASSERT (bool_decide (blocksizeBytes lt = blocksizeBytes layout)) "Target node has wrong layout. Is it from the same DataNodeStore?" ;;
  ls ← view_layout source ;
  ASSERT (bool_decide (blocksizeBytes ls = blocksizeBytes layout)) "Source node has wrong layout. Is it from the same DataNodeStore?" ;;
  copyTo target source ;;
  load_block target.

Definition convertToNewInnerNode (node first_child : bytes) : M St bytes :=
  fillWithZeroes node ;;
  depth ← Depth first_child ;
  inner_InitializeNewNode node (u8 (depth + 1)) [first_child].

Definition remove (blockId : bytes) : M St unit := block_remove blockId.

(** A counting loop whose bound is read again before every iteration:
    [for (i = 0; i < numChildren(); ++i)] with a body that does not change
    the node. *)
Fixpoint for_range {A} (body : Z → M St A) (i : Z) (count : nat) : M St unit :=
  match count with
  | O => mret tt
  | S count' => body i ;; for_range body (i + 1) count'
  end.

(** [removeSubtree(depth, blockId)]. *)
Fixpoint removeSubtree (depth : nat) (blockId : bytes) : M St unit :=
  match depth with
  | O => remove blockId
  | S depth' =>
      n ← load blockId ;
      match n with
      | None => mthrow (AssertFailed "Node for removeSubtree not found")
      | Some (LeafNode _) => mthrow (AssertFailed "Is not an inner node, but depth was not zero")
      | Some (InnerNode inner) =>
          d ← Depth inner ;
          ASSERT (bool_decide (d = Z.of_nat depth)) "Wrong depth given" ;;
          n ← numChildren inner ;
          for_range (λ i, child ← readChild inner i ; removeSubtree depth' child) 0 (Z.to_nat n) ;;
          remove inner
      end
  end.

(** [removeSubtree(node)]. *)
Definition removeSubtree_node (n : node) : M St unit :=
  match n with
  | LeafNode leaf => remove leaf
  | InnerNode inner =>
      d ← Depth inner ;
      n ← numChildren inner ;
      for_range (λ i, child ← readChild inner i ; removeSubtree (Z.to_nat (d - 1)) child) 0 (Z.to_nat n) ;;
      remove inner
  end.
End nodes.
