(* ===== verification/Tree.v ===== *)
(** * Data trees (blobstore/implementations/onblocks/datatreestore)

    [LeafTraverser] walks over a range of leaf indices of a tree, creating
    leaves and levels where the tree is too small; [DataTree] implements
    reading, writing and resizing a blob with it; [DataTreeStore] creates,
    loads and removes trees. *)
From S2P Require Import Prelude Serialization Nodes.
From Stdlib Require Import Lia ZArith.

(** ** utils/Math.h *)
Fixpoint intPow (base : Z) (exponent : nat) : Z :=
  match exponent with O => 1 | S e => u64 (intPow base e * base) end.

(** Integer division; a zero divisor is undefined behaviour. *)
Definition div_ (a b : Z) : result Z := if decide (b = 0) then Throw UndefinedBehaviour else Ok (a / b).

(** [ceilDivision] on 32-bit and 64-bit integers. *)
Definition ceilDivision32 (dividend divisor : Z) : result Z := div_ (u32 (dividend + divisor - 1)) divisor.
Definition ceilDivision64 (dividend divisor : Z) : result Z := div_ (u64 (dividend + divisor - 1)) divisor.
Definition maxZeroSubtraction (minuend subtrahend : Z) : Z :=
  if decide (minuend < subtrahend) then 0 else minuend - subtrahend.

(** [ceilLog] divides two floating point logarithms and rounds up. [std_log n] is
    the value of [std::log] at the integer [n] in units of 2^-53; every double
    that is the logarithm of an integer is a multiple of that unit. The
    quotient is a [long double]: it is rounded to a mantissa of 64 bits, to
    nearest, ties to even. *)
Definition round_half_even (a b : Z) : Z :=
  let q := a / b in
  let r := a mod b in
  if decide (2 * r < b) then q else if decide (b < 2 * r) then q + 1 else if Z.even q then q else q + 1.
(** The exponent [e] with 2^e <= a / b < 2^(e + 1). *)
Definition exponent (a b : Z) : Z :=
  if decide (b ≤ a) then Z.log2 (a / b) else - Z.log2_up ((b + a - 1) / a).
(** The quotient as mantissa [m] and scale [s], standing for m / 2^s. *)
Definition long_double_div (a b : Z) : Z * Z :=
  if decide (a = 0) then (0, 0) else let s := 63 - exponent a b in (round_half_even (a * 2 ^ s) b, s).
Definition ceilLog (std_log : Z → Z) (base value : Z) : Z :=
  let '(m, s) := long_double_div (std_log value) (std_log base) in u64 ((m + 2 ^ s - 1) / 2 ^ s).

(** ** LeafHandle.cpp: a leaf by id, or an already loaded leaf. *)
Record LeafHandle := mkHandle { handle_id : bytes; handle_loaded : bool }.

Section traverser.
Context {X : Type} (layout : DataNodeLayout.t) (uninit : byte).
(** [std::log] of the C library; see [ceilLog]. *)
Context (std_log : Z → Z).
Abbreviation St := (store X).
Abbreviation maxChildren := (DataNodeLayout.maxChildrenPerInnerNode layout).
Abbreviation maxBytes := (DataNodeLayout.maxBytesPerLeaf layout).

Definition handle_node (h : LeafHandle) : M St bytes :=
  if handle_loaded h then mret (handle_id h)
  else
    loaded ← load layout (handle_id h) ;
    match loaded with
    | None => mthrow (AssertFailed "Leaf not found")
    | Some (InnerNode _) => mthrow (AssertFailed "Loaded leaf is not leaf node")
    | Some (LeafNode leaf) => mret leaf
    end.

(** ** impl/LeafTraverser.cpp *)
Definition onExistingLeaf_t : Type := Z → bool → LeafHandle → M St unit.
Definition onCreateLeaf_t : Type := Z → M St bytes.
Definition onBacktrack_t : Type := bytes → M St unit.

Definition _maxLeavesForTreeDepth (depth : nat) : Z := u32 (intPow maxChildren depth).

Context (_readOnlyTraversal : bool).

(** [_createMaxSizeLeaf()] returns the leaf creator; its assertion is
    evaluated when the creator is built. *)
Definition _createMaxSizeLeaf : M St onCreateLeaf_t :=
  ASSERT (negb _readOnlyTraversal) "Can't create a new leaf in a read-only traversal" ;;
  mret (λ _, mret (Data.FillWithZeroes (Z.to_nat maxBytes))).

(** The results of [body i], ..., [body (i + count - 1)]. *)
Fixpoint map_range {A} (body : Z → M St A) (i : Z) (count : nat) : M St (list A) :=
  match count with
  | O => mret []
  | S count' => a ← body i ; l ← map_range body (i + 1) count' ; mret (a :: l)
  end.

Fixpoint _createNewSubtree (depth : nat) (beginIndex endIndex leafOffset : Z)
    (onCreateLeaf : onCreateLeaf_t) (onBacktrackFromSubtree : onBacktrack_t) : M St bytes :=
  ASSERT (negb _readOnlyTraversal) "Can't create a new subtree in a read-only traversal" ;;
  ASSERT (bool_decide (beginIndex ≤ endIndex)) "Invalid parameters" ;;
  match depth with
  | O =>
      ASSERT (bool_decide (beginIndex ≤ 1) && bool_decide (endIndex = 1)) "With depth 0, we can only traverse one or zero leaves" ;;
      leafCreator ← (if decide (beginIndex = 0) then mret onCreateLeaf else _createMaxSizeLeaf) ;
      data ← leafCreator leafOffset ;
      createNewLeafNode layout uninit data
  | S depth' =>
      ASSERT (bool_decide (u8 (ceilLog std_log maxChildren endIndex) ≤ Z.of_nat depth)) "Given tree depth doesn't fit given number of leaves to create." ;;
      let leavesPerChild := _maxLeavesForTreeDepth depth' in
      beginChild ← lift (div_ beginIndex leavesPerChild) ;
      endChild ← lift (ceilDivision32 endIndex leavesPerChild) ;
      gapChildren ← map_range (λ childIndex,
          let childOffset := u32 (childIndex * leavesPerChild) in
          child ← _createNewSubtree depth' leavesPerChild leavesPerChild (u32 (leafOffset + childOffset))
                    (λ _, mthrow (AssertFailed "We're only creating gap leaves here, not traversing any.")) (λ _, mret tt) ;
          d ← Depth child ;
          ASSERT (bool_decide (d = Z.of_nat depth')) "Created child node has wrong depth" ;;
          mret child) 0 (Z.to_nat beginChild) ;
      newChildren ← map_range (λ childIndex,
          let childOffset := u32 (childIndex * leavesPerChild) in
          let localBeginIndex := maxZeroSubtraction beginIndex childOffset in
          let localEndIndex := Z.min leavesPerChild (u32 (endIndex - childOffset)) in
          child ← _createNewSubtree depth' localBeginIndex localEndIndex (u32 (leafOffset + childOffset))
                    onCreateLeaf onBacktrackFromSubtree ;
          d ← Depth child ;
          ASSERT (bool_decide (d = Z.of_nat depth')) "Created child node has wrong depth" ;;
          mret child) beginChild (Z.to_nat (endChild - beginChild)) ;
      let children := gapChildren ++ newChildren in
      ASSERT (bool_decide (0 < length children)%nat) "No children created" ;;
      newNode ← createNewInnerNode layout uninit (Z.of_nat depth) children ;
      (if decide (beginIndex < endIndex) then onBacktrackFromSubtree newNode else mret tt) ;;
      mret newNode
  end.

(** The type of the traversal of an existing subtree given by its id. *)
Definition traverse_t : Type :=
  bytes → Z → Z → Z → bool → bool → bool → onExistingLeaf_t → onCreateLeaf_t → onBacktrack_t → M St unit.

(** The parts of [_traverseExistingSubtree(DataInnerNode*, ..)]: filling up
    the last existing child when the traversal starts behind it, .. *)
Definition traverse_grow (rec : traverse_t) (root : bytes) (leavesPerChild n : Z) : M St unit :=
  ASSERT (bool_decide (0 < n)) "Node doesn't have children." ;;
  childBlockId ← readLastChild root ;
  let childOffset := u32 (u32 (n - 1) * leavesPerChild) in
  rec childBlockId leavesPerChild leavesPerChild childOffset true false true
    (λ _ _ _, mthrow (AssertFailed "We don't actually traverse any leaves."))
    (λ _, mthrow (AssertFailed "We don't actually traverse any leaves."))
    (λ _, mthrow (AssertFailed "We don't actually traverse any leaves.")).

(** .. the body of the loop over the existing children, .. *)
Definition traverse_child (rec : traverse_t) (root : bytes) (leavesPerChild beginChild endChild n : Z)
    (beginIndex endIndex leafOffset : Z) (isLeftBorderOfTraversal isRightBorderNode shouldGrowLastExistingLeaf : bool)
    (onExistingLeaf : onExistingLeaf_t) (onCreateLeaf : onCreateLeaf_t) (onBacktrackFromSubtree : onBacktrack_t)
    (childIndex : Z) : M St unit :=
  childBlockId ← readChild root childIndex ;
  let childOffset := u32 (childIndex * leavesPerChild) in
  let localBeginIndex := maxZeroSubtraction beginIndex childOffset in
  let localEndIndex := Z.min leavesPerChild (u32 (endIndex - childOffset)) in
  let isFirstChild := bool_decide (childIndex = beginChild) in
  let isLastExistingChild := bool_decide (childIndex = u32 (n - 1)) in
  let isLastChild := isLastExistingChild && bool_decide (n = endChild) in
  ASSERT (bool_decide (localEndIndex ≤ leavesPerChild)) "We don't want the child to add a tree level because it doesn't have enough space for the traversal." ;;
  rec childBlockId localBeginIndex localEndIndex (u32 (leafOffset + childOffset))
    (isLeftBorderOfTraversal && isFirstChild) (isRightBorderNode && isLastChild)
    (shouldGrowLastExistingLeaf && isLastExistingChild) onExistingLeaf onCreateLeaf onBacktrackFromSubtree.

(** .. and the body of the loop that adds children. *)
Definition traverse_newChild (depth' : nat) (root : bytes) (leavesPerChild beginChild : Z) (beginIndex endIndex leafOffset : Z)
    (onCreateLeaf : onCreateLeaf_t) (onBacktrackFromSubtree : onBacktrack_t) (childIndex : Z) : M St unit :=
  ASSERT (negb _readOnlyTraversal) "Can't create new children in a read-only traversal" ;;
  let childOffset := u32 (childIndex * leavesPerChild) in
  let localBeginIndex := Z.min leavesPerChild (maxZeroSubtraction beginIndex childOffset) in
  let localEndIndex := Z.min leavesPerChild (u32 (endIndex - childOffset)) in
  leafCreator ← (if decide (beginChild ≤ childIndex) then mret onCreateLeaf else _createMaxSizeLeaf) ;
  child ← _createNewSubtree depth' localBeginIndex localEndIndex (u32 (leafOffset + childOffset)) leafCreator onBacktrackFromSubtree ;
  addChild root child.

(** [_traverseExistingSubtree(DataInnerNode*, ..)]: [root] has depth
    [depth' + 1]; [rec] traverses a child. *)
Definition traverse_inner (depth' : nat) (rec : traverse_t) (root : bytes) (beginIndex endIndex leafOffset : Z)
    (isLeftBorderOfTraversal isRightBorderNode growLastLeaf : bool)
    (onExistingLeaf : onExistingLeaf_t) (onCreateLeaf : onCreateLeaf_t) (onBacktrackFromSubtree : onBacktrack_t) : M St unit :=
  ASSERT (bool_decide (beginIndex ≤ endIndex)) "Invalid parameters" ;;
  let leavesPerChild := _maxLeavesForTreeDepth depth' in
  beginChild ← lift (div_ beginIndex leavesPerChild) ;
  endChild ← lift (ceilDivision32 endIndex leavesPerChild) ;
  ASSERT (bool_decide (endChild ≤ maxChildren)) "Traversal region would need increasing the tree depth. This should have happened before calling this function." ;;
  n ← numChildren root ;
  ASSERT (negb growLastLeaf || bool_decide (n ≤ endChild)) "Can only grow last leaf if it exists" ;;
  ASSERT (negb _readOnlyTraversal || bool_decide (endChild ≤ n)) "Can only traverse out of bounds in a read-only traversal" ;;
  let shouldGrowLastExistingLeaf := growLastLeaf || bool_decide (n < endChild) in
  (if isLeftBorderOfTraversal && bool_decide (n ≤ beginChild) then traverse_grow rec root leavesPerChild n else mret tt) ;;
  for_range (traverse_child rec root leavesPerChild beginChild endChild n beginIndex endIndex leafOffset
               isLeftBorderOfTraversal isRightBorderNode shouldGrowLastExistingLeaf onExistingLeaf onCreateLeaf onBacktrackFromSubtree)
    beginChild (Z.to_nat (Z.min endChild n - beginChild)) ;;
  for_range (traverse_newChild depth' root leavesPerChild beginChild beginIndex endIndex leafOffset onCreateLeaf onBacktrackFromSubtree)
    n (Z.to_nat (endChild - n)) ;;
  if decide (beginIndex < endIndex) then onBacktrackFromSubtree root else mret tt.

(** Filling up a leaf that will not be the last one. *)
Definition grow_leaf (leafHandle : LeafHandle) : M St unit :=
  leaf ← handle_node leafHandle ;
  numBytes ← leaf_numBytes leaf ;
  if decide (numBytes ≠ maxBytes) then
    ASSERT (negb _readOnlyTraversal) "Can't grow the last leaf in a read-only traversal" ;;
    leaf_resize leaf maxBytes
  else mret tt.

(** [_traverseExistingSubtree(const BlockId&, uint8_t depth, ..)]. *)
Fixpoint _traverseExistingSubtree (depth : nat) : traverse_t :=
  λ blockId beginIndex endIndex leafOffset isLeftBorderOfTraversal isRightBorderNode growLastLeaf
    onExistingLeaf onCreateLeaf onBacktrackFromSubtree,
  match depth with
  | O =>
      ASSERT (bool_decide (beginIndex ≤ 1) && bool_decide (endIndex ≤ 1)) "If root node is a leaf, the (sub)tree has only one leaf - access indices must be 0 or 1." ;;
      let leafHandle := mkHandle blockId false in
      (if growLastLeaf then grow_leaf leafHandle else mret tt) ;;
      if decide (beginIndex = 0 ∧ endIndex = 1) then onExistingLeaf leafOffset isRightBorderNode leafHandle else mret tt
  | S depth' =>
      node ← load layout blockId ;
      match node with
      | None => mthrow (RuntimeError "Couldn't find child node")
      | Some (LeafNode _) => mthrow (AssertFailed "Has to be either leaf or inner node")
      | Some (InnerNode inner) =>
          d ← Depth inner ;
          ASSERT (bool_decide (d = Z.of_nat depth)) "Wrong depth given" ;;
          traverse_inner depth' (_traverseExistingSubtree depth') inner beginIndex endIndex leafOffset
            isLeftBorderOfTraversal isRightBorderNode growLastLeaf onExistingLeaf onCreateLeaf onBacktrackFromSubtree
      end
  end.

Definition _increaseTreeDepth (root : node) : M St node :=
  ASSERT (negb _readOnlyTraversal) "Can't increase tree depth in a read-only traversal" ;;
  copyOfOldRoot ← createNewNodeAsCopyFrom layout (node_id root) ;
  inner ← convertToNewInnerNode layout uninit (node_id root) (node_id copyOfOldRoot) ;
  mret (InnerNode inner).

(** The recursion goes down one level per step; [fuel] is the depth. *)
Fixpoint _whileRootHasOnlyOneChildRemoveRootReturnChild (fuel : nat) (blockId : bytes) : M St node :=
  ASSERT (negb _readOnlyTraversal) "Can't decrease tree depth in a read-only traversal" ;;
  current ← load layout blockId ;
  match current with
  | None => mthrow (AssertFailed "Node not found")
  | Some (LeafNode leaf) => mret (LeafNode leaf)
  | Some (InnerNode inner) =>
      n ← numChildren inner ;
      if decide (n = 1) then
        match fuel with
        | O => mthrow (RuntimeError "out of fuel")
        | S fuel' =>
            child ← readChild inner 0 ;
            result ← _whileRootHasOnlyOneChildRemoveRootReturnChild fuel' child ;
            remove inner ;;
            mret result
        end
      else mret (InnerNode inner)
  end.

Definition _whileRootHasOnlyOneChildReplaceRootWithItsChild (root : node) : M St node :=
  match root with
  | LeafNode _ => mret root
  | InnerNode inner =>
      n ← numChildren inner ;
      if decide (n = 1) then
        ASSERT (negb _readOnlyTraversal) "Can't decrease tree depth in a read-only traversal" ;;
        child ← readChild inner 0 ;
        newRoot ← _whileRootHasOnlyOneChildRemoveRootReturnChild (Z.to_nat MAX_DEPTH) child ;
        root' ← overwriteNodeWith layout inner (node_id newRoot) ;
        remove (node_id newRoot) ;;
        mret root'
      else mret root
  end.

(** One step of [_traverseAndUpdateRoot]: traverse the tree as deep as it is. *)
Definition traverse_root (root : node) (depth : nat) (maxLeavesForDepth : Z) (increaseTreeDepth : bool)
    (beginIndex endIndex : Z) (isLeftBorderOfTraversal : bool)
    (onExistingLeaf : onExistingLeaf_t) (onCreateLeaf : onCreateLeaf_t) (onBacktrackFromSubtree : onBacktrack_t) : M St unit :=
  match depth with
  | O =>
      match root with
      | InnerNode _ => mthrow (AssertFailed "Depth 0 has to be leaf node")
      | LeafNode leaf =>
          numBytes ← leaf_numBytes leaf ;
          (if increaseTreeDepth && bool_decide (numBytes ≠ maxBytes) then leaf_resize leaf maxBytes else mret tt) ;;
          if decide (beginIndex = 0 ∧ 1 ≤ endIndex)
          then onExistingLeaf 0 (bool_decide (endIndex = 1)) (mkHandle leaf true) else mret tt
      end
  | S depth' =>
      match root with
      | LeafNode _ => mthrow (AssertFailed "Depth != 0 has to be leaf node")
      | InnerNode inner =>
          traverse_inner depth' (_traverseExistingSubtree depth') inner
            (Z.min beginIndex maxLeavesForDepth) (Z.min endIndex maxLeavesForDepth) 0 isLeftBorderOfTraversal
            (negb increaseTreeDepth) increaseTreeDepth onExistingLeaf onCreateLeaf onBacktrackFromSubtree
      end
  end.

(** Every step but the last adds a level; [fuel] bounds the levels added. *)
Fixpoint _traverseAndUpdateRoot (fuel : nat) (root : node) (beginIndex endIndex : Z) (isLeftBorderOfTraversal : bool)
    (onExistingLeaf : onExistingLeaf_t) (onCreateLeaf : onCreateLeaf_t) (onBacktrackFromSubtree : onBacktrack_t) : M St node :=
  ASSERT (bool_decide (beginIndex ≤ endIndex)) "Invalid parameters" ;;
  depth ← Depth (node_id root) ;
  let maxLeavesForDepth := _maxLeavesForTreeDepth (Z.to_nat depth) in
  let increaseTreeDepth := bool_decide (maxLeavesForDepth < endIndex) in
  ASSERT (negb _readOnlyTraversal || negb increaseTreeDepth) "Tried to grow a tree on a read only traversal" ;;
  traverse_root root (Z.to_nat depth) maxLeavesForDepth increaseTreeDepth beginIndex endIndex isLeftBorderOfTraversal
    onExistingLeaf onCreateLeaf onBacktrackFromSubtree ;;
  if increaseTreeDepth then
    ASSERT (negb _readOnlyTraversal) "Can't increase tree depth in a read-only traversal" ;;
    root' ← _increaseTreeDepth root ;
    match fuel with
    | O => mthrow (RuntimeError "out of fuel")
    | S fuel' =>
        _traverseAndUpdateRoot fuel' root' (Z.max beginIndex maxLeavesForDepth) endIndex false
          onExistingLeaf onCreateLeaf onBacktrackFromSubtree
    end
  else _whileRootHasOnlyOneChildReplaceRootWithItsChild root.

Definition traverseAndUpdateRoot (root : node) (beginIndex endIndex : Z)
    (onExistingLeaf : onExistingLeaf_t) (onCreateLeaf : onCreateLeaf_t) (onBacktrackFromSubtree : onBacktrack_t) : M St node :=
  _traverseAndUpdateRoot (Z.to_nat MAX_DEPTH) root beginIndex endIndex true onExistingLeaf onCreateLeaf onBacktrackFromSubtree.
End traverser.

(** ** DataTree.cpp

    The object's fields [_rootNode] and [_sizeCache] (number of leaves,
    number of bytes), and the two variables its callbacks capture by
    reference: the buffer [target] a read writes to and the flag
    [blobIsGrowingFromThisTraversal]. *)
Record tree := mkTree {
  _rootNode : node;
  _sizeCache : option (Z * Z);
  target : bytes;
  blobIsGrowingFromThisTraversal : bool }.

Definition set_root r (x : tree) := mkTree r (_sizeCache x) (target x) (blobIsGrowingFromThisTraversal x).
Definition set_cache c (x : tree) := mkTree (_rootNode x) c (target x) (blobIsGrowingFromThisTraversal x).
Definition set_target t (x : tree) := mkTree (_rootNode x) (_sizeCache x) t (blobIsGrowingFromThisTraversal x).
Definition set_growing g (x : tree) := mkTree (_rootNode x) (_sizeCache x) (target x) g.

Module DataTree.
Section datatree.
Context (layout : DataNodeLayout.t) (uninit : byte) (std_log : Z → Z).
Abbreviation St := (store tree).
Abbreviation maxChildren := (DataNodeLayout.maxChildrenPerInnerNode layout).
Abbreviation maxBytes := (DataNodeLayout.maxBytesPerLeaf layout).

(** The constructor. *)
Definition new (rootNode : node) : tree := mkTree rootNode None [] false.

Definition _leavesPerFullChild (depth : Z) : Z := u32 (intPow maxChildren (Z.to_nat (depth - 1))).

(** [_computeSizeCache(node)]; [fuel] is the depth of the node. *)
Fixpoint _computeSizeCache (fuel : nat) (n : node) : M St (Z * Z) :=
  match n with
  | LeafNode leaf => numBytes ← leaf_numBytes leaf ; mret (1, numBytes)
  | InnerNode inner =>
      n ← numChildren inner ;
      depth ← Depth inner ;
      let numLeavesInLeftChildren := u32 (u32 (n - 1) * _leavesPerFullChild depth) in
      let numBytesInLeftChildren := u64 (numLeavesInLeftChildren * maxBytes) in
      lastChildId ← readLastChild inner ;
      lastChild ← load layout lastChildId ;
      match lastChild, fuel with
      | None, _ => mthrow (AssertFailed "Couldn't load last child")
      | Some _, O => mthrow (RuntimeError "out of fuel")
      | Some lastChild, S fuel' =>
          r ← _computeSizeCache fuel' lastChild ;
          mret (u32 (numLeavesInLeftChildren + r.1), u64 (numBytesInLeftChildren + r.2))
      end
  end.

Definition _getOrComputeSizeCache : M St (Z * Z) :=
  x ← get_ext ;
  match _sizeCache x with
  | Some c => mret c
  | None =>
      c ← _computeSizeCache (Z.to_nat MAX_DEPTH) (_rootNode x) ;
      set_ext (set_cache (Some c)) ;;
      mret c
  end.

Definition numLeaves : M St Z := c ← _getOrComputeSizeCache ; mret c.1.
Definition _numBytes : M St Z := c ← _getOrComputeSizeCache ; mret c.2.
Definition numBytes : M St Z := _numBytes.

Fixpoint numNodes_loop (levels : nat) (numNodesCurrentLevel totalNumNodes : Z) : result Z :=
  match levels with
  | O => mret totalNumNodes
  | S levels' =>
      n ← ceilDivision32 numNodesCurrentLevel (u32 maxChildren) ;
      numNodes_loop levels' n (u32 (totalNumNodes + n))
  end.
Definition numNodes : M St Z :=
  leaves ← numLeaves ;
  x ← get_ext ;
  depth ← Depth (node_id (_rootNode x)) ;
  lift (numNodes_loop (Z.to_nat depth) leaves leaves).

Definition forceComputeNumLeaves : M St Z := set_ext (set_cache None) ;; numLeaves.

Definition _traverseLeavesByLeafIndices (beginIndex endIndex : Z) (readOnlyTraversal : bool)
    (onExistingLeaf : onExistingLeaf_t (X := tree)) (onCreateLeaf : onCreateLeaf_t (X := tree)) (onBacktrackFromSubtree : onBacktrack_t (X := tree)) : M St unit :=
  if decide (endIndex ≤ beginIndex) then mret tt
  else
    x ← get_ext ;
    root ← traverseAndUpdateRoot layout uninit std_log readOnlyTraversal (_rootNode x) beginIndex endIndex
             onExistingLeaf onCreateLeaf onBacktrackFromSubtree ;
    set_ext (set_root root).

(** The leaf callback of [_traverseLeavesByByteIndices]. *)
Definition byte_onExistingLeaf (beginByte endByte endLeaf : Z)
    (onExistingLeaf : Z → LeafHandle → Z → Z → M St unit) : onExistingLeaf_t (X := tree) :=
  λ leafIndex isRightBorderLeaf leafHandle,
  let indexOfFirstLeafByte := u64 (leafIndex * maxBytes) in
  ASSERT (bool_decide (indexOfFirstLeafByte < endByte)) "Traversal went too far right" ;;
  let dataBegin := u32 (maxZeroSubtraction beginByte indexOfFirstLeafByte) in
  let dataEnd := u32 (Z.min maxBytes (u64 (endByte - indexOfFirstLeafByte))) in
  (if isRightBorderLeaf then
     ASSERT (bool_decide (leafIndex = u32 (endLeaf - 1))) "If we traversed further right, this wouldn't be the right border leaf." ;;
     leaf ← handle_node layout leafHandle ;
     n ← leaf_numBytes leaf ;
     if decide (n < dataEnd) then leaf_resize leaf dataEnd ;; set_ext (set_growing true) else mret tt
   else mret tt) ;;
  onExistingLeaf indexOfFirstLeafByte leafHandle dataBegin (u32 (dataEnd - dataBegin)).

Definition byte_onCreateLeaf (beginByte endByte firstLeaf endLeaf : Z) (readOnlyTraversal : bool)
    (onCreateLeaf : Z → Z → M St bytes) : onCreateLeaf_t (X := tree) :=
  λ leafIndex,
  ASSERT (negb readOnlyTraversal) "Cannot create leaves in a read-only traversal" ;;
  set_ext (set_growing true) ;;
  let indexOfFirstLeafByte := u64 (leafIndex * maxBytes) in
  ASSERT (bool_decide (indexOfFirstLeafByte < endByte)) "Traversal went too far right" ;;
  let dataBegin := u32 (maxZeroSubtraction beginByte indexOfFirstLeafByte) in
  let dataEnd := u32 (Z.min maxBytes (u64 (endByte - indexOfFirstLeafByte))) in
  ASSERT (bool_decide (leafIndex = firstLeaf) || bool_decide (dataBegin = 0)) "Only the leftmost leaf can have a gap on the left." ;;
  ASSERT (bool_decide (leafIndex = u32 (endLeaf - 1)) || bool_decide (dataEnd = maxBytes)) "Only the rightmost leaf can have a gap on the right" ;;
  data ← onCreateLeaf (u64 (indexOfFirstLeafByte + dataBegin)) (u32 (dataEnd - dataBegin)) ;
  ASSERT (bool_decide (Z.of_nat (length data) = u32 (dataEnd - dataBegin))) "Returned leaf data with wrong size" ;;
  mret (if decide (dataBegin ≠ 0) then replicate (Z.to_nat dataBegin) x00 ++ data else data).

Definition _traverseLeavesByByteIndices (beginByte sizeBytes : Z) (readOnlyTraversal : bool)
    (onExistingLeaf : Z → LeafHandle → Z → Z → M St unit) (onCreateLeaf : Z → Z → M St bytes) : M St unit :=
  if decide (sizeBytes = 0) then mret tt
  else
    let endByte := u64 (beginByte + sizeBytes) in
    let firstLeaf := u32 (beginByte / maxBytes) in
    endLeaf_ ← lift (ceilDivision64 endByte maxBytes) ;
    let endLeaf := u32 endLeaf_ in
    set_ext (set_growing false) ;;
    _traverseLeavesByLeafIndices firstLeaf endLeaf readOnlyTraversal
      (byte_onExistingLeaf beginByte endByte endLeaf onExistingLeaf)
      (byte_onCreateLeaf beginByte endByte firstLeaf endLeaf readOnlyTraversal onCreateLeaf)
      (λ _, mret tt) ;;
    x ← get_ext ;
    ASSERT (negb readOnlyTraversal || negb (blobIsGrowingFromThisTraversal x)) "Blob grew from traversal that didn't allow growing (i.e. reading)" ;;
    if blobIsGrowingFromThisTraversal x then set_ext (set_cache (Some (endLeaf, endByte))) else mret tt.

(** [while (node->numChildren() > needed)] of the shrinking callback. *)
Fixpoint remove_children_loop (fuel : nat) (inner : bytes) (needed : Z) : M St unit :=
  n ← numChildren inner ;
  if decide (needed < n) then
    match fuel with
    | O => mthrow (RuntimeError "out of fuel")
    | S fuel' =>
        depth ← Depth inner ;
        lastChild ← readLastChild inner ;
        removeSubtree layout (Z.to_nat (depth - 1)) lastChild ;;
        removeLastChild inner ;;
        remove_children_loop fuel' inner needed
    end
  else mret tt.

Definition resize_onBacktrack (newNumLeaves maxChildrenPerInnerNode : Z) : onBacktrack_t (X := tree) := λ inner,
  depth ← Depth inner ;
  let maxLeavesPerChild := u32 (intPow maxChildrenPerInnerNode (Z.to_nat (depth - 1))) in
  neededNodesOnChildLevel ← lift (ceilDivision32 newNumLeaves maxLeavesPerChild) ;
  neededSiblings ← lift (ceilDivision32 neededNodesOnChildLevel maxChildrenPerInnerNode) ;
  let neededChildrenForRightBorderNode :=
    u32 (neededNodesOnChildLevel - u32 (u32 (neededSiblings - 1) * maxChildrenPerInnerNode)) in
  n ← numChildren inner ;
  ASSERT (bool_decide (neededChildrenForRightBorderNode ≤ n)) "Node has too few children" ;;
  remove_children_loop (Z.to_nat n) inner neededChildrenForRightBorderNode.

Definition resize_onExistingLeaf (newLastLeafSize : Z) : onExistingLeaf_t (X := tree) := λ _ _ leafHandle,
  leaf ← handle_node layout leafHandle ;
  n ← leaf_numBytes leaf ;
  if decide (n ≠ newLastLeafSize) then leaf_resize leaf newLastLeafSize else mret tt.

Definition resizeNumBytes (newNumBytes : Z) : M St unit :=
  neededLeaves ← lift (ceilDivision64 newNumBytes maxBytes) ;
  let newNumLeaves := u32 (Z.max 1 neededLeaves) in
  let newLastLeafSize := u32 (u64 (newNumBytes - u64 (u32 (newNumLeaves - 1) * maxBytes))) in
  let maxChildrenPerInnerNode := u32 maxChildren in
  _traverseLeavesByLeafIndices (u32 (newNumLeaves - 1)) newNumLeaves false
    (resize_onExistingLeaf newLastLeafSize)
    (λ _, mret (Data.FillWithZeroes (Z.to_nat newLastLeafSize)))
    (resize_onBacktrack newNumLeaves maxChildrenPerInnerNode) ;;
  set_ext (set_cache (Some (newNumLeaves, newNumBytes))).

Definition depth : M St Z := x ← get_ext ; Depth (node_id (_rootNode x)).

(** The leaf callback of a read: copy a piece of the leaf into the target. *)
Definition read_onExistingLeaf (offset count : Z) : Z → LeafHandle → Z → Z → M St unit :=
  λ indexOfFirstLeafByte leaf leafDataOffset leafDataSize,
  ASSERT (bool_decide (offset ≤ u64 (indexOfFirstLeafByte + leafDataOffset)) &&
          bool_decide (u64 (indexOfFirstLeafByte - offset + leafDataOffset) ≤ count) &&
          bool_decide (u64 (indexOfFirstLeafByte - offset + leafDataOffset + leafDataSize) ≤ count)) "Writing to target out of bounds" ;;
  leaf ← handle_node layout leaf ;
  d ← leaf_read leaf leafDataOffset leafDataSize ;
  x ← get_ext ;
  t ← lift (Data.memcpy_to (target x) (Z.to_nat (u64 (indexOfFirstLeafByte - offset + leafDataOffset))) d) ;
  set_ext (set_target t).

(** [_doReadBytes(target, ..)]: the target buffer is [target] of the state. *)
Definition _doReadBytes (offset count : Z) : M St unit :=
  _traverseLeavesByByteIndices offset count true (read_onExistingLeaf offset count)
    (λ _ _, mthrow (AssertFailed "Reading shouldn't create new leaves.")).

Definition _tryReadBytes (offset count : Z) : M St Z :=
  size ← _numBytes ;
  let realCount := u64 (Z.max 0 (Z.min (i64 count) (i64 (i64 size - i64 offset)))) in
  _doReadBytes offset realCount ;;
  mret realCount.

(** The reading functions take the caller's buffer and return it. *)
Definition with_target {A} (buffer : bytes) (m : M St A) : M St (A * bytes) :=
  set_ext (set_target buffer) ;; a ← m ; x ← get_ext ; mret (a, target x).

Definition tryReadBytes (buffer : bytes) (offset count : Z) : M St (Z * bytes) :=
  with_target buffer (_tryReadBytes offset count).

Definition readBytes (buffer : bytes) (offset count : Z) : M St bytes :=
  size ← _numBytes ;
  if decide (size < offset ∨ size < u64 (offset + count))
  then mthrow (RuntimeError "BlobOnBlocks::read() read outside blob. Use BlobOnBlocks::tryRead() if this should be allowed.")
  else
    r ← with_target buffer (_tryReadBytes offset count) ;
    if decide (r.1 ≠ count)
    then mthrow (RuntimeError "BlobOnBlocks::read() couldn't read all requested bytes. Use BlobOnBlocks::tryRead() if this should be allowed.")
    else mret r.2.

Definition readAllBytes (uninit_buffer : nat → bytes) : M St bytes :=
  count ← _numBytes ;
  lift (Data.check_alloc count) ;;
  r ← with_target (uninit_buffer (Z.to_nat count)) (_doReadBytes 0 count) ;
  mret r.2.

(** The callbacks of a write of [source]. *)
Definition write_onExistingLeaf (source : bytes) (offset count : Z) : Z → LeafHandle → Z → Z → M St unit :=
  λ indexOfFirstLeafByte leaf leafDataOffset leafDataSize,
  ASSERT (bool_decide (offset ≤ u64 (indexOfFirstLeafByte + leafDataOffset)) &&
          bool_decide (u64 (indexOfFirstLeafByte - offset + leafDataOffset) ≤ count) &&
          bool_decide (u64 (indexOfFirstLeafByte - offset + leafDataOffset + leafDataSize) ≤ count)) "Reading from source out of bounds" ;;
  if decide (leafDataOffset = 0 ∧ leafDataSize = maxBytes) then
    leafData ← lift (Data.memcpy_from source (Z.to_nat (u64 (indexOfFirstLeafByte - offset))) (Z.to_nat leafDataSize)) ;
    overwriteLeaf layout uninit (handle_id leaf) leafData ;;
    mret tt
  else
    leaf ← handle_node layout leaf ;
    d ← lift (Data.memcpy_from source (Z.to_nat (u64 (indexOfFirstLeafByte - offset + leafDataOffset))) (Z.to_nat leafDataSize)) ;
    leaf_write leaf d leafDataOffset.

Definition write_onCreateLeaf (source : bytes) (offset count : Z) : Z → Z → M St bytes :=
  λ beginByte numBytes,
  ASSERT (bool_decide (offset ≤ beginByte) && bool_decide (beginByte - offset ≤ count) &&
          bool_decide (u64 (beginByte - offset + numBytes) ≤ count)) "Reading from source out of bounds" ;;
  lift (Data.memcpy_from source (Z.to_nat (beginByte - offset)) (Z.to_nat numBytes)).

Definition writeBytes (source : bytes) (offset count : Z) : M St unit :=
  _traverseLeavesByByteIndices offset count false (write_onExistingLeaf source offset count) (write_onCreateLeaf source offset count).
End datatree.
End DataTree.

(** ** DataTreeStore.cpp *)
Module DataTreeStore.
Section treestore.
Context {X : Type} (layout : DataNodeLayout.t) (uninit : byte).

Definition load (blockId : bytes) : M (store X) (option node) := Nodes.load layout blockId.
Definition createNewTree : M (store X) node :=
  leaf ← createNewLeafNode layout uninit [] ; mret (LeafNode leaf).
Definition remove_tree (root : node) : M (store X) unit := removeSubtree_node layout root.
Definition remove (blockId : bytes) : M (store X) unit :=
  tree ← load blockId ;
  match tree with
  | None => mthrow (AssertFailed "Tree to remove not found")
  | Some root => remove_tree root
  end.
End treestore.
End DataTreeStore.
