(* ===== verification/NodeLogic.v ===== *)
(** * A program logic for code on node blocks

    A total-correctness weakest precondition, in Iris, for the stateful
    computations of Nodes.v and Tree.v. Assertions own blocks ([id ↦ b]),
    the state of the running operation ([ext_is x]) and a number of fresh
    block ids ([fresh n]); a spec of an operation on a subtree talks about the
    blocks of the subtree only, and everything else is framed.

    [wp m Φ] says that [m] returns (it neither throws nor runs out of fuel)
    and that its result satisfies [Φ]. [wp_adequacy] carries a proof in the
    logic over to the plain statement about [m]. *)
From iris.algebra Require Import auth numbers.
From iris.base_logic.lib Require Import own ghost_map ghost_var.
From iris.proofmode Require Import proofmode.
From S2P Require Import Prelude Serialization Nodes.
From Stdlib Require Import Lia ZArith.
Open Scope Z_scope.

Class nodeG (Σ : gFunctors) (X : Type) := NodeG {
  #[export] node_mapG :: ghost_mapG Σ bytes bytes;
  #[export] node_varG :: ghost_varG Σ X;
  #[export] node_idsG :: inG Σ (authR natUR) }.

Class nodeGS (Σ : gFunctors) (X : Type) := NodeGS {
  #[export] node_inG :: nodeG Σ X;
  blocks_name : gname;
  ext_name : gname;
  ids_name : gname }.

Definition nodeΣ (X : Type) : gFunctors :=
  #[ghost_mapΣ bytes bytes; ghost_varΣ X; GFunctor (authR natUR)].
#[export] Instance subG_nodeΣ {Σ X} : subG (nodeΣ X) Σ → nodeG Σ X.
Proof. solve_inG. Qed.

(** The ids the store will hand out are valid, distinct and not in use. *)
Definition new_id (id : bytes) : Prop := BlockId.valid id ∧ id ≠ BlockId.Null.
Definition ids_ok {X} (s : store X) : Prop :=
  NoDup (ids s) ∧ Forall new_id (ids s) ∧ ∀ id, id ∈ ids s → blocks s !! id = None.

Notation "id ↦ b" := (ghost_map_elem blocks_name id (DfracOwn 1) b) (at level 20) : bi_scope.

Section logic.
Context {Σ : gFunctors} {X : Type} `{!nodeGS Σ X}.

Definition ext_is (x : X) : iProp Σ := ghost_var ext_name (1/2) x.
Definition fresh (n : nat) : iProp Σ := own ids_name (◯ n).
Definition own_blocks (m : gmap bytes bytes) : iProp Σ := [∗ map] id ↦ b ∈ m, id ↦ b.

(** The logic's view of a state. *)
Definition state_interp (s : store X) : iProp Σ :=
  ghost_map_auth blocks_name 1 (blocks s) ∗ ghost_var ext_name (1/2) (ext s) ∗
  own ids_name (● (length (ids s))) ∗ ⌜ids_ok s⌝.

Definition wp {A} (m : M (store X) A) (Φ : A → iProp Σ) : iProp Σ :=
  ∀ s, state_interp s ==∗ ∃ a s', ⌜m s = (Ok a, s')⌝ ∗ state_interp s' ∗ Φ a.

(** ** Structural rules *)
Lemma wp_ret {A} (a : A) Φ : Φ a ⊢ wp (mret a) Φ.
Proof. iIntros "H" (s) "Hs !>". iExists a, s. by iFrame. Qed.

Lemma wp_bind {A B} (m : M (store X) A) (k : A → M (store X) B) Φ :
  wp m (λ a, wp (k a) Φ) ⊢ wp (m ≫= k) Φ.
Proof.
  iIntros "H" (s) "Hs". iMod ("H" with "Hs") as (a s') "(%E & Hs & H)".
  iMod ("H" with "Hs") as (b s'') "(%E' & Hs & H)". iModIntro. iExists b, s''.
  iFrame. iPureIntro. by rw (bind_ok _ _ _ _ _ E).
Qed.

Lemma wp_wand {A} (m : M (store X) A) Φ Ψ : wp m Φ -∗ (∀ a, Φ a -∗ Ψ a) -∗ wp m Ψ.
Proof.
  iIntros "H HΨ" (s) "Hs". iMod ("H" with "Hs") as (a s') "(%E & Hs & H)".
  iModIntro. iExists a, s'. iFrame. iSplit; [done|]. by iApply "HΨ".
Qed.

Lemma wp_bupd {A} (m : M (store X) A) Φ : (|==> wp m Φ) ⊢ wp m Φ.
Proof. iIntros "H" (s) "Hs". iMod "H". by iApply "H". Qed.

Lemma fresh_0 : ⊢ |==> fresh 0.
Proof. iApply own_unit. Qed.

Lemma wp_lift {A} (r : result A) a Φ : r = Ok a → Φ a ⊢ wp (lift r) Φ.
Proof. intros ->. iIntros "H" (s) "Hs !>". iExists a, s. by iFrame. Qed.

Lemma wp_assert {A} (b : bool) msg (k : unit → M (store X) A) Φ :
  b = true → wp (k tt) Φ ⊢ wp (ASSERT b msg ≫= k) Φ.
Proof. intros ->. iIntros "H". iApply wp_bind. by iApply wp_ret. Qed.

Lemma wp_get_ext x Φ : ext_is x -∗ (ext_is x -∗ Φ x) -∗ wp get_ext Φ.
Proof.
  iIntros "Hx HΦ" (s) "(Hb & He & Hi & %Hok)".
  iDestruct (ghost_var_agree with "He Hx") as %<-. iModIntro. iExists _, s.
  iSplit; [done|]. iFrame. iSplit; [done|]. by iApply "HΦ".
Qed.

Lemma wp_set_ext x f Φ : ext_is x -∗ (ext_is (f x) -∗ Φ tt) -∗ wp (set_ext f) Φ.
Proof.
  iIntros "Hx HΦ" (s) "(Hb & He & Hi & %Hok)".
  iDestruct (ghost_var_agree with "He Hx") as %<-.
  iMod (ghost_var_update_halves (f (ext s)) with "He Hx") as "[He Hx]". iModIntro.
  iExists tt, (mkStore (blocks s) (ids s) (f (ext s))). iSplit; [done|]. iFrame.
  iSplit; [done|]. by iApply "HΦ".
Qed.

Lemma fresh_split n k : fresh (n + k) ⊣⊢ fresh n ∗ fresh k.
Proof. rw /fresh. by rw -own_op -auth_frag_op. Qed.

Lemma fresh_take n k : (k ≤ n)%nat → fresh n ⊢ fresh k ∗ fresh (n - k).
Proof. intros H. rw -fresh_split. by replace (k + (n - k))%nat with n by lia. Qed.

Lemma fresh_mono n k : (k ≤ n)%nat → fresh n ⊢ fresh k.
Proof. intros H. rw (fresh_take n k) //. iIntros "[$ _]". Qed.

(** ** The block operations *)
Lemma wp_block_data id b Φ : id ↦ b -∗ (id ↦ b -∗ Φ b) -∗ wp (block_data (X := X) id) Φ.
Proof.
  iIntros "Hb HΦ" (s) "(Ha & He & Hi & %Hok)".
  iDestruct (ghost_map_lookup with "Ha Hb") as %E. iModIntro. iExists b, s.
  iSplit; [by rw /block_data E|]. iFrame. iSplit; [done|]. by iApply "HΦ".
Qed.

Lemma wp_block_size id b Φ :
  id ↦ b -∗ (id ↦ b -∗ Φ (Z.of_nat (length b))) -∗ wp (block_size (X := X) id) Φ.
Proof.
  iIntros "Hb HΦ". iApply wp_bind. iApply (wp_block_data with "Hb"). iIntros "Hb".
  iApply wp_ret. by iApply "HΦ".
Qed.

Lemma ids_ok_insert (s : store X) id b b' :
  blocks s !! id = Some b → ids_ok s → ids_ok (mkStore (<[id := b']> (blocks s)) (ids s) (ext s)).
Proof.
  intros E (Hnd & Hv & Hf). split_and!; try done. simpl. intros id' Hin.
  rw lookup_insert_ne; [by apply Hf|]. intros <-. rw Hf in E; done.
Qed.

Lemma ids_ok_delete (s : store X) id : ids_ok s → ids_ok (mkStore (delete id (blocks s)) (ids s) (ext s)).
Proof.
  intros (Hnd & Hv & Hf). split_and!; try done. simpl. intros id' Hin.
  rw lookup_delete_None. eauto.
Qed.

Lemma wp_block_overwrite id b b' Φ :
  id ↦ b -∗ (id ↦ b' -∗ Φ id) -∗ wp (block_overwrite (X := X) id b') Φ.
Proof.
  iIntros "Hb HΦ" (s) "(Ha & He & Hi & %Hok)".
  iDestruct (ghost_map_lookup with "Ha Hb") as %E.
  iMod (ghost_map_update b' with "Ha Hb") as "[Ha Hb]". iModIntro.
  iExists id, _. iSplit; [done|]. iFrame. iSplit; [|by iApply "HΦ"].
  iPureIntro. by eapply ids_ok_insert.
Qed.

Lemma wp_block_write id b src off Φ :
  0 ≤ off → off + Z.of_nat (length src) ≤ Z.of_nat (length b) → Z.of_nat (length b) < 2 ^ 64 →
  id ↦ b -∗ (id ↦ splice (Z.to_nat off) src b -∗ Φ tt) -∗ wp (block_write (X := X) id src off) Φ.
Proof.
  iIntros (H0 H1 H2) "Hb HΦ". rw /block_write. iApply wp_bind.
  iApply (wp_block_data with "Hb"). iIntros "Hb". iApply wp_assert.
  { rw u64_small; [|lia]. rw !bool_decide_true; [done|lia..]. }
  iIntros (s) "(Ha & He & Hi & %Hok)".
  iDestruct (ghost_map_lookup with "Ha Hb") as %E.
  iMod (ghost_map_update (splice (Z.to_nat off) src b) with "Ha Hb") as "[Ha Hb]". iModIntro.
  iExists tt, _. iSplit; [done|]. iFrame. iSplit; [|by iApply "HΦ"].
  iPureIntro. by eapply ids_ok_insert.
Qed.

Lemma wp_block_load id b Φ :
  id ↦ b -∗ (id ↦ b -∗ Φ (Some id)) -∗ wp (block_load (X := X) id) Φ.
Proof.
  iIntros "Hb HΦ" (s) "(Ha & He & Hi & %Hok)".
  iDestruct (ghost_map_lookup with "Ha Hb") as %E. iModIntro. iExists _, s.
  iSplit; [by rw /block_load E|]. iFrame. iSplit; [done|]. by iApply "HΦ".
Qed.

Lemma wp_block_remove id b Φ : id ↦ b -∗ Φ tt -∗ wp (block_remove (X := X) id) Φ.
Proof.
  iIntros "Hb HΦ" (s) "(Ha & He & Hi & %Hok)".
  iDestruct (ghost_map_lookup with "Ha Hb") as %E.
  iMod (ghost_map_delete with "Ha Hb") as "Ha". iModIntro. iExists tt, _.
  iSplit; [by rw /block_remove E|]. iFrame. iPureIntro. by apply ids_ok_delete.
Qed.

Lemma wp_block_create b Φ :
  fresh 1 -∗ (∀ id, ⌜new_id id⌝ -∗ id ↦ b -∗ Φ id) -∗ wp (block_create (X := X) b) Φ.
Proof.
  iIntros "Hf HΦ" (s) "(Ha & He & Hi & %Hok)". destruct Hok as (Hnd & Hv & Hfr).
  iDestruct (own_valid_2 with "Hi Hf") as %[Hle%nat_included _]%auth_both_valid_discrete.
  rw /block_create. destruct (ids s) as [|id l] eqn:Eids; [simpl in Hle; lia|].
  assert (blocks s !! id = None) as E by (apply Hfr; left).
  apply NoDup_cons in Hnd as [Hni Hnd]. apply Forall_cons in Hv as [Hvid Hv].
  iMod (ghost_map_insert id b with "Ha") as "[Ha Hb]"; [done|].
  iMod (own_update_2 _ _ _ (● length l ⋅ ◯ 0%nat) with "Hi Hf") as "[Hi _]".
  { apply auth_update, nat_local_update. simpl. lia. }
  iModIntro. iExists id, (mkStore (<[id := b]> (blocks s)) l (ext s)). simpl. rw E.
  iSplit; [done|]. iFrame. iSplit; [|by iApply "HΦ"]. iPureIntro. split_and!; try done.
  simpl. intros id' Hin. rw lookup_insert_ne; [apply Hfr; by right|]. by intros <-.
Qed.
End logic.

(** ** Adequacy *)
Lemma wp_adequacy Σ {A X} `{!nodeG Σ X} (m : M (store X) A) (s : store X) (P : A → store X → Prop) :
  ids_ok s →
  (∀ `{!nodeGS Σ X},
     own_blocks (blocks s) -∗ ext_is (ext s) -∗ fresh (length (ids s)) -∗
     wp m (λ a, ∀ s', state_interp s' -∗ ⌜P a s'⌝)) →
  ∃ a s', m s = (Ok a, s') ∧ P a s'.
Proof.
  intros Hok Hwp. apply (pure_soundness (PROP := iPropI Σ)). apply uPred.bupd_soundness; [apply _|].
  iMod (ghost_map_alloc (blocks s)) as (γb) "[Ha Hb]".
  iMod (ghost_var_alloc (ext s)) as (γx) "[Hx Hx']".
  iMod (own_alloc (● length (ids s) ⋅ ◯ length (ids s))) as (γi) "[Hi Hf]".
  { by apply auth_both_valid_discrete. }
  iMod (Hwp (NodeGS _ _ _ γb γx γi) with "Hb Hx' Hf [$Ha $Hx $Hi //]") as (a s') "(%E & Hs & HP)".
  iModIntro. iExists a, s'. iSplit; [done|]. by iApply "HP".
Qed.
