(* ===== verification/NodeSpec.v ===== *)
(** * Specifications of the node operations

    [leaf id data] owns the block of a leaf that holds [data], [inner id d
    children] the block of an inner node. The block of a node is its header
    followed by its payload, zeroes up to the block size; every operation of
    Nodes.v gets a rule in terms of these two assertions. *)
From iris.base_logic.lib Require Import own ghost_map.
From iris.proofmode Require Import proofmode.
From S2P Require Import Prelude Serialization Nodes NodeLogic.
From Stdlib Require Import Lia ZArith.
Open Scope Z_scope.

(** ** Contents of node blocks *)

(** [l] followed by zeroes up to length [k]. *)
Definition pad (k : nat) (l : bytes) : bytes := l ++ replicate (k - length l) x00.

Definition raw_block (u : byte) (d n : Z) (p : bytes) : bytes :=
  serialize 2 FORMAT_VERSION_HEADER ++ [u] ++ serialize 1 d ++ serialize 4 n ++ p.

Lemma length_pad k l : length (pad k l) = Nat.max k (length l).
Proof. rw /pad length_app length_replicate. lia. Qed.
#[export] Hint Rewrite length_pad : len.

Lemma pad_ge k l : (k ≤ length l)%nat → pad k l = l.
Proof. intros H. rw /pad. replace (k - length l)%nat with 0%nat by lia. apply app_nil_r. Qed.

Lemma lookup_pad k l i :
  pad k l !! i = if decide (i < length l)%nat then l !! i else if decide (i < k)%nat then Some x00 else None.
Proof.
  rw /pad. case_decide.
  - by rw lookup_app_l.
  - rw lookup_app_r; [|lia]. case_decide; [apply lookup_replicate_2; lia|].
    apply lookup_ge_None_2. rw length_replicate. lia.
Qed.

Lemma pad_pad k j l : (j ≤ k)%nat → pad k (pad j l) = pad k l.
Proof.
  intros H. apply list_eq. intros i. rw !lookup_pad length_pad.
  repeat case_decide; try done; lia.
Qed.

Lemma splice_pad k off src l :
  (off + length src ≤ length l)%nat → splice off src (pad k l) = pad k (splice off src l).
Proof.
  intros H. apply list_eq. intros i. rw lookup_splice; [|len].
  rw !lookup_pad length_splice; [|done]. rw lookup_splice; [|done].
  repeat case_decide; try done; lia.
Qed.

(** Zeroing the tail of the payload cuts it. *)
Lemma splice_pad_zeroes k n l :
  (n ≤ length l)%nat → (length l ≤ k)%nat →
  splice n (replicate (length l - n) x00) (pad k l) = pad k (take n l).
Proof.
  intros Hn Hk. apply list_eq. intros i.
  rw lookup_splice; [|rw length_replicate length_pad; lia].
  rw !lookup_pad length_take length_replicate.
  repeat case_decide; try lia; try done.
  - apply lookup_replicate_2. lia.
  - by rw lookup_take_lt; [|lia].
Qed.

(** Writing behind the payload extends it. *)
Lemma splice_pad_append k src l :
  (length l + length src ≤ k)%nat → splice (length l) src (pad k l) = pad k (l ++ src).
Proof.
  intros H. apply list_eq. intros i. rw lookup_splice; [|rw length_pad; lia].
  rw !lookup_pad length_app.
  repeat case_decide; try lia; try done.
  - rw lookup_app_r; [done|lia].
  - by rw lookup_app_l.
Qed.

Lemma length_raw_block u d n p : length (raw_block u d n p) = (8 + length p)%nat.
Proof. rw /raw_block !length_app !length_serialize /=. lia. Qed.

Lemma raw_block_version u d n p : deserializeWithOffset 2 (raw_block u d n p) 0 = Ok FORMAT_VERSION_HEADER.
Proof. rw /deserializeWithOffset drop_0. by apply deserialize_serialize. Qed.

Lemma raw_block_depth u d n p : 0 ≤ d < 256 → deserializeWithOffset 1 (raw_block u d n p) 3 = Ok d.
Proof.
  intros H. rw /deserializeWithOffset /raw_block app_assoc drop_app_length'.
  - apply deserialize_serialize. lia.
  - by rw length_app length_serialize.
Qed.

Lemma raw_block_size u d n p : 0 ≤ n < 2 ^ 32 → deserializeWithOffset 4 (raw_block u d n p) 4 = Ok n.
Proof.
  intros H. rw /deserializeWithOffset /raw_block. rw !app_assoc -(app_assoc _ _ p) drop_app_length'.
  - apply deserialize_serialize. lia.
  - by rw !length_app !length_serialize.
Qed.

Lemma raw_block_data u d n p : drop 8 (raw_block u d n p) = p.
Proof.
  rw /raw_block. rw !app_assoc drop_app_length'; [done|].
  by rw !length_app !length_serialize.
Qed.

Lemma raw_block_setSize u d n n' p : splice 4 (serialize 4 n') (raw_block u d n p) = raw_block u d n' p.
Proof.
  rw /raw_block. rw (app_assoc [u]) (app_assoc (serialize 2 _)). rw (splice_app_r 4 0).
  - rw splice_app_head; [|by rw !length_serialize]. by rw -!app_assoc.
  - by rw !length_app !length_serialize.
Qed.

Lemma raw_block_write u d n p off src :
  splice (8 + off) src (raw_block u d n p) = raw_block u d n (splice off src p).
Proof.
  rw /raw_block. rw !app_assoc. rw (splice_app_r 8); [by rw -!app_assoc|].
  by rw !length_app !length_serialize.
Qed.

(** ** Lists of child ids *)
Lemma concat_drop (l : list bytes) i :
  Forall BlockId.valid l → drop (i * 16) (concat l) = concat (drop i l).
Proof.
  intros H. revert i. induction H as [|x l Hx Hl IH]; intros i; [by rw /= !drop_nil|].
  destruct i as [|i]; [done|]. replace (S i * 16)%nat with (length x + i * 16)%nat by (rw Hx /BlockId.BINARY_LENGTH; lia).
  cbn [drop concat]. by rw -drop_drop drop_app_length IH.
Qed.

Lemma length_concat_ids (l : list bytes) : Forall BlockId.valid l → length (concat l) = (length l * 16)%nat.
Proof. induction 1 as [|x l Hx Hl IH]; [done|]. simpl. rw length_app IH Hx /BlockId.BINARY_LENGTH. lia. Qed.

(** ** Layouts *)
Definition layout_ok (layout : DataNodeLayout.t) : Prop :=
  40 ≤ DataNodeLayout._blocksizeBytes layout < 2 ^ 32.
Definition leafBytes (layout : DataNodeLayout.t) : nat := Z.to_nat (DataNodeLayout.maxBytesPerLeaf layout).
Definition fanout (layout : DataNodeLayout.t) : nat := Z.to_nat (DataNodeLayout.maxChildrenPerInnerNode layout).

Section layouts.
Context (layout : DataNodeLayout.t) (Hl : layout_ok layout).
Import DataNodeLayout.

Lemma datasize_eq : datasizeBytes layout = blocksizeBytes layout - 8.
Proof using Hl.
  rw /datasizeBytes /blocksizeBytes /HEADERSIZE_BYTES u32_small; [done|]. destruct Hl. lia.
Qed.
Lemma leafBytes_eq : Z.of_nat (leafBytes layout) = maxBytesPerLeaf layout.
Proof using Hl.
  rw /leafBytes /maxBytesPerLeaf datasize_eq. destruct Hl. rw Z2Nat.id //. rw /blocksizeBytes. lia.
Qed.
Lemma blocksize_eq : blocksizeBytes layout = 8 + Z.of_nat (leafBytes layout).
Proof using Hl. rw leafBytes_eq /maxBytesPerLeaf datasize_eq. lia. Qed.
Lemma leafBytes_range : (32 ≤ leafBytes layout)%nat ∧ Z.of_nat (leafBytes layout) < 2 ^ 32 - 8.
Proof using Hl. pose proof blocksize_eq as H. rw /blocksizeBytes in H. destruct Hl. lia. Qed.
Lemma fanout_eq : Z.of_nat (fanout layout) = maxChildrenPerInnerNode layout.
Proof using Hl.
  pose proof leafBytes_eq. pose proof leafBytes_range.
  rw /fanout /maxChildrenPerInnerNode Z2Nat.id //. apply Z.div_pos; [|done]. rw /maxBytesPerLeaf in H. lia.
Qed.
Lemma fanout_range : (2 ≤ fanout layout)%nat ∧ (fanout layout * 16 ≤ leafBytes layout)%nat.
Proof using Hl.
  pose proof leafBytes_eq as H. pose proof leafBytes_range. pose proof fanout_eq as E.
  rw /maxBytesPerLeaf in H. rw /maxChildrenPerInnerNode -H in E.
  pose proof (Z.div_mod (Z.of_nat (leafBytes layout)) 16). pose proof (Z.mod_pos_bound (Z.of_nat (leafBytes layout)) 16). lia.
Qed.
Lemma layout_new : DataNodeLayout.new (blocksizeBytes layout) = Ok layout.
Proof using Hl.
  rw /new. destruct layout as [B]; destruct Hl as [H1 H2]; simpl in *.
  rw decide_True; [|rw /blocksizeBytes /HEADERSIZE_BYTES /=; lia]. rw u32_small; [done|].
  rw /blocksizeBytes /=. lia.
Qed.
Lemma serialize__raw u d n data :
  serialize_ layout u FORMAT_VERSION_HEADER d n data = raw_block u d n (pad (leafBytes layout) data).
Proof. done. Qed.
End layouts.

(** Run a bound operation with the rule [L] that takes and returns [H]. *)
Tactic Notation "wpb" open_constr(L) constr(H) := iApply wp_bind; iApply (L with H); iIntros H.

Section specs.
Context {Σ : gFunctors} {X : Type} `{!nodeGS Σ X}.
Context (layout : DataNodeLayout.t) (uninit : byte) (Hl : layout_ok layout).
Implicit Types (id : bytes) (Φ : unit → iProp Σ).

(** The block of a node of depth [d] and size field [n] with payload [p]. *)
Definition node_at id (d n : nat) (p : bytes) : iProp Σ :=
  ∃ u, id ↦ raw_block u (Z.of_nat d) (Z.of_nat n) (pad (leafBytes layout) p) ∗
       ⌜(d ≤ 10)%nat ∧ (n ≤ leafBytes layout)%nat ∧ (length p ≤ leafBytes layout)%nat⌝.

Definition leaf id (data : bytes) : iProp Σ := node_at id 0 (length data) data.
Definition inner id (d : nat) (children : list bytes) : iProp Σ :=
  node_at id d (length children) (concat children) ∗
  ⌜(1 ≤ d)%nat ∧ (1 ≤ length children ≤ fanout layout)%nat ∧ Forall BlockId.valid children⌝.

(** *** Header fields *)
Lemma wp_Depth id d n p (Φ : Z → iProp Σ) :
  node_at id d n p -∗ (node_at id d n p -∗ Φ (Z.of_nat d)) -∗ wp (Depth (X := X) id) Φ.
Proof using Hl.
  iIntros "(%u & Hb & %H) HΦ". iApply wp_bind. iApply (wp_block_data with "Hb"). iIntros "Hb".
  iApply wp_lift; [apply raw_block_depth; lia|]. iApply "HΦ". iExists u. by iFrame.
Qed.

Lemma wp_Size id d n p (Φ : Z → iProp Σ) :
  node_at id d n p -∗ (node_at id d n p -∗ Φ (Z.of_nat n)) -∗ wp (Size (X := X) id) Φ.
Proof using Hl.
  iIntros "(%u & Hb & %H) HΦ". iApply wp_bind. iApply (wp_block_data with "Hb"). iIntros "Hb".
  pose proof (leafBytes_range layout Hl).
  iApply wp_lift; [apply raw_block_size; lia|]. iApply "HΦ". iExists u. by iFrame.
Qed.

Lemma wp_FormatVersion id d n p (Φ : Z → iProp Σ) :
  node_at id d n p -∗ (node_at id d n p -∗ Φ FORMAT_VERSION_HEADER) -∗ wp (FormatVersion (X := X) id) Φ.
Proof.
  iIntros "(%u & Hb & %H) HΦ". iApply wp_bind. iApply (wp_block_data with "Hb"). iIntros "Hb".
  iApply wp_lift; [apply raw_block_version|]. iApply "HΦ". iExists u. by iFrame.
Qed.

Lemma wp_view_data id d n p (Φ : bytes → iProp Σ) :
  node_at id d n p -∗ (node_at id d n p -∗ Φ (pad (leafBytes layout) p)) -∗ wp (view_data (X := X) id) Φ.
Proof.
  iIntros "(%u & Hb & %H) HΦ". iApply wp_bind. iApply (wp_block_data with "Hb"). iIntros "Hb".
  iApply wp_ret. rw raw_block_data. iApply "HΦ". iExists u. by iFrame.
Qed.

Lemma node_block_length u d n p :
  (length p ≤ leafBytes layout)%nat →
  Z.of_nat (length (raw_block u d n (pad (leafBytes layout) p))) = DataNodeLayout.blocksizeBytes layout.
Proof using Hl. intros H. rw length_raw_block length_pad (blocksize_eq layout Hl). lia. Qed.

Lemma wp_view_layout id d n p (Φ : DataNodeLayout.t → iProp Σ) :
  node_at id d n p -∗ (node_at id d n p -∗ Φ layout) -∗ wp (view_layout (X := X) id) Φ.
Proof using Hl.
  iIntros "(%u & Hb & %H) HΦ". iApply wp_bind. iApply (wp_block_size with "Hb"). iIntros "Hb".
  rw node_block_length; [|lia]. iApply wp_lift; [by apply layout_new|]. iApply "HΦ". iExists u. by iFrame.
Qed.

Lemma wp_setSize id d n n' p Φ :
  (n' ≤ leafBytes layout)%nat →
  node_at id d n p -∗ (node_at id d n' p -∗ Φ tt) -∗ wp (setSize (X := X) id (Z.of_nat n')) Φ.
Proof using Hl.
  iIntros (Hn) "(%u & Hb & %H) HΦ". pose proof (leafBytes_range layout Hl).
  iApply (wp_block_write with "Hb").
  { done. }
  { rw length_raw_block length_serialize length_pad /DataNodeLayout.SIZE_OFFSET_BYTES. lia. }
  { rw length_raw_block length_pad. lia. }
  iIntros "Hb". iApply "HΦ". iExists u. change (Z.to_nat DataNodeLayout.SIZE_OFFSET_BYTES) with 4%nat.
  rw raw_block_setSize. iFrame. iPureIntro. lia.
Qed.

(** Writing [src] at [off] when the payload becomes [p']. *)
Lemma wp_view_write id d n p p' src off Φ :
  (off + length src ≤ leafBytes layout)%nat → (length p' ≤ leafBytes layout)%nat →
  splice off src (pad (leafBytes layout) p) = pad (leafBytes layout) p' →
  node_at id d n p -∗ (node_at id d n p' -∗ Φ tt) -∗ wp (view_write (X := X) id src (Z.of_nat off)) Φ.
Proof using Hl.
  iIntros (Ho Hp' E) "(%u & Hb & %H) HΦ". pose proof (leafBytes_range layout Hl).
  rw /view_write /DataNodeLayout.HEADERSIZE_BYTES u64_small; [|lia].
  iApply (wp_block_write with "Hb").
  { lia. }
  { rw length_raw_block length_pad. lia. }
  { rw length_raw_block length_pad. lia. }
  iIntros "Hb". iApply "HΦ". iExists u. replace (Z.to_nat (Z.of_nat off + 8)) with (8 + off)%nat by lia.
  rw raw_block_write E. iFrame. iPureIntro. lia.
Qed.

(** *** Leaves *)
Lemma wp_DataLeafNode id n p (Φ : bytes → iProp Σ) :
  node_at id 0 n p -∗ (node_at id 0 n p -∗ Φ id) -∗ wp (DataLeafNode (X := X) id) Φ.
Proof using Hl.
  iIntros "H HΦ". rw /DataLeafNode /maxStoreableBytes /leaf_numBytes.
  wpb wp_Depth "H". iApply wp_assert; [done|]. wpb wp_Size "H".
  iApply wp_bind. wpb wp_view_layout "H". iApply wp_ret.
  iDestruct "H" as (u) "[H %H]". iApply wp_assert.
  { apply bool_decide_true. rw -leafBytes_eq //. lia. }
  iAssert (node_at id 0 n p) with "[H]" as "H"; [iExists u; by iFrame|].
  wpb wp_FormatVersion "H". iApply wp_ret. by iApply "HΦ".
Qed.

Lemma wp_block_create_node d n p (Φ : bytes → iProp Σ) :
  (d ≤ 10)%nat → (n ≤ leafBytes layout)%nat → (length p ≤ leafBytes layout)%nat →
  fresh 1 -∗ (∀ id, ⌜new_id id⌝ -∗ node_at id d n p -∗ Φ id) -∗
  wp (view_create (X := X) layout uninit FORMAT_VERSION_HEADER (Z.of_nat d) (Z.of_nat n) p) Φ.
Proof using Hl.
  iIntros (Hd Hn Hp) "Hf HΦ". rw /view_create serialize__raw.
  iApply wp_assert. { apply bool_decide_true. change (DataNodeLayout.datasizeBytes layout) with (DataNodeLayout.maxBytesPerLeaf layout). rw -leafBytes_eq //. lia. }
  iApply wp_assert. { apply bool_decide_true. by apply node_block_length. }
  iApply (wp_block_create with "Hf"). iIntros (id Hid) "Hb". iApply "HΦ"; [done|].
  iExists uninit. by iFrame.
Qed.

Lemma wp_createNewLeafNode data (Φ : bytes → iProp Σ) :
  (length data ≤ leafBytes layout)%nat →
  fresh 1 -∗ (∀ id, ⌜new_id id⌝ -∗ leaf id data -∗ Φ id) -∗
  wp (createNewLeafNode (X := X) layout uninit data) Φ.
Proof using Hl.
  iIntros (Hd) "Hf HΦ". pose proof (leafBytes_range layout Hl).
  rw /createNewLeafNode /leaf_CreateNewNode.
  iApply wp_assert. { apply bool_decide_true. rw -leafBytes_eq //. lia. }
  rw u32_small; [|lia]. iApply wp_bind.
  iApply (wp_block_create_node 0 with "Hf"); [lia..|]. iIntros (id Hid) "H".
  iApply (wp_DataLeafNode with "H"). by iApply "HΦ".
Qed.

Lemma wp_overwriteLeaf id old data (Φ : bytes → iProp Σ) :
  length data = leafBytes layout →
  leaf id old -∗ (leaf id data -∗ Φ id) -∗ wp (overwriteLeaf (X := X) layout uninit id data) Φ.
Proof using Hl.
  iIntros (Hd) "(%u & H & _) HΦ". pose proof (leafBytes_range layout Hl).
  rw /overwriteLeaf /leaf_OverwriteNode.
  iApply wp_assert. { apply bool_decide_true. rw -leafBytes_eq //. lia. }
  rw u32_small; [|lia]. iApply wp_bind. rw /view_overwrite.
  iApply wp_assert. { apply bool_decide_true. change (DataNodeLayout.datasizeBytes layout) with (DataNodeLayout.maxBytesPerLeaf layout). rw -leafBytes_eq //. lia. }
  iApply (wp_block_overwrite with "H"). iIntros "H".
  iApply (wp_DataLeafNode with "[H]"); [|done]. iExists uninit. rw serialize__raw. iFrame. iPureIntro. lia.
Qed.

Lemma wp_leaf_numBytes id data (Φ : Z → iProp Σ) :
  leaf id data -∗ (leaf id data -∗ Φ (Z.of_nat (length data))) -∗ wp (leaf_numBytes (X := X) id) Φ.
Proof using Hl. iIntros "H HΦ". by iApply (wp_Size with "H"). Qed.

Lemma leaf_length id data : leaf id data ⊢ ⌜(length data ≤ leafBytes layout)%nat⌝.
Proof. iIntros "(%u & _ & %H)". iPureIntro. lia. Qed.

Lemma wp_leaf_read id data off n (Φ : bytes → iProp Σ) :
  (off + n ≤ length data)%nat →
  leaf id data -∗ (leaf id data -∗ Φ (slice off n data)) -∗
  wp (leaf_read (X := X) id (Z.of_nat off) (Z.of_nat n)) Φ.
Proof using Hl.
  iIntros (Hn) "H HΦ". iDestruct (leaf_length with "H") as %Hlen. pose proof (leafBytes_range layout Hl).
  rw /leaf_read. wpb wp_Size "H". iApply wp_assert.
  { rw u64_small; [|lia]. rw !bool_decide_true; [done|lia..]. }
  wpb wp_view_data "H". iApply wp_lift; [|by iApply "HΦ"].
  rw Data.memcpy_from_ok; [|rw length_pad; lia]. rw !Nat2Z.id /pad slice_app_l //.
Qed.

Lemma wp_leaf_write id data src off Φ :
  (off + length src ≤ length data)%nat →
  leaf id data -∗ (leaf id (splice off src data) -∗ Φ tt) -∗ wp (leaf_write (X := X) id src (Z.of_nat off)) Φ.
Proof using Hl.
  iIntros (Hn) "H HΦ". iDestruct (leaf_length with "H") as %Hlen. pose proof (leafBytes_range layout Hl).
  rw /leaf_write. wpb wp_Size "H". iApply wp_assert.
  { rw u64_small; [|lia]. rw !bool_decide_true; [done|lia..]. }
  iApply (wp_view_write _ _ _ _ (splice off src data) with "H").
  { lia. }
  { by rw length_splice. }
  { by apply splice_pad. }
  iIntros "H". iApply "HΦ". rw /leaf length_splice //.
Qed.

(** The content of a leaf resized to [n] bytes. *)
Definition resized (n : nat) (data : bytes) : bytes := pad n (take n data).

Lemma length_resized n data : length (resized n data) = n.
Proof. rw /resized length_pad length_take. lia. Qed.

Lemma wp_leaf_resize id data n Φ :
  (n ≤ leafBytes layout)%nat →
  leaf id data -∗ (leaf id (resized n data) -∗ Φ tt) -∗ wp (leaf_resize (X := X) id (Z.of_nat n)) Φ.
Proof using Hl.
  iIntros (Hn) "H HΦ". iDestruct (leaf_length with "H") as %Hlen.
  rw /leaf_resize /maxStoreableBytes. iApply wp_bind. wpb wp_view_layout "H". iApply wp_ret.
  iApply wp_assert. { apply bool_decide_true. rw -leafBytes_eq //. lia. }
  wpb wp_Size "H". iApply wp_bind.
  iApply (wp_wand _ (λ _, node_at id 0 (length data) (take n data)) with "[H]").
  { case_decide.
    - rw /fillDataWithZeroesFromTo. iApply (wp_view_write with "H"); [..|by iIntros].
      + rw /Data.FillWithZeroes length_replicate. lia.
      + rw length_take. lia.
      + rw /Data.FillWithZeroes. replace (Z.to_nat _) with (length data - n)%nat by lia.
        apply splice_pad_zeroes; lia.
    - iApply wp_ret. rw take_ge //. lia. }
  iIntros ([]) "H". iApply (wp_setSize with "H"); [done|]. iIntros "(%u & H & %H)". iApply "HΦ".
  iExists u. rw length_resized /resized pad_pad //. iFrame. iPureIntro. lia.
Qed.

(** *** Inner nodes *)
Lemma wp_DataInnerNode id d n p (Φ : bytes → iProp Σ) :
  (1 ≤ d)%nat →
  node_at id d n p -∗ (node_at id d n p -∗ Φ id) -∗ wp (DataInnerNode (X := X) id) Φ.
Proof using Hl.
  iIntros (Hd) "H HΦ". rw /DataInnerNode.
  wpb wp_Depth "H". iApply wp_assert; [apply bool_decide_true; lia|].
  wpb wp_FormatVersion "H". iApply wp_ret. by iApply "HΦ".
Qed.

(** The list of children of an inner node fits into its block. *)
Definition children_ok (children : list bytes) : Prop :=
  (1 ≤ length children ≤ fanout layout)%nat ∧ Forall BlockId.valid children.

Lemma children_length children : children_ok children →
  length (concat children) = (length children * 16)%nat ∧
  (length children * 16 ≤ leafBytes layout)%nat ∧ (length children ≤ leafBytes layout)%nat.
Proof using Hl.
  intros [H1 H2]. rw length_concat_ids //. destruct (fanout_range layout Hl). nia.
Qed.

Lemma inner_unfold id d children :
  inner id d children ⊣⊢ node_at id d (length children) (concat children) ∗ ⌜(1 ≤ d)%nat ∧ children_ok children⌝.
Proof. done. Qed.

Lemma inner_ok id d children : inner id d children ⊢ ⌜(1 ≤ d ≤ 10)%nat ∧ children_ok children⌝.
Proof. iIntros "[(%u & _ & %H) %H']". iPureIntro. split; [lia|apply H']. Qed.

Lemma wp_inner_CreateNewNode d children (Φ : bytes → iProp Σ) :
  (1 ≤ d ≤ 10)%nat → children_ok children →
  fresh 1 -∗ (∀ id, ⌜BlockId.valid id⌝ -∗ inner id d children -∗ Φ id) -∗
  wp (createNewInnerNode (X := X) layout uninit (Z.of_nat d) children) Φ.
Proof using Hl.
  iIntros (Hd Hc) "Hf HΦ". pose proof (leafBytes_range layout Hl). destruct (children_length _ Hc) as (E & H1 & H2).
  rw /createNewInnerNode /inner_CreateNewNode.
  iApply wp_assert. { apply bool_decide_true. destruct Hc. lia. }
  iApply wp_assert. { apply bool_decide_true. destruct Hc. lia. }
  iApply wp_bind. rw u32_small; [|lia]. iApply (wp_block_create_node with "Hf"); [lia..|rw E; lia|].
  iIntros (id [Hid _]) "H". iApply (wp_DataInnerNode with "H"); [lia|]. iIntros "H". iApply "HΦ"; [done|].
  rw inner_unfold. iFrame. iPureIntro. split; [lia|done].
Qed.

Lemma wp_numChildren id d children (Φ : Z → iProp Σ) :
  inner id d children -∗ (inner id d children -∗ Φ (Z.of_nat (length children))) -∗ wp (numChildren (X := X) id) Φ.
Proof using Hl.
  iIntros "[H %H] HΦ". iApply (wp_Size with "H"). iIntros "H". iApply "HΦ". by iFrame.
Qed.

Lemma wp_inner_Depth id d children (Φ : Z → iProp Σ) :
  inner id d children -∗ (inner id d children -∗ Φ (Z.of_nat d)) -∗ wp (Depth (X := X) id) Φ.
Proof using Hl.
  iIntros "[H %H] HΦ". iApply (wp_Depth with "H"). iIntros "H". iApply "HΦ". by iFrame.
Qed.

Lemma wp_readChild id d children i c (Φ : bytes → iProp Σ) :
  children !! i = Some c →
  inner id d children -∗ (inner id d children -∗ Φ c) -∗ wp (readChild (X := X) id (Z.of_nat i)) Φ.
Proof using Hl.
  iIntros (Hi) "[H %H] HΦ". pose proof (lookup_lt_Some _ _ _ Hi).
  destruct H as (Hd & Hc). destruct (children_length _ Hc) as (E & H1 & H2). destruct Hc as [Hc Hv].
  rw /readChild /numChildren. wpb wp_Size "H". iApply wp_assert; [apply bool_decide_true; lia|].
  wpb wp_view_data "H". iApply wp_lift; [|iApply "HΦ"; by iFrame].
  rw /pad. replace (Z.to_nat (Z.of_nat i * 16)) with (i * 16)%nat by lia.
  rw drop_app_le; [|rw E; lia]. rw concat_drop //. rw (drop_S _ c) //. cbn [concat]. rw -app_assoc.
  apply BlockId.FromBinary_app. by eapply Forall_lookup_1.
Qed.

Lemma wp_readLastChild id d children c (Φ : bytes → iProp Σ) :
  last children = Some c →
  inner id d children -∗ (inner id d children -∗ Φ c) -∗ wp (readLastChild (X := X) id) Φ.
Proof using Hl.
  iIntros (Hlast) "H HΦ". iDestruct (inner_ok with "H") as %[Hd Hc].
  destruct (children_length _ Hc) as (_ & _ & H2). pose proof (leafBytes_range layout Hl). destruct Hc as [Hc Hv].
  rw /readLastChild. wpb wp_numChildren "H". rw u32_small; [|lia].
  replace (_ - 1) with (Z.of_nat (pred (length children))) by lia.
  rw last_lookup in Hlast. by iApply (wp_readChild with "H").
Qed.

(** [_writeLastChild] after the size field was set: the payload [p] holds the
    first children, the last one is written. *)
Lemma wp_writeLastChild id d n p p' child Φ :
  (S n * 16 ≤ leafBytes layout)%nat → BlockId.valid child → (length p' ≤ leafBytes layout)%nat →
  splice (n * 16) child (pad (leafBytes layout) p) = pad (leafBytes layout) p' →
  node_at id d (S n) p -∗ (node_at id d (S n) p' -∗ Φ tt) -∗ wp (_writeLastChild (X := X) id child) Φ.
Proof using Hl.
  iIntros (Hn Hv Hp E) "H HΦ". pose proof (leafBytes_range layout Hl).
  rw /_writeLastChild /_writeChild /numChildren. wpb wp_Size "H". wpb wp_Size "H".
  rw u32_small; [|lia]. iApply wp_assert; [apply bool_decide_true; lia|].
  replace ((Z.of_nat (S n) - 1) * 16) with (Z.of_nat (n * 16)) by lia.
  iApply (wp_view_write with "H"); [rw Hv /BlockId.BINARY_LENGTH; lia|done..].
Qed.

Lemma wp_addChild id d children child n p Φ :
  (length children < fanout layout)%nat → BlockId.valid child →
  inner id (S d) children -∗ node_at child d n p -∗
  (inner id (S d) (children ++ [child]) -∗ node_at child d n p -∗ Φ tt) -∗
  wp (addChild (X := X) id child) Φ.
Proof using Hl.
  iIntros (Hn Hv) "[H %H] Hch HΦ". destruct H as (Hd & Hc). destruct (children_length _ Hc) as (E & H1 & H2).
  pose proof (leafBytes_range layout Hl). destruct (fanout_range layout Hl).
  rw /addChild /numChildren /maxStoreableChildren. wpb wp_Size "H".
  iApply wp_bind. wpb wp_view_layout "H". iApply wp_ret.
  rw u32_small -fanout_eq //; [|lia]. iApply wp_assert; [apply bool_decide_true; lia|].
  wpb wp_Depth "Hch". wpb wp_Depth "H". iApply wp_assert; [apply bool_decide_true; lia|].
  wpb wp_Size "H". rw u32_small; [|lia]. replace (_ + 1) with (Z.of_nat (S (length children))) by lia.
  iApply wp_bind. iApply (wp_setSize with "H"); [nia|]. iIntros "H".
  destruct Hc as [Hc Hvc].
  assert (children_ok (children ++ [child])) as Hc'.
  { split; [rw length_app /=; lia|]. apply Forall_app. by split; [|constructor]. }
  destruct (children_length _ Hc') as (E' & H1' & _). rw length_app /= in H1'.
  iApply (wp_writeLastChild _ _ _ _ (concat (children ++ [child])) with "H").
  { lia. }
  { done. }
  { rw E' length_app /=. lia. }
  { rw -E splice_pad_append; [|rw E Hv /BlockId.BINARY_LENGTH; lia]. by rw concat_app /= app_nil_r. }
  iIntros "H". iApply ("HΦ" with "[H] Hch"). rw inner_unfold length_app /= Nat.add_1_r. iFrame.
  iPureIntro. by split; [lia|].
Qed.

Lemma wp_removeLastChild id d children child Φ :
  (1 ≤ length children)%nat →
  inner id d (children ++ [child]) -∗ (inner id d children -∗ Φ tt) -∗ wp (removeLastChild (X := X) id) Φ.
Proof using Hl.
  iIntros (Hn) "[H %H] HΦ". destruct H as (Hd & Hc). destruct (children_length _ Hc) as (E & H1 & H2).
  pose proof (leafBytes_range layout Hl). destruct Hc as [Hc Hv].
  apply Forall_app in Hv as [Hv Hvc]. apply Forall_inv in Hvc. rw length_app /= in E Hc H1 H2 *.
  assert (children_ok children) as Hc' by (split; [lia|done]).
  destruct (children_length _ Hc') as (E' & H1' & _).
  rw Nat.add_1_r. rw /removeLastChild. wpb wp_Size "H". iApply wp_assert; [apply bool_decide_true; lia|].
  iApply wp_bind. iApply (wp_writeLastChild _ _ _ _ (concat children) with "H").
  { lia. }
  { done. }
  { lia. }
  { rw concat_app /= app_nil_r. pose proof (splice_pad_zeroes (leafBytes layout) (length (concat children)) (concat children ++ child)) as Hs.
    rw take_app_length length_app Hvc E' in Hs. rw /BlockId.Null /FixedSizeData.Null.
    replace BlockId.BINARY_LENGTH with (length children * 16 + BlockId.BINARY_LENGTH - length children * 16)%nat by lia.
    apply Hs; rw /BlockId.BINARY_LENGTH; lia. }
  iIntros "H". wpb wp_Size "H". rw u32_small; [|lia].
  replace (Z.of_nat (S _) - 1) with (Z.of_nat (length children)) by lia.
  iApply (wp_setSize with "H"); [lia|]. iIntros "H". iApply "HΦ". rw inner_unfold. by iFrame.
Qed.

(** *** The node store *)
Definition node_of (d : nat) id : node := match d with O => LeafNode id | _ => InnerNode id end.

Lemma wp_load_block id d n p (Φ : node → iProp Σ) :
  node_at id d n p -∗ (node_at id d n p -∗ Φ (node_of d id)) -∗ wp (load_block (X := X) id) Φ.
Proof using Hl.
  iIntros "H HΦ". iAssert ⌜(d ≤ 10)%nat⌝%I as %Hd. { iDestruct "H" as (u) "[_ %H]". iPureIntro. lia. }
  rw /load_block. wpb wp_Depth "H". destruct d as [|d].
  - simpl. wpb wp_DataLeafNode "H". iApply wp_ret. by iApply "HΦ".
  - case_decide; [lia|]. case_decide as Hm; [|rw /MAX_DEPTH in Hm; lia].
    iApply wp_bind. iApply (wp_DataInnerNode with "H"); [lia|]. iIntros "H". iApply wp_ret. by iApply "HΦ".
Qed.

Lemma wp_load id d n p (Φ : option node → iProp Σ) :
  node_at id d n p -∗ (node_at id d n p -∗ Φ (Some (node_of d id))) -∗ wp (load (X := X) layout id) Φ.
Proof using Hl.
  iIntros "(%u & H & %H) HΦ". rw /load. wpb wp_block_load "H". wpb wp_block_size "H".
  iApply wp_assert; [apply bool_decide_true, node_block_length; lia|].
  iApply wp_bind. iApply (wp_load_block id d n p with "[H]"); [iExists u; by iFrame|]. iIntros "H".
  iApply wp_ret. by iApply "HΦ".
Qed.

Lemma wp_createNewNodeAsCopyFrom id d n p (Φ : node → iProp Σ) :
  fresh 1 -∗ node_at id d n p -∗
  (∀ id', ⌜BlockId.valid id'⌝ -∗ node_at id d n p -∗ node_at id' d n p -∗ Φ (node_of d id')) -∗
  wp (createNewNodeAsCopyFrom (X := X) layout id) Φ.
Proof using Hl.
  iIntros "Hf H HΦ". rw /createNewNodeAsCopyFrom /copyToNewBlock. wpb wp_view_layout "H".
  iApply wp_assert; [by apply bool_decide_true|]. iDestruct "H" as (u) "[H %H]".
  iApply wp_bind. wpb wp_block_data "H". iApply (wp_block_create with "Hf"). iIntros (id' [Hid' _]) "H'".
  iApply (wp_load_block id' d n p with "[H']"); [iExists u; by iFrame|]. iIntros "H'".
  iApply ("HΦ" with "[//] [H] H'"). iExists u. by iFrame.
Qed.

Lemma wp_overwriteNodeWith id d n p id' d' n' p' (Φ : node → iProp Σ) :
  node_at id d n p -∗ node_at id' d' n' p' -∗
  (node_at id d' n' p' -∗ node_at id' d' n' p' -∗ Φ (node_of d' id)) -∗
  wp (overwriteNodeWith (X := X) layout id id') Φ.
Proof using Hl.
  iIntros "H H' HΦ". rw /overwriteNodeWith /copyTo. wpb wp_view_layout "H".
  iApply wp_assert; [by apply bool_decide_true|]. wpb wp_view_layout "H'".
  iApply wp_assert; [by apply bool_decide_true|].
  iDestruct "H" as (u) "[H %H]". iDestruct "H'" as (u') "[H' %H']". pose proof (leafBytes_range layout Hl).
  iApply wp_bind. wpb wp_block_size "H". wpb wp_block_data "H'".
  iApply wp_assert; [apply bool_decide_true; rw !node_block_length //; lia|].
  iApply (wp_block_write with "H"); [done|rw !node_block_length; lia|rw node_block_length; [|lia]; rw blocksize_eq //; lia|].
  rw splice_all; [|rw !length_raw_block !length_pad; lia]. iIntros "H".
  iApply (wp_load_block id d' n' p' with "[H]"); [iExists u'; by iFrame|]. iIntros "H".
  iApply ("HΦ" with "H"). iExists u'. by iFrame.
Qed.

Lemma wp_convertToNewInnerNode id d n p child d' n' p' (Φ : bytes → iProp Σ) :
  BlockId.valid child → (d' < 10)%nat →
  node_at id d n p -∗ node_at child d' n' p' -∗
  (inner id (S d') [child] -∗ node_at child d' n' p' -∗ Φ id) -∗
  wp (convertToNewInnerNode (X := X) layout uninit id child) Φ.
Proof using Hl.
  iIntros (Hv Hd') "(%u & H & %H) Hc HΦ". pose proof (leafBytes_range layout Hl). destruct (fanout_range layout Hl).
  assert (children_ok [child]) as Hok by (split; [simpl; lia|by constructor]).
  destruct (children_length _ Hok) as (E & H1' & _). simpl in H1'.
  rw /convertToNewInnerNode /fillWithZeroes. iApply wp_bind. wpb wp_block_size "H".
  rw node_block_length; [|lia]. rw /Data.FillWithZeroes.
  iApply (wp_block_write with "H"); [done|..].
  { rw length_replicate node_block_length; [|lia]. rw blocksize_eq //. lia. }
  { rw node_block_length; [|lia]. rw blocksize_eq //. lia. }
  rw splice_all; [|rw length_replicate length_raw_block length_pad blocksize_eq //; lia]. iIntros "H".
  wpb wp_Depth "Hc". rw /inner_InitializeNewNode. iApply wp_assert; [done|].
  rw (u8_small (_ + 1)); [|lia]. rw u32_small; [|done].
  iApply wp_bind. rw /view_initialize. wpb wp_block_size "H".
  iApply wp_bind. iApply wp_lift. { rw length_replicate blocksize_eq //. rw Z2Nat.id; [|lia]. rw -blocksize_eq //. by apply layout_new. }
  iApply wp_assert. { apply bool_decide_true. change (DataNodeLayout.datasizeBytes layout) with (DataNodeLayout.maxBytesPerLeaf layout). rw -leafBytes_eq //. rw /_serializeChildren E /=. lia. }
  rw serialize__raw /_serializeChildren. iApply wp_assert.
  { apply bool_decide_true. rw node_block_length; [|rw E /=; lia]. rw length_replicate blocksize_eq //. lia. }
  iApply wp_bind. iApply (wp_block_write with "H"); [done|..].
  { rw node_block_length; [|rw E /=; lia]. rw length_replicate blocksize_eq //. lia. }
  { rw length_replicate blocksize_eq //. lia. }
  rw splice_all; [|rw length_raw_block length_pad length_replicate blocksize_eq // E /=; lia]. iIntros "H".
  iApply wp_ret. replace (Z.of_nat d' + 1) with (Z.of_nat (S d')) by lia.
  iApply (wp_DataInnerNode id (S d') 1 (concat [child]) with "[H]"); [lia|iExists uninit; iFrame; iPureIntro; rw E /=; lia|].
  iIntros "H". iApply ("HΦ" with "[H] Hc"). rw inner_unfold. iFrame. iPureIntro. by split; [lia|].
Qed.

Lemma wp_remove id d n p Φ : node_at id d n p -∗ Φ tt -∗ wp (Nodes.remove (X := X) id) Φ.
Proof. iIntros "(%u & H & _) HΦ". iApply (wp_block_remove with "H HΦ"). Qed.
End specs.
