(* ===== verification/TreeModel.v ===== *)
(** * What a traversal does to the leaves of a tree

    A (sub)tree is seen as the list of the contents of its leaves. [trav] is
    the list after a traversal of the leaf range [b, e): new leaves are
    appended up to [e], the last old leaf is filled up when leaves follow it,
    and the callbacks transform the leaves of the range. The main lemma
    [trav_slice] says that traversing a node amounts to traversing its
    children with the local ranges and flags that LeafTraverser.cpp computes. *)
From S2P Require Import Prelude NodeSpec.
From Stdlib Require Import Lia ZArith ZifyBool ZifyNat.
Open Scope nat_scope.

(** ** Rounding up *)
Definition cdiv (a w : nat) : nat := (a + w - 1) / w.

Lemma lt_cdiv a w k : 0 < w → k < cdiv a w ↔ k * w < a.
Proof.
  intros Hw. unfold cdiv.
  pose proof (Nat.div_mod (a + w - 1) w ltac:(lia)) as E.
  pose proof (Nat.mod_upper_bound (a + w - 1) w ltac:(lia)).
  split; intros H1; nia.
Qed.

Lemma div_le_iff b w k : 0 < w → b / w ≤ k ↔ b < S k * w.
Proof.
  intros Hw. pose proof (Nat.div_mod b w ltac:(lia)). pose proof (Nat.mod_upper_bound b w ltac:(lia)).
  split; intros; nia.
Qed.

Lemma cdiv_le a w k : 0 < w → cdiv a w ≤ k ↔ a ≤ k * w.
Proof. intros Hw. pose proof (lt_cdiv a w k Hw). lia. Qed.

Lemma cdiv_pos a w : 0 < w → 0 < a → 0 < cdiv a w.
Proof. intros. apply lt_cdiv; lia. Qed.

Lemma cdiv_last a w : 0 < w → 0 < a → (cdiv a w - 1) * w < a ≤ cdiv a w * w.
Proof.
  intros Hw Ha. pose proof (cdiv_pos a w Hw Ha). split.
  - apply lt_cdiv; lia.
  - by apply cdiv_le.
Qed.

Lemma cdiv_unique a w k : 0 < w → (k - 1) * w < a ≤ k * w → 0 < k → cdiv a w = k.
Proof.
  intros Hw [H1 H2] Hk. apply (cdiv_le a w k Hw) in H2.
  apply (lt_cdiv a w (k - 1) Hw) in H1. lia.
Qed.

Lemma lookup_slice {A} o w (l : list A) j :
  slice o w l !! j = if decide (j < w) then l !! (o + j) else None.
Proof.
  case_decide; [by apply slice_lookup|]. unfold slice. apply lookup_take_ge. lia.
Qed.

Lemma length_slice_min {A} o w (l : list A) : length (slice o w l) = Nat.min w (length l - o).
Proof. unfold slice. by rewrite length_take, length_drop. Qed.

Lemma cdiv_max a c w : cdiv (Nat.max a c) w = Nat.max (cdiv a w) (cdiv c w).
Proof.
  unfold cdiv. destruct (Nat.max_spec a c) as [[H ->]|[H ->]]; symmetry; [apply Nat.max_r|apply Nat.max_l];
    apply Nat.Div0.div_le_mono; lia.
Qed.

(** ** Traversal of a list of leaves *)
Section trav.
Context (F : nat) (trim : bool) (f : nat → bool → bytes → bytes) (g : nat → bytes).
Implicit Types (b e off : nat) (grow isR : bool) (ls : list bytes).

(** An existing leaf. *)
Definition trav_pad (n e : nat) grow (i : nat) (l : bytes) : bytes :=
  if (S i =? n) && (grow || (n <? e)) then pad F l else l.
Definition trav_isR (n e : nat) isR (i : nat) : bool := isR && (e =? n) && (S i =? n).
Definition trav_leaf (n b e : nat) grow isR off (i : nat) (l : bytes) : bytes :=
  if (b <=? i) && (i <? e) then f (off + i) (trav_isR n e isR i) (trav_pad n e grow i l)
  else trav_pad n e grow i l.
(** A new leaf. *)
Definition trav_new b off (i : nat) : bytes := if b <=? i then g (off + i) else replicate F x00.

Definition trav_len (n b e : nat) : nat := if trim && (b <? e) then e else Nat.max n e.
Definition trav b e grow isR off ls : list bytes :=
  (λ i, match ls !! i with
        | Some l => trav_leaf (length ls) b e grow isR off i l
        | None => trav_new b off i
        end) <$> seq 0 (trav_len (length ls) b e).
(** A new subtree. *)
Definition created b e off : list bytes := trav_new b off <$> seq 0 e.

Lemma length_trav b e grow isR off ls : length (trav b e grow isR off ls) = trav_len (length ls) b e.
Proof. unfold trav. by rewrite length_fmap, length_seq. Qed.

Lemma length_created b e off : length (created b e off) = e.
Proof. unfold created. by rewrite length_fmap, length_seq. Qed.

Lemma lookup_trav b e grow isR off ls i :
  trav b e grow isR off ls !! i =
    if decide (i < trav_len (length ls) b e) then
      Some (match ls !! i with
            | Some l => trav_leaf (length ls) b e grow isR off i l
            | None => trav_new b off i
            end)
    else None.
Proof.
  unfold trav. rewrite list_lookup_fmap. case_decide.
  - by rewrite lookup_seq_lt.
  - by rewrite lookup_seq_ge by lia.
Qed.

Lemma lookup_created b e off i :
  created b e off !! i = if decide (i < e) then Some (trav_new b off i) else None.
Proof using F g.
  clear trim f.  unfold created. rewrite list_lookup_fmap. case_decide.
  - by rewrite lookup_seq_lt.
  - by rewrite lookup_seq_ge by lia.
Qed.

(** The child that covers the leaves [o, o + w). *)
Definition child_grow (n e o w : nat) grow : bool := (grow || (o + w <? e)) && (n <=? o + w).
Definition child_isR (n e o w : nat) isR : bool := isR && (n <=? o + w) && (e <=? o + w).

Lemma trav_pad_child n e grow o w j l :
  o < n → o < e → j < w → o + j < n →
  trav_pad (Nat.min w (n - o)) (Nat.min w (e - o)) (child_grow n e o w grow) j l = trav_pad n e grow (o + j) l.
Proof.
  intros Hon Hoe Hj Hn. unfold trav_pad, child_grow.
  by replace ((S j =? Nat.min w (n - o)) &&
      ((grow || (o + w <? e)) && (n <=? o + w) || (Nat.min w (n - o) <? Nat.min w (e - o))))
    with ((S (o + j) =? n) && (grow || (n <? e))) by lia.
Qed.

Lemma trav_isR_child n e isR o w j :
  o < n → o < e → j < w → o + j < e →
  trav_isR (Nat.min w (n - o)) (Nat.min w (e - o)) (child_isR n e o w isR) j = trav_isR n e isR (o + j).
Proof. intros Hon Hoe Hj He. unfold trav_isR, child_isR. lia. Qed.

Lemma trav_slice b e grow isR off o w ls :
  b ≤ e → o < length ls → o < e →
  (o + w ≤ b → length ls ≤ o + w → b < e ∨ grow = true) → (trim = true → e ≤ S b) →
  trav (Nat.min w (b - o)) (Nat.min w (e - o)) (child_grow (length ls) e o w grow)
       (child_isR (length ls) e o w isR) (off + o) (slice o w ls)
  = slice o w (trav b e grow isR off ls).
Proof.
  intros Hbe Hon Hoe Hg Ht. apply list_eq. intros j.
  rewrite lookup_slice, !lookup_trav, lookup_slice, length_slice_min.
  set (n := length ls) in *.
  assert (trav_len (Nat.min w (n - o)) (Nat.min w (b - o)) (Nat.min w (e - o))
          = Nat.min w (trav_len n b e - o)) as ->.
  { unfold trav_len. destruct trim; simpl; [specialize (Ht eq_refl)|lia].
    destruct (b <? e) eqn:E1; destruct (Nat.min w (b - o) <? Nat.min w (e - o)) eqn:E2; lia. }
  repeat case_decide; try done; try lia.
  f_equal. destruct (ls !! (o + j)) as [l|] eqn:E.
  - apply lookup_lt_Some in E. fold n in E. unfold trav_leaf. rewrite trav_pad_child by done.
    replace (off + o + j) with (off + (o + j)) by lia.
    replace ((Nat.min w (b - o) <=? j) && (j <? Nat.min w (e - o)))
      with ((b <=? o + j) && (o + j <? e)) by lia.
    destruct ((b <=? o + j) && (o + j <? e)) eqn:E2; [|done]. by rewrite trav_isR_child by lia.
  - apply lookup_ge_None in E. fold n in E. unfold trav_new.
    replace (Nat.min w (b - o) <=? j) with (b <=? o + j) by lia.
    by replace (off + o + j) with (off + (o + j)) by lia.
Qed.

(** A child that does not exist yet. *)
Lemma created_slice b e grow isR off o w ls :
  b ≤ e → length ls ≤ o → o < e →
  created (Nat.min w (b - o)) (Nat.min w (e - o)) (off + o) = slice o w (trav b e grow isR off ls).
Proof.
  intros Hbe Hno Hoe. apply list_eq. intros j. rewrite lookup_slice, lookup_trav, lookup_created.
  assert (trav_len (length ls) b e = e) as -> by (unfold trav_len; destruct trim, (b <? e); simpl; lia).
  repeat case_decide; try done; try lia.
  rewrite (lookup_ge_None_2 ls) by lia. f_equal. unfold trav_new.
  replace (Nat.min w (b - o) <=? j) with (b <=? o + j) by lia.
  by replace (off + o + j) with (off + (o + j)) by lia.
Qed.

Lemma slice_created b e off o w :
  created (Nat.min w (b - o)) (Nat.min w (e - o)) (off + o) = slice o w (created b e off).
Proof using F g.
  clear trim f. apply list_eq. intros j. rewrite lookup_slice, !lookup_created.
  repeat case_decide; try done; try lia. f_equal. unfold trav_new.
  replace (Nat.min w (b - o) <=? j) with (b <=? o + j) by lia.
  by replace (off + o + j) with (off + (o + j)) by lia.
Qed.

(** A child left of the range. *)
Lemma trav_slice_left b e grow isR off o w ls :
  b ≤ e → o + w ≤ b →
  o + w < length ls ∨ (o + w = length ls ∧ ∀ l, last ls = Some l → length l = F) →
  slice o w (trav b e grow isR off ls) = slice o w ls.
Proof.
  intros Hbe Hb Hn. apply list_eq. intros j. rewrite !lookup_slice, lookup_trav.
  case_decide; [|done]. rewrite decide_True by (unfold trav_len; destruct trim, (b <? e); simpl; lia).
  destruct (ls !! (o + j)) as [l|] eqn:E; [|apply lookup_ge_None in E; lia].
  f_equal. unfold trav_leaf, trav_pad.
  replace ((b <=? o + j) && _) with false by lia.
  destruct (S (o + j) =? length ls) eqn:E'; simpl; [|done]. destruct Hn as [Hn|[Hn Hf]]; [lia|].
  destruct (_ || _); [|done]. apply pad_ge. rewrite (Hf l); [lia|].
  rewrite last_lookup. replace (pred (length ls)) with (o + j) by lia. done.
Qed.

(** A child right of the range. *)
Lemma trav_slice_right b e grow isR off o w ls :
  b ≤ e → e ≤ o → trim && (b <? e) = false → (grow = true → length ls ≤ o) → 
  slice o w (trav b e grow isR off ls) = slice o w ls.
Proof.
  intros Hbe He Ht Hg. apply list_eq. intros j. rewrite !lookup_slice, lookup_trav.
  case_decide; [|done]. unfold trav_len. rewrite Ht.
  destruct (ls !! (o + j)) as [l|] eqn:E.
  - pose proof (lookup_lt_Some _ _ _ E). rewrite decide_True by lia. f_equal.
    unfold trav_leaf, trav_pad. replace ((b <=? o + j) && _) with false by lia.
    destruct grow; [specialize (Hg eq_refl); lia|]. cbn [orb].
    by replace ((S (o + j) =? length ls) && (length ls <? e)) with false by lia.
  - apply lookup_ge_None in E. by rewrite decide_False by lia.
Qed.

(** When no leaf is visited, the callbacks and the offset do not matter. *)
Lemma trav_unvisited b e grow isR isR' off off' ls :
  e ≤ b → trav b e grow isR off ls = trav b e grow isR' off' ls.
Proof.
  intros He. apply list_eq. intros i. rewrite !lookup_trav. case_decide as Hi; [|done]. f_equal.
  destruct (ls !! i) as [l|] eqn:E.
  - unfold trav_leaf. by replace ((b <=? i) && (i <? e)) with false by lia.
  - apply lookup_ge_None in E. unfold trav_new.
    replace (b <=? i) with false; [done|]. unfold trav_len in Hi. destruct (trim && _); lia.
Qed.

(** The callbacks leave every leaf but the last one of the range full. *)
Definition full_ok (Pre : nat → bool → bytes → Prop) (b e : nat) : Prop :=
  (∀ i l, b ≤ i → S i < e → Pre i false l → length l = F → length (f i false l) = F) ∧
  (∀ i, b ≤ i → S i < e → length (g i) = F).

(** A traversal that needs more levels than the tree has: first the existing
    tree is traversed up to its capacity [P], then the larger tree. *)
Lemma trav_grown_full Pre b e P ls l :
  full_ok Pre b e → b < e → P < e → 0 < P → length ls ≤ P → (trim = true → e ≤ S b) →
  (∀ l, ls !! (P - 1) = Some l → b < P → Pre (P - 1) false (pad F l)) →
  (∀ l, last ls = Some l → length l ≤ F) →
  last (trav (Nat.min b P) P true false 0 ls) = Some l → length l = F.
Proof.
  intros [Hf Hg] Hb HP HP0 Hn Ht Hpre HF. rewrite last_lookup, lookup_trav, length_trav.
  assert (trav_len (length ls) (Nat.min b P) P = P) as ->.
  { unfold trav_len. destruct trim; simpl; [specialize (Ht eq_refl)|lia].
    destruct (Nat.min b P <? P); lia. }
  rewrite decide_True by lia. replace (pred P) with (P - 1) by lia.
  destruct (ls !! (P - 1)) as [l'|] eqn:E; intros [= <-].
  - pose proof (lookup_lt_Some _ _ _ E). assert (length ls = P) as En by lia.
    assert (length l' ≤ F). { apply HF. rewrite last_lookup, En. by replace (pred P) with (P - 1) by lia. }
    unfold trav_leaf, trav_pad, trav_isR. cbn [orb andb]. replace (S (P - 1) =? length ls) with true by lia.
    cbn [andb]. destruct (_ && _) eqn:Er; simpl; [|rewrite length_pad; lia].
    apply Hf; [lia|lia|apply Hpre; [done|lia]|rewrite length_pad; lia].
  - unfold trav_new. destruct (_ <=? _) eqn:Er; [|by rewrite length_replicate].
    apply Hg; lia.
Qed.

Lemma trav_compose b e P ls :
  b < e → P < e → length ls ≤ P → 0 < length ls → (trim = true → e ≤ S b) →
  (∀ l, last (trav (Nat.min b P) P true false 0 ls) = Some l → length l = F) →
  trav b e false true 0 ls = trav (Nat.max b P) e false true 0 (trav (Nat.min b P) P true false 0 ls).
Proof.
  intros Hb HP Hn Hn0 Ht Hfull. set (ls1 := trav (Nat.min b P) P true false 0 ls) in *.
  assert (length ls1 = P) as E1.
  { unfold ls1. rewrite length_trav. unfold trav_len. destruct trim; simpl; [specialize (Ht eq_refl)|lia].
    destruct (Nat.min b P <? P); lia. }
  apply list_eq. intros i. rewrite !lookup_trav, E1.
  assert (trav_len (length ls) b e = e) as -> by (unfold trav_len; destruct (trim && _); lia).
  assert (trav_len P (Nat.max b P) e = e) as -> by (unfold trav_len; destruct (trim && _); lia).
  case_decide; [|done]. f_equal. destruct (ls1 !! i) as [l1|] eqn:El1.
  - pose proof (lookup_lt_Some _ _ _ El1). unfold trav_leaf at 2.
    replace ((Nat.max b P <=? i) && _) with false by lia.
    assert (trav_pad P e false i l1 = l1) as ->.
    { unfold trav_pad. destruct (S i =? P) eqn:Ei; simpl; [|done]. destruct (_ <? _); [|done].
      apply pad_ge. rewrite Hfull; [done|]. rewrite last_lookup, E1. by replace (pred P) with i by lia. }
    unfold ls1 in El1. rewrite lookup_trav in El1. case_decide; [|done]. injection El1 as <-.
    destruct (ls !! i) as [l|] eqn:El.
    + apply lookup_lt_Some in El. unfold trav_leaf, trav_pad, trav_isR. cbn [andb orb].
      replace (e =? length ls) with false by lia. replace (length ls <? e) with true by lia.
      replace ((Nat.min b P <=? i) && (i <? P)) with ((b <=? i) && (i <? e)) by lia. done.
    + unfold trav_new. by replace (Nat.min b P <=? i) with (b <=? i) by lia.
  - apply lookup_ge_None in El1. rewrite (lookup_ge_None_2 ls) by lia.
    unfold trav_new. by replace (Nat.max b P <=? i) with (b <=? i) by lia.
Qed.
End trav.
