(* ===== verification/TreeSpec.v ===== *)
(** * Specification of LeafTraverser

    [subtree d id ls]: the node [id] is the root of a tree of depth [d] whose
    leaves hold [ls], from left to right. Every inner node has exactly the
    children its leaves need, so all children but the last are full: this is
    the shape invariant of the blob store. The rules of this file say that
    creating a subtree and traversing an existing one keep the invariant, do
    not throw, and change the leaves as [created] and [trav] say. *)
From iris.base_logic.lib Require Import own ghost_map.
From iris.proofmode Require Import proofmode.
From S2P Require Import Prelude Serialization Nodes Tree NodeLogic NodeSpec TreeModel.
From Stdlib Require Import Lia ZArith.
Open Scope Z_scope.

(** ** The trees a layout supports

    [D] bounds the depth of a tree. The code computes leaf indices in 32 bits
    and loads nodes of at most ten levels. *)
Definition capacity_ok (layout : DataNodeLayout.t) (D : nat) : Prop :=
  (D ≤ 10)%nat ∧ Z.of_nat (fanout layout ^ D) ≤ 2 ^ 31.

(** What the code needs of [ceilLog]: it is not too large for the number of
    leaves a tree of depth [d] holds. *)
Definition ceilLog_ok (layout : DataNodeLayout.t) (D : nat) (std_log : Z → Z) : Prop :=
  ∀ d v, (d ≤ D)%nat → (1 ≤ v ≤ fanout layout ^ d)%nat →
    u8 (ceilLog std_log (DataNodeLayout.maxChildrenPerInnerNode layout) (Z.of_nat v)) ≤ Z.of_nat d.

(** What is assumed of [std::log]: the logarithm of 1 is 0 (C standard,
    annex F), and it is positive and monotone on the integers up to 2^32 (the
    logarithms of two of them differ by more than 2^-33, far more than the
    error of the function). *)
Record log_ok (std_log : Z → Z) : Prop := {
  log_one : std_log 1 = 0;
  log_pos v : 2 ≤ v ≤ 2 ^ 32 → 0 < std_log v;
  log_mono v w : 1 ≤ v ≤ w → w ≤ 2 ^ 32 → std_log v ≤ std_log w }.
(** The rounded logarithm of a power of the fan-out is not above the multiple
    of the rounded logarithm of the fan-out. This is a property of the fan-out
    and of the rounding, not of every fan-out: with the usual library it holds
    at the squares and fails at 5^3 and 1021^3 ([log5], [log1021]). *)
Definition powers_fit (layout : DataNodeLayout.t) (D : nat) (std_log : Z → Z) : Prop :=
  ∀ d, (2 ≤ d ≤ D)%nat → std_log (Z.of_nat (fanout layout ^ d)) ≤ Z.of_nat d * std_log (Z.of_nat (fanout layout)).

Lemma round_half_even_le a b k : 0 < b → a ≤ k * b → round_half_even a b ≤ k.
Proof.
  intros Hb Ha. rw /round_half_even. pose proof (Z.div_mod a b ltac:(lia)) as E. pose proof (Z.mod_pos_bound a b Hb) as Hm.
  assert (a / b ≤ k) as Hq by (apply Z.div_le_upper_bound; lia).
  destruct (decide (a / b = k)) as [Hk|Hne].
  - rw Hk in E *. rw decide_True; lia.
  - repeat case_decide; [lia|lia|]. case_match; lia.
Qed.
Lemma round_half_even_nonneg a b : 0 < b → 0 ≤ a → 0 ≤ round_half_even a b.
Proof.
  intros Hb Ha. rw /round_half_even. pose proof (Z.div_pos a b Ha Hb).
  repeat case_decide; [lia|lia|]. case_match; lia.
Qed.
(** When the logarithms fit, so does the rounded quotient. *)
Lemma ceilLog_le std_log base v (d : nat) : (d ≤ 63)%nat →
  0 < std_log base → 0 ≤ std_log v ≤ Z.of_nat d * std_log base → 0 ≤ ceilLog std_log base v ≤ Z.of_nat d.
Proof.
  intros Hd Hb [H0 Hv]. rw /ceilLog /long_double_div. case_decide as Ha; [rw u64_small; simpl; lia|].
  set (a := std_log v) in *. set (b := std_log base) in *. set (s := 63 - exponent a b).
  assert (0 ≤ s) as Hs.
  { rw /s /exponent. case_decide as Hab.
    - assert (a / b ≤ 63) as Hq by (apply Z.div_le_upper_bound; nia).
      pose proof (Z.log2_le_mono _ _ Hq) as Hl. change (Z.log2 63) with 5 in Hl. lia.
    - pose proof (Z.log2_up_nonneg ((b + a - 1) / a)). lia. }
  pose proof (Z.pow_pos_nonneg 2 s ltac:(lia) Hs) as Hp.
  assert (round_half_even (a * 2 ^ s) b ≤ Z.of_nat d * 2 ^ s) as Hm by (apply round_half_even_le; [done|nia]).
  assert (0 ≤ round_half_even (a * 2 ^ s) b) as Hm0 by (apply round_half_even_nonneg; [done|nia]).
  assert (0 ≤ (round_half_even (a * 2 ^ s) b + 2 ^ s - 1) / 2 ^ s ≤ Z.of_nat d) as Hc.
  { split; [apply Z.div_pos; lia|]. apply Z.lt_succ_r, Z.div_lt_upper_bound; [done|]. nia. }
  rw u64_small; lia.
Qed.
Lemma powers_fit_ok layout D std_log :
  layout_ok layout → capacity_ok layout D → log_ok std_log → powers_fit layout D std_log → ceilLog_ok layout D std_log.
Proof.
  intros Hl [HD Hc] [H1 Hpos Hmono] Hfit d v Hd Hv. pose proof (fanout_range layout Hl) as Hf. rw -(fanout_eq layout Hl).
  assert (fanout layout ^ d ≤ fanout layout ^ D)%nat as Hle by (apply Nat.pow_le_mono_r; lia).
  assert (std_log (Z.of_nat v) ≤ Z.of_nat d * std_log (Z.of_nat (fanout layout))) as Hlog.
  { etransitivity; [apply (Hmono _ (Z.of_nat (fanout layout ^ d))); lia|]. destruct d as [|[|d]].
    - simpl. rw H1. lia.
    - rw Nat.pow_1_r. lia.
    - apply Hfit. lia. }
  assert (0 ≤ std_log (Z.of_nat v)) as H0 by (rw -H1; apply Hmono; lia).
  destruct D as [|D].
  - assert (d = 0%nat) as -> by lia. assert (v = 1%nat) as -> by (simpl in *; lia). rw /ceilLog /long_double_div.
    change (Z.of_nat 1) with 1. rw H1. done.
  - assert (fanout layout ≤ fanout layout ^ S D)%nat as Hf1.
    { rw -{1}(Nat.pow_1_r (fanout layout)). apply Nat.pow_le_mono_r; lia. }
    assert (2 ≤ Z.of_nat (fanout layout) ≤ 2 ^ 32) as Hr.
    { clear - Hc Hf1 Hf. revert Hc Hf1. generalize (fanout layout ^ S D)%nat. lia. }
    pose proof (ceilLog_le std_log (Z.of_nat (fanout layout)) (Z.of_nat v) d ltac:(lia) (Hpos _ Hr) (conj H0 Hlog)).
    rw u8_small; lia.
Qed.

(** The doubles that glibc returns, in the unit of [std_log]: the quotient at
    5^3 and at 1021^3 is rounded up. *)
Definition log5 (n : Z) : Z := if decide (n = 125) then 43489583896284984 else 14496527965428326.
Definition log1021 (n : Z) : Z := if decide (n = 1021 ^ 3) then 187220162016652672 else 62406720672217552.
Example ceilLog_rounds_up : ceilLog log5 5 125 = 4 ∧ ceilLog log1021 1021 (1021 ^ 3) = 4.
Proof. by vm_compute. Qed.
(** At such a power a full subtree cannot be created: the assertion of the
    traversal fails. *)
Theorem full_subtree_throws {X} layout uninit (std_log : Z → Z) (d : nat) begin off onCr onBt (s : store X) :
  begin ≤ Z.of_nat (fanout layout ^ S d) →
  Z.of_nat (S d) < u8 (ceilLog std_log (DataNodeLayout.maxChildrenPerInnerNode layout) (Z.of_nat (fanout layout ^ S d))) →
  _createNewSubtree layout uninit std_log false (S d) begin (Z.of_nat (fanout layout ^ S d)) off onCr onBt s =
    (Throw (AssertFailed "Given tree depth doesn't fit given number of leaves to create."), s).
Proof.
  intros Hb Hlog. cbn [_createNewSubtree]. rw /mbind /M_bind. simpl negb.
  rw (bool_decide_true (_ ≤ _)); [|done]. rw bool_decide_false; [done|lia].
Qed.

Section arithmetic.
Context (layout : DataNodeLayout.t) (D : nat) (Hl : layout_ok layout) (Hcap : capacity_ok layout D).
Abbreviation C := (fanout layout).

Lemma fanout_pow_pos d : (0 < C ^ d)%nat.
Proof using Hl. pose proof (fanout_range layout Hl). apply Nat.neq_0_lt_0, Nat.pow_nonzero. lia. Qed.

Lemma fanout_pow_le d : (d ≤ D)%nat → (C ^ d ≤ C ^ D)%nat.
Proof using Hl. pose proof (fanout_range layout Hl). intros. apply Nat.pow_le_mono_r; lia. Qed.

Lemma cap_bound n : (n ≤ C ^ D)%nat → Z.of_nat n ≤ 2 ^ 31.
Proof using Hcap. destruct Hcap. lia. Qed.

Lemma intPow_eq d : (d ≤ D)%nat → intPow (DataNodeLayout.maxChildrenPerInnerNode layout) d = Z.of_nat (C ^ d).
Proof using Hl Hcap.
  rw -fanout_eq //. induction d as [|d IH]; intros Hd; [done|]. cbn [intPow]. rw IH; [|lia].
  pose proof (cap_bound _ (fanout_pow_le _ Hd)). rw u64_small; rw Nat.pow_succ_r' in H *; lia.
Qed.

Lemma maxLeaves_eq d : (d ≤ D)%nat → _maxLeavesForTreeDepth layout d = Z.of_nat (C ^ d).
Proof using Hl Hcap.
  intros Hd. rw /_maxLeavesForTreeDepth intPow_eq //. pose proof (cap_bound _ (fanout_pow_le _ Hd)).
  rw u32_small; lia.
Qed.

Lemma div_eq b w : (0 < w)%nat → div_ (Z.of_nat b) (Z.of_nat w) = Ok (Z.of_nat (b / w)).
Proof. intros H. rw /div_ decide_False; [|lia]. by rw Nat2Z.inj_div. Qed.

Lemma ceilDivision32_eq e w :
  (0 < w)%nat → Z.of_nat e ≤ 2 ^ 31 → Z.of_nat w ≤ 2 ^ 31 →
  ceilDivision32 (Z.of_nat e) (Z.of_nat w) = Ok (Z.of_nat (cdiv e w)).
Proof.
  intros Hw He Hw2. rw /ceilDivision32 u32_small; [|lia].
  replace (_ - 1) with (Z.of_nat (e + w - 1)) by lia. by apply div_eq.
Qed.

Lemma maxZeroSubtraction_eq a b : maxZeroSubtraction (Z.of_nat a) (Z.of_nat b) = Z.of_nat (a - b).
Proof. rw /maxZeroSubtraction. case_decide; lia. Qed.
End arithmetic.

(** ** Loops *)
Section loops.
Context {Σ : gFunctors} {X : Type} `{!nodeGS Σ X}.

Lemma wp_for_range {A} (body : Z → M (store X) A) (J : nat → iProp Σ) i count :
  (∀ k, (i ≤ k < i + count)%nat → J k ⊢ wp (body (Z.of_nat k)) (λ _, J (S k))) →
  J i ⊢ wp (for_range body (Z.of_nat i) count) (λ _, J (i + count)%nat).
Proof.
  revert i. induction count as [|count IH]; intros i Hb; simpl.
  - iIntros "H". iApply wp_ret. by rw Nat.add_0_r.
  - iIntros "H". iApply wp_bind. iApply (wp_wand with "[H]"); [iApply (Hb with "H"); lia|].
    iIntros (a) "H". replace (Z.of_nat i + 1) with (Z.of_nat (S i)) by lia.
    rw Nat.add_succ_r. iApply (IH (S i) with "H"). intros k Hk. apply Hb. lia.
Qed.

Lemma wp_map_range {A} (body : Z → M (store X) A) (J : nat → list A → iProp Σ) i count acc :
  (∀ k l, (i ≤ k < i + count)%nat → J k l ⊢ wp (body (Z.of_nat k)) (λ a, J (S k) (l ++ [a]))) →
  J i acc ⊢ wp (map_range body (Z.of_nat i) count) (λ l, J (i + count)%nat (acc ++ l)).
Proof.
  revert i acc. induction count as [|count IH]; intros i acc Hb; simpl.
  - iIntros "H". iApply wp_ret. by rw Nat.add_0_r app_nil_r.
  - iIntros "H". iApply wp_bind. iApply (wp_wand with "[H]"); [iApply (Hb with "H"); lia|].
    iIntros (a) "H". replace (Z.of_nat i + 1) with (Z.of_nat (S i)) by lia.
    iApply wp_bind. iApply (wp_wand with "[H]").
    { iApply (IH (S i) with "H"). intros k l Hk. apply Hb. lia. }
    iIntros (l) "H". iApply wp_ret. rw Nat.add_succ_r -app_assoc //.
Qed.
End loops.

(** ** Subtrees *)
Section trees.
Context {Σ : gFunctors} {X : Type} `{!nodeGS Σ X}.
Context (layout : DataNodeLayout.t) (uninit : byte) (std_log : Z → Z) (D : nat).
Context (Hl : layout_ok layout) (Hcap : capacity_ok layout D) (Hlog : ceilLog_ok layout D std_log).
Abbreviation C := (fanout layout).
Abbreviation F := (leafBytes layout).
Abbreviation leaf := (leaf layout).
Abbreviation inner := (inner layout).
Abbreviation node_at := (node_at layout).
Implicit Types (id : bytes) (ls : list bytes).

Fixpoint subtree (d : nat) id ls : iProp Σ :=
  match d with
  | O => ∃ data, ⌜ls = [data]⌝ ∗ leaf id data
  | S d' => ∃ children,
      inner id (S d') children ∗
      ⌜(1 ≤ length ls)%nat ∧ length children = cdiv (length ls) (C ^ d')⌝ ∗
      [∗ list] k ↦ c ∈ children, subtree d' c (slice (k * C ^ d') (C ^ d') ls)
  end.

Lemma subtree_length d id ls : subtree d id ls ⊢ ⌜(1 ≤ length ls ≤ C ^ d)%nat⌝.
Proof using Hl.
  destruct d as [|d]; simpl.
  - iIntros "(%data & -> & _)". done.
  - iIntros "(%ch & H & [%Hn %Hc] & _)". iDestruct (inner_ok with "H") as %[_ [Hok _]]. iPureIntro.
    split; [done|]. rw -/Nat.pow. apply cdiv_le; [apply (fanout_pow_pos layout Hl)|]. lia.
Qed.

(** The root block of a subtree. *)
Lemma subtree_move d id ls :
  subtree d id ls ⊢ ∃ n p, node_at id d n p ∗ (∀ id', node_at id' d n p -∗ subtree d id' ls).
Proof.
  destruct d as [|d]; simpl.
  - iIntros "(%data & -> & H)". iExists _, _. iFrame "H". iIntros (id') "H". iExists data. by iFrame.
  - iIntros "(%ch & [H %Hok] & %Hc & Hs)". iExists _, _. iFrame "H". iIntros (id') "H". iExists ch. by iFrame.
Qed.

Lemma subtree_node d id ls :
  subtree d id ls ⊢ ∃ n p, node_at id d n p ∗ (node_at id d n p -∗ subtree d id ls).
Proof.
  iIntros "H". iDestruct (subtree_move with "H") as (n p) "[H Hs]". iExists n, p. iFrame "H". iIntros "H". by iApply "Hs".
Qed.

Lemma wp_subtree_Depth d id ls (Φ : Z → iProp Σ) :
  subtree d id ls -∗ (subtree d id ls -∗ Φ (Z.of_nat d)) -∗ wp (Depth (X := X) id) Φ.
Proof using Hl.
  iIntros "H HΦ". iDestruct (subtree_node with "H") as (n p) "[H Hc]".
  iApply (wp_Depth layout Hl with "H"). iIntros "H". iApply "HΦ". by iApply "Hc".
Qed.

(** The callback that runs when a traversal leaves an inner node. Reads and
    writes do nothing there ([trim = false]); [resizeNumBytes] removes the
    children behind the new last leaf, [N] is the new number of leaves. *)
Definition bt_spec (trim : bool) (N : nat) (onBt : onBacktrack_t (X := X)) : Prop :=
  match trim with
  | false => ∀ id, onBt id = mret tt
  | true => ∀ d id children q e,
      (d < D)%nat → (1 ≤ e ≤ C ^ S d)%nat → (q * C ^ S d + e = N)%nat → (N ≤ C ^ D)%nat →
      (cdiv e (C ^ d) ≤ length children)%nat →
      inner id (S d) children ∗ ([∗ list] c ∈ drop (cdiv e (C ^ d)) children, ∃ l, subtree d c l) ⊢
      wp (onBt id) (λ _, inner id (S d) (take (cdiv e (C ^ d)) children))
  end.

Lemma wp_backtrack trim N onBt d id children Ls q e :
  bt_spec trim N onBt →
  (d < D)%nat → (1 ≤ e ≤ C ^ S d)%nat → (trim = true → q * C ^ S d + e = N)%nat → (q * C ^ S d + e ≤ C ^ D)%nat →
  (cdiv e (C ^ d) ≤ length children)%nat →
  inner id (S d) children ∗ ([∗ list] k ↦ c ∈ children, subtree d c (Ls k)) ⊢
  wp (onBt id) (λ _, ∃ children',
    ⌜children' = if trim then take (cdiv e (C ^ d)) children else children⌝ ∗
    inner id (S d) children' ∗ [∗ list] k ↦ c ∈ children', subtree d c (Ls k)).
Proof.
  intros Hbt Hd He HN Hq Hc. destruct trim.
  - iIntros "[H Hs]". set (m := cdiv e (C ^ d)) in *.
    rw -{2}(take_drop m children) big_sepL_app. iDestruct "Hs" as "[Hs Hd]".
    iApply (wp_wand with "[H Hd]").
    { iApply (Hbt d id children q e); [done..|by apply HN|rw -(HN eq_refl)|done|]; [done|].
      iFrame "H". iApply (big_sepL_mono with "Hd"). iIntros (k c Hk) "H". by iExists _. }
    iIntros ([]) "H". iExists _. by iFrame.
  - rw (Hbt id). iIntros "[H Hs]". iApply wp_ret. iExists _. by iFrame.
Qed.

(** ** Callbacks

    [f] and [g] say what the callbacks do to an existing and to a new leaf,
    [I i] is the assertion about the state of the operation before leaf [i]
    is visited; leaves are visited from left to right. [Pre] is what a
    callback may rely on when it gets an existing leaf. *)
Context (trim : bool) (N : nat) (f : nat → bool → bytes → bytes) (g : nat → bytes).
Context (I : nat → iProp Σ) (Pre : nat → bool → bytes → Prop).

Definition create_spec (lo hi : nat) (onCr : onCreateLeaf_t (X := X)) : Prop :=
  ∀ i, (lo ≤ i < hi)%nat →
    I i ⊢ wp (onCr (Z.of_nat i)) (λ data, ⌜data = g i ∧ (length data ≤ F)%nat⌝ ∗ I (S i)).

Definition exist_spec (lo hi : nat) (onEx : onExistingLeaf_t (X := X)) : Prop :=
  ∀ i isR id loaded l, (lo ≤ i < hi)%nat → Pre i isR l →
    leaf id l ∗ I i ⊢ wp (onEx (Z.of_nat i) isR (mkHandle id loaded)) (λ _, leaf id (f i isR l) ∗ I (S i)).

(** The progress of the callbacks; there is none when no leaf is visited. *)
Definition pos (b e x : nat) : iProp Σ := if (b <? e)%nat then I x else True%I.
Definition clamp (b e x : nat) : nat := Nat.max b (Nat.min e x).

(** The part of the progress that happens in the child at offset [o]. *)
Lemma pos_child b e off o w :
  (b ≤ e)%nat → (o < e)%nat →
  pos b e (off + clamp b e o) ⊢
  pos (Nat.min w (b - o)) (Nat.min w (e - o)) (off + o + Nat.min w (b - o)) ∗
  (pos (Nat.min w (b - o)) (Nat.min w (e - o)) (off + o + Nat.min w (e - o)) -∗ pos b e (off + clamp b e (o + w))).
Proof.
  iIntros (Hbe Ho) "H". rw /pos /clamp.
  destruct (b <? e)%nat eqn:E1; destruct (Nat.min w (b - o) <? Nat.min w (e - o))%nat eqn:E2.
  - replace (off + o + Nat.min w (b - o))%nat with (off + Nat.max b (Nat.min e o))%nat by lia.
    replace (off + o + Nat.min w (e - o))%nat with (off + Nat.max b (Nat.min e (o + w)))%nat by lia.
    iFrame. iIntros "$".
  - iSplit; [done|]. iIntros "_".
    by replace (Nat.max b (Nat.min e (o + w)))%nat with (Nat.max b (Nat.min e o)) by lia.
  - lia.
  - iSplit; [done|]. by iIntros.
Qed.

(** ** Creating a subtree *)
Definition children_of (d : nat) (children : list bytes) (L : list bytes) : iProp Σ :=
  [∗ list] k ↦ c ∈ children, subtree d c (slice (k * C ^ d) (C ^ d) L).

Lemma children_of_snoc d children c L :
  children_of d (children ++ [c]) L ⊣⊢
  children_of d children L ∗ subtree d c (slice (length children * C ^ d) (C ^ d) L).
Proof. rw /children_of big_sepL_app /= Nat.add_0_r. by rw (right_id _ bi_sep). Qed.

Lemma wp_createMaxSizeLeaf (Φ : onCreateLeaf_t (X := X) → iProp Σ) :
  Φ (λ _, mret (replicate F x00)) ⊢ wp (_createMaxSizeLeaf layout false) Φ.
Proof. iIntros "H". iApply wp_assert; [done|]. by iApply wp_ret. Qed.

Definition create_goal (d : nat) : Prop := ∀ b e q onCr onBt,
  (d ≤ D)%nat → (b ≤ e)%nat → (1 ≤ e ≤ C ^ d)%nat → (q * C ^ d + e ≤ C ^ D)%nat →
  create_spec (q * C ^ d + b) (q * C ^ d + e) onCr →
  ((b < e)%nat → bt_spec trim N onBt ∧ (trim = true → q * C ^ d + e = N ∧ e ≤ S b)%nat) →
  fresh (e * S d) -∗ pos b e (q * C ^ d + b) -∗
  wp (_createNewSubtree layout uninit std_log false d (Z.of_nat b) (Z.of_nat e) (Z.of_nat (q * C ^ d)) onCr onBt)
     (λ id, ⌜BlockId.valid id⌝ ∗ subtree d id (created F g b e (q * C ^ d)) ∗ pos b e (q * C ^ d + e)).

Lemma create_leaf : create_goal 0.
Proof.
  intros b e q onCr onBt Hd Hb He Hq Hcr Hbt. iIntros "Hf HI". simpl in He.
  assert (e = 1)%nat as -> by lia. simpl.
  iApply wp_assert; [apply bool_decide_true; lia|].
  iApply wp_assert; [rw bool_decide_true //; lia|]. rw /= !Nat.mul_1_r in Hq Hcr *.
  destruct (decide (b = 0)%nat) as [->|Hb0].
  - rw /= Nat.add_0_r. iApply wp_bind. iApply wp_ret. iApply wp_bind.
    iApply (wp_wand with "[HI]"); [iApply Hcr; [lia|done]|]. iIntros (data) "[[-> %Hlen] HI]".
    iApply (wp_createNewLeafNode layout uninit Hl with "Hf"); [done|]. iIntros (id [Hid _]) "H".
    iSplit; [done|]. rw /created /= /trav_new Nat.add_0_r Nat.add_1_r. by iFrame.
  - assert (b = 1)%nat as -> by lia. iApply wp_bind.
    iApply wp_createMaxSizeLeaf. iApply wp_bind. iApply wp_ret.
    iApply (wp_createNewLeafNode layout uninit Hl with "Hf"); [rw length_replicate; lia|]. iIntros (id [Hid _]) "H".
    iSplit; [done|]. iSplit; [|done]. rw /created /= /trav_new /=. by iExists _; iFrame.
Qed.

(** The state of the loop over the children after [k] of them. *)
Definition create_inv (d b e q : nat) (k : nat) (l : list bytes) : iProp Σ :=
  ⌜length l = k ∧ Forall BlockId.valid l⌝ ∗
  children_of d l (created F g b e (q * C ^ S d)) ∗
  fresh ((e - k * C ^ d) * S d + 1) ∗ pos b e (q * C ^ S d + clamp b e (k * C ^ d)).

Lemma child_ids e o w d :
  ((e - o) * d + 1 = Nat.min w (e - o) * d + ((e - (o + w)) * d + 1))%nat.
Proof. rw Nat.add_assoc -Nat.mul_add_distr_r. do 2 f_equal. clear. lia. Qed.

Lemma create_child d b e q k l lb le onCr onBt :
  create_goal d → (S d ≤ D)%nat → (b ≤ e)%nat → (e ≤ C ^ S d)%nat → (q * C ^ S d + e ≤ C ^ D)%nat →
  (k * C ^ d < e)%nat → lb = Nat.min (C ^ d) (b - k * C ^ d) → le = Nat.min (C ^ d) (e - k * C ^ d) →
  create_spec (q * C ^ S d + k * C ^ d + lb) (q * C ^ S d + k * C ^ d + le) onCr →
  ((lb < le)%nat → bt_spec trim N onBt ∧ (trim = true → q * C ^ S d + k * C ^ d + le = N ∧ le ≤ S lb)%nat) →
  create_inv d b e q k l ⊢
  wp (child ← _createNewSubtree layout uninit std_log false d (Z.of_nat lb) (Z.of_nat le)
                (u32 (Z.of_nat (q * C ^ S d) + u32 (Z.of_nat k * Z.of_nat (C ^ d)))) onCr onBt ;
      dep ← Depth child ;
      ASSERT (bool_decide (dep = Z.of_nat d)) "Created child node has wrong depth" ;;
      mret child)
     (λ a, create_inv d b e q (S k) (l ++ [a])).
Proof.
  intros IH Hd Hbe He Hq Hk -> -> Hcr Hbt. pose proof (fanout_pow_pos layout Hl d).
  iIntros "([%Hlen %Hv] & Hs & Hf & HI)".
  pose proof (cap_bound layout D Hcap (q * C ^ S d + k * C ^ d) ltac:(lia)) as Hb.
  rw (u32_small (Z.of_nat k * _)); [|lia]. rw u32_small; [|lia].
  replace (Z.of_nat (q * C ^ S d) + Z.of_nat k * Z.of_nat (C ^ d)) with (Z.of_nat ((q * C + k) * C ^ d))
    by (rw Nat.pow_succ_r'; lia).
  assert (q * C ^ S d + k * C ^ d = (q * C + k) * C ^ d)%nat as Eq by (rw Nat.pow_succ_r'; lia).
  rw Eq in Hcr Hbt.
  rw (child_ids e (k * C ^ d) (C ^ d)) fresh_split. iDestruct "Hf" as "[Hf Hf']".
  rw (pos_child _ _ _ _ (C ^ d)) // Eq. iDestruct "HI" as "[HI HIc]".
  iApply wp_bind. iApply (wp_wand with "[Hf HI]").
  { iApply (IH with "Hf HI"); [lia|lia|lia|nia|done|done]. }
  iIntros (id) "(%Hid & Hst & HI)". iApply wp_bind. iApply (wp_subtree_Depth with "Hst"). iIntros "Hst".
  iApply wp_assert; [by apply bool_decide_true|]. iApply wp_ret.
  iSplit; [iPureIntro; split; [rw length_app Hlen /=; lia|apply Forall_app; by split; [|constructor]]|].
  rw children_of_snoc Hlen -slice_created Eq. iFrame "Hs Hst".
  replace (S k * C ^ d)%nat with (k * C ^ d + C ^ d)%nat by lia. iFrame "Hf'". by iApply "HIc".
Qed.

(** The local range of child [k], as the code computes it. *)
Lemma localEnd_eq d e k :
  (S d ≤ D)%nat → (e ≤ C ^ S d)%nat → (k * C ^ d < e)%nat →
  Z.min (Z.of_nat (C ^ d)) (u32 (Z.of_nat e - u32 (Z.of_nat k * Z.of_nat (C ^ d)))) =
  Z.of_nat (Nat.min (C ^ d) (e - k * C ^ d)).
Proof.
  intros Hd He Hk. pose proof (cap_bound layout D Hcap _ (Nat.le_trans _ _ _ He (fanout_pow_le layout D Hl _ Hd))).
  rw (u32_small (Z.of_nat k * _)); [|lia]. rw u32_small; lia.
Qed.

Lemma localBegin_eq d b e k :
  (S d ≤ D)%nat → (e ≤ C ^ S d)%nat → (k * C ^ d < e)%nat →
  maxZeroSubtraction (Z.of_nat b) (u32 (Z.of_nat k * Z.of_nat (C ^ d))) = Z.of_nat (b - k * C ^ d).
Proof.
  intros Hd He Hk. pose proof (cap_bound layout D Hcap _ (Nat.le_trans _ _ _ He (fanout_pow_le layout D Hl _ Hd))).
  rw u32_small; [|lia]. by rw -Nat2Z.inj_mul maxZeroSubtraction_eq.
Qed.

Lemma create_inner d : create_goal d → create_goal (S d).
Proof.
  intros IH b e q onCr onBt Hd Hb He Hq Hcr Hbt. iIntros "Hf HI". cbn [_createNewSubtree].
  pose proof (fanout_pow_pos layout Hl d) as Hw. pose proof (cap_bound layout D Hcap _ (fanout_pow_le layout D Hl d ltac:(lia))) as Hwc.
  pose proof (cap_bound layout D Hcap _ (Nat.le_trans _ _ _ (proj2 He) (fanout_pow_le layout D Hl _ Hd))) as Hec.
  iApply wp_assert; [done|]. iApply wp_assert; [apply bool_decide_true; lia|].
  iApply wp_assert; [apply bool_decide_true; by apply Hlog|].
  rw (maxLeaves_eq layout D Hl Hcap d); [|lia].
  iApply wp_bind. iApply wp_lift; [by apply div_eq|]. iApply wp_bind. iApply wp_lift; [by apply ceilDivision32_eq|].
  assert (b / C ^ d ≤ cdiv e (C ^ d))%nat as Hbe'.
  { pose proof (cdiv_le e (C ^ d) (cdiv e (C ^ d)) Hw). apply Nat.Div0.div_le_upper_bound. lia. }
  rw Nat2Z.id. replace (Z.to_nat (Z.of_nat _ - Z.of_nat _)) with (cdiv e (C ^ d) - b / C ^ d)%nat by lia.
  iAssert (create_inv d b e q 0 []) with "[Hf HI]" as "H".
  { iSplit; [done|]. iSplit; [by rw /children_of big_sepL_nil|]. iSplitL "Hf"; [iApply (fresh_mono with "Hf"); nia|].
    by replace (clamp b e (0 * C ^ d)) with b by (rw /clamp; lia). }
  iApply wp_bind. change 0 with (Z.of_nat 0). iApply (wp_wand with "[H]").
  { iApply (wp_map_range _ (create_inv d b e q) with "H"). intros k l [_ Hk]. simpl in Hk.
    assert (S k * C ^ d ≤ b)%nat by (pose proof (div_le_iff b (C ^ d) k Hw); lia).
    eapply create_child; try done; try lia. all: intros ??; lia. }
  cbv beta. iIntros (gaps) "H". rw Nat.add_0_l app_nil_l. iApply wp_bind. iApply (wp_wand with "[H]").
  { iApply (wp_map_range _ (create_inv d b e q) with "H"). intros k l Hk.
    assert (b < S k * C ^ d)%nat by (apply div_le_iff; lia). assert (k * C ^ d < e)%nat by (apply lt_cdiv; lia).
    rw (localBegin_eq _ _ e) ?localEnd_eq //; [|lia..]. eapply create_child; try done; try lia.
    - intros i Hi. apply Hcr. lia.
    - intros Hlt. destruct Hbt as [Hbt HN]; [lia|]. split; [done|]. intros Ht. destruct (HN Ht). lia. }
  cbv beta. iIntros (news) "H". replace (_ + (_ - _))%nat with (cdiv e (C ^ d)) by lia.
  iDestruct "H" as "([%Hlen %Hv] & Hs & Hf & HI)". set (ch := gaps ++ news) in *.
  pose proof (cdiv_pos e (C ^ d) Hw ltac:(lia)). destruct (cdiv_last e (C ^ d) Hw ltac:(lia)) as [_ Hlast].
  iApply wp_assert; [apply bool_decide_true; lia|].
  iApply wp_bind. iApply (wp_inner_CreateNewNode layout uninit Hl (S d) with "[Hf]").
  { destruct Hcap. lia. }
  { split; [|done]. split; [lia|]. rw Hlen. apply cdiv_le; [done|]. rw Nat.pow_succ_r' in He. lia. }
  { iApply (fresh_mono with "Hf"). lia. }
  iIntros (id Hid) "H". iApply wp_bind.
  iApply (wp_wand _ (λ _, inner id (S d) ch ∗ children_of d ch (created F g b e (q * C ^ S d)))%I with "[H Hs]").
  { case_decide as Hlt; [|iApply wp_ret; by iFrame]. destruct Hbt as [Hbt HN]; [lia|].
    iApply (wp_wand with "[H Hs]").
    - iApply (wp_backtrack trim N onBt d id ch _ q e); try done; [intros Ht; by destruct (HN Ht)|lia|by iFrame].
    - iIntros ([]) "(%ch' & -> & H & Hs)". rw take_ge; [|lia]. destruct trim; by iFrame. }
  iIntros ([]) "[H Hs]". iApply wp_ret. iSplit; [done|]. iSplitL "H Hs".
  - iExists ch. rw length_created. iFrame. iPureIntro. lia.
  - by replace (clamp b e (cdiv e (C ^ d) * C ^ d)) with e by (rw /clamp; lia).
Qed.

Lemma wp_createNewSubtree d : (d ≤ D)%nat → create_goal d.
Proof. induction d; intros; [apply create_leaf|apply create_inner, IHd; lia]. Qed.

(** ** Traversing an existing subtree *)
Context (ro : bool).
Abbreviation trav := (trav F trim f g).

Lemma wp_handle_node id l loaded (Φ : bytes → iProp Σ) :
  leaf id l -∗ (leaf id l -∗ Φ id) -∗ wp (handle_node (X := X) layout (mkHandle id loaded)) Φ.
Proof using Hl.
  iIntros "H HΦ". rw /handle_node /=. destruct loaded; [iApply wp_ret; by iApply "HΦ"|].
  wpb (wp_load layout Hl) "H". iApply wp_ret. by iApply "HΦ".
Qed.

(** What the callbacks may rely on, for all leaves of the range. *)
Definition pre_ok (ls : list bytes) (b e off : nat) (grow isR : bool) : Prop :=
  ∀ i l, (b ≤ i < e)%nat → ls !! i = Some l →
    Pre (off + i) (trav_isR (length ls) e isR i) (trav_pad F (length ls) e grow i l).

Definition range_ok (d : nat) (ls : list bytes) (b e q : nat) (grow : bool) : Prop :=
  (d ≤ D)%nat ∧ (b ≤ e ≤ C ^ d)%nat ∧ (S q * C ^ d ≤ C ^ D)%nat ∧
  (grow = true → e = C ^ d)%nat ∧ ((b < e)%nat ∨ grow = true) ∧
  (ro = true → (e ≤ length ls)%nat ∧ grow = false).

(** Only leaves from the [n]th on are created. *)
Definition callbacks_ok (off n b e : nat) (onEx : onExistingLeaf_t (X := X)) (onCr : onCreateLeaf_t (X := X)) (onBt : onBacktrack_t (X := X)) : Prop :=
  exist_spec (off + b) (off + e) onEx ∧ create_spec (off + Nat.max b n) (off + e) onCr ∧
  ((b < e)%nat → bt_spec trim N onBt ∧ (trim = true → off + e = N ∧ e ≤ S b)%nat).

Definition traverse_goal (d : nat) : Prop := ∀ id ls b e q isL isR grow onEx onCr onBt,
  range_ok d ls b e q grow → isL = true ∨ b = 0%nat → callbacks_ok (q * C ^ d) (length ls) b e onEx onCr onBt →
  pre_ok ls b e (q * C ^ d) grow isR →
  fresh ((e - length ls) * d) -∗ subtree d id ls -∗ pos b e (q * C ^ d + b) -∗
  wp (_traverseExistingSubtree layout uninit std_log ro d id (Z.of_nat b) (Z.of_nat e) (Z.of_nat (q * C ^ d)) isL isR grow onEx onCr onBt)
     (λ _, subtree d id (trav b e grow isR (q * C ^ d) ls) ∗ pos b e (q * C ^ d + e)).

Lemma wp_grow_leaf id l grow :
  (ro = true → grow = false) →
  leaf id l ⊢
  wp (if grow then grow_leaf layout ro (mkHandle id false) else mret tt)
     (λ _, leaf id (if grow then pad F l else l)).
Proof.
  iIntros (Hro) "H". destruct grow; [|by iApply wp_ret]. rw /grow_leaf. wpb wp_handle_node "H".
  iDestruct (leaf_length with "H") as %Hlen. wpb (wp_leaf_numBytes layout Hl) "H".
  rw -leafBytes_eq //. case_decide as Hd.
  - iApply wp_assert; [destruct ro; [by specialize (Hro eq_refl)|done]|].
    iApply (wp_leaf_resize layout Hl with "H"); [done|]. rw /resized take_ge //. by iIntros.
  - iApply wp_ret. rw pad_ge //. lia.
Qed.

Lemma traverse_leaf : traverse_goal 0.
Proof.
  intros id ls b e q isL isR grow onEx onCr onBt (Hd & Hb & Hq & Hg & Hbe & Hro) HL (Hex & Hcr & Hbt) Hpre.
  iIntros "_ (%l & -> & H) HI". cbn [_traverseExistingSubtree length]. rw Nat.pow_0_r in Hb Hg.
  iApply wp_assert; [rw !bool_decide_true //; lia|].
  iApply wp_bind. iApply (wp_wand with "[H]"); [iApply (wp_grow_leaf with "H"); intros Hr; by destruct (Hro Hr)|].
  iIntros ([]) "H". rw Nat.pow_0_r Nat.mul_1_r in Hex Hpre *.
  case_decide as Hd'.
  - assert (b = 0 ∧ e = 1)%nat as [-> ->] by lia. rw /pos /=.
    iApply (wp_wand with "[H HI]").
    { rw Nat.add_0_r in Hex *. iApply Hex; [lia| |by iFrame].
      specialize (Hpre 0%nat l). rw Nat.add_0_r /trav_isR /trav_pad /= !andb_true_r orb_false_r in Hpre.
      apply Hpre; [lia|done]. }
    iIntros ([]) "[H HI]". rw Nat.add_1_r. iFrame. iPureIntro.
    rw /trav /trav_len /=. destruct trim; rw /= /trav_leaf /trav_isR /trav_pad /= !andb_true_r orb_false_r Nat.add_0_r //.
  - assert (b = 1 ∧ e = 1 ∧ grow = true)%nat as (-> & -> & ->). { destruct Hbe as [?|?]; [lia|]. split_and!; [..|done]; specialize (Hg ltac:(done)); lia. }
    iApply wp_ret. rw /pos /=. iSplit; [|done]. iExists _. iFrame. iPureIntro.
    rw /trav /trav_len /=. destruct trim; rw /= /trav_leaf /trav_pad //.
Qed.

Section inner_traversal.
Context (d : nat) (ls : list bytes) (b e q : nat) (isL isR grow : bool).
Context (onEx : onExistingLeaf_t (X := X)) (onCr : onCreateLeaf_t (X := X)) (onBt : onBacktrack_t (X := X)).
Context (IH : traverse_goal d) (Hrange : range_ok (S d) ls b e q grow).
Context (Hcb : callbacks_ok (q * C ^ S d) (length ls) b e onEx onCr onBt) (Hpre : pre_ok ls b e (q * C ^ S d) grow isR).
(** The left border: either leaves left of the range may need growing, or the
    range starts at the first leaf, or there is one child and it is full. *)
Context (HL : isL = true ∨ b = 0%nat ∨
  (length ls = C ^ d ∧ C ^ d ≤ b ∧ ∀ l, last ls = Some l → length l = F)%nat).
Abbreviation w := (C ^ d)%nat.
Abbreviation n := (length ls).
Abbreviation off := (q * C ^ S d)%nat.
Abbreviation T := (trav b e grow isR off ls).
Abbreviation nCh := (cdiv n w).
Abbreviation bC := (b / w)%nat.
Abbreviation eC := (cdiv e w).

(** The children while the loop is at child [j]. *)
Definition kids (j : nat) (ch : list bytes) : iProp Σ :=
  [∗ list] k ↦ c ∈ ch, subtree d c (slice (k * w) w (if (k <? j)%nat then T else ls)).

Lemma kids_step j ch c :
  ch !! j = Some c →
  kids j ch ⊢ subtree d c (slice (j * w) w ls) ∗ (subtree d c (slice (j * w) w T) -∗ kids (S j) ch).
Proof.
  iIntros (Hc) "H". rw /kids. iDestruct (big_sepL_lookup_acc_impl j with "H") as "[H Hclose]"; [done|].
  rw Nat.ltb_irrefl. iFrame "H". iIntros "H". iApply ("Hclose" with "[] [H]").
  - iIntros "!>" (k c' Hk Hne) "H". by replace (k <? S j)%nat with (k <? j)%nat by lia.
  - by replace (j <? S j)%nat with true by lia.
Qed.

Lemma kids_all j ch :
  (∀ k, (k < length ch)%nat → (k < j)%nat ∨ slice (k * w) w ls = slice (k * w) w T) →
  kids j ch ⊢ children_of d ch T.
Proof.
  intros H. rw /kids /children_of. iIntros "H". iApply (big_sepL_mono with "H").
  iIntros (k c Hk%lookup_lt_Some) "H". destruct (k <? j)%nat eqn:E; [done|].
  destruct (H k Hk) as [?|Heq]; [lia|by rw Heq].
Qed.

(** Block ids for the leaves that are still missing at child [j]. *)
Definition budget (j : nat) : nat := ((e - Nat.max n (Nat.min j nCh * w)) * S d)%nat.

Lemma budget_child o le :
  (o < n)%nat → le = Nat.min w (e - o) →
  fresh ((e - n) * S d) ⊢ fresh ((le - length (slice o w ls)) * d) ∗ fresh ((e - Nat.max n (o + w)) * S d).
Proof.
  intros Ho ->. rw -fresh_split. apply fresh_mono. rw length_slice_min.
  assert ((Nat.min w (e - o) - Nat.min w (n - o)) + (e - Nat.max n (o + w)) ≤ e - n)%nat as H by lia.
  generalize dependent (Nat.min w (e - o) - Nat.min w (n - o))%nat. generalize (e - Nat.max n (o + w))%nat (e - n)%nat.
  clear. intros. nia.
Qed.

Lemma inner_facts : (0 < w)%nat ∧ Z.of_nat w ≤ 2 ^ 31 ∧ Z.of_nat e ≤ 2 ^ 31 ∧ Z.of_nat (off + C ^ S d) ≤ 2 ^ 31 ∧
  (bC ≤ eC ≤ C)%nat ∧ (C ^ S d = C * w)%nat ∧ (b ≤ e ≤ C * w)%nat ∧ Z.of_nat (C * w) ≤ 2 ^ 31.
Proof.
  destruct Hrange as (Hd & Hb & Hq & _). pose proof (fanout_pow_pos layout Hl d) as Hw.
  pose proof (cap_bound layout D Hcap _ (fanout_pow_le layout D Hl d ltac:(lia))).
  pose proof (cap_bound layout D Hcap (off + C ^ S d) ltac:(lia)).
  pose proof (cap_bound layout D Hcap (C ^ S d) (fanout_pow_le layout D Hl _ Hd)) as Hcw. rw Nat.pow_succ_r' in Hcw.
  split_and!; try lia; try apply Nat.pow_succ_r'; try (rw Nat.pow_succ_r' in Hb; lia).
  - apply Nat.Div0.div_le_upper_bound. pose proof (cdiv_le e w (eC) Hw). lia.
  - apply cdiv_le; [done|]. rw Nat.pow_succ_r' in Hb. lia.
Qed.

Lemma child_first k : (k < nCh)%nat → (S k * w ≤ b)%nat → (S k < nCh)%nat →
  slice (k * w) w ls = slice (k * w) w T.
Proof.
  intros Hk Hb Hk'. destruct inner_facts as (Hw & _ & _ & _ & _ & _ & Hbe & _). symmetry. apply trav_slice_left; [lia|lia|].
  left. apply (lt_cdiv n w (S k) Hw) in Hk'. lia.
Qed.

(** Filling up the last existing child when the range starts behind it. *)
Lemma wp_traverse_grow id ch :
  length ch = nCh → (1 ≤ n)%nat →
  inner id (S d) ch ∗ kids 0 ch ∗ fresh ((e - n) * S d) ⊢
  wp (if isL && bool_decide (Z.of_nat nCh ≤ Z.of_nat bC) then
        traverse_grow (_traverseExistingSubtree layout uninit std_log ro d) id (Z.of_nat w) (Z.of_nat nCh)
      else mret tt)
     (λ _, inner id (S d) ch ∗ kids bC ch ∗ fresh (budget bC)).
Proof.
  intros Hlen Hn. destruct inner_facts as (Hw & Hw31 & He31 & Hoff & Hbe & HS & Hb & HC31).
  destruct Hrange as (Hd & _ & Hq & Hg & Hbg & Hro).
  pose proof (cdiv_pos n w Hw ltac:(lia)) as Hpos. destruct (cdiv_last n w Hw ltac:(lia)) as [Hl1 Hl2].
  iIntros "(Hi & Hs & Hf)". iDestruct (inner_ok with "Hi") as %[Hdd [Hc _]].
  assert (nCh * w ≤ C * w)%nat as HCw by (apply Nat.mul_le_mono_r; lia).
  assert (nCh * 1 ≤ nCh * w)%nat by (apply Nat.mul_le_mono_l; lia).
  destruct (isL && _) eqn:EL.
  - apply andb_prop in EL as [HisL Hle%bool_decide_eq_true].
    assert (nCh * w ≤ b)%nat as Hnb.
    { pose proof (Nat.Div0.mul_div_le b w). pose proof (Nat.mul_le_mono_r nCh bC w ltac:(lia)). lia. }
    rw /traverse_grow. iApply wp_assert; [apply bool_decide_true; lia|].
    destruct (last ch) as [c|] eqn:Elast; [|apply last_None in Elast; subst ch; simpl in Hlen; lia].
    iApply wp_bind. iApply (wp_readLastChild layout Hl with "Hi"); [done|]. iIntros "Hi".
    rw (u32_small (Z.of_nat nCh - 1)); [|lia].
    replace ((Z.of_nat nCh - 1) * Z.of_nat w) with (Z.of_nat ((nCh - 1) * w)) by (rw Nat2Z.inj_mul Nat2Z.inj_sub //; lia).
    assert ((nCh - 1) * w + w = nCh * w)%nat as Eo.
    { transitivity ((nCh - 1 + 1) * w)%nat; [lia|]. by rw Nat.sub_add. }
    rw last_lookup Hlen in Elast. remember ((nCh - 1) * w)%nat as o eqn:Eo'. rw u32_small; [|lia].
    iDestruct (big_sepL_lookup_acc_impl (nCh - 1)%nat with "Hs") as "[Hc Hclose]"; [by replace (nCh - 1)%nat with (pred nCh) by lia|].
    change (nCh - 1 <? 0)%nat with false. rw -Eo'.
    rw (budget_child o w); [|lia..]. iDestruct "Hf" as "[Hf Hf']".
    iApply (wp_wand with "[Hf Hc]").
    { rw Eo'. iApply (IH with "Hf Hc []"); [|by left|..|by rw /pos Nat.ltb_irrefl].
      - split_and!; [lia|lia|lia|rw HS in Hq; nia|done|by right|].
        intros Hr. destruct (Hro Hr). lia.
      - split_and!; [intros ?????; lia|intros ??; lia|lia].
      - intros ???. lia. }
    iIntros ([]) "[Hc _]". iFrame "Hi". iSplitR "Hf'".
    + iApply ("Hclose" with "[] [Hc]").
      * iIntros "!>" (k c' Hk%lookup_lt_Some Hne) "H". change (k <? 0)%nat with false.
        destruct (k <? bC)%nat eqn:Ek; [|done]. rw child_first //; [lia| |lia].
        transitivity (nCh * w)%nat; [|done]. apply Nat.mul_le_mono_r. lia.
      * replace (nCh - 1 <? bC)%nat with true by lia. rw -Eo'. rw -trav_slice; [|lia..|].
        { replace (Nat.min w (b - o)) with w by lia. replace (Nat.min w (e - o)) with w by lia.
          replace (child_grow n e o w grow) with true.
          - erewrite (trav_unvisited _ _ _ _ w w); [iExact "Hc"|done].
          - rw /child_grow. symmetry. destruct grow; simpl; lia. }
        destruct Hcb as (_ & _ & Hbt). intros Ht. destruct (decide (b < e)%nat); [|lia].
        destruct Hbt as [_ Hbt]; [done|]. destruct (Hbt Ht). lia.
    + iApply (fresh_mono with "Hf'"). apply Nat.mul_le_mono_r. replace (Nat.min bC nCh) with nCh by lia. lia.
  - iApply wp_ret. iFrame "Hi". iSplitL "Hs".
    + iApply (big_sepL_mono with "Hs"). iIntros (k c Hk%lookup_lt_Some) "H". change (k <? 0)%nat with false.
      destruct (k <? bC)%nat eqn:Ek; [|done].
      assert (S k * w ≤ b)%nat as Hkb by (pose proof (div_le_iff b w k Hw); lia).
      destruct (decide (S k < nCh)%nat); [rw child_first //; lia|].
      destruct HL as [HL'|[HL'|(Hn1 & Hn2 & Hf1)]].
      * rw HL' /= in EL. apply bool_decide_eq_false in EL. lia.
      * lia.
      * rw trav_slice_left; [done|lia|lia|]. right. split; [|done].
        assert (nCh = 1)%nat by (apply cdiv_unique; lia). assert (k = 0)%nat as -> by lia. lia.
    + iApply (fresh_mono with "Hf"). apply Nat.mul_le_mono_r. lia.
Qed.

(** The flags and ranges a child gets are those of the slice it covers. *)
Lemma child_flags k :
  (k * w < n)%nat → (k * w < e)%nat → (nCh ≤ C)%nat →
  (grow || bool_decide (Z.of_nat nCh < Z.of_nat eC)) && bool_decide (Z.of_nat k = u32 (Z.of_nat nCh - 1))
    = child_grow n e (k * w) w grow ∧
  isR && (bool_decide (Z.of_nat k = u32 (Z.of_nat nCh - 1)) && bool_decide (Z.of_nat nCh = Z.of_nat eC))
    = child_isR n e (k * w) w isR.
Proof.
  intros Hn He HC. destruct inner_facts as (Hw & _).
  pose proof (fanout_range layout Hl). pose proof (leafBytes_range layout Hl).
  pose proof (lt_cdiv n w k Hw). pose proof (lt_cdiv e w k Hw).
  pose proof (lt_cdiv n w (S k) Hw) as Hk1. pose proof (lt_cdiv e w (S k) Hw) as Hk2. rw Nat.mul_succ_l in Hk1 Hk2.
  rw u32_small; [|lia]. rw /child_grow /child_isR.
  assert (bool_decide (Z.of_nat k = Z.of_nat nCh - 1) = (n <=? k * w + w)%nat) as ->.
  { destruct (n <=? k * w + w)%nat eqn:E; [apply bool_decide_true|apply bool_decide_false]; lia. }
  destruct (n <=? k * w + w)%nat eqn:E; [|by rw !andb_false_r]. rw !andb_true_r. split.
  - f_equal. destruct (k * w + w <? e)%nat eqn:E2; [apply bool_decide_true|apply bool_decide_false]; lia.
  - f_equal. destruct (e <=? k * w + w)%nat eqn:E2; [apply bool_decide_true|apply bool_decide_false]; lia.
Qed.

Lemma child_pre k :
  (k * w < n)%nat → (k * w < e)%nat →
  pre_ok (slice (k * w) w ls) (Nat.min w (b - k * w)) (Nat.min w (e - k * w)) (off + k * w)
    (child_grow n e (k * w) w grow) (child_isR n e (k * w) w isR).
Proof.
  intros Hn He i l Hi Hlk. rw lookup_slice in Hlk. case_decide; [|done].
  pose proof (lookup_lt_Some _ _ _ Hlk). rw length_slice_min trav_pad_child // trav_isR_child //; [|lia].
  rw -Nat.add_assoc. apply Hpre; [lia|done].
Qed.

Lemma child_range k :
  (bC ≤ k)%nat → (k * w < n)%nat → (k * w < e)%nat → (k < C)%nat →
  range_ok d (slice (k * w) w ls) (Nat.min w (b - k * w)) (Nat.min w (e - k * w)) (q * C + k)
    (child_grow n e (k * w) w grow).
Proof.
  intros Hk Hn He HC. destruct inner_facts as (Hw & _ & _ & _ & _ & HS & Hb & _).
  destruct Hrange as (Hd & _ & Hq & Hg & Hbg & Hro). apply div_le_iff in Hk; [|done].
  pose proof (Nat.mul_le_mono_r (S k) C w HC) as HkC. rw HS in Hg Hq. split_and!.
  - lia.
  - lia.
  - lia.
  - transitivity (S q * (C * w))%nat; [|done].
    transitivity (S k * w + q * (C * w))%nat; [lia|]. rw Nat.mul_succ_l. lia.
  - rw /child_grow. intros [H1%orb_prop H2]%andb_prop. destruct H1 as [H1|H1]; [specialize (Hg H1)|]; lia.
  - destruct Hbg as [Hbg|Hbg]; [left; lia|]. specialize (Hg Hbg). left. lia.
  - rw length_slice_min /child_grow. intros Hr. destruct (Hro Hr) as [H1 ->]. lia.
Qed.

Lemma child_callbacks k :
  (bC ≤ k)%nat → (k * w < e)%nat →
  callbacks_ok (off + k * w) (length (slice (k * w) w ls)) (Nat.min w (b - k * w)) (Nat.min w (e - k * w)) onEx onCr onBt.
Proof.
  intros Hk He. destruct inner_facts as (Hw & _ & _ & _ & _ & _ & Hb & _). apply div_le_iff in Hk; [|done].
  destruct Hcb as (Hex & Hcr & Hbt). split_and!.
  - intros i isr id ld l Hi HP. apply Hex; [lia|done].
  - rw length_slice_min. intros i Hi. apply Hcr. lia.
  - intros Hlt. destruct Hbt as [Hbt HN]; [lia|]. split; [done|]. intros Ht. destruct (HN Ht). lia.
Qed.

Definition existing_inv id ch (k : nat) : iProp Σ :=
  inner id (S d) ch ∗ kids k ch ∗ fresh (budget k) ∗ pos b e (off + clamp b e (k * w)).

Lemma wp_traverse_child id ch k :
  length ch = nCh → (bC ≤ k < Nat.min eC nCh)%nat →
  existing_inv id ch k ⊢
  wp (traverse_child (_traverseExistingSubtree layout uninit std_log ro d) id (Z.of_nat w) (Z.of_nat bC) (Z.of_nat eC) (Z.of_nat nCh)
        (Z.of_nat b) (Z.of_nat e) (Z.of_nat off) isL isR (grow || bool_decide (Z.of_nat nCh < Z.of_nat eC)) onEx onCr onBt (Z.of_nat k))
     (λ _, existing_inv id ch (S k)).
Proof.
  intros Hlen Hk. destruct inner_facts as (Hw & Hw31 & He31 & Hoff & Hbe & HS & Hb & HC31).
  assert (k * w < e)%nat as Hke by (apply lt_cdiv; lia). assert (k * w < n)%nat as Hkn by (apply lt_cdiv; lia).
  iIntros "(Hi & Hs & Hf & HI)". iDestruct (inner_ok with "Hi") as %[Hdd [Hc _]].
  assert (q * C ^ S d + k * C ^ d = (q * C + k) * C ^ d)%nat as Eq by (rw HS; lia).
  destruct (lookup_lt_is_Some_2 ch k) as [c Ec]; [lia|].
  rw /traverse_child. iApply wp_bind. iApply (wp_readChild layout Hl with "Hi"); [done|]. iIntros "Hi".
  destruct Hrange as (Hd & _). rw (localBegin_eq d b e) // ?localEnd_eq //; [|lia..].
  assert (b < S k * w)%nat as Hbk by (apply div_le_iff; lia).
  replace (b - k * w)%nat with (Nat.min w (b - k * w)) by lia.
  iApply wp_assert; [apply bool_decide_true; lia|]. destruct (child_flags k) as [-> ->]; [lia..|].
  rw (u32_small (Z.of_nat k * _)); [|lia]. rw u32_small; [|lia].
  replace (Z.of_nat off + Z.of_nat k * Z.of_nat w) with (Z.of_nat ((q * C + k) * w)) by lia.
  iDestruct (kids_step with "Hs") as "[Hc Hs]"; [done|].
  replace (budget k) with ((e - n) * S d)%nat; [|rw /budget; f_equal; lia].
  iDestruct (budget_child (k * w) (Nat.min w (e - k * w)) with "Hf") as "[Hf Hf']"; [done..|].
  rw (pos_child _ _ _ _ w) //; [|lia]. rw Eq. iDestruct "HI" as "[HI HIc]".
  iApply (wp_wand with "[Hc Hf HI]").
  { iApply (IH with "Hf Hc HI"); rw -?Eq; [apply child_range; lia| |apply child_callbacks; lia|by apply child_pre].
    destruct (decide (k = bC)) as [->|Hne].
    - destruct HL as [->|[->|(Hn1 & Hn2 & _)]]; [left; by rw bool_decide_true|right; lia|].
      assert (nCh = 1)%nat by (apply cdiv_unique; lia).
      assert (1 ≤ bC)%nat by (apply Nat.div_le_lower_bound; lia). lia.
    - right. assert (b < k * w)%nat; [|lia]. replace k with (S (k - 1)) by lia. apply div_le_iff; lia. }
  iIntros ([]) "[Hc HI]". iFrame "Hi". iSplitL "Hc Hs".
  { iApply "Hs". rw -Eq trav_slice //; [lia|lia|].
    intros Ht. destruct Hcb as (_ & _ & Hbt). destruct (decide (b < e)%nat) as [Hlt|]; [|lia].
    destruct (Hbt Hlt) as [_ HN]. by destruct (HN Ht). }
  replace (S k * w)%nat with (k * w + w)%nat by lia. iSplitL "Hf'"; [|by iApply "HIc"].
  iApply (fresh_mono with "Hf'"). apply Nat.mul_le_mono_r. replace (Nat.min (S k) nCh) with (S k) by lia. lia.
Qed.

(** Adding children up to the end of the range. *)
Definition new_inv id (k : nat) : iProp Σ :=
  ∃ ch, ⌜length ch = k⌝ ∗ inner id (S d) ch ∗ children_of d ch T ∗
        fresh ((e - k * w) * S d) ∗ pos b e (off + clamp b e (k * w)).

Lemma wp_traverse_newChild id k :
  (nCh ≤ k < eC)%nat →
  new_inv id k ⊢
  wp (traverse_newChild layout uninit std_log ro d id (Z.of_nat w) (Z.of_nat bC) (Z.of_nat b) (Z.of_nat e) (Z.of_nat off) onCr onBt (Z.of_nat k))
     (λ _, new_inv id (S k)).
Proof.
  intros Hk. destruct inner_facts as (Hw & Hw31 & He31 & Hoff & Hbe & HS & Hb & HC31).
  assert (k * w < e)%nat as Hke by (apply lt_cdiv; lia).
  assert (n ≤ k * w)%nat as Hkn by (apply cdiv_le; [done|lia]).
  destruct Hrange as (Hd & _ & Hq & _ & _ & Hro).
  assert (ro = false) as Ero by (destruct ro; [destruct (Hro eq_refl); lia|done]).
  iIntros "(%ch & %Hlen & Hi & Hs & Hf & HI)".
  assert (q * C ^ S d + k * C ^ d = (q * C + k) * C ^ d)%nat as Eq by (rw HS; lia).
  rw /traverse_newChild Ero. iApply wp_assert; [done|].
  rw (localBegin_eq d b e); [|lia|lia|done]. rw localEnd_eq; [|lia|lia|done]. rw -Nat2Z.inj_min.
  rw (u32_small (Z.of_nat k * _)); [|lia]. rw u32_small; [|lia].
  replace (Z.of_nat off + Z.of_nat k * Z.of_nat w) with (Z.of_nat ((q * C + k) * w)) by lia.
  rw (fresh_take _ (Nat.min w (e - k * w) * S d)%nat); [|apply Nat.mul_le_mono_r; lia]. iDestruct "Hf" as "[Hf Hf']".
  rw (pos_child _ _ _ _ w) //; [|lia]. rw Eq. iDestruct "HI" as "[HI HIc]".
  iApply wp_bind. iApply (wp_wand _ (λ cr, ⌜create_spec ((q * C + k) * w + Nat.min w (b - k * w)) ((q * C + k) * w + Nat.min w (e - k * w)) cr⌝)%I).
  { case_decide as Hbk.
    - iApply wp_ret. iPureIntro. rw -Eq. destruct Hcb as (_ & Hcr & _). intros i Hi. apply Hcr.
      assert (b < S k * w)%nat by (apply div_le_iff; lia). lia.
    - iApply wp_createMaxSizeLeaf. iPureIntro. intros i Hi.
      assert (S k * w ≤ b)%nat by (pose proof (div_le_iff b w k Hw); lia). lia. }
  iIntros (cr Hcr). iApply wp_bind. iApply (wp_wand with "[Hf HI]").
  { iApply (wp_createNewSubtree with "Hf HI"); [lia|lia|lia|lia| |done|].
    - transitivity (S q * C ^ S d)%nat; [|done]. rw -Eq HS. lia.
    - intros Hlt. destruct Hcb as (_ & _ & Hbt). destruct Hbt as [Hbt HN]; [lia|]. split; [done|].
      intros Ht. destruct (HN Ht). lia. }
  iIntros (c) "(%Hv & Hc & HI)". iDestruct (subtree_node with "Hc") as (nn p) "[Hc Hcl]".
  iDestruct (inner_ok with "Hi") as %[Hdd [Hcc _]].
  iApply (wp_addChild layout Hl with "Hi Hc"); [lia|done|]. iIntros "Hi Hc".
  iExists (ch ++ [c]). iSplit; [iPureIntro; rw length_app Hlen /=; lia|]. iFrame "Hi".
  replace (S k * w)%nat with (k * w + w)%nat by lia.
  iSplitR "HI HIc Hf'"; [|iSplitL "Hf'"; [|by iApply "HIc"]].
  - rw children_of_snoc Hlen. iFrame "Hs". rw -created_slice; [|lia..]. rw Eq. by iApply "Hcl".
  - iApply (fresh_mono with "Hf'"). rw -Nat.mul_sub_distr_r. apply Nat.mul_le_mono_r. lia.
Qed.

(** The last step: the backtracking callback. *)
Lemma wp_traverse_backtrack id ch :
  (eC ≤ length ch)%nat → length ch = Nat.max nCh eC → (1 ≤ n ≤ C * w)%nat →
  inner id (S d) ch ∗ kids eC ch ⊢
  wp (if decide (Z.of_nat b < Z.of_nat e) then onBt id else mret tt) (λ _, subtree (S d) id T).
Proof.
  intros Hle Hlen Hn. destruct inner_facts as (Hw & Hw31 & He31 & Hoff & Hbe & HS & Hb & HC31).
  destruct Hrange as (Hd & _ & Hq & Hg & Hbg & Hro). rw HS in Hg. iIntros "[Hi Hs]".
  destruct (trim && (b <? e)%nat) eqn:Etrim.
  - apply andb_prop in Etrim as [Et Elt]. case_decide; [|lia].
    destruct Hcb as (_ & _ & Hbt). destruct Hbt as [Hbt HN]; [lia|]. destruct (HN Et) as [HN' HN''].
    iApply (wp_wand with "[Hi Hs]").
    { iApply (wp_backtrack trim N onBt d id ch _ q e); [done|lia|lia| |lia|done|by iFrame]. intros _. done. }
    iIntros ([]) "(%ch' & %Ech & Hi & Hs)". rw Et in Ech. subst ch'. iExists _. iFrame "Hi".
    assert (length T = e) as ElenT by (rw length_trav /trav_len Et; destruct (b <? e)%nat; [done|lia]).
    rw ElenT. iSplit; [iPureIntro; rw length_take; split; lia|].
    iApply (kids_all eC with "Hs"). rw length_take. intros k Hk. left. lia.
  - iAssert (children_of d ch T) with "[Hs]" as "Hs".
    { iApply (kids_all eC with "Hs"). intros k Hk. destruct (decide (k < eC)%nat); [by left|right].
      assert (e ≤ k * w)%nat by (apply cdiv_le; lia).
      symmetry. apply trav_slice_right; [lia|done|done|]. intros Hg'. specialize (Hg Hg'). lia. }
    iApply (wp_wand _ (λ _, inner id (S d) ch ∗ children_of d ch T)%I with "[Hi Hs]").
    { case_decide; [|iApply wp_ret; by iFrame]. destruct Hcb as (_ & _ & Hbt). destruct Hbt as [Hbt _]; [lia|].
      destruct trim; [simpl in Etrim; lia|]. rw (Hbt id). iApply wp_ret. iFrame. }
    iIntros ([]) "[Hi Hs]". iExists ch. iFrame. iPureIntro. rw length_trav /trav_len Etrim. split; [lia|].
    by rw Hlen cdiv_max.
Qed.

Lemma wp_traverse_inner id :
  fresh ((e - n) * S d) -∗ subtree (S d) id ls -∗ pos b e (off + b) -∗
  wp (traverse_inner layout uninit std_log ro d (_traverseExistingSubtree layout uninit std_log ro d) id
        (Z.of_nat b) (Z.of_nat e) (Z.of_nat off) isL isR grow onEx onCr onBt)
     (λ _, subtree (S d) id T ∗ pos b e (off + e)).
Proof.
  iIntros "Hf (%ch & Hi & [%Hn %Hlen] & Hs) HI".
  destruct inner_facts as (Hw & Hw31 & He31 & Hoff & Hbe & HS & Hb & HC31).
  iDestruct (inner_ok with "Hi") as %[Hdd [Hc _]].
  destruct (cdiv_last n w Hw ltac:(lia)) as [Hl1 Hl2].
  assert (nCh * w ≤ C * w)%nat as HCw by (apply Nat.mul_le_mono_r; lia).
  pose proof Hrange as (Hd & _ & Hq & Hg & Hbg & Hro). rw HS in Hg.
  rw /traverse_inner. iApply wp_assert; [apply bool_decide_true; lia|].
  rw (maxLeaves_eq layout D Hl Hcap d); [|lia].
  iApply wp_bind. iApply wp_lift; [by apply div_eq|]. iApply wp_bind. iApply wp_lift; [by apply ceilDivision32_eq|].
  iApply wp_assert; [apply bool_decide_true; rw -fanout_eq //; lia|].
  wpb (wp_numChildren layout Hl) "Hi". rw Hlen.
  iApply wp_assert.
  { destruct grow; [|done]. apply bool_decide_true. assert (nCh ≤ eC)%nat; [|lia]. apply cdiv_le; [done|].
    pose proof (cdiv_le e w eC Hw). specialize (Hg eq_refl). lia. }
  iApply wp_assert.
  { destruct ro; [|done]. apply bool_decide_true. destruct (Hro eq_refl). assert (eC ≤ nCh)%nat; [|lia]. apply cdiv_le; lia. }
  iApply wp_bind. iApply (wp_wand with "[Hf Hi Hs]"); [iApply wp_traverse_grow; [done|done|by iFrame]|].
  iIntros ([]) "(Hi & Hs & Hf)".
  iApply wp_bind. replace (Z.to_nat _) with (Nat.min eC nCh - bC)%nat by lia.
  iApply (wp_wand with "[Hf Hi Hs HI]").
  { iApply (wp_for_range _ (existing_inv id ch)); [intros k Hk; apply wp_traverse_child; [done|lia]|]. iFrame.
    replace (clamp b e (bC * w)) with b; [done|]. rw /clamp. pose proof (Nat.Div0.mul_div_le b w). lia. }
  iIntros ([]) "(Hi & Hs & Hf & HI)". replace (bC + _)%nat with (Nat.max bC (Nat.min eC nCh)) by lia.
  replace (Z.to_nat _) with (eC - nCh)%nat by lia. iApply wp_bind.
  iApply (wp_wand _ (λ _, ∃ ch', ⌜(eC ≤ length ch')%nat ∧ length ch' = Nat.max nCh eC⌝ ∗ inner id (S d) ch' ∗
            kids eC ch' ∗ pos b e (off + e))%I with "[Hi Hs Hf HI]").
  { assert (0 < e)%nat as He0.
    { destruct Hbg as [?|Hg']; [lia|]. rw (Hg Hg'). apply Nat.mul_pos_pos; lia. }
    destruct (cdiv_last e w Hw He0) as [Hl3 Hl4].
    destruct (decide (nCh < eC)%nat) as [Hlt|Hge].
    - iApply (wp_wand with "[Hi Hs Hf HI]").
      + iApply (wp_for_range _ (new_inv id)); [intros k Hk; apply wp_traverse_newChild; lia|].
        iExists ch. iSplit; [done|]. iFrame "Hi". iSplitL "Hs"; [|iSplitL "Hf"].
        * iApply (kids_all with "Hs"). intros k Hk. left. lia.
        * iApply (fresh_mono with "Hf"). apply Nat.mul_le_mono_r.
          replace (Nat.min (Nat.max bC (Nat.min eC nCh)) nCh) with nCh by lia. lia.
        * replace (clamp b e (Nat.max bC (Nat.min eC nCh) * w)) with (clamp b e (nCh * w)); [done|].
          destruct (decide (bC ≤ nCh)%nat); [do 2 f_equal; lia|].
          replace (Nat.max bC (Nat.min eC nCh)) with bC by lia.
          pose proof (Nat.Div0.mul_div_le b w). pose proof (Nat.mul_le_mono_r nCh bC w ltac:(lia)). rw /clamp. lia.
      + iIntros ([]) "(%ch' & %Hlen' & Hi & Hs & _ & HI)". replace (nCh + (eC - nCh))%nat with eC in * by lia.
        iExists ch'. iFrame "Hi". iSplit; [iPureIntro; lia|]. iSplitL "Hs".
        * rw /kids. iApply (big_sepL_mono with "Hs"). iIntros (k c Hk%lookup_lt_Some) "H". by replace (k <? eC)%nat with true by lia.
        * by replace (clamp b e (eC * w)) with e by (rw /clamp; lia).
    - replace (eC - nCh)%nat with 0%nat by lia. iApply wp_ret. iExists ch.
      replace (Nat.max bC (Nat.min eC nCh)) with eC by lia. iFrame. iSplit; [iPureIntro; lia|].
      by replace (clamp b e (eC * w)) with e by (rw /clamp; lia). }
  iIntros ([]) "(%ch' & [%H1 %H2] & Hi & Hs & HI)". iApply (wp_wand with "[Hi Hs]").
  { iApply (wp_traverse_backtrack id ch'); [done|done|lia|by iFrame]. }
  iIntros ([]) "$". done.
Qed.
End inner_traversal.

Lemma wp_traverseExistingSubtree d : (d ≤ D)%nat → traverse_goal d.
Proof.
  induction d as [|d IH]; intros Hd; [apply traverse_leaf|].
  intros id ls b e q isL isR grow onEx onCr onBt Hrange HL Hcb Hpre. iIntros "Hf Hs HI".
  cbn [_traverseExistingSubtree]. iDestruct (subtree_node with "Hs") as (n p) "[H Hs]".
  wpb (wp_load layout Hl) "H". cbn [node_of]. wpb (wp_Depth layout Hl) "H".
  iDestruct ("Hs" with "H") as "Hs". iApply wp_assert; [by apply bool_decide_true|].
  iApply (wp_traverse_inner with "Hf Hs HI"); try done; [apply IH; lia|by destruct HL as [-> | ->]; [left|right; left]].
Qed.
End trees.
