(* ===== verification/RootSpec.v ===== *)
(** * Specification of [LeafTraverser::traverseAndUpdateRoot]

    The traversal of a whole tree: levels are added when the range ends
    behind the tree's capacity and removed when the root is left with one
    child. The root block keeps its id. *)
From iris.base_logic.lib Require Import own ghost_map.
From iris.proofmode Require Import proofmode.
From S2P Require Import Prelude Serialization Nodes Tree NodeLogic NodeSpec TreeModel TreeSpec.
From Stdlib Require Import Lia ZArith.
Open Scope Z_scope.

(** The depth is the smallest one that fits. *)
Definition min_depth (layout : DataNodeLayout.t) (d n : nat) : Prop :=
  d = 0%nat ∨ (fanout layout ^ (d - 1) < n)%nat.

(** Block ids a traversal up to leaf [e] may need in a tree of [n] leaves. *)
Definition root_cost (D n e : nat) : nat := (if n <? e then (e - n) * D + D else 0)%nat.

Section root.
Context {Σ : gFunctors} {X : Type} `{!nodeGS Σ X}.
Context (layout : DataNodeLayout.t) (uninit : byte) (std_log : Z → Z) (D : nat).
Context (Hl : layout_ok layout) (Hcap : capacity_ok layout D) (Hlog : ceilLog_ok layout D std_log).
Abbreviation C := (fanout layout).
Abbreviation F := (leafBytes layout).
Abbreviation leaf := (leaf layout).
Abbreviation inner := (inner layout).
Abbreviation node_at := (node_at layout).
Abbreviation subtree := (subtree layout).
Implicit Types (id r : bytes) (ls : list bytes).

Lemma wp_load_subtree d id ls (Φ : option node → iProp Σ) :
  subtree d id ls -∗ (subtree d id ls -∗ Φ (Some (node_of d id))) -∗ wp (load (X := X) layout id) Φ.
Proof using Hl.
  iIntros "H HΦ". iDestruct (subtree_node with "H") as (n p) "[H Hs]".
  iApply (wp_load layout Hl with "H"). iIntros "H". iApply "HΦ". by iApply "Hs".
Qed.

(** An inner node with one child covers the same leaves as the child. *)
Lemma only_child_eq d ls :
  cdiv (length ls) (C ^ d) = 1%nat → (1 ≤ length ls)%nat → slice (0 * C ^ d) (C ^ d) ls = ls.
Proof using Hl.
  intros Hc Hn. pose proof (fanout_pow_pos layout Hl d). destruct (cdiv_last (length ls) (C ^ d)) as [_ H1]; [done|lia|].
  rw /= /slice drop_0 take_ge //. rw Hc in H1. lia.
Qed.

Lemma wp_removeRootReturnChild fuel d id ls :
  (d ≤ fuel)%nat →
  subtree d id ls ⊢
  wp (_whileRootHasOnlyOneChildRemoveRootReturnChild (X := X) layout false fuel id)
     (λ nd, ∃ d' id', ⌜nd = node_of d' id' ∧ (d' ≤ d)%nat ∧ min_depth layout d' (length ls)⌝ ∗ subtree d' id' ls).
Proof using Hl.
  revert d id. induction fuel as [|fuel IH]; intros d id Hd; iIntros "H".
  - assert (d = 0)%nat as -> by lia. cbn [_whileRootHasOnlyOneChildRemoveRootReturnChild].
    iApply wp_assert; [done|]. wpb wp_load_subtree "H". iApply wp_ret.
    iExists 0%nat, id. iFrame. iPureIntro. by split_and!; [| |left].
  - cbn [_whileRootHasOnlyOneChildRemoveRootReturnChild]. iApply wp_assert; [done|]. wpb wp_load_subtree "H".
    destruct d as [|d]; cbn [node_of].
    { iApply wp_ret. iExists 0%nat, id. iFrame. iPureIntro. by split_and!; [| |left]. }
    iDestruct "H" as (ch) "(Hi & [%Hn %Hlen] & Hs)". wpb (wp_numChildren layout Hl) "Hi".
    pose proof (fanout_pow_pos layout Hl d). destruct (cdiv_last (length ls) (C ^ d)) as [H1 H2]; [done|lia|].
    case_decide as Hone.
    + destruct ch as [|c [|]]; simpl in Hone; try lia.
      rw big_sepL_singleton only_child_eq //.
      iApply wp_bind. change 0 with (Z.of_nat 0). iApply (wp_readChild layout Hl with "Hi"); [done|]. iIntros "Hi".
      iApply wp_bind. iApply (wp_wand with "[Hs]"); [iApply (IH with "Hs"); lia|].
      iIntros (nd) "(%d' & %id' & (-> & %Hd' & %Hm) & Hs)". iApply wp_bind.
      iDestruct "Hi" as "[Hi _]". iApply (wp_remove with "Hi"). iApply wp_ret.
      iExists d', id'. iFrame. iPureIntro. split_and!; [done|lia|done].
    + iApply wp_ret. iExists (S d), id. iSplit; [iPureIntro; split_and!; [done|done|right]|iExists ch; by iFrame].
      pose proof (cdiv_pos (length ls) (C ^ d) ltac:(done) ltac:(lia)). cbn [Nat.sub]. rw Nat.sub_0_r.
      assert (1 < cdiv (length ls) (C ^ d))%nat as Hlt by lia. apply lt_cdiv in Hlt; [|done]. lia.
Qed.

Lemma wp_replaceRoot ro d r ls :
  (d ≤ 10)%nat → ro = false ∨ min_depth layout d (length ls) →
  subtree d r ls ⊢
  wp (_whileRootHasOnlyOneChildReplaceRootWithItsChild (X := X) layout ro (node_of d r))
     (λ nd, ∃ d', ⌜nd = node_of d' r ∧ (d' ≤ d)%nat ∧ min_depth layout d' (length ls)⌝ ∗ subtree d' r ls).
Proof using Hl.
  intros Hd10 Hro. iIntros "H". destruct d as [|d]; cbn [node_of _whileRootHasOnlyOneChildReplaceRootWithItsChild].
  { iApply wp_ret. iExists 0%nat. iFrame. iPureIntro. by split_and!; [| |left]. }
  iDestruct "H" as (ch) "(Hi & [%Hn %Hlen] & Hs)". wpb (wp_numChildren layout Hl) "Hi".
  pose proof (fanout_pow_pos layout Hl d). destruct (cdiv_last (length ls) (C ^ d)) as [H1 H2]; [done|lia|].
  case_decide as Hone.
  - destruct ch as [|c [|]]; simpl in Hone; try lia.
    assert (ro = false) as ->.
    { destruct Hro as [?|[?|Hm]]; [done|done|]. exfalso. cbn [Nat.sub] in Hm. rw Nat.sub_0_r in Hm. simpl in Hlen. rw -Hlen in H2. lia. }
    iApply wp_assert; [done|].
    rw big_sepL_singleton only_child_eq //.
    iApply wp_bind. change 0 with (Z.of_nat 0). iApply (wp_readChild layout Hl with "Hi"); [done|]. iIntros "Hi".
    iApply wp_bind. iApply (wp_wand with "[Hs]"); [iApply (wp_removeRootReturnChild with "Hs"); rw /MAX_DEPTH; lia|].
    iIntros (nd) "(%d' & %id' & (-> & %Hd' & %Hm) & Hs)". iDestruct "Hi" as "[Hi _]".
    iDestruct (subtree_move with "Hs") as (n p) "[H Hs]". iApply wp_bind.
    replace (node_id (node_of d' id')) with id' by by destruct d'.
    iApply (wp_overwriteNodeWith layout Hl with "Hi H"). iIntros "Hi H".
    iApply wp_bind. iApply (wp_remove with "H"). iApply wp_ret. iExists d'.
    iSplit; [iPureIntro; split_and!; [done|lia|done]|]. by iApply "Hs".
  - iApply wp_ret. iExists (S d). iSplit; [iPureIntro; split_and!; [done|done|right]|iExists ch; by iFrame].
    pose proof (cdiv_pos (length ls) (C ^ d) ltac:(done) ltac:(lia)). cbn [Nat.sub]. rw Nat.sub_0_r.
    assert (1 < cdiv (length ls) (C ^ d))%nat as Hlt by lia. apply lt_cdiv in Hlt; [|done]. lia.
Qed.

Lemma wp_increaseTreeDepth ro d r ls :
  ro = false → (d < 10)%nat →
  fresh 1 ∗ subtree d r ls ⊢
  wp (_increaseTreeDepth (X := X) layout uninit ro (node_of d r))
     (λ nd, ⌜nd = node_of (S d) r⌝ ∗ subtree (S d) r ls).
Proof using Hl.
  iIntros (-> Hd) "[Hf H]". iDestruct (subtree_length with "H") as %Hn; [done|]. pose proof (fanout_pow_pos layout Hl d).
  iApply wp_assert; [done|]. replace (node_id (node_of d r)) with r by by destruct d.
  iDestruct (subtree_move with "H") as (n p) "[H Hs]".
  iApply wp_bind. iApply (wp_createNewNodeAsCopyFrom layout Hl with "Hf H"). iIntros (c Hc) "H Hcp".
  replace (node_id (node_of d c)) with c by by destruct d.
  iApply wp_bind. iApply (wp_convertToNewInnerNode layout uninit Hl with "H Hcp"); [done|done|]. iIntros "H Hcp".
  iApply wp_ret. iSplit; [done|]. iDestruct ("Hs" with "Hcp") as "Hs".
  assert (cdiv (length ls) (C ^ d) = 1)%nat as E1 by (apply cdiv_unique; lia).
  iExists [c]. rw big_sepL_singleton only_child_eq //; [|lia]. iFrame. iPureIntro. simpl. lia.
Qed.

Context (trim : bool) (N : nat) (f : nat → bool → bytes → bytes) (g : nat → bytes).
Context (I : nat → iProp Σ) (Pre : nat → bool → bytes → Prop) (ro : bool).
Context (onEx : onExistingLeaf_t (X := X)) (onCr : onCreateLeaf_t (X := X)) (onBt : onBacktrack_t (X := X)).
Abbreviation trav := (trav F trim f g).
Abbreviation pos := (pos I).

(** One or no level is added to a tree of depth [d]: [grown] is the condition
    after a level was added. *)
Definition grown (d b : nat) ls : Prop :=
  (1 ≤ d ∧ length ls = C ^ (d - 1) ∧ C ^ (d - 1) ≤ b ∧ ∀ l, last ls = Some l → length l = F)%nat.

Lemma wp_traverse_root d r ls b e isL inc :
  inc = (C ^ d <? e)%nat →
  (d ≤ D)%nat → (b < e)%nat → (ro = true → (e ≤ length ls)%nat) →
  isL = true ∨ b = 0%nat ∨ grown d b ls →
  callbacks_ok layout D trim N f g I Pre 0 (length ls) (Nat.min b (C ^ d)) (Nat.min e (C ^ d)) onEx onCr onBt →
  pre_ok layout Pre ls (Nat.min b (C ^ d)) (Nat.min e (C ^ d)) 0 inc (negb inc) →
  fresh ((Nat.min e (C ^ d) - length ls) * d) -∗ subtree d r ls -∗
  pos (Nat.min b (C ^ d)) (Nat.min e (C ^ d)) (Nat.min b (C ^ d)) -∗
  wp (traverse_root layout uninit std_log ro (node_of d r) d (Z.of_nat (C ^ d)) inc (Z.of_nat b) (Z.of_nat e) isL onEx onCr onBt)
     (λ _, subtree d r (trav (Nat.min b (C ^ d)) (Nat.min e (C ^ d)) inc (negb inc) 0 ls) ∗
           pos (Nat.min b (C ^ d)) (Nat.min e (C ^ d)) (Nat.min e (C ^ d))).
Proof.
  intros Einc Hd Hb Hro HL Hcb Hpre. iIntros "Hf Hs HI". iDestruct (subtree_length with "Hs") as %Hn; [done|].
  pose proof (fanout_pow_pos layout Hl d). destruct d as [|d]; cbn [traverse_root node_of].
  - rw Nat.pow_0_r in Einc Hcb Hpre *. iDestruct "Hs" as (l) "[-> H]". replace (Nat.min e 1) with 1%nat in * by lia.
    iDestruct (leaf_length with "H") as %Hlen. wpb (wp_leaf_numBytes layout Hl) "H". iApply wp_bind.
    iApply (wp_wand _ (λ _, leaf r (if inc then pad F l else l)) with "[H]").
    { rw -leafBytes_eq //. destruct inc; [|by iApply wp_ret]. simpl. case_bool_decide as Hne.
      - iApply (wp_leaf_resize layout Hl with "H"); [done|]. rw /resized take_ge //. by iIntros.
      - iApply wp_ret. rw pad_ge //. lia. }
    iIntros ([]) "H".
    assert (∀ b', (b' = 0%nat → trav b' 1 inc (negb inc) 0 [l] = [f 0 (negb inc) (if inc then pad F l else l)]) ∧
                  (b' = 1%nat → trav b' 1 inc (negb inc) 0 [l] = [if inc then pad F l else l])) as Htr.
    { intros b'. split; intros ->; rw /TreeModel.trav /trav_len /=; destruct trim, inc; done. }
    case_decide as Hb0.
    + assert (b = 0)%nat as -> by lia. rw /= in Hcb Hpre *. rw (proj1 (Htr 0%nat) eq_refl).
      replace (bool_decide (Z.of_nat e = 1)) with (negb inc); last first.
      { rw Einc. destruct (1 <? e)%nat eqn:E; symmetry; [apply bool_decide_false|apply bool_decide_true]; lia. }
      destruct Hcb as (Hex & _). change 0 with (Z.of_nat 0). iApply (wp_wand with "[H HI]").
      { iApply Hex; [lia| |by iFrame]. specialize (Hpre 0%nat l ltac:(lia) eq_refl).
        rw /trav_isR /trav_pad /= !andb_true_r orb_false_r in Hpre. done. }
      iIntros ([]) "[H $]". iExists _. by iFrame.
    + replace (Nat.min b 1) with 1%nat by lia. rw (proj2 (Htr 1%nat) eq_refl). iApply wp_ret.
      iSplit; [|done]. iExists _. by iFrame.
  - rw -!Nat2Z.inj_min. change 0 with (Z.of_nat (0 * C ^ S d)).
    iApply (wp_traverse_inner layout uninit std_log D Hl Hcap Hlog trim N f g I Pre ro d ls _ _ 0 with "Hf Hs HI"); try done.
    + by apply wp_traverseExistingSubtree; [..|lia].
    + pose proof (fanout_pow_le layout D Hl _ Hd). split_and!; [done|lia|lia|lia|lia| |].
      * destruct inc; [by right|left]. lia.
      * intros Hr. specialize (Hro Hr). lia.
    + destruct HL as [HL|[HL|(H1 & H2 & H3 & H4)]]; [by left|right; left; lia|right; right].
      cbn [Nat.sub] in H2, H3. rw Nat.sub_0_r in H2 H3. split_and!; [done| |done].
      pose proof (Nat.pow_le_mono_r C d (S d)). pose proof (fanout_range layout Hl). lia.
Qed.

Lemma callbacks_sub off n b e n' b' e' :
  callbacks_ok layout D trim N f g I Pre off n b e onEx onCr onBt →
  ((b' < e')%nat → (b ≤ b' ∧ n ≤ n' ∧ e' ≤ e)%nat ∧ (trim = true → e' = e ∧ b' = b)) →
  callbacks_ok layout D trim N f g I Pre off n' b' e' onEx onCr onBt.
Proof.
  intros (Hex & Hcr & Hbt) Ht. split_and!.
  - intros i isR id ld l Hi. destruct Ht as [? _]; [lia|]. apply Hex. lia.
  - intros i Hi. destruct Ht as [? _]; [lia|]. apply Hcr. lia.
  - intros Hlt. destruct (Ht Hlt) as [Hlt' Ht']. destruct Hbt as [H1 H2]; [lia|]. split; [done|].
    intros Htr. destruct (H2 Htr). destruct (Ht' Htr). lia.
Qed.

Lemma pre_first b e P ls :
  (P < e)%nat → (1 ≤ length ls ≤ P)%nat → pre_ok layout Pre ls b e 0 false true →
  pre_ok layout Pre ls (Nat.min b P) P 0 true false.
Proof.
  intros HP Hn Hpre i l Hi Hlk. pose proof (lookup_lt_Some _ _ _ Hlk).
  specialize (Hpre i l ltac:(lia) Hlk). rw /trav_isR /trav_pad /= in Hpre |- *.
  replace (e =? length ls)%nat with false in Hpre by lia. by replace (length ls <? e)%nat with true in Hpre by lia.
Qed.

Definition root_goal (fuel : nat) : Prop := ∀ d r ls b e isL,
  (D - d ≤ fuel)%nat → (d ≤ D)%nat → (b < e ≤ C ^ D)%nat →
  (ro = true → (e ≤ length ls)%nat ∧ min_depth layout d (length ls) ∧ trim = false) →
  isL = true ∨ b = 0%nat ∨ grown d b ls →
  callbacks_ok layout D trim N f g I Pre 0 (length ls) b e onEx onCr onBt →
  pre_ok layout Pre ls b e 0 false true → full_ok F f g Pre b e →
  (∀ l, last ls = Some l → length l ≤ F)%nat →
  fresh ((e - length ls) * D + (if C ^ d <? e then D - d else 0))%nat -∗ subtree d r ls -∗ I b -∗
  wp (_traverseAndUpdateRoot layout uninit std_log ro fuel (node_of d r) (Z.of_nat b) (Z.of_nat e) isL onEx onCr onBt)
     (λ nd, ∃ d', ⌜nd = node_of d' r ∧ (d' ≤ D)%nat ∧ min_depth layout d' (length (trav b e false true 0 ls))⌝ ∗
        subtree d' r (trav b e false true 0 ls) ∗ I e).

(** The tree is deep enough. *)
Lemma root_last d r ls b e isL :
  (d ≤ D)%nat → (b < e ≤ C ^ d)%nat →
  (ro = true → (e ≤ length ls)%nat ∧ min_depth layout d (length ls) ∧ trim = false) →
  isL = true ∨ b = 0%nat ∨ grown d b ls →
  callbacks_ok layout D trim N f g I Pre 0 (length ls) b e onEx onCr onBt → pre_ok layout Pre ls b e 0 false true →
  fresh ((e - length ls) * D) -∗ subtree d r ls -∗ I b -∗
  wp (traverse_root layout uninit std_log ro (node_of d r) d (Z.of_nat (C ^ d)) false (Z.of_nat b) (Z.of_nat e) isL onEx onCr onBt ;;
      _whileRootHasOnlyOneChildReplaceRootWithItsChild layout ro (node_of d r))
     (λ nd, ∃ d', ⌜nd = node_of d' r ∧ (d' ≤ D)%nat ∧ min_depth layout d' (length (trav b e false true 0 ls))⌝ ∗
        subtree d' r (trav b e false true 0 ls) ∗ I e).
Proof.
  intros Hd Hb Hro HL Hcb Hpre. iIntros "Hf Hs HI".
  pose proof (wp_traverse_root d r ls b e isL false) as Hw.
  rw (Nat.min_l b) in Hw; [|lia]. rw (Nat.min_l e) in Hw; [|lia].
  iApply wp_bind. iApply (wp_wand with "[Hf Hs HI]").
  { iApply (Hw with "[Hf] Hs [HI]"); [lia|done|lia|intros Hr; by destruct (Hro Hr)|done..| |].
    - iApply (fresh_mono with "Hf"). by apply Nat.mul_le_mono_l.
    - rw /TreeSpec.pos. by replace (b <? e)%nat with true by lia. }
  iIntros ([]) "[Hs HI]". rw /TreeSpec.pos. replace (b <? e)%nat with true by lia.
  iApply (wp_wand with "[Hs]").
  { iApply (wp_replaceRoot with "Hs"); [destruct Hcap; lia|].
    destruct ro; [right|by left]. destruct (Hro eq_refl) as (H1 & H2 & Ht). rw length_trav /trav_len Ht /=.
    by replace (Nat.max _ _) with (length ls) by lia. }
  iIntros (nd) "(%d' & (-> & %Hd' & %Hm) & Hs)". iExists d'. iFrame. iPureIntro. split_and!; [done|lia|done].
Qed.

Lemma wp_traverseAndUpdateRoot_fuel fuel : root_goal fuel.
Proof.
  induction fuel as [|fuel IH]; intros d r ls b e isL Hfuel Hd Hb Hro HL Hcb Hpre Hfull HF; iIntros "Hf Hs HI";
    cbn [_traverseAndUpdateRoot]; (iApply wp_assert; [apply bool_decide_true; lia|]);
    replace (node_id (node_of d r)) with r by (by destruct d); wpb (wp_subtree_Depth layout Hl) "Hs";
    rw Nat2Z.id (maxLeaves_eq layout D Hl Hcap) //.
  - assert (d = D) as -> by lia. rw (bool_decide_false (Z.of_nat (C ^ D) < _)); [|lia].
    iApply wp_assert; [by rw orb_true_r|]. iApply (root_last with "[Hf] Hs HI"); try done.
    iApply (fresh_mono with "Hf"). apply Nat.le_add_r.
  - iDestruct (subtree_length with "Hs") as %Hn; [done|]. case_bool_decide as Hinc.
    + assert (ro = false) as Ero. { destruct ro; [|done]. destruct (Hro eq_refl). lia. }
      assert (d < D)%nat as HdD.
      { destruct (decide (d = D)) as [->|]; lia. }
      iApply wp_assert; [by rw Ero|].
      set (P := (C ^ d)%nat) in *. pose proof (fanout_pow_pos layout Hl d) as HP0. fold P in HP0.
      assert (Nat.min e P = P) as EP by lia.
      assert (trim = true → e ≤ S b)%nat as Htrim.
      { intros Ht. destruct Hcb as (_ & _ & Hbt). destruct Hbt as [_ Hbt]; [lia|]. by destruct (Hbt Ht). }
      pose proof (pre_first b e P ls ltac:(lia) Hn Hpre) as Hpre1.
      replace (P <? e)%nat with true by (symmetry; apply Nat.ltb_lt; lia).
      rw (fresh_take _ ((P - length ls) * d)%nat); last first.
      { transitivity ((e - length ls) * D)%nat; [|lia]. apply Nat.mul_le_mono; lia. }
      iDestruct "Hf" as "[Hf Hf']".
      iAssert (TreeSpec.pos I (Nat.min b P) P (Nat.min b P) ∗ (TreeSpec.pos I (Nat.min b P) P P -∗ I (Nat.max b P)))%I with "[HI]" as "[HI HIc]".
      { rw /TreeSpec.pos. destruct (Nat.min b P <? P)%nat eqn:Ebp.
        - replace (Nat.min b P) with b by lia. replace (Nat.max b P) with P by lia. iFrame. iIntros "$".
        - iSplit; [done|]. iIntros "_". by replace (Nat.max b P) with b by lia. }
      pose proof (wp_traverse_root d r ls b e isL true) as Hw. fold P in Hw. rw EP in Hw.
      iApply wp_bind. iApply (wp_wand with "[Hf Hs HI]").
      { iApply (Hw with "Hf Hs HI"); [lia|lia|lia|by rw Ero|done| |done].
        apply (callbacks_sub 0 (length ls) b e); [done|]. intros Hlt. split; [lia|]. intros Ht. specialize (Htrim Ht). lia. }
      iIntros ([]) "[Hs HI]". iDestruct ("HIc" with "HI") as "HI". iApply wp_assert; [by rw Ero|].
      assert (∀ l, last (trav (Nat.min b P) P true false 0 ls) = Some l → length l = F) as Hlast.
      { intros l. apply (trav_grown_full _ _ _ _ Pre b e); try done; try lia.
        intros l' Hlk HbP. specialize (Hpre1 (P - 1)%nat l' ltac:(lia) Hlk). pose proof (lookup_lt_Some _ _ _ Hlk).
        rw /trav_isR /trav_pad Nat.add_0_l in Hpre1. by replace (S (P - 1) =? length ls)%nat with true in Hpre1 by lia. }
      rw (trav_compose _ _ _ _ b e P ls); [|lia..|done|done].
      set (ls1 := trav (Nat.min b P) P true false 0 ls) in *.
      iDestruct (subtree_length with "Hs") as %Hn1; [done|].
      assert (length ls1 = P) as E1.
      { rw /ls1 length_trav /trav_len. destruct trim; simpl; [specialize (Htrim eq_refl)|lia]. destruct (Nat.min b P <? P)%nat eqn:?; lia. }
      rw (fresh_take _ 1); last first.
      { assert ((P - length ls) * d ≤ (e - length ls) * D)%nat by (apply Nat.mul_le_mono; lia). lia. }
      iDestruct "Hf'" as "[Hf Hf']". iApply wp_bind. iApply (wp_wand with "[Hf Hs]").
      { iApply wp_increaseTreeDepth; [done|destruct Hcap; lia|by iFrame]. }
      iIntros (nd) "[-> Hs]". rw -Nat2Z.inj_max. iApply (IH with "[Hf'] Hs HI"); try lia.
      * right. right. split_and!; [lia|by rw E1 /= Nat.sub_0_r|rw /= Nat.sub_0_r; fold P; lia|done].
      * rw E1. apply (callbacks_sub 0 (length ls) b e); [done|]. intros Hlt. split; [lia|]. intros Ht. specialize (Htrim Ht). lia.
      * intros i l Hi Hlk. apply lookup_lt_Some in Hlk. lia.
      * destruct Hfull as [Hf1 Hf2]. split; [intros; apply Hf1; [lia|lia|done..]|intros; apply Hf2; lia].
      * intros l Hlk. rw (Hlast l) //.
      * iApply (fresh_mono with "Hf'"). rw E1. transitivity ((e - P) * D + (D - S d))%nat; [apply Nat.add_le_mono_l; case_match; lia|].
        assert ((e - P) * D + (P - length ls) * d ≤ (e - length ls) * D)%nat; [|lia].
        transitivity ((e - P) * D + (P - length ls) * D)%nat; [apply Nat.add_le_mono_l, Nat.mul_le_mono_l; lia|].
        rw -Nat.mul_add_distr_r. apply Nat.mul_le_mono_r. lia.
    + iApply wp_assert; [by rw orb_true_r|]. iApply (root_last with "[Hf] Hs HI"); try done; [lia|].
      iApply (fresh_mono with "Hf"). apply Nat.le_add_r.
Qed.

Lemma wp_traverseAndUpdateRoot d r ls b e :
  (d ≤ D)%nat → (b < e ≤ C ^ D)%nat →
  (ro = true → (e ≤ length ls)%nat ∧ min_depth layout d (length ls) ∧ trim = false) →
  callbacks_ok layout D trim N f g I Pre 0 (length ls) b e onEx onCr onBt →
  pre_ok layout Pre ls b e 0 false true → full_ok F f g Pre b e →
  (∀ l, last ls = Some l → length l ≤ F)%nat →
  fresh (root_cost D (length ls) e) -∗ subtree d r ls -∗ I b -∗
  wp (traverseAndUpdateRoot layout uninit std_log ro (node_of d r) (Z.of_nat b) (Z.of_nat e) onEx onCr onBt)
     (λ nd, ∃ d', ⌜nd = node_of d' r ∧ (d' ≤ D)%nat ∧ min_depth layout d' (length (trav b e false true 0 ls))⌝ ∗
        subtree d' r (trav b e false true 0 ls) ∗ I e).
Proof.
  intros. iIntros "Hf Hs HI". rw /traverseAndUpdateRoot. destruct Hcap.
  iDestruct (subtree_length with "Hs") as %Hn; [done|].
  iApply (wp_traverseAndUpdateRoot_fuel with "[Hf] Hs HI"); try done; [rw /MAX_DEPTH; lia|by left|].
  iApply (fresh_mono with "Hf"). rw /root_cost. destruct (length ls <? e)%nat eqn:E1, (C ^ d <? e)%nat eqn:E2; try lia.
Qed.
End root.

(** ** Removing a subtree *)
Section remove.
Context {Σ : gFunctors} {X : Type} `{!nodeGS Σ X}.
Context (layout : DataNodeLayout.t) (Hl : layout_ok layout).
Abbreviation C := (fanout layout).
Abbreviation inner := (inner layout).
Abbreviation subtree := (subtree layout).

Lemma wp_remove_children d id ch (body : bytes → M (store X) unit) :
  (∀ c l, subtree d c l ⊢ wp (body c) (λ _, True)) →
  inner id (S d) ch ∗ ([∗ list] c ∈ ch, ∃ l, subtree d c l) ⊢
  wp (for_range (λ i, child ← readChild id i ; body child) 0 (length ch)) (λ _, inner id (S d) ch).
Proof using Hl.
  iIntros (Hbody) "[Hi Hs]". change 0 with (Z.of_nat 0).
  iApply (wp_wand with "[Hi Hs]").
  { iApply (wp_for_range _ (λ k, inner id (S d) ch ∗ [∗ list] c ∈ drop k ch, ∃ l, subtree d c l)%I); [|by iFrame].
    intros k Hk. destruct (lookup_lt_is_Some_2 ch k) as [c Hc]; [lia|].
    iIntros "[Hi Hs]". rw (drop_S _ c) //. iDestruct "Hs" as "[(%l & Hc) Hs]".
    iApply wp_bind. iApply (wp_readChild layout Hl with "Hi"); [done|]. iIntros "Hi".
    iApply (wp_wand with "[Hc]"); [by iApply Hbody|]. iIntros ([]) "_". iFrame. }
  iIntros ([]) "[$ _]".
Qed.

Lemma wp_removeSubtree d id ls : subtree d id ls ⊢ wp (removeSubtree (X := X) layout d id) (λ _, True).
Proof using Hl.
  revert id ls. induction d as [|d IH]; intros id ls; cbn [removeSubtree].
  - iIntros "(%l & -> & H)". by iApply (wp_remove with "H").
  - iIntros "(%ch & Hi & _ & Hs)". iDestruct "Hi" as "[Hi %Hok]". wpb (wp_load layout Hl) "Hi". cbn [node_of].
    wpb (wp_Depth layout Hl) "Hi". iApply wp_assert; [by apply bool_decide_true|]. rw /numChildren.
    wpb (wp_Size layout Hl) "Hi". rw Nat2Z.id. iApply wp_bind. iApply (wp_wand with "[Hi Hs]").
    { iApply (wp_remove_children d id ch (removeSubtree layout d)); [apply IH|]. iFrame "Hi". iSplit; [done|].
      iApply (big_sepL_mono with "Hs"). iIntros (k c Hk) "H". by iExists _. }
    iIntros ([]) "[Hi _]". by iApply (wp_remove with "Hi").
Qed.

Lemma wp_removeSubtree_node d id ls :
  subtree d id ls ⊢ wp (removeSubtree_node (X := X) layout (node_of d id)) (λ _, True).
Proof using Hl.
  destruct d as [|d]; cbn [removeSubtree_node node_of].
  - iIntros "(%l & -> & H)". by iApply (wp_remove with "H").
  - iIntros "(%ch & Hi & _ & Hs)". iDestruct "Hi" as "[Hi %Hok]". wpb (wp_Depth layout Hl) "Hi". rw /numChildren.
    wpb (wp_Size layout Hl) "Hi". rw Nat2Z.id. replace (Z.to_nat (Z.of_nat (S d) - 1)) with d by lia.
    iApply wp_bind. iApply (wp_wand with "[Hi Hs]").
    { iApply (wp_remove_children d id ch (removeSubtree layout d)); [apply wp_removeSubtree|]. iFrame "Hi". iSplit; [done|].
      iApply (big_sepL_mono with "Hs"). iIntros (k c Hk) "H". by iExists _. }
    iIntros ([]) "[Hi _]". by iApply (wp_remove with "Hi").
Qed.
End remove.
