(* ===== verification/BlobModel.v ===== *)
(** * A blob as a byte string

    The leaves of a blob hold its bytes in order: every leaf but the last one
    is full. [leaves_of] cuts a byte string into leaves. The lemmas relate
    what the callbacks of DataTree.cpp do to single leaves ([trav]) to the
    byte string: a write is [write_bytes], a resize is [resize_bytes]. *)
From S2P Require Import Prelude NodeSpec TreeModel.
From Stdlib Require Import Lia ZArith ZifyBool ZifyNat.
Open Scope nat_scope.

(** ** The abstract operations *)
Definition write_bytes (c : bytes) (off : nat) (src : bytes) : bytes :=
  if decide (src = []) then c else splice off src (pad (off + length src) c).
Definition resize_bytes (c : bytes) (n : nat) : bytes := pad n (take n c).

Lemma length_write_bytes c off src :
  src ≠ [] → length (write_bytes c off src) = Nat.max (length c) (off + length src).
Proof.
  intros H. unfold write_bytes. rewrite decide_False by done.
  rewrite length_splice; rewrite length_pad; lia.
Qed.

Lemma length_resize_bytes c n : length (resize_bytes c n) = n.
Proof. unfold resize_bytes. rewrite length_pad, length_take. lia. Qed.

Lemma lookup_write_bytes c off src p :
  src ≠ [] →
  write_bytes c off src !! p =
    if decide (off ≤ p < off + length src) then src !! (p - off)
    else if decide (p < length c) then c !! p
    else if decide (p < off + length src) then Some x00 else None.
Proof.
  intros H. unfold write_bytes. rewrite decide_False by done.
  rewrite lookup_splice by (rewrite length_pad; lia). by rewrite lookup_pad.
Qed.

Lemma lookup_resize_bytes c n p :
  resize_bytes c n !! p = if decide (p < n) then Some (default x00 (c !! p)) else None.
Proof.
  unfold resize_bytes. rewrite lookup_pad, length_take. repeat case_decide; try lia; try done.
  - rewrite lookup_take_lt by lia. destruct (lookup_lt_is_Some_2 c p) as [x ->]; [lia|done].
  - by rewrite (lookup_ge_None_2 c) by lia.
Qed.

(** ** Leaves *)
Section leaves.
Context (F : nat) (HF : 0 < F).

Definition num_leaves (n : nat) : nat := Nat.max 1 (cdiv n F).
Definition leaves_of (c : bytes) : list bytes :=
  (λ i, slice (i * F) F c) <$> seq 0 (num_leaves (length c)).

Lemma length_leaves_of c : length (leaves_of c) = num_leaves (length c).
Proof. unfold leaves_of. by rewrite length_fmap, length_seq. Qed.

Lemma lookup_leaves_of c i :
  leaves_of c !! i = if decide (i < num_leaves (length c)) then Some (slice (i * F) F c) else None.
Proof using F.
  clear HF. unfold leaves_of. rewrite list_lookup_fmap. case_decide.
  - by rewrite lookup_seq_lt.
  - by rewrite lookup_seq_ge by lia.
Qed.

Lemma num_leaves_bounds n : (num_leaves n - 1) * F ≤ n ≤ num_leaves n * F.
Proof using HF.
  unfold num_leaves. destruct (decide (n = 0)) as [->|Hn].
  - assert (cdiv 0 F = 0) as -> by (unfold cdiv; apply Nat.div_small; lia). lia.
  - pose proof (cdiv_last n F HF ltac:(lia)). pose proof (cdiv_pos n F HF ltac:(lia)).
    replace (Nat.max 1 (cdiv n F)) with (cdiv n F) by lia. lia.
Qed.

Lemma leaf_full n i : i < num_leaves n - 1 → S i * F ≤ n.
Proof using HF.
  intros Hi. pose proof (num_leaves_bounds n) as [H _].
  transitivity ((num_leaves n - 1) * F); [|done]. apply Nat.mul_le_mono_r. lia.
Qed.

Lemma length_leaf (c : bytes) i : length (slice (i * F) F c) = Nat.min F (length c - i * F).
Proof. apply length_slice_min. Qed.

Lemma last_leaves_of c l :
  last (leaves_of c) = Some l → l = slice ((num_leaves (length c) - 1) * F) F c.
Proof using F.
  clear HF.  rewrite last_lookup, length_leaves_of, lookup_leaves_of.
  rewrite decide_True by (unfold num_leaves; lia). intros [= <-].
  by replace (pred (num_leaves (length c))) with (num_leaves (length c) - 1) by lia.
Qed.
End leaves.

(** ** Writing *)
Section write.
Context (F : nat) (HF : 0 < F) (off : nat) (src : bytes) (Hsrc : src ≠ []).
Abbreviation endb := (off + length src).

(** The part [dataBegin, dataEnd) of leaf [i] that a write covers. *)
Definition data_begin (i : nat) : nat := off - i * F.
Definition data_end (i : nat) : nat := Nat.min F (endb - i * F).
Definition write_piece (i : nat) : bytes :=
  slice (i * F + data_begin i - off) (data_end i - data_begin i) src.
Definition write_f (i : nat) (isR : bool) (l : bytes) : bytes :=
  splice (data_begin i) (write_piece i) (if isR then pad (data_end i) l else l).
Definition write_g (i : nat) : bytes := replicate (data_begin i) x00 ++ write_piece i.
Definition write_first : nat := off / F.
Definition write_last : nat := cdiv endb F.

Lemma src_pos : 0 < length src.
Proof using Hsrc. clear HF. destruct src; [done|simpl; lia]. Qed.

Lemma write_range i : write_first ≤ i < write_last ↔ off < S i * F ∧ i * F < endb.
Proof. unfold write_first, write_last. by rewrite div_le_iff, lt_cdiv. Qed.

Lemma write_first_lt_last : write_first < write_last.
Proof.
  pose proof src_pos. unfold write_last. apply lt_cdiv; [done|].
  pose proof (Nat.Div0.mul_div_le off F). unfold write_first. lia.
Qed.

Lemma length_write_piece i :
  i * F < endb → off < S i * F → length (write_piece i) = data_end i - data_begin i.
Proof.
  intros H1 H2. unfold write_piece. apply length_slice. unfold data_begin, data_end. lia.
Qed.

Lemma lookup_write_piece i j :
  j < data_end i - data_begin i → write_piece i !! j = src !! (i * F + data_begin i - off + j).
Proof. intros H. unfold write_piece. by apply slice_lookup. Qed.

Lemma length_write_g i : write_first ≤ i < write_last → length (write_g i) = data_end i.
Proof.
  intros [H1 H2]%write_range. unfold write_g. rewrite length_app, length_replicate, length_write_piece by done.
  unfold data_begin, data_end. lia.
Qed.

Lemma length_write_f i isR l :
  write_first ≤ i < write_last → (isR = false → data_end i ≤ length l) →
  length (write_f i isR l) = if isR then Nat.max (data_end i) (length l) else length l.
Proof.
  intros [H1 H2]%write_range Hr. unfold write_f.
  assert (data_begin i ≤ data_end i) by (unfold data_begin, data_end; lia).
  rewrite length_splice; destruct isR; rewrite ?length_pad, ?length_write_piece by done; lia.
Qed.

(** The new content of leaf [i]. *)
Lemma write_leaf_new c i :
  num_leaves F (length c) ≤ i → i < write_last →
  trav_new F write_g write_first 0 i = slice (i * F) F (write_bytes c off src).
Proof.
  intros Hn He. pose proof (num_leaves_bounds F HF (length c)) as [_ Hb].
  assert (length c ≤ i * F). { transitivity (num_leaves F (length c) * F); [done|]. by apply Nat.mul_le_mono_r. }
  apply lt_cdiv in He; [|done]. apply list_eq. intros j. rewrite lookup_slice.
  unfold trav_new. rewrite Nat.add_0_l. destruct (write_first <=? i) eqn:Eb.
  - assert (off < S i * F) as Hoff by (apply div_le_iff; [done|unfold write_first in Eb; lia]).
    unfold write_g. destruct (decide (j < data_begin i)) as [Hj|Hj].
    + rewrite lookup_app_l by (rewrite length_replicate; lia). rewrite lookup_replicate_2 by done.
      unfold data_begin in Hj. rewrite decide_True by lia. rewrite lookup_write_bytes by done.
      repeat case_decide; try lia; done.
    + rewrite lookup_app_r; rewrite length_replicate; [|lia].
      destruct (decide (j < data_end i)) as [Hj'|Hj'].
      * rewrite lookup_write_piece by lia. unfold data_begin, data_end in *.
        rewrite decide_True by lia. rewrite lookup_write_bytes by done. rewrite decide_True by lia.
        f_equal. lia.
      * rewrite lookup_ge_None_2 by (rewrite length_write_piece by done; lia).
        unfold data_begin, data_end in *. case_decide; [|done]. rewrite lookup_write_bytes by done.
        repeat case_decide; try lia; done.
  - assert (¬ off < S i * F) as Hoff by (rewrite <- div_le_iff by done; unfold write_first in Eb; lia).
    destruct (decide (j < F)); [rewrite lookup_replicate_2, lookup_write_bytes by done|].
    + repeat case_decide; try lia; done.
    + apply lookup_ge_None_2. rewrite length_replicate. lia.
Qed.

(** What a write may rely on when it gets leaf [i]. *)
Definition write_pre (c : bytes) (i : nat) (isR : bool) (l : bytes) : Prop :=
  length l ≤ F ∧
  (if isR then S i = write_last ∧ length l + i * F = length c
   else data_end i ≤ length l ∧ (S i = write_last → endb ≤ length c)).

Abbreviation nl c := (num_leaves F (length c)).

(** The bytes of an existing leaf after it was filled up if leaves follow. *)
Lemma lookup_trav_pad (c : bytes) i j :
  i < nl c →
  trav_pad F (nl c) write_last false i (slice (i * F) F c) !! j =
    if decide (j < F) then
      if decide (i * F + j < length c) then c !! (i * F + j)
      else if (S i =? nl c) && (nl c <? write_last) then Some x00 else None
    else None.
Proof.
  intros Hi. unfold trav_pad. cbn [orb]. pose proof (length_leaf F c i) as Hlen.
  destruct (_ && _) eqn:E.
  - rewrite lookup_pad, Hlen, lookup_slice. repeat case_decide; try lia; done.
  - rewrite lookup_slice. repeat case_decide; try done. apply lookup_ge_None_2. lia.
Qed.

Lemma length_trav_pad (c : bytes) i :
  i < nl c →
  length (trav_pad F (nl c) write_last false i (slice (i * F) F c)) =
    if (S i =? nl c) && (nl c <? write_last) then F else Nat.min F (length c - i * F).
Proof.
  intros Hi. unfold trav_pad. cbn [orb]. destruct (_ && _); rewrite ?length_pad, length_leaf; lia.
Qed.

(** The arithmetic of an existing leaf. *)
Lemma write_leaf_cases (c : bytes) i :
  i < nl c →
  (S i < nl c ∧ S i * F ≤ length c ∨
   S i = nl c ∧ i * F ≤ length c ≤ S i * F) ∧
  (nl c < write_last ↔ nl c * F < endb) ∧ (write_last ≤ nl c ↔ endb ≤ nl c * F).
Proof.
  intros Hi. pose proof (num_leaves_bounds F HF (length c)) as [H1 H2]. split_and!.
  - destruct (decide (S i < nl c)).
    + left. split; [done|]. apply leaf_full; [done|lia].
    + right. replace (nl c - 1) with i in H1 by lia. replace (nl c) with (S i) in H2 by lia. lia.
  - by apply lt_cdiv.
  - by apply cdiv_le.
Qed.

Lemma write_pre_ok c i l :
  write_first ≤ i < write_last → leaves_of F c !! i = Some l →
  write_pre c i (trav_isR (nl c) write_last true i) (trav_pad F (nl c) write_last false i l).
Proof.
  intros Hr Hl. rewrite lookup_leaves_of in Hl. case_decide as Hi; [|done]. injection Hl as <-.
  destruct (write_leaf_cases c i Hi) as (Hc & He1 & He2). apply write_range in Hr as [Hr1 Hr2].
  assert (endb ≤ S i * F ↔ write_last ≤ S i) as He3 by (symmetry; by apply cdiv_le).
  unfold write_pre, trav_isR. rewrite length_trav_pad by done. cbn [andb]. split.
  { destruct (_ && _); lia. }
  destruct ((write_last =? nl c) && (S i =? nl c)) eqn:E1.
  - split; [lia|]. replace ((S i =? nl c) && _) with false by lia. destruct Hc as [Hc|Hc]; lia.
  - unfold data_end. destruct ((S i =? nl c) && (nl c <? write_last)) eqn:E2.
    + split; [lia|]. intros E3. lia.
    + destruct Hc as [[Hc1 Hc2]|[Hc1 Hc2]]; [lia|]. assert (write_last ≤ i) as Hle by lia. apply cdiv_le in Hle; [lia|done].
Qed.

Lemma write_leaf_existing (c : bytes) i :
  i < nl c →
  trav_leaf F write_f (nl c) write_first write_last false true 0 i (slice (i * F) F c)
  = slice (i * F) F (write_bytes c off src).
Proof.
  intros Hi. destruct (write_leaf_cases c i Hi) as (Hc & He1 & He2).
  apply list_eq. intros j. rewrite lookup_slice. unfold trav_leaf. rewrite Nat.add_0_l.
  destruct (_ && _) eqn:Er.
  - assert (write_first ≤ i < write_last) as Hr by lia. pose proof Hr as [Hr1 Hr2]%write_range.
    assert (leaves_of F c !! i = Some (slice (i * F) F c)) as Hl by (rewrite lookup_leaves_of, decide_True; done).
    destruct (write_pre_ok c i _ Hr Hl) as [HlF Hp].
    set (isR := trav_isR (nl c) write_last true i) in *.
    set (l := trav_pad F (nl c) write_last false i (slice (i * F) F c)) in *.
    assert (length l = if (S i =? nl c) && (nl c <? write_last) then F else Nat.min F (length c - i * F)) as Hlen
      by (by apply length_trav_pad).
    unfold write_f. rewrite lookup_splice.
    2:{ rewrite length_write_piece by done. unfold data_begin, data_end in *.
        destruct isR; rewrite ?length_pad; lia. }
    rewrite length_write_piece by done.
    destruct (decide (data_begin i ≤ j < data_begin i + (data_end i - data_begin i))) as [Hj|Hj].
    + rewrite lookup_write_piece by lia. unfold data_begin, data_end in *.
      rewrite decide_True by lia. rewrite lookup_write_bytes by done. rewrite decide_True by lia. f_equal. lia.
    + assert ((if isR then pad (data_end i) l else l) !! j =
        if decide (j < F) then if decide (i * F + j < length c) then c !! (i * F + j)
          else if decide (i * F + j < endb) then Some x00 else None else None) as ->.
      2:{ case_decide; [|done]. rewrite lookup_write_bytes by done. unfold data_begin, data_end in Hj.
          repeat case_decide; try lia; done. }
      unfold data_begin, data_end in *. unfold isR, trav_isR in *. cbn [andb] in *.
      destruct ((write_last =? nl c) && (S i =? nl c)) eqn:EisR.
      * rewrite lookup_pad, Hlen. unfold l. rewrite lookup_trav_pad by done.
        replace ((S i =? nl c) && (nl c <? write_last)) with false in * by lia.
        assert (endb ≤ S i * F) by (replace (S i) with (nl c) by lia; lia).
        repeat case_decide; try lia; done.
      * unfold l. rewrite lookup_trav_pad by done. destruct ((S i =? nl c) && (nl c <? write_last)) eqn:Epad.
        -- assert (S i * F < endb) by (replace (S i) with (nl c) by lia; lia). repeat case_decide; try lia; done.
        -- destruct Hp. repeat case_decide; try lia; done.
  - rewrite lookup_trav_pad by done.
    destruct (decide (j < F)); [|done]. rewrite lookup_write_bytes by done.
    assert (¬ (off < S i * F ∧ i * F < endb)) as Hnr by (rewrite <- write_range; lia).
    destruct ((S i =? nl c) && (nl c <? write_last)) eqn:Epad.
    + assert (S i * F < endb) by (replace (S i) with (nl c) by lia; lia). repeat case_decide; try lia; done.
    + repeat case_decide; try lia; try done.
      destruct Hc as [Hc|[Hc1 Hc2]]; [lia|]. assert (endb ≤ nl c * F) as Hx by lia. rewrite <- Hc1 in Hx.
      pose proof src_pos. lia.
Qed.

(** A write on the leaves is a write on the bytes. *)
Lemma write_leaves c :
  trav F false write_f write_g write_first write_last false true 0 (leaves_of F c) = leaves_of F (write_bytes c off src).
Proof.
  apply list_eq. intros i. rewrite lookup_trav, !lookup_leaves_of, length_leaves_of, length_write_bytes by done.
  unfold trav_len. cbn [andb].
  assert (num_leaves F (Nat.max (length c) endb) = Nat.max (nl c) write_last) as ->
    by (unfold num_leaves, write_last; rewrite cdiv_max; lia).
  case_decide; [|done]. f_equal. destruct (decide (i < nl c)).
  - by apply write_leaf_existing.
  - apply write_leaf_new; lia.
Qed.

(** The write fills every leaf of the range but the last one. *)
Lemma write_full c : full_ok F write_f write_g (write_pre c) write_first write_last.
Proof.
  split.
  - intros i l H1 H2 Hpre Hl. rewrite length_write_f; [done|lia|]. intros _. unfold data_end. lia.
  - intros i H1 H2. rewrite length_write_g by lia. unfold data_end.
    assert (S i * F < endb) by (apply lt_cdiv; [done|unfold write_last in *; lia]). lia.
Qed.
End write.

(** ** Resizing *)
Section resize.
Context (F : nat) (HF : 0 < F) (n : nat).
Abbreviation N := (num_leaves F n).

Definition resize_lastSize : nat := n - (N - 1) * F.
Definition resize_f (i : nat) (isR : bool) (l : bytes) : bytes := resized resize_lastSize l.
Definition resize_g (i : nat) : bytes := replicate resize_lastSize x00.

Lemma resize_lastSize_le : resize_lastSize ≤ F ∧ (N - 1) * F + resize_lastSize = n.
Proof.
  pose proof (num_leaves_bounds F HF n) as [H1 H2]. unfold resize_lastSize.
  assert (1 ≤ N) by (unfold num_leaves; lia). replace N with (S (N - 1)) in H2 by lia. lia.
Qed.

Lemma lookup_resized k (l : bytes) j :
  resized k l !! j = if decide (j < k) then Some (default x00 (l !! j)) else None.
Proof. apply lookup_resize_bytes. Qed.

Lemma default_lookup_trav_pad m e (c : bytes) i j :
  j < F →
  default x00 (trav_pad F m e false i (slice (i * F) F c) !! j) = default x00 (c !! (i * F + j)).
Proof.
  intros Hj. unfold trav_pad. destruct (_ && _).
  - rewrite lookup_pad, lookup_slice, length_leaf. repeat case_decide; try done; try lia.
    by rewrite lookup_ge_None_2 by lia.
  - by rewrite lookup_slice, decide_True by done.
Qed.

Lemma resize_leaves c :
  trav F true resize_f resize_g (N - 1) N false true 0 (leaves_of F c) = leaves_of F (resize_bytes c n).
Proof.
  assert (1 ≤ N) as HN by (unfold num_leaves; lia). destruct resize_lastSize_le as [Hl1 Hl2].
  apply list_eq. intros i. rewrite lookup_trav, !lookup_leaves_of, length_leaves_of, length_resize_bytes.
  unfold trav_len. replace (N - 1 <? N) with true by lia. cbn [andb]. case_decide as Hi; [|done]. f_equal.
  pose proof (num_leaves_bounds F HF (length c)) as [Hb1 Hb2]. set (m := num_leaves F (length c)) in *.
  apply list_eq. intros j. rewrite lookup_slice.
  destruct (decide (i = N - 1)) as [->|Hne].
  - destruct (decide (N - 1 < m)).
    + unfold trav_leaf. replace ((_ <=? _) && _) with true by lia. unfold resize_f. rewrite lookup_resized.
      case_decide; [|case_decide; [|done]; rewrite lookup_resize_bytes, decide_False by lia; done].
      rewrite default_lookup_trav_pad by lia. rewrite decide_True by lia.
      by rewrite lookup_resize_bytes, decide_True by lia.
    + unfold trav_new. replace (_ <=? _) with true by lia. unfold resize_g.
      destruct (decide (j < resize_lastSize)).
      * rewrite lookup_replicate_2, decide_True by lia. rewrite lookup_resize_bytes, decide_True by lia.
        rewrite lookup_ge_None_2; [done|]. pose proof (Nat.mul_le_mono_r m (N - 1) F ltac:(lia)). lia.
      * rewrite lookup_ge_None_2 by (rewrite length_replicate; lia).
        case_decide; [|done]. by rewrite lookup_resize_bytes, decide_False by lia.
  - pose proof (Nat.mul_le_mono_r (S i) (N - 1) F ltac:(lia)) as HiN.
    destruct (decide (i < m)).
    + unfold trav_leaf. replace ((_ <=? _) && _) with false by lia.
      case_decide as Hj.
      * rewrite lookup_resize_bytes, decide_True by lia.
        pose proof (default_lookup_trav_pad m N c i j Hj) as Hd.
        destruct (trav_pad _ _ _ _ _ _ !! j) eqn:E; [simpl in Hd; by rewrite <- Hd|].
        exfalso. apply lookup_ge_None in E. unfold trav_pad in E. cbn [orb] in E.
        destruct ((S i =? m) && (m <? N)) eqn:Ep; [rewrite length_pad in E; lia|].
        rewrite length_leaf in E. pose proof (leaf_full F HF (length c) i). fold m in H. lia.
      * apply lookup_ge_None_2. unfold trav_pad. destruct (_ && _); rewrite ?length_pad, length_leaf; lia.
    + unfold trav_new. replace (N - 1 <=? i) with false by lia.
      pose proof (Nat.mul_le_mono_r m i F ltac:(lia)).
      case_decide; [|apply lookup_ge_None_2; rewrite length_replicate; lia].
      rewrite lookup_replicate_2, lookup_resize_bytes, decide_True by lia.
      by rewrite lookup_ge_None_2 by lia.
Qed.
End resize.

(** ** Reading *)
Lemma trav_read F g b e ls :
  e ≤ length ls → trav F false (λ _ _ l, l) g b e false true 0 ls = ls.
Proof.
  intros He. apply list_eq. intros i. rewrite lookup_trav. unfold trav_len. cbn [andb].
  destruct (ls !! i) as [l|] eqn:E.
  - pose proof (lookup_lt_Some _ _ _ E). rewrite decide_True by lia. f_equal.
    unfold trav_leaf, trav_pad. cbn [orb]. replace (length ls <? e) with false by lia.
    rewrite andb_false_r. by destruct (_ && _).
  - apply lookup_ge_None in E. by rewrite decide_False by lia.
Qed.

(** Copying the next piece behind the part already copied. *)
Lemma splice_step {A} (t c : list A) off k m :
  off + k + m ≤ length c → k + m ≤ length t →
  splice k (slice (off + k) m c) (splice 0 (slice off k c) t) = splice 0 (slice off (k + m) c) t.
Proof.
  intros Hc Ht. apply list_eq. intros j.
  rewrite !lookup_splice; rewrite ?length_splice, ?length_slice by (rewrite ?length_slice; lia); try lia.
  rewrite !lookup_slice. repeat case_decide; try lia; try done; f_equal; lia.
Qed.
