(* ===== verification/BlobSpec.v ===== *)
(** * Specification of DataTree

    [blob r t c]: the tree object with root block [r] holds the bytes [c]
    ([t] is the buffer a read writes to). Reading, writing, resizing and
    asking for the size behave on the byte string as the plain operations of
    BlobModel.v. *)
From iris.base_logic.lib Require Import own ghost_map.
From iris.proofmode Require Import proofmode.
From S2P Require Import Prelude Serialization Nodes Tree NodeLogic NodeSpec TreeModel TreeSpec RootSpec BlobModel.
From Stdlib Require Import Lia ZArith.
Open Scope Z_scope.

Lemma u32_nat n : Z.of_nat n < 2 ^ 32 → u32 (Z.of_nat n) = Z.of_nat n.
Proof. intros. apply u32_small. split; [apply Nat2Z.is_nonneg|done]. Qed.
Lemma u64_nat n : Z.of_nat n < 2 ^ 63 → u64 (Z.of_nat n) = Z.of_nat n.
Proof. intros. apply u64_small. split; [apply Nat2Z.is_nonneg|lia]. Qed.

Lemma numNodes_loop_ok (layout : DataNodeLayout.t) (Hl : layout_ok layout) k n t : ∃ z, DataTree.numNodes_loop layout k n t = Ok z.
Proof.
  revert n t. induction k as [|k IH]; intros n t; [by eexists|]. cbn [DataTree.numNodes_loop]. rw /ceilDivision32 /div_.
  rw decide_False; [apply IH|]. pose proof (fanout_range layout Hl). pose proof (leafBytes_range layout Hl). rw -(fanout_eq layout Hl) u32_small; lia.
Qed.

Section blob.
Context {Σ : gFunctors} `{!nodeGS Σ tree}.
Context (layout : DataNodeLayout.t) (uninit : byte) (std_log : Z → Z) (D : nat).
Context (Hl : layout_ok layout) (Hcap : capacity_ok layout D) (Hlog : ceilLog_ok layout D std_log).
Abbreviation C := (fanout layout).
Abbreviation F := (leafBytes layout).
Abbreviation leaf := (leaf layout).
Abbreviation inner := (inner layout).
Abbreviation subtree := (subtree layout).
Abbreviation leaves := (leaves_of F).

Definition cache_ok (k : option (Z * Z)) (c : bytes) : Prop :=
  match k with None => True | Some p => p = (Z.of_nat (num_leaves F (length c)), Z.of_nat (length c)) end.

Definition tree_rep (r : bytes) (x : tree) (c : bytes) : iProp Σ :=
  ∃ d, ⌜_rootNode x = node_of d r ∧ (d ≤ D)%nat ∧ min_depth layout d (num_leaves F (length c)) ∧ cache_ok (_sizeCache x) c⌝ ∗
       subtree d r (leaves c).

Definition blob (r t c : bytes) : iProp Σ := ∃ x, ⌜target x = t⌝ ∗ ext_is x ∗ tree_rep r x c.

Lemma F_pos : (0 < F)%nat.
Proof using Hl. pose proof (leafBytes_range layout Hl). lia. Qed.

Lemma size_bound n : (n ≤ C ^ D * F)%nat → Z.of_nat n < 2 ^ 63.
Proof using Hl Hcap.
  intros H. destruct Hcap as [_ Hc]. pose proof (leafBytes_range layout Hl) as [_ HF].
  apply Nat2Z.inj_le in H. rw Nat2Z.inj_mul in H. nia.
Qed.

Lemma leaves_bound d r c : subtree d r (leaves c) ⊢ ⌜(num_leaves F (length c) ≤ C ^ d ∧ length c ≤ C ^ d * F)%nat⌝.
Proof using Hl.
  iIntros "H". iDestruct (subtree_length with "H") as %Hn; [done|]. iPureIntro. rw length_leaves_of in Hn.
  split; [lia|]. pose proof (num_leaves_bounds F F_pos (length c)) as [_ Hb].
  transitivity (num_leaves F (length c) * F)%nat; [done|]. apply Nat.mul_le_mono_r. lia.
Qed.

(** ** The size *)
Lemma wp_computeSizeCache fuel d id ls l (Φ : Z * Z → iProp Σ) :
  (d ≤ fuel)%nat → (d ≤ D)%nat → last ls = Some l → (length l ≤ F)%nat →
  subtree d id ls -∗
  (subtree d id ls -∗ Φ (Z.of_nat (length ls), Z.of_nat ((length ls - 1) * F + length l))) -∗
  wp (DataTree._computeSizeCache layout fuel (node_of d id)) Φ.
Proof using Hl Hcap.
  revert d id ls Φ. induction fuel as [|fuel IH]; intros d id ls Φ Hf Hd Hlast Hll; iIntros "Hs HΦ".
  - assert (d = 0)%nat as -> by lia. cbn [node_of DataTree._computeSizeCache].
    iDestruct "Hs" as (l') "[-> H]". injection Hlast as ->. wpb (wp_leaf_numBytes layout Hl) "H". iApply wp_ret.
    iApply "HΦ". iExists l. by iFrame.
  - destruct d as [|d]; cbn [node_of DataTree._computeSizeCache].
    { iDestruct "Hs" as (l') "[-> H]". injection Hlast as ->. wpb (wp_leaf_numBytes layout Hl) "H". iApply wp_ret.
      iApply "HΦ". iExists l. by iFrame. }
    iDestruct (subtree_length with "Hs") as %Hn; [done|].
    iDestruct "Hs" as (ch) "(Hi & [%Hn1 %Hlen] & Hs)".
    pose proof (fanout_pow_pos layout Hl d) as Hw. destruct (cdiv_last (length ls) (C ^ d) Hw ltac:(lia)) as [H1 H2].
    pose proof (cdiv_pos (length ls) (C ^ d) Hw ltac:(lia)).
    pose proof (cap_bound layout D Hcap _ (Nat.le_trans _ _ _ (proj2 Hn) (fanout_pow_le layout D Hl _ Hd))) as Hnb.
    pose proof (leafBytes_range layout Hl) as [_ HF32].
    iDestruct (inner_ok with "Hi") as %[_ [Hc _]]. pose proof (fanout_range layout Hl).
    wpb (wp_numChildren layout Hl) "Hi". wpb (wp_inner_Depth layout Hl) "Hi".
    destruct (last ch) as [cl|] eqn:Elast; [|apply last_None in Elast; subst ch; simpl in Hlen; lia].
    iApply wp_bind. iApply (wp_readLastChild layout Hl with "Hi"); [done|]. iIntros "Hi".
    rw last_lookup in Elast. iDestruct (big_sepL_lookup_acc with "Hs") as "[Hc Hs]"; [done|].
    set (o := (pred (length ch) * C ^ d)%nat) in *.
    assert (o = (cdiv (length ls) (C ^ d) - 1) * C ^ d)%nat as Eo by (rw /o Hlen; f_equal; lia).
    assert (o < length ls ≤ o + C ^ d)%nat as Ho.
    { rw Eo. split; [done|]. transitivity ((cdiv (length ls) (C ^ d) - 1 + 1) * C ^ d)%nat; [by rw Nat.sub_add|lia]. }
    clear H1 H2.
    wpb (wp_load_subtree layout Hl) "Hc". iApply wp_bind.
    iApply (IH d cl (slice o (C ^ d) ls) with "Hc"); [lia|lia| |done|].
    { rw last_lookup length_slice_min lookup_slice decide_True; [|lia]. rw last_lookup in Hlast. rw -Hlast. f_equal. lia. }
    iIntros "Hc". iApply wp_ret. iDestruct ("Hs" with "Hc") as "Hs".
    assert (DataTree._leavesPerFullChild layout (Z.of_nat (S d)) = Z.of_nat (C ^ d)) as ->.
    { rw /DataTree._leavesPerFullChild. replace (Z.to_nat _) with d by lia. apply (maxLeaves_eq layout D Hl Hcap). lia. }
    rw (u32_small (_ - 1)); [|lia].
    assert ((Z.of_nat (length ch) - 1) * Z.of_nat (C ^ d) = Z.of_nat o) as -> by (rw /o Nat2Z.inj_mul; f_equal; lia).
    rw (u32_small (Z.of_nat o)); [|lia]. cbn [fst snd]. rw length_slice_min. rw u32_small; [|lia].
    assert (o * F + ((Nat.min (C ^ d) (length ls - o) - 1) * F + length l) = (length ls - 1) * F + length l)%nat as Esz.
    { rw Nat.add_assoc -Nat.mul_add_distr_r. do 2 f_equal. lia. }
    assert (Z.of_nat ((length ls - 1) * F + length l) < 2 ^ 63) as Hsz.
    { apply size_bound. transitivity ((length ls - 1 + 1) * F)%nat; [lia|]. apply Nat.mul_le_mono_r.
      rw Nat.sub_add //. etransitivity; [apply Hn|]. by apply fanout_pow_le. }
    rw -leafBytes_eq // -Nat2Z.inj_mul. rw (u64_small (Z.of_nat (o * F))); [|lia]. rw -(Nat2Z.inj_add (o * F)) Esz.
    rw u64_nat //.
    replace (Z.of_nat o + Z.of_nat (Nat.min (C ^ d) (length ls - o))) with (Z.of_nat (length ls)) by lia.
    iApply "HΦ". iExists ch. by iFrame.
Qed.

Lemma last_leaf c : ∃ l, last (leaves c) = Some l ∧ (length l ≤ F)%nat ∧
  ((num_leaves F (length c) - 1) * F + length l = length c)%nat.
Proof using Hl.
  pose proof (num_leaves_bounds F F_pos (length c)) as [Hb1 Hb2].
  assert (1 ≤ num_leaves F (length c))%nat as Hn by (rw /num_leaves; lia).
  exists (slice ((num_leaves F (length c) - 1) * F) F c). split_and!.
  - rw last_lookup length_leaves_of lookup_leaves_of decide_True; [|lia]. do 3 f_equal. lia.
  - rw length_slice_min. lia.
  - rw length_slice_min. replace (num_leaves F (length c)) with (S (num_leaves F (length c) - 1)) in Hb2 by lia.
    rw Nat.mul_succ_l in Hb2. lia.
Qed.

Lemma wp_getOrComputeSizeCache r t c :
  blob r t c ⊢ wp (DataTree._getOrComputeSizeCache layout)
    (λ p, ⌜p = (Z.of_nat (num_leaves F (length c)), Z.of_nat (length c))⌝ ∗ blob r t c).
Proof using Hl Hcap.
  iIntros "(%x & %Ht & Hx & (%d & (%Hr & %Hd & %Hm & %Hk) & Hs))". rw /DataTree._getOrComputeSizeCache.
  wpb wp_get_ext "Hx". destruct (_sizeCache x) as [k|] eqn:Ek.
  - iApply wp_ret. iSplit; [done|]. iExists x. iFrame "Hx". iSplit; [done|]. iExists d. rw Ek. by iFrame.
  - destruct (last_leaf c) as (l & Hlast & Hll & Hsz). rw Hr. iApply wp_bind.
    iApply (wp_computeSizeCache with "Hs"); [rw /MAX_DEPTH; destruct Hcap; lia|done..|]. iIntros "Hs".
    rw length_leaves_of Hsz. iApply wp_bind. iApply (wp_set_ext with "Hx"). iIntros "Hx". iApply wp_ret. iSplit; [done|].
    iExists _. iFrame "Hx". iSplit; [done|]. iExists d. by iFrame.
Qed.

Lemma wp_numBytes r t c :
  blob r t c ⊢ wp (DataTree.numBytes layout) (λ v, ⌜v = Z.of_nat (length c)⌝ ∗ blob r t c).
Proof using Hl Hcap.
  iIntros "H". iApply wp_bind. iApply (wp_wand with "[H]"); [by iApply wp_getOrComputeSizeCache|].
  iIntros (p) "[-> H]". iApply wp_ret. by iFrame.
Qed.

Lemma wp_numLeaves r t c :
  blob r t c ⊢ wp (DataTree.numLeaves layout) (λ v, ⌜v = Z.of_nat (num_leaves F (length c))⌝ ∗ blob r t c).
Proof using Hl Hcap.
  iIntros "H". iApply wp_bind. iApply (wp_wand with "[H]"); [by iApply wp_getOrComputeSizeCache|].
  iIntros (p) "[-> H]". iApply wp_ret. by iFrame.
Qed.

(** ** Traversing a range of bytes *)
Lemma leaf_index_bound i endb : (i * F < endb)%nat → (endb ≤ C ^ D * F)%nat → (i < C ^ D)%nat.
Proof using Hl. intros H1 H2. pose proof F_pos. apply (Nat.mul_lt_mono_pos_r F); lia. Qed.

Lemma wp_byte_onExistingLeaf i (isR : bool) id ld l x off endb onEx (Φ : unit → iProp Σ) :
  (off < S i * F)%nat → (i * F < endb)%nat → (endb ≤ C ^ D * F)%nat → (off ≤ endb)%nat →
  (isR = true → S i = cdiv endb F) →
  leaf id l -∗ ext_is x -∗
  (leaf id (if isR then pad (Nat.min F (endb - i * F)) l else l) -∗
   ext_is (if isR && (length l <? Nat.min F (endb - i * F))%nat then set_growing true x else x) -∗
   wp (onEx (Z.of_nat (i * F)) (mkHandle id ld) (Z.of_nat (off - i * F)) (Z.of_nat (Nat.min F (endb - i * F) - (off - i * F)))) Φ) -∗
  wp (DataTree.byte_onExistingLeaf layout (Z.of_nat off) (Z.of_nat endb) (Z.of_nat (cdiv endb F)) onEx (Z.of_nat i) isR (mkHandle id ld)) Φ.
Proof using Hl Hcap.
  iIntros (Ho Hi He Hoe Hr) "Hlf Hx HΦ". iDestruct (leaf_length with "Hlf") as %Hll.
  pose proof (size_bound endb He) as He63. pose proof (leafBytes_range layout Hl) as [_ HF32].
  pose proof (cap_bound layout D Hcap i) as Hi31. pose proof (leaf_index_bound i endb Hi He) as HiD.
  rw /DataTree.byte_onExistingLeaf -leafBytes_eq //. rw -!Nat2Z.inj_mul u64_nat; [|lia].
  iApply wp_assert; [apply bool_decide_true; lia|].
  rw (maxZeroSubtraction_eq off (i * F)) u32_nat; [|lia].
  rw -Nat2Z.inj_sub; [|lia]. rw u64_nat; [|lia]. rw -Nat2Z.inj_min u32_nat; [|lia].
  rw -Nat2Z.inj_sub; [|lia]. rw (u32_nat (_ - _)); [|lia].
  iApply wp_bind. iApply (wp_wand _ (λ _, leaf id (if isR then pad (Nat.min F (endb - i * F)) l else l) ∗
    ext_is (if isR && (length l <? Nat.min F (endb - i * F))%nat then set_growing true x else x))%I with "[Hlf Hx]");
    last by iIntros ([]) "[H1 H2]"; iApply ("HΦ" with "H1 H2").
  destruct isR; [|iApply wp_ret; by iFrame]. specialize (Hr eq_refl). rw -Hr.
  iApply wp_assert. { apply bool_decide_true. rw u32_small; lia. }
  wpb (wp_handle_node layout Hl) "Hlf". wpb (wp_leaf_numBytes layout Hl) "Hlf". case_decide as Hlt.
  - iApply wp_bind. iApply (wp_leaf_resize layout Hl with "Hlf"); [lia|]. iIntros "Hlf".
    iApply (wp_set_ext with "Hx"). iIntros "Hx". rw /resized take_ge; [|lia].
    replace (length l <? _)%nat with true by (symmetry; apply Nat.ltb_lt; lia). by iFrame.
  - iApply wp_ret. replace (length l <? _)%nat with false by (symmetry; apply Nat.ltb_ge; lia).
    rw pad_ge; [|lia]. by iFrame.
Qed.

(** ** Writing *)
Section write.
Context (off : nat) (src : bytes) (Hsrc : src ≠ []) (Hend : (off + length src ≤ C ^ D * F)%nat).
Context (c : bytes) (x0 : tree).
Abbreviation endb := (off + length src)%nat.
Abbreviation first := (write_first F off).
Abbreviation lst := (write_last F off src).

(** The flag [blobIsGrowingFromThisTraversal] during a write. *)
Definition write_inv (i : nat) : iProp Σ :=
  ∃ fl, ext_is (set_growing fl x0) ∗
    ⌜(fl = true → (length c < endb)%nat) ∧ (i = lst → (length c < endb)%nat → fl = true)⌝.

Lemma src_slice i :
  (off < S i * F)%nat → (i * F < endb)%nat →
  Data.memcpy_from src (i * F + (off - i * F) - off) (Nat.min F (endb - i * F) - (off - i * F)) = Ok (write_piece F off src i).
Proof. intros H1 H2. rw Data.memcpy_from_ok //. lia. Qed.

Lemma source_bounds i k :
  (off < S i * F)%nat → (i * F < endb)%nat → (k ≤ Nat.min F (endb - i * F) - (off - i * F))%nat →
  u64 (Z.of_nat (i * F) + Z.of_nat (off - i * F)) = Z.of_nat (i * F + (off - i * F)) ∧
  u64 (Z.of_nat (i * F) - Z.of_nat off + Z.of_nat (off - i * F)) = Z.of_nat (i * F + (off - i * F) - off) ∧
  u64 (Z.of_nat (i * F) - Z.of_nat off + Z.of_nat (off - i * F) + Z.of_nat k) = Z.of_nat (i * F + (off - i * F) - off + k).
Proof using Hl Hcap Hend.
  intros H1 H2 Hk. pose proof (size_bound _ Hend). split_and!.
  - rw -Nat2Z.inj_add u64_nat //. lia.
  - replace (_ + _) with (Z.of_nat (i * F + (off - i * F) - off)) by lia. rw u64_nat //. lia.
  - replace (_ + Z.of_nat k) with (Z.of_nat (i * F + (off - i * F) - off + k)) by lia. rw u64_nat //. lia.
Qed.

Lemma wp_write_onExistingLeaf i id ld l :
  (off < S i * F)%nat → (i * F < endb)%nat → (data_end F off src i ≤ length l)%nat →
  leaf id l ⊢
  wp (DataTree.write_onExistingLeaf layout uninit src (Z.of_nat off) (Z.of_nat (length src)) (Z.of_nat (i * F)) (mkHandle id ld)
        (Z.of_nat (off - i * F)) (Z.of_nat (Nat.min F (endb - i * F) - (off - i * F))))
     (λ _, leaf id (splice (data_begin F off i) (write_piece F off src i) l)).
Proof using Hl Hcap Hend.
  intros H1 H2 Hde. iIntros "H". iDestruct (leaf_length with "H") as %Hll. rw /DataTree.write_onExistingLeaf.
  destruct (source_bounds i _ H1 H2 (Nat.le_refl _)) as (E1 & E2 & E3). rw E1 E2 E3.
  iApply wp_assert; [rw !bool_decide_true //; lia|]. rw -leafBytes_eq //.
  pose proof (length_write_piece F F_pos off src i H2 H1) as Hpl. rw /data_end /data_begin in Hde Hpl |- *.
  case_decide as Hw.
  - assert (off - i * F = 0)%nat as E0 by lia. iApply wp_bind. iApply wp_lift.
    { replace (Z.of_nat (i * F) - Z.of_nat off) with (Z.of_nat (i * F) - Z.of_nat off + Z.of_nat (off - i * F)) by lia.
      rw E2 !Nat2Z.id. by apply src_slice. }
    iApply wp_bind. iApply (wp_overwriteLeaf layout uninit Hl with "H"); [rw Hpl; lia|]. iIntros "H".
    iApply wp_ret. rw E0 splice_all //. rw Hpl. lia.
  - wpb (wp_handle_node layout Hl) "H". iApply wp_bind. iApply wp_lift; [rw !Nat2Z.id; by apply src_slice|].
    iApply (wp_leaf_write layout Hl with "H"); [rw Hpl; lia|]. by iIntros.
Qed.

Lemma write_exist_spec :
  exist_spec layout (write_f F off src) write_inv (write_pre F off src c) (0 + first) (0 + lst)
    (DataTree.byte_onExistingLeaf layout (Z.of_nat off) (Z.of_nat endb) (Z.of_nat lst)
       (DataTree.write_onExistingLeaf layout uninit src (Z.of_nat off) (Z.of_nat (length src)))).
Proof using Hl Hcap Hend Hsrc.
  intros i isR id ld l Hi [HlF Hp]. iIntros "[H (%fl & Hx & [%Hf1 %Hf2])]".
  assert (first ≤ i < lst)%nat as Hr by lia. pose proof Hr as [Hr1 Hr2]%write_range; [|apply F_pos].
  iApply (wp_byte_onExistingLeaf with "H Hx"); [done|done|done|lia|by destruct isR; [intros _; destruct Hp|]|].
  iIntros "H Hx". iApply (wp_wand with "[H]").
  { iApply (wp_write_onExistingLeaf with "H"); [done|done|]. rw /data_end in Hp |- *.
    destruct isR; [rw length_pad; lia|lia]. }
  iIntros ([]) "H". iSplitL "H"; [by rw /write_f /data_end|].
  iExists (fl || (isR && (length l <? Nat.min F (endb - i * F))%nat)). iSplitL.
  { destruct (isR && _); [rw orb_true_r|rw orb_false_r]; done. }
  iPureIntro. rw /data_end in Hp. assert (S i = lst → endb ≤ S i * F)%nat as Hlast.
  { intros E. apply (cdiv_le _ F (S i) F_pos). rw E. done. }
  split.
  - intros [?|[-> Hlt%Nat.ltb_lt]%andb_prop]%orb_prop; [by apply Hf1|]. destruct Hp. lia.
  - intros E Hgt. specialize (Hlast E). destruct isR.
    + destruct Hp. apply orb_true_intro. right. apply Nat.ltb_lt. lia.
    + destruct Hp as [Hp1 Hp2]. specialize (Hp2 E). lia.
Qed.

Lemma write_create_spec :
  create_spec layout (write_g F off src) write_inv (0 + Nat.max first (num_leaves F (length c))) (0 + lst)
    (DataTree.byte_onCreateLeaf layout (Z.of_nat off) (Z.of_nat endb) (Z.of_nat first) (Z.of_nat lst) false
       (DataTree.write_onCreateLeaf src (Z.of_nat off) (Z.of_nat (length src)))).
Proof using Hl Hcap Hend Hsrc.
  intros i Hi. iIntros "(%fl & Hx & [%Hf1 %Hf2])".
  assert (first ≤ i < lst)%nat as Hr by lia. pose proof Hr as [Hr1 Hr2]%write_range; [|apply F_pos].
  pose proof (size_bound endb Hend) as He63. pose proof (leafBytes_range layout Hl) as [_ HF32].
  pose proof (leaf_index_bound i endb Hr2 Hend) as HiD. pose proof (cap_bound layout D Hcap i) as Hi31.
  rw /DataTree.byte_onCreateLeaf. iApply wp_assert; [done|].
  iApply wp_bind. iApply (wp_set_ext with "Hx"). iIntros "Hx".
  rw -leafBytes_eq // -!Nat2Z.inj_mul u64_nat; [|lia]. iApply wp_assert; [apply bool_decide_true; lia|].
  rw (maxZeroSubtraction_eq off (i * F)) u32_nat; [|lia]. rw -Nat2Z.inj_sub; [|lia]. rw u64_nat; [|lia].
  rw -Nat2Z.inj_min u32_nat; [|lia]. rw -Nat2Z.inj_sub; [|lia]. rw (u32_nat (_ - _)); [|lia].
  iApply wp_assert.
  { destruct (decide (i = first)) as [->|Hne]; [by rw bool_decide_true|].
    rw (bool_decide_true (Z.of_nat (off - _) = 0)) ?orb_true_r //.
    assert (off < S (i - 1) * F)%nat; [|replace i with (S (i - 1)) by lia; lia].
    apply div_le_iff; [apply F_pos|]. rw /write_first in Hi Hne. lia. }
  iApply wp_assert.
  { destruct (decide (S i = lst)) as [Elst|Hne]; [rw bool_decide_true //; rw -Elst u32_small; lia|].
    rw (bool_decide_true (Z.of_nat (Nat.min _ _) = _)) ?orb_true_r //.
    assert (S i * F < endb)%nat; [|lia]. apply lt_cdiv; [apply F_pos|]. rw /write_last in Hi Hne. lia. }
  iApply wp_bind. rw -Nat2Z.inj_add u64_nat; [|lia]. rw /DataTree.write_onCreateLeaf.
  iApply wp_assert.
  { rw !bool_decide_true //; [|lia..]. rw -Nat2Z.inj_sub; [|lia]. rw -Nat2Z.inj_add u64_nat; lia. }
  iApply wp_lift. { rw -Nat2Z.inj_sub; [|lia]. rw !Nat2Z.id. by apply src_slice. }
  pose proof (length_write_piece F F_pos off src i Hr2 Hr1) as Hpl.
  iApply wp_assert; [apply bool_decide_true; rw Hpl /data_end /data_begin; lia|].
  iApply wp_ret. iSplit.
  - iPureIntro. pose proof (length_write_g F F_pos off src i Hr) as Hg. rw /write_g /data_end in Hg |- *. rw /data_begin in Hg |- *.
    case_decide as Hz; [rw Nat2Z.id; split; [done|lia]|]. replace (off - i * F)%nat with 0%nat in Hg |- * by lia. split; [done|]. rw /= in Hg. lia.
  - iExists true. iFrame. iPureIntro. split; [|done]. intros _.
    pose proof (num_leaves_bounds F F_pos (length c)) as [_ Hb].
    pose proof (Nat.mul_le_mono_r (num_leaves F (length c)) i F ltac:(lia)). lia.
Qed.
End write.

Lemma subtree_last_le d r c l : subtree d r (leaves c) ⊢ ⌜last (leaves c) = Some l → (length l ≤ F)%nat⌝.
Proof using Hl. iIntros "_". iPureIntro. intros H. destruct (last_leaf c) as (l' & E & Hle & _). congruence. Qed.

Lemma first_eq off : u32 (Z.of_nat off / DataNodeLayout.maxBytesPerLeaf layout) = u32 (Z.of_nat (write_first F off)).
Proof using Hl. rw /write_first Nat2Z.inj_div leafBytes_eq //. Qed.

Lemma ceilDivision64_eq n :
  (n ≤ C ^ D * F)%nat →
  ceilDivision64 (Z.of_nat n) (DataNodeLayout.maxBytesPerLeaf layout) = Ok (Z.of_nat (cdiv n F)).
Proof using Hl Hcap.
  intros H. pose proof (size_bound n H). pose proof (leafBytes_range layout Hl) as [? ?].
  rw /ceilDivision64 -leafBytes_eq // u64_small; [|lia].
  replace (_ - 1) with (Z.of_nat (n + F - 1)) by lia. apply div_eq. lia.
Qed.

Lemma cdiv_bound n : (n ≤ C ^ D * F)%nat → (cdiv n F ≤ C ^ D)%nat.
Proof using Hl. intros H. by apply cdiv_le; [apply F_pos|]. Qed.

Theorem wp_writeBytes r t c off src :
  (off + length src ≤ C ^ D * F)%nat →
  fresh (root_cost D (num_leaves F (length c)) (cdiv (off + length src) F)) -∗ blob r t c -∗
  wp (DataTree.writeBytes layout uninit std_log src (Z.of_nat off) (Z.of_nat (length src)))
     (λ _, blob r t (write_bytes c off src)).
Proof using Hl Hcap Hlog.
  iIntros (Hend) "Hf Hb". rw /DataTree.writeBytes /DataTree._traverseLeavesByByteIndices.
  destruct (decide (src = [])) as [->|Hsrc]; [by iApply wp_ret|].
  pose proof (src_pos src Hsrc) as Hpos. rw decide_False; [|lia].
  pose proof (size_bound _ Hend) as He63. pose proof (cdiv_bound _ Hend) as HlD.
  pose proof (cap_bound layout D Hcap _ HlD) as Hl31. pose proof (write_first_lt_last F F_pos off src Hsrc) as Hfl.
  rw -Nat2Z.inj_add u64_nat //. rw first_eq u32_nat; [|rw /write_last in Hfl; lia].
  iApply wp_bind. iApply wp_lift; [by apply ceilDivision64_eq|]. rw u32_nat; [|lia].
  iDestruct "Hb" as (x) "(%Ht & Hx & (%d & (%Hr & %Hd & %Hm & %Hk) & Hs))".
  iApply wp_bind. iApply (wp_set_ext with "Hx"). iIntros "Hx".
  iApply wp_bind. rw /DataTree._traverseLeavesByLeafIndices decide_False; [|rw /write_last in Hfl; lia].
  wpb wp_get_ext "Hx". cbn [_rootNode set_growing]. rw Hr. iApply wp_bind.
  iAssert (write_inv off src c x (write_first F off)) with "[Hx]" as "HI".
  { iExists false. iFrame. iPureIntro. split; [done|]. lia. }
  iApply (wp_wand with "[Hf Hs HI]").
  { iApply (wp_traverseAndUpdateRoot layout uninit std_log D Hl Hcap Hlog false 0 (write_f F off src) (write_g F off src)
      (write_inv off src c x) (write_pre F off src c) false with "[Hf] Hs HI"); [done| |done|..].
    - done.
    - split_and!; [by apply write_exist_spec|rw length_leaves_of; by apply write_create_spec|by split].
    - intros i l Hi Hlk. rw length_leaves_of. apply write_pre_ok; [apply F_pos|done|done].
    - by apply write_full, F_pos.
    - intros l E. destruct (last_leaf c) as (l' & E' & Hle & _). congruence.
    - by rw length_leaves_of. }
  iIntros (nd) "(%d' & (-> & %Hd' & %Hm') & Hs & (%fl & Hx & [%Hf1 %Hf2]))".
  rw (write_leaves F F_pos off src Hsrc) in Hm' *. rw length_leaves_of in Hm'.
  iApply (wp_set_ext with "Hx"). iIntros "Hx". wpb wp_get_ext "Hx". iApply wp_assert; [done|].
  cbn [blobIsGrowingFromThisTraversal set_root set_growing].
  destruct fl.
  - iApply (wp_set_ext with "Hx"). iIntros "Hx". iExists _. iFrame "Hx". iSplit; [done|]. iExists d'. iFrame. iPureIntro.
    split_and!; [done|done|done|]. cbn [_sizeCache set_cache cache_ok]. rw length_write_bytes //. specialize (Hf1 eq_refl).
    replace (Nat.max _ _) with (off + length src)%nat by lia. rw /num_leaves. rw /write_last in Hfl. do 2 f_equal. lia.
  - iApply wp_ret. iExists _. iFrame "Hx". iSplit; [done|]. iExists d'. iFrame. iPureIntro. split_and!; [done|done|done|].
    cbn [_sizeCache set_root set_growing]. rw /cache_ok length_write_bytes //.
    replace (Nat.max _ _) with (length c); [done|].
    destruct (decide (length c < off + length src)%nat) as [Hlt|]; [|lia]. by specialize (Hf2 eq_refl Hlt).
Qed.

(** ** Reading *)
Section read.
Context (off cnt : nat) (c t : bytes) (x0 : tree).
Context (Hcnt : (0 < cnt)%nat) (Hend : (off + cnt ≤ length c)%nat) (Hc : (length c ≤ C ^ D * F)%nat) (Ht : (cnt ≤ length t)%nat).
Abbreviation endb := (off + cnt)%nat.

Definition read_inv (i : nat) : iProp Σ :=
  ext_is (set_target (splice 0 (slice off (Nat.min (i * F) endb - off) c) t) x0).
Definition read_pre (i : nat) (isR : bool) (l : bytes) : Prop :=
  leaves c !! i = Some l ∧ (isR = true → S i = cdiv endb F).

Lemma wp_read_onExistingLeaf i id ld l :
  (off < S i * F)%nat → (i * F < endb)%nat → l = slice (i * F) F c →
  leaf id l ∗ read_inv i ⊢
  wp (DataTree.read_onExistingLeaf layout (Z.of_nat off) (Z.of_nat cnt) (Z.of_nat (i * F)) (mkHandle id ld)
        (Z.of_nat (off - i * F)) (Z.of_nat (Nat.min F (endb - i * F) - (off - i * F))))
     (λ _, leaf id l ∗ read_inv (S i)).
Proof using Hl Hcap Hcnt Hend Hc Ht.
  intros H1 H2 El. iIntros "[H Hx]". rw /DataTree.read_onExistingLeaf.
  pose proof (size_bound _ (Nat.le_trans _ _ _ Hend Hc)) as He63.
  assert (length l = Nat.min F (length c - i * F)) as Hll by (rw El; apply length_slice_min).
  rw -Nat2Z.inj_add u64_nat; [|lia].
  replace (Z.of_nat (i * F) - Z.of_nat off + Z.of_nat (off - i * F)) with (Z.of_nat (i * F + (off - i * F) - off)) by lia.
  rw -Nat2Z.inj_add !u64_nat; [|lia..]. iApply wp_assert; [rw !bool_decide_true //; lia|].
  wpb (wp_handle_node layout Hl) "H". iApply wp_bind.
  iApply (wp_leaf_read layout Hl with "H"); [lia|]. iIntros "H". wpb wp_get_ext "Hx".
  set (k := (Nat.min (i * F) endb - off)%nat). set (m := (Nat.min F (endb - i * F) - (off - i * F))%nat).
  assert (slice (off - i * F) m l = slice (off + k) m c) as ->.
  { rw El. apply list_eq. intros j. rw !lookup_slice. repeat case_decide; try done; [f_equal|]; rw /k; lia. }
  iApply wp_bind. iApply wp_lift.
  { rw Nat2Z.id. cbn [target set_target]. replace (i * F + (off - i * F) - off)%nat with k by (rw /k; lia).
    rw Data.memcpy_to_ok; [|rw length_splice !length_slice; rw /k /m; lia].
    rw splice_step; [done|rw /k /m; lia..]. }
  iApply (wp_set_ext with "Hx"). iIntros "Hx". iFrame "H". rw /read_inv.
  replace (k + m)%nat with (Nat.min (S i * F) endb - off)%nat by (rw /k /m; lia). done.
Qed.

Lemma read_exist_spec :
  exist_spec layout (λ _ _ l, l) read_inv read_pre (0 + off / F) (0 + cdiv endb F)
    (DataTree.byte_onExistingLeaf layout (Z.of_nat off) (Z.of_nat endb) (Z.of_nat (cdiv endb F))
       (DataTree.read_onExistingLeaf layout (Z.of_nat off) (Z.of_nat cnt))).
Proof using Hl Hcap Hcnt Hend Hc Ht.
  intros i isR id ld l Hi [Hlk HR]. iIntros "[H Hx]". pose proof F_pos as HF.
  assert (off < S i * F)%nat as H1 by (apply div_le_iff; lia). assert (i * F < endb)%nat as H2 by (apply lt_cdiv; lia).
  rw lookup_leaves_of in Hlk. case_decide; [|done]. injection Hlk as El.
  assert (length l = Nat.min F (length c - i * F)) as Hll by (rw -El; apply length_slice_min).
  iApply (wp_byte_onExistingLeaf with "H Hx"); [done|done|lia|lia|done|]. iIntros "H Hx".
  replace (length l <? _)%nat with false by (symmetry; apply Nat.ltb_ge; lia). rw andb_false_r.
  assert ((if isR then pad (Nat.min F (endb - i * F)) l else l) = l) as -> by (destruct isR; [apply pad_ge; lia|done]).
  iApply wp_read_onExistingLeaf; [done|done|by rw -El|]. iFrame.
Qed.
End read.

Lemma wp_doReadBytes r t c off cnt :
  (cnt = 0 ∨ off + cnt ≤ length c)%nat → (cnt ≤ length t)%nat →
  blob r t c ⊢
  wp (DataTree._doReadBytes layout uninit std_log (Z.of_nat off) (Z.of_nat cnt))
     (λ _, blob r (splice 0 (slice off cnt c) t) c).
Proof using Hl Hcap Hlog.
  iIntros (Hend Ht) "Hb". rw /DataTree._doReadBytes /DataTree._traverseLeavesByByteIndices.
  iDestruct "Hb" as (x) "(%Htx & Hx & (%d & (%Hr & %Hd & %Hm & %Hk) & Hs))".
  destruct (decide (cnt = 0)%nat) as [->|Hcnt].
  { iApply wp_ret. iExists x. iFrame "Hx". iSplit; [iPureIntro; by rw /slice take_0 splice_nil|]. iExists d. by iFrame. }
  destruct Hend as [?|Hend]; [lia|].
  rw decide_False; [|lia]. iDestruct (leaves_bound with "Hs") as %[Hnl Hlc].
  assert (length c ≤ C ^ D * F)%nat as Hc.
  { transitivity (C ^ d * F)%nat; [done|]. by apply Nat.mul_le_mono_r, fanout_pow_le. }
  pose proof (size_bound _ (Nat.le_trans _ _ _ Hend Hc)) as He63. pose proof F_pos as HF.
  pose proof (cdiv_bound _ (Nat.le_trans _ _ _ Hend Hc)) as HlD. pose proof (cap_bound layout D Hcap _ HlD) as Hl31.
  assert (off / F < cdiv (off + cnt) F)%nat as Hfl.
  { apply lt_cdiv; [done|]. pose proof (Nat.Div0.mul_div_le off F). lia. }
  assert (cdiv (off + cnt) F ≤ num_leaves F (length c))%nat as Hln.
  { apply cdiv_le; [done|]. pose proof (num_leaves_bounds F HF (length c)). lia. }
  rw -Nat2Z.inj_add u64_nat //. rw first_eq /write_first u32_nat; [|lia].
  iApply wp_bind. iApply wp_lift; [apply ceilDivision64_eq; lia|]. rw u32_nat; [|lia].
  iApply wp_bind. iApply (wp_set_ext with "Hx"). iIntros "Hx".
  iApply wp_bind. rw /DataTree._traverseLeavesByLeafIndices decide_False; [|lia].
  wpb wp_get_ext "Hx". cbn [_rootNode set_growing]. rw Hr. iApply wp_bind.
  iAssert (read_inv off cnt c t (set_growing false x) (off / F)) with "[Hx]" as "HI".
  { rw /read_inv. replace (Nat.min _ _ - off)%nat with 0%nat by (pose proof (Nat.Div0.mul_div_le off F); lia).
    rw /slice take_0 splice_nil -Htx. by destruct x. }
  iApply wp_bupd. iMod fresh_0 as "Hf". iModIntro. iApply (wp_wand with "[Hf Hs HI]").
  { iApply (wp_traverseAndUpdateRoot layout uninit std_log D Hl Hcap Hlog false 0 (λ _ _ l, l) (λ _, replicate F x00)
      (read_inv off cnt c t (set_growing false x)) (read_pre off cnt c) true with "[Hf] Hs HI"); rw ?length_leaves_of; [done|done|done| | | |..].
    - split_and!; [apply read_exist_spec; lia|intros i Hi; lia|done].
    - intros i l Hi Hlk. rw /trav_pad length_leaves_of. replace (_ <? _)%nat with false by (symmetry; apply Nat.ltb_ge; lia).
      rw andb_false_r. split; [done|]. rw /trav_isR. intros [[_ H1]%andb_prop H2%Nat.eqb_eq]%andb_prop. apply Nat.eqb_eq in H1. lia.
    - split; [done|]. intros. by rw length_replicate.
    - intros l E. destruct (last_leaf c) as (l' & E' & Hle & _). congruence.
    - rw /root_cost. replace (_ <? _)%nat with false by (symmetry; apply Nat.ltb_ge; lia). done. }
  rw trav_read; [|by rw length_leaves_of]. iIntros (nd) "(%d' & (-> & %Hd' & %Hm') & Hs & Hx)". rw length_leaves_of in Hm'.
  iApply (wp_set_ext with "Hx"). iIntros "Hx". wpb wp_get_ext "Hx". iApply wp_assert; [done|].
  cbn [blobIsGrowingFromThisTraversal set_root set_growing set_target]. iApply wp_ret.
  iExists _. iFrame "Hx". iSplit; [iPureIntro|iExists d'; by iFrame]. cbn [target set_root set_target].
  replace (Nat.min _ _ - off)%nat with cnt; [done|]. pose proof (cdiv_last (off + cnt) F HF ltac:(lia)). lia.
Qed.

Lemma blob_size_bound r t c : blob r t c ⊢ ⌜(length c ≤ C ^ D * F)%nat⌝.
Proof using Hl Hcap.
  iIntros "(%x & _ & _ & (%d & (_ & %Hd & _) & Hs))". iDestruct (leaves_bound with "Hs") as %[_ H]. iPureIntro.
  transitivity (C ^ d * F)%nat; [done|]. by apply Nat.mul_le_mono_r, fanout_pow_le.
Qed.

Lemma wp_tryReadBytes r t c off cnt buffer :
  Z.of_nat off < 2 ^ 63 → Z.of_nat cnt < 2 ^ 63 → (cnt ≤ length buffer)%nat →
  blob r t c ⊢
  wp (DataTree.tryReadBytes layout uninit std_log buffer (Z.of_nat off) (Z.of_nat cnt))
     (λ p, let k := Nat.min cnt (length c - off) in
           ⌜p = (Z.of_nat k, splice 0 (slice off k c) buffer)⌝ ∗ ∃ t', blob r t' c).
Proof using Hl Hcap Hlog.
  iIntros (Ho Hc Hbuf) "H". iDestruct (blob_size_bound with "H") as %Hsz. pose proof (size_bound _ Hsz) as Hs63.
  iDestruct "H" as (x) "(_ & Hx & Hr)". rw /DataTree.tryReadBytes /DataTree.with_target.
  iApply wp_bind. iApply (wp_set_ext with "Hx"). iIntros "Hx".
  iAssert (blob r buffer c) with "[Hx Hr]" as "H"; [iExists _; iFrame "Hx"; iSplit; [done|iExact "Hr"]|].
  iApply wp_bind. rw /DataTree._tryReadBytes. iApply wp_bind.
  iApply (wp_wand with "[H]"); [iApply (wp_numBytes with "H")|]. iIntros (v) "[-> H]".
  set (k := Nat.min cnt (length c - off)).
  assert (u64 (Z.max 0 (Z.min (i64 (Z.of_nat cnt)) (i64 (i64 (Z.of_nat (length c)) - i64 (Z.of_nat off))))) = Z.of_nat k) as ->.
  { rw !i64_small; [|lia..]. rw u64_small; rw /k; lia. }
  iApply wp_bind. iApply (wp_wand with "[H]"); [iApply (wp_doReadBytes with "H"); rw /k; lia|].
  iIntros ([]) "(%x' & %Ht & Hx & Hr)". iApply wp_ret. wpb wp_get_ext "Hx". iApply wp_ret. rw Ht. iSplit; [done|].
  iExists _, x'. by iFrame.
Qed.

Lemma wp_readAllBytes r t c ub :
  (∀ n, length (ub n) = n) →
  blob r t c ⊢ wp (DataTree.readAllBytes layout uninit std_log ub) (λ v, ⌜v = c⌝ ∗ ∃ t', blob r t' c).
Proof using Hl Hcap Hlog.
  iIntros (Hub) "H". iDestruct (blob_size_bound with "H") as %Hsz. pose proof (size_bound _ Hsz) as Hs63.
  rw /DataTree.readAllBytes /DataTree.with_target. iApply wp_bind.
  iApply (wp_wand with "[H]"); [iApply (wp_numBytes with "H")|]. iIntros (v) "[-> H]".
  iApply wp_bind. iApply wp_lift; [rw /Data.check_alloc decide_True //|]. rw Nat2Z.id.
  iDestruct "H" as (x) "(_ & Hx & Hr)". iApply wp_bind. iApply wp_bind. iApply (wp_set_ext with "Hx"). iIntros "Hx".
  iAssert (blob r (ub (length c)) c) with "[Hx Hr]" as "H"; [iExists _; iFrame "Hx"; iSplit; [done|iExact "Hr"]|].
  iApply wp_bind. iApply (wp_wand with "[H]"). { iApply (wp_doReadBytes _ _ _ 0 with "H"); [lia|by rw Hub]. }
  iIntros ([]) "(%x' & %Ht & Hx & Hr)". wpb wp_get_ext "Hx". iApply wp_ret. iApply wp_ret. cbn [snd].
  iSplit; [|iExists _, x'; by iFrame]. iPureIntro. rw Ht slice_all splice_all // Hub //.
Qed.

(** ** Resizing *)
Lemma wp_remove_children_loop fuel d id ch m :
  (1 ≤ m ≤ length ch)%nat → (length ch - m ≤ fuel)%nat →
  inner id (S d) ch ∗ ([∗ list] c ∈ drop m ch, ∃ l, subtree d c l) ⊢
  wp (DataTree.remove_children_loop layout fuel id (Z.of_nat m)) (λ _, inner id (S d) (take m ch)).
Proof using Hl.
  revert ch. induction fuel as [|fuel IH]; intros ch Hm Hf; iIntros "[Hi Hs]"; cbn [DataTree.remove_children_loop].
  - wpb (wp_numChildren layout Hl) "Hi". rw decide_False; [|lia]. iApply wp_ret. rw take_ge //. lia.
  - wpb (wp_numChildren layout Hl) "Hi". case_decide as Hlt; [|iApply wp_ret; rw take_ge //; lia].
    destruct (exists_last (l := ch)) as (ch' & cl & ->); [destruct ch; [simpl in Hm; lia|done]|].
    rw length_app /= in Hm Hf Hlt. rw drop_app_le; [|lia]. rw big_sepL_app. iDestruct "Hs" as "[Hs [(%l & Hc) _]]".
    wpb (wp_inner_Depth layout Hl) "Hi". iApply wp_bind.
    iApply (wp_readLastChild layout Hl with "Hi"); [by rw last_snoc|]. iIntros "Hi".
    iApply wp_bind. replace (Z.to_nat (Z.of_nat (S d) - 1)) with d by lia.
    iApply (wp_wand with "[Hc]"); [by iApply wp_removeSubtree|]. iIntros ([]) "_".
    iApply wp_bind. iApply (wp_removeLastChild layout Hl with "Hi"); [lia|]. iIntros "Hi".
    iApply (wp_wand with "[Hi Hs]"); [iApply (IH ch'); [lia|lia|by iFrame]|]. iIntros ([]) "Hi".
    rw take_app_le //. lia.
Qed.

Lemma resize_bt_spec N :
  (N ≤ C ^ D)%nat →
  bt_spec layout D true N (DataTree.resize_onBacktrack layout (Z.of_nat N) (u32 (DataNodeLayout.maxChildrenPerInnerNode layout))).
Proof using Hl Hcap.
  intros HN d id ch q e Hd He Hq HND Hm. iIntros "[Hi Hs]". rw /DataTree.resize_onBacktrack.
  pose proof (fanout_pow_pos layout Hl d) as Hw. pose proof (fanout_range layout Hl) as [HC2 HC16].
  pose proof (leafBytes_range layout Hl) as [_ HF32]. pose proof (cap_bound layout D Hcap _ HN) as HN31.
  pose proof (cap_bound layout D Hcap _ (fanout_pow_le layout D Hl d ltac:(lia))) as Hw31.
  wpb (wp_inner_Depth layout Hl) "Hi". replace (Z.to_nat (Z.of_nat (S d) - 1)) with d by lia.
  rw -(fanout_eq layout Hl) u32_nat; [|lia]. rw (fanout_eq layout Hl) (intPow_eq layout D Hl Hcap); [|lia].
  rw u32_nat; [|lia]. iApply wp_bind. iApply wp_lift; [by apply ceilDivision32_eq|].
  rw Nat.pow_succ_r' in He Hq.
  assert (cdiv N (C ^ d) = q * C + cdiv e (C ^ d))%nat as E1.
  { rw -Hq /cdiv. replace (q * (C * C ^ d) + e + C ^ d - 1)%nat with (e + C ^ d - 1 + (q * C) * C ^ d)%nat by lia.
    rw Nat.div_add; lia. }
  set (m := cdiv e (C ^ d)) in *.
  assert (1 ≤ m ≤ C)%nat as Hm1.
  { split; [apply cdiv_pos; lia|]. apply cdiv_le; lia. }
  assert (cdiv (q * C + m) C = S q) as E2 by (apply cdiv_unique; lia).
  assert (cdiv N (C ^ d) ≤ N)%nat as HmN.
  { apply cdiv_le; [done|]. transitivity (N * 1)%nat; [lia|]. apply Nat.mul_le_mono_l. lia. }
  rw -(fanout_eq layout Hl). iApply wp_bind. iApply wp_lift; [apply ceilDivision32_eq; lia|]. rw E1 E2.
  replace (u32 (Z.of_nat (S q) - 1)) with (Z.of_nat q) by (rw u32_small; lia).
  rw -Nat2Z.inj_mul u32_nat; [|lia]. rw u32_small; [|lia].
  replace (Z.of_nat (q * C + m) - Z.of_nat (q * C)) with (Z.of_nat m) by lia.
  wpb (wp_numChildren layout Hl) "Hi". iApply wp_assert; [apply bool_decide_true; lia|]. rw Nat2Z.id.
  iApply wp_remove_children_loop; [lia|lia|]. iFrame.
Qed.

Lemma num_leaves_bound n : (n ≤ C ^ D * F)%nat → (1 ≤ num_leaves F n ≤ C ^ D)%nat.
Proof using Hl.
  intros H. pose proof (cdiv_bound n H). pose proof (fanout_pow_pos layout Hl D). rw /num_leaves. lia.
Qed.

Lemma resize_exist_spec n x lo hi :
  exist_spec layout (resize_f F n) (λ _, ext_is x) (λ _ _ _, True) lo hi
    (DataTree.resize_onExistingLeaf layout (Z.of_nat (resize_lastSize F n))).
Proof using Hl.
  intros i isR id ld l Hi _. iIntros "[H $]". iDestruct (leaf_length with "H") as %Hll.
  destruct (resize_lastSize_le F F_pos n) as [Hle _].
  wpb (wp_handle_node layout Hl) "H". wpb (wp_leaf_numBytes layout Hl) "H". case_decide as Hne.
  - iApply (wp_leaf_resize layout Hl with "H"); [done|]. by iIntros.
  - iApply wp_ret. assert (length l = resize_lastSize F n) as E by lia.
    rw /resize_f /resized take_ge; [|lia]. by rw pad_ge; [|lia].
Qed.

Lemma wp_resizeNumBytes r t c n :
  (n ≤ C ^ D * F)%nat →
  fresh (root_cost D (num_leaves F (length c)) (num_leaves F n)) -∗ blob r t c -∗
  wp (DataTree.resizeNumBytes layout uninit std_log (Z.of_nat n)) (λ _, blob r t (resize_bytes c n)).
Proof using Hl Hcap Hlog.
  iIntros (Hn) "Hf (%x & %Ht & Hx & (%d & (%Hr & %Hd & %Hm & %Hk) & Hs))". rw /DataTree.resizeNumBytes.
  destruct (num_leaves_bound n Hn) as [HN1 HND]. pose proof (cap_bound layout D Hcap _ HND) as HN31.
  pose proof (size_bound n Hn) as Hn63. destruct (resize_lastSize_le F F_pos n) as [Hle Hsz].
  pose proof (leafBytes_range layout Hl) as [_ HF32].
  iApply wp_bind. iApply wp_lift; [by apply ceilDivision64_eq|].
  replace (Z.max 1 (Z.of_nat (cdiv n F))) with (Z.of_nat (num_leaves F n)) by (rw /num_leaves; lia).
  rw (u32_nat (num_leaves F n)); [|lia].
  replace (Z.of_nat (num_leaves F n) - 1) with (Z.of_nat (num_leaves F n - 1)) by lia. rw u32_nat; [|lia].
  rw -(leafBytes_eq layout Hl) -Nat2Z.inj_mul (u64_nat (_ * _)); [|lia].
  replace (Z.of_nat n - Z.of_nat ((num_leaves F n - 1) * F)) with (Z.of_nat (resize_lastSize F n)) by lia.
  rw u64_nat; [|lia]. rw u32_nat; [|lia]. rw Nat2Z.id.
  iApply wp_bind. rw /DataTree._traverseLeavesByLeafIndices decide_False; [|lia].
  wpb wp_get_ext "Hx". rw Hr. iApply wp_bind. iApply (wp_wand with "[Hf Hs Hx]").
  { iApply (wp_traverseAndUpdateRoot layout uninit std_log D Hl Hcap Hlog true (num_leaves F n) (resize_f F n) (resize_g F n)
      (λ _, ext_is x) (λ _ _ _, True) false with "[Hf] Hs Hx"); [done|lia|done|..].
    - split_and!; [apply resize_exist_spec| |].
      + intros i Hi. iIntros "Hx". iApply wp_ret. iFrame. iPureIntro. split; [done|]. rw length_replicate. lia.
      + intros _. split; [by apply resize_bt_spec|lia].
    - done.
    - split; intros; lia.
    - intros l E. destruct (last_leaf c) as (l' & E' & Hle' & _). congruence.
    - by rw length_leaves_of. }
  rw (resize_leaves F F_pos n). iIntros (nd) "(%d' & (-> & %Hd' & %Hm') & Hs & Hx)".
  rw length_leaves_of length_resize_bytes in Hm'.
  iApply (wp_set_ext with "Hx"). iIntros "Hx". iApply (wp_set_ext with "Hx"). iIntros "Hx".
  iExists _. iFrame "Hx". iSplit; [done|]. iExists d'. iFrame. iPureIntro.
  rw length_resize_bytes. split_and!; [done|done|done|]. rw /cache_ok /= length_resize_bytes //.
Qed.

Lemma wp_readBytes r t c off cnt buffer :
  (off + cnt ≤ length c)%nat → length buffer = cnt →
  blob r t c ⊢ wp (DataTree.readBytes layout uninit std_log buffer (Z.of_nat off) (Z.of_nat cnt)) (λ v, ⌜v = slice off cnt c⌝ ∗ ∃ t', blob r t' c).
Proof using Hl Hcap Hlog.
  iIntros (Hle Hbuf) "H". iDestruct (blob_size_bound with "H") as %Hsz. pose proof (size_bound _ Hsz) as Hs63. rw /DataTree.readBytes.
  iApply wp_bind. iApply (wp_wand with "[H]"); [iApply (wp_numBytes with "H")|]. iIntros (v) "[-> H]".
  rw u64_small; [|lia]. rw decide_False; [|lia]. iApply wp_bind.
  iApply (wp_wand with "[H]"); [iApply (wp_tryReadBytes with "H"); lia|]. iIntros (p) "[-> H]". cbn [fst snd].
  rw Nat.min_l; [|lia]. rw decide_False; [|by intros []]. iApply wp_ret. iFrame. iPureIntro. rw /splice take_0 /= drop_ge ?app_nil_r //.
  rw length_slice_min. lia.
Qed.

Lemma wp_numNodes r t c : blob r t c ⊢ wp (DataTree.numNodes layout) (λ _, blob r t c).
Proof using Hl Hcap.
  iIntros "H". iApply wp_bind. iApply (wp_wand with "[H]"); [by iApply wp_numLeaves|].
  iIntros (v) "[-> (%x & %Ht & Hx & (%d & (%Hr & %Hd & %Hm & %Hk) & Hs))]". wpb wp_get_ext "Hx". rw Hr.
  replace (node_id (node_of d r)) with r by by destruct d. wpb (wp_subtree_Depth layout Hl) "Hs".
  destruct (numNodes_loop_ok layout Hl (Z.to_nat (Z.of_nat d)) (Z.of_nat (num_leaves F (length c))) (Z.of_nat (num_leaves F (length c)))) as [z E].
  iApply wp_lift; [exact E|]. iExists x. iFrame "Hx". iSplit; [done|]. iExists d. by iFrame.
Qed.
End blob.

(** ** A new tree *)
Section new_tree.
Context {Σ : gFunctors} {X : Type} `{!nodeGS Σ X}.
Context (layout : DataNodeLayout.t) (uninit : byte) (Hl : layout_ok layout).

Lemma wp_createNewTree :
  fresh 1 ⊢ wp (DataTreeStore.createNewTree (X := X) layout uninit)
    (λ nd, ∃ r, ⌜nd = LeafNode r ∧ new_id r⌝ ∗ subtree layout 0 r (leaves_of (leafBytes layout) [])).
Proof using Hl.
  iIntros "Hf". iApply wp_bind. iApply (wp_createNewLeafNode layout uninit Hl with "Hf"); [simpl; lia|].
  iIntros (r Hv) "H". iApply wp_ret. iExists r. iSplit; [done|]. iExists []. iFrame. iPureIntro.
  pose proof (leafBytes_range layout Hl). rw /leaves_of /num_leaves /cdiv /=. rw Nat.div_small; [|lia]. by rw /= /slice drop_nil take_nil.
Qed.
End new_tree.
