(* ===== verification/Footprint.v ===== *)
(** * Assertions as sets of blocks

    The specifications of trees are assertions of the logic of NodeLogic.v.
    To keep a tree between two runs it has to be a fact about the blocks of
    the state: [rep Q] owns the blocks of some map that satisfies [Q], the
    connectives of the logic are operations on such predicates, and
    [subtree_rep] turns the assertion of a subtree into a predicate. *)
From iris.algebra Require Import auth numbers.
From iris.base_logic.lib Require Import own ghost_map ghost_var.
From iris.proofmode Require Import proofmode.
From S2P Require Import Prelude Serialization Nodes Tree NodeLogic NodeSpec TreeModel TreeSpec.
From Stdlib Require Import Lia ZArith.
Open Scope Z_scope.

Definition footprint : Type := gmap bytes bytes → Prop.
Implicit Types (P Q : footprint) (B : gmap bytes bytes).

Definition p_emp : footprint := λ B, B = ∅.
Definition p_sep P Q : footprint := λ B, ∃ B1 B2, B = B1 ∪ B2 ∧ B1 ##ₘ B2 ∧ P B1 ∧ Q B2.
Definition p_list (Qs : list footprint) : footprint := foldr p_sep p_emp Qs.
Definition p_block (id b : bytes) : footprint := λ B, B = {[ id := b ]}.

Lemma p_list_elem Qs Q B : p_list Qs B → Q ∈ Qs → ∃ B', B' ⊆ B ∧ Q B'.
Proof.
  revert B. induction Qs as [|P Qs IH]; intros B; [by intros _ ?%elem_of_nil|]. intros (B1 & B2 & -> & Hd & HP & HQs) [->|HQ]%elem_of_cons.
  - exists B1. split; [apply map_union_subseteq_l|done].
  - destruct (IH B2 HQs HQ) as (B' & HB' & H). exists B'. split; [|done]. transitivity B2; [done|]. by apply map_union_subseteq_r.
Qed.

Section rep.
Context {Σ : gFunctors} {X : Type} `{!nodeGS Σ X}.

Definition rep Q : iProp Σ := ∃ B, ⌜Q B⌝ ∗ own_blocks B.

Lemma own_blocks_disjoint B1 B2 : own_blocks B1 -∗ own_blocks B2 -∗ ⌜B1 ##ₘ B2⌝.
Proof.
  iIntros "H1 H2". rw map_disjoint_alt. iIntros (i). destruct (B1 !! i) as [b1|] eqn:E1; [|by iPureIntro; left].
  destruct (B2 !! i) as [b2|] eqn:E2; [|by iPureIntro; right].
  iDestruct (big_sepM_lookup with "H1") as "H1"; [done|]. iDestruct (big_sepM_lookup with "H2") as "H2"; [done|].
  by iDestruct (ghost_map_elem_ne with "H1 H2") as %?.
Qed.

Lemma rep_emp : rep p_emp ⊣⊢ True.
Proof. iSplit; [by iIntros "_"|]. iIntros "_". iExists ∅. iSplit; [done|]. by rw /own_blocks big_sepM_empty. Qed.
Lemma rep_sep P Q : rep (p_sep P Q) ⊣⊢ rep P ∗ rep Q.
Proof.
  iSplit.
  - iIntros "(%B & (%B1 & %B2 & -> & %Hd & %HP & %HQ) & H)". rw /own_blocks big_sepM_union //. iDestruct "H" as "[H1 H2]".
    iSplitL "H1"; iExists _; by iFrame.
  - iIntros "[(%B1 & %HP & H1) (%B2 & %HQ & H2)]". iDestruct (own_blocks_disjoint with "H1 H2") as %Hd.
    iExists (B1 ∪ B2). iSplit; [by iExists B1, B2|]. rw /own_blocks big_sepM_union //. by iFrame.
Qed.
Lemma rep_list (Qs : list footprint) : rep (p_list Qs) ⊣⊢ [∗ list] Q ∈ Qs, rep Q.
Proof. induction Qs as [|Q Qs IH]; [by rw rep_emp|]. by rw rep_sep IH. Qed.
Lemma rep_imap (f : nat → bytes → footprint) (l : list bytes) : rep (p_list (imap f l)) ⊣⊢ [∗ list] k ↦ c ∈ l, rep (f k c).
Proof.
  revert f. induction l as [|c l IH]; intros f; [by rw /= rep_emp|]. rw imap_cons. cbn [p_list foldr]. by rw rep_sep (IH (f ∘ S)) big_sepL_cons.
Qed.
Lemma rep_block id b : rep (p_block id b) ⊣⊢ id ↦ b.
Proof.
  iSplit.
  - iIntros "(%B & -> & H)". by rw /own_blocks big_sepM_singleton.
  - iIntros "H". iExists _. iSplit; [done|]. by rw /own_blocks big_sepM_singleton.
Qed.
Lemma rep_exist {A} (Q : A → footprint) : rep (λ B, (∃ a, Q a B)%type) ⊣⊢ ∃ a, rep (Q a).
Proof.
  iSplit; [iIntros "(%B & (%a & H) & HB)"; iExists a, B; by iFrame|]. iIntros "(%a & %B & H & HB)". iExists B. iFrame. by iExists a.
Qed.
Lemma rep_pure (φ : Prop) Q : rep (λ B, (φ ∧ Q B)%type) ⊣⊢ ⌜φ⌝ ∗ rep Q.
Proof.
  iSplit; [iIntros "(%B & [% %] & HB)"; iSplit; [done|]; iExists B; by iFrame|]. iIntros "(% & %B & % & HB)". iExists B. by iFrame.
Qed.

(** From a state and back. *)
Lemma rep_intro Q B m : Q B → B ⊆ m → own_blocks m ⊢ rep Q.
Proof. iIntros (HQ Hs) "H". iExists B. iSplit; [done|]. by iApply (big_sepM_subseteq with "H"). Qed.
Lemma rep_elim Q (s : store X) : state_interp s -∗ rep Q -∗ ⌜∃ B, B ⊆ blocks s ∧ Q B⌝.
Proof. iIntros "(Ha & _) (%B & %HQ & H)". iExists B. by iDestruct (ghost_map_lookup_big with "Ha H") as %?. Qed.
End rep.

(** ** Subtrees *)
Section subtrees.
Context (layout : DataNodeLayout.t).
Abbreviation C := (fanout layout).

Definition p_node_at (id : bytes) (d n : nat) (p : bytes) : footprint := λ B, ∃ u,
  ((d ≤ 10)%nat ∧ (n ≤ leafBytes layout)%nat ∧ (length p ≤ leafBytes layout)%nat) ∧
  p_block id (raw_block u (Z.of_nat d) (Z.of_nat n) (pad (leafBytes layout) p)) B.

Fixpoint p_subtree (d : nat) (id : bytes) (ls : list bytes) : footprint :=
  match d with
  | O => λ B, ∃ data, ls = [data] ∧ p_node_at id 0 (length data) data B
  | S d' => λ B, ∃ children,
      (((1 ≤ S d')%nat ∧ (1 ≤ length children ≤ C)%nat ∧ Forall BlockId.valid children) ∧
       (1 ≤ length ls)%nat ∧ length children = cdiv (length ls) (C ^ d')) ∧
      p_sep (p_node_at id (S d') (length children) (concat children))
            (p_list (imap (λ k c, p_subtree d' c (slice (k * C ^ d') (C ^ d') ls)) children)) B
  end.

Lemma p_subtree_root d id ls B : p_subtree d id ls B → id ∈ dom B.
Proof.
  destruct d as [|d]; cbn [p_subtree].
  - intros (data & _ & u & _ & ->). by apply elem_of_dom_2 with (x := raw_block u 0 (Z.of_nat (length data)) (pad (leafBytes layout) data)), lookup_singleton_eq.
  - intros (children & _ & B1 & B2 & -> & _ & (u & _ & ->) & _). rw dom_union_L dom_singleton_L. set_solver.
Qed.

Context {Σ : gFunctors} {X : Type} `{!nodeGS Σ X}.
Lemma node_at_rep id d n p : node_at layout id d n p ⊣⊢ rep (p_node_at id d n p).
Proof. rw /node_at rep_exist. f_equiv. intros u. by rw rep_pure rep_block comm. Qed.

Lemma subtree_rep d id ls : subtree layout d id ls ⊣⊢ rep (p_subtree d id ls).
Proof.
  revert id ls. induction d as [|d IH]; intros id ls; cbn [subtree p_subtree]; rw rep_exist; f_equiv; intros x; rw rep_pure.
  - by rw -node_at_rep.
  - rw rep_sep rep_imap -node_at_rep /inner.
    assert (([∗ list] k ↦ c ∈ x, subtree layout d c (slice (k * C ^ d) (C ^ d) ls)) ⊣⊢
            ([∗ list] k ↦ c ∈ x, rep (p_subtree d c (slice (k * C ^ d) (C ^ d) ls)))) as -> by (f_equiv; intros k c; apply IH).
    iSplit; [iIntros "([H %H1] & %H2 & Hs)"|iIntros "([%H1 %H2] & H & Hs)"]; by iFrame.
Qed.
End subtrees.

(** ** Adequacy with footprints *)
Lemma rep_adequacy {A X} (m : M (store X) A) (s : store X) Q B k (Post : A → X → footprint) :
  ids_ok s → B ⊆ blocks s → Q B → (k ≤ length (ids s))%nat →
  (∀ `{!nodeGS (nodeΣ X) X}, ⊢ rep Q -∗ ext_is (ext s) -∗ fresh k -∗ wp m (λ a, ∃ x, ext_is x ∗ rep (Post a x))) →
  ∃ a s', m s = (Ok a, s') ∧ ids_ok s' ∧ (length (ids s) - k ≤ length (ids s'))%nat ∧ ∃ B', B' ⊆ blocks s' ∧ Post a (ext s') B'.
Proof.
  intros Hids Hs HQ Hk Hwp.
  apply (wp_adequacy (nodeΣ X) m s (λ a s', ids_ok s' ∧ (length (ids s) - k ≤ length (ids s'))%nat ∧ ∃ B', B' ⊆ blocks s' ∧ Post a (ext s') B')); [done|].
  intros HG. iIntros "Hm Hx Hf". iDestruct (fresh_take _ k with "Hf") as "[Hf Hf']"; [done|].
  iDestruct (rep_intro Q B with "Hm") as "Hr"; [done..|]. iApply (wp_wand with "[Hr Hx Hf]"); [by iApply (Hwp HG with "Hr Hx Hf")|].
  iIntros (a) "(%x & Hx & Hr) %s' (Hb & He & Hi & %Hok)". iDestruct (ghost_var_agree with "He Hx") as %<-.
  iDestruct (own_valid_2 with "Hi Hf'") as %[Hle%nat_included _]%auth_both_valid_discrete.
  iDestruct (rep_elim with "[$Hb $He $Hi //] Hr") as %HB. iPureIntro. done.
Qed.
