(* ===== verification/Blob.v ===== *)
(** * Blobs on blocks behave as byte strings

    The contract of the blob store: a sequence of operations on a blob gives
    the results of the same operations on a plain byte string, never throws
    within the capacity, and leaves all other blocks alone. *)
From iris.base_logic.lib Require Import own ghost_map.
From iris.proofmode Require Import proofmode.
From S2P Require Import Prelude Serialization Nodes Tree NodeLogic NodeSpec TreeModel TreeSpec RootSpec BlobModel BlobSpec.
From Stdlib Require Import Lia ZArith.
Open Scope Z_scope.

(** ** Client operations *)
Inductive tree_op :=
| OpWrite (offset : nat) (source : bytes)
| OpResize (size : nat)
| OpTryRead (offset count : nat)
| OpReadAll
| OpNumBytes
| OpNumLeaves
| OpReload.

Inductive tree_res := TUnit | TNum (n : Z) | TBytes (b : bytes) | TRead (n : Z) (buffer : bytes).

Section run.
Context (layout : DataNodeLayout.t) (uninit : byte) (std_log : Z → Z).

(** [OpReload] drops the tree object and loads the tree again. *)
Definition run_tree_op (o : tree_op) : M (store tree) tree_res :=
  match o with
  | OpWrite offset source =>
      DataTree.writeBytes layout uninit std_log source (Z.of_nat offset) (Z.of_nat (length source)) ;; mret TUnit
  | OpResize size => DataTree.resizeNumBytes layout uninit std_log (Z.of_nat size) ;; mret TUnit
  | OpTryRead offset count =>
      r ← DataTree.tryReadBytes layout uninit std_log (replicate count x00) (Z.of_nat offset) (Z.of_nat count) ;
      mret (TRead r.1 r.2)
  | OpReadAll => b ← DataTree.readAllBytes layout uninit std_log (λ n, replicate n x00) ; mret (TBytes b)
  | OpNumBytes => n ← DataTree.numBytes layout ; mret (TNum n)
  | OpNumLeaves => n ← DataTree.numLeaves layout ; mret (TNum n)
  | OpReload =>
      x ← get_ext ;
      root ← DataTreeStore.load layout (node_id (_rootNode x)) ;
      match root with
      | None => mthrow (RuntimeError "tree not found")
      | Some root => set_ext (λ _, DataTree.new root) ;; mret TUnit
      end
  end.

Fixpoint run_tree_ops (os : list tree_op) : M (store tree) (list tree_res) :=
  match os with
  | [] => mret []
  | o :: os' => r ← run_tree_op o ; rs ← run_tree_ops os' ; mret (r :: rs)
  end.

(** Create a blob and run operations on it. *)
Definition run_new_tree (os : list tree_op) : M (store tree) (list tree_res) :=
  root ← DataTreeStore.createNewTree layout uninit ;
  set_ext (λ _, DataTree.new root) ;;
  run_tree_ops os.

(** The same operations on a byte string. *)
Definition bytes_op (o : tree_op) (c : bytes) : tree_res * bytes :=
  match o with
  | OpWrite offset source => (TUnit, write_bytes c offset source)
  | OpResize size => (TUnit, resize_bytes c size)
  | OpTryRead offset count =>
      let k := Nat.min count (length c - offset) in
      (TRead (Z.of_nat k) (slice offset k c ++ replicate (count - k) x00), c)
  | OpReadAll => (TBytes c, c)
  | OpNumBytes => (TNum (Z.of_nat (length c)), c)
  | OpNumLeaves => (TNum (Z.of_nat (num_leaves (leafBytes layout) (length c))), c)
  | OpReload => (TUnit, c)
  end.

Fixpoint bytes_ops (os : list tree_op) (c : bytes) : list tree_res :=
  match os with
  | [] => []
  | o :: os' => (bytes_op o c).1 :: bytes_ops os' (bytes_op o c).2
  end.

(** The operations stay within the capacity of a tree of depth [D]; offsets
    and counts of reads are below [2^63]. *)
Definition tree_op_ok (D : nat) (o : tree_op) : Prop :=
  match o with
  | OpWrite offset source => (offset + length source ≤ fanout layout ^ D * leafBytes layout)%nat
  | OpResize size => (size ≤ fanout layout ^ D * leafBytes layout)%nat
  | OpTryRead offset count => Z.of_nat offset < 2 ^ 63 ∧ Z.of_nat count < 2 ^ 63
  | _ => True
  end.

(** How many new block ids the operations may use up. *)
Definition tree_op_cost (D : nat) (o : tree_op) (c : bytes) : nat :=
  match o with
  | OpWrite offset source =>
      root_cost D (num_leaves (leafBytes layout) (length c)) (cdiv (offset + length source) (leafBytes layout))
  | OpResize size =>
      root_cost D (num_leaves (leafBytes layout) (length c)) (num_leaves (leafBytes layout) size)
  | _ => 0%nat
  end.
Fixpoint tree_ops_cost (D : nat) (os : list tree_op) (c : bytes) : nat :=
  match os with
  | [] => 0%nat
  | o :: os' => (tree_op_cost D o c + tree_ops_cost D os' (bytes_op o c).2)%nat
  end.
End run.

Section spec.
Context {Σ : gFunctors} `{!nodeGS Σ tree}.
Context (layout : DataNodeLayout.t) (uninit : byte) (std_log : Z → Z) (D : nat).
Context (Hl : layout_ok layout) (Hcap : capacity_ok layout D) (Hlog : ceilLog_ok layout D std_log).

Lemma wp_run_tree_op o r c :
  tree_op_ok layout D o →
  fresh (tree_op_cost layout D o c) -∗ (∃ t, blob layout D r t c) -∗
  wp (run_tree_op layout uninit std_log o)
     (λ res, ⌜res = (bytes_op layout o c).1⌝ ∗ ∃ t, blob layout D r t (bytes_op layout o c).2).
Proof using Hl Hcap Hlog.
  iIntros (Hok) "Hf (%t & Hb)". destruct o; cbn [run_tree_op bytes_op tree_op_cost fst snd].
  - iApply wp_bind. iApply (wp_wand with "[Hf Hb]"); [by iApply (wp_writeBytes with "Hf Hb")|].
    iIntros ([]) "Hb". iApply wp_ret. iSplit; [done|]. by iExists t.
  - iApply wp_bind. iApply (wp_wand with "[Hf Hb]"); [by iApply (wp_resizeNumBytes with "Hf Hb")|].
    iIntros ([]) "Hb". iApply wp_ret. iSplit; [done|]. by iExists t.
  - destruct Hok as [Ho Hc]. iApply wp_bind.
    iApply (wp_wand with "[Hb]"); [iApply (wp_tryReadBytes layout uninit std_log D Hl Hcap Hlog with "Hb"); [done|done|by rw length_replicate]|].
    iIntros (p) "[-> $]". iApply wp_ret. iPureIntro. cbn [fst snd]. f_equal.
    rw /splice take_0 /= drop_replicate length_slice_min. do 2 f_equal. lia.
  - iApply wp_bind. iApply (wp_wand with "[Hb]"); [iApply (wp_readAllBytes with "Hb"); [done..|]; intros; by rw length_replicate|].
    iIntros (v) "[-> $]". by iApply wp_ret.
  - iApply wp_bind. iApply (wp_wand with "[Hb]"); [by iApply (wp_numBytes with "Hb")|].
    iIntros (v) "[-> Hb]". iApply wp_ret. iSplit; [done|]. by iExists t.
  - iApply wp_bind. iApply (wp_wand with "[Hb]"); [by iApply (wp_numLeaves with "Hb")|].
    iIntros (v) "[-> Hb]". iApply wp_ret. iSplit; [done|]. by iExists t.
  - iDestruct "Hb" as (x) "(_ & Hx & (%d & (%Hr & %Hd & %Hm & _) & Hs))". wpb wp_get_ext "Hx". rw Hr.
    replace (node_id (node_of d r)) with r by by destruct d. rw /DataTreeStore.load.
    wpb (wp_load_subtree layout Hl) "Hs". iApply wp_bind. iApply (wp_set_ext with "Hx"). iIntros "Hx". iApply wp_ret.
    iSplit; [done|]. iExists [], (DataTree.new (node_of d r)). iFrame "Hx". iSplit; [done|]. iExists d. by iFrame.
Qed.

Lemma wp_run_tree_ops os r c :
  Forall (tree_op_ok layout D) os →
  fresh (tree_ops_cost layout D os c) -∗ (∃ t, blob layout D r t c) -∗
  wp (run_tree_ops layout uninit std_log os) (λ res, ⌜res = bytes_ops layout os c⌝).
Proof using Hl Hcap Hlog.
  intros Hok. induction Hok as [|o os Ho Hos IH] in c |- *; iIntros "Hf Hb"; cbn [run_tree_ops bytes_ops tree_ops_cost].
  - by iApply wp_ret.
  - rw fresh_split. iDestruct "Hf" as "[Hf Hf']". iApply wp_bind. iApply (wp_wand with "[Hf Hb]").
    { by iApply (wp_run_tree_op with "Hf Hb"). }
    iIntros (res) "[-> Hb]". iApply wp_bind. iApply (wp_wand with "[Hf' Hb]"); [by iApply (IH with "Hf' Hb")|].
    iIntros (rs ->). by iApply wp_ret.
Qed.

Lemma wp_run_new_tree os m x n :
  Forall (tree_op_ok layout D) os → (1 + tree_ops_cost layout D os [] ≤ n)%nat →
  own_blocks m -∗ ext_is x -∗ fresh n -∗
  wp (run_new_tree layout uninit std_log os)
     (λ res, ∀ s', state_interp s' -∗
        ⌜res = bytes_ops layout os [] ∧ ∀ id b, m !! id = Some b → blocks s' !! id = Some b⌝).
Proof using Hl Hcap Hlog.
  iIntros (Hok Hn) "Hm Hx Hf". rw (fresh_mono n (1 + tree_ops_cost layout D os [])) // fresh_split.
  iDestruct "Hf" as "[H1 Hf]". iApply (wp_wand _ (λ res, ⌜res = bytes_ops layout os []⌝)%I with "[H1 Hf Hx]").
  - iApply wp_bind. iApply (wp_wand with "[H1]"); [by iApply (wp_createNewTree with "H1")|].
    iIntros (nd) "(%r & [-> _] & Hs)". iApply wp_bind. iApply (wp_set_ext with "Hx"). iIntros "Hx".
    iApply (wp_run_tree_ops with "Hf"); [done..|]. iExists [], (DataTree.new (LeafNode r)). iFrame "Hx". iSplit; [done|].
    iExists 0%nat. iFrame. iPureIntro. split_and!; [done|lia|by left|done].
  - iIntros (res ->) "%s' (Ha & _)". iDestruct (ghost_map_lookup_big with "Ha Hm") as %Hsub. iPureIntro.
    split; [done|]. intros id b Hid. by apply (lookup_weaken m).
Qed.
End spec.

(** C3. The blob store refines byte strings. For every layout and depth
    bound that fit the code's 32-bit arithmetic, every sequence of writes
    (also behind the end), resizes (growing and shrinking), reads, size
    queries and reloads of a newly created blob that stays within the
    capacity runs without throwing, returns exactly what the same operations
    return on a plain byte string (a write behind the end and a growing
    resize fill the gap with zeroes), and leaves every block that existed
    before unchanged. The traversal compares the depth with a quotient of
    floating point logarithms in an assertion. [log_ok] is what is assumed of
    [std::log]; the capacity must be such that the rounded logarithms of the
    powers of the fan-out fit ([powers_fit], which fails with the usual library
    at 5^3 and at 1021^3: there the assertion fails, [full_subtree_throws]).
    [ids_ok] says that the ids drawn at random are distinct, not null and not
    in use. *)
Theorem blob_refines_bytes (layout : DataNodeLayout.t) (uninit : byte) (std_log : Z → Z) (D : nat)
    (os : list tree_op) (s : store tree) :
  layout_ok layout → capacity_ok layout D → log_ok std_log → powers_fit layout D std_log →
  ids_ok s → (1 + tree_ops_cost layout D os [] ≤ length (ids s))%nat → Forall (tree_op_ok layout D) os →
  ∃ s', run_new_tree layout uninit std_log os s = (Ok (bytes_ops layout os []), s') ∧
        ∀ id b, blocks s !! id = Some b → blocks s' !! id = Some b.
Proof.
  intros Hl Hcap Hlog0 Hfit Hids Hcost Hok. pose proof (powers_fit_ok layout D std_log Hl Hcap Hlog0 Hfit) as Hlog.
  destruct (wp_adequacy (nodeΣ tree) (run_new_tree layout uninit std_log os) s
    (λ res s', res = bytes_ops layout os [] ∧ ∀ id b, blocks s !! id = Some b → blocks s' !! id = Some b))
    as (res & s' & E & -> & Hb); [done| |by exists s'].
  intros HG. iIntros "Hm Hx Hf". by iApply (wp_run_new_tree with "Hm Hx Hf").
Qed.

(** A layout with leaves of 32 bytes and two children per inner node, an
    exact logarithm, and a store with one other block. *)
Definition small_layout : DataNodeLayout.t := DataNodeLayout.mk 40.
Definition small_log (v : Z) : Z := Z.log2_up v * 2 ^ 53.
Definition small_ids : list bytes := (λ n, replicate 15 x00 ++ [byte_of (Z.of_nat n)]) <$> seq 1 30.
Definition small_store : store tree :=
  mkStore {[ replicate 16 x00 := [x01; x02] ]} small_ids (DataTree.new (LeafNode [])).
Definition small_ops : list tree_op :=
  [OpWrite 60 (replicate 90 x2a); OpNumBytes; OpNumLeaves; OpTryRead 50 20; OpReload; OpResize 33; OpReadAll].

Lemma small_log_ok : log_ok small_log.
Proof.
  split; rw /small_log; [done| |].
  - intros v Hv. assert (0 < Z.log2_up v) by (apply Z.log2_up_pos; lia). lia.
  - intros v w Hv _. assert (Z.log2_up v ≤ Z.log2_up w) by (apply Z.log2_up_le_mono; lia). lia.
Qed.
Lemma small_powers_fit : powers_fit small_layout 3 small_log.
Proof. intros d Hd. assert (d = 2 ∨ d = 3)%nat as [->| ->] by lia; by vm_compute. Qed.

Lemma blob_refines_bytes_witness :
  ∃ s', run_new_tree small_layout x00 small_log small_ops small_store
          = (Ok (bytes_ops small_layout small_ops []), s') ∧
        ∀ id b, blocks small_store !! id = Some b → blocks s' !! id = Some b.
Proof.
  apply (blob_refines_bytes small_layout x00 small_log 3 small_ops small_store).
  - split; vm_compute; done.
  - split; [lia|vm_compute; done].
  - apply small_log_ok.
  - apply small_powers_fit.
  - split_and!; [by apply (bool_decide_unpack _); vm_compute|by apply (bool_decide_unpack _); vm_compute|].
    by apply Forall_forall, (bool_decide_unpack _); vm_compute.
  - apply Nat.leb_le. by vm_compute.
  - repeat constructor; vm_compute; done.
Defined.
