(* ===== verification/DirEntry.v ===== *)
(** * Directory entries (fspp/fs_interface/Types.h, Context.h; fsblobstore/utils/DirEntry)

    File modes, time stamps and the policies that update them, and one entry
    of a directory with its constructor, setters and byte format. Reading an
    entry walks a raw pointer: an access behind the end of the buffer is
    [UndefinedBehaviour]. *)
From S2P Require Import Prelude Serialization.
From Stdlib Require Import Lia ZArith.

(** ** fspp::mode_t *)
Module mode_t.
Definition S_IFMT_ : Z := 0xF000.
Definition S_IFDIR_ : Z := 0x4000.
Definition S_IFREG_ : Z := 0x8000.
Definition S_IFLNK_ : Z := 0xA000.
Definition S_ISREG_ (mode : Z) : bool := bool_decide (Z.land mode S_IFMT_ = S_IFREG_).
Definition S_ISDIR_ (mode : Z) : bool := bool_decide (Z.land mode S_IFMT_ = S_IFDIR_).
Definition S_ISLNK_ (mode : Z) : bool := bool_decide (Z.land mode S_IFMT_ = S_IFLNK_).
Definition addFileFlag (mode : Z) : Z := Z.lor mode S_IFREG_.
Definition addDirFlag (mode : Z) : Z := Z.lor mode S_IFDIR_.
Definition addSymlinkFlag (mode : Z) : Z := Z.lor mode S_IFLNK_.
Definition addUserReadFlag (mode : Z) : Z := Z.lor mode 0x100.
Definition addUserWriteFlag (mode : Z) : Z := Z.lor mode 0x80.
Definition addUserExecFlag (mode : Z) : Z := Z.lor mode 0x40.
Definition addGroupReadFlag (mode : Z) : Z := Z.lor mode 0x20.
Definition addGroupWriteFlag (mode : Z) : Z := Z.lor mode 0x10.
Definition addGroupExecFlag (mode : Z) : Z := Z.lor mode 0x8.
Definition addOtherReadFlag (mode : Z) : Z := Z.lor mode 0x4.
Definition addOtherWriteFlag (mode : Z) : Z := Z.lor mode 0x2.
Definition addOtherExecFlag (mode : Z) : Z := Z.lor mode 0x1.
Definition hasFileFlag (mode : Z) : bool := S_ISREG_ mode.
Definition hasDirFlag (mode : Z) : bool := S_ISDIR_ mode.
Definition hasSymlinkFlag (mode : Z) : bool := S_ISLNK_ mode.
End mode_t.

(** ** Time stamps *)
Record timespec := mkTime { tv_sec : Z; tv_nsec : Z }.
#[export] Instance timespec_eq_dec : EqDecision timespec.
Proof. solve_decision. Defined.

(** [operator<] on [timespec]. *)
Definition time_lt (lhs rhs : timespec) : bool :=
  bool_decide (tv_sec lhs < tv_sec rhs) ||
  bool_decide (tv_sec lhs = tv_sec rhs) && bool_decide (tv_nsec lhs < tv_nsec rhs).

(** The abstract class [TimestampUpdateBehaviorBase] and its five
    implementations; the arguments are the old access time, the old
    modification time and the new access time. *)
Record TimestampUpdateBehavior := mkBehavior {
  shouldUpdateATimeOnFileRead : timespec → timespec → timespec → bool;
  shouldUpdateATimeOnDirectoryRead : timespec → timespec → timespec → bool }.

Definition noatime : TimestampUpdateBehavior := mkBehavior (λ _ _ _, false) (λ _ _ _, false).
Definition strictatime : TimestampUpdateBehavior := mkBehavior (λ _ _ _, true) (λ _ _ _, true).
Definition relatime : TimestampUpdateBehavior :=
  let onFileRead oldATime oldMTime newATime :=
    let yesterday := mkTime (tv_sec newATime - 60 * 60 * 24) (tv_nsec newATime) in
    time_lt oldATime oldMTime || time_lt oldATime yesterday in
  mkBehavior onFileRead onFileRead.
Definition nodiratime_relatime : TimestampUpdateBehavior :=
  mkBehavior (shouldUpdateATimeOnFileRead relatime) (λ _ _ _, false).
Definition nodiratime_strictatime : TimestampUpdateBehavior :=
  mkBehavior (shouldUpdateATimeOnFileRead strictatime) (λ _ _ _, false).

(** ** fspp::Dir::EntryType *)
Inductive EntryType := DIR | FILE | SYMLINK.
#[export] Instance EntryType_eq_dec : EqDecision EntryType.
Proof. solve_decision. Defined.
Definition EntryType_value (t : EntryType) : Z := match t with DIR => 0 | FILE => 1 | SYMLINK => 2 end.
(** [static_cast<EntryType>(uint8_t)]: any other value is no enumerator. *)
Definition EntryType_cast (v : Z) : option EntryType :=
  if decide (v = 0) then Some DIR else if decide (v = 1) then Some FILE else if decide (v = 2) then Some SYMLINK else None.

(** ** DirEntry *)
Module DirEntry.
Record t := mk {
  _type : EntryType;
  _name : bytes;
  _blockId : bytes;
  _mode : Z;
  _uid : Z;
  _gid : Z;
  _lastAccessTime : timespec;
  _lastModificationTime : timespec;
  _lastMetadataChangeTime : timespec }.
#[export] Instance t_eq_dec : EqDecision t.
Proof. solve_decision. Defined.

(** The constructor adds the flag of the entry's type to the mode and
    asserts that the result is a mode of that type. A type that is no
    enumerator fails the assertion. *)
Definition new (type : option EntryType) (name blockId : bytes) (mode uid gid : Z)
    (lastAccessTime lastModificationTime lastMetadataChangeTime : timespec) : result t :=
  match type with
  | None => mthrow (AssertFailed "Unknown mode in entry")
  | Some ty =>
      let mode' := match ty with
                   | FILE => mode_t.addFileFlag mode
                   | DIR => mode_t.addDirFlag mode
                   | SYMLINK => mode_t.addSymlinkFlag mode
                   end in
      ASSERT (mode_t.hasFileFlag mode' && bool_decide (ty = FILE) ||
              mode_t.hasDirFlag mode' && bool_decide (ty = DIR) ||
              mode_t.hasSymlinkFlag mode' && bool_decide (ty = SYMLINK)) "Unknown mode in entry" ;;
      mret (mk ty name blockId mode' uid gid lastAccessTime lastModificationTime lastMetadataChangeTime)
  end.

(** The setters; [now] is the reading of the clock in
    [_updateLastMetadataChangeTime]. *)
Definition setName (value : bytes) (now : timespec) (e : t) : t :=
  mk (_type e) value (_blockId e) (_mode e) (_uid e) (_gid e) (_lastAccessTime e) (_lastModificationTime e) now.
Definition setMode (value : Z) (now : timespec) (e : t) : t :=
  mk (_type e) (_name e) (_blockId e) value (_uid e) (_gid e) (_lastAccessTime e) (_lastModificationTime e) now.
Definition setUid (value : Z) (now : timespec) (e : t) : t :=
  mk (_type e) (_name e) (_blockId e) (_mode e) value (_gid e) (_lastAccessTime e) (_lastModificationTime e) now.
Definition setGid (value : Z) (now : timespec) (e : t) : t :=
  mk (_type e) (_name e) (_blockId e) (_mode e) (_uid e) value (_lastAccessTime e) (_lastModificationTime e) now.
Definition setLastAccessTime (value : timespec) (e : t) : t :=
  mk (_type e) (_name e) (_blockId e) (_mode e) (_uid e) (_gid e) value (_lastModificationTime e) (_lastMetadataChangeTime e).
Definition setLastModificationTime (value now : timespec) (e : t) : t :=
  mk (_type e) (_name e) (_blockId e) (_mode e) (_uid e) (_gid e) (_lastAccessTime e) value now.

(** *** The byte format (DirEntry.cpp) *)
Definition serializeTimeValue_ (value : timespec) : bytes :=
  serialize 8 (tv_sec value) ++ serialize 4 (tv_nsec value).
Definition serializeString_ (value : bytes) : bytes := value ++ [x00].
Definition serializedTimeValueSize_ : nat := 12.
Definition serializedSize (e : t) : nat :=
  1 + 4 + 4 + 4 + 3 * serializedTimeValueSize_ + (length (_name e) + 1) + BlockId.BINARY_LENGTH.

(** [serialize(dest)]: the bytes it writes from [dest] on. *)
Definition serialize (e : t) : result bytes :=
  ASSERT (bool_decide (_type e = FILE) && mode_t.hasFileFlag (_mode e) && negb (mode_t.hasDirFlag (_mode e)) && negb (mode_t.hasSymlinkFlag (_mode e)) ||
          bool_decide (_type e = DIR) && negb (mode_t.hasFileFlag (_mode e)) && mode_t.hasDirFlag (_mode e) && negb (mode_t.hasSymlinkFlag (_mode e)) ||
          bool_decide (_type e = SYMLINK) && negb (mode_t.hasFileFlag (_mode e)) && negb (mode_t.hasDirFlag (_mode e)) && mode_t.hasSymlinkFlag (_mode e))
         "Wrong mode bit set for this type" ;;
  let written := Serialization.serialize 1 (EntryType_value (_type e)) ++ Serialization.serialize 4 (_mode e) ++
                 Serialization.serialize 4 (_uid e) ++ Serialization.serialize 4 (_gid e) ++
                 serializeTimeValue_ (_lastAccessTime e) ++ serializeTimeValue_ (_lastModificationTime e) ++
                 serializeTimeValue_ (_lastMetadataChangeTime e) ++ serializeString_ (_name e) ++ _blockId e in
  ASSERT (bool_decide (length written = serializedSize e)) "Didn't write correct number of elements" ;;
  mret written.

(** Reading: a computation on the bytes from the read pointer to the end of
    the buffer. *)
Definition deserialize_ (n : nat) : M bytes Z :=
  src ← get_state ;
  v ← lift (Serialization.deserialize n src) ;
  put_state (drop n src) ;;
  mret v.
Definition deserializeTimeValue_ : M bytes timespec :=
  sec ← deserialize_ 8 ;
  nsec ← deserialize_ 4 ;
  mret (mkTime (i64 sec) nsec).
(** [strlen] does not stop at the end of the buffer. *)
Fixpoint strlen (src : bytes) : result nat :=
  match src with
  | [] => mthrow UndefinedBehaviour
  | b :: src' => if decide (b = x00) then mret 0%nat else n ← strlen src' ; mret (S n)
  end.
Definition deserializeString_ : M bytes bytes :=
  src ← get_state ;
  n ← lift (strlen src) ;
  put_state (drop (n + 1) src) ;;
  mret (take n src).
Definition deserializeBlockId_ : M bytes bytes :=
  src ← get_state ;
  id ← lift (BlockId.FromBinary src) ;
  put_state (drop BlockId.BINARY_LENGTH src) ;;
  mret id.
Definition deserializeAndAddToVector : M bytes t :=
  type ← deserialize_ 1 ;
  mode ← deserialize_ 4 ;
  uid ← deserialize_ 4 ;
  gid ← deserialize_ 4 ;
  lastAccessTime ← deserializeTimeValue_ ;
  lastModificationTime ← deserializeTimeValue_ ;
  lastMetadataChangeTime ← deserializeTimeValue_ ;
  name ← deserializeString_ ;
  blockId ← deserializeBlockId_ ;
  lift (new (EntryType_cast type) name blockId mode uid gid lastAccessTime lastModificationTime lastMetadataChangeTime).

(** *** Well-formed entries and the round trip *)

(** The mode carries the flag of the type and no other type bits. *)
Definition mode_ok (ty : EntryType) (mode : Z) : Prop :=
  Z.land mode mode_t.S_IFMT_ = match ty with FILE => mode_t.S_IFREG_ | DIR => mode_t.S_IFDIR_ | SYMLINK => mode_t.S_IFLNK_ end.
#[export] Instance mode_ok_dec ty mode : Decision (mode_ok ty mode).
Proof. unfold mode_ok. apply _. Defined.

Definition time_ok (v : timespec) : Prop := -(2 ^ 63) ≤ tv_sec v < 2 ^ 63 ∧ 0 ≤ tv_nsec v < 2 ^ 32.

(** The fields hold values of their C++ types; names hold no null byte. *)
Definition wf (e : t) : Prop :=
  (mode_ok (_type e) (_mode e)) ∧ 0 ≤ _mode e < 2 ^ 32 ∧ 0 ≤ _uid e < 2 ^ 32 ∧ 0 ≤ _gid e < 2 ^ 32 ∧
  time_ok (_lastAccessTime e) ∧ time_ok (_lastModificationTime e) ∧ time_ok (_lastMetadataChangeTime e) ∧
  (x00 ∉ _name e) ∧ BlockId.valid (_blockId e).

Definition entry_bytes (e : t) : bytes :=
  Serialization.serialize 1 (EntryType_value (_type e)) ++ Serialization.serialize 4 (_mode e) ++
  Serialization.serialize 4 (_uid e) ++ Serialization.serialize 4 (_gid e) ++
  serializeTimeValue_ (_lastAccessTime e) ++ serializeTimeValue_ (_lastModificationTime e) ++
  serializeTimeValue_ (_lastMetadataChangeTime e) ++ serializeString_ (_name e) ++ _blockId e.

#[global] Arguments entry_bytes : simpl never.
#[global] Arguments serializedSize : simpl never.

Lemma flags_ok ty mode : mode_ok ty mode →
  mode_t.hasFileFlag mode = bool_decide (ty = FILE) ∧ mode_t.hasDirFlag mode = bool_decide (ty = DIR) ∧
  mode_t.hasSymlinkFlag mode = bool_decide (ty = SYMLINK).
Proof.
  unfold mode_ok, mode_t.hasFileFlag, mode_t.hasDirFlag, mode_t.hasSymlinkFlag, mode_t.S_ISREG_, mode_t.S_ISDIR_, mode_t.S_ISLNK_.
  intros ->. by destruct ty.
Qed.

Lemma lor_type_flag mode flag :
  Z.land mode mode_t.S_IFMT_ = flag → Z.lor mode flag = mode.
Proof.
  intros <-. apply Z.bits_inj'. intros i Hi. rewrite Z.lor_spec, Z.land_spec. by destruct (Z.testbit mode i).
Qed.

Lemma entry_new_ok ty name id mode uid gid a m c : mode_ok ty mode →
  new (Some ty) name id mode uid gid a m c = Ok (mk ty name id mode uid gid a m c).
Proof.
  intros H. unfold new.
  assert (match ty with FILE => mode_t.addFileFlag mode | DIR => mode_t.addDirFlag mode | SYMLINK => mode_t.addSymlinkFlag mode end = mode) as ->
    by (destruct ty; by apply lor_type_flag).
  destruct (flags_ok _ _ H) as (-> & -> & ->). by destruct ty.
Qed.

Lemma length_entry_bytes e : BlockId.valid (_blockId e) → length (entry_bytes e) = serializedSize e.
Proof.
  intros H. unfold entry_bytes, serializeTimeValue_, serializeString_, serializedSize, serializedTimeValueSize_.
  rewrite !length_app, !length_serialize, H. simpl. lia.
Qed.

Lemma serialize_ok e : mode_ok (_type e) (_mode e) → BlockId.valid (_blockId e) → serialize e = Ok (entry_bytes e).
Proof.
  intros H Hv. unfold serialize. fold (entry_bytes e). destruct (flags_ok _ _ H) as (-> & -> & ->).
  rewrite (bool_decide_true (length (entry_bytes e) = _)) by by apply length_entry_bytes. by destruct (_type e).
Qed.

Lemma deserialize__app n z rest : 0 ≤ z < 256 ^ Z.of_nat n →
  deserialize_ n (Serialization.serialize n z ++ rest) = (Ok z, rest).
Proof.
  intros H. unfold deserialize_, Serialization.deserialize, get_state, put_state, lift, mbind, M_bind. csimp.
  rewrite decide_True by (rewrite length_app, length_serialize; lia).
  rewrite take_app_length', drop_app_length' by by rewrite length_serialize.
  by rewrite le_value_serialize, Z.mod_small.
Qed.

Lemma serialize_mod n z : Serialization.serialize n (z mod 256 ^ Z.of_nat n) = Serialization.serialize n z.
Proof.
  rewrite <- le_value_serialize. pose proof (length_serialize n z) as H. rewrite <- H at 1. by apply serialize_le_value.
Qed.

Lemma i64_u64 z : -(2 ^ 63) ≤ z < 2 ^ 63 → i64 (u64 z) = z.
Proof.
  intros H. unfold i64, u64. rewrite Zplus_mod_idemp_l. rewrite Z.mod_small; lia.
Qed.

Lemma deserializeTimeValue__app v rest : time_ok v →
  deserializeTimeValue_ (serializeTimeValue_ v ++ rest) = (Ok v, rest).
Proof.
  intros [H1 H2]. unfold deserializeTimeValue_, serializeTimeValue_. rewrite <- app_assoc.
  replace (Serialization.serialize 8 (tv_sec v)) with (Serialization.serialize 8 (u64 (tv_sec v)))
    by apply (serialize_mod 8).
  rewrite (bind_ok _ _ _ _ _ (deserialize__app 8 _ _ (u64_range (tv_sec v)))).
  rewrite (bind_ok _ _ _ _ _ (deserialize__app 4 _ _ H2)). unfold mret, M_ret. do 2 f_equal.
  destruct v as [sec nsec]. simpl in *. f_equal. by apply i64_u64.
Qed.

Lemma strlen_app name rest : x00 ∉ name → strlen (name ++ x00 :: rest) = Ok (length name).
Proof.
  induction name as [|b name IH]; intros H; simpl; [done|].
  apply not_elem_of_cons in H as [Hb H]. rewrite decide_False by done. by rewrite IH.
Qed.

Lemma deserializeString__app name rest : x00 ∉ name →
  deserializeString_ (serializeString_ name ++ rest) = (Ok name, rest).
Proof.
  intros H. unfold deserializeString_, serializeString_. rewrite <- app_assoc. simpl.
  unfold get_state, put_state, lift, mbind, M_bind. rewrite strlen_app by done. csimp.
  rewrite take_app_length. unfold mret, M_ret. f_equal.
  change (x00 :: rest) with ([x00] ++ rest). rewrite app_assoc. apply drop_app_length'. by rewrite length_app.
Qed.

Lemma deserializeBlockId__app id rest : BlockId.valid id → deserializeBlockId_ (id ++ rest) = (Ok id, rest).
Proof.
  intros H. unfold deserializeBlockId_, get_state, put_state, lift, mbind, M_bind.
  rewrite BlockId.FromBinary_app by done. unfold mret, M_ret. f_equal. by apply drop_app_length'.
Qed.

Lemma deserialize_entry e rest : wf e → deserializeAndAddToVector (entry_bytes e ++ rest) = (Ok e, rest).
Proof.
  intros (Hty & Hm & Hu & Hg & Ha & Hmo & Hc & Hn & Hid). unfold deserializeAndAddToVector, entry_bytes.
  rewrite <- !app_assoc.
  rewrite (bind_ok _ _ _ _ _ (deserialize__app 1 (EntryType_value (_type e)) _ ltac:(by destruct (_type e)))).
  rewrite (bind_ok _ _ _ _ _ (deserialize__app 4 _ _ Hm)), (bind_ok _ _ _ _ _ (deserialize__app 4 _ _ Hu)),
    (bind_ok _ _ _ _ _ (deserialize__app 4 _ _ Hg)).
  rewrite (bind_ok _ _ _ _ _ (deserializeTimeValue__app _ _ Ha)), (bind_ok _ _ _ _ _ (deserializeTimeValue__app _ _ Hmo)),
    (bind_ok _ _ _ _ _ (deserializeTimeValue__app _ _ Hc)).
  rewrite (bind_ok _ _ _ _ _ (deserializeString__app _ _ Hn)), (bind_ok _ _ _ _ _ (deserializeBlockId__app _ _ Hid)).
  assert (EntryType_cast (EntryType_value (_type e)) = Some (_type e)) as -> by by destruct (_type e).
  unfold lift. rewrite entry_new_ok by done. by destruct e.
Qed.
End DirEntry.
