(* ===== verification/DirEntryList.v ===== *)
(** * The entries of a directory (fsblobstore/utils/DirEntryList)

    A vector of entries ordered by block id. The operations are computations
    on any state that has such a vector (in the file system: the directory
    object a reference points to), because the callbacks [onOverwritten] act
    on the rest of that state. Iterators are indices, [end()] is the length.
    [now] is the reading of the system clock. [startpos] is the position at
    which the hinted search starts: the code scales the first byte of the id
    to the size of the vector in floating point. *)
From S2P Require Import Prelude Serialization DirEntry.
From Stdlib Require Import Lia ZArith Sorted.

Module DirEntryList.
Import DirEntry.

(** ** Searching *)
Fixpoint find_if (pred : DirEntry.t → bool) (l : list DirEntry.t) : nat :=
  match l with
  | [] => 0
  | e :: l' => if pred e then 0 else S (find_if pred l')
  end.

Definition _findByName (name : bytes) (l : list DirEntry.t) : nat :=
  find_if (λ e, bool_decide (_name e = name)) l.

(** [while (iter != begin() && pred( *iter)) --iter;] *)
Fixpoint search_back (pred : DirEntry.t → bool) (l : list DirEntry.t) (iter : nat) : nat :=
  match iter with
  | O => O
  | S iter' => match l !! iter with
               | Some e => if pred e then search_back pred l iter' else iter
               | None => iter
               end
  end.
(** [while (iter != end() && !pred( *iter)) ++iter;] *)
Definition search_forward (pred : DirEntry.t → bool) (l : list DirEntry.t) (iter : nat) : nat :=
  iter + find_if pred (drop iter l).

Section search.
Context (startpos : Z → nat → nat).

Definition _findFirst (hint : bytes) (pred : DirEntry.t → bool) (l : list DirEntry.t) : result nat :=
  if decide (length l = 0%nat) then mret (length l)
  else
    let iter := startpos (byte_val (default x00 (head hint))) (length l) in
    ASSERT (bool_decide (iter < length l)%nat) "Startpos out of range" ;;
    mret (search_forward pred l (search_back pred l iter)).

Definition _findLowerBound (blockId : bytes) (l : list DirEntry.t) : result nat :=
  _findFirst blockId (λ e, negb (BlockId.less (_blockId e) blockId)) l.
Definition _findUpperBound (blockId : bytes) (l : list DirEntry.t) : result nat :=
  _findFirst blockId (λ e, BlockId.less blockId (_blockId e)) l.

(** The index of the entry, or the length ([end()]) when there is none. *)
Definition _findById (blockId : bytes) (l : list DirEntry.t) : result nat :=
  found ← _findLowerBound blockId l ;
  match l !! found with
  | Some e => if decide (_blockId e ≠ blockId) then mret (length l) else mret found
  | None => mret (length l)
  end.

(** ** Serialization *)
Definition _serializedSize (l : list DirEntry.t) : Z :=
  foldl (λ size e, u64 (size + Z.of_nat (serializedSize e))) 0 l.

(** The loop of [serialize]; [prev] is the entry before [iter]. *)
Fixpoint serialize_loop (prev : option DirEntry.t) (l : list DirEntry.t) (offset : Z) (serialized : bytes) : result bytes :=
  match l with
  | [] => mret serialized
  | e :: l' =>
      ASSERT (match prev with None => true | Some p => BlockId.less (_blockId p) (_blockId e) end)
        "Invariant hurt: Directory entries should be ordered by blockId and not have duplicate blockIds." ;;
      written ← DirEntry.serialize e ;
      serialized' ← Data.memcpy_to serialized (Z.to_nat offset) written ;
      serialize_loop (Some e) l' (u32 (offset + Z.of_nat (serializedSize e))) serialized'
  end.
(** [uninit] is the content of the new buffer. *)
Definition serialize (uninit : nat → bytes) (l : list DirEntry.t) : result bytes :=
  Data.check_alloc (_serializedSize l) ;;
  serialize_loop None l 0 (uninit (Z.to_nat (_serializedSize l))).

(** [deserializeFrom]: every entry takes at least one byte, so the length of
    the data bounds the number of turns of the loop. *)
Fixpoint deserialize_loop (fuel : nat) (entries : list DirEntry.t) (pos : bytes) : result (list DirEntry.t) :=
  match fuel with
  | O => mret entries
  | S fuel' =>
      if decide (length pos = 0%nat) then mret entries
      else
        match deserializeAndAddToVector pos with
        | (Throw e, _) => mthrow e
        | (Ok entry, pos') =>
            ASSERT (match last entries with None => true | Some p => BlockId.less (_blockId p) (_blockId entry) end)
              "Invariant hurt: Directory entries should be ordered by blockId and not have duplicate blockIds." ;;
            deserialize_loop fuel' (entries ++ [entry]) pos'
        end
  end.
Definition deserializeFrom (data : bytes) : result (list DirEntry.t) := deserialize_loop (length data) [] data.

(** ** Operations on a state that has the vector *)
Section operations.
Context {S : Type} (get_entries : S → list DirEntry.t) (set_entries : list DirEntry.t → S → S).
Context (now : M S timespec).

Definition entries : M S (list DirEntry.t) := s ← get_state ; mret (get_entries s).
Definition update (f : list DirEntry.t → list DirEntry.t) : M S unit :=
  modify (λ s, set_entries (f (get_entries s)) s).

Definition _hasChild (name : bytes) : M S bool :=
  l ← entries ;
  mret (bool_decide (_findByName name l ≠ length l)).

Definition _add (name blobId : bytes) (entryType : EntryType) (mode uid gid : Z) (lastAccessTime lastModificationTime : timespec) : M S unit :=
  l ← entries ;
  insert_pos ← lift (_findUpperBound blobId l) ;
  t ← now ;
  entry ← lift (DirEntry.new (Some entryType) name blobId mode uid gid lastAccessTime lastModificationTime t) ;
  update (λ l, take insert_pos l ++ entry :: drop insert_pos l).

Definition add (name blobId : bytes) (entryType : EntryType) (mode uid gid : Z) (lastAccessTime lastModificationTime : timespec) : M S unit :=
  exists_ ← _hasChild name ;
  if (exists_ : bool) then mthrow (FuseErrno EEXIST)
  else _add name blobId entryType mode uid gid lastAccessTime lastModificationTime.

Definition _checkAllowedOverwrite (oldType newType : EntryType) : M S unit :=
  if decide (oldType ≠ newType) then
    if decide (oldType = DIR) then mthrow (FuseErrno EISDIR)
    else if decide (newType = DIR) then mthrow (FuseErrno ENOTDIR)
    else mret tt
  else mret tt.

(** [entry] is an iterator into the vector. *)
Definition _overwrite (entry : nat) (name blobId : bytes) (entryType : EntryType) (mode uid gid : Z)
    (lastAccessTime lastModificationTime : timespec) : M S unit :=
  l ← entries ;
  match l !! entry with
  | None => mthrow UndefinedBehaviour
  | Some old =>
      _checkAllowedOverwrite (_type old) entryType ;;
      update (delete entry) ;;
      _add name blobId entryType mode uid gid lastAccessTime lastModificationTime
  end.

Definition addOrOverwrite (name blobId : bytes) (entryType : EntryType) (mode uid gid : Z)
    (lastAccessTime lastModificationTime : timespec) (onOverwritten : bytes → M S unit) : M S unit :=
  l ← entries ;
  let found := _findByName name l in
  match l !! found with
  | Some e =>
      onOverwritten (_blockId e) ;;
      _overwrite found name blobId entryType mode uid gid lastAccessTime lastModificationTime
  | None => _add name blobId entryType mode uid gid lastAccessTime lastModificationTime
  end.

(** Look an entry up by its id, ENOENT when there is none. *)
Definition find_or_enoent (blockId : bytes) : M S (nat * DirEntry.t) :=
  l ← entries ;
  found ← lift (_findById blockId l) ;
  match l !! found with
  | None => mthrow (FuseErrno ENOENT)
  | Some e => mret (found, e)
  end.

Definition rename (blockId name : bytes) (onOverwritten : bytes → M S unit) : M S unit :=
  l ← entries ;
  let foundSameName := _findByName name l in
  match l !! foundSameName with
  | Some same =>
      if decide (_blockId same ≠ blockId) then
        found ← find_or_enoent blockId ;
        _checkAllowedOverwrite (_type same) (_type found.2) ;;
        onOverwritten (_blockId same) ;;
        update (delete foundSameName)
      else mret tt
  | None => mret tt
  end ;;
  found ← find_or_enoent blockId ;
  t ← now ;
  update (alter (setName name t) found.1).

Definition get_by_name (name : bytes) : M S (option DirEntry.t) :=
  l ← entries ;
  mret (l !! _findByName name l).

Definition get_by_id (blockId : bytes) : M S (option DirEntry.t) :=
  l ← entries ;
  found ← lift (_findById blockId l) ;
  mret (l !! found).

Definition remove_by_name (name : bytes) : M S unit :=
  l ← entries ;
  let found := _findByName name l in
  match l !! found with
  | None => mthrow (FuseErrno ENOENT)
  | Some _ => update (delete found)
  end.

Definition remove_by_id (blockId : bytes) : M S unit :=
  l ← entries ;
  lowerBound ← lift (_findLowerBound blockId l) ;
  let upperBound := (lowerBound + find_if (λ e, bool_decide (_blockId e ≠ blockId)) (drop lowerBound l))%nat in
  update (λ l, take lowerBound l ++ drop upperBound l).

Definition size : M S nat := l ← entries ; mret (length l).

Definition setMode (blockId : bytes) (mode : Z) : M S unit :=
  found ← find_or_enoent blockId ;
  ASSERT (mode_t.hasFileFlag mode && mode_t.hasFileFlag (_mode found.2) ||
          mode_t.hasDirFlag mode && mode_t.hasDirFlag (_mode found.2) || mode_t.hasSymlinkFlag mode) "Unknown mode in entry" ;;
  t ← now ;
  update (alter (DirEntry.setMode mode t) found.1).

(** An id of [-1] means: leave it. *)
Definition setUidGid (blockId : bytes) (uid gid : Z) : M S bool :=
  found ← find_or_enoent blockId ;
  (if decide (uid ≠ u32 (-1)) then t ← now ; update (alter (setUid uid t) found.1) else mret tt) ;;
  (if decide (gid ≠ u32 (-1)) then t ← now ; update (alter (setGid gid t) found.1) else mret tt) ;;
  mret (bool_decide (uid ≠ u32 (-1)) || bool_decide (gid ≠ u32 (-1))).

Definition setAccessTimes (blockId : bytes) (lastAccessTime lastModificationTime : timespec) : M S unit :=
  found ← find_or_enoent blockId ;
  update (alter (setLastAccessTime lastAccessTime) found.1) ;;
  t ← now ;
  update (alter (setLastModificationTime lastModificationTime t) found.1).

Definition updateAccessTimestampForChild (blockId : bytes) (behavior : TimestampUpdateBehavior) : M S bool :=
  found ← find_or_enoent blockId ;
  let e := found.2 in
  t ← now ;
  let should := match _type e with
                | FILE | SYMLINK => shouldUpdateATimeOnFileRead behavior (_lastAccessTime e) (_lastModificationTime e) t
                | DIR => shouldUpdateATimeOnDirectoryRead behavior (_lastAccessTime e) (_lastModificationTime e) t
                end in
  if (should : bool) then update (alter (setLastAccessTime t) found.1) ;; mret true else mret false.

Definition updateModificationTimestampForChild (blockId : bytes) : M S unit :=
  found ← find_or_enoent blockId ;
  t ← now ;
  t' ← now ;
  update (alter (setLastModificationTime t t') found.1).
End operations.
End search.

(** ** The hinted search finds the first match *)
Definition id_lt (a b : DirEntry.t) : Prop := BlockId.less (_blockId a) (_blockId b) = true.
Abbreviation sorted := (StronglySorted id_lt).
Abbreviation named name := (λ e : DirEntry.t, bool_decide (_name e = name)).
Abbreviation has_id id := (λ e : DirEntry.t, bool_decide (_blockId e = id)).

Lemma find_if_before pred l i e : (i < find_if pred l)%nat → l !! i = Some e → pred e = false.
Proof.
  revert i. induction l as [|x l IH]; intros i Hi He; simpl in *; [done|].
  destruct (pred x) eqn:E; [lia|]. destruct i as [|i]; simpl in *; [by simplify_eq|]. apply (IH i); [lia|done].
Qed.
Lemma find_if_here pred l e : l !! find_if pred l = Some e → pred e = true.
Proof. induction l as [|x l IH]; simpl; [done|]. destruct (pred x) eqn:E; simpl; [by intros [= <-]|done]. Qed.
Lemma find_if_le pred l : (find_if pred l ≤ length l)%nat.
Proof. induction l as [|x l IH]; simpl; [done|]. destruct (pred x); lia. Qed.
Lemma find_if_end pred l : l !! find_if pred l = None → find_if pred l = length l.
Proof. intros H%lookup_ge_None. pose proof (find_if_le pred l). lia. Qed.
Lemma find_if_none pred l e : l !! find_if pred l = None → e ∈ l → pred e = false.
Proof.
  intros H [i Hi]%list_elem_of_lookup. apply (find_if_before pred l i); [|done].
  rewrite find_if_end by done. by apply lookup_lt_Some in Hi.
Qed.

Lemma find_if_skip pred l k :
  (∀ i e, (i < k)%nat → l !! i = Some e → pred e = false) → (k ≤ length l)%nat →
  (k + find_if pred (drop k l))%nat = find_if pred l.
Proof.
  revert l. induction k as [|k IH]; intros l H Hk; [by rewrite drop_0|].
  destruct l as [|x l]; simpl in *; [lia|].
  rewrite (H 0%nat x) by (done || lia). f_equal. apply IH; [|lia]. intros i e Hi He. apply (H (S i) e); [lia|done].
Qed.

(** A search predicate that holds from some point of the vector on. *)
Definition monotone (pred : DirEntry.t → bool) (l : list DirEntry.t) : Prop :=
  ∀ i j a b, (i < j)%nat → l !! i = Some a → l !! j = Some b → pred a = true → pred b = true.

Lemma search_back_before pred l iter : monotone pred l → (iter < length l)%nat →
  let k := search_back pred l iter in
  (k ≤ iter)%nat ∧ ∀ i e, (i < k)%nat → l !! i = Some e → pred e = false.
Proof.
  intros Hm. induction iter as [|iter IH]; intros Hlt; simpl; [split; lia|].
  destruct (lookup_lt_is_Some_2 l (S iter) Hlt) as [e He]. rewrite He. destruct (pred e) eqn:E.
  - destruct IH as [H1 H2]; [lia|]. split; [lia|done].
  - split; [lia|]. intros i a Hi Ha. destruct (pred a) eqn:Ea; [|done].
    assert (pred e = true) by (apply (Hm i (S iter) a e); [lia|done..]). congruence.
Qed.

Section search_correct.
Context (startpos : Z → nat → nat).
(** What the floating point scaling gives: a position inside the vector. *)
Context (startpos_ok : ∀ b n, 0 ≤ b < 256 → (0 < n)%nat → (startpos b n < n)%nat).

Lemma findFirst_ok hint pred l : monotone pred l → _findFirst startpos hint pred l = Ok (find_if pred l).
Proof using startpos_ok.
  intros Hm. unfold _findFirst. case_decide as Hl; [by destruct l|].
  set (iter := startpos _ _).
  assert (iter < length l)%nat as Hi by (apply startpos_ok; [apply byte_val_range|lia]).
  rewrite bool_decide_true by done. simpl. unfold search_forward.
  destruct (search_back_before pred l iter Hm Hi) as [H1 H2]. rewrite find_if_skip by (done || lia). done.
Qed.

Lemma sorted_lookup l i j a b : sorted l → (i < j)%nat → l !! i = Some a → l !! j = Some b → id_lt a b.
Proof.
  intros H. revert i j. induction H as [|x l Hs IH Hx]; intros i j Hij Ha Hb; [done|].
  destruct j as [|j]; [lia|]. destruct i as [|i]; simpl in *; [|apply (IH i j); [lia|done..]].
  simplify_eq. rewrite Forall_forall in Hx. apply Hx. by apply list_elem_of_lookup_2 with j.
Qed.

Lemma lowerBound_monotone id l : sorted l → monotone (λ e, negb (BlockId.less (_blockId e) id)) l.
Proof.
  intros Hs i j a b Hij Ha Hb. pose proof (sorted_lookup _ _ _ _ _ Hs Hij Ha Hb) as Hab.
  rewrite !negb_true_iff. intros Hna. destruct (BlockId.less (_blockId b) id) eqn:E; [|done].
  rewrite <- Hna. symmetry. by apply (BlockId.less_trans _ (_blockId b)).
Qed.

Lemma upperBound_monotone id l : sorted l → monotone (λ e, BlockId.less id (_blockId e)) l.
Proof.
  intros Hs i j a b Hij Ha Hb Hlt. apply (BlockId.less_trans _ (_blockId a)); [done|].
  by apply (sorted_lookup _ _ _ _ _ Hs Hij Ha Hb).
Qed.

(** The search by id is the linear search. *)
Lemma findById_ok id l : sorted l → _findById startpos id l = Ok (find_if (has_id id) l).
Proof using startpos_ok.
  intros Hs. unfold _findById, _findLowerBound. rewrite findFirst_ok by by apply lowerBound_monotone. simpl.
  induction Hs as [|x l Hs IH Hx]; simpl; [done|].
  destruct (BlockId.less_total (_blockId x) id) as [H|[H|H]].
  - rewrite H. simpl. rewrite bool_decide_false by (intros E; rewrite E in H; by apply BlockId.less_irrefl in H).
    destruct (l !! _) as [e|] eqn:E; [case_decide|]; injection IH as IH; unfold mret, result_ret; by rewrite IH.
  - rewrite H. rewrite (bool_decide_true (id = id)) by done.
    destruct (BlockId.less id id) eqn:E; [by apply BlockId.less_irrefl in E|]. simpl. by rewrite decide_False by (intros Hn; done).
  - rewrite (BlockId.less_asym _ _ H). simpl.
    assert (_blockId x ≠ id) as Hne by (intros E; rewrite E in H; by apply BlockId.less_irrefl in H).
    rewrite decide_True by done. rewrite bool_decide_false by done. unfold mret, result_ret. do 2 f_equal. symmetry. apply find_if_end.
    destruct (l !! find_if (has_id id) l) as [e|] eqn:E; [|done]. exfalso. pose proof (find_if_here _ _ _ E) as Heq.
    rewrite bool_decide_eq_true in Heq. rewrite Forall_forall in Hx.
    pose proof (Hx e (list_elem_of_lookup_2 _ _ _ E)) as Hlt. unfold id_lt in Hlt. rewrite Heq in Hlt.
    by rewrite (BlockId.less_asym _ _ Hlt) in H.
Qed.

(** C38. The hinted search is the linear search. The entries are ordered by
    id, and the search starts at a position guessed from the first byte of
    the id; whatever position inside the vector the guess gives, the three
    searches return what a search from the beginning returns: the first entry
    not below the id, the first above it, and the entry with the id (or the
    end). *)
Theorem hinted_search_equivalent id l : sorted l →
  _findLowerBound startpos id l = Ok (find_if (λ e, negb (BlockId.less (_blockId e) id)) l) ∧
  _findUpperBound startpos id l = Ok (find_if (λ e, BlockId.less id (_blockId e)) l) ∧
  _findById startpos id l = Ok (find_if (has_id id) l).
Proof using startpos_ok.
  intros Hs. split; [by apply findFirst_ok, lowerBound_monotone|]. split; [by apply findFirst_ok, upperBound_monotone|]. by apply findById_ok.
Qed.
End search_correct.

(** Three entries; the guess is always the last position. *)
Definition entry_at (b : byte) : DirEntry.t := DirEntry.mk FILE [b] (replicate 16 b) 0x81a4 0 0 (mkTime 0 0) (mkTime 0 0) (mkTime 0 0).
Lemma hinted_search_equivalent_witness :
  let l := [entry_at x01; entry_at x05; entry_at x09] in
  _findLowerBound (λ _ n, (n - 1)%nat) (replicate 16 x05) l = Ok 1%nat ∧
  _findUpperBound (λ _ n, (n - 1)%nat) (replicate 16 x05) l = Ok 2%nat ∧
  _findById (λ _ n, (n - 1)%nat) (replicate 16 x05) l = Ok 1%nat.
Proof.
  intros l. assert (∀ (b : Z) n, 0 ≤ b < 256 → (0 < n)%nat → (n - 1 < n)%nat) as Hpos by (intros; lia).
  apply (hinted_search_equivalent (λ _ n, (n - 1)%nat) Hpos (replicate 16 x05) l).
  repeat constructor; by vm_compute.
Defined.
End DirEntryList.
