(* ===== verification/DirSpec.v ===== *)
(** * A directory is a finite map

    The abstract view of a directory: a map from block ids to entries with
    distinct names. Every operation of [DirEntryList] on the ordered vector
    returns, or throws, what the same operation does on the map; the order
    and the uniqueness of the names are invariants; the byte format round
    trips. *)
From S2P Require Import Prelude Serialization DirEntry DirEntryList.
From Stdlib Require Import Lia ZArith Sorted.
Import DirEntry DirEntryList.

(** ** Ordered vectors with distinct names *)
Definition contents (l : list DirEntry.t) : gmap bytes DirEntry.t := list_to_map ((λ e, (_blockId e, e)) <$> l).
Definition dir_ok (l : list DirEntry.t) : Prop := sorted l ∧ NoDup (_name <$> l).

(** The entry with a name in the map. *)
Definition find_name (name : bytes) (m : gmap bytes DirEntry.t) : option DirEntry.t :=
  head (filter (λ e, _name e = name) (map_to_list m).*2).

Lemma sorted_ids l : sorted l ↔ StronglySorted (λ a b, BlockId.less a b = true) (_blockId <$> l).
Proof.
  split; (induction l as [|x l IH]; simpl; intros H; [constructor|]; apply StronglySorted_inv in H as [H Hx]; constructor; [by apply IH|]).
  - rewrite Forall_fmap. done.
  - by rewrite Forall_fmap in Hx.
Qed.

Lemma sorted_NoDup l : sorted l → NoDup (_blockId <$> l).
Proof.
  induction 1 as [|x l Hs IH Hx]; simpl; constructor; [|done].
  intros (e & He & Hin)%list_elem_of_fmap. rewrite Forall_forall in Hx. pose proof (Hx e Hin) as H.
  unfold id_lt in H. rewrite He in H. by apply BlockId.less_irrefl in H.
Qed.

Lemma sorted_sublist l k : sublist l k → sorted k → sorted l.
Proof.
  induction 1 as [|x l k Hsub IH|x l k Hsub IH]; intros Hs; [done| |]; apply StronglySorted_inv in Hs as [Hs Hx].
  - constructor; [auto|]. rewrite Forall_forall in Hx |- *. intros e He. by apply Hx, (sublist_subseteq _ _ Hsub).
  - auto.
Qed.

Lemma lookup_contents l id e : sorted l → contents l !! id = Some e ↔ e ∈ l ∧ _blockId e = id.
Proof.
  intros Hs. unfold contents. rewrite <- elem_of_list_to_map.
  - rewrite list_elem_of_fmap. split; [intros (e' & [= -> ->] & ?); done|]. intros [? <-]. by exists e.
  - rewrite <- list_fmap_compose. by apply sorted_NoDup.
Qed.

Lemma lookup_find_id l id : sorted l → l !! find_if (has_id id) l = contents l !! id.
Proof.
  intros Hs. destruct (l !! find_if (has_id id) l) as [e|] eqn:E; symmetry.
  - apply lookup_contents; [done|]. split; [by eapply list_elem_of_lookup_2|].
    apply find_if_here in E. by apply bool_decide_eq_true in E.
  - apply eq_None_not_Some. intros [e [He <-]%lookup_contents]; [|done].
    pose proof (find_if_none _ _ _ E He) as H. by rewrite bool_decide_eq_false in H.
Qed.

Lemma elem_of_values (m : gmap bytes DirEntry.t) e : e ∈ (map_to_list m).*2 ↔ ∃ id, m !! id = Some e.
Proof.
  rewrite list_elem_of_fmap. split.
  - intros ([id e'] & -> & H). exists id. by apply elem_of_map_to_list.
  - intros [id H]. exists (id, e). by rewrite elem_of_map_to_list.
Qed.

Lemma find_name_Some name m e : find_name name m = Some e → _name e = name ∧ ∃ id, m !! id = Some e.
Proof.
  unfold find_name. intros H%head_Some_elem_of. apply list_elem_of_filter in H as [H1 H2%elem_of_values]. done.
Qed.
Lemma find_name_None name m id e : find_name name m = None → m !! id = Some e → _name e ≠ name.
Proof.
  unfold find_name. intros H%head_None Hm Hn. assert (e ∈ filter (λ e, _name e = name) (map_to_list m).*2) as Hin.
  { apply list_elem_of_filter. split; [done|]. apply elem_of_values. by exists id. }
  rewrite H in Hin. by apply elem_of_nil in Hin.
Qed.

Lemma names_inj l e e' : NoDup (_name <$> l) → e ∈ l → e' ∈ l → _name e = _name e' → e = e'.
Proof.
  intros Hn [i Hi]%list_elem_of_lookup [j Hj]%list_elem_of_lookup H.
  assert (i = j) as ->; [|by simplify_eq].
  apply (NoDup_lookup (_name <$> l) i j (_name e)); [done|..]; rewrite list_lookup_fmap; [by rewrite Hi|by rewrite Hj, H].
Qed.

Lemma lookup_find_name l name : dir_ok l → l !! find_if (named name) l = find_name name (contents l).
Proof.
  intros [Hs Hn]. destruct (find_name name (contents l)) as [e|] eqn:E.
  - apply find_name_Some in E as (He & id & [Hin Hid]%lookup_contents); [|done].
    destruct (l !! find_if (named name) l) as [e'|] eqn:E'.
    + f_equal. apply (names_inj l); [done|by eapply list_elem_of_lookup_2|done|].
      apply find_if_here, bool_decide_eq_true in E'. congruence.
    + pose proof (find_if_none _ _ _ E' Hin) as H. by rewrite bool_decide_eq_false in H.
  - destruct (l !! find_if (named name) l) as [e'|] eqn:E'; [|done]. exfalso.
    pose proof (find_if_here _ _ _ E') as H%bool_decide_eq_true. revert H. apply (find_name_None name (contents l) (_blockId e')); [done|].
    apply lookup_contents; [done|]. split; [by eapply list_elem_of_lookup_2|done].
Qed.

Lemma contents_Permutation l k : sorted l → l ≡ₚ k → contents l = contents k.
Proof.
  intros Hs Hp. unfold contents. apply list_to_map_proper; [|by rewrite Hp].
  rewrite <- list_fmap_compose. by apply sorted_NoDup.
Qed.
Lemma contents_cons e l : contents (e :: l) = <[_blockId e := e]> (contents l).
Proof. done. Qed.

(** *** Inserting at the upper bound *)
Lemma insert_sorted e l :
  sorted l → (∀ x, x ∈ l → _blockId x ≠ _blockId e) →
  let p := find_if (λ x, BlockId.less (_blockId e) (_blockId x)) l in
  sorted (take p l ++ e :: drop p l).
Proof.
  induction 1 as [|x l Hs IH Hx]; intros Hne; simpl; [by repeat constructor|].
  destruct (BlockId.less (_blockId e) (_blockId x)) eqn:E; simpl.
  - constructor; [by constructor|]. constructor; [done|].
    apply (Forall_impl _ _ _ Hx). intros y Hy. by apply (BlockId.less_trans _ (_blockId x)).
  - assert (id_lt x e) as Hxe.
    { unfold id_lt. pose proof (Hne x ltac:(by left)). destruct (BlockId.less_total (_blockId x) (_blockId e)) as [?|[?|?]]; congruence. }
    constructor; [apply IH; intros y Hy; apply Hne; by right|].
    apply Forall_app. split; [by apply Forall_take|]. constructor; [done|by apply Forall_drop].
Qed.

Lemma insert_Permutation (e : DirEntry.t) p l : take p l ++ e :: drop p l ≡ₚ e :: l.
Proof. rewrite <- Permutation_middle. by rewrite take_drop. Qed.

Lemma insert_ok startpos (startpos_ok : ∀ b n, 0 ≤ b < 256 → (0 < n)%nat → (startpos b n < n)%nat) e l :
  dir_ok l → contents l !! _blockId e = None → find_name (_name e) (contents l) = None →
  ∃ p, _findUpperBound startpos (_blockId e) l = Ok p ∧ dir_ok (take p l ++ e :: drop p l) ∧
       contents (take p l ++ e :: drop p l) = <[_blockId e := e]> (contents l).
Proof.
  intros [Hs Hn] Hid Hname. eexists. split; [apply findFirst_ok; [done|by apply upperBound_monotone]|].
  set (p := find_if _ _). pose proof (insert_Permutation e p l) as Hp.
  assert (sorted (take p l ++ e :: drop p l)) as Hs'.
  { apply insert_sorted; [done|]. intros x Hx Heq.
    assert (contents l !! _blockId e = Some x) by by apply lookup_contents. congruence. }
  split; [split; [done|]|by rewrite (contents_Permutation _ _ Hs' Hp)].
  rewrite Hp. simpl. constructor; [|done]. intros (x & Hx & Hin)%list_elem_of_fmap.
  apply (find_name_None _ _ (_blockId x) x Hname); [by apply lookup_contents|done].
Qed.

(** *** Erasing *)
Lemma delete_ok i l e : dir_ok l → l !! i = Some e →
  dir_ok (delete i l) ∧ contents (delete i l) = delete (_blockId e) (contents l).
Proof.
  intros [Hs Hn] Hi. pose proof (delete_Permutation _ _ _ Hi) as Hp.
  assert (sorted (delete i l)) as Hs' by (apply (sorted_sublist _ l); [apply sublist_delete|done]).
  split; [split; [done|]|].
  - rewrite Hp in Hn. by apply NoDup_cons_1_2 in Hn.
  - rewrite (contents_Permutation _ _ Hs Hp), contents_cons, delete_insert_id; [done|].
    apply eq_None_not_Some. intros [x [Hx Hid]%lookup_contents]; [|done].
    pose proof (sorted_NoDup _ Hs) as Hd. rewrite Hp in Hd. simpl in Hd. apply NoDup_cons_1_1 in Hd. apply Hd.
    rewrite <- Hid. by apply list_elem_of_fmap_2.
Qed.

(** *** Changing an entry in place *)
Lemma alter_insert {A} (f : A → A) i (l : list A) x : l !! i = Some x → alter f i l = <[i := f x]> l.
Proof.
  intros Hi. apply list_eq. intros j. destruct (decide (i = j)) as [<-|Hne].
  - rewrite list_lookup_alter_eq, Hi, list_lookup_insert_eq; [done|]. by apply lookup_lt_Some in Hi.
  - by rewrite list_lookup_alter_ne, list_lookup_insert_ne.
Qed.

Lemma NoDup_insert_fresh {A} i (x : A) (l : list A) : NoDup l → x ∉ l → NoDup (<[i := x]> l).
Proof.
  intros Hn Hx. destruct (decide (i < length l)%nat) as [Hi|]; [|by rewrite list_insert_ge by lia].
  rewrite insert_take_drop by done. destruct (lookup_lt_is_Some_2 l i Hi) as [y Hy].
  rewrite <- (take_drop_middle l i y Hy) in Hn, Hx.
  apply NoDup_app in Hn as (H1 & H2 & [H3 H4]%NoDup_cons). apply not_elem_of_app in Hx as [Hx1 [_ Hx2]%not_elem_of_cons].
  apply NoDup_app. split_and!; [done| |by constructor].
  intros z Hz [->|Hz']%elem_of_cons; [done|]. apply (H2 z Hz). by right.
Qed.

Lemma alter_ok f i l e : dir_ok l → l !! i = Some e → _blockId (f e) = _blockId e →
  (_name (f e) = _name e ∨ find_name (_name (f e)) (contents l) = None) →
  dir_ok (alter f i l) ∧ contents (alter f i l) = <[_blockId e := f e]> (contents l).
Proof.
  intros [Hs Hn] Hi Hid Hname. rewrite (alter_insert f _ _ _ Hi).
  assert (sorted (<[i := f e]> l)) as Hs'.
  { apply sorted_ids. rewrite list_fmap_insert, Hid, list_insert_id; [by apply sorted_ids|]. by rewrite list_lookup_fmap, Hi. }
  pose proof (lookup_lt_Some _ _ _ Hi) as Hlt.
  assert (contents (<[i := f e]> l) = <[_blockId e := f e]> (contents l)) as Hc.
  { apply map_eq. intros id. apply option_eq. intros x. rewrite (lookup_contents _ _ _ Hs'). destruct (decide (id = _blockId e)) as [->|Hne].
    - rewrite lookup_insert_eq. split.
      + intros [Hx Hx']. f_equal. assert (f e ∈ <[i := f e]> l) as Hin by by apply list_elem_of_insert.
        assert (contents (<[i := f e]> l) !! _blockId e = Some x) as E1 by by apply lookup_contents.
        assert (contents (<[i := f e]> l) !! _blockId e = Some (f e)) as E2 by (by apply lookup_contents).
        congruence.
      + intros [= <-]. split; [by apply list_elem_of_insert|done].
    - rewrite lookup_insert_ne by done. rewrite (lookup_contents _ _ _ Hs). split; intros [Hx Hx']; (split; [|done]).
      + apply list_elem_of_lookup in Hx as [j Hj]. apply list_elem_of_lookup. exists j.
        destruct (decide (i = j)) as [->|]; [rewrite list_lookup_insert_eq in Hj by done; simplify_eq|by rewrite list_lookup_insert_ne in Hj].
      + apply list_elem_of_lookup in Hx as [j Hj]. apply list_elem_of_lookup. exists j.
        rewrite list_lookup_insert_ne; [done|]. intros ->. simplify_eq. }
  split; [split; [done|]|done]. rewrite list_fmap_insert. destruct Hname as [->|Hname].
  - rewrite list_insert_id; [done|]. by rewrite list_lookup_fmap, Hi.
  - apply NoDup_insert_fresh; [done|]. intros (x & Hx & Hin)%list_elem_of_fmap.
    apply (find_name_None _ _ (_blockId x) x Hname); [by apply lookup_contents|done].
Qed.

(** ** The operations on any state with a directory *)
Section operations.
Context {S : Type} (get_entries : S → list DirEntry.t) (set_entries : list DirEntry.t → S → S).
Context (now : M S timespec) (startpos : Z → nat → nat).
Context (startpos_ok : ∀ b n, 0 ≤ b < 256 → (0 < n)%nat → (startpos b n < n)%nat).
(** [valid s]: the directory is there. *)
Context (valid : S → Prop).
Context (get_set : ∀ l s, valid s → get_entries (set_entries l s) = l).
Context (set_set : ∀ l l' s, set_entries l (set_entries l' s) = set_entries l s).
Context (valid_set : ∀ l s, valid s → valid (set_entries l s)).
Context (now_ok : ∀ s, valid s → ∃ t s', now s = (Ok t, s') ∧ valid s' ∧ get_entries s' = get_entries s).

Abbreviation ent := (entries get_entries).
Abbreviation upd := (update get_entries set_entries).

(** The directory of [s] stands for [m]. *)
Definition is_dir (s : S) (m : gmap bytes DirEntry.t) : Prop :=
  valid s ∧ dir_ok (get_entries s) ∧ contents (get_entries s) = m.

(** [s'] is [s] with the directory changed to one that stands for [m]. *)
Definition dir_changed (s s' : S) (m : gmap bytes DirEntry.t) : Prop :=
  ∃ l, s' = set_entries l s ∧ is_dir s' m.

Lemma dir_changed_intro s l m : valid s → dir_ok l → contents l = m → dir_changed s (set_entries l s) m.
Proof using get_set valid_set. intros Hv Hl Hc. exists l. split; [done|]. unfold is_dir. rewrite get_set by done. auto. Qed.

Lemma now_dir s m : is_dir s m → ∃ t s', now s = (Ok t, s') ∧ is_dir s' m.
Proof using now_ok.
  intros (Hv & Hl & Hc). destruct (now_ok s Hv) as (t & s' & E & Hv' & Hg). exists t, s'.
  unfold is_dir. rewrite Hg. auto.
Qed.

Lemma find_or_enoent_spec id s m : is_dir s m →
  find_or_enoent startpos get_entries id s =
    match m !! id with
    | None => (Throw (FuseErrno ENOENT), s)
    | Some e => (Ok (find_if (has_id id) (get_entries s), e), s)
    end.
Proof using startpos_ok.
  intros (_ & [Hs _] & <-). unfold find_or_enoent, ent, lift, get_state, mbind, M_bind. csimp.
  rewrite findById_ok by done. rewrite lookup_find_id by done. by destruct (contents _ !! id).
Qed.

Lemma get_by_id_spec id s m : is_dir s m → get_by_id startpos get_entries id s = (Ok (m !! id), s).
Proof using startpos_ok.
  intros (_ & [Hs _] & <-). unfold get_by_id, ent, lift, get_state, mbind, M_bind. csimp.
  rewrite findById_ok by done. by rewrite lookup_find_id.
Qed.

Lemma get_by_name_spec name s m : is_dir s m → get_by_name get_entries name s = (Ok (find_name name m), s).
Proof.
  intros (_ & Hl & <-). unfold get_by_name, ent, get_state, _findByName, mbind, M_bind. csimp. by rewrite lookup_find_name.
Qed.

Lemma size_spec s m : is_dir s m → DirEntryList.size get_entries s = (Ok (base.size m), s).
Proof.
  intros (_ & [Hs _] & <-). unfold DirEntryList.size, ent, get_state, mbind, M_bind. csimp. do 2 f_equal.
  unfold contents. rewrite <- (length_fmap (λ e, (_blockId e, e)) (get_entries s)) at 1.
  rewrite <- length_map_to_list, map_to_list_to_map; [done|].
  rewrite <- list_fmap_compose. by apply sorted_NoDup.
Qed.

(** Changing the entry found by its id. *)
Lemma update_spec f id s m e : is_dir s m → m !! id = Some e → _blockId (f e) = _blockId e →
  (_name (f e) = _name e ∨ find_name (_name (f e)) m = None) →
  ∃ s', upd (alter f (find_if (has_id id) (get_entries s))) s = (Ok tt, s') ∧ dir_changed s s' (<[id := f e]> m).
Proof using get_set valid_set.
  intros (Hv & Hl & <-) He Hid Hname. eexists. split; [done|].
  pose proof He as [_ Hide]%lookup_contents; [|by destruct Hl].
  destruct (alter_ok f (find_if (has_id id) (get_entries s)) (get_entries s) e) as [H1 H2]; try done.
  { by rewrite lookup_find_id by (by destruct Hl). }
  rewrite Hide in H2. by apply dir_changed_intro.
Qed.

Lemma add_entry_spec name id ty mode uid gid a mt s m :
  is_dir s m → m !! id = None → find_name name m = None →
  ∃ t s1, now s = (Ok t, s1) ∧ is_dir s1 m ∧
    match DirEntry.new (Some ty) name id mode uid gid a mt t with
    | Throw e => _add startpos get_entries set_entries now name id ty mode uid gid a mt s = (Throw e, s1)
    | Ok e => ∃ s2, _add startpos get_entries set_entries now name id ty mode uid gid a mt s = (Ok tt, s2) ∧ dir_changed s1 s2 (<[id := e]> m)
    end.
Proof using startpos_ok get_set valid_set now_ok.
  intros Hd Hid Hname. destruct (now_dir s m Hd) as (t & s1 & E & Hd1). exists t, s1. split_and!; [done..|].
  destruct (now_ok s) as (t' & s1' & E' & _ & Hg); [by destruct Hd|]. rewrite E in E'. injection E' as <- <-.
  destruct Hd as (Hv & Hl & <-). unfold _add, ent, get_state, lift.
  destruct (DirEntry.new _ _ _ _ _ _ _ _ t) as [e|x] eqn:En.
  - assert (_blockId e = id ∧ _name e = name) as [<- <-].
    { unfold DirEntry.new in En. apply result_bind_inv in En as ([] & _ & [= <-]). done. }
    destruct (insert_ok startpos startpos_ok e (get_entries s) Hl Hid Hname) as (p & Ep & Hok & Hc).
    eexists. split.
    + unfold mbind, M_bind. csimp. rewrite Ep. csimp. rewrite E, En. csimp. done.
    + apply dir_changed_intro; rewrite ?Hg; [by destruct Hd1|done..].
  - unfold mbind, M_bind. csimp. destruct (_findUpperBound startpos id (get_entries s)) as [p|] eqn:Ep.
    + csimp. by rewrite E, En.
    + unfold _findUpperBound in Ep. rewrite findFirst_ok in Ep; [done|done|]. apply upperBound_monotone. by destruct Hl.
Qed.

Lemma remove_by_name_spec name s m : is_dir s m →
  match find_name name m with
  | None => remove_by_name get_entries set_entries name s = (Throw (FuseErrno ENOENT), s)
  | Some e => ∃ s', remove_by_name get_entries set_entries name s = (Ok tt, s') ∧ dir_changed s s' (delete (_blockId e) m)
  end.
Proof using get_set valid_set.
  intros (Hv & Hl & <-). unfold remove_by_name, ent, get_state, _findByName, mbind, M_bind. csimp.
  destruct (find_name name _) as [e|] eqn:E; rewrite <- lookup_find_name in E by done; rewrite E; [|done].
  eexists. split; [done|]. destruct (delete_ok _ _ _ Hl E). by apply dir_changed_intro.
Qed.

Lemma remove_range l id : sorted l →
  let lb := find_if (λ e, negb (BlockId.less (_blockId e) id)) l in
  take lb l ++ drop (lb + find_if (λ e, bool_decide (_blockId e ≠ id)) (drop lb l)) l =
    match contents l !! id with None => l | Some _ => delete (find_if (has_id id) l) l end.
Proof using startpos_ok.
  intros Hs lb. pose proof (findById_ok startpos startpos_ok id l Hs) as E. pose proof (lookup_find_id l id Hs) as El.
  unfold _findById, _findLowerBound in E. rewrite findFirst_ok in E by (done || by apply lowerBound_monotone).
  fold lb in E. simpl in E. destruct (l !! lb) as [e|] eqn:Elb.
  - rewrite (drop_S _ _ _ Elb). simpl. case_decide as Hid; injection E as E.
    + rewrite <- E in El. rewrite lookup_ge_None_2 in El by done. rewrite <- El.
      rewrite bool_decide_true by done. by rewrite Nat.add_0_r, take_drop.
    + rewrite <- E, Elb in El. rewrite <- El, <- E. rewrite bool_decide_false by (intros ?; done).
      assert (find_if (λ e, bool_decide (_blockId e ≠ id)) (drop (Datatypes.S lb) l) = 0%nat) as ->.
      { destruct (drop (Datatypes.S lb) l) as [|y k] eqn:Ed; [done|]. simpl.
        assert (l !! Datatypes.S lb = Some y) as Ey by (rewrite <- (Nat.add_0_r (Datatypes.S lb)), <- lookup_drop, Ed; done).
        pose proof (sorted_lookup _ lb (Datatypes.S lb) _ _ Hs ltac:(lia) Elb Ey) as Hlt. rewrite bool_decide_true; [done|].
        intros Hy. unfold id_lt in Hlt. rewrite Hid, Hy in Hlt. by apply BlockId.less_irrefl in Hlt. }
      rewrite delete_take_drop. by rewrite Nat.add_1_r.
  - injection E as E. rewrite <- E in El. rewrite lookup_ge_None_2 in El by done. rewrite <- El.
    apply lookup_ge_None in Elb. rewrite (drop_ge l lb) by done. simpl. by rewrite Nat.add_0_r, take_drop.
Qed.

Lemma remove_by_id_spec id s m : is_dir s m →
  ∃ s', remove_by_id startpos get_entries set_entries id s = (Ok tt, s') ∧ dir_changed s s' (delete id m).
Proof using startpos_ok get_set valid_set.
  intros (Hv & Hl & <-). unfold remove_by_id, ent, get_state, lift, _findLowerBound, mbind, M_bind. csimp.
  pose proof Hl as [Hs _]. rewrite findFirst_ok by (done || by apply lowerBound_monotone). csimp.
  unfold update, modify. rewrite remove_range by done. eexists. split; [done|]. pose proof (lookup_find_id (get_entries s) id Hs) as El.
  destruct (contents _ !! id) as [e|] eqn:E.
  - destruct (delete_ok _ _ _ Hl El) as [H1 H2]. apply dir_changed_intro; [done..|]. rewrite H2. f_equal.
    by apply lookup_contents in E as [_ ?].
  - apply dir_changed_intro; [done..|]. by rewrite delete_id.
Qed.
End operations.
