(* ===== verification/Directory.v ===== *)
(** * Sequences of directory operations

    The refinement of a directory to a finite map for whole sequences of
    calls, the round trip of the byte format, and what the code does when a
    directory entry is overwritten by one of another type. *)
From S2P Require Import Prelude Serialization DirEntry DirEntryList DirSpec.
From Stdlib Require Import Lia ZArith Sorted.
Import DirEntry DirEntryList.

(** ** Client operations *)
Inductive dir_op :=
| OpAdd (name id : bytes) (ty : EntryType) (mode uid gid : Z) (atime mtime : timespec)
| OpAddOrOverwrite (name id : bytes) (ty : EntryType) (mode uid gid : Z) (atime mtime : timespec)
| OpRename (id name : bytes)
| OpGetByName (name : bytes)
| OpGetById (id : bytes)
| OpRemoveByName (name : bytes)
| OpRemoveById (id : bytes)
| OpSize
| OpSetMode (id : bytes) (mode : Z)
| OpSetUidGid (id : bytes) (uid gid : Z)
| OpSetAccessTimes (id : bytes) (atime mtime : timespec)
| OpUpdateAccess (id : bytes) (behavior : TimestampUpdateBehavior)
| OpUpdateModification (id : bytes).

Inductive dir_res := RUnit | RBool (b : bool) | RSize (n : nat) | REntry (e : option DirEntry.t).

(** A directory, the number of clock readings so far, and the ids the
    callback [onOverwritten] was called with. *)
Record dstate (C : Type) := mkD { content : C; ticks : nat; overwritten : list bytes }.
Arguments mkD {C} _ _ _.
Arguments content {C} _.
Arguments ticks {C} _.
Arguments overwritten {C} _.

Definition lstate : Type := dstate (list DirEntry.t).
Definition mstate : Type := dstate (gmap bytes DirEntry.t).

Section run.
Context (clock : nat → timespec) (startpos : Z → nat → nat).

Definition d_now {C} : M (dstate C) timespec :=
  λ s, (Ok (clock (ticks s)), mkD (content s) (S (ticks s)) (overwritten s)).
Definition d_overwritten {C} (id : bytes) : M (dstate C) unit :=
  modify (λ s, mkD (content s) (ticks s) (overwritten s ++ [id])).
Definition d_set {C} (c : C) (s : dstate C) : dstate C := mkD c (ticks s) (overwritten s).

(** The calls of [DirEntryList]. *)
Definition run_dir_op (o : dir_op) : M (dstate (list DirEntry.t)) dir_res :=
  match o with
  | OpAdd name id ty mode uid gid a mt => add startpos content d_set d_now name id ty mode uid gid a mt ;; mret RUnit
  | OpAddOrOverwrite name id ty mode uid gid a mt =>
      addOrOverwrite startpos content d_set d_now name id ty mode uid gid a mt d_overwritten ;; mret RUnit
  | OpRename id name => rename startpos content d_set d_now id name d_overwritten ;; mret RUnit
  | OpGetByName name => e ← get_by_name content name ; mret (REntry e)
  | OpGetById id => e ← get_by_id startpos content id ; mret (REntry e)
  | OpRemoveByName name => remove_by_name content d_set name ;; mret RUnit
  | OpRemoveById id => remove_by_id startpos content d_set id ;; mret RUnit
  | OpSize => n ← DirEntryList.size content ; mret (RSize n)
  | OpSetMode id mode => DirEntryList.setMode startpos content d_set d_now id mode ;; mret RUnit
  | OpSetUidGid id uid gid => b ← setUidGid startpos content d_set d_now id uid gid ; mret (RBool b)
  | OpSetAccessTimes id a mt => setAccessTimes startpos content d_set d_now id a mt ;; mret RUnit
  | OpUpdateAccess id behavior => b ← updateAccessTimestampForChild startpos content d_set d_now id behavior ; mret (RBool b)
  | OpUpdateModification id => updateModificationTimestampForChild startpos content d_set d_now id ;; mret RUnit
  end.

(** The same calls on a finite map from ids to entries. *)
Definition m_put (id : bytes) (e : DirEntry.t) : M mstate unit := modify (λ s, d_set (<[id := e]> (content s)) s).
Definition m_erase (id : bytes) : M mstate unit := modify (λ s, d_set (delete id (content s)) s).
Definition m_find (id : bytes) : M mstate DirEntry.t :=
  s ← get_state ;
  match content s !! id with None => mthrow (FuseErrno ENOENT) | Some e => mret e end.
Definition m_by_name (name : bytes) : M mstate (option DirEntry.t) := s ← get_state ; mret (find_name name (content s)).
Definition m_new (name id : bytes) (ty : EntryType) (mode uid gid : Z) (a mt : timespec) : M mstate unit :=
  t ← d_now ;
  e ← lift (DirEntry.new (Some ty) name id mode uid gid a mt t) ;
  m_put id e.

Definition m_add (name id : bytes) (ty : EntryType) (mode uid gid : Z) (a mt : timespec) : M mstate unit :=
  same ← m_by_name name ;
  match same with
  | Some _ => mthrow (FuseErrno EEXIST)
  | None => m_new name id ty mode uid gid a mt
  end.

Definition m_addOrOverwrite (name id : bytes) (ty : EntryType) (mode uid gid : Z) (a mt : timespec) : M mstate unit :=
  same ← m_by_name name ;
  match same with
  | Some e =>
      d_overwritten (_blockId e) ;;
      _checkAllowedOverwrite (_type e) ty ;;
      m_erase (_blockId e) ;;
      m_new name id ty mode uid gid a mt
  | None => m_new name id ty mode uid gid a mt
  end.

Definition m_rename (id name : bytes) : M mstate unit :=
  same ← m_by_name name ;
  match same with
  | Some e =>
      if decide (_blockId e ≠ id) then
        e' ← m_find id ;
        _checkAllowedOverwrite (_type e) (_type e') ;;
        d_overwritten (_blockId e) ;;
        m_erase (_blockId e)
      else mret tt
  | None => mret tt
  end ;;
  e ← m_find id ;
  t ← d_now ;
  m_put id (setName name t e).

Definition m_remove (name : bytes) : M mstate unit :=
  same ← m_by_name name ;
  match same with None => mthrow (FuseErrno ENOENT) | Some e => m_erase (_blockId e) end.

Definition map_dir_op (o : dir_op) : M mstate dir_res :=
  match o with
  | OpAdd name id ty mode uid gid a mt => m_add name id ty mode uid gid a mt ;; mret RUnit
  | OpAddOrOverwrite name id ty mode uid gid a mt => m_addOrOverwrite name id ty mode uid gid a mt ;; mret RUnit
  | OpRename id name => m_rename id name ;; mret RUnit
  | OpGetByName name => e ← m_by_name name ; mret (REntry e)
  | OpGetById id => s ← get_state ; mret (REntry (content s !! id))
  | OpRemoveByName name => m_remove name ;; mret RUnit
  | OpRemoveById id => m_erase id ;; mret RUnit
  | OpSize => s ← get_state ; mret (RSize (base.size (content s)))
  | OpSetMode id mode =>
      e ← m_find id ;
      ASSERT (mode_t.hasFileFlag mode && mode_t.hasFileFlag (_mode e) ||
              mode_t.hasDirFlag mode && mode_t.hasDirFlag (_mode e) || mode_t.hasSymlinkFlag mode) "Unknown mode in entry" ;;
      t ← d_now ;
      m_put id (DirEntry.setMode mode t e) ;;
      mret RUnit
  | OpSetUidGid id uid gid =>
      e ← m_find id ;
      e' ← (if decide (uid ≠ u32 (-1)) then t ← d_now ; m_put id (setUid uid t e) ;; mret (setUid uid t e) else mret e) ;
      (if decide (gid ≠ u32 (-1)) then t ← d_now ; m_put id (setGid gid t e') else mret tt) ;;
      mret (RBool (bool_decide (uid ≠ u32 (-1)) || bool_decide (gid ≠ u32 (-1))))
  | OpSetAccessTimes id a mt =>
      e ← m_find id ;
      m_put id (setLastAccessTime a e) ;;
      t ← d_now ;
      m_put id (setLastModificationTime mt t (setLastAccessTime a e)) ;;
      mret RUnit
  | OpUpdateAccess id behavior =>
      e ← m_find id ;
      t ← d_now ;
      let should := match _type e with
                    | DIR => shouldUpdateATimeOnDirectoryRead behavior (_lastAccessTime e) (_lastModificationTime e) t
                    | _ => shouldUpdateATimeOnFileRead behavior (_lastAccessTime e) (_lastModificationTime e) t
                    end in
      if (should : bool) then m_put id (setLastAccessTime t e) ;; mret (RBool true) else mret (RBool false)
  | OpUpdateModification id =>
      e ← m_find id ;
      t ← d_now ;
      t' ← d_now ;
      m_put id (setLastModificationTime t t' e) ;;
      mret RUnit
  end.

(** Run a list of calls; a call that throws does not end the sequence. *)
Fixpoint run_all {S} (step : dir_op → M S dir_res) (os : list dir_op) (s : S) : list (result dir_res) * S :=
  match os with
  | [] => ([], s)
  | o :: os' => let '(r, s') := step o s in let '(rs, s'') := run_all step os' s' in (r :: rs, s'')
  end.

(** New entries come with ids that the directory does not have yet. *)
Definition dir_op_ok (o : dir_op) (m : gmap bytes DirEntry.t) : bool :=
  match o with
  | OpAdd _ id _ _ _ _ _ _ | OpAddOrOverwrite _ id _ _ _ _ _ _ => bool_decide (m !! id = None)
  | _ => true
  end.
Fixpoint dir_ops_ok (os : list dir_op) (s : mstate) : bool :=
  match os with
  | [] => true
  | o :: os' => dir_op_ok o (content s) && dir_ops_ok os' (map_dir_op o s).2
  end.
End run.

(** ** The simulation *)
Section simulation.
Context (clock : nat → timespec) (startpos : Z → nat → nat).
Context (startpos_ok : ∀ b n, 0 ≤ b < 256 → (0 < n)%nat → (startpos b n < n)%nat).
Abbreviation NOW := (d_now clock).

Definition R (s : lstate) (s' : mstate) : Prop :=
  dir_ok (content s) ∧ contents (content s) = content s' ∧ ticks s = ticks s' ∧ overwritten s = overwritten s'.

Definition sim {A B} (Q : A → B → lstate → mstate → Prop) (m : M lstate A) (m' : M mstate B) s s' : Prop :=
  match m s, m' s' with
  | (Ok a, t), (Ok b, t') => R t t' ∧ Q a b t t'
  | (Throw e, t), (Throw e', t') => e = e' ∧ R t t'
  | _, _ => False
  end.
Abbreviation same := (λ a b _ _, a = b).

Lemma sim_bind {A B A' B' : Type} (Q : A → B → lstate → mstate → Prop) (Q' : A' → B' → lstate → mstate → Prop) (m : M lstate A) (m' : M mstate B) k k' (s : lstate) (s' : mstate) :
  sim Q m m' s s' → (∀ a b t t', R t t' → Q a b t t' → sim Q' (k a) (k' b) t t') → sim Q' (m ≫= k) (m' ≫= k') s s'.
Proof.
  unfold sim, mbind, M_bind. intros H Hk. destruct (m s) as [[a|e] t], (m' s') as [[b|e'] t']; try done.
  destruct H as [HR HQ]. by apply Hk.
Qed.

Lemma sim_weaken {A B : Type} (Q Q' : A → B → lstate → mstate → Prop) m m' s s' :
  sim Q m m' s s' → (∀ a b t t', R t t' → Q a b t t' → Q' a b t t') → sim Q' m m' s s'.
Proof. unfold sim. intros H HQ. destruct (m s) as [[a|] t], (m' s') as [[b|] t']; try done. destruct H. auto. Qed.

Lemma sim_ret {A B} (Q : A → B → lstate → mstate → Prop) a b s s' : R s s' → Q a b s s' → sim Q (mret a) (mret b) s s'.
Proof. by split. Qed.
Lemma sim_throw {A B} (Q : A → B → lstate → mstate → Prop) (e : exn) s s' : R s s' → sim Q (mthrow e) (mthrow e) s s'.
Proof. by split. Qed.

Lemma sim_now s s' : R s s' → sim (λ a b t t', a = b ∧ content t = content s ∧ content t' = content s') NOW NOW s s'.
Proof. intros (Hl & Hc & Ht & Ho). unfold sim, d_now. rewrite Ht. split; [|done]. done. Qed.

Lemma sim_overwritten id s s' : R s s' →
  sim (λ _ _ t t', content t = content s ∧ content t' = content s') (d_overwritten id) (d_overwritten id) s s'.
Proof. intros (Hl & Hc & Ht & Ho). unfold sim, d_overwritten. split; [|done]. unfold R. simpl. by rewrite Ho. Qed.

Lemma sim_check a b s s' : R s s' →
  sim (λ _ _ t t', t = s ∧ t' = s') (_checkAllowedOverwrite a b) (_checkAllowedOverwrite a b) s s'.
Proof. intros H. unfold _checkAllowedOverwrite. repeat case_decide; by split. Qed.

Lemma R_dir s s' : R s s' → is_dir content (λ _, True) s (content s').
Proof. intros (Hl & Hc & _). done. Qed.
Hint Resolve R_dir : core.

Lemma R_changed s t s' m : R s s' → dir_changed content d_set (λ _, True) s t m → R t (d_set m s').
Proof. intros (_ & _ & Ht & Ho) (l & -> & _ & Hl & <-). done. Qed.

Lemma sim_find id s s' : R s s' →
  sim (λ found e t t', t = s ∧ t' = s' ∧ content s' !! id = Some e ∧ found = (find_if (has_id id) (content s), e))
    (find_or_enoent startpos content id) (m_find id) s s'.
Proof using startpos_ok.
  intros HR. unfold sim. rewrite (find_or_enoent_spec _ _ startpos_ok _ _ _ _ (R_dir _ _ HR)).
  unfold m_find, get_state, mbind, M_bind. csimp. by destruct (content s' !! id).
Qed.

Lemma sim_put f id e i s s' : R s s' → content s' !! id = Some e → i = find_if (has_id id) (content s) →
  _blockId (f e) = _blockId e → (_name (f e) = _name e ∨ find_name (_name (f e)) (content s') = None) →
  sim (λ _ _ t t', content t = alter f i (content s) ∧ content t' = <[id := f e]> (content s'))
    (update content d_set (alter f i)) (m_put id (f e)) s s'.
Proof.
  intros HR He -> Hid Hn.
  destruct (update_spec content d_set (λ _, True) ltac:(done) ltac:(done) f id s (content s') e) as (t & E & Hc); try done; [by apply R_dir|].
  unfold sim. rewrite E. split; [by apply R_changed with s|]. unfold update, modify in E. by injection E as <-.
Qed.

Lemma sim_by_name {A B} (Q : A → B → lstate → mstate → Prop) name k k' s s' : R s s' →
  (∀ l, l = content s → l !! find_if (named name) l = find_name name (content s') →
     sim Q (k l) (k' (find_name name (content s'))) s s') →
  sim Q (entries content ≫= k) (m_by_name name ≫= k') s s'.
Proof.
  intros HR H. unfold sim, entries, m_by_name, get_state, mbind, M_bind. csimp. apply H; [done|].
  destruct HR as (Hl & Hc & _). by rewrite <- Hc, lookup_find_name.
Qed.

Lemma sim_new name id ty mode uid gid a mt s s' : R s s' → content s' !! id = None → find_name name (content s') = None →
  sim (λ _ _ _ _, True) (_add startpos content d_set NOW name id ty mode uid gid a mt) (m_new clock name id ty mode uid gid a mt) s s'.
Proof using startpos_ok.
  intros HR Hid Hn.
  destruct (add_entry_spec content d_set NOW startpos startpos_ok (λ _, True) ltac:(done) ltac:(done)
    ltac:(intros s0 _; eexists _, _; split; [done|done]) name id ty mode uid gid a mt s (content s') (R_dir _ _ HR) Hid Hn)
    as (t & s1 & E & Hd & H).
  pose proof (sim_now s s' HR) as Hnow. unfold sim in Hnow. rewrite E in Hnow.
  destruct (NOW s') as [[t'|] s1'] eqn:E'; [|done]. destruct Hnow as (HR1 & -> & _ & Hc').
  unfold sim, m_new. rewrite (bind_ok _ _ _ _ _ E'). unfold lift, mbind, M_bind.
  destruct (DirEntry.new (Some ty) _ _ _ _ _ _ _ t') as [e|x].
  - destruct H as (s2 & -> & Hch). csimp. split; [|done]. rewrite Hc'. by apply R_changed with s1.
  - rewrite H. done.
Qed.

Lemma sim_erase name e i s s' : R s s' → find_name name (content s') = Some e → i = find_if (named name) (content s) →
  sim (λ _ _ _ t', content t' = delete (_blockId e) (content s')) (update content d_set (delete i)) (m_erase (_blockId e)) s s'.
Proof.
  intros HR He ->. pose proof HR as (Hl & Hc & _). rewrite <- Hc, <- lookup_find_name in He by done.
  destruct (delete_ok _ _ _ Hl He) as [H1 H2]. split; [|done].
  apply R_changed with s; [done|]. apply dir_changed_intro; try done. by rewrite <- Hc.
Qed.

Lemma erase_find_name (name : bytes) (m : gmap bytes DirEntry.t) (e : DirEntry.t) :
  (∀ id x, m !! id = Some x → _blockId x = id) →
  (∀ id id' x x', m !! id = Some x → m !! id' = Some x' → _name x = _name x' → id = id') →
  find_name name m = Some e → find_name name (delete (_blockId e) m) = None.
Proof.
  intros Hid Hinj (Hn & id & He)%find_name_Some. destruct (find_name name (delete _ m)) as [x|] eqn:E; [|done]. exfalso.
  apply find_name_Some in E as (Hx & id' & [Hne Hx']%lookup_delete_Some). apply Hne.
  rewrite (Hid _ _ He). apply (Hinj _ _ e x); [done|done|congruence].
Qed.

Lemma R_ids s s' : R s s' → ∀ id x, content s' !! id = Some x → _blockId x = id.
Proof. intros ([Hs _] & <- & _) id x [_ H]%lookup_contents; done. Qed.
Lemma R_names s s' : R s s' → ∀ id id' x x', content s' !! id = Some x → content s' !! id' = Some x' → _name x = _name x' → id = id'.
Proof.
  intros ([Hs Hn] & <- & _) id id' x x' [H1 <-]%lookup_contents [H2 <-]%lookup_contents Hx; [|done..].
  f_equal. by apply (names_inj (content s)).
Qed.

(** *** One call *)
Lemma find_if_ids id l k : _blockId <$> l = _blockId <$> k → find_if (has_id id) l = find_if (has_id id) k.
Proof.
  revert k. induction l as [|x l IH]; intros [|y k] H; simplify_list_eq; [done|]. simpl.
  match goal with H : _blockId x = _blockId y |- _ => rewrite H end. case_bool_decide; [done|]. f_equal. auto.
Qed.

Abbreviation any := (λ _ _ _ _, True).

Lemma sim_unit (m : M lstate unit) (m' : M mstate unit) s s' : sim any m m' s s' →
  sim same (m ;; mret RUnit) (m' ;; mret RUnit) s s'.
Proof. intros H. apply (sim_bind any); [done|]. intros _ _ t t' HR _. by apply sim_ret. Qed.

Lemma sim_assoc_l {A B C D : Type} (Q : D → C → lstate → mstate → Prop) (m : M lstate A) (k : A → M lstate B) (h : B → M lstate D)
    (m' : M mstate C) (s : lstate) (s' : mstate) :
  sim Q (m ≫= λ x, k x ≫= h) m' s s' → sim Q ((m ≫= k) ≫= h) m' s s'.
Proof. unfold sim. by rewrite bind_assoc. Qed.
Lemma sim_ret_l {A B C : Type} (Q : B → C → lstate → mstate → Prop) a (k : A → M lstate B) (m' : M mstate C) (s : lstate) (s' : mstate) :
  sim Q (k a) m' s s' → sim Q (mret a ≫= k) m' s s'.
Proof. done. Qed.
Lemma sim_ret_r {A B : Type} (Q : A → B → lstate → mstate → Prop) (m : M lstate A) (m' : M mstate unit) (b : B) (s : lstate) (s' : mstate) :
  sim (λ a _ t t', Q a b t t') m m' s s' → sim Q m (m' ;; mret b) s s'.
Proof. unfold sim, mbind, M_bind. by destruct (m s) as [[] ?], (m' s') as [[] ?]. Qed.
Lemma sim_entries_l {B C : Type} (Q : B → C → lstate → mstate → Prop) (k : list DirEntry.t → M lstate B) (m' : M mstate C) (s : lstate) (s' : mstate) :
  sim Q (k (content s)) m' s s' → sim Q (entries content ≫= k) m' s s'.
Proof. done. Qed.

Lemma sim_add name id ty mode uid gid a mt s s' : R s s' → content s' !! id = None →
  sim any (add startpos content d_set NOW name id ty mode uid gid a mt) (m_add clock name id ty mode uid gid a mt) s s'.
Proof using startpos_ok.
  intros HR Hid. unfold add, _hasChild. apply sim_assoc_l, sim_by_name; [done|]. intros l -> E. apply sim_ret_l. unfold _findByName.
  destruct (find_name name (content s')) as [e|] eqn:En.
  - rewrite bool_decide_true; [by apply sim_throw|]. apply lookup_lt_Some in E. lia.
  - rewrite bool_decide_false; [by apply sim_new|]. intros H. apply H. by apply find_if_end.
Qed.

Lemma sim_addOrOverwrite name id ty mode uid gid a mt s s' : R s s' → content s' !! id = None →
  sim any (addOrOverwrite startpos content d_set NOW name id ty mode uid gid a mt d_overwritten)
    (m_addOrOverwrite clock name id ty mode uid gid a mt) s s'.
Proof using startpos_ok.
  intros HR Hid. apply sim_by_name; [done|]. intros l -> E. cbv zeta. unfold _findByName. rewrite E.
  destruct (find_name name (content s')) as [e|] eqn:En; [|by apply sim_new].
  apply (sim_bind _ _ _ _ _ _ _ _ (sim_overwritten (_blockId e) s s' HR)). intros _ _ t t' HR1 [Hc Hc'].
  apply sim_entries_l. rewrite Hc, E.
  apply (sim_bind _ _ _ _ _ _ _ _ (sim_check _ _ _ _ HR1)). intros _ _ ? ? HR2 [-> ->].
  apply (sim_bind _ _ _ _ _ _ _ _ (sim_erase name e (find_if (named name) (content s)) _ _ HR2 ltac:(by rewrite Hc') ltac:(by rewrite Hc))).
  intros _ _ u u' HR3 Hu. apply sim_new; [done|..]; rewrite Hu, Hc'.
  - apply lookup_delete_None. by right.
  - apply erase_find_name; [by apply R_ids with s|by apply R_names with s|done].
Qed.

Lemma sim_rename id name s s' : R s s' →
  sim any (rename startpos content d_set NOW id name d_overwritten) (m_rename clock id name) s s'.
Proof using startpos_ok.
  intros HR. apply sim_by_name; [done|]. intros l -> E. cbv zeta. unfold _findByName. rewrite E.
  apply (sim_bind (λ _ _ _ t', ∀ x, content t' !! id = Some x → find_name name (content t') = None ∨ _name x = name)).
  - destruct (find_name name (content s')) as [e|] eqn:En; [|apply sim_ret; [done|intros x _; by left]]. case_decide as Hne.
    + apply (sim_bind _ _ _ _ _ _ _ _ (sim_find id s s' HR)). intros _ e' ? ? HR1 (-> & -> & He' & ->). cbn [snd].
      apply (sim_bind _ _ _ _ _ _ _ _ (sim_check _ _ _ _ HR1)). intros _ _ ? ? HR2 [-> ->].
      apply (sim_bind _ _ _ _ _ _ _ _ (sim_overwritten (_blockId e) s s' HR2)). intros _ _ t t' HR3 [Hc Hc'].
      apply (sim_weaken _ _ _ _ _ _ (sim_erase name e (find_if (named name) (content s)) t t' HR3 ltac:(by rewrite Hc') ltac:(by rewrite Hc))).
      intros _ _ u u' _ Hd x _. left. rewrite Hd, Hc'.
      apply erase_find_name; [by apply R_ids with s|by apply R_names with s|done].
    + apply sim_ret; [done|]. intros x Hx. right. apply find_name_Some in En as [Hn (id' & He)].
      assert (id' = id) as -> by by rewrite <- (R_ids _ _ HR _ _ He). congruence.
  - intros _ _ t t' HR1 Hx. apply (sim_bind _ _ _ _ _ _ _ _ (sim_find id t t' HR1)).
    intros _ x ? ? HR2 (-> & -> & He & ->). apply (sim_bind _ _ _ _ _ _ _ _ (sim_now t t' HR2)).
    intros tm ? u u' HR3 (<- & Hu & Hu'). cbn [fst].
    apply (sim_weaken _ any _ _ _ _ (sim_put (setName name tm) id x _ u u' HR3 ltac:(by rewrite Hu') ltac:(by rewrite Hu) eq_refl
      ltac:(rewrite Hu'; destruct (Hx x He); [by right|by left]))). done.
Qed.

(** A change of the entry with an id that keeps its name. *)
Lemma sim_put_index f id e i s s' :
  R s s' → content s' !! id = Some e → i = find_if (has_id id) (content s) → _blockId (f e) = _blockId e → _name (f e) = _name e →
  sim (λ _ _ t t', content t' !! id = Some (f e) ∧ i = find_if (has_id id) (content t))
    (update content d_set (alter f i)) (m_put id (f e)) s s'.
Proof.
  intros HR He -> Hid Hn. eapply sim_weaken; [apply (sim_put f id e _ s s' HR He eq_refl Hid (or_introl Hn))|].
  intros _ _ t t' HRt [Hc Hc']. split; [by rewrite Hc', lookup_insert_eq|].
  destruct HR as ([Hs _] & Hce & _). pose proof (lookup_find_id (content s) id Hs) as Hl. rewrite Hce, He in Hl.
  rewrite Hc. apply find_if_ids. rewrite (alter_insert f _ _ e Hl), list_fmap_insert, Hid, list_insert_id; [done|].
  by rewrite list_lookup_fmap, Hl.
Qed.

Lemma sim_change {A B : Type} (Q : A → B → lstate → mstate → Prop) f id e i k k' s s' :
  R s s' → content s' !! id = Some e → i = find_if (has_id id) (content s) → _blockId (f e) = _blockId e → _name (f e) = _name e →
  (∀ t t', R t t' → content t' !! id = Some (f e) → i = find_if (has_id id) (content t) → sim Q k k' t t') →
  sim Q (update content d_set (alter f i) ;; k) (m_put id (f e) ;; k') s s'.
Proof. intros HR He Hi Hid Hn Hk. eapply sim_bind; [by apply (sim_put_index f id e)|]. intros _ _ t t' HRt []. by apply Hk. Qed.

Lemma sim_step o s s' : R s s' → dir_op_ok o (content s') = true →
  sim same (run_dir_op clock startpos o) (map_dir_op clock o) s s'.
Proof using startpos_ok.
  intros HR Hok. destruct o; cbn [dir_op_ok] in Hok; rewrite ?bool_decide_eq_true in Hok; cbn [run_dir_op map_dir_op].
  - by apply sim_unit, sim_add.
  - by apply sim_unit, sim_addOrOverwrite.
  - by apply sim_unit, sim_rename.
  - unfold sim. rewrite (bind_ok _ _ _ _ _ (get_by_name_spec content (λ _, True) name _ _ (R_dir _ _ HR))). done.
  - unfold sim. rewrite (bind_ok _ _ _ _ _ (get_by_id_spec content startpos startpos_ok (λ _, True) id _ _ (R_dir _ _ HR))). done.
  - apply sim_unit, sim_by_name; [done|]. intros l -> E. cbv zeta. unfold _findByName. rewrite E.
    destruct (find_name name (content s')) as [e|] eqn:En; [|by apply sim_throw].
    apply (sim_weaken _ any _ _ _ _ (sim_erase name e _ _ _ HR En eq_refl)). done.
  - apply sim_unit. destruct (remove_by_id_spec content d_set startpos startpos_ok (λ _, True) ltac:(done) ltac:(done) id _ _ (R_dir _ _ HR)) as (t & E & H).
    unfold sim. rewrite E. split; [by apply R_changed with s|done].
  - unfold sim. rewrite (bind_ok _ _ _ _ _ (size_spec content (λ _, True) _ _ (R_dir _ _ HR))). done.
  - apply sim_assoc_l. apply (sim_bind _ _ _ _ _ _ _ _ (sim_find id s s' HR)). intros _ e ? ? HR1 (-> & -> & He & ->). cbn [fst snd].
    apply sim_assoc_l. destruct (_ || _); [|by apply sim_throw]. apply sim_assoc_l.
    apply (sim_bind _ _ _ _ _ _ _ _ (sim_now s s' HR1)). intros tm ? t t' HR2 (<- & Hc & Hc').
    by apply sim_change; rewrite ?Hc, ?Hc'.
  - apply sim_assoc_l. apply (sim_bind _ _ _ _ _ _ _ _ (sim_find id s s' HR)). intros _ e ? ? HR1 (-> & -> & He & ->). cbn [fst].
    apply sim_assoc_l.
    apply (sim_bind (λ _ e' t t', content t' !! id = Some e' ∧ find_if (has_id id) (content s) = find_if (has_id id) (content t))).
    { case_decide; [|by apply sim_ret]. apply (sim_bind _ _ _ _ _ _ _ _ (sim_now s s' HR1)). intros tm ? t t' HR2 (<- & Hc & Hc').
      apply sim_ret_r. apply (sim_put_index (setUid uid tm)); rewrite ?Hc, ?Hc'; done. }
    intros _ e' t t' HRt [He' Hi]. apply sim_assoc_l. apply (sim_bind any); [|intros; by apply sim_ret].
    case_decide; [|by apply sim_ret]. apply (sim_bind _ _ _ _ _ _ _ _ (sim_now t t' HRt)). intros tm ? u u' HR2 (<- & Hc & Hc').
    eapply sim_weaken; [apply (sim_put_index (setGid gid tm) id e')|]; rewrite ?Hc, ?Hc'; done.
  - apply sim_assoc_l. apply (sim_bind _ _ _ _ _ _ _ _ (sim_find id s s' HR)). intros _ e ? ? HR1 (-> & -> & He & ->). cbn [fst].
    apply sim_assoc_l, sim_change; try done. intros t t' HRt Ht Hi. apply sim_assoc_l.
    apply (sim_bind _ _ _ _ _ _ _ _ (sim_now t t' HRt)). intros tm ? u u' HR2 (<- & Hc & Hc').
    by apply sim_change; rewrite ?Hc, ?Hc'.
  - apply sim_assoc_l. apply (sim_bind _ _ _ _ _ _ _ _ (sim_find id s s' HR)). intros _ e ? ? HR1 (-> & -> & He & ->). cbn [fst snd].
    apply sim_assoc_l. apply (sim_bind _ _ _ _ _ _ _ _ (sim_now s s' HR1)). intros tm ? t t' HR2 (<- & Hc & Hc').
    destruct (_type e); (match goal with |- context [if ?b then _ else _] => destruct b end; [|by apply sim_ret]);
      apply sim_assoc_l; apply sim_change; rewrite ?Hc, ?Hc'; try done; intros; by apply sim_ret.
  - apply sim_assoc_l. apply (sim_bind _ _ _ _ _ _ _ _ (sim_find id s s' HR)). intros _ e ? ? HR1 (-> & -> & He & ->). cbn [fst].
    apply sim_assoc_l. apply (sim_bind _ _ _ _ _ _ _ _ (sim_now s s' HR1)). intros tm ? t t' HR2 (<- & Hc & Hc').
    apply sim_assoc_l. apply (sim_bind _ _ _ _ _ _ _ _ (sim_now t t' HR2)). intros tm' ? u u' HR3 (<- & Hc3 & Hc3').
    by apply sim_change; rewrite ?Hc3, ?Hc3', ?Hc, ?Hc'.
Qed.
End simulation.

(** C18. A directory is a map. Whatever calls are made on an empty directory
    (adding, overwriting, renaming, looking up and removing entries by name
    or id, changing modes, owners and times), as long as new entries bring
    ids that the directory does not have, every call returns or throws what
    the same call does on a finite map from ids to entries, calls
    [onOverwritten] with the same ids and reads the clock as often; the
    vector stays ordered by id and names stay unique. The position where the
    floating point hint starts the search does not matter. *)
Theorem directory_refines_map (clock : nat → timespec) (startpos : Z → nat → nat) (os : list dir_op) :
  (∀ b n, 0 ≤ b < 256 → (0 < n)%nat → (startpos b n < n)%nat) →
  dir_ops_ok clock os (mkD ∅ 0 []) = true →
  let '(rs, s) := run_all (run_dir_op clock startpos) os (mkD [] 0 []) in
  let '(rs', s') := run_all (map_dir_op clock) os (mkD ∅ 0 []) in
  rs = rs' ∧ R s s'.
Proof.
  intros Hpos Hok.
  assert (∀ s s', R s s' → dir_ops_ok clock os s' = true →
    let '(rs, t) := run_all (run_dir_op clock startpos) os s in
    let '(rs', t') := run_all (map_dir_op clock) os s' in rs = rs' ∧ R t t') as H;
    [|apply H; [|done]; repeat split; constructor].
  clear Hok. induction os as [|o os IH]; intros s s' HR Hok; [done|]. cbn [run_all].
  simpl in Hok. apply andb_true_iff in Hok as [Ho Hos].
  pose proof (sim_step clock startpos Hpos o s s' HR Ho) as H. unfold sim in H.
  destruct (run_dir_op clock startpos o s) as [r t], (map_dir_op clock o s') as [r' t']. simpl in Hos.
  assert (r = r' ∧ R t t') as [-> HR'] by (destruct r, r'; destruct H; by subst).
  specialize (IH t t' HR' Hos). destruct (run_all (run_dir_op clock startpos) os t), (run_all (map_dir_op clock) os t').
  destruct IH as [-> HR'']. done.
Qed.

(** The exact value of the scaled position. *)
Definition exact_startpos (b : Z) (n : nat) : nat := Z.to_nat (b * (Z.of_nat n - 1) / 255).

Lemma exact_startpos_ok b n : 0 ≤ b < 256 → (0 < n)%nat → (exact_startpos b n < n)%nat.
Proof.
  intros Hb Hn. unfold exact_startpos. assert (b * (Z.of_nat n - 1) / 255 ≤ Z.of_nat n - 1) as H; [|revert H; generalize (b * (Z.of_nat n - 1) / 255); lia].
  apply Z.div_le_upper_bound; [lia|]. apply Z.mul_le_mono_nonneg_r; lia.
Qed.

Definition some_clock (n : nat) : timespec := mkTime (Z.of_nat n) 0.
Definition some_id (b : byte) : bytes := b :: replicate 15 x00.
Definition some_ops : list dir_op :=
  [OpAdd [x61] (some_id x05) FILE 0x1A4 0 0 (mkTime 1 1) (mkTime 2 2);
   OpAdd [x62] (some_id x03) DIR 0x1ED 0 0 (mkTime 1 1) (mkTime 2 2);
   OpAdd [x61] (some_id xff) FILE 0 0 0 (mkTime 1 1) (mkTime 2 2);
   OpRename (some_id x05) [x62];
   OpAddOrOverwrite [x61] (some_id x04) FILE 0x1A4 7 7 (mkTime 1 1) (mkTime 2 2);
   OpSetUidGid (some_id x04) 5 (2 ^ 32 - 1); OpGetByName [x61]; OpRemoveById (some_id x04); OpSize].

Lemma directory_refines_map_witness :
  let '(rs, s) := run_all (run_dir_op some_clock exact_startpos) some_ops (mkD [] 0 []) in
  let '(rs', s') := run_all (map_dir_op some_clock) some_ops (mkD ∅ 0 []) in
  rs = rs' ∧ R s s'.
Proof. apply (directory_refines_map some_clock exact_startpos some_ops); [exact exact_startpos_ok|by vm_compute]. Defined.

(** ** The byte format *)
Lemma serializedSize_sum l : Z.of_nat (length (concat (entry_bytes <$> l))) < 2 ^ 63 → Forall wf l →
  _serializedSize l = Z.of_nat (length (concat (entry_bytes <$> l))).
Proof.
  intros Hlt Hwf. unfold _serializedSize.
  assert (∀ acc, 0 ≤ acc → acc + Z.of_nat (length (concat (entry_bytes <$> l))) < 2 ^ 63 →
    foldl (λ size e, u64 (size + Z.of_nat (serializedSize e))) acc l = acc + Z.of_nat (length (concat (entry_bytes <$> l)))) as H;
    [|rewrite H; lia].
  clear Hlt. induction Hwf as [|e l He Hwf IH]; intros acc H0 H1; [simpl in *; lia|]. rewrite fmap_cons in H1 |- *. cbn [concat foldl] in H1 |- *.
  rewrite length_app in H1 |- *. pose proof (length_entry_bytes e ltac:(by apply He)) as Hlen.
  rewrite u64_small by lia. rewrite IH; lia.
Qed.

(** The size of the list on disk. *)
Definition entries_size (l : list DirEntry.t) : nat := sum_list (serializedSize <$> l).
Lemma length_entries l : Forall wf l → length (concat (entry_bytes <$> l)) = entries_size l.
Proof.
  induction 1 as [|e l He Hl IH]; [done|]. rewrite !fmap_cons. cbn [concat sum_list foldr]. by rewrite length_app, IH, length_entry_bytes by apply He.
Qed.

Lemma serialize_loop_ok prev l done rest :
  match prev with None => sorted l | Some p => sorted (p :: l) end → Forall wf l →
  length rest = length (concat (entry_bytes <$> l)) → Z.of_nat (length done) + Z.of_nat (length rest) < 2 ^ 32 →
  serialize_loop prev l (Z.of_nat (length done)) (done ++ rest) = Ok (done ++ concat (entry_bytes <$> l)).
Proof.
  intros Hs Hwf. revert prev done rest Hs. induction Hwf as [|e l He Hwf IH]; intros prev done rest Hs Hlen Hlt.
  - by destruct rest.
  - rewrite fmap_cons in Hlen |- *. cbn [concat serialize_loop] in Hlen |- *. rewrite length_app in Hlen. pose proof (length_entry_bytes e ltac:(by apply He)) as Hle.
    assert ((match prev with None => true | Some p => BlockId.less (_blockId p) (_blockId e) end) = true) as ->.
    { destruct prev as [p|]; [|done]. apply StronglySorted_inv in Hs as [_ Hs]. by apply Forall_cons in Hs as [Hs _]. }
    csimp. rewrite serialize_ok by apply He. csimp. rewrite Nat2Z.id, Data.memcpy_to_ok by (rewrite length_app; lia). csimp.
    assert (splice (length done) (entry_bytes e) (done ++ rest) = (done ++ entry_bytes e) ++ drop (length (entry_bytes e)) rest) as ->.
    { unfold splice. rewrite take_app_length, <- app_assoc. do 2 f_equal.
      rewrite drop_app. rewrite drop_ge by lia. simpl. f_equal. lia. }
    rewrite u32_small by lia.
    replace (Z.of_nat (length done) + Z.of_nat (serializedSize e)) with (Z.of_nat (length (done ++ entry_bytes e))) by (rewrite length_app; lia).
    rewrite IH; [by rewrite <- app_assoc|..].
    + destruct prev; [by apply StronglySorted_inv in Hs as [Hs _]|done].
    + rewrite length_drop. lia.
    + rewrite length_app, length_drop. lia.
Qed.

Lemma deserialize_loop_ok l before fuel :
  sorted (before ++ l) → Forall wf l → (length (concat (entry_bytes <$> l)) ≤ fuel)%nat →
  deserialize_loop fuel before (concat (entry_bytes <$> l)) = Ok (before ++ l).
Proof.
  intros Hs Hwf. revert before fuel Hs. induction Hwf as [|e l He Hwf IH]; intros before fuel Hs Hf.
  - simpl. rewrite app_nil_r. by destruct fuel.
  - rewrite fmap_cons in Hf |- *. cbn [concat] in Hf |- *. pose proof (length_entry_bytes e ltac:(by apply He)) as Hle. rewrite length_app in Hf. unfold serializedSize in Hle.
    destruct fuel as [|fuel]; [lia|]. cbn [deserialize_loop]. rewrite decide_False by (rewrite length_app; lia).
    rewrite deserialize_entry by done.
    assert ((match last before with None => true | Some p => BlockId.less (_blockId p) (_blockId e) end) = true) as ->.
    { destruct (last before) as [p|] eqn:Ep; [|done]. rewrite last_lookup in Ep. pose proof (lookup_lt_Some _ _ _ Ep) as Hlt.
      apply (sorted_lookup (before ++ e :: l) (pred (length before)) (length before)); [done|lia|..].
      - by apply lookup_app_l_Some.
      - rewrite lookup_app_r by done. by rewrite Nat.sub_diag. }
    csimp. rewrite IH; [by rewrite <- app_assoc|by rewrite <- app_assoc|lia].
Qed.

(** The bytes of a list of entries. *)
Lemma list_serialize_ok l (uninit : nat → bytes) :
  sorted l → Forall wf l → (∀ n, length (uninit n) = n) → Z.of_nat (length (concat (entry_bytes <$> l))) < 2 ^ 32 →
  DirEntryList.serialize uninit l = Ok (concat (entry_bytes <$> l)).
Proof.
  intros Hs Hwf Hu Hlt. pose proof (serializedSize_sum l ltac:(lia) Hwf) as E.
  unfold DirEntryList.serialize, Data.check_alloc. rewrite decide_True by lia. simpl.
  apply (serialize_loop_ok None l [] (uninit _)); try done; rewrite Hu, E; simpl; lia.
Qed.

Lemma list_deserialize_ok l : sorted l → Forall wf l → deserializeFrom (concat (entry_bytes <$> l)) = Ok l.
Proof. intros Hs Hwf. unfold deserializeFrom. by apply (deserialize_loop_ok l []). Qed.

(** C19. A directory survives being written and read. The bytes [serialize]
    writes for a list of well-formed entries ordered by id, of less
    than 4 GiB in total, are read back by
    [deserializeFrom] as the same list; neither call throws, whatever the
    fresh buffer held. *)
Theorem directory_roundtrip (l : list DirEntry.t) (uninit : nat → bytes) :
  sorted l → Forall wf l → (∀ n, length (uninit n) = n) → Z.of_nat (entries_size l) < 2 ^ 32 →
  ∃ data, DirEntryList.serialize uninit l = Ok data ∧ deserializeFrom data = Ok l.
Proof.
  intros Hs Hwf Hu Hlt. rewrite <- length_entries in Hlt by done. exists (concat (entry_bytes <$> l)).
  split; [by apply list_serialize_ok|by apply list_deserialize_ok].
Qed.

Definition some_entries : list DirEntry.t :=
  [mk DIR [x62] (some_id x03) 0x41ED 0 0 (mkTime 1 1) (mkTime (-5) 2) (mkTime 3 3);
   mk FILE [x61; x62] (some_id x05) 0x81A4 7 8 (mkTime 1 1) (mkTime 2 2) (mkTime 3 3)].

Lemma directory_roundtrip_witness :
  ∃ data, DirEntryList.serialize (λ n, replicate n xff) some_entries = Ok data ∧ deserializeFrom data = Ok some_entries.
Proof.
  apply (directory_roundtrip some_entries (λ n, replicate n xff)).
  - repeat constructor.
  - repeat constructor; unfold time_ok; simpl; try lia; try (vm_compute; done); apply (bool_decide_unpack _); by vm_compute.
  - intros n. apply length_replicate.
  - by vm_compute.
Defined.

(** ** Overwriting an entry of another type *)

(** [addOrOverwrite] tells the caller that the old entry was overwritten
    before it checks that the types allow it: when a directory entry is to be
    replaced by a file, [onOverwritten] has run (the file system removes the
    old blob in it) and the call then fails with EISDIR, the old entry still
    in place. *)
Theorem addOrOverwrite_reports_before_check clock startpos name id id' mode uid gid a mt e s s' :
  (∀ b n, 0 ≤ b < 256 → (0 < n)%nat → (startpos b n < n)%nat) →
  R s s' → find_name name (content s') = Some e → _type e = DIR → _blockId e = id' →
  ∃ t t', run_dir_op clock startpos (OpAddOrOverwrite name id FILE mode uid gid a mt) s = (Throw (FuseErrno EISDIR), t) ∧
    R t t' ∧ content t' = content s' ∧ overwritten t = overwritten s ++ [id'].
Proof.
  intros Hpos HR He Hty <-. pose proof HR as (Hl & Hc & Ht & Ho).
  exists (mkD (content s) (ticks s) (overwritten s ++ [_blockId e])), (mkD (content s') (ticks s') (overwritten s' ++ [_blockId e])).
  split_and!; try done; [|unfold R; simpl; by rewrite Ho].
  cbn [run_dir_op]. unfold addOrOverwrite. apply bind_throw. pose proof He as He'. rewrite <- Hc, <- lookup_find_name in He' by done.
  unfold entries, get_state, mbind, M_bind. csimp. unfold _findByName. rewrite He'. csimp.
  unfold d_overwritten, modify, _overwrite, entries, get_state, mbind, M_bind. csimp. cbn [content]. rewrite He'.
  unfold _checkAllowedOverwrite. rewrite Hty.
  rewrite decide_True by done. by rewrite decide_True by done.
Qed.

Lemma addOrOverwrite_reports_before_check_witness :
  ∃ t t', run_dir_op some_clock exact_startpos (OpAddOrOverwrite [x62] (some_id x09) FILE 0 0 0 (mkTime 1 1) (mkTime 2 2))
      (mkD some_entries 0 []) = (Throw (FuseErrno EISDIR), t) ∧
    R t t' ∧ content t' = contents some_entries ∧ overwritten t = [] ++ [some_id x03].
Proof.
  apply (addOrOverwrite_reports_before_check some_clock exact_startpos [x62] (some_id x09) (some_id x03) 0 0 0 (mkTime 1 1) (mkTime 2 2)
    (mk DIR [x62] (some_id x03) 0x41ED 0 0 (mkTime 1 1) (mkTime (-5) 2) (mkTime 3 3)) (mkD some_entries 0 []) (mkD (contents some_entries) 0 []));
    [exact exact_startpos_ok| |by vm_compute|done|done].
  split_and!; try done. split; [repeat constructor|]. apply (bool_decide_unpack _). by vm_compute.
Defined.

(** The assertion of [setMode] lets the mode of a symlink through for an
    entry of any type; the directory can then not be written any more: the
    assertion of [DirEntry::serialize] fails. *)
Theorem setMode_breaks_serialization uninit :
  let '(r, s) := run_dir_op some_clock exact_startpos (OpSetMode (some_id x05) 0xA1FF) (mkD some_entries 0 []) in
  (∃ data, DirEntryList.serialize (λ n, replicate n uninit) some_entries = Ok data) ∧
  r = Ok RUnit ∧
  DirEntryList.serialize (λ n, replicate n uninit) (content s) = Throw (AssertFailed "Wrong mode bit set for this type").
Proof. vm_compute. split; [by eexists|done]. Qed.
