(* ===== verification/FsBlobs.v ===== *)
(** * Blobs of the file system (cryfs/impl/filesystem/fsblobstore)

    [BlobStore] is the interface of blobstore/interface: blobs addressed by
    the id of their root block. A loaded [Blob] object is its id: all handles
    of one blob share one tree. On top of it: the view that puts a header
    with format version, type and parent pointer before the content
    ([FsBlobView]), the three kinds of file system blobs ([FileBlob],
    [DirBlob], [SymlinkBlob]) and the store that creates, loads, removes and
    migrates them ([FsBlobStore]). *)
From S2P Require Import Prelude Serialization DirEntry DirEntryList.
From Stdlib Require Import Lia ZArith.
#[local] Existing Instance DirEntry.t_eq_dec.

(** ** The interface below (blobstore/interface/Blob.h, BlobStore.h)

    [read] and [tryRead] return the bytes they put into the target buffer,
    [blob_release] is the destructor of a blob. *)
Class BlobStore (S : Type) := {
  blob_create : M S bytes;
  blob_load : bytes → M S bool;
  blob_remove : bytes → M S unit;
  blob_size : bytes → M S Z;
  blob_resize : bytes → Z → M S unit;
  blob_readAll : bytes → M S bytes;
  blob_read : bytes → Z → Z → M S bytes;
  blob_tryRead : bytes → Z → Z → M S bytes;
  blob_write : bytes → bytes → Z → M S unit;
  blob_flush : bytes → M S unit;
  blob_release : bytes → M S unit;
  blob_numNodes : bytes → M S Z;
  blobs_numBlocks : M S Z;
  blobs_estimateSpaceForNumBlocksLeft : M S Z;
  blobs_virtualBlocksizeBytes : M S Z;
}.

(** ** FsBlobView *)
Module FsBlobView.
Inductive BlobType := TDir | TFile | TSymlink.
#[global] Instance BlobType_eq_dec : EqDecision BlobType.
Proof. solve_decision. Defined.
Definition BlobType_value (t : BlobType) : Z := match t with TDir => 0 | TFile => 1 | TSymlink => 2 end.
(** [static_cast<BlobType>(uint8_t)]; any other value is no enumerator. *)
Definition BlobType_cast (v : Z) : option BlobType :=
  if decide (v = 0) then Some TDir else if decide (v = 1) then Some TFile else if decide (v = 2) then Some TSymlink else None.

Definition FORMAT_VERSION_HEADER : Z := 1.
Definition HEADER_SIZE : Z := 2 + 1 + Z.of_nat BlockId.BINARY_LENGTH.

(** The base blob and the parent pointer that was read from it. *)
Record t := mk { _baseBlob : bytes; _parentPointer : bytes }.
#[global] Instance t_eq_dec : EqDecision t.
Proof. solve_decision. Defined.

Section view.
Context {S : Type} `{!BlobStore S}.

Definition getFormatVersionHeader (blob : bytes) : M S Z :=
  data ← blob_read blob 0 2 ;
  lift (deserialize 2 data).
Definition _checkHeader (blob : bytes) : M S unit :=
  actualFormatVersion ← getFormatVersionHeader blob ;
  if decide (FORMAT_VERSION_HEADER ≠ actualFormatVersion)
  then mthrow (RuntimeError "This file system entity has the wrong format. Was it created with a newer version of CryFS?")
  else mret tt.
Definition _blobType (blob : bytes) : M S (option BlobType) :=
  data ← blob_read blob 2 1 ;
  v ← lift (deserialize 1 data) ;
  mret (BlobType_cast v).
Definition blobType (blob : bytes) : M S (option BlobType) := _checkHeader blob ;; _blobType blob.
Definition _loadParentPointer (blob : bytes) : M S bytes :=
  idData ← blob_read blob 3 (Z.of_nat BlockId.BINARY_LENGTH) ;
  lift (BlockId.FromBinary idData).

(** The constructor. *)
Definition new (baseBlob : bytes) : M S t :=
  _checkHeader baseBlob ;;
  parentPointer ← _loadParentPointer baseBlob ;
  mret (mk baseBlob parentPointer).

Definition InitializeBlob (baseBlob : bytes) (type : BlobType) (parent : bytes) : M S unit :=
  blob_resize baseBlob HEADER_SIZE ;;
  blob_write baseBlob (serialize 2 FORMAT_VERSION_HEADER) 0 ;;
  blob_write baseBlob (serialize 1 (BlobType_value type)) 2 ;;
  blob_write baseBlob parent 3.

Definition _storeParentPointer (v : t) : M S unit := blob_write (_baseBlob v) (_parentPointer v) 3.
Definition setParentPointer (parentId : bytes) (v : t) : M S t :=
  let v' := mk (_baseBlob v) parentId in
  _storeParentPointer v' ;; mret v'.

Definition size (v : t) : M S Z := n ← blob_size (_baseBlob v) ; mret (u64 (n - HEADER_SIZE)).
Definition resize (v : t) (numBytes : Z) : M S unit := blob_resize (_baseBlob v) (u64 (numBytes + HEADER_SIZE)).
Definition readAll (v : t) : M S bytes :=
  data ← blob_readAll (_baseBlob v) ;
  let n := u64 (Z.of_nat (length data) - HEADER_SIZE) in
  lift (Data.check_alloc n) ;;
  lift (Data.memcpy_from data (Z.to_nat HEADER_SIZE) (Z.to_nat n)).
Definition read (v : t) (offset count : Z) : M S bytes := blob_read (_baseBlob v) (u64 (offset + HEADER_SIZE)) count.
Definition tryRead (v : t) (offset count : Z) : M S bytes := blob_tryRead (_baseBlob v) (u64 (offset + HEADER_SIZE)) count.
Definition write (v : t) (source : bytes) (offset : Z) : M S unit := blob_write (_baseBlob v) source (u64 (offset + HEADER_SIZE)).
Definition flush (v : t) : M S unit := blob_flush (_baseBlob v).

(** [migrate]: a blob of format 0 has no parent pointer; move its content
    back by 16 bytes and write one. *)
Definition migrate (blob parentId : bytes) : M S unit :=
  version ← getFormatVersionHeader blob ;
  if decide (version ≠ 0) then mret tt
  else
    data ← blob_readAll blob ;
    n ← blob_size blob ;
    blob_resize blob (u64 (n + Z.of_nat BlockId.BINARY_LENGTH)) ;;
    content ← lift (Data.memcpy_from data 3 (length data - 3)) ;
    blob_write blob content HEADER_SIZE ;;
    blob_write blob parentId 3 ;;
    blob_write blob (serialize 2 FORMAT_VERSION_HEADER) 0.
End view.
End FsBlobView.

(** ** The three kinds of blobs

    The objects of class [FsBlob]: what they keep in memory besides the view
    on their base blob. *)
Inductive FsBlob :=
| FileBlob (view : FsBlobView.t)
| DirBlob (view : FsBlobView.t) (_entries : list DirEntry.t) (_changed : bool)
| SymlinkBlob (view : FsBlobView.t) (_target : bytes).
#[export] Instance FsBlob_eq_dec : EqDecision FsBlob.
Proof. solve_decision. Defined.

Definition baseBlob (b : FsBlob) : FsBlobView.t :=
  match b with FileBlob v | DirBlob v _ _ | SymlinkBlob v _ => v end.
Definition dynamic_type (b : FsBlob) : FsBlobView.BlobType :=
  match b with FileBlob _ => FsBlobView.TFile | DirBlob _ _ _ => FsBlobView.TDir | SymlinkBlob _ _ => FsBlobView.TSymlink end.
Definition with_view (v : FsBlobView.t) (b : FsBlob) : FsBlob :=
  match b with FileBlob _ => FileBlob v | DirBlob _ l c => DirBlob v l c | SymlinkBlob _ t => SymlinkBlob v t end.

Module FileBlob.
Section file.
Context {S : Type} `{!BlobStore S}.

Definition new (blob : bytes) : M S FsBlob :=
  v ← FsBlobView.new blob ;
  type ← FsBlobView._blobType blob ;
  ASSERT (bool_decide (type = Some FsBlobView.TFile)) "Loaded blob is not a file" ;;
  mret (FileBlob v).
Definition InitializeEmptyFile (blob parent : bytes) : M S FsBlob :=
  FsBlobView.InitializeBlob blob FsBlobView.TFile parent ;; new blob.

(** Offsets and sizes are [int64_t] here and [uint64_t] below. *)
Definition read (v : FsBlobView.t) (offset count : Z) : M S bytes := FsBlobView.tryRead v (u64 offset) (u64 count).
Definition write (v : FsBlobView.t) (source : bytes) (offset : Z) : M S unit := FsBlobView.write v source (u64 offset).
Definition flush (v : FsBlobView.t) : M S unit := FsBlobView.flush v.
Definition resize (v : FsBlobView.t) (n : Z) : M S unit := FsBlobView.resize v (u64 n).
Definition size (v : FsBlobView.t) : M S Z := n ← FsBlobView.size v ; mret (i64 n).
End file.
End FileBlob.

Module SymlinkBlob.
Section symlink.
Context {S : Type} `{!BlobStore S}.

(** A C string ends at the first null byte. *)
Fixpoint c_str (data : bytes) : bytes :=
  match data with
  | [] => []
  | b :: data' => if decide (b = x00) then [] else b :: c_str data'
  end.

Definition _readTargetFromBlob (v : FsBlobView.t) : M S bytes :=
  n ← FsBlobView.size v ;
  lift (Data.check_alloc (u64 (n + 1))) ;;
  n' ← FsBlobView.size v ;
  data ← FsBlobView.read v 0 n' ;
  mret (c_str (data ++ [x00])).
Definition new (blob : bytes) : M S FsBlob :=
  v ← FsBlobView.new blob ;
  target ← _readTargetFromBlob v ;
  type ← FsBlobView._blobType blob ;
  ASSERT (bool_decide (type = Some FsBlobView.TSymlink)) "Loaded blob is not a symlink" ;;
  mret (SymlinkBlob v target).
Definition InitializeSymlink (blob target parent : bytes) : M S FsBlob :=
  FsBlobView.InitializeBlob blob FsBlobView.TSymlink parent ;;
  v ← FsBlobView.new blob ;
  FsBlobView.resize v (Z.of_nat (length target)) ;;
  FsBlobView.write v target 0 ;;
  new blob.
End symlink.
End SymlinkBlob.

Module DirBlob.
Section dir.
Context {S : Type} `{!BlobStore S} (uninit : nat → bytes).

Definition _readEntriesFromBlob (v : FsBlobView.t) : M S (list DirEntry.t) :=
  data ← FsBlobView.readAll v ;
  lift (DirEntryList.deserializeFrom data).
Definition new (blob : bytes) : M S FsBlob :=
  v ← FsBlobView.new blob ;
  type ← FsBlobView._blobType blob ;
  ASSERT (bool_decide (type = Some FsBlobView.TDir)) "Loaded blob is not a directory" ;;
  entries ← _readEntriesFromBlob v ;
  mret (DirBlob v entries false).
Definition InitializeEmptyDir (blob parent : bytes) : M S FsBlob :=
  FsBlobView.InitializeBlob blob FsBlobView.TDir parent ;; new blob.

(** Returns the new value of [_changed]. *)
Definition _writeEntriesToBlob (v : FsBlobView.t) (entries : list DirEntry.t) (changed : bool) : M S bool :=
  if changed then
    serialized ← lift (DirEntryList.serialize uninit entries) ;
    FsBlobView.resize v (Z.of_nat (length serialized)) ;;
    FsBlobView.write v serialized 0 ;;
    mret false
  else mret false.
Definition flush (v : FsBlobView.t) (entries : list DirEntry.t) (changed : bool) : M S bool :=
  changed' ← _writeEntriesToBlob v entries changed ;
  FsBlobView.flush v ;;
  mret changed'.
End dir.
End DirBlob.

(** ** FsBlobStore *)
Module FsBlobStore.
Section store.
Context {S : Type} `{!BlobStore S} (uninit : nat → bytes).

Definition createFileBlob (parent : bytes) : M S FsBlob :=
  blob ← blob_create ; FileBlob.InitializeEmptyFile blob parent.
Definition createDirBlob (parent : bytes) : M S FsBlob :=
  blob ← blob_create ; DirBlob.InitializeEmptyDir blob parent.
Definition createSymlinkBlob (target parent : bytes) : M S FsBlob :=
  blob ← blob_create ; SymlinkBlob.InitializeSymlink blob target parent.

Definition load (blockId : bytes) : M S (option FsBlob) :=
  found ← blob_load blockId ;
  if (found : bool) then
    type ← FsBlobView.blobType blockId ;
    match type with
    | Some FsBlobView.TFile => b ← FileBlob.new blockId ; mret (Some b)
    | Some FsBlobView.TDir => b ← DirBlob.new blockId ; mret (Some b)
    | Some FsBlobView.TSymlink => b ← SymlinkBlob.new blockId ; mret (Some b)
    | None => mthrow (AssertFailed "Unknown magic number")
    end
  else mret None.

(** The destructor of an object: [~DirBlob] writes the entries, then the base
    blob is released. *)
Definition destroy (b : FsBlob) : M S unit :=
  match b with
  | DirBlob v l changed => _ ← DirBlob._writeEntriesToBlob uninit v l changed ; blob_release (FsBlobView._baseBlob v)
  | FileBlob v | SymlinkBlob v _ => blob_release (FsBlobView._baseBlob v)
  end.

(** [releaseBaseBlob]: a directory writes its entries first. *)
Definition releaseBaseBlob (b : FsBlob) : M S bytes :=
  match b with
  | DirBlob v l changed => _ ← DirBlob._writeEntriesToBlob uninit v l changed ; mret (FsBlobView._baseBlob v)
  | FileBlob v | SymlinkBlob v _ => mret (FsBlobView._baseBlob v)
  end.

(** [remove(blob)]: when writing the entries throws, the object is destroyed
    while the exception leaves, which writes them again. *)
Definition remove (b : FsBlob) : M S unit :=
  base ← on_throw (destroy b) (releaseBaseBlob b) ;
  blob_remove base.
Definition remove_by_id (blockId : bytes) : M S unit := blob_remove blockId.

(** The migration of a file system without parent pointers. [signal_occurred]
    asks the signal handler. [fuel] bounds the depth of the recursion; the
    code has no bound but its stack. *)
Fixpoint _migrate (signal_occurred : M S bool) (perBlobCallback : Z → M S unit) (fuel : nat) (node parentId : bytes) : M S unit :=
  match fuel with
  | O => mthrow UndefinedBehaviour
  | Datatypes.S fuel' =>
      FsBlobView.migrate node parentId ;;
      numNodes ← blob_numNodes node ;
      perBlobCallback numNodes ;;
      type ← FsBlobView.blobType node ;
      if decide (type = Some FsBlobView.TDir) then
        dir ← DirBlob.new node ;
        let entries := match dir with DirBlob _ l _ => l | _ => [] end in
        (fix children (l : list DirEntry.t) : M S unit :=
           match l with
           | [] => mret tt
           | child :: l' =>
               stop ← signal_occurred ;
               if (stop : bool) then mthrow (RuntimeError "Caught signal")
               else
                 match entries !! DirEntryList._findByName (DirEntry._name child) entries with
                 | None => mthrow (AssertFailed "Couldn't load child, although it was returned as a child in the list.")
                 | Some childEntry =>
                     found ← blob_load (DirEntry._blockId childEntry) ;
                     ASSERT (found : bool) "Couldn't load child blob" ;;
                     _migrate signal_occurred perBlobCallback fuel' (DirEntry._blockId childEntry) node ;;
                     children l'
                 end
           end) entries
      else mret tt
  end.

Definition migrate (signal_occurred : M S bool) (perBlobCallback : Z → M S unit) (fuel : nat) (rootBlobId : bytes) : M S unit :=
  rootBlob ← blob_load rootBlobId ;
  if (rootBlob : bool) then _migrate signal_occurred perBlobCallback fuel rootBlobId BlockId.Null
  else mthrow (RuntimeError "Could not load root blob").
End store.
End FsBlobStore.
