(* ===== verification/FsBlobSpec.v ===== *)
(** * What the blobs of the file system promise

    [BlobStoreSpec] is the contract of the blob store below: blobs are byte
    strings. On top of it a file system blob is an [inode]: a parent pointer
    and a file, a directory or a symbolic link; [image] is its byte format.
    The lemmas say that creating, loading, changing and destroying blobs
    through [FsBlobView] and [FsBlobStore] do that to the inode. *)
From S2P Require Import Prelude Serialization DirEntry DirEntryList DirSpec Directory FsBlobs NodeSpec BlobModel.
From Stdlib Require Import Lia ZArith.
Open Scope Z_scope.

(** ** The contract of the blob store

    [blobs_are n s m]: the blobs of [s] are the byte strings of [m], and the
    store can still create blocks for [n] calls that may need them. Loading
    is specified for the ids of blobs only. *)
Class BlobStoreSpec (S : Type) `{!BlobStore S} := {
  blobs_are : nat → S → gmap bytes bytes → Prop;
  max_blob : Z;
  max_blob_range : 0 ≤ max_blob < 2 ^ 62;
  blob_create_spec n s m :
    blobs_are (Datatypes.S n) s m →
    runs blob_create s (λ id s', m !! id = None ∧ BlockId.valid id ∧ id ≠ BlockId.Null ∧ blobs_are n s' (<[id := []]> m));
  blob_load_spec n s m id c :
    blobs_are n s m → m !! id = Some c → runs (blob_load id) s (λ r s', r = true ∧ blobs_are n s' m);
  blob_remove_spec n s m id c :
    blobs_are n s m → m !! id = Some c → runs (blob_remove id) s (λ _ s', blobs_are n s' (delete id m));
  blob_size_spec n s m id c :
    blobs_are n s m → m !! id = Some c → runs (blob_size id) s (λ r s', r = Z.of_nat (length c) ∧ blobs_are n s' m);
  blob_resize_spec n s m id c k :
    blobs_are (Datatypes.S n) s m → m !! id = Some c → Z.of_nat k ≤ max_blob →
    runs (blob_resize id (Z.of_nat k)) s (λ _ s', blobs_are n s' (<[id := resize_bytes c k]> m));
  blob_readAll_spec n s m id c :
    blobs_are n s m → m !! id = Some c → runs (blob_readAll id) s (λ r s', r = c ∧ blobs_are n s' m);
  blob_read_spec n s m id c off k :
    blobs_are n s m → m !! id = Some c → (off + k ≤ length c)%nat →
    runs (blob_read id (Z.of_nat off) (Z.of_nat k)) s (λ r s', r = slice off k c ∧ blobs_are n s' m);
  blob_tryRead_spec n s m id c off k :
    blobs_are n s m → m !! id = Some c → Z.of_nat off < 2 ^ 63 → Z.of_nat k < 2 ^ 63 →
    runs (blob_tryRead id (Z.of_nat off) (Z.of_nat k)) s (λ r s', r = slice off k c ∧ blobs_are n s' m);
  blob_write_spec n s m id c src off :
    blobs_are (Datatypes.S n) s m → m !! id = Some c → Z.of_nat (off + length src) ≤ max_blob →
    runs (blob_write id src (Z.of_nat off)) s (λ _ s', blobs_are n s' (<[id := write_bytes c off src]> m));
  blob_flush_spec n s m id c :
    blobs_are n s m → m !! id = Some c → runs (blob_flush id) s (λ _ s', blobs_are n s' m);
  blob_release_spec n s m id c :
    blobs_are n s m → m !! id = Some c → runs (blob_release id) s (λ _ s', blobs_are n s' m);
  blob_numNodes_spec n s m id c :
    blobs_are n s m → m !! id = Some c → runs (blob_numNodes id) s (λ _ s', blobs_are n s' m);
  blobs_are_le n n' s m : (n' ≤ n)%nat → blobs_are n s m → blobs_are n' s m;
  blobs_are_size n s m id c : blobs_are n s m → m !! id = Some c → Z.of_nat (length c) ≤ max_blob;
  (* a blob has at least one block, the number of blocks is a [uint64_t] *)
  blobs_numBlocks_spec n s m :
    blobs_are n s m → runs blobs_numBlocks s (λ r s', (∃ k, (size m ≤ k)%nat ∧ r = u64 (Z.of_nat k)) ∧ blobs_are n s' m);
  blobs_estimate_spec n s m :
    blobs_are n s m → runs blobs_estimateSpaceForNumBlocksLeft s (λ _ s', blobs_are n s' m);
  blobs_blocksize_spec n s m :
    blobs_are n s m → runs blobs_virtualBlocksizeBytes s (λ _ s', blobs_are n s' m);
}.

(** ** Inodes *)
Inductive node_content :=
| CFile (c : bytes)
| CDir (l : list DirEntry.t)
| CSymlink (target : bytes).
Record inode := mkInode { i_parent : bytes; i_content : node_content }.

Definition content_type (c : node_content) : FsBlobView.BlobType :=
  match c with CFile _ => FsBlobView.TFile | CDir _ => FsBlobView.TDir | CSymlink _ => FsBlobView.TSymlink end.
Definition dir_bytes (l : list DirEntry.t) : bytes := concat (DirEntry.entry_bytes <$> l).
Definition payload (c : node_content) : bytes :=
  match c with CFile c => c | CDir l => dir_bytes l | CSymlink t => t end.
Definition header (ty : FsBlobView.BlobType) (parent : bytes) : bytes :=
  serialize 2 FsBlobView.FORMAT_VERSION_HEADER ++ serialize 1 (FsBlobView.BlobType_value ty) ++ parent.
#[global] Arguments header : simpl never.
Definition image (n : inode) : bytes := header (content_type (i_content n)) (i_parent n) ++ payload (i_content n).
Definition object_of (id : bytes) (n : inode) : FsBlob :=
  let v := FsBlobView.mk id (i_parent n) in
  match i_content n with
  | CFile _ => FileBlob v
  | CDir l => DirBlob v l false
  | CSymlink t => SymlinkBlob v t
  end.

(** Ordered entries, distinct names, fields that fit their types. *)
Definition entries_ok (l : list DirEntry.t) : Prop := dir_ok l ∧ Forall DirEntry.wf l.
Definition content_ok (c : node_content) : Prop :=
  match c with
  | CFile _ => True
  | CDir l => entries_ok l
  | CSymlink t => x00 ∉ t
  end.
Definition inode_ok (n : inode) : Prop := BlockId.valid (i_parent n) ∧ content_ok (i_content n).

Lemma length_blob_header ty p : BlockId.valid p → length (header ty p) = 19%nat.
Proof. intros H. unfold header. by rewrite !length_app, !length_serialize, H. Qed.

(** ** Byte strings behind a header *)
Lemma resize_bytes_app (h c : bytes) k : resize_bytes (h ++ c) (length h + k) = h ++ resize_bytes c k.
Proof.
  apply list_eq. intros i. rewrite lookup_resize_bytes. destruct (decide (i < length h)%nat).
  - rewrite decide_True by lia. rewrite !lookup_app_l by done. by destruct (lookup_lt_is_Some_2 h i) as [x ->].
  - rewrite !lookup_app_r by lia. rewrite lookup_resize_bytes. repeat case_decide; done || lia.
Qed.

Lemma write_bytes_app (h c : bytes) off src : write_bytes (h ++ c) (length h + off) src = h ++ write_bytes c off src.
Proof.
  destruct (decide (src = [])) as [->|Hne]; [done|]. apply list_eq. intros i. rewrite lookup_write_bytes by done.
  destruct (decide (i < length h)%nat).
  - rewrite decide_False by lia. rewrite decide_True by (rewrite length_app; lia). by rewrite !lookup_app_l.
  - rewrite (lookup_app_r h (write_bytes _ _ _)) by lia. rewrite lookup_write_bytes, length_app by done.
    rewrite (lookup_app_r h c) by lia. repeat case_decide; try lia; try done. f_equal. lia.
Qed.

Lemma resize_write c (src : bytes) : write_bytes (resize_bytes c (length src)) 0 src = src.
Proof.
  destruct (decide (src = [])) as [->|Hne].
  - unfold write_bytes, resize_bytes. simpl. rewrite take_0. done.
  - apply list_eq. intros i. rewrite lookup_write_bytes, length_resize_bytes by done.
    destruct (decide (i < length src)%nat).
    + rewrite decide_True by lia. by rewrite Nat.sub_0_r.
    + rewrite !decide_False by lia. symmetry. apply lookup_ge_None. lia.
Qed.

Section view.
Context {S : Type} `{!BlobStore S} `{!BlobStoreSpec S}.
Implicit Types (m : gmap bytes bytes) (s : S) (id p : bytes).

(** Budgets are natural numbers; the caller's may be larger. *)
Lemma blobs_budget n k s m : blobs_are n s m → (k ≤ n)%nat → blobs_are k s m.
Proof. intros H Hle. by apply (blobs_are_le n). Qed.

(** ** FsBlobView *)
Lemma slice_header_version ty p c : slice 0 2 (header ty p ++ c) = serialize 2 1.
Proof. unfold header. rewrite <- !app_assoc. by apply slice_app_head. Qed.
Lemma slice_header_type ty p c : slice 2 1 (header ty p ++ c) = serialize 1 (FsBlobView.BlobType_value ty).
Proof.
  unfold header. rewrite <- !app_assoc. rewrite (slice_app_r' 2 0) by done. by apply slice_app_head.
Qed.
Lemma slice_header_parent ty p c : BlockId.valid p → slice 3 16 (header ty p ++ c) = p.
Proof.
  intros Hp. unfold header. rewrite <- !app_assoc. rewrite (slice_app_r' 2 1) by done.
  rewrite (slice_app_r' 1 0) by done. by apply slice_app_head.
Qed.

Lemma getFormatVersionHeader_spec n s m id ty p c :
  blobs_are n s m → m !! id = Some (header ty p ++ c) → BlockId.valid p →
  runs (FsBlobView.getFormatVersionHeader id) s (λ r s', r = 1 ∧ blobs_are n s' m).
Proof.
  intros Hs Hm Hp. eapply runs_bind; [apply (blob_read_spec n s m id _ 0 2 Hs Hm)|].
  { rewrite length_app, length_blob_header by done. lia. }
  intros r s' [-> Hs']. rewrite slice_header_version. by apply runs_lift with (a := 1).
Qed.

Lemma checkHeader_spec n s m id ty p c :
  blobs_are n s m → m !! id = Some (header ty p ++ c) → BlockId.valid p →
  runs (FsBlobView._checkHeader id) s (λ _ s', blobs_are n s' m).
Proof.
  intros Hs Hm Hp. eapply runs_bind; [by eapply getFormatVersionHeader_spec|].
  intros v s' [-> Hs']. by apply runs_ret.
Qed.

Lemma blobType_spec n s m id ty p c :
  blobs_are n s m → m !! id = Some (header ty p ++ c) → BlockId.valid p →
  runs (FsBlobView._blobType id) s (λ r s', r = Some ty ∧ blobs_are n s' m).
Proof.
  intros Hs Hm Hp. eapply runs_bind; [apply (blob_read_spec n s m id _ 2 1 Hs Hm)|].
  { rewrite length_app, length_blob_header by done. lia. }
  intros r s' [-> Hs']. rewrite slice_header_type.
  apply runs_bind_lift with (a := FsBlobView.BlobType_value ty); [by destruct ty|].
  apply runs_ret. split; [by destruct ty|done].
Qed.

Lemma loadParentPointer_spec n s m id ty p c :
  blobs_are n s m → m !! id = Some (header ty p ++ c) → BlockId.valid p →
  runs (FsBlobView._loadParentPointer id) s (λ r s', r = p ∧ blobs_are n s' m).
Proof.
  intros Hs Hm Hp. eapply runs_bind; [apply (blob_read_spec n s m id _ 3 16 Hs Hm)|].
  { rewrite length_app, length_blob_header by done. lia. }
  intros r s' [-> Hs']. rewrite slice_header_parent by done.
  apply runs_lift with (a := p); [|done]. rewrite <- (app_nil_r p) at 1. by apply BlockId.FromBinary_app.
Qed.

Lemma view_new_spec n s m id ty p c :
  blobs_are n s m → m !! id = Some (header ty p ++ c) → BlockId.valid p →
  runs (FsBlobView.new id) s (λ v s', v = FsBlobView.mk id p ∧ blobs_are n s' m).
Proof.
  intros Hs Hm Hp. eapply runs_bind; [by eapply checkHeader_spec|]. intros [] s1 Hs1.
  eapply runs_bind; [by eapply loadParentPointer_spec|]. intros q s2 [-> Hs2]. by apply runs_ret.
Qed.

Lemma InitializeBlob_spec n s m id ty p :
  blobs_are (4 + n) s m → m !! id = Some [] → BlockId.valid p → FsBlobView.HEADER_SIZE ≤ max_blob →
  runs (FsBlobView.InitializeBlob id ty p) s (λ _ s', blobs_are n s' (<[id := header ty p]> m)).
Proof.
  intros Hs Hm Hp Hmax. unfold FsBlobView.InitializeBlob. assert (FsBlobView.HEADER_SIZE = Z.of_nat 19) as E by done.
  rewrite E in *. eapply runs_bind; [by apply (blob_resize_spec _ s m id [] 19 Hs)|]. intros [] s1 Hs1.
  eapply runs_bind; [eapply (blob_write_spec _ s1 _ id (resize_bytes [] 19) _ 0 Hs1); [apply lookup_insert_eq|rewrite length_serialize; lia]|].
  intros [] s2 Hs2. rewrite insert_insert_eq in Hs2.
  eapply runs_bind; [eapply (blob_write_spec _ s2 _ id _ _ 2 Hs2); [apply lookup_insert_eq|rewrite length_serialize; lia]|].
  intros [] s3 Hs3. rewrite insert_insert_eq in Hs3.
  eapply runs_mono; [eapply (blob_write_spec _ s3 _ id _ _ 3 Hs3); [apply lookup_insert_eq|rewrite Hp; unfold BlockId.BINARY_LENGTH; lia]|].
  intros [] s4 Hs4. simpl in Hs4. rewrite insert_insert_eq in Hs4.
  replace (header ty p) with (write_bytes (write_bytes (write_bytes (resize_bytes [] 19) 0 (serialize 2 FsBlobView.FORMAT_VERSION_HEADER)) 2
    (serialize 1 (FsBlobView.BlobType_value ty))) 3 p); [done|].
  assert (write_bytes (write_bytes (resize_bytes [] 19) 0 (serialize 2 FsBlobView.FORMAT_VERSION_HEADER)) 2 (serialize 1 (FsBlobView.BlobType_value ty))
    = (serialize 2 FsBlobView.FORMAT_VERSION_HEADER ++ serialize 1 (FsBlobView.BlobType_value ty)) ++ replicate 16 x00) as -> by (destruct ty; by vm_compute).
  assert (∀ h : bytes, length h = 3%nat → write_bytes (h ++ replicate 16 x00) 3 p = h ++ p) as ->; [|unfold header; by rewrite <- app_assoc|by destruct ty].
  intros h Hh. pose proof (write_bytes_app h (replicate 16 x00) 0 p) as Ew. rewrite Hh in Ew. etransitivity; [exact Ew|]. f_equal.
  pose proof (resize_write [] p) as Er. rewrite Hp in Er. exact Er.
Qed.

(** The header and the parent pointer stay when the content changes. *)
Lemma view_resize_spec n s m id ty p c k :
  blobs_are (Datatypes.S n) s m → m !! id = Some (header ty p ++ c) → BlockId.valid p → 19 + Z.of_nat k ≤ max_blob →
  runs (FsBlobView.resize (FsBlobView.mk id p) (Z.of_nat k)) s (λ _ s', blobs_are n s' (<[id := header ty p ++ resize_bytes c k]> m)).
Proof.
  intros Hs Hm Hp Hk. unfold FsBlobView.resize. pose proof max_blob_range.
  rewrite u64_small by (change FsBlobView.HEADER_SIZE with 19; lia).
  replace (Z.of_nat k + FsBlobView.HEADER_SIZE) with (Z.of_nat (19 + k)) by (change FsBlobView.HEADER_SIZE with 19; lia).
  rewrite <- (length_blob_header ty p Hp), <- resize_bytes_app, (length_blob_header ty p Hp). apply blob_resize_spec; [done..|lia].
Qed.

Lemma view_write_spec n s m id ty p c src off :
  blobs_are (Datatypes.S n) s m → m !! id = Some (header ty p ++ c) → BlockId.valid p → 19 + Z.of_nat (off + length src) ≤ max_blob →
  runs (FsBlobView.write (FsBlobView.mk id p) src (Z.of_nat off)) s (λ _ s', blobs_are n s' (<[id := header ty p ++ write_bytes c off src]> m)).
Proof.
  intros Hs Hm Hp Hk. unfold FsBlobView.write. pose proof max_blob_range.
  rewrite u64_small by (change FsBlobView.HEADER_SIZE with 19; lia).
  replace (Z.of_nat off + FsBlobView.HEADER_SIZE) with (Z.of_nat (19 + off)) by (change FsBlobView.HEADER_SIZE with 19; lia).
  rewrite <- (length_blob_header ty p Hp), <- write_bytes_app, (length_blob_header ty p Hp). apply blob_write_spec; [done..|lia].
Qed.

Lemma view_size_spec n s m id ty p c :
  blobs_are n s m → m !! id = Some (header ty p ++ c) → BlockId.valid p →
  runs (FsBlobView.size (FsBlobView.mk id p)) s (λ r s', r = Z.of_nat (length c) ∧ blobs_are n s' m).
Proof.
  intros Hs Hm Hp. pose proof (blobs_are_size _ _ _ _ _ Hs Hm) as Hsz. pose proof max_blob_range.
  rewrite length_app, length_blob_header in Hsz by done.
  eapply runs_bind; [by apply (blob_size_spec _ _ _ _ _ Hs Hm)|]. intros r s' [-> Hs']. apply runs_ret. split; [|done].
  rewrite length_app, length_blob_header by done. change FsBlobView.HEADER_SIZE with 19. rewrite u64_small; lia.
Qed.

Lemma view_readAll_spec n s m id ty p c :
  blobs_are n s m → m !! id = Some (header ty p ++ c) → BlockId.valid p →
  runs (FsBlobView.readAll (FsBlobView.mk id p)) s (λ r s', r = c ∧ blobs_are n s' m).
Proof.
  intros Hs Hm Hp. pose proof (blobs_are_size _ _ _ _ _ Hs Hm) as Hsz. pose proof max_blob_range.
  rewrite length_app, length_blob_header in Hsz by done.
  eapply runs_bind; [by apply (blob_readAll_spec _ _ _ _ _ Hs Hm)|]. intros r s' [-> Hs'].
  rewrite length_app, length_blob_header by done. change FsBlobView.HEADER_SIZE with 19.
  replace (u64 (Z.of_nat (19 + length c) - 19)) with (Z.of_nat (length c)) by (rewrite u64_small; lia).
  apply runs_bind_lift with (a := tt); [unfold Data.check_alloc; by rewrite decide_True by lia|].
  rewrite Nat2Z.id. change (Z.to_nat 19) with 19%nat.
  apply runs_lift with (a := c); [|done]. rewrite Data.memcpy_from_ok by (rewrite length_app, length_blob_header by done; lia).
  f_equal. rewrite <- (Nat.add_0_r 19), (slice_app_r' 19 0) by by apply length_blob_header. apply slice_all.
Qed.

Lemma view_read_spec n s m id ty p c off k :
  blobs_are n s m → m !! id = Some (header ty p ++ c) → BlockId.valid p → (off + k ≤ length c)%nat →
  runs (FsBlobView.read (FsBlobView.mk id p) (Z.of_nat off) (Z.of_nat k)) s (λ r s', r = slice off k c ∧ blobs_are n s' m).
Proof.
  intros Hs Hm Hp Hk. pose proof (blobs_are_size _ _ _ _ _ Hs Hm) as Hsz. pose proof max_blob_range.
  rewrite length_app, length_blob_header in Hsz by done. unfold FsBlobView.read.
  rewrite u64_small by (change FsBlobView.HEADER_SIZE with 19; lia).
  replace (Z.of_nat off + FsBlobView.HEADER_SIZE) with (Z.of_nat (19 + off)) by (change FsBlobView.HEADER_SIZE with 19; lia).
  rewrite <- (slice_app_r' 19 off k (header ty p) c) by by apply length_blob_header.
  apply blob_read_spec; [done..|]. rewrite length_app, length_blob_header by done. lia.
Qed.

Lemma view_tryRead_spec n s m id ty p c off k :
  blobs_are n s m → m !! id = Some (header ty p ++ c) → BlockId.valid p → Z.of_nat off < 2 ^ 62 → Z.of_nat k < 2 ^ 63 →
  runs (FsBlobView.tryRead (FsBlobView.mk id p) (Z.of_nat off) (Z.of_nat k)) s (λ r s', r = slice off k c ∧ blobs_are n s' m).
Proof.
  intros Hs Hm Hp Ho Hk. unfold FsBlobView.tryRead.
  rewrite u64_small by (change FsBlobView.HEADER_SIZE with 19; lia).
  replace (Z.of_nat off + FsBlobView.HEADER_SIZE) with (Z.of_nat (19 + off)) by (change FsBlobView.HEADER_SIZE with 19; lia).
  rewrite <- (slice_app_r' 19 off k (header ty p) c) by by apply length_blob_header.
  apply blob_tryRead_spec; [done..|lia|done].
Qed.

Lemma setParentPointer_spec n s m id ty p q c :
  blobs_are (Datatypes.S n) s m → m !! id = Some (header ty p ++ c) → BlockId.valid p → BlockId.valid q →
  runs (FsBlobView.setParentPointer q (FsBlobView.mk id p)) s
    (λ v s', v = FsBlobView.mk id q ∧ blobs_are n s' (<[id := header ty q ++ c]> m)).
Proof.
  intros Hs Hm Hp Hq. pose proof (blobs_are_size _ _ _ _ _ Hs Hm) as Hsz.
  rewrite length_app, length_blob_header in Hsz by done. unfold FsBlobView.setParentPointer, FsBlobView._storeParentPointer. cbn [FsBlobView._baseBlob FsBlobView._parentPointer].
  eapply runs_bind; [apply (blob_write_spec _ _ _ _ _ q 3 Hs Hm); rewrite Hq; unfold BlockId.BINARY_LENGTH; lia|]. intros [] s' Hs'. apply runs_ret. split; [done|].
  replace (header ty q ++ c) with (write_bytes (header ty p ++ c) 3 q); [done|]. unfold header. rewrite <- !app_assoc.
  rewrite !(app_assoc (serialize 2 _)). set (h := serialize 2 _ ++ serialize 1 _).
  assert (length h = 3%nat) as Hh by done. pose proof (write_bytes_app h (p ++ c) 0 q) as Ew. rewrite Hh in Ew. etransitivity; [exact Ew|]. f_equal.
  unfold write_bytes. rewrite decide_False by (intros ->; done). rewrite pad_ge by (rewrite length_app, Hp, Hq; lia).
  apply splice_app_head. by rewrite Hp, Hq.
Qed.
End view.

(** ** FsBlobStore *)
Lemma c_str_app (t : bytes) : x00 ∉ t → SymlinkBlob.c_str (t ++ [x00]) = t.
Proof.
  induction t as [|b t IH]; intros H; simpl; [done|]. apply not_elem_of_cons in H as [Hb H].
  rewrite decide_False by done. by rewrite IH.
Qed.

Section store.
Context {S : Type} `{!BlobStore S} `{!BlobStoreSpec S} (uninit : nat → bytes) (uninit_ok : ∀ n, length (uninit n) = n).
Implicit Types (m : gmap bytes bytes) (s : S) (id p : bytes).

(** The content can be written: the blob stays below the size limit, and a
    directory below 4 GiB (its offsets are 32-bit integers). *)
Definition content_fits (c : node_content) : Prop :=
  19 + Z.of_nat (length (payload c)) ≤ max_blob ∧
  match c with CDir l => Z.of_nat (length (dir_bytes l)) < 2 ^ 32 | _ => True end.

Lemma file_new_spec n s m id p c :
  blobs_are n s m → m !! id = Some (header FsBlobView.TFile p ++ c) → BlockId.valid p →
  runs (FileBlob.new id) s (λ b s', b = FileBlob (FsBlobView.mk id p) ∧ blobs_are n s' m).
Proof.
  intros Hs Hm Hp. eapply runs_bind; [by eapply view_new_spec|]. intros v s1 [-> Hs1].
  eapply runs_bind; [by eapply blobType_spec|]. intros r s2 [-> Hs2]. by apply runs_bind_assert, runs_ret.
Qed.

Lemma dir_new_spec n s m id p l :
  blobs_are n s m → m !! id = Some (header FsBlobView.TDir p ++ dir_bytes l) → BlockId.valid p → entries_ok l →
  runs (DirBlob.new id) s (λ b s', b = DirBlob (FsBlobView.mk id p) l false ∧ blobs_are n s' m).
Proof.
  intros Hs Hm Hp [[Hl _] Hwf]. eapply runs_bind; [by eapply view_new_spec|]. intros v s1 [-> Hs1].
  eapply runs_bind; [by eapply blobType_spec|]. intros r s2 [-> Hs2]. apply runs_bind_assert; [done|].
  eapply runs_bind; [|intros l' s3 H3; apply runs_ret; exact H3].
  eapply runs_bind; [by eapply view_readAll_spec|]. intros d s3 [-> Hs3].
  apply runs_lift with (a := l); [by apply list_deserialize_ok|]. simpl. split; [|exact Hs3]. done.
Qed.

Lemma symlink_new_spec n s m id p t :
  blobs_are n s m → m !! id = Some (header FsBlobView.TSymlink p ++ t) → BlockId.valid p → x00 ∉ t →
  runs (SymlinkBlob.new id) s (λ b s', b = SymlinkBlob (FsBlobView.mk id p) t ∧ blobs_are n s' m).
Proof.
  intros Hs Hm Hp Ht. eapply runs_bind; [by eapply view_new_spec|]. intros v s1 [-> Hs1].
  pose proof (blobs_are_size _ _ _ _ _ Hs Hm) as Hsz. pose proof max_blob_range. rewrite length_app, length_blob_header in Hsz by done.
  apply (runs_bind _ _ _ (λ r s', r = t ∧ blobs_are n s' m)).
  - eapply runs_bind; [by eapply view_size_spec|]. intros r s2 [-> Hs2].
    apply runs_bind_lift with (a := tt); [unfold Data.check_alloc; rewrite u64_small by lia; by rewrite decide_True by lia|].
    eapply runs_bind; [by eapply view_size_spec|]. intros r s3 [-> Hs3].
    eapply runs_bind; [by eapply (view_read_spec _ _ _ _ _ _ _ 0)|]. intros r s4 [-> Hs4].
    apply runs_ret. rewrite slice_all. by rewrite c_str_app.
  - intros r s2 [-> Hs2]. eapply runs_bind; [by eapply blobType_spec|]. intros r s3 [-> Hs3]. by apply runs_bind_assert, runs_ret.
Qed.

Lemma load_inode_spec n s m id nd :
  blobs_are n s m → m !! id = Some (image nd) → inode_ok nd →
  runs (FsBlobStore.load id) s (λ r s', r = Some (object_of id nd) ∧ blobs_are n s' m).
Proof.
  intros Hs Hm [Hp Hc]. unfold FsBlobStore.load. eapply runs_bind; [by eapply blob_load_spec|]. intros r s1 [-> Hs1].
  eapply runs_bind; [eapply runs_bind; [by eapply checkHeader_spec|intros [] s2 Hs2; by eapply blobType_spec]|].
  intros r s2 [-> Hs2]. destruct nd as [p [c|l|t]]; unfold image in Hm; cbn [content_type i_content i_parent payload] in *.
  - eapply runs_bind; [by eapply file_new_spec|]. intros b s3 [-> Hs3]. by apply runs_ret.
  - eapply runs_bind; [by eapply dir_new_spec|]. intros b s3 [-> Hs3]. by apply runs_ret.
  - eapply runs_bind; [by eapply symlink_new_spec|]. intros b s3 [-> Hs3]. by apply runs_ret.
Qed.

(** A new blob: its id is fresh, its content the initial one. *)
Definition created n m (nd : inode) (b : FsBlob) (s' : S) : Prop :=
  ∃ id, b = object_of id nd ∧ m !! id = None ∧ BlockId.valid id ∧ id ≠ BlockId.Null ∧ blobs_are n s' (<[id := image nd]> m).

Lemma createFileBlob_spec n s m p :
  blobs_are (5 + n) s m → BlockId.valid p → 19 ≤ max_blob →
  runs (FsBlobStore.createFileBlob p) s (created n m (mkInode p (CFile []))).
Proof.
  intros Hs Hp Hmax. eapply runs_bind; [by apply (blob_create_spec (4 + n))|]. intros id s1 (Hid & Hv & Hn & Hs1).
  eapply runs_bind; [apply (InitializeBlob_spec n _ _ _ FsBlobView.TFile p Hs1); [apply lookup_insert_eq|done..]|]. intros [] s2 Hs2.
  rewrite insert_insert_eq in Hs2. eapply runs_mono.
  - eapply file_new_spec; [done|rewrite lookup_insert_eq; by rewrite app_nil_r|done].
  - intros b s3 [-> Hs3]. exists id. unfold image. cbn. by rewrite app_nil_r.
Qed.

Lemma createDirBlob_spec n s m p :
  blobs_are (5 + n) s m → BlockId.valid p → 19 ≤ max_blob →
  runs (FsBlobStore.createDirBlob p) s (created n m (mkInode p (CDir []))).
Proof.
  intros Hs Hp Hmax. eapply runs_bind; [by apply (blob_create_spec (4 + n))|]. intros id s1 (Hid & Hv & Hn & Hs1).
  eapply runs_bind; [apply (InitializeBlob_spec n _ _ _ FsBlobView.TDir p Hs1); [apply lookup_insert_eq|done..]|]. intros [] s2 Hs2.
  rewrite insert_insert_eq in Hs2. eapply runs_mono.
  - eapply (dir_new_spec _ _ _ _ _ []); [done|rewrite lookup_insert_eq; by rewrite app_nil_r|done|]. repeat split; constructor.
  - intros b s3 [-> Hs3]. exists id. unfold image. cbn. by rewrite app_nil_r.
Qed.

Lemma createSymlinkBlob_spec n s m p t :
  blobs_are (7 + n) s m → BlockId.valid p → x00 ∉ t → 19 + Z.of_nat (length t) ≤ max_blob →
  runs (FsBlobStore.createSymlinkBlob t p) s (created n m (mkInode p (CSymlink t))).
Proof.
  intros Hs Hp Ht Hmax. eapply runs_bind; [by apply (blob_create_spec (6 + n))|]. intros id s1 (Hid & Hv & Hn & Hs1).
  eapply runs_bind; [apply (InitializeBlob_spec (2 + n) _ _ _ FsBlobView.TSymlink p Hs1); [apply lookup_insert_eq|done|change FsBlobView.HEADER_SIZE with 19; lia]|].
  intros [] s2 Hs2. rewrite insert_insert_eq in Hs2.
  assert (∀ c, (<[id := header FsBlobView.TSymlink p ++ c]> m) !! id = Some (header FsBlobView.TSymlink p ++ c)) as Hm by (intros; apply lookup_insert_eq).
  rewrite <- (app_nil_r (header _ p)) in Hs2.
  eapply runs_bind; [by eapply view_new_spec|]. intros v s3 [-> Hs3].
  eapply runs_bind; [by eapply view_resize_spec|]. intros [] s4 Hs4. rewrite insert_insert_eq in Hs4.
  eapply runs_bind; [by eapply (view_write_spec n s4 _ id FsBlobView.TSymlink p (resize_bytes [] (length t)) t 0)|]. intros [] s5 Hs5.
  rewrite insert_insert_eq, resize_write in Hs5. eapply runs_mono; [by eapply symlink_new_spec|].
  intros b s6 [-> Hs6]. by exists id.
Qed.

Lemma writeEntries_spec n s m id p old l changed :
  blobs_are (2 + n) s m → m !! id = Some (header FsBlobView.TDir p ++ old) → BlockId.valid p → entries_ok l → content_fits (CDir l) →
  (changed = false → old = dir_bytes l) →
  runs (DirBlob._writeEntriesToBlob uninit (FsBlobView.mk id p) l changed) s
    (λ r s', r = false ∧ blobs_are n s' (<[id := header FsBlobView.TDir p ++ dir_bytes l]> m)).
Proof using uninit_ok.
  intros Hs Hm Hp [[Hl _] Hwf] [Hfit Hlt] Hold. destruct changed; simpl.
  - apply runs_bind_lift with (a := dir_bytes l); [by apply list_serialize_ok|]. cbn [payload] in *.
    eapply runs_bind; [by eapply view_resize_spec|]. intros [] s1 Hs1.
    eapply runs_bind; [eapply (view_write_spec n s1 _ id FsBlobView.TDir p (resize_bytes old (length (dir_bytes l))) (dir_bytes l) 0);
      [done|apply lookup_insert_eq|done|done]|].
    intros [] s2 Hs2. rewrite insert_insert_eq, resize_write in Hs2. by apply runs_ret.
  - apply runs_ret. split; [done|]. rewrite <- Hold by done. rewrite insert_id by done. apply (blobs_budget _ _ _ _ Hs). lia.
Qed.
End store.
