(* ===== verification/MemBlobs.v ===== *)
(** * A blob store in memory

    The smallest store that keeps the contract of FsBlobSpec.v: a map from
    ids to byte strings, and the number of the next id. *)
From S2P Require Import Prelude Serialization FsBlobs FsBlobSpec BlobModel.
From Stdlib Require Import Lia ZArith.
Open Scope Z_scope.

Record mem := mkMem { m_blobs : gmap bytes bytes; m_next : nat }.
Definition mem_id (k : nat) : bytes := Serialization.serialize 16 (Z.of_nat k + 1).
Definition MEM_MAX : Z := 2 ^ 40.

(** Run on the content of a blob; the ids the file system uses are those of
    blobs. *)
Definition mem_on {A} (id : bytes) (f : bytes → A * bytes) : M mem A := λ s,
  match m_blobs s !! id with
  | None => (Throw UndefinedBehaviour, s)
  | Some c => (Ok (f c).1, mkMem (<[id := (f c).2]> (m_blobs s)) (m_next s))
  end.

#[export] Instance mem_store : BlobStore mem := {
  blob_create := λ s, (Ok (mem_id (m_next s)), mkMem (<[mem_id (m_next s) := []]> (m_blobs s)) (Datatypes.S (m_next s)));
  blob_load := λ id s, (Ok (bool_decide (is_Some (m_blobs s !! id))), s);
  blob_remove := λ id s, (Ok tt, mkMem (delete id (m_blobs s)) (m_next s));
  blob_size := λ id, mem_on id (λ c, (Z.of_nat (length c), c));
  blob_resize := λ id n, mem_on id (λ c, (tt, resize_bytes c (Z.to_nat n)));
  blob_readAll := λ id, mem_on id (λ c, (c, c));
  blob_read := λ id off n, mem_on id (λ c, (slice (Z.to_nat off) (Z.to_nat n) c, c));
  blob_tryRead := λ id off n, mem_on id (λ c, (slice (Z.to_nat off) (Z.to_nat n) c, c));
  blob_write := λ id src off, mem_on id (λ c, (tt, write_bytes c (Z.to_nat off) src));
  blob_flush := λ id, mret tt;
  blob_release := λ id, mret tt;
  blob_numNodes := λ id, mret 1;
  blobs_numBlocks := λ s, (Ok (u64 (Z.of_nat (size (m_blobs s)))), s);
  blobs_estimateSpaceForNumBlocksLeft := mret MEM_MAX;
  blobs_virtualBlocksizeBytes := mret MEM_MAX;
}.

Definition mem_are (n : nat) (s : mem) (m : gmap bytes bytes) : Prop :=
  m_blobs s = m ∧ (∀ id c, m !! id = Some c → Z.of_nat (length c) ≤ MEM_MAX ∧ ∃ k, (k < m_next s)%nat ∧ id = mem_id k) ∧
  Z.of_nat (m_next s) + Z.of_nat n < 2 ^ 64.

Lemma mem_id_inj k j : Z.of_nat k < 2 ^ 64 → Z.of_nat j < 2 ^ 64 → mem_id k = mem_id j → k = j.
Proof.
  intros Hk Hj E. unfold mem_id in E. pose proof (deserialize_serialize 16 (Z.of_nat k + 1) [] ltac:(lia)) as H1.
  pose proof (deserialize_serialize 16 (Z.of_nat j + 1) [] ltac:(lia)) as H2. rewrite E, H2 in H1. injection H1. lia.
Qed.
Lemma mem_id_not_null k : Z.of_nat k < 2 ^ 64 → mem_id k ≠ BlockId.Null.
Proof.
  intros Hk E. unfold mem_id in E. pose proof (deserialize_serialize 16 (Z.of_nat k + 1) [] ltac:(lia)) as H1.
  assert (BlockId.Null = Serialization.serialize 16 0) as E0 by by vm_compute. rewrite E, E0 in H1.
  rewrite (deserialize_serialize 16 0 []) in H1 by lia. injection H1. lia.
Qed.

Lemma mem_put n s m id c c' : mem_are n s m → m !! id = Some c → Z.of_nat (length c') ≤ MEM_MAX →
  mem_are n (mkMem (<[id := c']> (m_blobs s)) (m_next s)) (<[id := c']> m).
Proof.
  intros (<- & Hm & Hn) Hc Hl. split; [done|]. split; [|done]. intros i x Hi. simpl. destruct (decide (id = i)) as [<-|].
  - rewrite lookup_insert_eq in Hi. injection Hi as <-. split; [done|]. by apply (Hm id c).
  - rewrite lookup_insert_ne in Hi by done. by apply Hm.
Qed.
Lemma mem_same n s m id c : mem_are n s m → m !! id = Some c → mem_are n (mkMem (<[id := c]> (m_blobs s)) (m_next s)) m.
Proof. intros H Hc. pose proof H as (E & Hm & Hn). rewrite E, insert_id by done. split; [done|]. by split. Qed.
Lemma mem_on_runs {A} n s m id c (f : bytes → A * bytes) (Q : A → mem → Prop) :
  mem_are n s m → m !! id = Some c → Q (f c).1 (mkMem (<[id := (f c).2]> (m_blobs s)) (m_next s)) → runs (mem_on id f) s Q.
Proof. intros (<- & _) Hc HQ. eexists _, _. split; [unfold mem_on; rewrite Hc; done|done]. Qed.
Lemma mem_are_le n n' s m : (n' ≤ n)%nat → mem_are n s m → mem_are n' s m.
Proof. intros H (E & Hm & Hn). split; [done|]. split; [done|lia]. Qed.

#[export] Program Instance mem_spec : BlobStoreSpec mem := { blobs_are := mem_are; max_blob := MEM_MAX }.
Next Obligation. unfold MEM_MAX. lia. Qed.
Next Obligation.
  intros n s m (<- & Hm & Hn). eapply runs_eq; [done|]. set (id := mem_id (m_next s)).
  assert (m_blobs s !! id = None) as Hid.
  { apply eq_None_not_Some. intros [c Hc]. destruct (Hm id c Hc) as [_ (k & Hk & E)]. apply mem_id_inj in E; lia. }
  split; [done|]. split; [unfold BlockId.valid, id, mem_id; by rewrite length_serialize|]. split; [apply mem_id_not_null; lia|].
  split; [done|]. split; [|simpl; lia]. intros i c Hi. simpl in *. destruct (decide (id = i)) as [<-|].
  - rewrite lookup_insert_eq in Hi. injection Hi as <-. split; [unfold MEM_MAX; simpl; lia|]. exists (m_next s). split; [lia|done].
  - rewrite lookup_insert_ne in Hi by done. destruct (Hm i c Hi) as [? (k & Hk & ->)]. split; [done|]. exists k. split; [lia|done].
Qed.
Next Obligation.
  intros n s m id c H Hc. eapply runs_eq; [done|]. split; [|done]. destruct H as (-> & _). apply bool_decide_true. by eexists.
Qed.
Next Obligation.
  intros n s m id c (<- & Hm & Hn) Hc. eapply runs_eq; [done|]. split; [done|]. split; [|done]. intros i x Hi.
  apply lookup_delete_Some in Hi as [_ Hi]. by apply Hm.
Qed.
Next Obligation. intros n s m id c H Hc. eapply mem_on_runs; [done..|]. split; [done|]. by apply mem_same. Qed.
Next Obligation.
  intros n s m id c k H Hc Hk. eapply mem_on_runs; [done..|]. simpl. rewrite Nat2Z.id. apply (mem_are_le (Datatypes.S n)); [lia|].
  eapply mem_put; [done..|]. by rewrite length_resize_bytes.
Qed.
Next Obligation. intros n s m id c H Hc. eapply mem_on_runs; [done..|]. split; [done|]. by apply mem_same. Qed.
Next Obligation. intros n s m id c off k H Hc _. eapply mem_on_runs; [done..|]. simpl. rewrite !Nat2Z.id. split; [done|]. by apply mem_same. Qed.
Next Obligation. intros n s m id c off k H Hc _ _. eapply mem_on_runs; [done..|]. simpl. rewrite !Nat2Z.id. split; [done|]. by apply mem_same. Qed.
Next Obligation.
  intros n s m id c src off H Hc Hk. eapply mem_on_runs; [done..|]. simpl. rewrite Nat2Z.id. apply (mem_are_le (Datatypes.S n)); [lia|].
  eapply mem_put; [done..|]. destruct (decide (src = [])) as [->|Hne].
  - destruct H as (<- & Hm & _). by apply (Hm id).
  - rewrite length_write_bytes by done. destruct H as (<- & Hm & _). destruct (Hm id c Hc). lia.
Qed.
Next Obligation. intros n s m id c H Hc. by apply runs_ret. Qed.
Next Obligation. intros n s m id c H Hc. by apply runs_ret. Qed.
Next Obligation. intros n s m id c H Hc. by apply runs_ret. Qed.
Next Obligation. intros n n' s m Hle H. by eapply mem_are_le. Qed.
Next Obligation. intros n s m id c (<- & Hm & _) Hc. by apply (Hm id). Qed.
Next Obligation. intros n s m H. eapply runs_eq; [done|]. split; [|done]. destruct H as (<- & _). by exists (size (m_blobs s)). Qed.
Next Obligation. intros n s m H. by apply runs_ret. Qed.
Next Obligation. intros n s m H. by apply runs_ret. Qed.
