(* ===== verification/OnBlocks.v ===== *)
(** * Blobs on blocks (BlobStoreOnBlocks.cpp, BlobOnBlocks.cpp,
      ParallelAccessDataTreeStore.cpp)

    The blob store of a file system: a blob is a data tree, its id is the id
    of the root block. One tree object per blob is open at a time, all
    references to the blob share it; it lives from the load to the release.
    The contract of FsBlobSpec.v is proved for it, so every theorem about
    the file system holds on data trees. *)
From iris.base_logic.lib Require Import own ghost_map ghost_var.
From iris.proofmode Require Import proofmode.
From S2P Require Import Prelude Serialization Nodes Tree NodeLogic NodeSpec TreeModel TreeSpec RootSpec BlobModel BlobSpec Footprint FsBlobs FsBlobSpec.
From Stdlib Require Import Lia ZArith.
Open Scope Z_scope.

(** ** The store *)

(** What the store is set up with; [buffer] is the memory a caller passes to
    a read, [freeBytes] the answer of the block store. *)
Class TreeConfig := {
  layout : DataNodeLayout.t;
  uninit_byte : byte;
  std_log : Z → Z;
  buffer : nat → bytes;
  freeBytes : Z;
  physicalBlockSizeBytes : Z;
}.

(** [b_open] are the open resources of the ParallelAccessStore. *)
Record blob_store := mkBlobs { b_blocks : gmap bytes bytes; b_ids : list bytes; b_open : gmap bytes tree }.

Section ops.
Context `{!TreeConfig}.

(** Run on the blocks, and on the blocks with one of the open trees. *)
Definition on_store {A} (m : M (store unit) A) : M blob_store A := λ s,
  let '(r, s') := m (mkStore (b_blocks s) (b_ids s) tt) in (r, mkBlobs (blocks s') (Nodes.ids s') (b_open s)).
Definition on_open {A} (id : bytes) (m : M (store tree) A) : M blob_store A := λ s,
  match b_open s !! id with
  | None => (Throw UndefinedBehaviour, s)
  | Some x =>
      let '(r, s') := m (mkStore (b_blocks s) (b_ids s) x) in
      (r, mkBlobs (blocks s') (Nodes.ids s') (<[id := ext s']> (b_open s)))
  end.
Definition set_open (f : gmap bytes tree → gmap bytes tree) : M blob_store unit :=
  modify (λ s, mkBlobs (b_blocks s) (b_ids s) (f (b_open s))).

(** [ParallelAccessStore::add] and [load]; the lock and the counter of
    references are the subject of ParallelAccess.v. *)
Definition add (root : node) : M blob_store bytes :=
  s ← get_state ;
  ASSERT (bool_decide (b_open s !! node_id root = None)) "Inserting failed. Already exists." ;;
  set_open (insert (node_id root) (DataTree.new root)) ;;
  mret (node_id root).
Definition load (id : bytes) : M blob_store bool :=
  s ← get_state ;
  if decide (is_Some (b_open s !! id)) then mret true
  else
    root ← on_store (DataTreeStore.load layout id) ;
    match root with
    | None => mret false
    | Some root => add root ;; mret true
    end.
Definition create : M blob_store bytes :=
  root ← on_store (DataTreeStore.createNewTree layout uninit_byte) ; add root.
Definition release (id : bytes) : M blob_store unit := set_open (delete id).
(** [remove] of a blob, or of an id no tree is open for. *)
Definition remove (id : bytes) : M blob_store unit :=
  s ← get_state ;
  match b_open s !! id with
  | Some x => set_open (delete id) ;; on_store (DataTreeStore.remove_tree layout (_rootNode x))
  | None => on_store (DataTreeStore.remove layout id)
  end.
(** An operation of a blob; a caller has the blob open. *)
Definition with_tree {A} (id : bytes) (m : M (store tree) A) : M blob_store A :=
  found ← load id ;
  if (found : bool) then on_open id m else mthrow UndefinedBehaviour.

#[export] Instance on_blocks : BlobStore blob_store := {
  blob_create := create;
  blob_load := load;
  blob_remove := remove;
  blob_size := λ id, with_tree id (DataTree.numBytes layout);
  blob_resize := λ id n, with_tree id (DataTree.resizeNumBytes layout uninit_byte std_log n);
  blob_readAll := λ id, with_tree id (DataTree.readAllBytes layout uninit_byte std_log buffer);
  blob_read := λ id off n, with_tree id (DataTree.readBytes layout uninit_byte std_log (buffer (Z.to_nat n)) off n);
  blob_tryRead := λ id off n, with_tree id (
    r ← DataTree.tryReadBytes layout uninit_byte std_log (buffer (Z.to_nat n)) off n ; mret (take (Z.to_nat r.1) r.2));
  blob_write := λ id src off, with_tree id (DataTree.writeBytes layout uninit_byte std_log src off (Z.of_nat (length src)));
  blob_flush := λ id, with_tree id (mret tt);
  blob_release := release;
  blob_numNodes := λ id, with_tree id (DataTree.numNodes layout);
  blobs_numBlocks := λ s, (Ok (u64 (Z.of_nat (size (b_blocks s)))), s);
  blobs_estimateSpaceForNumBlocksLeft := mret (freeBytes / physicalBlockSizeBytes);
  blobs_virtualBlocksizeBytes := mret (DataNodeLayout.maxBytesPerLeaf layout);
}.
End ops.

(** What the configuration has to satisfy: [max_depth] bounds the trees. *)
Class TreeConfigOk `{!TreeConfig} := {
  max_depth : nat;
  cfg_layout : layout_ok layout;
  cfg_capacity : capacity_ok layout max_depth;
  cfg_std_log : log_ok std_log;
  cfg_powers : powers_fit layout max_depth std_log;
  cfg_buffer n : length (buffer n) = n;
}.

Section spec.
Context {cfg : TreeConfig} {cfg_ok : TreeConfigOk}.
Lemma cfg_log : ceilLog_ok layout max_depth std_log.
Proof using. apply powers_fit_ok; [apply cfg_layout|apply cfg_capacity|apply cfg_std_log|apply cfg_powers]. Qed.
Abbreviation C := (fanout layout).
Abbreviation F := (leafBytes layout).
Abbreviation D := max_depth.
Implicit Types (m : gmap bytes bytes) (O : gmap bytes tree) (s : blob_store).

Definition tree_max : Z := Z.min (Z.of_nat (C ^ D * F)) (2 ^ 62 - 1).
(** The block ids one operation may need. *)
Definition op_cost : nat := 1 + (C ^ D * D + D).

(** The blocks of a blob, and of all blobs. *)
Definition tree_shape (d : nat) (r c : bytes) (o : option tree) : Prop :=
  (d ≤ D)%nat ∧ min_depth layout d (num_leaves F (length c)) ∧
  match o with Some x => _rootNode x = node_of d r ∧ cache_ok layout (_sizeCache x) c | None => True end.
Definition p_blob (r c : bytes) (o : option tree) : footprint := λ B, ∃ d, tree_shape d r c o ∧ p_subtree layout d r (leaves_of F c) B.
Definition p_forest m O : footprint := p_list ((λ p, p_blob p.1 p.2 (O !! p.1)) <$> map_to_list m).

Definition trees_are (n : nat) s m : Prop :=
  (∃ B, B ⊆ b_blocks s ∧ p_forest m (b_open s) B) ∧ dom (b_open s) ⊆ dom m ∧
  ids_ok (mkStore (b_blocks s) (b_ids s) tt) ∧ (n * op_cost ≤ length (b_ids s))%nat ∧
  map_Forall (λ _ c, Z.of_nat (length c) ≤ tree_max) m.

Section logic.
Context {Σ : gFunctors} {X : Type} `{!nodeGS Σ X}.

Lemma rep_forest m O : rep (p_forest m O) ⊣⊢ [∗ map] r ↦ c ∈ m, rep (p_blob r c (O !! r)).
Proof. by rw /p_forest rep_list big_sepL_fmap big_opM_map_to_list. Qed.
Lemma rep_blob r c o : rep (p_blob r c o) ⊣⊢ ∃ d, ⌜tree_shape d r c o⌝ ∗ subtree layout d r (leaves_of F c).
Proof. rw rep_exist. f_equiv. intros d. by rw rep_pure -subtree_rep. Qed.

(** Take one blob out and put another back. *)
Lemma forest_take m O r c : m !! r = Some c →
  rep (p_forest m O) ⊢ rep (p_blob r c (O !! r)) ∗ rep (p_forest (delete r m) (delete r O)).
Proof.
  intros Hr. rw !rep_forest big_sepM_delete //. f_equiv. apply big_sepM_mono. intros i x Hi. apply lookup_delete_Some in Hi as [Hne _].
  by rw lookup_delete_ne.
Qed.
Lemma forest_put m O r c : m !! r = None →
  rep (p_blob r c (O !! r)) ∗ rep (p_forest m (delete r O)) ⊢ rep (p_forest (<[r := c]> m) O).
Proof.
  intros Hr. rw !rep_forest big_sepM_insert //. f_equiv. apply big_sepM_mono. intros i x Hi.
  rw lookup_delete_ne //. intros <-. congruence.
Qed.
Lemma forest_fresh m O r d ls : rep (p_forest m O) -∗ subtree layout d r ls -∗ ⌜m !! r = None⌝.
Proof.
  iIntros "Hm H". destruct (m !! r) as [c|] eqn:E; [|done]. rw forest_take // rep_blob. iDestruct "Hm" as "[(%d' & _ & H') _]".
  iDestruct (subtree_node with "H") as (n p) "[(%u & H & _) _]". iDestruct (subtree_node with "H'") as (n' p') "[(%u' & H' & _) _]".
  by iDestruct (ghost_map_elem_ne with "H H'") as %?.
Qed.
End logic.

(** *** One operation of one open blob *)
Lemma ids_ok_ext {X Y} (x : X) (y : Y) b l : ids_ok (mkStore b l x) → ids_ok (mkStore b l y).
Proof. done. Qed.

Lemma on_open_spec {A} (k n : nat) s m r c x (f : M (store tree) A) (φ : A → Prop) c' :
  trees_are (k + n) s m → m !! r = Some c → b_open s !! r = Some x → Z.of_nat (length c') ≤ tree_max →
  (∀ `{!nodeGS (nodeΣ tree) tree}, ⊢ fresh (k * op_cost) -∗ (∃ t, blob layout D r t c) -∗ wp f (λ a, ⌜φ a⌝ ∗ ∃ t, blob layout D r t c')) →
  runs (on_open r f) s (λ a s', φ a ∧ trees_are n s' (<[r := c']> m)).
Proof.
  intros ((B & HB & Hf) & Hdom & Hids & Hn & Hmax) Hr Hx Hc' Hwp.
  destruct (rep_adequacy f (mkStore (b_blocks s) (b_ids s) x) (p_forest m (b_open s)) B (k * op_cost)
    (λ a x' B, φ a ∧ p_forest (<[r := c']> m) (<[r := x']> (b_open s)) B)) as (a & s' & E & Hids' & Hlen & B' & HB' & Ha & Hf'); [done|done|done|simpl in *; lia| |].
  - intros HG. iIntros "Hf Hx Hn". rw (forest_take _ _ r c) // Hx. iDestruct "Hf" as "[Hb Hf]".
    iApply (wp_wand with "[Hb Hx Hn]").
    { iApply (Hwp HG with "Hn"). iExists (target x), x. iFrame "Hx". iSplit; [done|]. rw rep_blob. iDestruct "Hb" as (d) "[%Hsh H]".
      iExists d. iFrame. iPureIntro. by destruct Hsh as (? & ? & ? & ?). }
    iIntros (a) "(%Ha & %t & %x' & _ & Hx & (%d & (%H1 & %H2 & %H3 & %H4) & H))". iExists x'. iFrame "Hx". rw rep_pure. iSplit; [done|].
    rw -(insert_delete_eq m). iApply forest_put; [by rw lookup_delete_eq|]. rw lookup_insert_eq rep_blob delete_insert_eq. iFrame "Hf". iExists d. by iFrame.
  - exists a, (mkBlobs (blocks s') (Nodes.ids s') (<[r := ext s']> (b_open s))). split; [rw /on_open Hx E //|]. split; [done|].
    split_and!; simpl.
    + by exists B'.
    + rw !dom_insert. set_solver.
    + by destruct s'.
    + simpl in *. lia.
    + by apply map_Forall_insert_2.
Qed.

(** *** Opening and closing *)
Lemma on_store_spec {A} (k : nat) s Q B (f : M (store unit) A) (Post : A → footprint) :
  ids_ok (mkStore (b_blocks s) (b_ids s) tt) → B ⊆ b_blocks s → Q B → (k ≤ length (b_ids s))%nat →
  (∀ `{!nodeGS (nodeΣ unit) unit}, ⊢ rep Q -∗ fresh k -∗ wp f (λ a, rep (Post a))) →
  runs (on_store f) s (λ a s', b_open s' = b_open s ∧ ids_ok (mkStore (b_blocks s') (b_ids s') tt) ∧
    (length (b_ids s) - k ≤ length (b_ids s'))%nat ∧ ∃ B', B' ⊆ b_blocks s' ∧ Post a B').
Proof.
  intros Hids HB HQ Hk Hwp.
  destruct (rep_adequacy f (mkStore (b_blocks s) (b_ids s) tt) Q B k (λ a _, Post a)) as (a & s' & E & Hids' & Hlen & B' & HB' & Hf'); [done..| |].
  - intros HG. iIntros "HQ Hx Hf". iApply (wp_wand with "[HQ Hf]"); [by iApply (Hwp HG with "HQ Hf")|]. iIntros (a) "H". iExists tt. by iFrame.
  - exists a, (mkBlobs (blocks s') (Nodes.ids s') (b_open s)). split; [rw /on_store E //|]. split_and!; [done|by destruct s'|done|by exists B'].
Qed.

(** The tree object of a blob may be replaced by a new one, or dropped. *)
Lemma p_blob_mono r c o o' B : (∀ d, tree_shape d r c o → tree_shape d r c o') → p_blob r c o B → p_blob r c o' B.
Proof. intros H (d & Hs & Hp). exists d. split; [by apply H|done]. Qed.
Lemma p_forest_mono m O O' B : (∀ r c d, m !! r = Some c → tree_shape d r c (O !! r) → tree_shape d r c (O' !! r)) → p_forest m O B → p_forest m O' B.
Proof.
  intros H. rw /p_forest. assert (∀ p, p ∈ map_to_list m → m !! p.1 = Some p.2) as Hl by (intros [r c]; by rw elem_of_map_to_list).
  revert B. induction (map_to_list m) as [|p l IH]; intros B; [done|]. intros (B1 & B2 & E & Hd & H1 & H2). exists B1, B2. split_and!; [done..| |].
  - eapply p_blob_mono, H1. intros d. apply H, Hl. by left.
  - apply IH; [|done]. intros q Hq. apply Hl. by right.
Qed.

Lemma release_spec n s m r : trees_are n s m → runs (release r) s (λ _ s', trees_are n s' m).
Proof.
  intros ((B & HB & Hf) & Hdom & Hids & Hn & Hmax). apply runs_modify. split_and!; try done.
  - exists B. split; [done|]. eapply p_forest_mono, Hf. intros i c d _ (H1 & H2 & H3). split_and!; [done..|]. simpl. rw lookup_delete. by case_decide.
  - simpl. rw dom_delete. set_solver.
Qed.

Lemma add_spec n s m r c d B : trees_are n s m → m !! r = Some c → b_open s !! r = None → node_id (node_of d r) = r →
  B ⊆ b_blocks s → p_forest m (<[r := DataTree.new (node_of d r)]> (b_open s)) B →
  runs (add (node_of d r)) s (λ a s', a = r ∧ is_Some (b_open s' !! r) ∧ trees_are n s' m).
Proof.
  intros (_ & Hdom & Hids & Hn & Hmax) Hr Ho Hnode HB Hf. apply runs_bind_get. rw Hnode. apply runs_bind_assert; [by apply bool_decide_true|].
  apply runs_bind_modify, runs_ret. split; [done|]. split; [simpl; rw lookup_insert_eq; by eexists|]. split_and!; simpl; [by exists B| |done..].
  rw dom_insert_L. apply elem_of_dom_2 in Hr. set_solver.
Qed.

Lemma open_tree_spec n s m r c : trees_are n s m → m !! r = Some c → runs (load r) s (λ a s', a = true ∧ is_Some (b_open s' !! r) ∧ trees_are n s' m).
Proof.
  intros Hs Hr. pose proof Hs as ((B & HB & Hf) & Hdom & Hids & Hn & Hmax). apply runs_bind_get. case_decide as Ho; [by apply runs_ret|].
  apply eq_None_not_Some in Ho.
  eapply runs_bind; [apply (on_store_spec 0 s (p_forest m (b_open s)) B (DataTreeStore.load layout r)
    (λ a B, ∃ d, a = Some (node_of d r) ∧ p_forest m (<[r := DataTree.new (node_of d r)]> (b_open s)) B)); [done..|lia|]|].
  - intros HG. iIntros "Hf _". rw (forest_take _ _ r c) // Ho rep_blob. iDestruct "Hf" as "[(%d & %Hsh & H) Hf]".
    iApply (wp_load_subtree layout cfg_layout with "H"). iIntros "H". rw rep_exist. iExists d. rw rep_pure. iSplit; [done|].
    rw -{2}(insert_delete_id m r c Hr). iApply forest_put; [by rw lookup_delete_eq|]. rw lookup_insert_eq rep_blob delete_insert_eq. iFrame "Hf". iExists d. iFrame.
    iPureIntro. destruct Hsh as (? & ? & _). by split_and!.
  - intros a s1 (Eo & Hids1 & Hlen & B1 & HB1 & d & -> & Hf1). rw -Eo in Hf1.
    eapply runs_bind; [apply (add_spec n s1 m r c d B1); [|done|congruence|by destruct d|done|done]|].
    + split_and!; [|by rw Eo|done|lia|done]. exists B1. split; [done|]. eapply p_forest_mono, Hf1. intros i x d' _. destruct (decide (r = i)) as [<-|Hne].
      * rw Eo Ho. intros (? & ? & _). by split_and!.
      * by rw lookup_insert_ne.
    + intros a s2 (-> & H1 & H2). by apply runs_ret.
Qed.

Lemma with_tree_spec {A} (k n : nat) s m r c (f : M (store tree) A) (φ : A → Prop) c' :
  trees_are (k + n) s m → m !! r = Some c → Z.of_nat (length c') ≤ tree_max →
  (∀ `{!nodeGS (nodeΣ tree) tree}, ⊢ fresh (k * op_cost) -∗ (∃ t, blob layout D r t c) -∗ wp f (λ a, ⌜φ a⌝ ∗ ∃ t, blob layout D r t c')) →
  runs (with_tree r f) s (λ a s', φ a ∧ trees_are n s' (<[r := c']> m)).
Proof.
  intros Hs Hr Hc' Hwp. eapply runs_bind; [by eapply open_tree_spec|]. intros a s1 (-> & [x Hx] & Hs1). by eapply on_open_spec.
Qed.
(** ... that does not change the blob. *)
Lemma read_tree_spec {A} (n : nat) s m r c (f : M (store tree) A) (φ : A → Prop) :
  trees_are n s m → m !! r = Some c →
  (∀ `{!nodeGS (nodeΣ tree) tree}, ⊢ (∃ t, blob layout D r t c) -∗ wp f (λ a, ⌜φ a⌝ ∗ ∃ t, blob layout D r t c)) →
  runs (with_tree r f) s (λ a s', φ a ∧ trees_are n s' m).
Proof.
  intros Hs Hr Hwp. rw -{1}(insert_id m r c Hr). apply (with_tree_spec 0 n s m r c f φ c); [done|done|destruct Hs as (_ & _ & _ & _ & Hmax); by apply (Hmax r)|].
  intros HG. iIntros "_ H". by iApply (Hwp HG).
Qed.

Lemma create_tree_spec n s m : trees_are (S n) s m →
  runs create s (λ r s', m !! r = None ∧ new_id r ∧ trees_are n s' (<[r := []]> m)).
Proof.
  intros ((B & HB & Hf) & Hdom & Hids & Hn & Hmax).
  eapply runs_bind; [apply (on_store_spec 1 s (p_forest m (b_open s)) B (DataTreeStore.createNewTree layout uninit_byte)
    (λ a B, ∃ r, (a = LeafNode r ∧ new_id r ∧ m !! r = None) ∧ p_forest (<[r := []]> m) (<[r := DataTree.new (LeafNode r)]> (b_open s)) B)); [done..|rw /op_cost in Hn; lia|]|].
  - intros HG. iIntros "Hf Hn". iApply (wp_wand with "[Hn]"); [by iApply (wp_createNewTree layout uninit_byte cfg_layout with "Hn")|].
    iIntros (a) "(%r & [-> %Hnew] & H)". iDestruct (forest_fresh with "Hf H") as %Hr. rw rep_exist. iExists r. rw rep_pure. iSplit; [done|].
    iApply forest_put; [done|]. rw lookup_insert_eq delete_insert_eq rep_blob. iSplitL "H".
    + iExists 0%nat. iFrame. iPureIntro. split_and!; [lia|by left|done..].
    + rw delete_id //. apply not_elem_of_dom. apply not_elem_of_dom in Hr. set_solver.
  - intros a s1 (Eo & Hids1 & Hlen & B1 & HB1 & r & (-> & Hnew & Hr) & Hf1). rw -Eo in Hf1.
    assert (b_open s1 !! r = None) as Ho. { rw Eo. apply not_elem_of_dom. apply not_elem_of_dom in Hr. set_solver. }
    eapply runs_mono; [apply (add_spec n s1 (<[r := []]> m) r [] 0 B1); [|apply lookup_insert_eq|done|done|done|done]|].
    + split_and!; [|rw Eo dom_insert_L; set_solver|done|rw /op_cost in Hn *; lia|].
      * exists B1. split; [done|]. eapply p_forest_mono, Hf1. intros i x d' _. destruct (decide (r = i)) as [<-|Hne].
        -- rw Ho. intros (? & ? & _). by split_and!.
        -- by rw lookup_insert_ne.
      * apply map_Forall_insert_2; [|done]. rw /tree_max. simpl. lia.
    + intros a s2 (-> & _ & H2). by split_and!.
Qed.

Lemma remove_tree_spec n s m r c : trees_are n s m → m !! r = Some c → runs (remove r) s (λ _ s', trees_are n s' (delete r m)).
Proof.
  intros ((B & HB & Hf) & Hdom & Hids & Hn & Hmax) Hr. apply runs_bind_get.
  assert (∀ s1 (f : M (store unit) unit), b_blocks s1 = b_blocks s → b_ids s1 = b_ids s → b_open s1 = delete r (b_open s) →
    (∀ `{!nodeGS (nodeΣ unit) unit} d, tree_shape d r c (b_open s !! r) → ⊢ subtree layout d r (leaves_of F c) -∗ wp f (λ _, True)) →
    runs (on_store f) s1 (λ _ s', trees_are n s' (delete r m))) as Hgo.
  { intros s1 f Eb Ei Eo Hwp. eapply runs_mono; [apply (on_store_spec 0 s1 (p_forest m (b_open s)) B f (λ _, p_forest (delete r m) (delete r (b_open s))))|].
    - by rw Eb Ei.
    - by rw Eb.
    - done.
    - lia.
    - intros HG. iIntros "Hf _". rw (forest_take _ _ r c) // rep_blob. iDestruct "Hf" as "[(%d & %Hsh & H) Hf]".
      iApply (wp_wand with "[H]"); [by iApply (Hwp HG d Hsh with "H")|]. iIntros (a) "_". done.
    - intros [] s' (Eo' & Hids' & Hlen & B' & HB' & Hf'). split_and!; [exists B'; by rw Eo' Eo|rw Eo' Eo !dom_delete_L; set_solver|done|rw Ei in Hlen; lia|].
      by apply map_Forall_delete. }
  destruct (b_open s !! r) as [x|] eqn:Hx.
  - apply runs_bind_modify. apply Hgo; [done..|]. intros HG d (_ & _ & -> & _). iIntros "H". by iApply (wp_removeSubtree_node layout cfg_layout with "H").
  - apply Hgo; [done..|by rw delete_id|]. intros HG d _. iIntros "H". rw /DataTreeStore.remove. iApply wp_bind.
    iApply (wp_load_subtree layout cfg_layout with "H"). iIntros "H". by iApply (wp_removeSubtree_node layout cfg_layout with "H").
Qed.

(** Every blob has a block of its own, the root of its tree. *)
Lemma trees_blocks n s m : trees_are n s m → (size m ≤ size (b_blocks s))%nat.
Proof.
  intros ((B & HB & Hf) & _). rw -(size_dom m) -(size_dom (b_blocks s)). apply subseteq_size. intros r [c Hr]%elem_of_dom.
  apply (subseteq_dom B); [done|]. destruct (p_list_elem _ (p_blob r c (b_open s !! r)) B Hf) as (B' & HB' & d & _ & Hd).
  { apply list_elem_of_fmap. exists (r, c). split; [done|]. by apply elem_of_map_to_list. }
  apply (subseteq_dom B'); [done|]. by eapply p_subtree_root.
Qed.

(** ** The contract *)
Lemma root_cost_le n e : (e ≤ C ^ D)%nat → (root_cost D n e ≤ op_cost)%nat.
Proof. intros He. rw /root_cost /op_cost. destruct (n <? e)%nat; [|lia]. assert ((e - n) * D ≤ C ^ D * D)%nat by (apply Nat.mul_le_mono_r; lia). lia. Qed.
Lemma tree_max_le k : Z.of_nat k ≤ tree_max → (k ≤ C ^ D * F)%nat.
Proof. rw /tree_max. lia. Qed.

#[export] Program Instance on_blocks_spec : BlobStoreSpec blob_store := { blobs_are := trees_are; max_blob := tree_max }.
Next Obligation. rw /tree_max. lia. Qed.
Next Obligation. intros n s m Hs. eapply runs_mono; [by apply create_tree_spec|]. intros r s' (H1 & [H2 H3] & H4). by split_and!. Qed.
Next Obligation. intros n s m r c Hs Hr. eapply runs_mono; [by eapply open_tree_spec|]. intros a s' (H1 & _ & H2). by split. Qed.
Next Obligation. intros n s m r c Hs Hr. by eapply remove_tree_spec. Qed.
Next Obligation.
  intros n s m r c Hs Hr. eapply read_tree_spec; [done..|]. intros HG. iIntros "(%t & H)".
  iApply (wp_wand with "[H]"); [by iApply (wp_numBytes layout D cfg_layout cfg_capacity with "H")|]. iIntros (a) "[-> H]". iSplit; [done|by iExists t].
Qed.
Next Obligation.
  intros n s m r c k Hs Hr Hk. eapply runs_mono; [apply (with_tree_spec 1 n s m r c _ (λ _, True) (resize_bytes c k)); [done|done|by rw length_resize_bytes|]|by intros ? ? [_ ?]].
  intros HG. iIntros "Hf (%t & H)". apply tree_max_le in Hk.
  iApply (wp_wand _ (λ _, blob layout D r t (resize_bytes c k)) with "[Hf H]"); [|iIntros (a) "H"; iSplit; [done|by iExists t]].
  iApply (wp_resizeNumBytes layout uninit_byte std_log D cfg_layout cfg_capacity cfg_log with "[Hf] H"); [done|]. iApply (fresh_mono with "Hf").
  rw Nat.mul_1_l. apply root_cost_le. by apply (num_leaves_bound layout D cfg_layout).
Qed.
Next Obligation.
  intros n s m r c Hs Hr. eapply read_tree_spec; [done..|]. intros HG. iIntros "(%t & H)".
  iApply (wp_readAllBytes layout uninit_byte std_log D cfg_layout cfg_capacity cfg_log with "H"). apply cfg_buffer.
Qed.
Next Obligation.
  intros n s m r c off k Hs Hr Hk. eapply read_tree_spec; [done..|]. intros HG. iIntros "(%t & H)". rw Nat2Z.id.
  iApply (wp_readBytes layout uninit_byte std_log D cfg_layout cfg_capacity cfg_log with "H"); [done|apply cfg_buffer].
Qed.
Next Obligation.
  intros n s m r c off k Hs Hr Ho Hk. eapply read_tree_spec; [done..|]. intros HG. iIntros "(%t & H)". rw Nat2Z.id. iApply wp_bind.
  iApply (wp_wand with "[H]"); [iApply (wp_tryReadBytes layout uninit_byte std_log D cfg_layout cfg_capacity cfg_log with "H"); [done|done|by rw cfg_buffer]|].
  iIntros (p) "[-> H]". iApply wp_ret. iFrame. iPureIntro. cbn [fst snd]. rw Nat2Z.id /splice take_0 /=.
  set (j := Nat.min k (length c - off)). rw take_app_le; [|rw length_slice_min; lia]. rw take_ge; [|rw length_slice_min; lia].
  rw /slice /j. destruct (Nat.le_ge_cases k (length c - off)); [by rw Nat.min_l|]. rw Nat.min_r // !take_ge //; rw length_drop; lia.
Qed.
Next Obligation.
  intros n s m r c src off Hs Hr Hk. pose proof (tree_max_le _ Hk) as Hk'. pose proof Hs as (_ & _ & _ & _ & Hmax). pose proof (Hmax r c Hr) as Hc. simpl in Hc.
  eapply runs_mono; [apply (with_tree_spec 1 n s m r c _ (λ _, True) (write_bytes c off src)); [done|done| |]|by intros ? ? [_ ?]].
  { destruct (decide (src = [])) as [->|Hne]; [done|]. rw length_write_bytes //. lia. }
  intros HG. iIntros "Hf (%t & H)". iApply (wp_wand _ (λ _, blob layout D r t (write_bytes c off src)) with "[Hf H]"); [|iIntros (a) "H"; iSplit; [done|by iExists t]].
  iApply (wp_writeBytes layout uninit_byte std_log D cfg_layout cfg_capacity cfg_log with "[Hf] H"); [done|]. iApply (fresh_mono with "Hf").
  rw Nat.mul_1_l. apply root_cost_le. by apply (cdiv_bound layout D cfg_layout).
Qed.
Next Obligation. intros n s m r c Hs Hr. eapply runs_mono; [eapply (read_tree_spec _ _ _ _ _ _ (λ _, True)); [done..|]|by intros ? ? [_ ?]]. intros HG. iIntros "H". iApply wp_ret. by iSplit. Qed.
Next Obligation. intros n s m r c Hs Hr. by apply release_spec. Qed.
Next Obligation.
  intros n s m r c Hs Hr. eapply runs_mono; [eapply (read_tree_spec _ _ _ _ _ _ (λ _, True)); [done..|]|by intros ? ? [_ ?]]. intros HG. iIntros "(%t & H)".
  iApply (wp_wand with "[H]"); [by iApply (wp_numNodes layout D cfg_layout cfg_capacity with "H")|]. iIntros (a) "H". iSplit; [done|by iExists t].
Qed.
Next Obligation. intros n n' s m Hle (H1 & H2 & H3 & H4 & H5). split_and!; [done..| |done]. transitivity (n * op_cost)%nat; [by apply Nat.mul_le_mono_r|done]. Qed.
Next Obligation. intros n s m r c (_ & _ & _ & _ & H5) Hr. by apply (H5 r). Qed.
Next Obligation. intros n s m Hs. eapply runs_eq; [done|]. split; [|done]. exists (size (b_blocks s)). split; [by eapply trees_blocks|done]. Qed.
Next Obligation. intros n s m Hs. by apply runs_ret. Qed.
Next Obligation. intros n s m Hs. by apply runs_ret. Qed.
End spec.
