(* ===== verification/FsTree.v ===== *)
(** * The directory tree

    The abstract file system: a map from ids to nodes, where a directory maps
    the ids of its children to their types and names. [tree_ok] is the
    structural invariant: every entry of a directory names a node of its type
    that points back to the directory, and every directory that has entries
    can be reached from the root. So every node has at most one parent and
    there are no cycles. The lemmas say which changes preserve it; [resolve]
    is the meaning of a path. *)
From S2P Require Import Prelude Serialization DirEntry FsBlobs.
From Stdlib Require Import Lia ZArith.
Open Scope Z_scope.
Import DirEntry.

Inductive vcontent :=
| VFile (c : bytes)
| VDir (e : gmap bytes (EntryType * bytes))
| VSymlink (target : bytes).
Record vnode := mkV { v_parent : bytes; v_content : vcontent }.

Definition v_type (c : vcontent) : EntryType :=
  match c with VFile _ => FILE | VDir _ => DIR | VSymlink _ => SYMLINK end.
Definition blob_type (ty : EntryType) : FsBlobView.BlobType :=
  match ty with DIR => FsBlobView.TDir | FILE => FsBlobView.TFile | SYMLINK => FsBlobView.TSymlink end.

(** The child with a name. *)
Definition vfind (name : bytes) (e : gmap bytes (EntryType * bytes)) : option (bytes * EntryType) :=
  (λ q, (q.1, q.2.1)) <$> head (filter (λ q, q.2.2 = name) (map_to_list e)).

Lemma vfind_Some name e id ty : vfind name e = Some (id, ty) → e !! id = Some (ty, name).
Proof.
  unfold vfind. intros H. apply fmap_Some in H as ([i [t nm]] & H & [= -> ->]).
  apply head_Some_elem_of, list_elem_of_filter in H as [Hn H]. simpl in *. subst nm. by apply elem_of_map_to_list.
Qed.
Lemma vfind_None name e id ty : vfind name e = None → e !! id ≠ Some (ty, name).
Proof.
  unfold vfind. intros H He. apply fmap_None, head_None in H. apply elem_of_map_to_list in He.
  assert ((id, (ty, name)) ∈ filter (λ q, q.2.2 = name) (map_to_list e)) as Hin by by apply list_elem_of_filter.
  rewrite H in Hin. by apply elem_of_nil in Hin.
Qed.

Section tree.
Context (root : bytes).
Implicit Types (v : gmap bytes vnode) (d id p q tp : bytes) (e : gmap bytes (EntryType * bytes)) (x : EntryType * bytes).

Definition dir_at v d p e : Prop := v !! d = Some (mkV p (VDir e)).
Definition edge v d id : Prop := ∃ p e x, dir_at v d p e ∧ e !! id = Some x.

(** [path_to v ok d]: there is a path from the root to [d] on which all nodes
    are [ok]. *)
Inductive path_to v (ok : bytes → Prop) : bytes → Prop :=
| path_root : ok root → path_to v ok root
| path_edge d id : path_to v ok d → edge v d id → ok id → path_to v ok id.
Definition reach v : bytes → Prop := path_to v (λ _, True).

Record tree_ok v : Prop := {
  tree_root : ∃ e, dir_at v root BlockId.Null e;
  tree_child d p e id x : dir_at v d p e → e !! id = Some x → ∃ c, v !! id = Some (mkV d c) ∧ v_type c = x.1;
  tree_reach d id : edge v d id → reach v d }.

(** The facts every represented map satisfies. *)
Definition dirs_ok v : Prop :=
  (∀ d n, v !! d = Some n → d ≠ BlockId.Null) ∧
  ∀ d p e id id' ty ty' name, dir_at v d p e → e !! id = Some (ty, name) → e !! id' = Some (ty', name) → id = id'.

Lemma path_mono v v' (ok ok' : bytes → Prop) d :
  (∀ i, ok i → ok' i) → (∀ i j, ok j → edge v i j → edge v' i j) → path_to v ok d → path_to v' ok' d.
Proof.
  intros Hok He. induction 1 as [|d id Hd IH Hedge Hid]; [constructor; auto|]. eapply path_edge; [done|auto|auto].
Qed.

(** ** At most one parent, no entry for the root *)
Lemma edge_parent v d id : tree_ok v → edge v d id → ∃ c, v !! id = Some (mkV d c).
Proof. intros Ht (p & e & x & Hd & Hx). destruct (tree_child _ Ht _ _ _ _ _ Hd Hx) as (c & ? & _). by exists c. Qed.
Lemma parent_unique v d d' id : tree_ok v → edge v d id → edge v d' id → d = d'.
Proof.
  intros Ht H H'. destruct (edge_parent _ _ _ Ht H) as [c Hc], (edge_parent _ _ _ Ht H') as [c' Hc']. congruence.
Qed.
Lemma root_no_parent v d : tree_ok v → dirs_ok v → ¬ edge v d root.
Proof.
  intros Ht [Hn _] He. destruct (edge_parent _ _ _ Ht He) as [c Hc]. destruct (tree_root _ Ht) as [e Hr].
  destruct He as (p & e' & x & Hd & _). apply (Hn d _ Hd). unfold dir_at in *. congruence.
Qed.

(** ** Changes that keep the tree *)

(** A node gets another content of the same kind that has the same children. *)
Definition same_shape (c c' : vcontent) : Prop :=
  match c, c' with
  | VDir e, VDir e' => ∀ id, (fst <$> e !! id) = (fst <$> e' !! id)
  | VFile _, VFile _ => True
  | _, _ => c = c'
  end.

Lemma same_shape_type c c' : same_shape c c' → v_type c = v_type c'.
Proof. by destruct c, c'. Qed.

Lemma shape_lookup v i p c c' j n : v !! i = Some (mkV p c) → same_shape c c' →
  <[i := mkV p c']> v !! j = Some n → ∃ c0, v !! j = Some (mkV (v_parent n) c0) ∧ same_shape c0 (v_content n).
Proof.
  intros Hi Hs. destruct (decide (i = j)) as [<-|Hne].
  - rewrite lookup_insert_eq. intros [= <-]. by exists c.
  - rewrite lookup_insert_ne by done. intros Hj. destruct n as [q c0]. exists c0. split; [done|]. by destruct c0.
Qed.

Lemma shape_edge v i p c c' d id : v !! i = Some (mkV p c) → same_shape c c' → edge v d id → edge (<[i := mkV p c']> v) d id.
Proof.
  intros Hi Hs (q & e & x & Hd & Hx). unfold edge, dir_at in *. destruct (decide (i = d)) as [<-|Hne].
  - rewrite Hi in Hd. injection Hd as -> ->. destruct c' as [|e'|]; [done| |done]. specialize (Hs id). rewrite Hx in Hs.
    destruct (e' !! id) as [x'|] eqn:E; [|done]. exists q, e', x'. by rewrite lookup_insert_eq.
  - exists q, e, x. by rewrite lookup_insert_ne.
Qed.

Lemma tree_same_shape v i p c c' : tree_ok v → v !! i = Some (mkV p c) → same_shape c c' → tree_ok (<[i := mkV p c']> v).
Proof.
  intros Ht Hi Hs. split.
  - destruct (tree_root _ Ht) as [e Hr]. unfold dir_at in *. destruct (decide (i = root)) as [->|].
    + rewrite Hi in Hr. injection Hr as -> ->. destruct c' as [|e'|]; [done| |done]. exists e'. apply lookup_insert_eq.
    + exists e. by rewrite lookup_insert_ne.
  - intros d q e id x Hd Hx. destruct (shape_lookup _ _ _ _ _ _ _ Hi Hs Hd) as (c0 & Hd0 & Hs0). simpl in Hd0, Hs0.
    destruct c0 as [|e0|]; [done| |done]. specialize (Hs0 id) as Hid. rewrite Hx in Hid. destruct (e0 !! id) as [x0|] eqn:Ex0; [|done].
    destruct (tree_child _ Ht _ _ _ _ _ Hd0 Ex0) as (c1 & Hc1 & Hty). injection Hid as Hid. rewrite <- Hid.
    destruct (decide (i = id)) as [<-|].
    + rewrite Hi in Hc1. injection Hc1 as -> ->. exists c'. rewrite lookup_insert_eq. split; [done|]. by rewrite <- (same_shape_type _ _ Hs).
    + exists c1. by rewrite lookup_insert_ne.
  - intros d id (q & e & x & Hd & Hx). destruct (shape_lookup _ _ _ _ _ _ _ Hi Hs Hd) as (c0 & Hd0 & Hs0). simpl in Hd0, Hs0.
    destruct c0 as [|e0|]; [done| |done]. specialize (Hs0 id) as Hid. rewrite Hx in Hid. destruct (e0 !! id) as [x0|] eqn:Ex0; [|done].
    eapply path_mono; [done|intros j k _; by apply (shape_edge v i p c c')|]. apply (tree_reach _ Ht d id). by exists q, e0, x0.
Qed.

Lemma shape_retitle e id ty name name' : e !! id = Some (ty, name) → same_shape (VDir e) (VDir (<[id := (ty, name')]> e)).
Proof.
  intros Hx j. destruct (decide (id = j)) as [<-|]; [|by rewrite lookup_insert_ne]. by rewrite lookup_insert_eq, Hx.
Qed.

(** A new node without children that no directory has an entry for yet. *)
Lemma tree_new v id p c : tree_ok v → v !! id = None → (∀ e, c = VDir e → e = ∅) → tree_ok (<[id := mkV p c]> v).
Proof.
  intros Ht Hid Hc. split.
  - destruct (tree_root _ Ht) as [e Hr]. exists e. unfold dir_at in *. rewrite lookup_insert_ne by (intros ->; by rewrite Hid in Hr). done.
  - intros d q e i x Hd Hx. unfold dir_at in *. destruct (decide (id = d)) as [<-|].
    + rewrite lookup_insert_eq in Hd. injection Hd as -> ->. rewrite (Hc e eq_refl) in Hx. by rewrite lookup_empty in Hx.
    + rewrite lookup_insert_ne in Hd by done. destruct (tree_child _ Ht _ _ _ _ _ Hd Hx) as (c1 & Hc1 & Hty).
      exists c1. rewrite lookup_insert_ne by (intros ->; by rewrite Hid in Hc1). done.
  - intros d i (q & e & x & Hd & Hx). unfold dir_at in *. destruct (decide (id = d)) as [<-|].
    + rewrite lookup_insert_eq in Hd. injection Hd as -> ->. rewrite (Hc e eq_refl) in Hx. by rewrite lookup_empty in Hx.
    + rewrite lookup_insert_ne in Hd by done. eapply path_mono; [done| |apply (tree_reach _ Ht d i); by exists q, e, x].
      intros j k _ (q' & e' & x' & Hd' & Hx'). exists q', e', x'. unfold dir_at in *.
      rewrite lookup_insert_ne by (intros ->; by rewrite Hid in Hd'). done.
Qed.

(** An entry for a node that points to the directory already. *)
Lemma tree_link v d p e id x c :
  tree_ok v → dir_at v d p e → reach v d → e !! id = None → v !! id = Some (mkV d c) → v_type c = x.1 →
  tree_ok (<[d := mkV p (VDir (<[id := x]> e))]> v).
Proof.
  intros Ht Hd Hr He Hid Hty. set (v' := <[d := _]> v).
  assert (∀ i j, edge v i j → edge v' i j) as Hedge.
  { intros i j (q & e' & y & Hi & Hy). unfold edge, dir_at, v' in *. destruct (decide (d = i)) as [<-|].
    - rewrite Hd in Hi. injection Hi as <- <-. exists p, (<[id := x]> e), y. rewrite lookup_insert_eq. split; [done|].
      rewrite lookup_insert_ne; [done|]. intros ->. congruence.
    - exists q, e', y. by rewrite lookup_insert_ne. }
  assert (∀ i n, v !! i = Some n → ∃ c', v' !! i = Some (mkV (v_parent n) c') ∧ v_type c' = v_type (v_content n)) as Hkeep.
  { intros i n Hi. unfold v', dir_at in *. destruct (decide (d = i)) as [<-|].
    - rewrite lookup_insert_eq. rewrite Hd in Hi. injection Hi as <-. by eexists.
    - rewrite lookup_insert_ne by done. destruct n. by eexists. }
  split.
  - destruct (tree_root _ Ht) as [e' Hr']. unfold dir_at, v' in *. destruct (decide (d = root)) as [->|].
    + rewrite Hd in Hr'. injection Hr' as -> ->. eexists. apply lookup_insert_eq.
    + exists e'. by rewrite lookup_insert_ne.
  - intros i q e' j y Hi Hy.
    assert (∃ c', v !! j = Some (mkV i c') ∧ v_type c' = y.1) as (c' & Hj & Hty').
    { unfold dir_at, v' in Hi. destruct (decide (d = i)) as [<-|].
      - rewrite lookup_insert_eq in Hi. injection Hi as <- <-. destruct (decide (id = j)) as [<-|].
        + rewrite lookup_insert_eq in Hy. injection Hy as <-. by exists c.
        + rewrite lookup_insert_ne in Hy by done. by apply (tree_child _ Ht d p e).
      - rewrite lookup_insert_ne in Hi by done. by apply (tree_child _ Ht i q e'). }
    destruct (Hkeep _ _ Hj) as (c'' & ? & E). exists c''. split; [done|]. by rewrite E.
  - intros i j (q & e' & y & Hi & Hy). eapply path_mono; [done|intros k l _; apply Hedge|].
    unfold dir_at, v' in Hi. destruct (decide (d = i)) as [<-|]; [done|].
    rewrite lookup_insert_ne in Hi by done. apply (tree_reach _ Ht i j). by exists q, e', y.
Qed.

(** Nodes without children. *)
Definition childless (c : vcontent) : Prop := match c with VDir e => e = ∅ | _ => True end.
Lemma childless_no_edge v id p c j : v !! id = Some (mkV p c) → childless c → ¬ edge v id j.
Proof.
  intros Hid Hc (q & e & x & Hd & Hx). unfold dir_at in Hd. rewrite Hid in Hd. injection Hd as -> ->.
  simpl in Hc. subst e. by rewrite lookup_empty in Hx.
Qed.

(** The entry of a childless node goes. *)
Lemma tree_unlink v d p e id q c :
  tree_ok v → dir_at v d p e → v !! id = Some (mkV q c) → childless c →
  tree_ok (<[d := mkV p (VDir (delete id e))]> v).
Proof.
  intros Ht Hd Hid Hc. set (v' := <[d := _]> v).
  assert (∀ i j, edge v' i j → edge v i j) as Hback.
  { intros i j (r & e' & y & Hi & Hy). unfold edge, dir_at, v' in *. destruct (decide (d = i)) as [<-|].
    - rewrite lookup_insert_eq in Hi. injection Hi as <- <-. apply lookup_delete_Some in Hy as [_ Hy]. by exists p, e, y.
    - rewrite lookup_insert_ne in Hi by done. by exists r, e', y. }
  assert (∀ i j, j ≠ id → edge v i j → edge v' i j) as Hedge.
  { intros i j Hne (r & e' & y & Hi & Hy). unfold edge, dir_at, v' in *. destruct (decide (d = i)) as [<-|].
    - rewrite Hd in Hi. injection Hi as <- <-. exists p, (delete id e), y. by rewrite lookup_insert_eq, lookup_delete_ne.
    - exists r, e', y. by rewrite lookup_insert_ne. }
  split.
  - destruct (tree_root _ Ht) as [e' Hr']. unfold dir_at, v' in *. destruct (decide (d = root)) as [->|].
    + rewrite Hd in Hr'. injection Hr' as -> ->. eexists. apply lookup_insert_eq.
    + exists e'. by rewrite lookup_insert_ne.
  - intros i r e' j y Hi Hy.
    assert (∃ c', v !! j = Some (mkV i c') ∧ v_type c' = y.1) as (c' & Hj & Hty').
    { unfold dir_at, v' in Hi. destruct (decide (d = i)) as [<-|].
      - rewrite lookup_insert_eq in Hi. injection Hi as <- <-. apply lookup_delete_Some in Hy as [_ Hy]. by apply (tree_child _ Ht d p e).
      - rewrite lookup_insert_ne in Hi by done. by apply (tree_child _ Ht i r e'). }
    unfold v'. destruct (decide (d = j)) as [<-|]; [|exists c'; by rewrite lookup_insert_ne].
    unfold dir_at in Hd. rewrite Hd in Hj. injection Hj as -> <-. eexists. rewrite lookup_insert_eq. by split.
  - intros i j Hij. apply Hback in Hij as Hij0. assert (i ≠ id) as Hne by (intros ->; by apply (childless_no_edge v id q c j)).
    assert (∀ k, reach v k → k ≠ id → reach v' k) as H; [|apply H; [by apply (tree_reach _ Ht i j)|done]].
    induction 1 as [|k l Hk IH Hkl _]; intros Hl; [by constructor|]. eapply path_edge; [apply IH|by apply Hedge|done].
    intros ->. by apply (childless_no_edge v id q c l).
Qed.

(** A childless node that no entry names goes. *)
Lemma tree_drop v id q c :
  tree_ok v → v !! id = Some (mkV q c) → childless c → id ≠ root → (∀ d, ¬ edge v d id) → tree_ok (delete id v).
Proof.
  intros Ht Hid Hc Hroot Hno.
  assert (∀ i j, edge (delete id v) i j ↔ edge v i j) as Hedge.
  { intros i j. unfold edge, dir_at. split; intros (r & e & x & Hi & Hx); exists r, e, x.
    - apply lookup_delete_Some in Hi as [_ Hi]. done.
    - rewrite lookup_delete_ne; [done|]. intros ->. by apply (childless_no_edge v i q c j Hid Hc); exists r, e, x. }
  split.
  - destruct (tree_root _ Ht) as [e Hr]. exists e. unfold dir_at. by rewrite lookup_delete_ne.
  - intros i r e j y Hi Hy. unfold dir_at in Hi. apply lookup_delete_Some in Hi as [_ Hi].
    destruct (tree_child _ Ht _ _ _ _ _ Hi Hy) as (c' & Hj & Hty). exists c'. rewrite lookup_delete_ne; [done|].
    intros ->. apply (Hno i). by exists r, e, y.
  - intros i j Hij. rewrite Hedge in Hij. apply (path_mono v _ (λ _, True)); [done|intros k l _ H; by apply Hedge|]. by apply (tree_reach _ Ht i j).
Qed.

(** The entry and the node of a childless child go together. *)
Lemma tree_erase v d p e id c : tree_ok v → dirs_ok v → dir_at v d p e → is_Some (e !! id) → v !! id = Some (mkV d c) → childless c →
  tree_ok (<[d := mkV p (VDir (delete id e))]> (delete id v)).
Proof.
  intros Ht Hk Hd [x Hx] Hid Hc. assert (edge v d id) as He by by exists p, e, x.
  assert (d ≠ id) as Hne.
  { intros ->. unfold dir_at in Hd. rewrite Hid in Hd. injection Hd as -> ->. simpl in Hc. subst e. by rewrite lookup_empty in Hx. }
  rewrite <- delete_insert_ne by done. eapply tree_drop; [by eapply tree_unlink|by rewrite lookup_insert_ne|done| |].
  - intros ->. by apply (root_no_parent v d).
  - intros d' (q & e' & y & Hd' & Hy). unfold dir_at in Hd'. destruct (decide (d = d')) as [<-|Hdd].
    + rewrite lookup_insert_eq in Hd'. injection Hd' as <- <-. by rewrite lookup_delete_eq in Hy.
    + rewrite lookup_insert_ne in Hd' by done. apply Hdd. apply (parent_unique v _ _ id Ht He). by exists q, e', y.
Qed.

(** ** Moving *)
Lemma path_ok v ok i : path_to v ok i → ok i.
Proof. by intros []. Qed.

Lemma no_loop v d : tree_ok v → dirs_ok v → ¬ edge v d d.
Proof.
  intros Ht Hk Hloop. assert (reach v d) as Hr by by apply (tree_reach _ Ht d d).
  assert (∀ i, reach v i → i = d → False) as H; [|by eapply H].
  clear Hr. induction 1 as [|k l Hk' IH Hkl _]; intros Hd; [subst d; by eapply root_no_parent|subst l].
  apply IH. by apply (parent_unique v _ _ d Ht).
Qed.

(** A node moves to a directory that is not below it. *)
Lemma tree_move v par pp ep tp pt et id x x' c :
  tree_ok v → dirs_ok v → dir_at v par pp ep → ep !! id = Some x → dir_at v tp pt et → par ≠ tp → path_to v (λ i, i ≠ id) tp →
  v !! id = Some (mkV par c) → x'.1 = x.1 →
  tree_ok (<[id := mkV tp c]> (<[par := mkV pp (VDir (delete id ep))]> (<[tp := mkV pt (VDir (<[id := x']> et))]> v))).
Proof.
  intros Ht Hk Hpar Hx Htp Hne Hpath Hid Hty. set (v' := <[id := _]> _). unfold dir_at in *.
  pose proof (path_ok _ _ _ Hpath) as Htid. simpl in Htid.
  assert (edge v par id) as He by by exists pp, ep, x.
  assert (par ≠ id) as Hpid by (intros ->; by apply (no_loop v id)).
  assert (root ≠ id) as Hroot by (intros <-; by apply (root_no_parent v par)).
  assert (∀ i j, j ≠ id → edge v i j → edge v' i j) as Hedge.
  { intros i j Hj (q & e & y & Hi & Hy). unfold edge, dir_at, v' in *.
    destruct (decide (id = i)) as [<-|]; [rewrite Hid in Hi; injection Hi as <- ->; exists tp, e, y; by rewrite lookup_insert_eq|].
    rewrite lookup_insert_ne by done. destruct (decide (par = i)) as [<-|].
    { rewrite Hpar in Hi. injection Hi as <- <-. exists pp, (delete id ep), y. by rewrite lookup_insert_eq, lookup_delete_ne. }
    rewrite lookup_insert_ne by done. destruct (decide (tp = i)) as [<-|].
    { rewrite Htp in Hi. injection Hi as <- <-. exists pt, (<[id := x']> et), y. by rewrite lookup_insert_eq, lookup_insert_ne. }
    rewrite lookup_insert_ne by done. by exists q, e, y. }
  assert (edge v' tp id) as Hnew.
  { exists pt, (<[id := x']> et), x'. unfold dir_at, v'. rewrite !lookup_insert_ne, !lookup_insert_eq by done. done. }
  assert (∀ i q e j y, dir_at v' i q e → e !! j = Some y → (i = tp ∧ j = id ∧ y = x') ∨ (j ≠ id ∧ ∃ q' e', dir_at v i q' e' ∧ e' !! j = Some y)) as Hback.
  { intros i q e j y Hi Hy. unfold dir_at, v' in *.
    assert (∀ q' e', v !! i = Some (mkV q' (VDir e')) → i ≠ par → e' !! j = Some y → j ≠ id) as Hj.
    { intros q' e' Hi' Hip Hy' ->. apply Hip. apply (parent_unique v _ _ id Ht); [by exists q', e', y|done]. }
    destruct (decide (id = i)) as [<-|].
    { rewrite lookup_insert_eq in Hi. injection Hi as <- ->. right. split; [by eapply Hj|]. by exists par, e. }
    rewrite lookup_insert_ne in Hi by done. destruct (decide (par = i)) as [<-|].
    { rewrite lookup_insert_eq in Hi. injection Hi as <- <-. apply lookup_delete_Some in Hy as [? Hy]. right. split; [done|]. by exists pp, ep. }
    rewrite lookup_insert_ne in Hi by done. destruct (decide (tp = i)) as [<-|].
    { rewrite lookup_insert_eq in Hi. injection Hi as <- <-. destruct (decide (id = j)) as [<-|].
      - rewrite lookup_insert_eq in Hy. injection Hy as <-. by left.
      - rewrite lookup_insert_ne in Hy by done. right. split; [done|]. by exists pt, et. }
    rewrite lookup_insert_ne in Hi by done. right. split; [by eapply Hj|]. by exists q, e. }
  assert (∀ i n, v !! i = Some n → i ≠ id → ∃ c', v' !! i = Some (mkV (v_parent n) c') ∧ v_type c' = v_type (v_content n)) as Hkeep.
  { intros i n Hi Hni. unfold v'. rewrite lookup_insert_ne by done. destruct (decide (par = i)) as [<-|].
    { rewrite Hpar in Hi. injection Hi as <-. eexists. by rewrite lookup_insert_eq. }
    rewrite lookup_insert_ne by done. destruct (decide (tp = i)) as [<-|].
    { rewrite Htp in Hi. injection Hi as <-. eexists. by rewrite lookup_insert_eq. }
    rewrite lookup_insert_ne by done. destruct n. by eexists. }
  assert (reach v' tp) as Hrtp by (apply (path_mono v v' (λ i, i ≠ id)); [done|apply Hedge|done]).
  assert (reach v' id) as Hrid by by eapply path_edge.
  assert (∀ i, reach v i → reach v' i) as Hreach.
  { induction 1 as [|k l Hkl IH Hkle _]; [by constructor|]. destruct (decide (l = id)) as [->|]; [done|].
    eapply path_edge; [exact IH|by apply Hedge|done]. }
  split.
  - destruct (tree_root _ Ht) as [e Hr]. destruct (Hkeep root _ Hr Hroot) as (c' & Hc' & Hty'). simpl in *.
    destruct c' as [|e'|]; [done| |done]. by exists e'.
  - intros i q e j y Hi Hy. destruct (Hback _ _ _ _ _ Hi Hy) as [(-> & -> & ->)|(Hj & q' & e' & Hi' & Hy')].
    + exists c. unfold v'. rewrite lookup_insert_eq. split; [done|]. rewrite Hty.
      destruct (tree_child _ Ht _ _ _ _ _ Hpar Hx) as (c0 & Hc0 & <-). rewrite Hid in Hc0. by injection Hc0 as <-.
    + destruct (tree_child _ Ht _ _ _ _ _ Hi' Hy') as (c0 & Hc0 & Hty0). destruct (Hkeep _ _ Hc0 Hj) as (c1 & ? & E).
      exists c1. split; [done|]. by rewrite E.
  - intros i j (q & e & y & Hi & Hy). destruct (Hback _ _ _ _ _ Hi Hy) as [(-> & -> & ->)|(Hj & q' & e' & Hi' & Hy')]; [done|].
    apply Hreach, (tree_reach _ Ht i j). by exists q', e', y.
Qed.

(** ** Operations on the tree *)
Definition on_dir (f : gmap bytes (EntryType * bytes) → gmap bytes (EntryType * bytes)) d v : gmap bytes vnode :=
  alter (λ n, match v_content n with VDir e => mkV (v_parent n) (VDir (f e)) | _ => n end) d v.
Definition vlink d id x v := on_dir <[id := x]> d v.
Definition vunlink d id v := on_dir (delete id) d v.
Definition vset_parent id q v : gmap bytes vnode := alter (λ n, mkV q (v_content n)) id v.
(** A new node, without and with its entry. *)
Definition vnew d id (c : vcontent) v : gmap bytes vnode := <[id := mkV d c]> v.
Definition vcreate d id name (c : vcontent) v := vlink d id (v_type c, name) (vnew d id c v).
(** The node and its entry go. *)
Definition verase d id v : gmap bytes vnode := vunlink d id (delete id v).
(** The node gets a new name, maybe in another directory. *)
Definition vmove (par : bytes) tp id x v :=
  if decide (par = tp) then vlink tp id x v else vset_parent id tp (vunlink par id (vlink tp id x v)).

Lemma on_dir_eq f d v p e : dir_at v d p e → on_dir f d v = <[d := mkV p (VDir (f e))]> v.
Proof.
  intros Hd. unfold on_dir. apply map_eq. intros i. unfold dir_at in Hd. destruct (decide (d = i)) as [<-|].
  - by rewrite lookup_alter_eq, lookup_insert_eq, Hd.
  - by rewrite lookup_alter_ne, lookup_insert_ne.
Qed.
Lemma vset_parent_eq id q v p c : v !! id = Some (mkV p c) → vset_parent id q v = <[id := mkV q c]> v.
Proof.
  intros Hd. unfold vset_parent. apply map_eq. intros i. destruct (decide (id = i)) as [<-|].
  - by rewrite lookup_alter_eq, lookup_insert_eq, Hd.
  - by rewrite lookup_alter_ne, lookup_insert_ne.
Qed.

Lemma tree_vnew d id c v : tree_ok v → v !! id = None → childless c → tree_ok (vnew d id c v).
Proof. intros Ht Hid Hc. apply tree_new; [done..|]. by intros e ->. Qed.

Lemma tree_vcreate d id name c v p e : tree_ok v → dir_at v d p e → reach v d → v !! id = None → childless c → tree_ok (vcreate d id name c v).
Proof.
  intros Ht Hd Hr Hid Hc. assert (d ≠ id) as Hne by (intros ->; unfold dir_at in Hd; congruence).
  assert (dir_at (vnew d id c v) d p e) as Hd' by (unfold dir_at, vnew; by rewrite lookup_insert_ne).
  unfold vcreate, vlink. rewrite (on_dir_eq _ _ _ _ _ Hd'). eapply tree_link.
  - by apply tree_vnew.
  - done.
  - apply (path_mono v _ (λ _, True)); [done| |done]. intros i j _ (q & e' & x & Hi & Hx). exists q, e', x. split; [|done].
    unfold dir_at, vnew in *. rewrite lookup_insert_ne; [done|]. intros ->. congruence.
  - destruct (e !! id) as [x|] eqn:E; [|done]. destruct (tree_child _ Ht _ _ _ _ _ Hd E) as (c' & ? & _). congruence.
  - apply lookup_insert_eq.
  - done.
Qed.

Lemma child_not_dir v d p e id x : tree_ok v → dirs_ok v → dir_at v d p e → e !! id = Some x → d ≠ id.
Proof. intros Ht Hk Hd Hx ->. apply (no_loop v id); [done..|]. by exists p, e, x. Qed.

Lemma tree_verase d id v p e c : tree_ok v → dirs_ok v → dir_at v d p e → is_Some (e !! id) → v !! id = Some (mkV d c) → childless c →
  tree_ok (verase d id v).
Proof.
  intros Ht Hk Hd He Hid Hc. pose proof He as [x Hx]. pose proof (child_not_dir _ _ _ _ _ _ Ht Hk Hd Hx) as Hne.
  unfold verase, vunlink. rewrite (on_dir_eq _ _ _ p e) by (unfold dir_at; by rewrite lookup_delete_ne).
  by eapply tree_erase.
Qed.

Lemma tree_vmove (par : bytes) tp id ty name name' v pp ep pt et : tree_ok v → dirs_ok v → dir_at v par pp ep → ep !! id = Some (ty, name) →
  dir_at v tp pt et → path_to v (λ i, i ≠ id) tp → tree_ok (vmove par tp id (ty, name') v).
Proof.
  intros Ht Hk Hpar Hx Htp Hpath. unfold vmove. case_decide as Heq.
  - subst tp. unfold dir_at in *. rewrite Hpar in Htp. injection Htp as <- <-. unfold vlink. rewrite (on_dir_eq _ _ _ _ _ Hpar).
    eapply tree_same_shape; [done|exact Hpar|]. by eapply shape_retitle.
  - destruct (tree_child _ Ht _ _ _ _ _ Hpar Hx) as (c & Hc & _). pose proof (child_not_dir _ _ _ _ _ _ Ht Hk Hpar Hx) as Hne.
    pose proof (path_ok _ _ _ Hpath) as Hti. simpl in Hti. unfold vlink, vunlink. rewrite (on_dir_eq _ _ _ _ _ Htp).
    rewrite (on_dir_eq _ _ _ pp ep) by (unfold dir_at; by rewrite lookup_insert_ne).
    rewrite (vset_parent_eq _ _ _ par c) by (by rewrite !lookup_insert_ne). by eapply tree_move.
Qed.

(** A childless node is on no path to another node, so it can be replaced. *)
Section replace.
Context v d p e y c (Ht : tree_ok v) (Hk : dirs_ok v) (Hd : dir_at v d p e) (Hy : is_Some (e !! y)) (Hyc : v !! y = Some (mkV d c)) (Hc : childless c).

Local Lemma erased_ne : d ≠ y.
Proof using Ht Hk Hd Hy. destruct Hy as [x Hx]. by eapply child_not_dir. Qed.
Local Lemma erased_eq : verase d y v = <[d := mkV p (VDir (delete y e))]> (delete y v).
Proof using Ht Hk Hd Hy.
  pose proof erased_ne. unfold verase, vunlink. apply (on_dir_eq (delete y) d _ p e). unfold dir_at. by rewrite lookup_delete_ne.
Qed.
Lemma erased_dir i q e' : i ≠ y → dir_at v i q e' → dir_at (verase d y v) i q (if decide (i = d) then delete y e' else e').
Proof using Ht Hk Hd Hy.
  intros Hi Hi'. rewrite erased_eq. unfold dir_at in *. case_decide as E.
  - subst i. rewrite lookup_insert_eq. rewrite Hd in Hi'. by injection Hi' as <- <-.
  - by rewrite lookup_insert_ne, lookup_delete_ne.
Qed.
Lemma erased_back i q e' : dir_at (verase d y v) i q e' → ∃ e'', dir_at v i q e'' ∧ (∀ j x, e' !! j = Some x → e'' !! j = Some x).
Proof using Ht Hk Hd Hy.
  rewrite erased_eq. unfold dir_at. destruct (decide (d = i)) as [<-|].
  - rewrite lookup_insert_eq. intros [= <- <-]. exists e. split; [done|]. intros j x Hj. by apply lookup_delete_Some in Hj as [_ ?].
  - rewrite lookup_insert_ne by done. intros Hi. apply lookup_delete_Some in Hi as [_ Hi]. by exists e'.
Qed.
Lemma dirs_verase : dirs_ok (verase d y v).
Proof using Ht Hk Hd Hy.
  destruct Hk as [Hn Hu]. split.
  - intros i n. rewrite erased_eq. destruct (decide (d = i)) as [<-|]; [intros _; by apply (Hn d _ Hd)|].
    rewrite lookup_insert_ne by done. intros Hi. apply lookup_delete_Some in Hi as [_ Hi]. by eapply Hn.
  - intros i q e' j j' ty ty' name Hi H1 H2. destruct (erased_back _ _ _ Hi) as (e'' & Hi' & Hsub). eapply Hu; [exact Hi'|by apply Hsub..].
Qed.
Lemma path_verase ok i : path_to v ok i → i ≠ y → path_to (verase d y v) ok i.
Proof using Ht Hk Hd Hy Hyc Hc.
  induction 1 as [|k l Hkl IH Hedge Hl]; intros Hne; [by constructor|].
  assert (k ≠ y) as Hky by (intros ->; by apply (childless_no_edge v y d c l)). eapply path_edge; [by apply IH| |done].
  destruct Hedge as (q & e' & x & Hk' & Hx). exists q, (if decide (k = d) then delete y e' else e'), x. split; [by apply erased_dir|].
  case_decide; [by rewrite lookup_delete_ne|done].
Qed.

Lemma tree_replace (par : bytes) id ty name name' pp ep : dir_at v par pp ep → ep !! id = Some (ty, name) → y ≠ id → y ≠ par →
  path_to v (λ i, i ≠ id) d → tree_ok (vmove par d id (ty, name') (verase d y v)).
Proof using Ht Hk Hd Hy Hyc Hc.
  intros Hpar Hx Hyi Hyp Hpath. pose proof erased_ne as Hne.
  pose proof (erased_dir par _ _ ltac:(by intros ->) Hpar) as Hpar'. pose proof (erased_dir d _ _ Hne Hd) as Hd'.
  eapply (tree_vmove par d id ty name); [by eapply tree_verase|by apply dirs_verase|exact Hpar'| |exact Hd'|by apply path_verase].
  destruct (decide (par = d)); [by rewrite lookup_delete_ne|done].
Qed.
End replace.

(** ** The meaning of a path

    [f] says what the callback for ancestors does. The result is the node
    and the directory it was found in. *)
Fixpoint resolve v (f : bytes → result unit) (cur : bytes) (par : option bytes) (components : list bytes) : result (option (bytes * option bytes)) :=
  match components with
  | [] => Ok (Some (cur, par))
  | component :: components' =>
      _ ← f cur ;
      match v_content <$> v !! cur with
      | Some (VDir e) =>
          match vfind component e with
          | None => Ok None
          | Some (id, _) => resolve v f id (Some cur) components'
          end
      | _ => Throw (FuseErrno ENOTDIR)
      end
  end.

(** What holds of the node a path leads to. *)
Definition parent_edge v (cur : bytes) (par : option bytes) : Prop :=
  match par with None => cur = root | Some d => edge v d cur end.

Lemma resolve_found v f components : ∀ cur par cur' par', tree_ok v → is_Some (v !! cur) → parent_edge v cur par →
  resolve v f cur par components = Ok (Some (cur', par')) → is_Some (v !! cur') ∧ parent_edge v cur' par'.
Proof.
  induction components as [|comp comps IH]; intros cur par cur' par' Ht Hc Hp; [by intros [= <- <-]|]. simpl.
  destruct (f cur); [|done]. simpl. destruct (v !! cur) as [[q [|e|]]|] eqn:Hcur; try done. simpl.
  destruct (vfind comp e) as [[id ty]|] eqn:Hf; [|done]. apply vfind_Some in Hf. apply IH; [done| |].
  - destruct (tree_child _ Ht _ _ _ _ _ Hcur Hf) as (c & -> & _). by eexists.
  - by exists q, e, (ty, comp).
Qed.

(** All nodes on the way have passed the callback. *)
Definition parent_path_to v (ok : bytes → Prop) (par : option bytes) : Prop :=
  match par with None => True | Some d => path_to v ok d end.
Lemma path_from_parent v ok cur par : parent_edge v cur par → parent_path_to v ok par → ok cur → path_to v ok cur.
Proof. destruct par as [d|]; simpl; [intros; by eapply path_edge|]. intros -> _ ?. by constructor. Qed.

Lemma resolve_path v f ok components : ∀ cur par cur' par', (∀ i, f i = Ok tt → ok i) →
  parent_edge v cur par → parent_path_to v ok par →
  resolve v f cur par components = Ok (Some (cur', par')) → parent_path_to v ok par'.
Proof.
  induction components as [|comp comps IH]; intros cur par cur' par' Hf Hp Ha; [by intros [= <- <-]|]. simpl.
  destruct (f cur) as [[]|] eqn:Hfc; [|done]. simpl. destruct (v !! cur) as [[q [|e|]]|] eqn:Hcur; try done. simpl.
  destruct (vfind comp e) as [[id ty]|] eqn:Hfi; [|done]. apply vfind_Some in Hfi. apply IH; [done| |].
  - by exists q, e, (ty, comp).
  - simpl. by apply (path_from_parent v ok cur par); [| |apply Hf].
Qed.

(** ** A node has one path *)
Lemma resolve_snoc v f (components : list bytes) (x : bytes) : ∀ cur par c pc, resolve v f cur par (components ++ [x]) = Ok (Some (c, pc)) →
  ∃ d g p e ty, resolve v f cur par components = Ok (Some (d, g)) ∧ pc = Some d ∧ dir_at v d p e ∧ e !! c = Some (ty, x).
Proof.
  induction components as [|y ys IH]; intros cur par c pc; simpl.
  - destruct (f cur); [|done]. simpl. destruct (v !! cur) as [[q [|e|]]|] eqn:Hcur; try done. simpl.
    destruct (vfind x e) as [[id ty]|] eqn:Hf; [|done]. intros [= -> <-]. apply vfind_Some in Hf. by exists cur, par, q, e, ty.
  - destruct (f cur); [|done]. simpl. destruct (v !! cur) as [[q [|e|]]|] eqn:Hcur; try done. simpl.
    destruct (vfind y e) as [[id ty]|] eqn:Hf; [|done]. apply IH.
Qed.

Lemma paths_unique v f f' (p : list bytes) : tree_ok v → dirs_ok v → ∀ (q : list bytes) c pp pq,
  resolve v f root None p = Ok (Some (c, pp)) → resolve v f' root None q = Ok (Some (c, pq)) → p = q.
Proof.
  intros Ht Hk. induction p as [|x p IH] using rev_ind; intros q c pp pq Hp Hq.
  - injection Hp as <- _. destruct q as [|y q _] using rev_ind; [done|]. exfalso.
    apply resolve_snoc in Hq as (d & g & p & e & ty & _ & _ & Hd & He). apply (root_no_parent v d); [done..|]. by exists p, e, (ty, y).
  - apply resolve_snoc in Hp as (d & g & p0 & e & ty & Hp & _ & Hd & He). destruct q as [|y q _] using rev_ind.
    + exfalso. injection Hq as <- _. apply (root_no_parent v d); [done..|]. by exists p0, e, (ty, x).
    + apply resolve_snoc in Hq as (d' & g' & p0' & e' & ty' & Hq & _ & Hd' & He').
      assert (d = d') as <- by (apply (parent_unique v _ _ c Ht); [by exists p0, e, (ty, x)|by exists p0', e', (ty', y)]).
      rewrite (IH _ _ _ _ Hp Hq). unfold dir_at in *. rewrite Hd in Hd'. injection Hd' as <- <-. rewrite He in He'. by injection He' as _ <-.
Qed.
End tree.
