(* ===== verification/FsObjects.v ===== *)
(** * Loaded file system blobs
    (cryfs/impl/filesystem/cachingfsblobstore and parallelaccessfsblobstore)

    At any time there is at most one object for a blob: the parallel access
    store shares it between all references, and the caching store keeps it
    when the last reference is gone, until it is evicted and its destructor
    runs. [objects] holds these objects, referenced or cached, by their id; a
    reference is an id. The operations of the reference classes only forward
    to the object. *)
From S2P Require Import Prelude Serialization DirEntry DirEntryList FsBlobs.
From Stdlib Require Import Lia ZArith.

(** [ticks] counts the readings of the system clock. *)
Record fs (S : Type) := mkFs { base : S; objects : gmap bytes FsBlob; ticks : nat }.
Arguments mkFs {S} _ _ _.
Arguments base {S} _.
Arguments objects {S} _.
Arguments ticks {S} _.

Definition set_base {S : Type} (b : S) (s : fs S) : fs S := mkFs b (objects s) (ticks s).
Definition set_objects {S : Type} (o : gmap bytes FsBlob) (s : fs S) : fs S := mkFs (base s) o (ticks s).

Section objects.
Context {S : Type} `{!BlobStore S} (uninit : nat → bytes) (clock : nat → timespec) (startpos : Z → nat → nat).

Definition on_base {A} (m : M S A) : M (fs S) A := zoom base set_base m.
Definition now : M (fs S) timespec := λ s, (Ok (clock (ticks s)), mkFs (base s) (objects s) (Datatypes.S (ticks s))).

(** ** The store *)
Definition object_id (b : FsBlob) : bytes := FsBlobView._baseBlob (baseBlob b).
Definition put_object (b : FsBlob) : M (fs S) unit := modify (λ s, set_objects (<[object_id b := b]> (objects s)) s).

Definition createFileBlob (parent : bytes) : M (fs S) bytes :=
  b ← on_base (FsBlobStore.createFileBlob parent) ; put_object b ;; mret (object_id b).
Definition createDirBlob (parent : bytes) : M (fs S) bytes :=
  b ← on_base (FsBlobStore.createDirBlob parent) ; put_object b ;; mret (object_id b).
Definition createSymlinkBlob (target parent : bytes) : M (fs S) bytes :=
  b ← on_base (FsBlobStore.createSymlinkBlob target parent) ; put_object b ;; mret (object_id b).

(** The dynamic type of the reference, or none when there is no such blob. *)
Definition load (blockId : bytes) : M (fs S) (option FsBlobView.BlobType) :=
  s ← get_state ;
  match objects s !! blockId with
  | Some b => mret (Some (dynamic_type b))
  | None =>
      r ← on_base (FsBlobStore.load blockId) ;
      match r with
      | None => mret None
      | Some b => put_object b ;; mret (Some (dynamic_type b))
      end
  end.

(** A reference that was loaded before points to an object. *)
Definition object (blockId : bytes) : M (fs S) FsBlob :=
  s ← get_state ;
  match objects s !! blockId with Some b => mret b | None => mthrow UndefinedBehaviour end.

Definition remove (blockId : bytes) : M (fs S) unit :=
  b ← object blockId ;
  modify (λ s, set_objects (delete blockId (objects s)) s) ;;
  on_base (FsBlobStore.remove uninit b).

(** The cache drops an object that nobody references; its destructor runs. *)
Definition evict (blockId : bytes) : M (fs S) unit :=
  b ← object blockId ;
  modify (λ s, set_objects (delete blockId (objects s)) s) ;;
  run_destructor (on_base (FsBlobStore.destroy uninit b)).

(** ** Methods of all references *)
Definition parentPointer (blockId : bytes) : M (fs S) bytes :=
  b ← object blockId ; mret (FsBlobView._parentPointer (baseBlob b)).
Definition setParentPointer (blockId parentId : bytes) : M (fs S) unit :=
  b ← object blockId ;
  v ← on_base (FsBlobView.setParentPointer parentId (baseBlob b)) ;
  put_object (with_view v b).

Definition DIR_LSTAT_SIZE : Z := 4096.
Definition lstat_size (blockId : bytes) : M (fs S) Z :=
  b ← object blockId ;
  match b with
  | FileBlob v => on_base (FileBlob.size v)
  | DirBlob _ _ _ => mret DIR_LSTAT_SIZE
  | SymlinkBlob _ target => mret (i64 (Z.of_nat (length target)))
  end.

(** ** Directories *)
Definition get_entries (blockId : bytes) (s : fs S) : list DirEntry.t :=
  match objects s !! blockId with Some (DirBlob _ l _) => l | _ => [] end.
Definition set_entries (blockId : bytes) (l : list DirEntry.t) (s : fs S) : fs S :=
  match objects s !! blockId with
  | Some (DirBlob v _ c) => set_objects (<[blockId := DirBlob v l c]> (objects s)) s
  | _ => s
  end.
Definition dir_object (blockId : bytes) : M (fs S) (FsBlobView.t * list DirEntry.t * bool) :=
  b ← object blockId ;
  match b with DirBlob v l c => mret (v, l, c) | _ => mthrow UndefinedBehaviour end.
Definition set_changed (blockId : bytes) (c : bool) : M (fs S) unit :=
  '(v, l, _) ← dir_object blockId ; put_object (DirBlob v l c).

(** Run a computation on the entries of the directory at [blockId]. *)
Definition on_entries {A} (blockId : bytes) (m : M (fs S) A) : M (fs S) A := _ ← dir_object blockId ; m.

Definition _addChild (dir name blobId : bytes) (entryType : EntryType) (mode uid gid : Z) (a mt : timespec) : M (fs S) unit :=
  on_entries dir (DirEntryList.add startpos (get_entries dir) (set_entries dir) now name blobId entryType mode uid gid a mt) ;;
  set_changed dir true.
Definition AddChildDir (dir name blobId : bytes) (mode uid gid : Z) (a mt : timespec) : M (fs S) unit :=
  _addChild dir name blobId DIR mode uid gid a mt.
Definition AddChildFile (dir name blobId : bytes) (mode uid gid : Z) (a mt : timespec) : M (fs S) unit :=
  _addChild dir name blobId FILE mode uid gid a mt.
Definition symlink_mode : Z :=
  mode_t.addOtherExecFlag (mode_t.addOtherWriteFlag (mode_t.addOtherReadFlag (
  mode_t.addGroupExecFlag (mode_t.addGroupWriteFlag (mode_t.addGroupReadFlag (
  mode_t.addUserExecFlag (mode_t.addUserWriteFlag (mode_t.addUserReadFlag (mode_t.addSymlinkFlag 0))))))))).
Definition AddChildSymlink (dir name blobId : bytes) (uid gid : Z) (a mt : timespec) : M (fs S) unit :=
  _addChild dir name blobId SYMLINK symlink_mode uid gid a mt.
Definition AddOrOverwriteChild (dir name blobId : bytes) (entryType : EntryType) (mode uid gid : Z) (a mt : timespec)
    (onOverwritten : bytes → M (fs S) unit) : M (fs S) unit :=
  on_entries dir (DirEntryList.addOrOverwrite startpos (get_entries dir) (set_entries dir) now
                    name blobId entryType mode uid gid a mt onOverwritten) ;;
  set_changed dir true.
Definition RenameChild (dir blockId newName : bytes) (onOverwritten : bytes → M (fs S) unit) : M (fs S) unit :=
  on_entries dir (DirEntryList.rename startpos (get_entries dir) (set_entries dir) now blockId newName onOverwritten) ;;
  set_changed dir true.
Definition GetChild_by_name (dir name : bytes) : M (fs S) (option DirEntry.t) :=
  on_entries dir (DirEntryList.get_by_name (get_entries dir) name).
Definition GetChild_by_id (dir blockId : bytes) : M (fs S) (option DirEntry.t) :=
  on_entries dir (DirEntryList.get_by_id startpos (get_entries dir) blockId).
Definition RemoveChild_by_name (dir name : bytes) : M (fs S) unit :=
  on_entries dir (DirEntryList.remove_by_name (get_entries dir) (set_entries dir) name) ;;
  set_changed dir true.
Definition RemoveChild_by_id (dir blockId : bytes) : M (fs S) unit :=
  on_entries dir (DirEntryList.remove_by_id startpos (get_entries dir) (set_entries dir) blockId) ;;
  set_changed dir true.
Definition AppendChildrenTo (dir : bytes) (result : list (EntryType * bytes)) : M (fs S) (list (EntryType * bytes)) :=
  on_entries dir (l ← DirEntryList.entries (get_entries dir) ;
                  mret (result ++ ((λ e, (DirEntry._type e, DirEntry._name e)) <$> l))).
Definition NumChildren (dir : bytes) : M (fs S) nat := on_entries dir (DirEntryList.size (get_entries dir)).
Definition updateAccessTimestampForChild (dir blockId : bytes) (behavior : TimestampUpdateBehavior) : M (fs S) unit :=
  updated ← on_entries dir (DirEntryList.updateAccessTimestampForChild startpos (get_entries dir) (set_entries dir) now blockId behavior) ;
  if (updated : bool) then set_changed dir true else mret tt.
Definition updateModificationTimestampForChild (dir blockId : bytes) : M (fs S) unit :=
  on_entries dir (DirEntryList.updateModificationTimestampForChild startpos (get_entries dir) (set_entries dir) now blockId) ;;
  set_changed dir true.
Definition chmodChild (dir blockId : bytes) (mode : Z) : M (fs S) unit :=
  on_entries dir (DirEntryList.setMode startpos (get_entries dir) (set_entries dir) now blockId mode) ;;
  set_changed dir true.
Definition chownChild (dir blockId : bytes) (uid gid : Z) : M (fs S) unit :=
  changed ← on_entries dir (DirEntryList.setUidGid startpos (get_entries dir) (set_entries dir) now blockId uid gid) ;
  if (changed : bool) then set_changed dir true else mret tt.
Definition utimensChild (dir blockId : bytes) (a mt : timespec) : M (fs S) unit :=
  on_entries dir (DirEntryList.setAccessTimes startpos (get_entries dir) (set_entries dir) now blockId a mt) ;;
  set_changed dir true.
Definition flush_dir (dir : bytes) : M (fs S) unit :=
  '(v, l, c) ← dir_object dir ;
  c' ← on_base (DirBlob.flush uninit v l c) ;
  set_changed dir c'.

(** ** Files and symbolic links *)
Definition file_object (blockId : bytes) : M (fs S) FsBlobView.t :=
  b ← object blockId ;
  match b with FileBlob v => mret v | _ => mthrow UndefinedBehaviour end.
Definition file_read (blockId : bytes) (offset count : Z) : M (fs S) bytes :=
  v ← file_object blockId ; on_base (FileBlob.read v offset count).
Definition file_write (blockId source : bytes) (offset : Z) : M (fs S) unit :=
  v ← file_object blockId ; on_base (FileBlob.write v source offset).
Definition file_resize (blockId : bytes) (n : Z) : M (fs S) unit :=
  v ← file_object blockId ; on_base (FileBlob.resize v n).
Definition file_size (blockId : bytes) : M (fs S) Z :=
  v ← file_object blockId ; on_base (FileBlob.size v).
Definition file_flush (blockId : bytes) : M (fs S) unit :=
  v ← file_object blockId ; on_base (FileBlob.flush v).
Definition symlink_target (blockId : bytes) : M (fs S) bytes :=
  b ← object blockId ;
  match b with SymlinkBlob _ target => mret target | _ => mthrow UndefinedBehaviour end.
End objects.
