(* ===== verification/FsObjSpec.v ===== *)
(** * The loaded blobs stand for a map of nodes

    The abstract file system is a map from ids to nodes: a parent pointer and
    a file, a directory (a map from ids to entries) or a symbolic link.
    [fs_repr] relates it to the blob store and the objects in memory: a
    directory in memory may be ahead of its bytes in the store, then it is
    marked as changed. The lemmas say what every operation of FsObjects.v does
    to the map. Evicting an object does nothing to it. *)
From S2P Require Import Prelude Serialization DirEntry DirEntryList DirSpec Directory FsBlobs FsBlobSpec FsObjects NodeSpec BlobModel.
From Stdlib Require Import Lia ZArith Sorted.
Open Scope Z_scope.

(** ** Abstract nodes *)
Inductive anode_content :=
| AFile (c : bytes)
| ADir (e : gmap bytes DirEntry.t)
| ASymlink (target : bytes).
Record anode := mkANode { a_parent : bytes; a_content : anode_content }.

Definition a_type (c : anode_content) : FsBlobView.BlobType :=
  match c with AFile _ => FsBlobView.TFile | ADir _ => FsBlobView.TDir | ASymlink _ => FsBlobView.TSymlink end.

(** The number of bytes of the entries of a directory. *)
Definition msize (e : gmap bytes DirEntry.t) : nat := sum_list (DirEntry.serializedSize <$> (map_to_list e).*2).

Lemma sum_list_perm (l k : list nat) : l ≡ₚ k → sum_list l = sum_list k.
Proof. induction 1; simpl; lia. Qed.

Lemma msize_insert (e : gmap bytes DirEntry.t) id x : e !! id = None → msize (<[id := x]> e) = (DirEntry.serializedSize x + msize e)%nat.
Proof. intros H. unfold msize. rewrite (sum_list_perm _ (DirEntry.serializedSize <$> ((id, x) :: map_to_list e).*2)); [done|].
  by rewrite map_to_list_insert. Qed.
Lemma msize_lookup (e : gmap bytes DirEntry.t) id x : e !! id = Some x → msize e = (DirEntry.serializedSize x + msize (delete id e))%nat.
Proof. intros H. rewrite <- (msize_insert _ id) by apply lookup_delete_eq. by rewrite insert_delete_id. Qed.
Lemma msize_delete (e : gmap bytes DirEntry.t) id : (msize (delete id e) ≤ msize e)%nat.
Proof. destruct (e !! id) as [x|] eqn:E; [rewrite (msize_lookup e id x E); lia|by rewrite delete_id]. Qed.
Lemma msize_put (e : gmap bytes DirEntry.t) id x : (msize (<[id := x]> e) ≤ DirEntry.serializedSize x + msize e)%nat.
Proof.
  rewrite <- insert_delete_eq, msize_insert by apply lookup_delete_eq. pose proof (msize_delete e id). lia.
Qed.

Lemma length_dir_bytes l : dir_ok l → Forall DirEntry.wf l → length (dir_bytes l) = msize (contents l).
Proof.
  intros [Hs _] Hwf. unfold dir_bytes. rewrite length_entries by done. unfold msize. apply sum_list_perm. symmetry.
  unfold contents. rewrite map_to_list_to_map.
  - by rewrite <- !list_fmap_compose.
  - rewrite <- list_fmap_compose. by apply sorted_NoDup.
Qed.

(** ** Representation *)
(** One entry takes at most 321 bytes when its name has at most 255. Every
    operation may let a directory grow by one entry. *)
Definition STEP : Z := 400.

Section spec.
Context {S : Type} `{!BlobStore S} `{!BlobStoreSpec S}.
Context (uninit : nat → bytes) (uninit_ok : ∀ n, length (uninit n) = n).
Context (clock : nat → timespec) (clock_ok : ∀ n, DirEntry.time_ok (clock n)).
Context (startpos : Z → nat → nat) (startpos_ok : ∀ b n, 0 ≤ b < 256 → (0 < n)%nat → (startpos b n < n)%nat).
Implicit Types (s : fs S) (a : gmap bytes anode) (d id p name : bytes) (e : gmap bytes DirEntry.t).

(** A directory of [k] bytes can take [n] more entries. *)
Definition room (n k : nat) : Prop :=
  19 + Z.of_nat k + STEP * Z.of_nat n ≤ max_blob ∧ Z.of_nat k + STEP * Z.of_nat n < 2 ^ 32.
Definition entries_wf e : Prop := map_Forall (λ _ x, DirEntry.wf x) e.
Definition anode_ok (n : nat) (x : anode) : Prop :=
  BlockId.valid (a_parent x) ∧
  match a_content x with
  | AFile c => 19 + Z.of_nat (length c) ≤ max_blob
  | ADir e => entries_wf e ∧ room n (msize e)
  | ASymlink t => (x00 ∉ t) ∧ 19 + Z.of_nat (length t) ≤ max_blob
  end.

Definition node_repr id (disk : option bytes) (obj : option FsBlob) (x : anode) : Prop :=
  let v := FsBlobView.mk id (a_parent x) in
  match a_content x, obj with
  | AFile c, None => disk = Some (header FsBlobView.TFile (a_parent x) ++ c)
  | AFile c, Some b => b = FileBlob v ∧ disk = Some (header FsBlobView.TFile (a_parent x) ++ c)
  | ASymlink t, None => disk = Some (header FsBlobView.TSymlink (a_parent x) ++ t)
  | ASymlink t, Some b => b = SymlinkBlob v t ∧ disk = Some (header FsBlobView.TSymlink (a_parent x) ++ t)
  | ADir e, None => ∃ l, dir_ok l ∧ contents l = e ∧ disk = Some (header FsBlobView.TDir (a_parent x) ++ dir_bytes l)
  | ADir e, Some b =>
      ∃ l changed old, b = DirBlob v l changed ∧ dir_ok l ∧ contents l = e ∧
        disk = Some (header FsBlobView.TDir (a_parent x) ++ old) ∧ (changed = false → old = dir_bytes l)
  end.

Lemma node_repr_disk id disk obj x : node_repr id disk obj x → is_Some disk.
Proof.
  unfold node_repr. destruct (a_content x), obj; [intros [_ ->]|intros ->|intros (? & ? & ? & _ & _ & _ & -> & _)|
    intros (? & _ & _ & ->)|intros [_ ->]|intros ->]; by eexists.
Qed.

Definition nodes_repr (n : nat) (m : gmap bytes bytes) (o : gmap bytes FsBlob) a : Prop :=
  ∀ id, match a !! id with
        | Some x => BlockId.valid id ∧ id ≠ BlockId.Null ∧ anode_ok n x ∧ node_repr id (m !! id) (o !! id) x
        | None => m !! id = None ∧ o !! id = None
        end.
Definition fs_repr (n : nat) s a : Prop :=
  room n 0 ∧ ∃ m, blobs_are n (base s) m ∧ nodes_repr n m (objects s) a.

Definition loaded s id : Prop := is_Some (objects s !! id).
(** Objects stay loaded. *)
Definition keeps s s' : Prop := ∀ id, loaded s id → loaded s' id.

Lemma keeps_refl s : keeps s s.
Proof. by intros id. Qed.
Lemma keeps_trans s1 s2 s3 : keeps s1 s2 → keeps s2 s3 → keeps s1 s3.
Proof. intros H1 H2 id H. by apply H2, H1. Qed.

Lemma room_le n n' k k' : (n' ≤ n)%nat → (k' ≤ k)%nat → room n k → room n' k'.
Proof. unfold room, STEP. lia. Qed.
Lemma room_grow n k j : Z.of_nat j ≤ STEP → room (Datatypes.S n) k → room n (j + k).
Proof. unfold room, STEP. lia. Qed.

Lemma anode_ok_le n n' x : (n' ≤ n)%nat → anode_ok n x → anode_ok n' x.
Proof.
  intros Hle [Hp H]. split; [done|]. destruct (a_content x); [done| |done]. destruct H. split; [done|]. by eapply room_le.
Qed.

Lemma nodes_repr_le n n' m o a : (n' ≤ n)%nat → nodes_repr n m o a → nodes_repr n' m o a.
Proof.
  intros Hle H id. specialize (H id). destruct (a !! id); [|done]. destruct H as (H1 & H2 & H3 & H4).
  split_and!; try done. by eapply anode_ok_le.
Qed.

Lemma fs_repr_le n n' s a : (n' ≤ n)%nat → fs_repr n s a → fs_repr n' s a.
Proof.
  intros Hle (Hr & m & Hb & Hn). split; [by eapply room_le|]. exists m. split; [by eapply blobs_are_le|]. by eapply nodes_repr_le.
Qed.

Lemma fs_repr_ticks n s a t : fs_repr n s a → fs_repr n (mkFs (base s) (objects s) t) a.
Proof. done. Qed.

(** Change one node. *)
Lemma nodes_repr_insert n m o a id x disk obj :
  nodes_repr n m o a → BlockId.valid id → id ≠ BlockId.Null → anode_ok n x → node_repr id (Some disk) (Some obj) x →
  nodes_repr n (<[id := disk]> m) (<[id := obj]> o) (<[id := x]> a).
Proof.
  intros H Hv Hn Hx Hr id'. destruct (decide (id = id')) as [<-|Hne].
  - rewrite !lookup_insert_eq. auto.
  - rewrite !lookup_insert_ne by done. apply H.
Qed.
Lemma nodes_repr_delete n m o a id : nodes_repr n m o a → nodes_repr n (delete id m) (delete id o) (delete id a).
Proof.
  intros H id'. destruct (decide (id = id')) as [<-|Hne].
  - by rewrite !lookup_delete_eq.
  - rewrite !lookup_delete_ne by done. apply H.
Qed.

Lemma fs_repr_node n s a id x : fs_repr n s a → a !! id = Some x → BlockId.valid id ∧ id ≠ BlockId.Null ∧ anode_ok n x.
Proof. intros (_ & m & _ & H) E. specialize (H id). rewrite E in H. by destruct H as (? & ? & ? & _). Qed.

Lemma wf_list l e : dir_ok l → contents l = e → entries_wf e → Forall DirEntry.wf l.
Proof.
  intros [Hs _] <- Hwf. apply Forall_forall. intros x Hx. apply (Hwf (DirEntry._blockId x)). by apply lookup_contents.
Qed.
Lemma dir_fits n l e : dir_ok l → contents l = e → entries_wf e → room n (msize e) → entries_ok l ∧ content_fits (CDir l).
Proof.
  intros Hl Hc Hwf Hr. pose proof (wf_list _ _ Hl Hc Hwf) as Hw. split; [done|]. unfold content_fits. cbn [payload].
  rewrite length_dir_bytes by done. rewrite Hc. unfold room, STEP in Hr. lia.
Qed.

(** A computation on the blob store. *)
Lemma runs_on_base {A} (c : M S A) s (R : A → S → Prop) :
  runs c (base s) R → runs (on_base c) s (λ r s', ∃ b, s' = set_base b s ∧ R r b).
Proof. intros H. apply runs_zoom. eapply runs_mono; [exact H|]. intros r b HR. by exists b. Qed.

(** ** The store *)
Lemma load_spec n s a id x :
  fs_repr n s a → a !! id = Some x →
  runs (load id) s (λ r s', r = Some (a_type (a_content x)) ∧ fs_repr n s' a ∧ loaded s' id ∧ keeps s s').
Proof.
  intros Hs Hx. pose proof Hs as (Hroom & m & Hb & Hm). pose proof (Hm id) as H. rewrite Hx in H. destruct H as (Hv & Hnn & Hok & Hr).
  apply runs_bind_get.
  destruct (objects s !! id) as [b|] eqn:Eo.
  - apply runs_ret. split_and!; [|done|by exists b|apply keeps_refl]. f_equal. unfold node_repr in Hr.
    destruct (a_content x); [destruct Hr as [-> _]|destruct Hr as (? & ? & ? & -> & _)|destruct Hr as [-> _]]; done.
  - assert (∃ nd, m !! id = Some (image nd) ∧ inode_ok nd ∧ content_type (i_content nd) = a_type (a_content x) ∧
      node_repr id (m !! id) (Some (object_of id nd)) x) as (nd & Ed & Hnd & Ety & Hr').
    { destruct Hok as [Hp Hok]. destruct x as [p [c|e|t]]; unfold node_repr in Hr |- *; cbn [a_content a_parent] in *.
      - by exists (mkInode p (CFile c)).
      - destruct Hr as (l & Hl & Hc & Ed). exists (mkInode p (CDir l)). destruct Hok as [Hwf Hfit].
        split_and!; [done|split; [done|by eapply dir_fits]|done|]. by exists l, false, (dir_bytes l).
      - destruct Hok as [Ht _]. by exists (mkInode p (CSymlink t)). }
    eapply runs_bind; [by eapply runs_on_base, load_inode_spec|]. intros r s1 (b1 & -> & -> & Hb1). apply runs_bind_modify, runs_ret.
    assert (object_id (object_of id nd) = id ∧ dynamic_type (object_of id nd) = content_type (i_content nd)) as [Eid Edy]
      by (by destruct nd as [? []]).
    rewrite Eid, Edy, Ety. split_and!; [done| | |].
    + split; [done|]. exists m. split; [exact Hb1|]. simpl. replace m with (<[id := image nd]> m) by by apply insert_id.
      replace a with (<[id := x]> a) by by apply insert_id. apply nodes_repr_insert; try done. by rewrite <- Ed.
    + unfold loaded. simpl. by rewrite lookup_insert_eq.
    + intros i [b Hi]. unfold loaded. simpl. destruct (decide (id = i)) as [<-|]; [by rewrite lookup_insert_eq|].
      rewrite lookup_insert_ne by done. simpl in Hi. by exists b.
Qed.

Lemma keeps_base s b : keeps s (set_base b s).
Proof. by intros id [x Hx]; exists x. Qed.
Lemma keeps_insert s b t id obj : keeps s (mkFs b (<[id := obj]> (objects s)) t).
Proof.
  intros i [x Hi]. unfold loaded. simpl. destruct (decide (id = i)) as [<-|]; [by rewrite lookup_insert_eq|].
  rewrite lookup_insert_ne by done. by exists x.
Qed.
Lemma loaded_insert s b t id obj : loaded (mkFs (S := S) b (<[id := obj]> (objects s)) t) id.
Proof. unfold loaded. simpl. by rewrite lookup_insert_eq. Qed.

Lemma fs_repr_insert n s a m b t id x disk obj :
  room n 0 → blobs_are n b (<[id := disk]> m) → nodes_repr n m (objects s) a → BlockId.valid id → id ≠ BlockId.Null →
  anode_ok n x → node_repr id (Some disk) (Some obj) x →
  fs_repr n (mkFs b (<[id := obj]> (objects s)) t) (<[id := x]> a).
Proof. intros Hr Hb Hn Hv Hnn Hx Hrep. split; [done|]. eexists. split; [done|]. by apply nodes_repr_insert. Qed.

(** What a reference to a loaded object gives. *)
Lemma object_spec n s a id x :
  fs_repr n s a → a !! id = Some x → loaded s id →
  runs (object id) s (λ b s', s' = s ∧ ∃ m, blobs_are n (base s) m ∧ nodes_repr n m (objects s) a ∧ objects s !! id = Some b ∧
    node_repr id (m !! id) (Some b) x).
Proof.
  intros (Hroom & m & Hb & Hm) Hx [b Eo]. apply runs_bind_get. rewrite Eo. apply runs_ret. split; [done|].
  exists m. split_and!; [done..|]. specialize (Hm id). rewrite Hx, Eo in Hm. by destruct Hm as (_ & _ & _ & ?).
Qed.

(** *** Creating *)
Definition made n s a p (c : anode_content) id (s' : fs S) : Prop :=
  a !! id = None ∧ BlockId.valid id ∧ id ≠ BlockId.Null ∧ fs_repr n s' (<[id := mkANode p c]> a) ∧ loaded s' id ∧ keeps s s'.

Lemma new_object_spec n k s a p nd c (create : M S FsBlob) :
  fs_repr (k + n) s a → (∀ m, blobs_are (k + n) (base s) m → runs create (base s) (created n m nd)) →
  i_parent nd = p → anode_ok n (mkANode p c) →
  (∀ id, node_repr id (Some (image nd)) (Some (object_of id nd)) (mkANode p c)) →
  runs (b ← on_base create ; put_object b ;; mret (object_id b)) s (made n s a p c).
Proof.
  intros (Hroom & m & Hb & Hm) Hc <- Hok Hrep. eapply runs_bind; [eapply runs_on_base, (Hc m Hb)|].
  intros b s1 (b1 & -> & id & -> & Hid & Hv & Hnn & Hb1). apply runs_bind_modify, runs_ret.
  assert (object_id (object_of id nd) = id) as -> by (by destruct nd as [? []]).
  assert (a !! id = None) as Ha.
  { specialize (Hm id). destruct (a !! id) as [x|] eqn:E; [|done]. destruct Hm as (_ & _ & _ & Hm). rewrite Hid in Hm.
    apply node_repr_disk in Hm as [? ?]. done. }
  split_and!; [done..| |exact (loaded_insert s _ _ _ _)|exact (keeps_insert s _ _ _ _)].
  eapply (fs_repr_insert n s a m); try done; [eapply room_le; [| |exact Hroom]; lia|eapply nodes_repr_le; [|exact Hm]; lia].
Qed.

Lemma createFileBlob_made n s a p : fs_repr (5 + n) s a → BlockId.valid p → runs (createFileBlob p) s (made n s a p (AFile [])).
Proof.
  intros Hs Hp. pose proof Hs as ([Hr1 Hr2] & _). unfold STEP in *. apply (new_object_spec n 5 s a p (mkInode p (CFile []))); [done| |done| |].
  - intros m Hb. apply createFileBlob_spec; [done..|lia].
  - split; [done|]. simpl. lia.
  - intros id. by split.
Qed.
Lemma createDirBlob_made n s a p : fs_repr (5 + n) s a → BlockId.valid p → runs (createDirBlob p) s (made n s a p (ADir ∅)).
Proof.
  intros Hs Hp. pose proof Hs as (Hr & _). pose proof Hr as [Hr1 Hr2]. unfold STEP in *. apply (new_object_spec n 5 s a p (mkInode p (CDir []))); [done| |done| |].
  - intros m Hb. apply createDirBlob_spec; [done..|lia].
  - split; [done|]. split; [apply map_Forall_empty|]. eapply room_le; [| |exact Hr]; [lia|done].
  - intros id. exists [], false, []. repeat split; constructor.
Qed.
Lemma createSymlinkBlob_made n s a p t :
  fs_repr (7 + n) s a → BlockId.valid p → x00 ∉ t → 19 + Z.of_nat (length t) ≤ max_blob →
  runs (createSymlinkBlob t p) s (made n s a p (ASymlink t)).
Proof.
  intros Hs Hp Ht Hl. apply (new_object_spec n 7 s a p (mkInode p (CSymlink t))); [done| |done| |].
  - intros m Hb. by apply createSymlinkBlob_spec.
  - done.
  - done.
Qed.

(** *** Removing and evicting *)
Lemma releaseBaseBlob_spec n m id x b bs :
  blobs_are (2 + n) bs m → node_repr id (m !! id) (Some b) x → anode_ok n x →
  runs (FsBlobStore.releaseBaseBlob uninit b) bs (λ r bs', r = id ∧ ∃ c, blobs_are n bs' (<[id := c]> m) ∧ node_repr id (Some c) None x).
Proof using uninit_ok.
  intros Hb Hr [Hp Hok]. unfold node_repr in Hr |- *. pose proof (blobs_are_le (2 + n) n bs m ltac:(lia) Hb) as Hb'.
  destruct (a_content x) as [c|e|t] eqn:Ex.
  - destruct Hr as [-> Ed]. apply runs_ret. split; [done|]. eexists. split; [|done]. by rewrite insert_id.
  - destruct Hr as (l & ch & old & -> & Hl & Hc & Ed & Hold). destruct Hok as [Hwf Hfit]. destruct (dir_fits _ _ _ Hl Hc Hwf Hfit) as [Hok Hcf].
    eapply runs_bind; [by eapply writeEntries_spec|]. intros r bs' [-> Hb2]. apply runs_ret. split; [done|].
    eexists. split; [exact Hb2|]. by exists l.
  - destruct Hr as [-> Ed]. apply runs_ret. split; [done|]. eexists. split; [|done]. by rewrite insert_id.
Qed.

Lemma destroy_spec n m id x b bs :
  blobs_are (2 + n) bs m → node_repr id (m !! id) (Some b) x → anode_ok n x →
  runs (FsBlobStore.destroy uninit b) bs (λ _ bs', ∃ c, blobs_are n bs' (<[id := c]> m) ∧ node_repr id (Some c) None x).
Proof using uninit_ok.
  intros Hb Hr Hok. assert (FsBlobStore.destroy uninit b bs = (r ← FsBlobStore.releaseBaseBlob uninit b ; blob_release r) bs) as E.
  { destruct b as [v|v l ch|v t]; simpl; try done. unfold mbind, M_bind. by destruct (DirBlob._writeEntriesToBlob _ _ _ _ _) as [[]]. }
  unfold runs. rewrite E. change (runs (r ← FsBlobStore.releaseBaseBlob uninit b ; blob_release r) bs (λ _ bs', ∃ c, blobs_are n bs' (<[id := c]> m) ∧ node_repr id (Some c) None x)).
  eapply runs_bind; [by eapply releaseBaseBlob_spec|]. intros r bs' (-> & c & Hb1 & Hr1).
  eapply runs_mono; [eapply blob_release_spec; [exact Hb1|apply lookup_insert_eq]|]. intros [] bs2 Hb2. by exists c.
Qed.

Lemma runs_on_throw {A} (cleanup : M S unit) (m : M S A) bs (Q : A → S → Prop) : runs m bs Q → runs (on_throw cleanup m) bs Q.
Proof. intros (r & bs' & E & HQ). exists r, bs'. unfold on_throw. by rewrite E. Qed.

Lemma remove_spec n s a id x :
  fs_repr (2 + n) s a → a !! id = Some x → loaded s id →
  runs (remove uninit id) s (λ _ s', fs_repr n s' (delete id a) ∧ ∀ i, i ≠ id → loaded s i → loaded s' i).
Proof using uninit_ok.
  intros Hs Hx Hl. pose proof Hs as (Hroom & _). pose proof (fs_repr_node _ _ _ _ _ Hs Hx) as (_ & _ & Hok).
  eapply runs_bind; [by eapply object_spec|]. intros b s1 (-> & m & Hb & Hm & Eo & Hr). apply runs_bind_modify.
  assert (runs (FsBlobStore.remove uninit b) (base s) (λ _ bs, blobs_are n bs (delete id m))) as Hrm.
  { eapply runs_bind.
    - apply runs_on_throw. eapply (releaseBaseBlob_spec n); [exact Hb|exact Hr|]. eapply anode_ok_le; [|exact Hok]. lia.
    - intros r bs (-> & c & Hb1 & Hr1). rewrite <- (delete_insert_eq m id c). eapply blob_remove_spec; [exact Hb1|apply lookup_insert_eq]. }
  eapply runs_mono; [eapply runs_on_base, Hrm|]. intros [] s1 (b1 & -> & Hb1). split.
  - split; [eapply room_le; [| |exact Hroom]; lia|]. exists (delete id m). split; [done|]. simpl.
    apply nodes_repr_delete. eapply nodes_repr_le; [|exact Hm]. lia.
  - intros i Hne [o Ho]. unfold loaded. simpl. rewrite lookup_delete_ne by done. by exists o.
Qed.

Lemma evict_spec n s a id x :
  fs_repr (2 + n) s a → a !! id = Some x → loaded s id →
  runs (evict uninit id) s (λ _ s', fs_repr n s' a ∧ ∀ i, i ≠ id → loaded s i → loaded s' i).
Proof using uninit_ok.
  intros Hs Hx Hl. pose proof Hs as (Hroom & _). pose proof (fs_repr_node _ _ _ _ _ Hs Hx) as (Hv & Hnn & Hok).
  eapply runs_bind; [by eapply object_spec|]. intros b s1 (-> & m & Hb & Hm & Eo & Hr). apply runs_bind_modify.
  assert (anode_ok n x) as Hok' by (eapply anode_ok_le; [|exact Hok]; lia).
  destruct (destroy_spec n m id x b _ Hb Hr Hok') as ([] & bs & Ed & c & Hb1 & Hr1).
  eapply runs_eq; [unfold run_destructor, on_base, zoom; simpl; rewrite Ed; done|]. split.
  - split; [eapply room_le; [| |exact Hroom]; lia|]. exists (<[id := c]> m). split; [done|]. simpl. intros i.
    destruct (decide (id = i)) as [<-|Hne].
    + by rewrite Hx, lookup_insert_eq, lookup_delete_eq.
    + rewrite lookup_insert_ne, lookup_delete_ne by done. pose proof (nodes_repr_le (2 + n) n _ _ _ ltac:(lia) Hm i) as H. exact H.
  - intros i Hne [o Ho]. unfold loaded. simpl. rewrite lookup_delete_ne by done. by exists o.
Qed.

(** ** References *)
Lemma node_repr_view id disk b x : node_repr id disk (Some b) x → baseBlob b = FsBlobView.mk id (a_parent x).
Proof. unfold node_repr. destruct (a_content x); [by intros [-> _]|by intros (? & ? & ? & -> & _)|by intros [-> _]]. Qed.

Lemma parentPointer_spec n s a id x :
  fs_repr n s a → a !! id = Some x → loaded s id → runs (parentPointer id) s (λ r s', r = a_parent x ∧ s' = s).
Proof.
  intros Hs Hx Hl. eapply runs_bind; [by eapply object_spec|]. intros b s1 (-> & m & _ & _ & _ & Hr). apply runs_ret.
  by rewrite (node_repr_view _ _ _ _ Hr).
Qed.

(** After an operation: the new map, and all objects still there. *)
Definition became n s a (s' : fs S) : Prop := fs_repr n s' a ∧ keeps s s'.

Lemma setParentPointer_became n s a id x q :
  fs_repr (Datatypes.S n) s a → a !! id = Some x → loaded s id → BlockId.valid q →
  runs (setParentPointer id q) s (λ _ s', became n s (<[id := mkANode q (a_content x)]> a) s').
Proof.
  intros Hs Hx Hl Hq. pose proof Hs as (Hroom & _). pose proof (fs_repr_node _ _ _ _ _ Hs Hx) as (Hv & Hnn & [Hp Hok]).
  eapply runs_bind; [by eapply object_spec|]. intros b s1 (-> & m & Hb & Hm & Eo & Hr). rewrite (node_repr_view _ _ _ _ Hr).
  assert (∃ c, m !! id = Some (header (a_type (a_content x)) (a_parent x) ++ c) ∧
    node_repr id (Some (header (a_type (a_content x)) q ++ c)) (Some (with_view (FsBlobView.mk id q) b)) (mkANode q (a_content x))) as (c & Ed & Hr').
  { unfold node_repr in Hr |- *. cbn [a_content a_parent]. destruct (a_content x).
    - destruct Hr as [-> Ed]. by eexists.
    - destruct Hr as (l & ch & old & -> & Hl' & Hc & Ed & Hold). exists old. split; [done|]. by exists l, ch, old.
    - destruct Hr as [-> Ed]. by eexists. }
  eapply runs_bind; [eapply runs_on_base, (setParentPointer_spec n _ m); done|].
  intros v s1 (b1 & -> & -> & Hb1). apply runs_modify.
  assert (object_id (with_view (FsBlobView.mk id q) b) = id) as -> by (by destruct b).
  split; [|exact (keeps_insert s _ _ _ _)]. eapply (fs_repr_insert n s a m); try done.
  - eapply room_le; [| |exact Hroom]; lia.
  - eapply nodes_repr_le; [|exact Hm]. lia.
  - eapply (anode_ok_le (Datatypes.S n)); [lia|done].
Qed.

(** *** Files *)
Lemma file_object_spec n s a id p c :
  fs_repr n s a → a !! id = Some (mkANode p (AFile c)) → loaded s id →
  runs (file_object id) s (λ v s', s' = s ∧ v = FsBlobView.mk id p ∧ ∃ m, blobs_are n (base s) m ∧ nodes_repr n m (objects s) a ∧
    m !! id = Some (header FsBlobView.TFile p ++ c) ∧ objects s !! id = Some (FileBlob v)).
Proof.
  intros Hs Hx Hl. eapply runs_bind; [by eapply object_spec|]. intros b s1 (-> & m & Hb & Hm & Eo & Hr).
  unfold node_repr in Hr. simpl in Hr. destruct Hr as [-> Ed]. apply runs_ret. split_and!; [done..|]. by exists m.
Qed.

(** The content of a file changes on disk only. *)
Lemma file_changed n s a id p c c' m b :
  fs_repr (Datatypes.S n) s a → a !! id = Some (mkANode p (AFile c)) → nodes_repr (Datatypes.S n) m (objects s) a →
  objects s !! id = Some (FileBlob (FsBlobView.mk id p)) → 19 + Z.of_nat (length c') ≤ max_blob →
  blobs_are n b (<[id := header FsBlobView.TFile p ++ c']> m) →
  became n s (<[id := mkANode p (AFile c')]> a) (set_base b s).
Proof.
  intros Hs Hx Hm Eo Hc Hb. pose proof Hs as (Hroom & _). pose proof (fs_repr_node _ _ _ _ _ Hs Hx) as (Hv & Hnn & [Hp Hok]).
  split; [|apply keeps_base]. unfold set_base. rewrite <- (insert_id (objects s) id _ Eo).
  eapply (fs_repr_insert n s a m); try done; [eapply room_le; [| |exact Hroom]; lia|eapply nodes_repr_le; [|exact Hm]; lia].
Qed.

Lemma file_write_spec n s a id p c src off :
  fs_repr (Datatypes.S n) s a → a !! id = Some (mkANode p (AFile c)) → loaded s id → 19 + Z.of_nat (off + length src) ≤ max_blob →
  runs (file_write id src (Z.of_nat off)) s (λ _ s', became n s (<[id := mkANode p (AFile (write_bytes c off src))]> a) s').
Proof.
  intros Hs Hx Hl Hlen. pose proof max_blob_range. pose proof (fs_repr_node _ _ _ _ _ Hs Hx) as (Hv & Hnn & [Hp Hok]). simpl in Hok.
  eapply runs_bind; [by eapply file_object_spec|]. intros v s1 (-> & -> & m & Hb & Hm & Ed & Eo).
  unfold FileBlob.write. rewrite u64_small by lia. eapply runs_mono; [by eapply runs_on_base, view_write_spec|].
  intros [] s1 (b & -> & Hb1). eapply file_changed; try done. destruct (decide (src = [])) as [->|Hne]; [done|].
  rewrite length_write_bytes by done. lia.
Qed.

Lemma file_resize_spec n s a id p c k :
  fs_repr (Datatypes.S n) s a → a !! id = Some (mkANode p (AFile c)) → loaded s id → 19 + Z.of_nat k ≤ max_blob →
  runs (file_resize id (Z.of_nat k)) s (λ _ s', became n s (<[id := mkANode p (AFile (resize_bytes c k))]> a) s').
Proof.
  intros Hs Hx Hl Hlen. pose proof max_blob_range. pose proof (fs_repr_node _ _ _ _ _ Hs Hx) as (Hv & Hnn & [Hp Hok]). simpl in Hok.
  eapply runs_bind; [by eapply file_object_spec|]. intros v s1 (-> & -> & m & Hb & Hm & Ed & Eo).
  unfold FileBlob.resize. rewrite u64_small by lia. eapply runs_mono; [by eapply runs_on_base, view_resize_spec|].
  intros [] s1 (b & -> & Hb1). eapply file_changed; try done. by rewrite length_resize_bytes.
Qed.

(** Operations that do not change the map. *)
Lemma base_unchanged n s a m b : fs_repr n s a → nodes_repr n m (objects s) a → blobs_are n b m → became n s a (set_base b s).
Proof. intros (Hr & _) Hm Hb. split; [|apply keeps_base]. split; [done|]. by exists m. Qed.

Lemma file_read_spec n s a id p c off k :
  fs_repr n s a → a !! id = Some (mkANode p (AFile c)) → loaded s id → Z.of_nat off < 2 ^ 62 → Z.of_nat k < 2 ^ 63 →
  runs (file_read id (Z.of_nat off) (Z.of_nat k)) s (λ r s', r = slice off k c ∧ became n s a s').
Proof.
  intros Hs Hx Hl Ho Hk. pose proof (fs_repr_node _ _ _ _ _ Hs Hx) as (Hv & Hnn & [Hp Hok]).
  eapply runs_bind; [by eapply file_object_spec|]. intros v s1 (-> & -> & m & Hb & Hm & Ed & Eo).
  unfold FileBlob.read. rewrite !u64_small by lia. eapply runs_mono; [by eapply runs_on_base, view_tryRead_spec|].
  intros r s1 (b & -> & -> & Hb1). split; [done|]. by eapply base_unchanged.
Qed.

Lemma file_size_spec n s a id p c :
  fs_repr n s a → a !! id = Some (mkANode p (AFile c)) → loaded s id →
  runs (file_size id) s (λ r s', r = Z.of_nat (length c) ∧ became n s a s').
Proof.
  intros Hs Hx Hl. pose proof max_blob_range. pose proof (fs_repr_node _ _ _ _ _ Hs Hx) as (Hv & Hnn & [Hp Hok]). simpl in Hok.
  eapply runs_bind; [by eapply file_object_spec|]. intros v s1 (-> & -> & m & Hb & Hm & Ed & Eo).
  assert (runs (FileBlob.size (FsBlobView.mk id p)) (base s) (λ r b, r = Z.of_nat (length c) ∧ blobs_are n b m)) as Hsz.
  { eapply runs_bind; [by eapply view_size_spec|]. intros r b [-> Hb1]. apply runs_ret. split; [apply i64_small; lia|done]. }
  eapply runs_mono; [by eapply runs_on_base|]. intros r s1 (b & -> & -> & Hb1). split; [done|]. by eapply base_unchanged.
Qed.

Lemma file_flush_spec n s a id p c :
  fs_repr n s a → a !! id = Some (mkANode p (AFile c)) → loaded s id → runs (file_flush id) s (λ _ s', became n s a s').
Proof.
  intros Hs Hx Hl. eapply runs_bind; [by eapply file_object_spec|]. intros v s1 (-> & -> & m & Hb & Hm & Ed & Eo).
  eapply runs_mono; [by eapply runs_on_base, blob_flush_spec|]. intros [] s1 (b & -> & Hb1). by eapply base_unchanged.
Qed.

Lemma symlink_target_spec n s a id p t :
  fs_repr n s a → a !! id = Some (mkANode p (ASymlink t)) → loaded s id → runs (symlink_target id) s (λ r s', r = t ∧ s' = s).
Proof.
  intros Hs Hx Hl. eapply runs_bind; [by eapply object_spec|]. intros b s1 (-> & m & Hb & Hm & Eo & Hr).
  unfold node_repr in Hr. simpl in Hr. destruct Hr as [-> _]. by apply runs_ret.
Qed.

Lemma lstat_size_spec n s a id x :
  fs_repr n s a → a !! id = Some x → loaded s id →
  runs (lstat_size id) s (λ r s', r = match a_content x with
                                      | AFile c => Z.of_nat (length c)
                                      | ADir _ => DIR_LSTAT_SIZE
                                      | ASymlink t => Z.of_nat (length t)
                                      end ∧ became n s a s').
Proof.
  intros Hs Hx Hl. pose proof max_blob_range. pose proof (fs_repr_node _ _ _ _ _ Hs Hx) as (Hv & Hnn & [Hp Hok]).
  destruct x as [p [c|e|t]]; cbn [a_content] in *.
  - pose proof (file_size_spec _ _ _ _ _ _ Hs Hx Hl) as Hf. destruct Hf as (r & s' & E & HQ).
    eapply runs_bind; [by eapply object_spec|]. intros b s1 (-> & m & _ & _ & Eo & Hr). simpl in Hr. destruct Hr as [-> _].
    eapply runs_eq; [|exact HQ]. revert E. unfold file_size, file_object, object, get_state, mbind, M_bind. simpl. by rewrite Eo.
  - eapply runs_bind; [by eapply object_spec|]. intros b s1 (-> & m & _ & _ & Eo & Hr). simpl in Hr.
    destruct Hr as (l & ch & old & -> & _). apply runs_ret. split; [done|]. split; [done|apply keeps_refl].
  - eapply runs_bind; [by eapply object_spec|]. intros b s1 (-> & m & _ & _ & Eo & Hr). simpl in Hr. destruct Hr as [-> _].
    apply runs_ret. split; [apply i64_small; lia|]. split; [done|apply keeps_refl].
Qed.
End spec.
