(* ===== verification/FsDirSpec.v ===== *)
(** * Directory operations on the map of nodes

    What the methods of a loaded directory do to the abstract file system of
    FsObjSpec.v. Operations that only change attributes of an entry keep its
    type, name and blob ([entry_like]). *)
From S2P Require Import Prelude Serialization DirEntry DirEntryList DirSpec Directory FsBlobs FsBlobSpec FsObjects FsObjSpec NodeSpec BlobModel.
From Stdlib Require Import Lia ZArith Sorted.
Open Scope Z_scope.
Import DirEntry.

(** The attributes of an entry that the tree structure depends on. *)
Definition entry_like (x x' : DirEntry.t) : Prop :=
  _type x' = _type x ∧ _name x' = _name x ∧ _blockId x' = _blockId x ∧ wf x'.

Lemma entry_like_size x x' : entry_like x x' → serializedSize x' = serializedSize x.
Proof. intros (_ & Hn & _). unfold serializedSize. by rewrite Hn. Qed.
Lemma entry_like_refl x : wf x → entry_like x x.
Proof. done. Qed.
Lemma entry_like_trans x y z : entry_like x y → entry_like y z → entry_like x z.
Proof. intros (H1 & H2 & H3 & H4) (H5 & H6 & H7 & H8). refine (conj _ (conj _ (conj _ H8))); congruence. Qed.

Ltac setter_like := unfold entry_like, wf; cbn; tauto.
Lemma setLastModificationTime_like x t t' : wf x → time_ok t → time_ok t' → entry_like x (setLastModificationTime t t' x).
Proof. setter_like. Qed.
Lemma setLastAccessTime_like x t : wf x → time_ok t → entry_like x (setLastAccessTime t x).
Proof. setter_like. Qed.
Lemma setUid_like x u t : wf x → 0 ≤ u < 2 ^ 32 → time_ok t → entry_like x (setUid u t x).
Proof. setter_like. Qed.
Lemma setGid_like x u t : wf x → 0 ≤ u < 2 ^ 32 → time_ok t → entry_like x (setGid u t x).
Proof. setter_like. Qed.
Lemma setMode_like x m t : wf x → mode_ok (_type x) m → 0 ≤ m < 2 ^ 32 → time_ok t → entry_like x (setMode m t x).
Proof. setter_like. Qed.

(** How an operation changes the attributes of an entry. *)
Definition any_change (x x' : DirEntry.t) : Prop := True.
Definition mode_set (mode : Z) (x x' : DirEntry.t) : Prop := ∃ t, x' = setMode mode t x.
Definition times_set (a m : timespec) (x x' : DirEntry.t) : Prop := ∃ t, x' = setLastModificationTime m t (setLastAccessTime a x).
(** The id [(uid_t)-1] stands for an owner that is not changed. *)
Definition maybe_set (P : Prop) `{!Decision P} (f : timespec → DirEntry.t → DirEntry.t) (x x' : DirEntry.t) : Prop :=
  ∃ t, x' = if decide P then f t x else x.
Definition owner_set (uid gid : Z) (x x' : DirEntry.t) : Prop :=
  ∃ y, maybe_set (uid ≠ u32 (-1)) (setUid uid) x y ∧ maybe_set (gid ≠ u32 (-1)) (setGid gid) y x'.

(** The flag of the type is added to the mode of a new entry. *)
Definition flagged (ty : EntryType) (mode : Z) : Z :=
  match ty with FILE => mode_t.addFileFlag mode | DIR => mode_t.addDirFlag mode | SYMLINK => mode_t.addSymlinkFlag mode end.
Definition new_mode_ok (ty : EntryType) (mode : Z) : Prop := mode_ok ty (flagged ty mode) ∧ 0 ≤ flagged ty mode < 2 ^ 32.

Lemma new_flag_ok ty name id mode uid gid a m c : mode_ok ty (flagged ty mode) →
  DirEntry.new (Some ty) name id mode uid gid a m c = Ok (mk ty name id (flagged ty mode) uid gid a m c).
Proof.
  intros H. unfold DirEntry.new. fold (flagged ty mode).
  destruct (flags_ok _ _ H) as (-> & -> & ->). by destruct ty.
Qed.

(** An entry with these attributes. *)
Definition entry_is x ty name id : Prop := _type x = ty ∧ _name x = name ∧ _blockId x = id ∧ wf x.

(** What a new entry needs. *)
Definition new_entry_ok ty name id mode uid gid a m : Prop :=
  (new_mode_ok ty mode) ∧ (x00 ∉ name) ∧ (length name ≤ 255)%nat ∧ BlockId.valid id ∧ 0 ≤ uid < 2 ^ 32 ∧ 0 ≤ gid < 2 ^ 32 ∧ time_ok a ∧ time_ok m.

Lemma entry_is_size x ty name id : entry_is x ty name id → (length name ≤ 255)%nat → Z.of_nat (serializedSize x) ≤ STEP.
Proof.
  intros (_ & Hn & _) Hl. unfold serializedSize, serializedTimeValueSize_, BlockId.BINARY_LENGTH, STEP. rewrite Hn. lia.
Qed.

Section dir.
Context {S : Type} `{!BlobStore S} `{!BlobStoreSpec S}.
Context (uninit : nat → bytes) (uninit_ok : ∀ n, length (uninit n) = n).
Context (clock : nat → timespec) (clock_ok : ∀ n, time_ok (clock n)).
Context (startpos : Z → nat → nat) (startpos_ok : ∀ b n, 0 ≤ b < 256 → (0 < n)%nat → (startpos b n < n)%nat).
Context (d : bytes).
Implicit Types (s : fs S) (a : gmap bytes anode) (id p name : bytes) (e : gmap bytes DirEntry.t) (x : DirEntry.t).

Definition vdir s : Prop := ∃ v l c, objects s !! d = Some (DirBlob v l c).
Definition at_dir s e : Prop := is_dir (get_entries d) vdir s e.
(** Only the entries of the directory differ. *)
Definition dstep s s' : Prop :=
  base s' = base s ∧ ∃ v l l' c, objects s !! d = Some (DirBlob v l c) ∧ objects s' = <[d := DirBlob v l' c]> (objects s).

Lemma vdir_get_set l s : vdir s → get_entries d (set_entries d l s) = l.
Proof.
  intros (v & l0 & c & E). unfold get_entries, set_entries. rewrite E. simpl. by rewrite lookup_insert_eq.
Qed.
Lemma vdir_set l s : vdir s → vdir (set_entries d l s).
Proof. intros (v & l0 & c & E). unfold set_entries, vdir. rewrite E. simpl. rewrite lookup_insert_eq. eauto. Qed.
Lemma vdir_now s : vdir s → ∃ t s', now clock s = (Ok t, s') ∧ vdir s' ∧ get_entries d s' = get_entries d s.
Proof. intros H. eexists _, _. split; [done|]. done. Qed.

Lemma dstep_set l s : vdir s → dstep s (set_entries d l s).
Proof. intros (v & l0 & c & E). unfold set_entries. rewrite E. split; [done|]. by exists v, l0, l, c. Qed.
Lemma dstep_refl s : vdir s → dstep s s.
Proof. intros (v & l & c & E). split; [done|]. exists v, l, l, c. split; [done|]. by rewrite insert_id. Qed.
Lemma dstep_trans s1 s2 s3 : dstep s1 s2 → dstep s2 s3 → dstep s1 s3.
Proof.
  intros (H1 & v & l & l' & c & E & E') (H2 & v2 & l2 & l2' & c2 & E2 & E2'). split; [congruence|].
  rewrite E', lookup_insert_eq in E2. injection E2 as <- <- <-. exists v, l, l2', c. split; [done|]. by rewrite E2', E', insert_insert_eq.
Qed.

Lemma at_dir_ids s e id x : at_dir s e → e !! id = Some x → _blockId x = id.
Proof. intros (_ & [Hs _] & <-) [_ ?]%lookup_contents; done. Qed.
Lemma at_dir_names s e id id' x x' : at_dir s e → e !! id = Some x → e !! id' = Some x' → _name x = _name x' → id = id'.
Proof.
  intros (_ & [Hs Hn] & <-) [H1 <-]%lookup_contents [H2 <-]%lookup_contents Hx; [|done..]. f_equal. by eapply names_inj.
Qed.

Lemma now_runs s e : at_dir s e →
  runs (now clock) s (λ t s', time_ok t ∧ at_dir s' e ∧ dstep s s' ∧ objects s' = objects s).
Proof using clock_ok.
  intros H. eapply runs_eq; [done|]. split_and!; [done|exact H| |done]. destruct H as [Hv _].
  destruct (dstep_refl s Hv) as [_ Hd]. by split.
Qed.

Lemma find_runs s e id : at_dir s e →
  DirEntryList.find_or_enoent startpos (get_entries d) id s =
    match e !! id with None => (Throw (FuseErrno ENOENT), s)
    | Some x => (Ok (DirEntryList.find_if (DirEntryList.has_id id) (get_entries d s), x), s) end.
Proof using startpos_ok. intros H. by apply (find_or_enoent_spec _ _ startpos_ok vdir). Qed.

(** Change the entry at the position found before. *)
Lemma update_runs f id i s e x :
  at_dir s e → e !! id = Some x → i = DirEntryList.find_if (DirEntryList.has_id id) (get_entries d s) →
  _blockId (f x) = _blockId x → (_name (f x) = _name x ∨ find_name (_name (f x)) e = None) →
  runs (DirEntryList.update (get_entries d) (set_entries d) (alter f i)) s
    (λ _ s', at_dir s' (<[id := f x]> e) ∧ dstep s s' ∧ i = DirEntryList.find_if (DirEntryList.has_id id) (get_entries d s')).
Proof.
  intros Hd Hx -> Hid Hn. pose proof Hd as (Hv & [Hs _] & Hc).
  destruct (update_spec (get_entries d) (set_entries d) vdir vdir_get_set vdir_set f id s e x Hd Hx Hid Hn) as (s' & E & Hch).
  pose proof E as E'. unfold DirEntryList.update, modify in E'. injection E' as E'.
  eapply runs_eq; [exact E|]. destruct Hch as (l & Hl & Hd'). split_and!; [done|subst s'; by apply dstep_set|].
  rewrite <- E', vdir_get_set by done. apply find_if_ids.
  pose proof (lookup_find_id (get_entries d s) id Hs) as Hlk. rewrite Hc, Hx in Hlk.
  rewrite (alter_insert f _ _ x Hlk), list_fmap_insert, Hid, list_insert_id; [done|]. by rewrite list_lookup_fmap, Hlk.
Qed.

(** ** Operations on one entry *)
Definition touched (R : DirEntry.t → DirEntry.t → Prop) s e id x (s' : fs S) : Prop :=
  ∃ x', (R x x' ∧ entry_like x x') ∧ at_dir s' (<[id := x']> e) ∧ dstep s s'.

Lemma updateModification_runs s e id x : at_dir s e → e !! id = Some x → wf x →
  runs (DirEntryList.updateModificationTimestampForChild startpos (get_entries d) (set_entries d) (now clock) id) s (λ _ s', touched any_change s e id x s').
Proof using startpos_ok clock_ok.
  intros Hd Hx Hw. eapply runs_bind_eq; [rewrite (find_runs s e) by done; by rewrite Hx|]. cbn [fst snd].
  eapply runs_bind; [by apply now_runs|]. intros t s1 (Ht & Hd1 & Hs1 & Ho1).
  eapply runs_bind; [by apply now_runs|]. intros t' s2 (Ht' & Hd2 & Hs2 & Ho2).
  eapply runs_mono; [apply (update_runs (setLastModificationTime t t') id _ s2 e x); try done|].
  - unfold get_entries. by rewrite Ho2, Ho1.
  - by left.
  - intros [] s3 (Hd3 & Hs3 & _). exists (setLastModificationTime t t' x). split_and!; [done|by apply setLastModificationTime_like|done|].
    by eapply dstep_trans, dstep_trans.
Qed.

Lemma updateAccess_runs s e id x behavior : at_dir s e → e !! id = Some x → wf x →
  runs (DirEntryList.updateAccessTimestampForChild startpos (get_entries d) (set_entries d) (now clock) id behavior) s
    (λ r s', if (r : bool) then touched any_change s e id x s' else objects s' = objects s ∧ base s' = base s).
Proof using startpos_ok clock_ok.
  intros Hd Hx Hw. eapply runs_bind_eq; [rewrite (find_runs s e) by done; by rewrite Hx|]. cbn [fst snd].
  eapply runs_bind; [by apply now_runs|]. intros t s1 (Ht & Hd1 & Hs1 & Ho1). cbv zeta.
  destruct (match _type x with DIR => _ | _ => _ end).
  - eapply runs_bind; [apply (update_runs (setLastAccessTime t) id _ s1 e x); try done; [unfold get_entries; by rewrite Ho1|by left]|].
    intros [] s2 (Hd2 & Hs2 & _). apply runs_ret. exists (setLastAccessTime t x).
    split_and!; [done|by apply setLastAccessTime_like|done|by eapply dstep_trans].
  - apply runs_ret. split; [done|]. by destruct Hs1.
Qed.

Lemma setAccessTimes_runs s e id x at_ mt : at_dir s e → e !! id = Some x → wf x → time_ok at_ → time_ok mt →
  runs (DirEntryList.setAccessTimes startpos (get_entries d) (set_entries d) (now clock) id at_ mt) s (λ _ s', touched (times_set at_ mt) s e id x s').
Proof using startpos_ok clock_ok.
  intros Hd Hx Hw Ha Hm. eapply runs_bind_eq; [rewrite (find_runs s e) by done; by rewrite Hx|]. cbn [fst snd].
  eapply runs_bind; [apply (update_runs (setLastAccessTime at_) id _ s e x); try done; by left|].
  intros [] s1 (Hd1 & Hs1 & Hi1). eapply runs_bind; [by apply now_runs|]. intros t s2 (Ht & Hd2 & Hs2 & Ho2).
  eapply runs_mono.
  - apply (update_runs (setLastModificationTime mt t) id _ s2 (<[id := setLastAccessTime at_ x]> e) (setLastAccessTime at_ x)); try done.
    + apply lookup_insert_eq.
    + unfold get_entries at 2. rewrite Ho2. exact Hi1.
    + by left.
  - intros [] s3 (Hd3 & Hs3 & _). rewrite insert_insert_eq in Hd3. eexists. split_and!; [by exists t| |exact Hd3|by eapply dstep_trans, dstep_trans].
    pose proof (setLastAccessTime_like x at_ Hw Ha) as H1. eapply entry_like_trans; [exact H1|]. apply setLastModificationTime_like; [apply H1|done..].
Qed.

Lemma setMode_runs s e id x mode : at_dir s e → e !! id = Some x → wf x → mode_ok (_type x) mode → 0 ≤ mode < 2 ^ 32 →
  runs (DirEntryList.setMode startpos (get_entries d) (set_entries d) (now clock) id mode) s (λ _ s', touched (mode_set mode) s e id x s').
Proof using startpos_ok clock_ok.
  intros Hd Hx Hw Hm Hr. eapply runs_bind_eq; [rewrite (find_runs s e) by done; by rewrite Hx|]. cbn [fst snd].
  apply runs_bind_assert.
  { destruct (flags_ok _ _ Hm) as (-> & -> & ->). destruct (flags_ok (_type x) (_mode x)) as (-> & -> & _); [apply Hw|]. by destruct (_type x). }
  eapply runs_bind; [by apply now_runs|]. intros t s1 (Ht & Hd1 & Hs1 & Ho1).
  eapply runs_mono; [apply (update_runs (setMode mode t) id _ s1 e x); try done; [unfold get_entries; by rewrite Ho1|by left]|].
  intros [] s2 (Hd2 & Hs2 & _). exists (setMode mode t x). split_and!; [by exists t|by apply setMode_like|done|by eapply dstep_trans].
Qed.

(** A change that is made or left out. *)
Lemma maybe_runs (P : Prop) `{!Decision P} (f : timespec → DirEntry.t → DirEntry.t) s e id x i :
  at_dir s e → e !! id = Some x → wf x → i = DirEntryList.find_if (DirEntryList.has_id id) (get_entries d s) →
  (∀ t, time_ok t → entry_like x (f t x)) →
  runs (if decide P then t ← now clock ; DirEntryList.update (get_entries d) (set_entries d) (alter (f t) i) else mret tt) s
    (λ _ s', (∃ x', (maybe_set P f x x' ∧ entry_like x x') ∧ at_dir s' (<[id := x']> e) ∧ dstep s s' ∧ i = DirEntryList.find_if (DirEntryList.has_id id) (get_entries d s')) ∧
             (¬ P → s' = s ∧ maybe_set P f x x)).
Proof using clock_ok.
  intros Hd Hx Hw -> Hf. case_decide.
  - eapply runs_bind; [by apply now_runs|]. intros t s1 (Ht & Hd1 & Hs1 & Ho1). destruct (Hf t Ht) as (Hty & Hn & Hid & Hwf).
    eapply runs_mono; [apply (update_runs (f t) id _ s1 e x); try done; [unfold get_entries; by rewrite Ho1|by left]|].
    intros [] s2 (Hd2 & Hs2 & Hi). split; [|done]. exists (f t x). refine (conj (conj _ (Hf t Ht)) (conj Hd2 (conj _ Hi))); [|by eapply dstep_trans].
    exists t. by rewrite decide_True.
  - assert (maybe_set P f x x) as Hm by (exists (clock 0); by rewrite decide_False).
    apply runs_ret. split; [|done]. exists x. rewrite insert_id by done. refine (conj (conj Hm (entry_like_refl x Hw)) (conj Hd (conj _ eq_refl))).
    apply dstep_refl. apply Hd.
Qed.

Lemma setUidGid_runs s e id x uid gid : at_dir s e → e !! id = Some x → wf x → 0 ≤ uid < 2 ^ 32 → 0 ≤ gid < 2 ^ 32 →
  runs (DirEntryList.setUidGid startpos (get_entries d) (set_entries d) (now clock) id uid gid) s
    (λ r s', if (r : bool) then touched (owner_set uid gid) s e id x s' else s' = s ∧ owner_set uid gid x x).
Proof using startpos_ok clock_ok.
  intros Hd Hx Hw Hu Hg. eapply runs_bind_eq; [rewrite (find_runs s e) by done; by rewrite Hx|]. cbn [fst snd].
  eapply runs_bind.
  { apply (maybe_runs (uid ≠ u32 (-1)) (setUid uid) s e id x _ Hd Hx Hw eq_refl). intros t Ht. by apply setUid_like. }
  intros [] s1 [(x1 & [Hm1 Hx1] & Hd1 & Hs1 & Hi1) He1]. eapply runs_bind.
  { apply (maybe_runs (gid ≠ u32 (-1)) (setGid gid) s1 _ id x1 _ Hd1 ltac:(apply lookup_insert_eq) ltac:(apply Hx1) Hi1).
    intros t Ht. apply setGid_like; [apply Hx1|done..]. }
  intros [] s2 [(x2 & [Hm2 Hx2] & Hd2 & Hs2 & Hi2) He2]. apply runs_ret. rewrite insert_insert_eq in Hd2.
  assert (touched (owner_set uid gid) s e id x s2) as Ht.
  { exists x2. exact (conj (conj (ex_intro _ x1 (conj Hm1 Hm2)) (entry_like_trans _ _ _ Hx1 Hx2)) (conj Hd2 (dstep_trans _ _ _ Hs1 Hs2))). }
  case_bool_decide as H1; [done|]. case_bool_decide as H2; [done|]. simpl. destruct (He1 ltac:(auto)) as [-> Hn1], (He2 ltac:(auto)) as [-> Hn2]. split; [done|].
  assert (x1 = x) as -> by (destruct Hm1 as [t ->]; by rewrite decide_False by auto). by exists x.
Qed.

(** ** Adding, removing, renaming entries *)
Lemma add_runs s e name id ty mode uid gid at_ mt :
  at_dir s e → e !! id = None → find_name name e = None → new_entry_ok ty name id mode uid gid at_ mt →
  runs (DirEntryList._add startpos (get_entries d) (set_entries d) (now clock) name id ty mode uid gid at_ mt) s
    (λ _ s', ∃ x, entry_is x ty name id ∧ at_dir s' (<[id := x]> e) ∧ dstep s s').
Proof using startpos_ok clock_ok.
  intros Hd Hid Hn (Hm & Hz & Hlen & Hv & Hu & Hg & Ha & Ht).
  destruct (add_entry_spec (get_entries d) (set_entries d) (now clock) startpos startpos_ok vdir vdir_get_set vdir_set vdir_now
    name id ty mode uid gid at_ mt s e Hd Hid Hn) as (t & s1 & E & Hd1 & H).
  destruct (now_runs s e Hd) as (t' & s1' & E' & Ht1 & _ & Hs1 & _). rewrite E in E'. injection E' as <- <-.
  rewrite new_flag_ok in H by apply Hm. destruct H as (s2 & E2 & l & -> & Hd2). eapply runs_eq; [exact E2|].
  eexists. split; [|split; [exact Hd2|]].
  - destruct Hm as [Hm1 Hm2]. unfold entry_is, wf. cbn. tauto.
  - eapply dstep_trans; [exact Hs1|]. apply dstep_set. apply Hd1.
Qed.

Lemma runs_entries {B} (k : list DirEntry.t → M (fs S) B) s (Q : B → fs S → Prop) :
  runs (k (get_entries d s)) s Q → runs (DirEntryList.entries (get_entries d) ≫= k) s Q.
Proof. done. Qed.

(** A name is taken or free. *)
Lemma hasChild_eq s e name : at_dir s e →
  DirEntryList._hasChild (get_entries d) name s = (Ok (bool_decide (is_Some (find_name name e))), s).
Proof.
  intros (_ & Hl & <-). unfold DirEntryList._hasChild, DirEntryList.entries, get_state, mbind, M_bind, mret, M_ret. do 2 f_equal.
  apply bool_decide_ext. rewrite <- lookup_find_name by done. unfold DirEntryList._findByName.
  destruct (get_entries d s !! DirEntryList.find_if _ _) as [x|] eqn:E.
  - split; [by eexists|]. intros _. apply lookup_lt_Some in E. lia.
  - split; [|by intros [? ?]]. intros H. exfalso. apply H. by apply DirEntryList.find_if_end.
Qed.

Lemma by_name_eq s e name : at_dir s e → get_entries d s !! DirEntryList._findByName name (get_entries d s) = find_name name e.
Proof. intros (_ & Hl & <-). by apply lookup_find_name. Qed.

Lemma checkAllowed_runs s old new : (old = DIR ↔ new = DIR) → runs (DirEntryList._checkAllowedOverwrite old new) s (λ _ s', s' = s).
Proof.
  intros H. unfold DirEntryList._checkAllowedOverwrite. repeat case_decide; try (by apply runs_ret); exfalso; intuition congruence.
Qed.

Lemma erase_runs s e name y : at_dir s e → find_name name e = Some y →
  runs (DirEntryList.update (get_entries d) (set_entries d) (delete (DirEntryList._findByName name (get_entries d s)))) s
    (λ _ s', at_dir s' (delete (_blockId y) e) ∧ dstep s s').
Proof.
  intros Hd Hy. pose proof Hd as (Hv & Hl & Hc). rewrite <- (by_name_eq s e name Hd) in Hy.
  destruct (delete_ok _ _ _ Hl Hy) as [H1 H2]. apply runs_modify. split; [|by apply dstep_set].
  unfold at_dir, is_dir. rewrite vdir_get_set, H2, Hc by done. split_and!; [by apply vdir_set|done..].
Qed.

Lemma find_name_erased s e name y : at_dir s e → find_name name e = Some y → find_name name (delete (_blockId y) e) = None.
Proof.
  intros Hd Hy. apply erase_find_name; [intros id x; by apply (at_dir_ids s)|intros id id' x x'; by apply (at_dir_names s)|done].
Qed.

(** The callback removes the overwritten blob and leaves the directory. *)
Lemma addOrOverwrite_runs s e name id ty mode uid gid at_ mt y cb (P : fs S → Prop) :
  at_dir s e → e !! id = None → find_name name e = Some y → new_entry_ok ty name id mode uid gid at_ mt →
  (_type y = DIR ↔ ty = DIR) →
  runs (cb (_blockId y)) s (λ _ s1, P s1 ∧ at_dir s1 e ∧ get_entries d s1 = get_entries d s) →
  runs (DirEntryList.addOrOverwrite startpos (get_entries d) (set_entries d) (now clock) name id ty mode uid gid at_ mt cb) s
    (λ _ s', ∃ s1 x, P s1 ∧ entry_is x ty name id ∧ at_dir s' (<[id := x]> (delete (_blockId y) e)) ∧ dstep s1 s').
Proof using startpos_ok clock_ok.
  intros Hd Hid Hy Hnew Hty Hcb. unfold DirEntryList.addOrOverwrite. apply runs_entries. cbv zeta.
  rewrite (by_name_eq s e) by done. rewrite Hy. eapply runs_bind; [exact Hcb|]. intros [] s1 (HP & Hd1 & Hg).
  apply runs_entries. rewrite <- Hg. rewrite (by_name_eq s1 e name Hd1), Hy.
  eapply runs_bind; [by apply checkAllowed_runs|]. intros [] ? ->.
  eapply runs_bind; [by apply erase_runs|]. intros [] s2 [Hd2 Hs2].
  eapply runs_mono; [apply add_runs; try done|].
  - by rewrite lookup_delete_None; right.
  - by eapply find_name_erased.
  - intros [] s3 (x & Hx & Hd3 & Hs3). exists s1, x. split_and!; try done. by eapply dstep_trans.
Qed.

Lemma rename_simple_runs s e id name x cb :
  at_dir s e → e !! id = Some x → wf x → x00 ∉ name →
  (find_name name e = None ∨ find_name name e = Some x) →
  runs (DirEntryList.rename startpos (get_entries d) (set_entries d) (now clock) id name cb) s
    (λ _ s', ∃ x', entry_is x' (_type x) name id ∧ at_dir s' (<[id := x']> e) ∧ dstep s s').
Proof using startpos_ok clock_ok.
  intros Hd Hx Hw Hz Hn. pose proof (at_dir_ids _ _ _ _ Hd Hx) as Hid. unfold DirEntryList.rename. apply runs_entries. cbv zeta.
  rewrite (by_name_eq s e) by done. eapply runs_bind_eq with (a := tt) (s' := s).
  { destruct Hn as [->| ->]; [done|]. by rewrite decide_False by (intros H; by apply H). }
  eapply runs_bind_eq; [rewrite (find_runs s e) by done; by rewrite Hx|]. cbn [fst snd].
  eapply runs_bind; [by apply now_runs|]. intros t s1 (Ht & Hd1 & Hs1 & Ho1).
  eapply runs_mono; [apply (update_runs (setName name t) id _ s1 e x); try done|].
  - unfold get_entries. by rewrite Ho1.
  - destruct Hn as [Hn|Hn]; [by right|left]. by apply find_name_Some in Hn as [-> _].
  - intros [] s2 (Hd2 & Hs2 & _). exists (setName name t x). split; [|split; [done|by eapply dstep_trans]].
    unfold entry_is, wf in Hw |- *. cbn. tauto.
Qed.

Lemma rename_over_runs s e id name x y cb (P : fs S → Prop) :
  at_dir s e → e !! id = Some x → wf x → x00 ∉ name → find_name name e = Some y → _blockId y ≠ id → (_type y = DIR ↔ _type x = DIR) →
  runs (cb (_blockId y)) s (λ _ s1, P s1 ∧ at_dir s1 e ∧ get_entries d s1 = get_entries d s) →
  runs (DirEntryList.rename startpos (get_entries d) (set_entries d) (now clock) id name cb) s
    (λ _ s', ∃ s1 x', P s1 ∧ entry_is x' (_type x) name id ∧ at_dir s' (<[id := x']> (delete (_blockId y) e)) ∧ dstep s1 s').
Proof using startpos_ok clock_ok.
  intros Hd Hx Hw Hz Hy Hne Hty Hcb. unfold DirEntryList.rename. apply runs_entries. cbv zeta.
  rewrite (by_name_eq s e) by done. rewrite Hy, decide_True by done.
  apply (runs_bind _ _ _ (λ _ s2, ∃ s1, P s1 ∧ at_dir s2 (delete (_blockId y) e) ∧ dstep s1 s2)).
  { eapply runs_bind_eq; [rewrite (find_runs s e) by done; by rewrite Hx|]. cbn [fst snd].
    eapply runs_bind; [by apply checkAllowed_runs|]. intros [] ? ->.
    eapply runs_bind; [exact Hcb|]. intros [] s1 (HP & Hd1 & Hg). rewrite <- Hg.
    eapply runs_mono; [by apply erase_runs|]. intros [] s2 [Hd2 Hs2]. by exists s1. }
  intros [] s2 (s1 & HP & Hd2 & Hs2).
  assert (delete (_blockId y) e !! id = Some x) as Hx2 by by rewrite lookup_delete_ne.
  eapply runs_bind_eq; [rewrite (find_runs s2 _) by done; by rewrite Hx2|]. cbn [fst snd].
  eapply runs_bind; [by apply now_runs|]. intros t s3 (Ht & Hd3 & Hs3 & Ho3).
  eapply runs_mono; [apply (update_runs (setName name t) id _ s3 (delete (_blockId y) e) x); try done|].
  - unfold get_entries. by rewrite Ho3.
  - right. by eapply find_name_erased.
  - intros [] s4 (Hd4 & Hs4 & _). exists s1, (setName name t x). pose proof (at_dir_ids _ _ _ _ Hd Hx) as Hid.
    split; [done|]. split; [unfold entry_is, wf in Hw |- *; cbn; tauto|]. split; [done|]. by eapply dstep_trans, dstep_trans.
Qed.

(** ** On the map of nodes *)
Lemma repr_at_dir n s a p e : fs_repr n s a → a !! d = Some (mkANode p (ADir e)) → loaded s d → at_dir s e ∧ entries_wf e.
Proof.
  intros (_ & m & _ & Hm) Hx [b Eo]. specialize (Hm d). rewrite Hx, Eo in Hm. destruct Hm as (_ & _ & [_ [Hwf _]] & Hr).
  destruct Hr as (l & c & old & -> & Hl & Hc & _). split; [|done]. split; [by exists (FsBlobView.mk d p), l, c|].
  unfold get_entries. rewrite Eo. done.
Qed.

Lemma on_entries_eq {A} (m : M (fs S) A) s : vdir s → on_entries d m s = m s.
Proof. intros (v & l & c & E). unfold on_entries, dir_object, object, get_state, mbind, M_bind. csimp. rewrite E. done. Qed.

Lemma runs_on_entries {A} (m : M (fs S) A) s (Q : A → fs S → Prop) : vdir s → runs m s Q → runs (on_entries d m) s Q.
Proof. intros Hv (r & s' & E & HQ). exists r, s'. by rewrite on_entries_eq. Qed.

Lemma became_same n s a s' : fs_repr n s a → objects s' = objects s → base s' = base s → became n s a s'.
Proof.
  intros (Hr & m & Hb & Hm) Ho Hbase. split; [split; [done|]; exists m; by rewrite Ho, Hbase|].
  intros i [b Hi]. unfold loaded. rewrite Ho. by exists b.
Qed.

Lemma commit_runs n s a p e s' e' :
  fs_repr (Datatypes.S n) s a → a !! d = Some (mkANode p (ADir e)) → loaded s d → dstep s s' → at_dir s' e' → entries_wf e' →
  Z.of_nat (msize e') ≤ Z.of_nat (msize e) + STEP →
  runs (set_changed d true) s' (λ _ s'', became n s (<[d := mkANode p (ADir e')]> a) s'').
Proof.
  intros (Hroom & m & Hb & Hm) Hx [b Eo] (Hbase & v & l & l' & c & E & E') (Hv & Hl & Hc) Hwf Hsz.
  rewrite Eo in E. injection E as ->.
  pose proof (Hm d) as Hr. rewrite Hx, Eo in Hr. destruct Hr as (Hval & Hnn & [Hp [_ Hfit]] & l0 & c0 & old & [= -> -> ->] & _ & _ & Ed & _).
  cbn [a_parent a_content] in *.
  unfold get_entries in Hl, Hc. rewrite E', lookup_insert_eq in Hl, Hc.
  eapply runs_bind_eq; [unfold dir_object, object, get_state, mbind, M_bind; csimp; rewrite E', lookup_insert_eq; done|].
  apply runs_modify. unfold object_id. simpl. split.
  - unfold set_objects. rewrite Hbase, E', insert_insert_eq.
    eapply (fs_repr_insert n s a m); try done; [eapply room_le; [| |exact Hroom]; lia| |eapply nodes_repr_le; [|exact Hm]; lia| |].
    + rewrite insert_id by exact Ed. eapply blobs_are_le; [|exact Hb]. lia.
    + split; [done|]. split; [done|]. unfold room, STEP in *. lia.
    + exists l', true, old. done.
  - intros i [b Hi]. unfold loaded. simpl. rewrite E', insert_insert_eq. destruct (decide (d = i)) as [<-|]; [by rewrite lookup_insert_eq|].
    rewrite lookup_insert_ne by done. by exists b.
Qed.

(** The entry of [id] was changed to one like [x]. *)
Definition retouched (R : DirEntry.t → DirEntry.t → Prop) n s a p e id x (s' : fs S) : Prop :=
  ∃ x', (R x x' ∧ entry_like x x') ∧ became n s (<[d := mkANode p (ADir (<[id := x']> e))]> a) s'.

Lemma entries_wf_insert e id x : entries_wf e → wf x → entries_wf (<[id := x]> e).
Proof. intros H Hx. by apply map_Forall_insert_2. Qed.
Lemma entries_wf_delete e id : entries_wf e → entries_wf (delete id e).
Proof. intros H. by apply map_Forall_delete. Qed.

Lemma msize_touch e id x x' : e !! id = Some x → entry_like x x' → msize (<[id := x']> e) = msize e.
Proof.
  intros Hx Hl. rewrite (msize_lookup e id x Hx), (msize_lookup _ id x') by apply lookup_insert_eq.
  by rewrite delete_insert_eq, (entry_like_size _ _ Hl).
Qed.

Lemma retouch_runs R n s a p e id x s' :
  fs_repr (Datatypes.S n) s a → a !! d = Some (mkANode p (ADir e)) → loaded s d → e !! id = Some x → touched R s e id x s' →
  runs (set_changed d true) s' (λ _ s'', retouched R n s a p e id x s'').
Proof.
  intros Hs Hx Hl Hid (x' & [HR Hlike] & Hd' & Hst). destruct (repr_at_dir _ _ _ _ _ Hs Hx Hl) as [_ Hwf].
  eapply runs_mono; [eapply (commit_runs n s a p e s' (<[id := x']> e)); try done|].
  - apply entries_wf_insert; [done|apply Hlike].
  - rewrite (msize_touch _ _ _ _ Hid Hlike). unfold STEP. lia.
  - intros [] s'' H. by exists x'.
Qed.

Section at_node.
Context (n : nat) (s : fs S) (a : gmap bytes anode) (p : bytes) (e : gmap bytes DirEntry.t).
Context (Hs : fs_repr (Datatypes.S n) s a) (Hx : a !! d = Some (mkANode p (ADir e))) (Hl : loaded s d).

Local Lemma dir_here : at_dir s e.
Proof using Hs Hx Hl. by eapply repr_at_dir. Qed.
Local Lemma dir_v : vdir s.
Proof using Hs Hx Hl. apply dir_here. Qed.
Local Lemma dir_wf id x : e !! id = Some x → wf x.
Proof using Hs Hx Hl. destruct (repr_at_dir _ _ _ _ _ Hs Hx Hl) as [_ Hwf]. apply Hwf. Qed.

Lemma GetChild_by_name_eq name : GetChild_by_name d name s = (Ok (find_name name e), s).
Proof using Hs Hx Hl. unfold GetChild_by_name. rewrite on_entries_eq by apply dir_v. by apply (get_by_name_spec _ vdir), dir_here. Qed.
Lemma GetChild_by_id_eq id : GetChild_by_id startpos d id s = (Ok (e !! id), s).
Proof using Hs Hx Hl startpos_ok.
  unfold GetChild_by_id. rewrite on_entries_eq by apply dir_v. by apply (get_by_id_spec _ _ startpos_ok vdir), dir_here.
Qed.
Lemma NumChildren_eq : NumChildren d s = (Ok (size e), s).
Proof using Hs Hx Hl. unfold NumChildren. rewrite on_entries_eq by apply dir_v. by apply (size_spec _ vdir), dir_here. Qed.
Lemma AppendChildrenTo_eq r : ∃ l, dir_ok l ∧ contents l = e ∧
  AppendChildrenTo d r s = (Ok (r ++ ((λ x, (_type x, _name x)) <$> l)), s).
Proof using Hs Hx Hl.
  pose proof dir_here as (Hv & Hok & Hc). exists (get_entries d s). split_and!; [done..|].
  unfold AppendChildrenTo. by rewrite on_entries_eq.
Qed.

Lemma updateModification_spec id x : e !! id = Some x →
  runs (updateModificationTimestampForChild clock startpos d id) s (λ _ s', retouched any_change n s a p e id x s').
Proof using Hs Hx Hl startpos_ok clock_ok.
  intros He. eapply runs_bind.
  - apply runs_on_entries; [apply dir_v|]. apply updateModification_runs; [apply dir_here|exact He|by eapply dir_wf].
  - intros [] s1 Ht. by eapply retouch_runs.
Qed.

Lemma updateAccess_spec id x behavior : e !! id = Some x →
  runs (updateAccessTimestampForChild clock startpos d id behavior) s
    (λ _ s', retouched any_change n s a p e id x s' ∨ became n s a s').
Proof using Hs Hx Hl startpos_ok clock_ok.
  intros He. eapply runs_bind.
  - apply runs_on_entries; [apply dir_v|]. apply updateAccess_runs; [apply dir_here|exact He|by eapply dir_wf].
  - intros [] s1 Ht; simpl in Ht.
    + eapply runs_mono; [by eapply retouch_runs|]. auto.
    + apply runs_ret. right. destruct Ht. apply became_same; [|done..]. eapply fs_repr_le; [|exact Hs]. lia.
Qed.

Lemma utimensChild_spec id x at_ mt : e !! id = Some x → time_ok at_ → time_ok mt →
  runs (utimensChild clock startpos d id at_ mt) s (λ _ s', retouched (times_set at_ mt) n s a p e id x s').
Proof using Hs Hx Hl startpos_ok clock_ok.
  intros He Ha Hm. eapply runs_bind.
  - apply runs_on_entries; [apply dir_v|]. apply setAccessTimes_runs; [apply dir_here|exact He|by eapply dir_wf|done..].
  - intros [] s1 Ht. by eapply retouch_runs.
Qed.

Lemma chmodChild_spec id x mode : e !! id = Some x → mode_ok (_type x) mode → 0 ≤ mode < 2 ^ 32 →
  runs (chmodChild clock startpos d id mode) s (λ _ s', retouched (mode_set mode) n s a p e id x s').
Proof using Hs Hx Hl startpos_ok clock_ok.
  intros He Hm Hr. eapply runs_bind.
  - apply runs_on_entries; [apply dir_v|]. apply setMode_runs; [apply dir_here|exact He|by eapply dir_wf|done..].
  - intros [] s1 Ht. by eapply retouch_runs.
Qed.

Lemma chownChild_spec id x uid gid : e !! id = Some x → 0 ≤ uid < 2 ^ 32 → 0 ≤ gid < 2 ^ 32 →
  runs (chownChild clock startpos d id uid gid) s (λ _ s', retouched (owner_set uid gid) n s a p e id x s').
Proof using Hs Hx Hl startpos_ok clock_ok.
  intros He Hu Hg. eapply runs_bind.
  - apply runs_on_entries; [apply dir_v|]. apply setUidGid_runs; [apply dir_here|exact He|by eapply dir_wf|done..].
  - intros [] s1 Ht; simpl in Ht.
    + by eapply retouch_runs.
    + apply runs_ret. destruct Ht as [-> Ho]. exists x. split; [split; [done|]; apply entry_like_refl; by eapply dir_wf|].
      rewrite (insert_id e id x He), (insert_id a d _ Hx). apply became_same; [|done..]. eapply fs_repr_le; [|exact Hs]. lia.
Qed.

(** Without such an entry nothing changes. *)
Lemma updateModification_missing id : e !! id = None →
  updateModificationTimestampForChild clock startpos d id s = (Throw (FuseErrno ENOENT), s).
Proof using Hs Hx Hl startpos_ok.
  intros He. apply bind_throw. rewrite on_entries_eq by apply dir_v. apply bind_throw. rewrite (find_runs s e) by apply dir_here. by rewrite He.
Qed.
Lemma updateAccess_missing id behavior : e !! id = None →
  updateAccessTimestampForChild clock startpos d id behavior s = (Throw (FuseErrno ENOENT), s).
Proof using Hs Hx Hl startpos_ok.
  intros He. apply bind_throw. rewrite on_entries_eq by apply dir_v. apply bind_throw. rewrite (find_runs s e) by apply dir_here. by rewrite He.
Qed.

Lemma addChild_exists name id ty mode uid gid at_ mt x : find_name name e = Some x →
  _addChild clock startpos d name id ty mode uid gid at_ mt s = (Throw (FuseErrno EEXIST), s).
Proof using Hs Hx Hl.
  intros Hn. apply bind_throw. rewrite on_entries_eq by apply dir_v. unfold DirEntryList.add.
  rewrite (bind_ok _ _ _ _ _ (hasChild_eq s e name dir_here)). by rewrite Hn.
Qed.

Lemma addChild_spec name id ty mode uid gid at_ mt :
  e !! id = None → find_name name e = None → new_entry_ok ty name id mode uid gid at_ mt →
  runs (_addChild clock startpos d name id ty mode uid gid at_ mt) s
    (λ _ s', ∃ x, entry_is x ty name id ∧ became n s (<[d := mkANode p (ADir (<[id := x]> e))]> a) s').
Proof using Hs Hx Hl startpos_ok clock_ok.
  intros Hid Hn Hnew. eapply runs_bind.
  - apply runs_on_entries; [apply dir_v|]. unfold DirEntryList.add. eapply runs_bind_eq; [apply (hasChild_eq s e name dir_here)|].
    rewrite Hn. simpl. apply (add_runs s e); try done. apply dir_here.
  - intros [] s1 (x & Hex & Hd1 & Hst). destruct (repr_at_dir _ _ _ _ _ Hs Hx Hl) as [_ Hwf].
    eapply runs_mono; [eapply (commit_runs n s a p e s1); try done|].
    + apply entries_wf_insert; [done|apply Hex].
    + rewrite msize_insert by done. pose proof (entry_is_size _ _ _ _ Hex ltac:(apply Hnew)). lia.
    + intros [] s2 H. by exists x.
Qed.

Lemma RemoveChild_by_id_spec id :
  runs (RemoveChild_by_id startpos d id) s (λ _ s', became n s (<[d := mkANode p (ADir (delete id e))]> a) s').
Proof using Hs Hx Hl startpos_ok.
  destruct (repr_at_dir _ _ _ _ _ Hs Hx Hl) as [Hd Hwf].
  apply (runs_bind _ _ _ (λ _ s1, dir_changed (get_entries d) (set_entries d) vdir s s1 (delete id e))).
  - apply runs_on_entries; [apply dir_v|].
    destruct (remove_by_id_spec (get_entries d) (set_entries d) startpos startpos_ok vdir vdir_get_set vdir_set id s e Hd) as (s1 & E & Hch).
    eapply runs_eq; [exact E|exact Hch].
  - intros [] s1 (l & -> & Hd1). eapply (commit_runs n s a p e); try done.
    + apply dstep_set, Hd.
    + by apply entries_wf_delete.
    + pose proof (msize_delete e id). unfold STEP. lia.
Qed.

Lemma RemoveChild_by_name_spec name x : find_name name e = Some x →
  runs (RemoveChild_by_name d name) s (λ _ s', became n s (<[d := mkANode p (ADir (delete (_blockId x) e))]> a) s').
Proof using Hs Hx Hl.
  intros Hn. destruct (repr_at_dir _ _ _ _ _ Hs Hx Hl) as [Hd Hwf].
  apply (runs_bind _ _ _ (λ _ s1, dir_changed (get_entries d) (set_entries d) vdir s s1 (delete (_blockId x) e))).
  - apply runs_on_entries; [apply dir_v|].
    pose proof (remove_by_name_spec (get_entries d) (set_entries d) vdir vdir_get_set vdir_set name s e Hd) as H. rewrite Hn in H.
    destruct H as (s1 & E & Hch). eapply runs_eq; [exact E|exact Hch].
  - intros [] s1 (l & -> & Hd1). eapply (commit_runs n s a p e); try done.
    + apply dstep_set, Hd.
    + by apply entries_wf_delete.
    + pose proof (msize_delete e (_blockId x)). unfold STEP. lia.
Qed.

Lemma flush_dir_spec n' : (n = Datatypes.S n')%nat → runs (flush_dir uninit d) s (λ _ s', became n' s a s').
Proof using Hs Hx Hl uninit_ok.
  intros ->. pose proof Hs as (Hroom & m & Hb & Hm). destruct Hl as [b Eo]. pose proof (Hm d) as Hr. rewrite Hx, Eo in Hr.
  destruct Hr as (Hval & Hnn & [Hp [Hwf Hfit]] & l & c & old & -> & Hok & Hc & Ed & Hold). cbn [a_parent a_content] in *.
  destruct (dir_fits _ _ _ Hok Hc Hwf Hfit) as [Hents Hcf].
  eapply runs_bind_eq; [unfold dir_object, object, get_state, mbind, M_bind; csimp; rewrite Eo; done|].
  assert (runs (DirBlob.flush uninit (FsBlobView.mk d p) l c) (base s)
    (λ r b, r = false ∧ blobs_are n' b (<[d := header FsBlobView.TDir p ++ dir_bytes l]> m))) as Hf.
  { eapply runs_bind; [by eapply writeEntries_spec|]. intros r b [-> Hb1].
    eapply runs_bind; [eapply blob_flush_spec; [exact Hb1|apply lookup_insert_eq]|]. intros [] b2 Hb2. by apply runs_ret. }
  eapply runs_bind; [eapply runs_on_base, Hf|]. intros r s1 (b1 & -> & -> & Hb1).
  eapply runs_bind_eq; [unfold dir_object, object, get_state, mbind, M_bind; csimp; simpl; rewrite Eo; done|].
  apply runs_modify. unfold object_id. simpl. split; [|exact (keeps_insert s _ _ _ _)].
  rewrite <- (insert_id a d _ Hx). eapply (fs_repr_insert n' s a m); try done.
  - eapply room_le; [| |exact Hroom]; lia.
  - eapply nodes_repr_le; [|exact Hm]. lia.
  - split; [done|]. split; [done|]. eapply room_le; [| |exact Hfit]; lia.
  - by exists l, false, (dir_bytes l).
Qed.
End at_node.
End dir.
