(* ===== verification/FsView.v ===== *)
(** * The loaded blobs stand for a tree

    [view] forgets the attributes of entries that the tree does not depend on
    (times, modes, owners); [fs_view n s v]: the state [s] represents the tree
    [v], and there is room for [n] more steps. The lemmas restate what the
    operations of FsObjects.v do, for views: an update of a time stamp does
    nothing. [vsame]: the attributes that a view forgets are the same too. *)
From S2P Require Import Prelude Serialization DirEntry DirEntryList DirSpec Directory FsBlobs FsBlobSpec FsTree FsObjects FsObjSpec FsDirSpec NodeSpec BlobModel.
From stdpp Require Import sorting.
From Stdlib Require Import Lia ZArith Sorted.
Open Scope Z_scope.
Import DirEntry.

Definition view_entry (x : DirEntry.t) : EntryType * bytes := (_type x, _name x).
Definition view_content (c : anode_content) : vcontent :=
  match c with
  | AFile c => VFile c
  | ADir e => VDir (view_entry <$> e)
  | ASymlink t => VSymlink t
  end.
Definition view_node (x : anode) : vnode := mkV (a_parent x) (view_content (a_content x)).
Definition view (a : gmap bytes anode) : gmap bytes vnode := view_node <$> a.

Lemma view_lookup (a : gmap bytes anode) id : view a !! id = view_node <$> a !! id.
Proof. apply lookup_fmap. Qed.
Lemma view_insert (a : gmap bytes anode) id x : view (<[id := x]> a) = <[id := view_node x]> (view a).
Proof. apply fmap_insert. Qed.
Lemma view_delete (a : gmap bytes anode) id : view (delete id a) = delete id (view a).
Proof. apply fmap_delete. Qed.

Lemma view_same (a : gmap bytes anode) id x x' : a !! id = Some x → view_node x' = view_node x → view (<[id := x']> a) = view a.
Proof. intros Hx E. rewrite view_insert, E. apply insert_id. by rewrite view_lookup, Hx. Qed.

Lemma view_touch (e : gmap bytes DirEntry.t) id x x' : e !! id = Some x → entry_like x x' → view_entry <$> (<[id := x']> e) = view_entry <$> e.
Proof.
  intros Hx (Ht & Hn & _). rewrite fmap_insert. apply insert_id. rewrite lookup_fmap, Hx. simpl. unfold view_entry. by rewrite Ht, Hn.
Qed.

Lemma a_type_view c : a_type c = blob_type (v_type (view_content c)).
Proof. by destruct c. Qed.

(** Names lead to the same child in the entries and in their view. *)
Lemma view_find (e : gmap bytes DirEntry.t) name :
  (∀ id x, e !! id = Some x → _blockId x = id) → (∀ id id' x x', e !! id = Some x → e !! id' = Some x' → _name x = _name x' → id = id') →
  vfind name (view_entry <$> e) = (λ x, (_blockId x, _type x)) <$> find_name name e.
Proof.
  intros Hid Hn. destruct (vfind name _) as [[id ty]|] eqn:Ev, (find_name name e) as [x|] eqn:Ef; simpl.
  - apply vfind_Some in Ev. apply find_name_Some in Ef as (Hx & id' & Hx'). rewrite lookup_fmap in Ev.
    apply fmap_Some in Ev as (y & Hy & E). unfold view_entry in E. injection E as -> ->.
    assert (id = id') as -> by (by apply (Hn _ _ y x)). rewrite Hx' in Hy. injection Hy as <-. by rewrite (Hid _ _ Hx').
  - exfalso. apply vfind_Some in Ev. rewrite lookup_fmap in Ev. apply fmap_Some in Ev as (y & Hy & E). unfold view_entry in E. injection E as _ E.
    by apply (find_name_None _ _ _ _ Ef Hy).
  - exfalso. apply find_name_Some in Ef as (Hx & id' & Hx'). apply (vfind_None name _ id' (_type x) Ev). rewrite lookup_fmap, Hx'. simpl. unfold view_entry. by rewrite Hx.
  - done.
Qed.

(** An ordered vector is determined by its entries. *)
Lemma sorted_unique l k : DirEntryList.sorted l → DirEntryList.sorted k → contents l = contents k → l = k.
Proof.
  intros Hl Hk E. apply (StronglySorted_unique_strong DirEntryList.id_lt); [|done|done|].
  - intros x y _ _ H1 H2. unfold DirEntryList.id_lt in *. exfalso. pose proof (BlockId.less_trans _ _ _ H1 H2) as H. by apply BlockId.less_irrefl in H.
  - apply NoDup_Permutation.
    + apply (NoDup_fmap_1 _blockId). by apply sorted_NoDup.
    + apply (NoDup_fmap_1 _blockId). by apply sorted_NoDup.
    + intros x. split; intros H; [apply (lookup_contents k (_blockId x) x Hk)|apply (lookup_contents l (_blockId x) x Hl)];
        [rewrite <- E|rewrite E]; by apply lookup_contents.
Qed.

Section view.
Context {S : Type} `{!BlobStore S} `{!BlobStoreSpec S}.
Context (uninit : nat → bytes) (uninit_ok : ∀ n, length (uninit n) = n).
Context (clock : nat → timespec) (clock_ok : ∀ n, time_ok (clock n)).
Context (startpos : Z → nat → nat) (startpos_ok : ∀ b n, 0 ≤ b < 256 → (0 < n)%nat → (startpos b n < n)%nat).
Implicit Types (s : fs S) (a : gmap bytes anode) (v : gmap bytes vnode) (d id p name : bytes).

Definition fs_view (n : nat) s v : Prop := ∃ a, fs_repr n s a ∧ view a = v.
(** After an operation: another tree, all objects still there. *)
Definition vbecame n s v s' : Prop := fs_view n s' v ∧ keeps s s'.

Lemma fs_view_le n n' s v : (n' ≤ n)%nat → fs_view n s v → fs_view n' s v.
Proof. intros Hle (a & Ha & E). exists a. split; [|done]. by eapply fs_repr_le. Qed.
Lemma vbecame_le n n' s v s' : (n' ≤ n)%nat → vbecame n s v s' → vbecame n' s v s'.
Proof. intros Hle [H K]. split; [by eapply fs_view_le|done]. Qed.
Lemma vbecame_trans n n' s v s1 v' s2 : vbecame n s v s1 → vbecame n' s1 v' s2 → vbecame n' s v' s2.
Proof. intros [_ K1] [H K2]. split; [done|]. by eapply keeps_trans. Qed.
Lemma vbecame_refl n s v : fs_view n s v → vbecame n s v s.
Proof. intros H. split; [done|apply keeps_refl]. Qed.
Lemma became_view n s a s' v : became n s a s' → view a = v → vbecame n s v s'.
Proof. intros [H K] E. split; [by exists a|done]. Qed.

(** The tree is the same with all attributes of its entries. *)
Definition vsame n s v s' : Prop := vbecame n s v s' ∧ ∀ a, fs_repr n s a → view a = v → fs_repr n s' a.
Lemma vsame_refl n s v : fs_view n s v → vsame n s v s.
Proof. intros H. by split; [apply vbecame_refl|]. Qed.
Lemma vsame_trans n s v s1 s2 : vsame n s v s1 → vsame n s1 v s2 → vsame n s v s2.
Proof. intros [H1 A1] [H2 A2]. split; [by eapply vbecame_trans|]. intros a Ha E. by apply A2; [apply A1|]. Qed.

Lemma repr_dirs n s a d p e : fs_repr n s a → a !! d = Some (mkANode p (ADir e)) →
  (∀ id x, e !! id = Some x → _blockId x = id) ∧ (∀ id id' x x', e !! id = Some x → e !! id' = Some x' → _name x = _name x' → id = id') ∧ entries_wf e.
Proof.
  intros (_ & m & _ & Hm) Hd. specialize (Hm d). rewrite Hd in Hm. destruct Hm as (_ & _ & [_ [Hwf _]] & Hr).
  assert (∃ l, dir_ok l ∧ contents l = e) as (l & [Hs Hn] & <-).
  { unfold node_repr in Hr. simpl in Hr. destruct (objects s !! d); [destruct Hr as (l & ? & ? & _ & ? & ? & _)|destruct Hr as (l & ? & ? & _)]; by exists l. }
  split; [|split; [|done]].
  - by intros id x [_ ?]%lookup_contents.
  - intros id id' x x' [H1 <-]%lookup_contents [H2 <-]%lookup_contents Hx; [|done..]. f_equal. by eapply names_inj.
Qed.

Lemma view_dirs_ok n s v : fs_view n s v → dirs_ok v.
Proof.
  intros (a & Ha & <-). split.
  - intros d x. rewrite view_lookup. intros Hx. apply fmap_Some in Hx as (y & Hy & ->).
    by destruct (fs_repr_node _ _ _ _ _ Ha Hy) as (_ & ? & _).
  - intros d p e id id' ty ty' name Hd H1 H2. unfold dir_at in Hd. rewrite view_lookup in Hd. apply fmap_Some in Hd as ([q [|e0|]] & Hy & [=]).
    subst. rewrite lookup_fmap in H1, H2. apply fmap_Some in H1 as (x & Hx & [=]), H2 as (x' & Hx' & [=]). subst.
    destruct (repr_dirs _ _ _ _ _ _ Ha Hy) as (_ & Hn & _). by eapply Hn.
Qed.
Lemma view_valid n s v id x : fs_view n s v → v !! id = Some x → BlockId.valid id.
Proof.
  intros (a & Ha & <-). rewrite view_lookup. intros Hx. apply fmap_Some in Hx as (y & Hy & ->).
  by destruct (fs_repr_node _ _ _ _ _ Ha Hy) as (? & _).
Qed.

(** The representation behind a node of the view. *)
Lemma view_node_at v a id x : view a = v → v !! id = Some x → ∃ y, a !! id = Some y ∧ x = view_node y.
Proof. intros <-. rewrite view_lookup. intros Hx. apply fmap_Some in Hx as (y & ? & ?). by exists y. Qed.
Lemma view_dir_at v a d p e : view a = v → dir_at v d p e → ∃ e', a !! d = Some (mkANode p (ADir e')) ∧ e = view_entry <$> e'.
Proof. intros E Hd. destruct (view_node_at _ _ _ _ E Hd) as ([q [|e'|]] & Hy & [=]). subst. by exists e'. Qed.
Lemma view_file_at v a id p c : view a = v → v !! id = Some (mkV p (VFile c)) → a !! id = Some (mkANode p (AFile c)).
Proof. intros E Hd. by destruct (view_node_at _ _ _ _ E Hd) as ([q [|e'|]] & Hy & [=]); subst. Qed.
Lemma view_symlink_at v a id p t : view a = v → v !! id = Some (mkV p (VSymlink t)) → a !! id = Some (mkANode p (ASymlink t)).
Proof. intros E Hd. by destruct (view_node_at _ _ _ _ E Hd) as ([q [|e'|]] & Hy & [=]); subst. Qed.

Lemma view_symlink_ok n s v id p t : fs_view n s v → v !! id = Some (mkV p (VSymlink t)) → x00 ∉ t.
Proof.
  intros (a & Ha & E) Hx. pose proof (view_symlink_at _ _ _ _ _ E Hx) as Hy.
  by destruct (fs_repr_node _ _ _ _ _ Ha Hy) as (_ & _ & _ & ? & _).
Qed.

(** ** The store *)
Lemma load_same n s v id x : fs_view n s v → v !! id = Some x →
  runs (FsObjects.load id) s (λ r s', r = Some (blob_type (v_type (v_content x))) ∧ vsame n s v s' ∧ loaded s' id).
Proof.
  intros (a & Ha & E) Hx. destruct (view_node_at _ _ _ _ E Hx) as (y & Hy & ->).
  destruct (load_spec _ _ _ _ _ Ha Hy) as (r & s' & Er & -> & Ha' & Hl & Hk). eapply runs_eq; [exact Er|]. rewrite a_type_view.
  split; [done|]. split; [|done]. split; [split; [by exists a|done]|]. intros a0 Ha0 E0.
  destruct (view_node_at _ _ _ _ E0 Hx) as (y0 & Hy0 & _). destruct (load_spec _ _ _ _ _ Ha0 Hy0) as (r0 & s0 & Er0 & _ & H & _). congruence.
Qed.
Lemma load_view n s v id x : fs_view n s v → v !! id = Some x →
  runs (FsObjects.load id) s (λ r s', r = Some (blob_type (v_type (v_content x))) ∧ vbecame n s v s' ∧ loaded s' id).
Proof. intros Hs Hx. eapply runs_mono; [by eapply load_same|]. by intros r s' (-> & [Hb _] & Hl). Qed.

Lemma parentPointer_view n s v id x : fs_view n s v → v !! id = Some x → loaded s id → parentPointer id s = (Ok (v_parent x), s).
Proof.
  intros (a & Ha & E) Hx Hl. destruct (view_node_at _ _ _ _ E Hx) as (y & Hy & ->).
  by destruct (parentPointer_spec _ _ _ _ _ Ha Hy Hl) as (r & s' & -> & -> & ->).
Qed.

Definition vmade n s v p (c : vcontent) id (s' : fs S) : Prop :=
  v !! id = None ∧ BlockId.valid id ∧ vbecame n s (<[id := mkV p c]> v) s' ∧ loaded s' id.
Lemma made_view n s a p c id s' : made n s a p c id s' → vmade n s (view a) p (view_content c) id s'.
Proof.
  intros (H1 & H2 & H3 & H4 & H5 & H6). split; [by rewrite view_lookup, H1|]. split; [done|]. split; [|done]. split; [|done].
  eexists. split; [exact H4|]. by rewrite view_insert.
Qed.

Lemma createFileBlob_view n s v p : fs_view (5 + n) s v → BlockId.valid p → runs (createFileBlob p) s (vmade n s v p (VFile [])).
Proof.
  intros (a & Ha & <-) Hp. eapply runs_mono; [by apply createFileBlob_made|]. intros r s' H. exact (made_view _ _ _ _ _ _ _ H).
Qed.
Lemma createDirBlob_view n s v p : fs_view (5 + n) s v → BlockId.valid p → runs (createDirBlob p) s (vmade n s v p (VDir ∅)).
Proof.
  intros (a & Ha & <-) Hp. eapply runs_mono; [by apply createDirBlob_made|]. intros r s' H. apply made_view in H. simpl in H. by rewrite fmap_empty in H.
Qed.
Lemma createSymlinkBlob_view n s v p t : fs_view (7 + n) s v → BlockId.valid p → x00 ∉ t → 19 + Z.of_nat (length t) ≤ max_blob →
  runs (createSymlinkBlob t p) s (vmade n s v p (VSymlink t)).
Proof.
  intros (a & Ha & <-) Hp Ht Hl. eapply runs_mono; [by apply createSymlinkBlob_made|]. intros r s' H. exact (made_view _ _ _ _ _ _ _ H).
Qed.

Lemma remove_view n s v id x : fs_view (2 + n) s v → v !! id = Some x → loaded s id →
  runs (FsObjects.remove uninit id) s (λ _ s', fs_view n s' (delete id v) ∧ ∀ i, i ≠ id → loaded s i → loaded s' i).
Proof using uninit_ok.
  intros (a & Ha & E) Hx Hl. destruct (view_node_at _ _ _ _ E Hx) as (y & Hy & ->).
  eapply runs_mono; [by eapply remove_spec|]. intros r s' [Ha' Hk]. split; [|done]. eexists. split; [exact Ha'|]. by rewrite view_delete, E.
Qed.

Lemma evict_view n s v id x : fs_view (2 + n) s v → v !! id = Some x → loaded s id →
  runs (evict uninit id) s (λ _ s', fs_view n s' v ∧ ∀ i, i ≠ id → loaded s i → loaded s' i).
Proof using uninit_ok.
  intros (a & Ha & E) Hx Hl. destruct (view_node_at _ _ _ _ E Hx) as (y & Hy & ->).
  eapply runs_mono; [by eapply evict_spec|]. intros r s' [Ha' Hk]. split; [|done]. by eexists.
Qed.

Lemma setParentPointer_view n s v id x q : fs_view (Datatypes.S n) s v → v !! id = Some x → loaded s id → BlockId.valid q →
  runs (setParentPointer id q) s (λ _ s', vbecame n s (<[id := mkV q (v_content x)]> v) s').
Proof.
  intros (a & Ha & E) Hx Hl Hq. destruct (view_node_at _ _ _ _ E Hx) as (y & Hy & ->).
  eapply runs_mono; [by eapply setParentPointer_became|]. intros r s' H. eapply became_view; [exact H|]. by rewrite view_insert, E.
Qed.

(** ** The numbers of the store *)
Lemma nodes_repr_size n m o a : nodes_repr n m o a → size m = size a.
Proof.
  intros Hm. rewrite <- (size_dom m), <- (size_dom a). f_equal. apply leibniz_equiv. intros id. rewrite !elem_of_dom. specialize (Hm id).
  destruct (a !! id); [|destruct Hm as [-> _]; by split]. destruct Hm as (_ & _ & _ & Hr%node_repr_disk). naive_solver.
Qed.
(** A question to the store that leaves the blobs alone. *)
Lemma ask_view {A} n s v (m : M S A) (Q : A → Prop) : fs_view n s v →
  (∀ b mm, size mm = size v → blobs_are n b mm → runs m b (λ r b', Q r ∧ blobs_are n b' mm)) →
  runs (on_base m) s (λ r s', Q r ∧ vbecame n s v s').
Proof.
  intros (a & (Hr & mm & Hb & Hm) & <-) H. eapply runs_mono; [eapply runs_on_base, (H _ mm); [|exact Hb]|].
  - rewrite (nodes_repr_size _ _ _ _ Hm). unfold view. by rewrite map_size_fmap.
  - intros r s' (b & -> & HQ & Hb'). split; [done|]. split; [|by intros id Hl]. exists a. split; [|done]. split; [done|]. by exists mm.
Qed.

(** ** Files and symbolic links *)
Lemma file_write_view n s v id p c src off :
  fs_view (Datatypes.S n) s v → v !! id = Some (mkV p (VFile c)) → loaded s id → 19 + Z.of_nat (off + length src) ≤ max_blob →
  runs (file_write id src (Z.of_nat off)) s (λ _ s', vbecame n s (<[id := mkV p (VFile (write_bytes c off src))]> v) s').
Proof.
  intros (a & Ha & E) Hx Hl Hlen. eapply runs_mono; [eapply file_write_spec; try done; by eapply view_file_at|].
  intros [] s' H. eapply became_view; [exact H|]. by rewrite view_insert, E.
Qed.
Lemma file_resize_view n s v id p c k :
  fs_view (Datatypes.S n) s v → v !! id = Some (mkV p (VFile c)) → loaded s id → 19 + Z.of_nat k ≤ max_blob →
  runs (file_resize id (Z.of_nat k)) s (λ _ s', vbecame n s (<[id := mkV p (VFile (resize_bytes c k))]> v) s').
Proof.
  intros (a & Ha & E) Hx Hl Hlen. eapply runs_mono; [eapply file_resize_spec; try done; by eapply view_file_at|].
  intros [] s' H. eapply became_view; [exact H|]. by rewrite view_insert, E.
Qed.
Lemma file_read_view n s v id p c off k :
  fs_view n s v → v !! id = Some (mkV p (VFile c)) → loaded s id → Z.of_nat off < 2 ^ 62 → Z.of_nat k < 2 ^ 63 →
  runs (file_read id (Z.of_nat off) (Z.of_nat k)) s (λ r s', r = slice off k c ∧ vbecame n s v s').
Proof.
  intros (a & Ha & E) Hx Hl Ho Hk. eapply runs_mono; [eapply file_read_spec; try done; by eapply view_file_at|].
  intros r s' [-> H]. split; [done|]. by eapply became_view.
Qed.
Lemma file_size_view n s v id p c :
  fs_view n s v → v !! id = Some (mkV p (VFile c)) → loaded s id →
  runs (file_size id) s (λ r s', r = Z.of_nat (length c) ∧ vbecame n s v s').
Proof.
  intros (a & Ha & E) Hx Hl. eapply runs_mono; [eapply file_size_spec; try done; by eapply view_file_at|].
  intros r s' [-> H]. split; [done|]. by eapply became_view.
Qed.
Lemma file_flush_view n s v id p c :
  fs_view n s v → v !! id = Some (mkV p (VFile c)) → loaded s id → runs (file_flush id) s (λ _ s', vbecame n s v s').
Proof.
  intros (a & Ha & E) Hx Hl. eapply runs_mono; [eapply file_flush_spec; try done; by eapply view_file_at|].
  intros [] s' H. by eapply became_view.
Qed.
Lemma symlink_target_view n s v id p t :
  fs_view n s v → v !! id = Some (mkV p (VSymlink t)) → loaded s id → symlink_target id s = (Ok t, s).
Proof.
  intros (a & Ha & E) Hx Hl. pose proof (view_symlink_at _ _ _ _ _ E Hx) as Hy.
  by destruct (symlink_target_spec _ _ _ _ _ _ Ha Hy Hl) as (r & s' & -> & -> & ->).
Qed.
Definition v_size (c : vcontent) : Z :=
  match c with VFile c => Z.of_nat (length c) | VDir _ => DIR_LSTAT_SIZE | VSymlink t => Z.of_nat (length t) end.
Lemma lstat_size_view n s v id x : fs_view n s v → v !! id = Some x → loaded s id →
  runs (lstat_size id) s (λ r s', r = v_size (v_content x) ∧ vbecame n s v s').
Proof.
  intros (a & Ha & E) Hx Hl. destruct (view_node_at _ _ _ _ E Hx) as (y & Hy & ->).
  eapply runs_mono; [by eapply lstat_size_spec|]. intros r s' [-> H]. split; [by destruct y as [? []]|]. by eapply became_view.
Qed.

(** ** Directories *)
Section dir.
Context (n : nat) (s : fs S) (v : gmap bytes vnode) (d p : bytes) (e : gmap bytes (EntryType * bytes)).
Context (Hs : fs_view (Datatypes.S n) s v) (Hd : dir_at v d p e) (Hl : loaded s d).

Local Lemma dir_repr : ∃ a e', fs_repr (Datatypes.S n) s a ∧ view a = v ∧ a !! d = Some (mkANode p (ADir e')) ∧ e = view_entry <$> e'.
Proof using Hs Hd. destruct Hs as (a & Ha & E). destruct (view_dir_at _ _ _ _ _ E Hd) as (e' & H & ->). by exists a, e'. Qed.

Lemma GetChild_by_name_view name : ∃ r, GetChild_by_name d name s = (Ok r, s) ∧ ((λ x, (_blockId x, _type x)) <$> r) = vfind name e ∧
  (∀ x, r = Some x → wf x ∧ _name x = name).
Proof using Hs Hd Hl.
  destruct dir_repr as (a & e' & Ha & E & Hx & ->). destruct (repr_dirs _ _ _ _ _ _ Ha Hx) as (Hid & Hn & Hwf).
  eexists. split; [by eapply GetChild_by_name_eq|]. split; [by rewrite view_find|].
  intros x H. apply find_name_Some in H as (? & id & H). split; [by apply (Hwf id)|done].
Qed.
Lemma GetChild_by_id_view id : ∃ r, GetChild_by_id startpos d id s = (Ok r, s) ∧ (view_entry <$> r) = e !! id ∧
  (∀ x, r = Some x → wf x ∧ _blockId x = id).
Proof using Hs Hd Hl startpos_ok.
  destruct dir_repr as (a & e' & Ha & E & Hx & ->). destruct (repr_dirs _ _ _ _ _ _ Ha Hx) as (Hid & Hn & Hwf).
  eexists. split; [by eapply GetChild_by_id_eq|]. split; [by rewrite lookup_fmap|].
  intros x H. split; [by apply (Hwf id)|by apply Hid].
Qed.
Lemma NumChildren_view : NumChildren d s = (Ok (size e), s).
Proof using Hs Hd Hl. destruct dir_repr as (a & e' & Ha & E & Hx & ->). rewrite map_size_fmap. by eapply NumChildren_eq. Qed.
Lemma AppendChildrenTo_view r : ∃ l, l ≡ₚ (map_to_list e).*2 ∧ AppendChildrenTo d r s = (Ok (r ++ l), s).
Proof using Hs Hd Hl.
  destruct dir_repr as (a & e' & Ha & E & Hx & ->). destruct (AppendChildrenTo_eq d n s a p e' Ha Hx Hl r) as (l & [Hsl _] & <- & El).
  eexists. split; [|exact El]. rewrite map_to_list_fmap, <- list_fmap_compose.
  unfold contents. rewrite map_to_list_to_map.
  - by rewrite <- list_fmap_compose.
  - rewrite <- list_fmap_compose. by apply sorted_NoDup.
Qed.

Local Lemma retouched_view R a e' id x s' :
  view a = v → a !! d = Some (mkANode p (ADir e')) → e' !! id = Some x → retouched d R n s a p e' id x s' → vbecame n s v s'.
Proof.
  intros E Hx Hid (x' & [_ Hlike] & H). eapply became_view; [exact H|]. rewrite <- E. eapply view_same; [exact Hx|].
  unfold view_node. cbn. by rewrite (view_touch _ _ _ _ Hid Hlike).
Qed.
Local Lemma entry_repr e' id : is_Some ((view_entry <$> e' : gmap bytes (EntryType * bytes)) !! id) → ∃ x : DirEntry.t, e' !! id = Some x.
Proof. rewrite lookup_fmap, fmap_is_Some. by intros [x H]; exists x. Qed.

Lemma updateModification_view id : is_Some (e !! id) → runs (updateModificationTimestampForChild clock startpos d id) s (λ _ s', vbecame n s v s').
Proof using Hs Hd Hl startpos_ok clock_ok.
  destruct dir_repr as (a & e' & Ha & E & Hx & ->). intros [x Hid]%entry_repr.
  eapply runs_mono; [by eapply updateModification_spec|]. intros [] s' H. by eapply retouched_view.
Qed.
Lemma updateAccess_view id behavior : is_Some (e !! id) → runs (updateAccessTimestampForChild clock startpos d id behavior) s (λ _ s', vbecame n s v s').
Proof using Hs Hd Hl startpos_ok clock_ok.
  destruct dir_repr as (a & e' & Ha & E & Hx & ->). intros [x Hid]%entry_repr.
  eapply runs_mono; [by eapply updateAccess_spec|]. intros [] s' [H|H]; [by eapply retouched_view|by eapply became_view].
Qed.
Lemma utimensChild_view id at_ mt : is_Some (e !! id) → time_ok at_ → time_ok mt → runs (utimensChild clock startpos d id at_ mt) s (λ _ s', vbecame n s v s').
Proof using Hs Hd Hl startpos_ok clock_ok.
  destruct dir_repr as (a & e' & Ha & E & Hx & ->). intros [x Hid]%entry_repr Ht1 Ht2.
  eapply runs_mono; [by eapply utimensChild_spec|]. intros [] s' H. by eapply retouched_view.
Qed.
Lemma chmodChild_view id mode ty name : e !! id = Some (ty, name) → mode_ok ty mode → 0 ≤ mode < 2 ^ 32 →
  runs (chmodChild clock startpos d id mode) s (λ _ s', vbecame n s v s').
Proof using Hs Hd Hl startpos_ok clock_ok.
  destruct dir_repr as (a & e' & Ha & E & Hx & ->). rewrite lookup_fmap. intros Hid Hm Hr. apply fmap_Some in Hid as (x & Hid & [= -> ->]).
  eapply runs_mono; [by eapply chmodChild_spec|]. intros [] s' H. by eapply retouched_view.
Qed.
Lemma chownChild_view id uid gid : is_Some (e !! id) → 0 ≤ uid < 2 ^ 32 → 0 ≤ gid < 2 ^ 32 →
  runs (chownChild clock startpos d id uid gid) s (λ _ s', vbecame n s v s').
Proof using Hs Hd Hl startpos_ok clock_ok.
  destruct dir_repr as (a & e' & Ha & E & Hx & ->). intros [x Hid]%entry_repr Hu Hg.
  eapply runs_mono; [by eapply chownChild_spec|]. intros [] s' H. by eapply retouched_view.
Qed.
Lemma updateModification_missing_view id : e !! id = None → updateModificationTimestampForChild clock startpos d id s = (Throw (FuseErrno ENOENT), s).
Proof using Hs Hd Hl startpos_ok.
  destruct dir_repr as (a & e' & Ha & E & Hx & ->). rewrite lookup_fmap, fmap_None. intros Hid. by eapply updateModification_missing.
Qed.
Lemma updateAccess_missing_view id behavior : e !! id = None → updateAccessTimestampForChild clock startpos d id behavior s = (Throw (FuseErrno ENOENT), s).
Proof using Hs Hd Hl startpos_ok.
  destruct dir_repr as (a & e' & Ha & E & Hx & ->). rewrite lookup_fmap, fmap_None. intros Hid. by eapply updateAccess_missing.
Qed.

Lemma addChild_exists_view name id ty mode uid gid at_ mt : is_Some (vfind name e) →
  _addChild clock startpos d name id ty mode uid gid at_ mt s = (Throw (FuseErrno EEXIST), s).
Proof using Hs Hd Hl.
  destruct dir_repr as (a & e' & Ha & E & Hx & ->). destruct (repr_dirs _ _ _ _ _ _ Ha Hx) as (Hid & Hn & Hwf).
  rewrite view_find by done. rewrite fmap_is_Some. intros [x H]. by eapply addChild_exists.
Qed.
Lemma addChild_view name id ty mode uid gid at_ mt : e !! id = None → vfind name e = None → new_entry_ok ty name id mode uid gid at_ mt →
  runs (_addChild clock startpos d name id ty mode uid gid at_ mt) s
    (λ _ s', vbecame n s (<[d := mkV p (VDir (<[id := (ty, name)]> e))]> v) s').
Proof using Hs Hd Hl startpos_ok clock_ok.
  destruct dir_repr as (a & e' & Ha & E & Hx & ->). destruct (repr_dirs _ _ _ _ _ _ Ha Hx) as (Hid & Hn & Hwf).
  rewrite view_find by done. rewrite lookup_fmap, !fmap_None. intros Hi Hf Hnew.
  eapply runs_mono; [by eapply addChild_spec|]. intros [] s' (x & (Hty & Hna & _) & H). eapply became_view; [exact H|].
  rewrite view_insert, E. unfold view_node. cbn. rewrite fmap_insert. unfold view_entry at 1. by rewrite Hty, Hna.
Qed.
Lemma RemoveChild_by_id_view id :
  runs (RemoveChild_by_id startpos d id) s (λ _ s', vbecame n s (<[d := mkV p (VDir (delete id e))]> v) s').
Proof using Hs Hd Hl startpos_ok.
  destruct dir_repr as (a & e' & Ha & E & Hx & ->). eapply runs_mono; [by eapply RemoveChild_by_id_spec|].
  intros [] s' H. eapply became_view; [exact H|]. rewrite view_insert, E. unfold view_node. cbn. by rewrite fmap_delete.
Qed.
Lemma RemoveChild_by_name_view name id ty : vfind name e = Some (id, ty) →
  runs (RemoveChild_by_name d name) s (λ _ s', vbecame n s (<[d := mkV p (VDir (delete id e))]> v) s').
Proof using Hs Hd Hl.
  destruct dir_repr as (a & e' & Ha & E & Hx & ->). destruct (repr_dirs _ _ _ _ _ _ Ha Hx) as (Hid & Hn & Hwf).
  rewrite view_find by done. intros Hf. apply fmap_Some in Hf as (x & Hf & [= -> ->]).
  eapply runs_mono; [by eapply RemoveChild_by_name_spec|].
  intros [] s' H. eapply became_view; [exact H|]. rewrite view_insert, E. unfold view_node. cbn. by rewrite fmap_delete.
Qed.
Lemma flush_dir_view n' : (n = Datatypes.S n')%nat → runs (flush_dir uninit d) s (λ _ s', vbecame n' s v s').
Proof using Hs Hd Hl uninit_ok.
  intros Hn. destruct dir_repr as (a & e' & Ha & E & Hx & ->). eapply runs_mono; [by eapply flush_dir_spec|].
  intros [] s' H. by eapply became_view.
Qed.

(** *** Renaming, with a callback that removes the overwritten node *)
Definition removes_node (cb : bytes → M (fs S) unit) (id : bytes) : Prop :=
  ∀ a x, fs_repr (Datatypes.S n) s a → a !! id = Some x →
    runs (cb id) s (λ _ s', fs_repr (n - 1) s' (delete id a) ∧ ∀ i, i ≠ id → loaded s i → loaded s' i).

(** What is left of the objects when [id] is gone. *)
Definition vremoved n' s0 id v' (s' : fs S) : Prop := fs_view n' s' v' ∧ ∀ i, i ≠ id → loaded s0 i → loaded s' i.

(** The directory itself is as it was. *)
Local Lemma callback_runs cb a e' y x n' : (n = 3 + n')%nat →
  fs_repr (Datatypes.S n) s a → a !! d = Some (mkANode p (ADir e')) → a !! y = Some x → y ≠ d → removes_node cb y →
  runs (cb y) s (λ _ s1, (fs_repr (2 + n') s1 (delete y a) ∧ ∀ i, i ≠ y → loaded s i → loaded s1 i) ∧ at_dir d s1 e' ∧ get_entries d s1 = get_entries d s).
Proof using Hl.
  intros Hn Ha Hx Hy Hne Hcb. eapply runs_mono; [by eapply Hcb|]. intros [] s1 [Ha1 Hk].
  replace (n - 1)%nat with (2 + n')%nat in Ha1 by lia. split; [done|].
  destruct (repr_at_dir d _ _ _ _ _ Ha Hx Hl) as [(_ & [Hs0 _] & E0) _].
  destruct (repr_at_dir d (2 + n') s1 (delete y a) p e') as [Hd1 _]; [done|by rewrite lookup_delete_ne|by apply Hk|].
  split; [done|]. destruct Hd1 as (_ & [Hs1 _] & E1). apply sorted_unique; [done..|]. congruence.
Qed.

Lemma AddOrOverwriteChild_view name id ty mode uid gid at_ mt y cb n' x : (n = 3 + n')%nat →
  e !! id = None → vfind name e = Some (y, v_type (v_content x)) → v !! y = Some x → y ≠ d → new_entry_ok ty name id mode uid gid at_ mt →
  (v_type (v_content x) = DIR ↔ ty = DIR) → removes_node cb y →
  runs (AddOrOverwriteChild clock startpos d name id ty mode uid gid at_ mt cb) s
    (λ _ s', vremoved n' s y (<[d := mkV p (VDir (<[id := (ty, name)]> (delete y e)))]> (delete y v)) s').
Proof using Hs Hd Hl startpos_ok clock_ok.
  intros Hn Hi Hf Hy Hne Hnew Hty Hcb.
  destruct dir_repr as (a & e' & Ha & E & Hx & Ee). destruct (repr_dirs _ _ _ _ _ _ Ha Hx) as (Hids & Hns & Hwf).
  rewrite Ee in Hi, Hf |- *. rewrite view_find in Hf by done. rewrite lookup_fmap, fmap_None in Hi.
  apply fmap_Some in Hf as (x0 & Hf & [= Ey Ety]). destruct (view_node_at _ _ _ _ E Hy) as (x1 & Hx1 & _).
  destruct (repr_at_dir d _ _ _ _ _ Ha Hx Hl) as [Hat _].
  eapply runs_bind.
  { apply runs_on_entries; [apply Hat|]. apply (addOrOverwrite_runs clock clock_ok startpos startpos_ok d s e' name id ty mode uid gid at_ mt x0 cb
      (λ s1, fs_repr (2 + n') s1 (delete y a) ∧ ∀ i, i ≠ y → loaded s i → loaded s1 i)); try done.
    - by rewrite <- Ety.
    - rewrite <- Ey. by eapply callback_runs. }
  intros [] s2 (s1 & x' & [Ha1 Hk1] & Hx' & Hd2 & Hst). rewrite <- Ey in Hd2.
  eapply runs_mono; [eapply (commit_runs d (1 + n') s1 (delete y a) p e' s2); try done|].
  - by rewrite lookup_delete_ne.
  - by apply Hk1.
  - apply entries_wf_insert; [by apply entries_wf_delete|apply Hx'].
  - pose proof (msize_put (delete y e') id x'). pose proof (msize_delete e' y). pose proof (entry_is_size _ _ _ _ Hx' ltac:(apply Hnew)). lia.
  - intros [] s3 [Hb Hk]. split; [|intros i Hi' Hli; by apply Hk, Hk1].
    eapply (fs_view_le (1 + n')); [lia|]. eexists. split; [exact Hb|]. rewrite view_insert, view_delete, E. unfold view_node. cbn.
    rewrite fmap_insert, fmap_delete. destruct Hx' as (H1 & H2 & _). unfold view_entry at 1. by rewrite H1, H2.
Qed.

Lemma AddOrOverwriteChild_new_view name id ty mode uid gid at_ mt cb :
  e !! id = None → vfind name e = None → new_entry_ok ty name id mode uid gid at_ mt →
  runs (AddOrOverwriteChild clock startpos d name id ty mode uid gid at_ mt cb) s
    (λ _ s', vbecame n s (<[d := mkV p (VDir (<[id := (ty, name)]> e))]> v) s').
Proof using Hs Hd Hl startpos_ok clock_ok.
  intros Hi Hf Hnew. destruct dir_repr as (a & e' & Ha & E & Hx & Ee). destruct (repr_dirs _ _ _ _ _ _ Ha Hx) as (Hids & Hns & Hwf).
  pose proof (addChild_view name id ty mode uid gid at_ mt Hi Hf Hnew) as (r & s' & Er & HQ). exists r, s'. split; [|done]. rewrite <- Er.
  destruct (repr_at_dir d _ _ _ _ _ Ha Hx Hl) as [Hat _]. rewrite Ee, view_find, fmap_None in Hf by done.
  unfold AddOrOverwriteChild, _addChild. unfold mbind, M_bind. rewrite !on_entries_eq by apply Hat. unfold DirEntryList.add, DirEntryList.addOrOverwrite.
  unfold mbind, M_bind. rewrite (hasChild_eq d s e' name Hat), Hf. simpl. rewrite (by_name_eq d s e' name Hat), Hf. done.
Qed.

Lemma RenameChild_simple_view id name ty name0 cb :
  e !! id = Some (ty, name0) → (vfind name e = None ∨ vfind name e = Some (id, ty)) → x00 ∉ name → (length name ≤ 255)%nat →
  runs (RenameChild clock startpos d id name cb) s
    (λ _ s', vbecame n s (<[d := mkV p (VDir (<[id := (ty, name)]> e))]> v) s').
Proof using Hs Hd Hl startpos_ok clock_ok.
  intros Hi Hf Hz Hlen. destruct dir_repr as (a & e' & Ha & E & Hx & Ee). destruct (repr_dirs _ _ _ _ _ _ Ha Hx) as (Hids & Hns & Hwf).
  rewrite Ee in Hi, Hf |- *. rewrite view_find in Hf by done. rewrite lookup_fmap in Hi. apply fmap_Some in Hi as (x & Hi & [= -> ->]).
  destruct (repr_at_dir d _ _ _ _ _ Ha Hx Hl) as [Hat _].
  eapply runs_bind.
  { apply runs_on_entries; [apply Hat|]. apply (rename_simple_runs clock clock_ok startpos startpos_ok d s e' id name x cb); try done; [by apply (Hwf id)|].
    destruct Hf as [Hf|Hf]; [left; by apply fmap_None in Hf|right]. apply fmap_Some in Hf as (y & Hf & [= Ey _]).
    apply find_name_Some in Hf as Hf'. destruct Hf' as (_ & id' & Hf'). rewrite (Hids _ _ Hf') in Ey. subst id'. congruence. }
  intros [] s2 (x' & Hx' & Hd2 & Hst).
  eapply runs_mono; [eapply (commit_runs d n s a p e' s2); try done|].
  - apply entries_wf_insert; [done|apply Hx'].
  - pose proof (msize_put e' id x'). pose proof (entry_is_size _ _ _ _ Hx' Hlen). lia.
  - intros [] s3 H. eapply became_view; [exact H|]. rewrite view_insert, E. unfold view_node. cbn.
    rewrite fmap_insert. destruct Hx' as (H1 & H2 & _). unfold view_entry at 1. by rewrite H1, H2.
Qed.

Lemma RenameChild_over_view id name ty name0 y x0 cb n' : (n = 3 + n')%nat →
  e !! id = Some (ty, name0) → vfind name e = Some (y, v_type (v_content x0)) → v !! y = Some x0 → y ≠ id → y ≠ d → x00 ∉ name → (length name ≤ 255)%nat →
  (v_type (v_content x0) = DIR ↔ ty = DIR) → removes_node cb y →
  runs (RenameChild clock startpos d id name cb) s
    (λ _ s', vremoved n' s y (<[d := mkV p (VDir (<[id := (ty, name)]> (delete y e)))]> (delete y v)) s').
Proof using Hs Hd Hl startpos_ok clock_ok.
  intros Hn Hi Hf Hy Hyi Hne Hz Hlen Hty Hcb.
  destruct dir_repr as (a & e' & Ha & E & Hx & Ee). destruct (repr_dirs _ _ _ _ _ _ Ha Hx) as (Hids & Hns & Hwf).
  rewrite Ee in Hi, Hf |- *. rewrite view_find in Hf by done. rewrite lookup_fmap in Hi. apply fmap_Some in Hi as (x & Hi & [= -> ->]).
  apply fmap_Some in Hf as (y0 & Hf & [= Ey Ety]). destruct (view_node_at _ _ _ _ E Hy) as (x1 & Hx1 & _).
  destruct (repr_at_dir d _ _ _ _ _ Ha Hx Hl) as [Hat _].
  eapply runs_bind.
  { apply runs_on_entries; [apply Hat|]. apply (rename_over_runs clock clock_ok startpos startpos_ok d s e' id name x y0 cb
      (λ s1, fs_repr (2 + n') s1 (delete y a) ∧ ∀ i, i ≠ y → loaded s i → loaded s1 i)); try done.
    - by apply (Hwf id).
    - by rewrite <- Ey.
    - by rewrite <- Ety.
    - rewrite <- Ey. by eapply callback_runs. }
  intros [] s2 (s1 & x' & [Ha1 Hk1] & Hx' & Hd2 & Hst). rewrite <- Ey in Hd2.
  eapply runs_mono; [eapply (commit_runs d (1 + n') s1 (delete y a) p e' s2); try done|].
  - by rewrite lookup_delete_ne.
  - by apply Hk1.
  - apply entries_wf_insert; [by apply entries_wf_delete|apply Hx'].
  - pose proof (msize_put (delete y e') id x'). pose proof (msize_delete e' y). pose proof (entry_is_size _ _ _ _ Hx' Hlen). lia.
  - intros [] s3 [Hb Hk]. split; [|intros i Hi' Hli; by apply Hk, Hk1].
    eapply (fs_view_le (1 + n')); [lia|]. eexists. split; [exact Hb|]. rewrite view_insert, view_delete, E. unfold view_node. cbn.
    rewrite fmap_insert, fmap_delete. destruct Hx' as (H1 & H2 & _). unfold view_entry at 1. by rewrite H1, H2.
Qed.

(** Nothing happens when the types do not match. *)
Lemma RenameChild_refused_view id name ty name0 y ty0 cb er :
  e !! id = Some (ty, name0) → vfind name e = Some (y, ty0) → y ≠ id →
  (er = EISDIR ∧ ty0 = DIR ∧ ty ≠ DIR ∨ er = ENOTDIR ∧ ty0 ≠ DIR ∧ ty = DIR) →
  RenameChild clock startpos d id name cb s = (Throw (FuseErrno er), s).
Proof using Hs Hd Hl startpos_ok.
  intros Hi Hf Hyi Her. destruct dir_repr as (a & e' & Ha & E & Hx & Ee). destruct (repr_dirs _ _ _ _ _ _ Ha Hx) as (Hids & Hns & Hwf).
  rewrite Ee in Hi, Hf. rewrite view_find in Hf by done. rewrite lookup_fmap in Hi. apply fmap_Some in Hi as (x & Hi & [= -> ->]).
  apply fmap_Some in Hf as (y0 & Hf & [= -> ->]). destruct (repr_at_dir d _ _ _ _ _ Ha Hx Hl) as [Hat _].
  apply bind_throw. rewrite on_entries_eq by apply Hat. unfold DirEntryList.rename, DirEntryList.entries, get_state, mbind, M_bind. csimp.
  rewrite (by_name_eq d s e' name Hat), Hf, decide_True by done. unfold mbind, M_bind.
  rewrite (find_runs startpos startpos_ok d s e' id Hat), Hi. unfold DirEntryList._checkAllowedOverwrite. cbn [fst snd].
  destruct Her as [(-> & Hy0 & Hx0)|(-> & Hy0 & Hx0)].
  - rewrite decide_True by congruence. by rewrite decide_True.
  - rewrite decide_True by congruence. by rewrite decide_False, decide_True.
Qed.
End dir.
End view.
