(* ===== verification/CryFs.v ===== *)
(** * The file system device and its nodes (cryfs/impl/filesystem)

    [CryDevice] resolves paths, [CryNode] and its three subclasses are the
    nodes a path resolves to, [CryOpenFile] is an open file. A path is the
    list of its components, the root directory is the empty path. The
    callbacks of [onFsAction] act outside of the file system (they reset the
    idle timer of the client) and are left out. *)
From S2P Require Import Prelude Serialization DirEntry DirEntryList FsBlobs FsObjects.
From Stdlib Require Import Lia ZArith.

(** fspp::stat_info and fspp::statvfs. *)
Record stat_info := mkStat { st_nlink : Z; st_mode : Z; st_uid : Z; st_gid : Z; st_size : Z; st_blocks : Z;
                             st_atime : timespec; st_mtime : timespec; st_ctime : timespec }.
Record statvfs := mkStatvfs { max_filename_length : Z; blocksize : Z; num_total_blocks : Z; num_free_blocks : Z;
                              num_available_blocks : Z; num_total_inodes : Z; num_free_inodes : Z; num_available_inodes : Z }.

(** entry_helper.cpp *)
Definition dirEntryToStatInfo (e : DirEntry.t) (size : Z) : stat_info :=
  mkStat 1 (DirEntry._mode e) (DirEntry._uid e) (DirEntry._gid e) size (u64 (Z.quot (i64 (size + 512 - 1)) 512))
    (DirEntry._lastAccessTime e) (DirEntry._lastModificationTime e) (DirEntry._lastMetadataChangeTime e).

(** A node object: the references to its parent and grandparent directory
    (absent for the root directory and its children), its blob, its class. *)
Record CryNode := mkNode { _parent : option bytes; _grandparent : option bytes; _blockId : bytes; node_type : EntryType }.
#[global] Instance CryNode_eq_dec : EqDecision CryNode.
Proof. solve_decision. Defined.

Section filesystem.
Context {S : Type} `{!BlobStore S} (uninit : nat → bytes) (clock : nat → timespec) (startpos : Z → nat → nat).
Context (behavior : TimestampUpdateBehavior) (getuid getgid : Z) (_rootBlobId : bytes).

(** ** CryDevice *)
Definition CreateRootBlobAndReturnId : M (fs S) bytes :=
  rootBlob ← createDirBlob BlockId.Null ;
  flush_dir uninit rootBlob ;;
  mret rootBlob.

Definition LoadBlob (blockId : bytes) : M (fs S) FsBlobView.BlobType :=
  blob ← FsObjects.load blockId ;
  match blob with None => mthrow (FuseErrno EIO) | Some type => mret type end.

Definition RemoveBlob (blockId : bytes) : M (fs S) unit :=
  blob ← FsObjects.load blockId ;
  match blob with None => mthrow (FuseErrno EIO) | Some _ => FsObjects.remove uninit blockId end.

(** The loop of [LoadBlobWithAncestors]: [current] is the blob reached so
    far, with its dynamic type, [parent] the directory before it. *)
Fixpoint load_components (ancestor_callback : bytes → M (fs S) unit) (current : bytes * FsBlobView.BlobType) (parent : option bytes)
    (components : list bytes) : M (fs S) (option (bytes * FsBlobView.BlobType * option bytes)) :=
  match components with
  | [] => mret (Some (current, parent))
  | component :: components' =>
      ancestor_callback current.1 ;;
      if decide (current.2 = FsBlobView.TDir) then
        child ← GetChild_by_name current.1 component ;
        match child with
        | None => mret None
        | Some childEntry =>
            let childId := DirEntry._blockId childEntry in
            nextBlob ← FsObjects.load childId ;
            match nextBlob with
            | None => mthrow (FuseErrno EIO)
            | Some type =>
                p ← parentPointer childId ;
                ASSERT (bool_decide (p = current.1)) "Blob has wrong parent pointer" ;;
                load_components ancestor_callback (childId, type) (Some current.1) components'
            end
        end
      else mthrow (FuseErrno ENOTDIR)
  end.

Definition LoadBlobWithAncestors (path : list bytes) (ancestor_callback : bytes → M (fs S) unit)
    : M (fs S) (option (bytes * FsBlobView.BlobType * option bytes)) :=
  root ← FsObjects.load _rootBlobId ;
  match root with
  | None => mthrow (FuseErrno EIO)
  | Some type =>
      p ← parentPointer _rootBlobId ;
      ASSERT (bool_decide (p = BlockId.Null)) "Root Blob should have a nullptr as parent" ;;
      load_components ancestor_callback (_rootBlobId, type) None path
  end.

(** The directory and its parent. *)
Definition LoadDirBlobWithAncestors (path : list bytes) (ancestor_callback : bytes → M (fs S) unit) : M (fs S) (option (bytes * option bytes)) :=
  blob ← LoadBlobWithAncestors path ancestor_callback ;
  match blob with
  | None => mret None
  | Some (id, type, parent) =>
      if decide (type = FsBlobView.TDir) then mret (Some (id, parent)) else mthrow (FuseErrno ENOTDIR)
  end.

(** [parent_path] and [filename] of a path that is not the root. *)
Definition parent_path (path : list bytes) : list bytes := take (length path - 1) path.
Definition filename (path : list bytes) : bytes := default [] (last path).

Definition Load (path : list bytes) : M (fs S) (option CryNode) :=
  if decide (path = []) then mret (Some (mkNode None None _rootBlobId DIR))
  else
    parentWithAncestors ← LoadDirBlobWithAncestors (parent_path path) (λ _, mret tt) ;
    match parentWithAncestors with
    | None => mret None
    | Some (parent, grandparent) =>
        optEntry ← GetChild_by_name parent (filename path) ;
        match optEntry with
        | None => mret None
        | Some entry => mret (Some (mkNode (Some parent) grandparent (DirEntry._blockId entry) (DirEntry._type entry)))
        end
    end.

Definition LoadFile (path : list bytes) : M (fs S) (option CryNode) :=
  loaded ← Load path ;
  match loaded with
  | None => mret None
  | Some node => if decide (node_type node = FILE) then mret (Some node) else mthrow (FuseErrno EISDIR)
  end.
Definition LoadDir (path : list bytes) : M (fs S) (option CryNode) :=
  loaded ← Load path ;
  match loaded with
  | None => mret None
  | Some node => if decide (node_type node = DIR) then mret (Some node) else mthrow (FuseErrno ENOTDIR)
  end.
Definition LoadSymlink (path : list bytes) : M (fs S) (option CryNode) :=
  loaded ← Load path ;
  match loaded with
  | None => mret None
  | Some node => if decide (node_type node = SYMLINK) then mret (Some node) else mthrow (FuseErrno ENOTDIR)
  end.

Definition statfs : M (fs S) statvfs :=
  numUsedBlocks ← on_base blobs_numBlocks ;
  numFreeBlocks ← on_base blobs_estimateSpaceForNumBlocksLeft ;
  size ← on_base blobs_virtualBlocksizeBytes ;
  let total := u64 (numUsedBlocks + numFreeBlocks) in
  mret (mkStatvfs 255 (u32 size) total numFreeBlocks numFreeBlocks total numFreeBlocks numFreeBlocks).

(** ** CryNode *)
Definition isRootDir (n : CryNode) : bool := bool_decide (_parent n = None).
Definition parent (n : CryNode) : M (fs S) bytes :=
  match _parent n with
  | None => mthrow (AssertFailed "We are the root directory and can't get the parent of the root directory")
  | Some p => mret p
  end.

Definition CryNode_LoadBlob (n : CryNode) : M (fs S) FsBlobView.BlobType :=
  blob ← LoadBlob (_blockId n) ;
  match _parent n with
  | None => mret tt
  | Some p => q ← parentPointer (_blockId n) ; ASSERT (bool_decide (q = p)) "Blob has wrong parent pointer."
  end ;;
  mret blob.

Definition _updateParentModificationTimestamp (n : CryNode) : M (fs S) unit :=
  match _grandparent n with
  | None => mret tt
  | Some g =>
      match _parent n with
      | None => mthrow (AssertFailed "Grandparent is set, so also parent has to be set")
      | Some p => updateModificationTimestampForChild clock startpos g p
      end
  end.
Definition _updateTargetDirModificationTimestamp (targetDir : bytes) (targetDirParent : option bytes) : M (fs S) unit :=
  match targetDirParent with
  | None => mret tt
  | Some g => updateModificationTimestampForChild clock startpos g targetDir
  end.

(** The part of [rename] that moves the node to another directory. *)
Definition rename_move (n : CryNode) (par : bytes) (oldEntry : DirEntry.t) (targetParent : bytes) (targetGrandparent : option bytes)
    (name : bytes) : M (fs S) CryNode :=
  preexistingTargetEntry ← GetChild_by_name targetParent name ;
  match preexistingTargetEntry with
  | None => mret tt
  | Some pre =>
      if decide (DirEntry._type pre = DIR) then
        if decide (node_type n ≠ DIR) then mthrow (FuseErrno EISDIR)
        else
          type ← LoadBlob (DirEntry._blockId pre) ;
          if decide (type = FsBlobView.TDir) then
            count ← NumChildren (DirEntry._blockId pre) ;
            if decide (0 < count)%nat then mthrow (FuseErrno ENOTEMPTY) else mret tt
          else mthrow (FuseErrno EIO)
      else mret tt
  end ;;
  _updateParentModificationTimestamp n ;;
  _updateTargetDirModificationTimestamp targetParent targetGrandparent ;;
  AddOrOverwriteChild clock startpos targetParent name (DirEntry._blockId oldEntry) (DirEntry._type oldEntry) (DirEntry._mode oldEntry)
    (DirEntry._uid oldEntry) (DirEntry._gid oldEntry) (DirEntry._lastAccessTime oldEntry) (DirEntry._lastModificationTime oldEntry) RemoveBlob ;;
  RemoveChild_by_name par (DirEntry._name oldEntry) ;;
  _ ← CryNode_LoadBlob n ;
  setParentPointer (_blockId n) targetParent ;;
  mret (mkNode (Some targetParent) (_grandparent n) (_blockId n) (node_type n)).

(** Returns the node object after the call. *)
Definition rename (n : CryNode) (to : list bytes) : M (fs S) CryNode :=
  match _parent n with
  | None => mthrow (FuseErrno EBUSY)
  | Some par =>
      if decide (to = []) then mthrow (FuseErrno EBUSY)
      else
        target ← LoadDirBlobWithAncestors (parent_path to)
                   (λ ancestorId, if decide (ancestorId = _blockId n) then mthrow (FuseErrno EINVAL) else mret tt) ;
        match target with
        | None => mthrow (FuseErrno ENOENT)
        | Some (targetParent, targetGrandparent) =>
            if decide (targetParent = _blockId n) then mthrow (FuseErrno EINVAL)
            else
              old ← GetChild_by_id startpos par (_blockId n) ;
              match old with
              | None => mthrow (FuseErrno EIO)
              | Some oldEntry =>
                  if decide (targetParent = par) then
                    _updateParentModificationTimestamp n ;;
                    RenameChild clock startpos targetParent (DirEntry._blockId oldEntry) (filename to) RemoveBlob ;;
                    mret n
                  else rename_move n par oldEntry targetParent targetGrandparent (filename to)
              end
        end
  end.

Definition utimens (n : CryNode) (lastAccessTime lastModificationTime : timespec) : M (fs S) unit :=
  match _parent n with
  | None => mret tt
  | Some p => utimensChild clock startpos p (_blockId n) lastAccessTime lastModificationTime
  end.

Definition removeNode (n : CryNode) : M (fs S) unit :=
  match _parent n with
  | None => mthrow (FuseErrno EIO)
  | Some p => RemoveChild_by_id startpos p (_blockId n) ;; RemoveBlob (_blockId n)
  end.

Definition stat (n : CryNode) : M (fs S) stat_info :=
  match _parent n with
  | None =>
      let mode := mode_t.addUserExecFlag (mode_t.addUserWriteFlag (mode_t.addUserReadFlag (mode_t.addDirFlag 0))) in
      t ← now clock ;
      mret (mkStat 1 mode getuid getgid DIR_LSTAT_SIZE 0 t t t)
  | Some p =>
      childOpt ← GetChild_by_id startpos p (_blockId n) ;
      match childOpt with
      | None => mthrow (FuseErrno ENOENT)
      | Some e =>
          _ ← CryNode_LoadBlob n ;
          size ← lstat_size (_blockId n) ;
          mret (dirEntryToStatInfo e size)
      end
  end.

Definition chmod (n : CryNode) (mode : Z) : M (fs S) unit :=
  match _parent n with None => mret tt | Some p => chmodChild clock startpos p (_blockId n) mode end.
Definition chown (n : CryNode) (uid gid : Z) : M (fs S) unit :=
  match _parent n with None => mret tt | Some p => chownChild clock startpos p (_blockId n) uid gid end.

Definition checkParentPointer (n : CryNode) : M (fs S) bool :=
  _ ← CryNode_LoadBlob n ;
  q ← parentPointer (_blockId n) ;
  mret (bool_decide (q = default BlockId.Null (_parent n))).

(** ** CryDir *)
Definition CryDir_LoadBlob (n : CryNode) : M (fs S) unit :=
  type ← CryNode_LoadBlob n ;
  ASSERT (bool_decide (type = FsBlobView.TDir)) "Blob does not store a directory".

Definition touch_in_parent (n : CryNode) : M (fs S) unit :=
  if isRootDir n then mret tt
  else p ← parent n ; updateModificationTimestampForChild clock startpos p (_blockId n).

(** The new file, open: its parent directory and its blob. *)
Definition createAndOpenFile (n : CryNode) (name : bytes) (mode uid gid : Z) : M (fs S) (bytes * bytes) :=
  touch_in_parent n ;;
  child ← createFileBlob (_blockId n) ;
  t ← now clock ;
  CryDir_LoadBlob n ;;
  AddChildFile clock startpos (_blockId n) name child mode uid gid t t ;;
  mret (_blockId n, child).

Definition createDir (n : CryNode) (name : bytes) (mode uid gid : Z) : M (fs S) unit :=
  touch_in_parent n ;;
  CryDir_LoadBlob n ;;
  child ← createDirBlob (_blockId n) ;
  t ← now clock ;
  AddChildDir clock startpos (_blockId n) name child mode uid gid t t.

Definition createSymlink (n : CryNode) (name target : bytes) (uid gid : Z) : M (fs S) unit :=
  touch_in_parent n ;;
  CryDir_LoadBlob n ;;
  child ← createSymlinkBlob target (_blockId n) ;
  t ← now clock ;
  AddChildSymlink clock startpos (_blockId n) name child uid gid t t.

Definition dot : bytes := [x2e].
Definition dotdot : bytes := [x2e; x2e].
Definition children (n : CryNode) : M (fs S) (list (EntryType * bytes)) :=
  (if isRootDir n then mret tt
   else p ← parent n ; updateAccessTimestampForChild clock startpos p (_blockId n) behavior) ;;
  CryDir_LoadBlob n ;;
  AppendChildrenTo (_blockId n) [(DIR, dot); (DIR, dotdot)].

Definition numChildren (n : CryNode) : M (fs S) nat := CryDir_LoadBlob n ;; NumChildren (_blockId n).

(** The common start of the three [remove] methods. *)
Definition touch_parent (n : CryNode) : M (fs S) unit :=
  match _grandparent n with
  | None => mret tt
  | Some g => p ← parent n ; updateModificationTimestampForChild clock startpos g p
  end.

Definition CryDir_remove (n : CryNode) : M (fs S) unit :=
  touch_parent n ;;
  CryDir_LoadBlob n ;;
  count ← NumChildren (_blockId n) ;
  if decide (0 ≠ count)%nat then mthrow (FuseErrno ENOTEMPTY) else removeNode n.

(** ** CryFile *)
Definition CryFile_LoadBlob (n : CryNode) : M (fs S) unit :=
  type ← CryNode_LoadBlob n ;
  ASSERT (bool_decide (type = FsBlobView.TFile)) "Blob does not store a file".
Definition open (n : CryNode) : M (fs S) (bytes * bytes) :=
  CryFile_LoadBlob n ;;
  p ← parent n ;
  mret (p, _blockId n).
Definition truncate (n : CryNode) (size : Z) : M (fs S) unit :=
  CryFile_LoadBlob n ;;
  file_resize (_blockId n) size ;;
  p ← parent n ;
  updateModificationTimestampForChild clock startpos p (_blockId n).
Definition CryFile_remove (n : CryNode) : M (fs S) unit := touch_parent n ;; removeNode n.

(** ** CrySymlink *)
Definition CrySymlink_LoadBlob (n : CryNode) : M (fs S) unit :=
  type ← CryNode_LoadBlob n ;
  ASSERT (bool_decide (type = FsBlobView.TSymlink)) "Blob does not store a symlink".
Definition target (n : CryNode) : M (fs S) bytes :=
  p ← parent n ;
  updateAccessTimestampForChild clock startpos p (_blockId n) behavior ;;
  CrySymlink_LoadBlob n ;;
  symlink_target (_blockId n).
Definition CrySymlink_remove (n : CryNode) : M (fs S) unit := touch_parent n ;; removeNode n.

(** The virtual method [remove]. *)
Definition node_remove (n : CryNode) : M (fs S) unit :=
  match node_type n with DIR => CryDir_remove n | FILE => CryFile_remove n | SYMLINK => CrySymlink_remove n end.

(** ** CryOpenFile: a pair of the parent directory and the file blob *)
Definition openfile_flush (f : bytes * bytes) : M (fs S) unit := file_flush f.2 ;; flush_dir uninit f.1.
Definition openfile_stat (f : bytes * bytes) : M (fs S) stat_info :=
  childOpt ← GetChild_by_id startpos f.1 f.2 ;
  match childOpt with
  | None => mthrow (FuseErrno ENOENT)
  | Some e => size ← file_size f.2 ; mret (dirEntryToStatInfo e size)
  end.
Definition openfile_truncate (f : bytes * bytes) (size : Z) : M (fs S) unit :=
  file_resize f.2 size ;; updateModificationTimestampForChild clock startpos f.1 f.2.
Definition openfile_read (f : bytes * bytes) (count offset : Z) : M (fs S) bytes :=
  updateAccessTimestampForChild clock startpos f.1 f.2 behavior ;; file_read f.2 offset count.
Definition openfile_write (f : bytes * bytes) (buf : bytes) (offset : Z) : M (fs S) unit :=
  updateModificationTimestampForChild clock startpos f.1 f.2 ;; file_write f.2 buf offset.
Definition openfile_fsync (f : bytes * bytes) : M (fs S) unit := file_flush f.2 ;; flush_dir uninit f.1.
Definition openfile_fdatasync (f : bytes * bytes) : M (fs S) unit := file_flush f.2.
End filesystem.
