(* ===== verification/CrySpec.v ===== *)
(** * What the device and its nodes do to the tree

    Paths are resolved as [resolve] says, without changing the tree. A node
    object that a path was resolved to stands for an entry of the tree
    ([node_ok]) and holds references to the directories above it ([held]).
    For every operation of a node: the result, and the tree afterwards. *)
From S2P Require Import Prelude Serialization DirEntry DirEntryList DirSpec Directory FsBlobs FsBlobSpec FsTree FsObjects FsObjSpec FsDirSpec FsView CryFs NodeSpec BlobModel.
From Stdlib Require Import Lia ZArith.
Open Scope Z_scope.
Import DirEntry.

Section device.
Context {S : Type} `{!BlobStore S} `{!BlobStoreSpec S}.
Context (uninit : nat → bytes) (uninit_ok : ∀ n, length (uninit n) = n).
Context (clock : nat → timespec) (clock_ok : ∀ n, time_ok (clock n)).
Context (startpos : Z → nat → nat) (startpos_ok : ∀ b n, 0 ≤ b < 256 → (0 < n)%nat → (startpos b n < n)%nat).
Context (behavior : TimestampUpdateBehavior) (getuid getgid : Z) (root : bytes).
Implicit Types (s : fs S) (v : gmap bytes vnode) (d id p name : bytes) (node : CryNode).
Abbreviation tree_ok := (tree_ok root).
Abbreviation parent_edge := (parent_edge root).

Definition loaded_opt s (o : option bytes) : Prop := ∀ d, o = Some d → loaded s d.
Lemma loaded_opt_keeps s s' o : keeps s s' → loaded_opt s o → loaded_opt s' o.
Proof. intros Hk H d E. by apply Hk, H. Qed.

(** ** Paths *)
Lemma load_components_same f cb components : (∀ i s, cb i s = (f i, s)) → ∀ n s v cur par x,
  fs_view (Datatypes.S n) s v → tree_ok v → v !! cur = Some x → loaded s cur → loaded_opt s par →
  post (load_components cb (cur, blob_type (v_type (v_content x))) par components) s (λ r s',
    vsame (Datatypes.S n) s v s' ∧
    match resolve v f cur par components with
    | Ok (Some (c, q)) => ∃ x', v !! c = Some x' ∧ r = Ok (Some (c, blob_type (v_type (v_content x')), q)) ∧ loaded s' c ∧ loaded_opt s' q
    | Ok None => r = Ok None
    | Throw e => r = Throw e
    end).
Proof.
  intros Hcb. induction components as [|comp comps IH]; intros n s v cur par x Hs Ht Hx Hl Hp.
  { apply post_ret. split; [by apply vsame_refl|]. simpl. by exists x. }
  cbn [load_components resolve fst snd]. destruct (f cur) as [[]|e0] eqn:Hf.
  2: { eapply post_bind_throw; [by rewrite Hcb, Hf|]. split; [by apply vsame_refl|done]. }
  eapply post_bind_eq; [by rewrite Hcb, Hf|]. rewrite Hx. destruct x as [q [c|e|t]]; cbn [v_content v_type blob_type fmap option_fmap option_map].
  1, 3: rewrite decide_False by done; apply post_throw; split; [by apply vsame_refl|done].
  rewrite decide_True by done.
  destruct (GetChild_by_name_view n s v cur q e Hs Hx Hl comp) as (r & Er & Hv & _).
  eapply post_bind_eq; [exact Er|]. cbn [mbind result_bind]. rewrite <- Hv. destruct r as [y|]; cbn [fmap option_fmap option_map].
  2: { apply post_ret. split; [by apply vsame_refl|done]. }
  symmetry in Hv. simpl in Hv. apply vfind_Some in Hv. destruct (tree_child _ _ Ht _ _ _ _ _ Hx Hv) as (c' & Hc' & Hty).
  eapply post_bind_runs; [by eapply load_same|]. intros r s1 (-> & [[Hs1 Hk1] A1] & Hl1). cbn [v_content].
  eapply post_bind_eq; [by eapply parentPointer_view|]. cbn [v_parent].
  eapply (post_bind_eq _ _ _ tt s1); [by rewrite bool_decide_true|].
  eapply post_mono; [apply (IH n s1 v (_blockId y) (Some cur) (mkV cur c') Hs1 Ht Hc' Hl1)|].
  - intros d0 [= <-]. by apply Hk1.
  - intros r s2 [Hb H]. split; [|done]. eapply vsame_trans; [|exact Hb]. by split.
Qed.

(** The directory a path leads to, and the directory it is in. *)
Definition resolve_dir v (f : bytes → result unit) (path : list bytes) : result (option (bytes * option bytes)) :=
  r ← resolve v f root None path ;
  match r with
  | None => Ok None
  | Some (c, q) => match v_content <$> v !! c with Some (VDir _) => Ok (Some (c, q)) | _ => Throw (FuseErrno ENOTDIR) end
  end.

Lemma LoadDirBlobWithAncestors_same f cb path n s v : (∀ i s, cb i s = (f i, s)) →
  fs_view (Datatypes.S n) s v → tree_ok v →
  post (LoadDirBlobWithAncestors root path cb) s (λ r s', r = resolve_dir v f path ∧ vsame (Datatypes.S n) s v s' ∧
    ∀ c q, r = Ok (Some (c, q)) → loaded s' c ∧ loaded_opt s' q).
Proof.
  intros Hcb Hs Ht. destruct (tree_root _ _ Ht) as [e Hr]. unfold LoadDirBlobWithAncestors, LoadBlobWithAncestors.
  apply (post_bind _ _ _ (λ r s', vsame (Datatypes.S n) s v s' ∧
    match resolve v f root None path with
    | Ok (Some (c, q)) => ∃ x', v !! c = Some x' ∧ r = Ok (Some (c, blob_type (v_type (v_content x')), q)) ∧ loaded s' c ∧ loaded_opt s' q
    | Ok None => r = Ok None
    | Throw e => r = Throw e
    end)).
  - eapply post_bind_runs; [by eapply load_same|]. intros r s1 (-> & [[Hs1 Hk1] A1] & Hl1).
    eapply post_bind_eq; [by eapply parentPointer_view|]. eapply (post_bind_eq _ _ _ tt s1); [by rewrite bool_decide_true|].
    eapply post_mono; [by apply (load_components_same f cb path Hcb n s1 v root None _ Hs1 Ht Hr Hl1)|].
    intros r s2 [Hb H]. split; [|done]. eapply vsame_trans; [|exact Hb]. by split.
  - intros r s1 [Hb H]. unfold resolve_dir. destruct (resolve v f root None path) as [[[c q]|]|er] eqn:E; cbn [mbind result_bind].
    + destruct H as (x' & Hx' & [= ->] & Hc & Hq). rewrite Hx'. destruct x' as [? [|e'|]]; cbn [v_content v_type blob_type fmap option_fmap option_map].
      * rewrite decide_False by done. by apply post_throw.
      * rewrite decide_True by done. apply post_ret. split; [done|]. split; [done|]. by intros c0 q0 [= <- <-].
      * rewrite decide_False by done. by apply post_throw.
    + injection H as ->. by apply post_ret.
    + done.
  - intros er s1 [Hb H]. unfold resolve_dir. destruct (resolve v f root None path) as [[[c q]|]|er'] eqn:E; cbn [mbind result_bind].
    + by destruct H as (? & _ & ? & _).
    + done.
    + injection H as ->. done.
Qed.
Lemma LoadDirBlobWithAncestors_view f cb path n s v : (∀ i s, cb i s = (f i, s)) →
  fs_view (Datatypes.S n) s v → tree_ok v →
  post (LoadDirBlobWithAncestors root path cb) s (λ r s', r = resolve_dir v f path ∧ vbecame (Datatypes.S n) s v s' ∧
    ∀ c q, r = Ok (Some (c, q)) → loaded s' c ∧ loaded_opt s' q).
Proof. intros Hcb Hs Ht. eapply post_mono; [by apply (LoadDirBlobWithAncestors_same f)|]. by intros r s' (-> & [Hb _] & Hl). Qed.

Definition no_callback (i : bytes) : result unit := Ok tt.
Definition resolve_node v (path : list bytes) : result (option CryNode) :=
  if decide (path = []) then Ok (Some (mkNode None None root DIR))
  else
    r ← resolve_dir v no_callback (parent_path path) ;
    match r with
    | None => Ok None
    | Some (d, g) =>
        match v_content <$> v !! d with
        | Some (VDir e) => Ok ((λ q, mkNode (Some d) g q.1 q.2) <$> vfind (filename path) e)
        | _ => Ok None
        end
    end.

(** A node object stands for an entry of the tree. *)
Definition node_ok v node : Prop :=
  match _parent node with
  | None => CryFs._blockId node = root ∧ node_type node = DIR ∧ _grandparent node = None
  | Some p => (∃ pp e name, dir_at v p pp e ∧ e !! CryFs._blockId node = Some (node_type node, name)) ∧ parent_edge v p (_grandparent node)
  end.
Definition held s node : Prop := loaded_opt s (_parent node) ∧ loaded_opt s (_grandparent node).
Lemma held_keeps s s' node : keeps s s' → held s node → held s' node.
Proof. intros Hk [H1 H2]. split; by eapply loaded_opt_keeps. Qed.

Lemma resolve_dir_found v f path d g : tree_ok v → resolve_dir v f path = Ok (Some (d, g)) →
  (∃ p e, dir_at v d p e) ∧ parent_edge v d g ∧ resolve v f root None path = Ok (Some (d, g)).
Proof.
  intros Ht. unfold resolve_dir. destruct (resolve v f root None path) as [[[c q]|]|er] eqn:E; try done. cbn [mbind result_bind].
  destruct (v !! c) as [[p [|e|]]|] eqn:Hc; try done. intros [= <- <-]. split; [by exists p, e|]. split; [|done].
  destruct (tree_root _ _ Ht) as [e' Hr]. eapply (resolve_found root v f); [done|by eexists| |exact E]. done.
Qed.

Lemma resolve_node_ok v path node : tree_ok v → resolve_node v path = Ok (Some node) → node_ok v node.
Proof.
  intros Ht. unfold resolve_node. case_decide; [by intros [= <-]|].
  destruct (resolve_dir v no_callback (parent_path path)) as [[[d g]|]|] eqn:E; try done. cbn [mbind result_bind].
  destruct (resolve_dir_found _ _ _ _ _ Ht E) as ((p & e & Hd) & Hp & _). unfold dir_at in Hd. rewrite Hd. simpl.
  destruct (vfind (filename path) e) as [[id ty]|] eqn:Hf; [|done]. intros [= <-]. apply vfind_Some in Hf.
  split; [by exists p, e, (filename path)|done].
Qed.

(** The components of a path lead to the node. *)
Lemma resolve_extend v (p : list bytes) (x : bytes) : ∀ cur par d g q e c ty, resolve v no_callback cur par p = Ok (Some (d, g)) → dir_at v d q e → vfind x e = Some (c, ty) →
  resolve v no_callback cur par (p ++ [x]) = Ok (Some (c, Some d)).
Proof.
  induction p as [|y p IH]; intros cur par d g q e c ty; simpl.
  - intros [= <- <-] Hd Hf. unfold dir_at in Hd. rewrite Hd. simpl. by rewrite Hf.
  - destruct (v !! cur) as [[q' [|e'|]]|]; try done. simpl. destruct (vfind y e') as [[id ty']|]; [|done]. apply IH.
Qed.
Lemma path_split (path : list bytes) : path ≠ [] → parent_path path ++ [filename path] = path.
Proof.
  intros Hp. destruct path as [|x path _] using rev_ind; [done|]. unfold parent_path, filename.
  rewrite length_app, last_snoc. simpl. rewrite take_app_length'; [done|lia].
Qed.
Lemma resolve_node_path v path node : tree_ok v → resolve_node v path = Ok (Some node) →
  ∃ g, resolve v no_callback root None path = Ok (Some (CryFs._blockId node, g)).
Proof.
  intros Ht. unfold resolve_node. case_decide as Hp; [subst path; intros [= <-]; by eexists|].
  destruct (resolve_dir v no_callback (parent_path path)) as [[[d g]|]|] eqn:E; try done. cbn [mbind result_bind].
  destruct (resolve_dir_found _ _ _ _ _ Ht E) as ((p & e & Hd) & _ & Hr). unfold dir_at in Hd. rewrite Hd. simpl.
  destruct (vfind (filename path) e) as [[id ty]|] eqn:Hf; [|done]. intros [= <-]. simpl. eexists.
  rewrite <- (path_split path Hp) at 1. by eapply resolve_extend.
Qed.

Lemma Load_same path n s v : fs_view (Datatypes.S n) s v → tree_ok v →
  post (Load root path) s (λ r s', r = resolve_node v path ∧ vsame (Datatypes.S n) s v s' ∧ ∀ node, r = Ok (Some node) → held s' node).
Proof.
  intros Hs Ht. unfold Load, resolve_node. case_decide as Hp.
  { apply post_ret. split; [done|]. split; [by apply vsame_refl|]. by intros node [= <-]. }
  eapply post_bind; [by apply (LoadDirBlobWithAncestors_same no_callback)| |].
  - intros r s1 (E & Hb & Hl). rewrite <- E. cbn [mbind result_bind]. destruct r as [[d g]|]; [|by apply post_ret].
    symmetry in E. destruct (resolve_dir_found _ _ _ _ _ Ht E) as ((p & e & Hd) & _). destruct (Hl d g eq_refl) as [Hld Hlg].
    destruct (GetChild_by_name_view n s1 v d p e ltac:(apply Hb) Hd Hld (filename path)) as (r & Er & Hv & _).
    eapply post_bind_eq; [exact Er|]. unfold dir_at in Hd. rewrite Hd. cbn [fmap option_fmap option_map v_content]. rewrite <- Hv.
    destruct r as [y|]; apply post_ret; [|done]. split; [done|]. split; [done|]. intros node [= <-]. split; [by intros ? [= <-]|done].
  - intros er s1 (E & Hb & _). rewrite <- E. done.
Qed.
Lemma Load_view path n s v : fs_view (Datatypes.S n) s v → tree_ok v →
  post (Load root path) s (λ r s', r = resolve_node v path ∧ vbecame (Datatypes.S n) s v s' ∧ ∀ node, r = Ok (Some node) → held s' node).
Proof. intros Hs Ht. eapply post_mono; [by apply Load_same|]. by intros r s' (-> & [Hb _] & Hl). Qed.

(** ** Nodes *)
Definition node_there v node : Prop :=
  ∃ x, v !! CryFs._blockId node = Some x ∧ v_type (v_content x) = node_type node ∧ ∀ p : bytes, _parent node = Some p → v_parent x = p.
Lemma node_exists v node : tree_ok v → node_ok v node → node_there v node.
Proof.
  intros Ht. unfold node_ok, node_there. destruct (_parent node) as [p|].
  - intros [(pp & e & name & Hd & Hx) _]. destruct (tree_child _ _ Ht _ _ _ _ _ Hd Hx) as (c & Hc & Hty).
    eexists. split; [exact Hc|]. split; [done|]. by intros q [= <-].
  - intros (-> & -> & _). destruct (tree_root _ _ Ht) as [e Hr]. eexists. by split; [exact Hr|].
Qed.

Lemma CryNode_LoadBlob_same n s v node : fs_view n s v → node_there v node →
  runs (CryNode_LoadBlob node) s (λ r s', r = blob_type (node_type node) ∧ vsame n s v s' ∧ loaded s' (CryFs._blockId node)).
Proof.
  intros Hs (x & Hx & Hty & Hp). unfold CryNode_LoadBlob, LoadBlob.
  apply (runs_bind _ _ _ (λ r s', r = blob_type (node_type node) ∧ vsame n s v s' ∧ loaded s' (CryFs._blockId node))).
  { eapply runs_bind; [by eapply load_same|]. intros r s1 (-> & Hb & Hl). apply runs_ret. by rewrite Hty. }
  intros r s1 (-> & Hb & Hl). eapply (runs_bind_eq _ _ _ tt s1); [|by apply runs_ret].
  destruct (_parent node) as [p|]; [|done]. unfold mbind, M_bind. erewrite parentPointer_view; [|apply Hb|exact Hx|done].
  by rewrite (Hp p eq_refl), bool_decide_true.
Qed.
Lemma CryNode_LoadBlob_view n s v node : fs_view n s v → node_there v node →
  runs (CryNode_LoadBlob node) s (λ r s', r = blob_type (node_type node) ∧ vbecame n s v s' ∧ loaded s' (CryFs._blockId node)).
Proof. intros Hs Hn. eapply runs_mono; [by apply CryNode_LoadBlob_same|]. by intros r s' (-> & [Hb _] & Hl). Qed.

Lemma CryDir_LoadBlob_view n s v node : fs_view n s v → node_there v node → node_type node = DIR →
  runs (CryDir_LoadBlob node) s (λ _ s', vbecame n s v s' ∧ loaded s' (CryFs._blockId node)).
Proof.
  intros Hs Hn Hty. eapply runs_bind; [by apply CryNode_LoadBlob_view|]. intros r s1 (-> & H). rewrite Hty. by apply runs_assert.
Qed.
Lemma CryFile_LoadBlob_view n s v node : fs_view n s v → node_there v node → node_type node = FILE →
  runs (CryFile_LoadBlob node) s (λ _ s', vbecame n s v s' ∧ loaded s' (CryFs._blockId node)).
Proof.
  intros Hs Hn Hty. eapply runs_bind; [by apply CryNode_LoadBlob_view|]. intros r s1 (-> & H). rewrite Hty. by apply runs_assert.
Qed.
Lemma CrySymlink_LoadBlob_view n s v node : fs_view n s v → node_there v node → node_type node = SYMLINK →
  runs (CrySymlink_LoadBlob node) s (λ _ s', vbecame n s v s' ∧ loaded s' (CryFs._blockId node)).
Proof.
  intros Hs Hn Hty. eapply runs_bind; [by apply CryNode_LoadBlob_view|]. intros r s1 (-> & H). rewrite Hty. by apply runs_assert.
Qed.

(** ** Time stamps *)
Lemma now_view n s v : fs_view n s v → runs (now clock) s (λ t s', time_ok t ∧ vbecame n s v s' ∧ objects s' = objects s).
Proof using clock_ok.
  intros (a & Ha & E). eapply runs_eq; [done|]. split; [done|]. split; [|done]. split; [by exists a|]. by intros i.
Qed.

Lemma touch_edge n s v g p : fs_view (Datatypes.S n) s v → edge v g p → loaded s g →
  runs (updateModificationTimestampForChild clock startpos g p) s (λ _ s', vbecame n s v s').
Proof using startpos_ok clock_ok. intros Hs (q & e & x & Hg & Hx) Hl. by eapply updateModification_view. Qed.

Lemma touch_in_parent_view n s v node : fs_view (Datatypes.S n) s v → node_ok v node → held s node →
  runs (touch_in_parent clock startpos node) s (λ _ s', vbecame n s v s').
Proof using startpos_ok clock_ok.
  intros Hs Hn [Hp _]. unfold touch_in_parent, isRootDir, parent, node_ok in *. destruct (_parent node) as [p|].
  - rewrite bool_decide_false by done. eapply runs_bind_eq; [done|]. destruct Hn as [(pp & e & name & Hd & Hx) _].
    apply touch_edge; [done|by exists pp, e, (node_type node, name)|by apply Hp].
  - rewrite bool_decide_true by done. apply runs_ret, vbecame_refl. eapply fs_view_le; [|exact Hs]. lia.
Qed.

Lemma touch_parent_view n s v node : fs_view (Datatypes.S n) s v → node_ok v node → held s node →
  runs (touch_parent clock startpos node) s (λ _ s', vbecame n s v s').
Proof using startpos_ok clock_ok.
  intros Hs Hn [_ Hg]. unfold touch_parent, parent, node_ok in *. destruct (_grandparent node) as [g|].
  - destruct (_parent node) as [p|]; [|by destruct Hn as (_ & _ & ?)]. destruct Hn as [_ He]. eapply runs_bind_eq; [done|]. apply touch_edge; [done|done|by apply Hg].
  - apply runs_ret, vbecame_refl. eapply fs_view_le; [|exact Hs]. lia.
Qed.
Lemma updateParent_view n s v node : fs_view (Datatypes.S n) s v → node_ok v node → held s node →
  runs (_updateParentModificationTimestamp clock startpos node) s (λ _ s', vbecame n s v s').
Proof using startpos_ok clock_ok.
  intros Hs Hn Hh. pose proof (touch_parent_view n s v node Hs Hn Hh) as H. revert H.
  unfold touch_parent, parent, _updateParentModificationTimestamp. destruct (_grandparent node), (_parent node); try done. by intros (? & ? & ? & _).
Qed.
Lemma updateTarget_view n s v d g : fs_view (Datatypes.S n) s v → parent_edge v d g → loaded_opt s g →
  runs (_updateTargetDirModificationTimestamp clock startpos d g) s (λ _ s', vbecame n s v s').
Proof using startpos_ok clock_ok.
  intros Hs Hp Hl. destruct g as [g|]; simpl.
  - apply touch_edge; [done|done|by apply Hl].
  - apply runs_ret, vbecame_refl. eapply fs_view_le; [|exact Hs]. lia.
Qed.

(** ** Creating nodes *)
(** What the caller passes for a new entry. *)
Definition args_ok ty name (mode uid gid : Z) : Prop :=
  (new_mode_ok ty mode) ∧ (x00 ∉ name) ∧ (length name ≤ 255)%nat ∧ 0 ≤ uid < 2 ^ 32 ∧ 0 ≤ gid < 2 ^ 32.
(** The name is taken, or the node is created; the blob is there before the
    name is looked up. *)
Definition create_spec v d name (c : vcontent) id (r : result unit) v' : Prop :=
  v !! id = None ∧ ∃ p e, dir_at v d p e ∧
    match vfind name e with
    | Some _ => r = Throw (FuseErrno EEXIST) ∧ v' = vnew d id c v
    | None => r = Ok tt ∧ v' = vcreate d id name c v
    end.

Lemma addChild_new n s v d p e id c name mode uid gid at_ mt :
  fs_view (Datatypes.S n) s (vnew d id c v) → tree_ok v → v !! id = None → dir_at v d p e → loaded s d → BlockId.valid id →
  args_ok (v_type c) name mode uid gid → time_ok at_ → time_ok mt →
  post (_addChild clock startpos d name id (v_type c) mode uid gid at_ mt) s (λ r s', ∃ v', vbecame n s v' s' ∧ create_spec v d name c id r v').
Proof using startpos_ok clock_ok.
  intros Hs Ht Hid Hd Hl Hv (Hm & Hz & Hlen & Hu & Hg) Ha Hmt. unfold create_spec.
  assert (d ≠ id) as Hne by (intros ->; unfold dir_at in Hd; congruence).
  assert (dir_at (vnew d id c v) d p e) as Hd' by (unfold dir_at, vnew; by rewrite lookup_insert_ne).
  destruct (vfind name e) as [q|] eqn:Hf.
  - unfold post. erewrite addChild_exists_view; [|done..|by eexists]. exists (vnew d id c v). split.
    + apply vbecame_refl. eapply fs_view_le; [|exact Hs]. simpl. lia.
    + split; [done|]. exists p, e. by rewrite Hf.
  - eapply post_runs; [eapply (addChild_view clock clock_ok startpos startpos_ok n s _ d p e Hs Hd' Hl name id)|].
    + destruct (e !! id) as [x|] eqn:E; [|done]. destruct (tree_child _ _ Ht _ _ _ _ _ Hd E) as (c' & ? & _). congruence.
    + done.
    + done.
    + intros [] s' Hb. eexists. split; [exact Hb|]. split; [done|]. exists p, e. rewrite Hf. split; [done|]. split; [done|].
      unfold vcreate, vlink. by rewrite (on_dir_eq _ _ _ _ _ Hd').
Qed.

Lemma node_dir v node : tree_ok v → node_ok v node → node_type node = DIR → ∃ p e, dir_at v (CryFs._blockId node) p e.
Proof.
  intros Ht Hn Hty. destruct (node_exists _ _ Ht Hn) as ([p [|e|]] & Hx & Hty' & _); rewrite Hty in Hty'; try done. by exists p, e.
Qed.

Lemma createDir_view n s v node name mode uid gid : fs_view (12 + n) s v → tree_ok v → node_ok v node → held s node → node_type node = DIR →
  args_ok DIR name mode uid gid →
  post (createDir clock startpos node name mode uid gid) s
    (λ r s', ∃ id v', vbecame n s v' s' ∧ create_spec v (CryFs._blockId node) name (VDir ∅) id r v').
Proof using startpos_ok clock_ok.
  intros Hs Ht Hn Hh Hty Hargs. destruct (node_dir _ _ Ht Hn Hty) as (p & e & Hd).
  eapply post_bind_runs; [eapply (touch_in_parent_view (11 + n)); done|]. intros [] s1 Hb1.
  eapply post_bind_runs; [eapply CryDir_LoadBlob_view; [apply Hb1|by apply node_exists|done]|]. intros [] s2 [Hb2 Hl2].
  eapply post_bind_runs; [apply (createDirBlob_view (6 + n)); [apply Hb2|eapply view_valid; [apply Hb2|exact Hd]]|].
  intros id s3 (Hid & Hv & [Hs3 Hk3] & Hl3).
  eapply post_bind_runs; [by eapply now_view|]. intros t s4 (Htime & [Hs4 Hk4] & _).
  eapply post_mono; [eapply (addChild_new (5 + n) s4 v _ p e id (VDir ∅)); try done; by apply Hk4, Hk3|].
  intros r s5 (v' & Hb5 & Hspec). exists id, v'. split; [|done]. eapply (vbecame_le (5 + n)); [lia|].
  destruct Hb1 as [_ Hk1], Hb2 as [_ Hk2], Hb5 as [Hs5 Hk5]. split; [done|]. eauto using keeps_trans.
Qed.

Lemma createAndOpenFile_view n s v node name mode uid gid : fs_view (12 + n) s v → tree_ok v → node_ok v node → held s node → node_type node = DIR →
  args_ok FILE name mode uid gid →
  post (createAndOpenFile clock startpos node name mode uid gid) s
    (λ r s', ∃ id v', vbecame n s v' s' ∧ create_spec v (CryFs._blockId node) name (VFile []) id (_ ← r ; Ok tt) v' ∧
      (∀ f, r = Ok f → f = (CryFs._blockId node, id) ∧ loaded s' (CryFs._blockId node) ∧ loaded s' id)).
Proof using startpos_ok clock_ok.
  intros Hs Ht Hn Hh Hty Hargs. destruct (node_dir _ _ Ht Hn Hty) as (p & e & Hd).
  eapply post_bind_runs; [eapply (touch_in_parent_view (11 + n)); done|]. intros [] s1 Hb1.
  eapply post_bind_runs; [apply (createFileBlob_view (6 + n)); [apply Hb1|eapply view_valid; [apply Hb1|exact Hd]]|].
  intros id s3 (Hid & Hv & [Hs3 Hk3] & Hl3).
  eapply post_bind_runs; [by eapply now_view|]. intros t s4 (Htime & [Hs4 Hk4] & _).
  assert (CryFs._blockId node ≠ id) as Hne by (intros E; unfold dir_at in Hd; congruence).
  eapply post_bind_runs; [eapply CryDir_LoadBlob_view; [exact Hs4| |done]|].
  { destruct (node_exists _ _ Ht Hn) as (x & Hx & Hx'). exists x. split; [by rewrite lookup_insert_ne|done]. }
  intros [] s5 [[Hs5 Hk5] Hl5].
  apply (post_bind _ _ _ (λ r s', ∃ v', vbecame (5 + n) s5 v' s' ∧ create_spec v (CryFs._blockId node) name (VFile []) id r v')).
  - eapply (addChild_new (5 + n) s5 v _ p e id (VFile [])); done.
  - intros [] s6 (v' & [Hs6 Hk6] & Hspec). apply post_ret. exists id, v'. destruct Hb1 as [_ Hk1]. split; [|split; [done|]].
    + eapply (vbecame_le (5 + n)); [lia|]. split; [done|]. eauto 7 using keeps_trans.
    + intros f [= <-]. split; [done|]. split; [by apply Hk6|by apply Hk6, Hk5, Hk4].
  - intros er s6 (v' & [Hs6 Hk6] & Hspec). exists id, v'. destruct Hb1 as [_ Hk1]. split; [|by split].
    eapply (vbecame_le (5 + n)); [lia|]. split; [done|]. eauto 7 using keeps_trans.
Qed.

Lemma createSymlink_view n s v node name target uid gid : fs_view (12 + n) s v → tree_ok v → node_ok v node → held s node → node_type node = DIR →
  args_ok SYMLINK name symlink_mode uid gid → x00 ∉ target → 19 + Z.of_nat (length target) ≤ max_blob →
  post (createSymlink clock startpos node name target uid gid) s
    (λ r s', ∃ id v', vbecame n s v' s' ∧ create_spec v (CryFs._blockId node) name (VSymlink target) id r v').
Proof using startpos_ok clock_ok.
  intros Hs Ht Hn Hh Hty Hargs Htz Htl. destruct (node_dir _ _ Ht Hn Hty) as (p & e & Hd).
  eapply post_bind_runs; [eapply (touch_in_parent_view (11 + n)); done|]. intros [] s1 Hb1.
  eapply post_bind_runs; [eapply CryDir_LoadBlob_view; [apply Hb1|by apply node_exists|done]|]. intros [] s2 [Hb2 Hl2].
  eapply post_bind_runs; [apply (createSymlinkBlob_view (4 + n)); [apply Hb2|eapply view_valid; [apply Hb2|exact Hd]|done..]|].
  intros id s3 (Hid & Hv & [Hs3 Hk3] & Hl3).
  eapply post_bind_runs; [by eapply now_view|]. intros t s4 (Htime & [Hs4 Hk4] & _).
  eapply post_mono; [eapply (addChild_new (3 + n) s4 v _ p e id (VSymlink target)); try done; by apply Hk4, Hk3|].
  intros r s5 (v' & Hb5 & Hspec). exists id, v'. split; [|done]. eapply (vbecame_le (3 + n)); [lia|].
  destruct Hb1 as [_ Hk1], Hb2 as [_ Hk2], Hb5 as [Hs5 Hk5]. split; [done|]. eauto using keeps_trans.
Qed.

(** ** Removing nodes *)
(** The tree [v'], and the objects that are still in it were kept. *)
Definition vdone n s v' (s' : fs S) : Prop := fs_view n s' v' ∧ ∀ i, is_Some (v' !! i) → loaded s i → loaded s' i.
Lemma vbecame_done n s v' s' : vbecame n s v' s' → vdone n s v' s'.
Proof. intros [H K]. split; [done|]. intros i _. apply K. Qed.
Lemma vremoved_done n s id v' s' : vremoved n s id v' s' → v' !! id = None → vdone n s v' s'.
Proof. intros [H K] E. split; [done|]. intros i [x Hi] Hl. apply K; [|done]. intros ->. congruence. Qed.

Lemma RemoveBlob_repr n s a id x : fs_repr (2 + n) s a → a !! id = Some x →
  runs (RemoveBlob uninit id) s (λ _ s', fs_repr n s' (delete id a) ∧ ∀ i, i ≠ id → loaded s i → loaded s' i).
Proof using uninit_ok.
  intros Ha Hx. eapply runs_bind; [by eapply load_spec|]. intros r s1 (-> & Ha1 & Hl1 & Hk1).
  eapply runs_mono; [by eapply remove_spec|]. intros [] s2 [Ha2 Hk2]. split; [done|]. intros i Hi Hli. apply Hk2; [done|by apply Hk1].
Qed.
Lemma RemoveBlob_removes n s id : removes_node (Datatypes.S n) s (RemoveBlob uninit) id.
Proof using uninit_ok. intros a x Ha Hx. replace (Datatypes.S n - 1)%nat with n by lia. by eapply RemoveBlob_repr. Qed.

Lemma verase_eq v d p e id : dir_at v d p e → d ≠ id → verase d id v = delete id (<[d := mkV p (VDir (delete id e))]> v).
Proof.
  intros Hd Hne. unfold verase, vunlink. rewrite (on_dir_eq _ _ _ p e) by (unfold dir_at; by rewrite lookup_delete_ne).
  by rewrite delete_insert_ne.
Qed.
Lemma verase_gone v d p e id : dir_at v d p e → d ≠ id → verase d id v !! id = None.
Proof. intros Hd Hne. rewrite (verase_eq _ _ _ _ _ Hd Hne). apply lookup_delete_eq. Qed.

Lemma removeNode_view n s v node p : fs_view (3 + n) s v → tree_ok v → node_ok v node → held s node → _parent node = Some p →
  runs (removeNode uninit startpos node) s (λ _ s', vdone n s (verase p (CryFs._blockId node) v) s').
Proof using uninit_ok startpos_ok.
  intros Hs Ht Hn [Hh _] Hp. unfold removeNode. rewrite Hp. pose proof Hn as Hn'. unfold node_ok in Hn'. rewrite Hp in Hn'.
  destruct Hn' as [(pp & e & name & Hd & Hx) _]. set (id := CryFs._blockId node) in *.
  pose proof (child_not_dir _ _ _ _ _ _ _ Ht (view_dirs_ok _ _ _ Hs) Hd Hx) as Hne.
  eapply runs_bind; [eapply (RemoveChild_by_id_view startpos startpos_ok (2 + n)); [done..|by apply Hh]|]. intros [] s1 [(a & Ha & E) Hk1].
  destruct (node_exists _ _ Ht Hn) as (x & Hxv & _). fold id in Hxv.
  destruct (view_node_at _ a id x E) as (y & Hy & _); [by rewrite lookup_insert_ne|].
  eapply runs_mono; [by eapply RemoveBlob_repr|]. intros [] s2 [Ha2 Hk2].
  eapply vremoved_done; [|by eapply verase_gone]. split.
  - eexists. split; [exact Ha2|]. rewrite view_delete, E. by rewrite (verase_eq _ _ _ _ _ Hd Hne).
  - intros i Hi Hl. apply Hk2; [done|by apply Hk1].
Qed.

Definition has_children v id : bool := match v_content <$> v !! id with Some (VDir e) => bool_decide (e ≠ ∅) | _ => false end.
Definition remove_spec v node (r : result unit) v' : Prop :=
  if has_children v (CryFs._blockId node) then r = Throw (FuseErrno ENOTEMPTY) ∧ v' = v
  else match _parent node with
       | None => r = Throw (FuseErrno EIO) ∧ v' = v
       | Some p => r = Ok tt ∧ v' = verase p (CryFs._blockId node) v
       end.

Lemma post_removeNode n s v node : fs_view (3 + n) s v → tree_ok v → node_ok v node → held s node → has_children v (CryFs._blockId node) = false →
  post (removeNode uninit startpos node) s (λ r s', ∃ v', vdone n s v' s' ∧ remove_spec v node r v').
Proof using uninit_ok startpos_ok.
  intros Hs Ht Hn Hh Hc. unfold remove_spec. rewrite Hc. destruct (_parent node) as [p|] eqn:Hp.
  - eapply post_runs; [by eapply removeNode_view|]. intros [] s' H. by eexists.
  - unfold removeNode. rewrite Hp. apply post_throw. exists v. split; [|done]. apply vbecame_done, vbecame_refl. eapply fs_view_le; [|exact Hs]. lia.
Qed.

Lemma node_remove_view n s v node : fs_view (12 + n) s v → tree_ok v → node_ok v node → held s node →
  post (node_remove uninit clock startpos node) s (λ r s', ∃ v', vdone n s v' s' ∧ remove_spec v node r v').
Proof using uninit_ok startpos_ok clock_ok.
  intros Hs Ht Hn Hh. destruct (node_exists _ _ Ht Hn) as (x & Hx & Hty & _).
  assert (∀ s1, vbecame (11 + n) s v s1 → has_children v (CryFs._blockId node) = false →
    post (removeNode uninit startpos node) s1 (λ r s', ∃ v', vdone n s v' s' ∧ remove_spec v node r v')) as Hrm.
  { intros s1 [Hs1 Hk1] Hc. eapply post_mono; [eapply (post_removeNode (8 + n)); try done; by eapply held_keeps|].
    intros r s2 (v' & [Hs2 Hk2] & H). exists v'. split; [|done]. split; [eapply fs_view_le; [|exact Hs2]; lia|].
    intros i Hi Hl. apply Hk2; [done|by apply Hk1]. }
  unfold node_remove. destruct (node_type node) eqn:Ety.
  - eapply post_bind_runs; [eapply (touch_parent_view (11 + n)); done|]. intros [] s1 Hb1.
    eapply post_bind_runs; [eapply CryDir_LoadBlob_view; [apply Hb1|by apply node_exists|done]|]. intros [] s2 [Hb2 Hl2].
    destruct x as [q [|e|]]; try done. pose proof (vbecame_trans _ _ _ _ _ _ _ Hb1 Hb2) as Hb.
    eapply post_bind_eq; [eapply NumChildren_view; [apply Hb2|exact Hx|done]|].
    case_decide as Hsz.
    + apply post_throw. exists v. split; [eapply vbecame_done, (vbecame_le (11 + n)); [lia|done]|]. unfold remove_spec, has_children. rewrite Hx. simpl.
      rewrite bool_decide_true; [done|]. intros ->. by rewrite map_size_empty in Hsz.
    + apply Hrm; [done|]. unfold has_children. rewrite Hx. simpl. apply bool_decide_eq_false. intros Hne. apply Hne, map_size_empty_inv. lia.
  - eapply post_bind_runs; [eapply (touch_parent_view (11 + n)); done|]. intros [] s1 Hb1.
    apply Hrm; [done|]. unfold has_children. rewrite Hx. by destruct x as [q []].
  - eapply post_bind_runs; [eapply (touch_parent_view (11 + n)); done|]. intros [] s1 Hb1.
    apply Hrm; [done|]. unfold has_children. rewrite Hx. by destruct x as [q []].
Qed.

(** ** Attributes and content *)
Lemma node_entry v node p : node_ok v node → _parent node = Some p →
  ∃ pp e name, dir_at v p pp e ∧ e !! CryFs._blockId node = Some (node_type node, name).
Proof. unfold node_ok. intros Hn Hp. rewrite Hp in Hn. by destruct Hn as [? _]. Qed.

Lemma stat_view n s v node : fs_view (Datatypes.S n) s v → tree_ok v → node_ok v node → held s node →
  runs (stat clock startpos getuid getgid node) s (λ r s', vbecame (Datatypes.S n) s v s' ∧
    ∃ x, v !! CryFs._blockId node = Some x ∧ st_size r = v_size (v_content x)).
Proof using startpos_ok clock_ok.
  intros Hs Ht Hn [Hh _]. destruct (node_exists _ _ Ht Hn) as (x & Hx & Hty & _). unfold stat. destruct (_parent node) as [p|] eqn:Hp.
  - destruct (node_entry _ _ _ Hn Hp) as (pp & e & name & Hd & He).
    destruct (GetChild_by_id_view startpos startpos_ok n s v p pp e Hs Hd (Hh p eq_refl) (CryFs._blockId node)) as (r & Er & Hr & _).
    eapply runs_bind_eq; [exact Er|]. rewrite He in Hr. apply fmap_Some in Hr as (y & -> & _).
    eapply runs_bind; [by eapply CryNode_LoadBlob_view; [|apply node_exists]|]. intros r s1 (_ & Hb1 & Hl1).
    eapply runs_bind; [eapply lstat_size_view; [apply Hb1|exact Hx|done]|]. intros r1 s2 (-> & Hb2). apply runs_ret.
    split; [by eapply vbecame_trans|]. by exists x.
  - eapply runs_bind; [by eapply now_view|]. intros t s1 (_ & Hb & _). apply runs_ret. split; [done|]. exists x. split; [done|]. simpl.
    unfold node_ok in Hn. rewrite Hp in Hn. destruct Hn as (_ & Hdir & _). rewrite Hdir in Hty. by destruct x as [? []].
Qed.

(** An operation on the entry of the node that the root directory ignores. *)
Lemma on_entry_view n s v node (m : bytes → M (fs S) unit) : fs_view (Datatypes.S n) s v → node_ok v node → held s node →
  (∀ p pp e name, dir_at v p pp e → e !! CryFs._blockId node = Some (node_type node, name) → loaded s p → runs (m p) s (λ _ s', vbecame n s v s')) →
  runs (match _parent node with None => mret tt | Some p => m p end) s (λ _ s', vbecame n s v s').
Proof.
  intros Hs Hn [Hh _] Hm. destruct (_parent node) as [p|] eqn:Hp.
  - destruct (node_entry _ _ _ Hn Hp) as (pp & e & name & Hd & He). by eapply Hm, Hh.
  - apply runs_ret, vbecame_refl. eapply fs_view_le; [|exact Hs]. lia.
Qed.
Lemma chmod_view n s v node mode : fs_view (Datatypes.S n) s v → node_ok v node → held s node → mode_ok (node_type node) mode → 0 ≤ mode < 2 ^ 32 →
  runs (chmod clock startpos node mode) s (λ _ s', vbecame n s v s').
Proof using startpos_ok clock_ok.
  intros Hs Hn Hh Hm Hr. apply (on_entry_view _ _ _ _ (λ p, chmodChild clock startpos p (CryFs._blockId node) mode) Hs Hn Hh).
  intros p pp e name Hd He Hl. by eapply chmodChild_view.
Qed.
Lemma chown_view n s v node uid gid : fs_view (Datatypes.S n) s v → node_ok v node → held s node → 0 ≤ uid < 2 ^ 32 → 0 ≤ gid < 2 ^ 32 →
  runs (chown clock startpos node uid gid) s (λ _ s', vbecame n s v s').
Proof using startpos_ok clock_ok.
  intros Hs Hn Hh Hu Hg. apply (on_entry_view _ _ _ _ (λ p, chownChild clock startpos p (CryFs._blockId node) uid gid) Hs Hn Hh).
  intros p pp e name Hd He Hl. by eapply chownChild_view.
Qed.
Lemma utimens_view n s v node at_ mt : fs_view (Datatypes.S n) s v → node_ok v node → held s node → time_ok at_ → time_ok mt →
  runs (utimens clock startpos node at_ mt) s (λ _ s', vbecame n s v s').
Proof using startpos_ok clock_ok.
  intros Hs Hn Hh Hu Hg. apply (on_entry_view _ _ _ _ (λ p, utimensChild clock startpos p (CryFs._blockId node) at_ mt) Hs Hn Hh).
  intros p pp e name Hd He Hl. by eapply utimensChild_view.
Qed.

Lemma children_view n s v node q e : fs_view (Datatypes.S (Datatypes.S n)) s v → tree_ok v → node_ok v node → held s node → node_type node = DIR →
  dir_at v (CryFs._blockId node) q e →
  runs (children clock startpos behavior node) s (λ r s', vbecame (Datatypes.S n) s v s' ∧ ∃ l, l ≡ₚ (map_to_list e).*2 ∧ r = (DIR, dot) :: (DIR, dotdot) :: l).
Proof using startpos_ok clock_ok.
  intros Hs Ht Hn [Hh _] Hty Hd. unfold children.
  apply (runs_bind _ _ _ (λ _ s1, vbecame (Datatypes.S n) s v s1)).
  { unfold isRootDir, parent. destruct (_parent node) as [p|] eqn:Hp.
    - rewrite bool_decide_false by done. eapply runs_bind_eq; [done|]. destruct (node_entry _ _ _ Hn Hp) as (pp & e' & name & Hd' & He).
      eapply updateAccess_view; [done..|exact Hs|exact Hd'|by apply Hh|by eexists].
    - rewrite bool_decide_true by done. apply runs_ret, vbecame_refl. eapply fs_view_le; [|exact Hs]. lia. }
  intros [] s1 Hb1. eapply runs_bind; [eapply CryDir_LoadBlob_view; [apply Hb1|by apply node_exists|done]|]. intros [] s2 [Hb2 Hl2].
  destruct (AppendChildrenTo_view n s2 v _ q e ltac:(apply Hb2) Hd Hl2 [(DIR, dot); (DIR, dotdot)]) as (l & Hl & E).
  eapply runs_eq; [exact E|]. split; [by eapply vbecame_trans|]. by exists l.
Qed.

Lemma not_root v node : node_ok v node → node_type node ≠ DIR → ∃ p, _parent node = Some p.
Proof. unfold node_ok. destruct (_parent node) as [p|]; [by exists p|]. by intros (_ & -> & _). Qed.

Lemma open_view n s v node : fs_view n s v → tree_ok v → node_ok v node → held s node → node_type node = FILE →
  runs (CryFs.open node) s (λ r s', vbecame n s v s' ∧ Some r.1 = _parent node ∧ r.2 = CryFs._blockId node ∧ loaded s' r.1 ∧ loaded s' r.2).
Proof.
  intros Hs Ht Hn [Hh _] Hty. destruct (not_root _ _ Hn) as [p Hp]; [congruence|].
  eapply runs_bind; [eapply CryFile_LoadBlob_view; [apply Hs|by apply node_exists|done]|]. intros [] s1 [Hb1 Hl1].
  unfold parent. rewrite Hp. eapply runs_bind_eq; [done|]. apply runs_ret. split; [done|]. split; [done|]. split; [done|]. split; [|done]. by apply Hb1, Hh.
Qed.

Lemma truncate_view n s v node p c k : fs_view (Datatypes.S (Datatypes.S n)) s v → tree_ok v → node_ok v node → held s node →
  v !! CryFs._blockId node = Some (mkV p (VFile c)) → 19 + Z.of_nat k ≤ max_blob →
  runs (truncate clock startpos node (Z.of_nat k)) s (λ _ s', vbecame n s (<[CryFs._blockId node := mkV p (VFile (resize_bytes c k))]> v) s').
Proof using startpos_ok clock_ok.
  intros Hs Ht Hn [Hh _] Hx Hk. destruct (node_exists _ _ Ht Hn) as (x & Hx' & Hty & Hpar). rewrite Hx in Hx'. injection Hx' as <-.
  destruct (not_root _ _ Hn) as [p' Hp]; [by rewrite <- Hty|]. rewrite <- (Hpar _ Hp) in Hp. simpl in Hp.
  eapply runs_bind; [eapply CryFile_LoadBlob_view; [apply Hs|by apply node_exists|done]|]. intros [] s1 [Hb1 Hl1].
  eapply runs_bind; [eapply file_resize_view; [apply Hb1|exact Hx|done..]|]. intros [] s2 Hb2.
  unfold parent. rewrite Hp. eapply runs_bind_eq; [done|]. destruct (node_entry _ _ _ Hn Hp) as (pp & e & name & Hd & He).
  assert (CryFs._blockId node ≠ p) as Hne by (intros E; unfold dir_at in Hd; congruence).
  eapply runs_mono; [eapply updateModification_view; [done..|apply Hb2|unfold dir_at; rewrite lookup_insert_ne; done|by apply Hb2, Hb1, Hh|by eexists]|].
  intros [] s3 Hb3. by eapply vbecame_trans, vbecame_trans.
Qed.

Lemma target_view n s v node p t : fs_view (Datatypes.S n) s v → tree_ok v → node_ok v node → held s node →
  v !! CryFs._blockId node = Some (mkV p (VSymlink t)) →
  runs (target clock startpos behavior node) s (λ r s', r = t ∧ vbecame n s v s').
Proof using startpos_ok clock_ok.
  intros Hs Ht Hn [Hh _] Hx. destruct (node_exists _ _ Ht Hn) as (x & Hx' & Hty & Hpar). rewrite Hx in Hx'. injection Hx' as <-.
  destruct (not_root _ _ Hn) as [p' Hp]; [by rewrite <- Hty|]. unfold target, parent. rewrite Hp. eapply runs_bind_eq; [done|].
  destruct (node_entry _ _ _ Hn Hp) as (pp & e & name & Hd & He).
  eapply runs_bind; [eapply updateAccess_view; [done..|exact Hs|exact Hd|by apply Hh|by eexists]|]. intros [] s1 Hb1.
  eapply runs_bind; [eapply CrySymlink_LoadBlob_view; [apply Hb1|by apply node_exists|done]|]. intros [] s2 [Hb2 Hl2].
  eapply runs_eq; [by eapply symlink_target_view; [apply Hb2|..]|]. split; [done|]. by eapply vbecame_trans.
Qed.

(** ** Open files

    The file and the directory it was opened in are there; the directory
    still has the entry of the file, unless the file was moved since. *)
Definition open_ok v (f : bytes * bytes) : Prop := (∃ pp e, dir_at v f.1 pp e) ∧ ∃ q c, v !! f.2 = Some (mkV q (VFile c)).
Definition open_held s (f : bytes * bytes) : Prop := loaded s f.1 ∧ loaded s f.2.
(** The directory that the open file knows has its entry. *)
Definition in_place v (f : bytes * bytes) : bool := match v_content <$> v !! f.1 with Some (VDir e) => bool_decide (is_Some (e !! f.2)) | _ => false end.

Lemma openfile_touch n s v f : fs_view (Datatypes.S n) s v → open_ok v f → open_held s f →
  post (updateModificationTimestampForChild clock startpos f.1 f.2) s (λ r s', vbecame n s v s' ∧ r = if in_place v f then Ok tt else Throw (FuseErrno ENOENT)).
Proof using startpos_ok clock_ok.
  intros Hs [(pp & e & Hd) _] [Hl _]. unfold in_place. unfold dir_at in Hd. rewrite Hd. simpl. case_bool_decide as He.
  - eapply post_runs; [by eapply updateModification_view|]. by intros [] s' H.
  - unfold post. erewrite updateModification_missing_view; [|done..|by apply eq_None_not_Some]. split; [|done].
    apply vbecame_refl. eapply fs_view_le; [|exact Hs]. lia.
Qed.

Lemma openfile_read_view n s v f q c k off : fs_view (Datatypes.S n) s v → open_ok v f → open_held s f → v !! f.2 = Some (mkV q (VFile c)) →
  Z.of_nat off < 2 ^ 62 → Z.of_nat k < 2 ^ 63 →
  post (openfile_read clock startpos behavior f (Z.of_nat k) (Z.of_nat off)) s
    (λ r s', vbecame n s v s' ∧ r = if in_place v f then Ok (slice off k c) else Throw (FuseErrno ENOENT)).
Proof using startpos_ok clock_ok.
  intros Hs [(pp & e & Hd) _] [Hl Hl2] Hx Ho Hk. unfold in_place. unfold dir_at in Hd. rewrite Hd. simpl. case_bool_decide as He.
  - eapply post_bind_runs; [by eapply updateAccess_view|]. intros [] s1 [Hs1 Hk1].
    eapply post_runs; [eapply file_read_view; [exact Hs1|exact Hx|by apply Hk1|done..]|]. intros r s2 [-> Hb2]. split; [|done]. by eapply vbecame_trans.
  - eapply post_bind_throw; [eapply updateAccess_missing_view; [done..|by apply eq_None_not_Some]|]. split; [|done].
    apply vbecame_refl. eapply fs_view_le; [|exact Hs]. lia.
Qed.

Definition vwrite id (c : bytes) v : gmap bytes vnode := alter (λ x, mkV (v_parent x) (VFile c)) id v.
Lemma vwrite_eq v id q c c' : v !! id = Some (mkV q c) → vwrite id c' v = <[id := mkV q (VFile c')]> v.
Proof.
  intros Hd. unfold vwrite. apply map_eq. intros i. destruct (decide (id = i)) as [<-|].
  - by rewrite lookup_alter_eq, lookup_insert_eq, Hd.
  - by rewrite lookup_alter_ne, lookup_insert_ne.
Qed.

Lemma openfile_write_view n s v f q c src off : fs_view (Datatypes.S (Datatypes.S n)) s v → open_ok v f → open_held s f → v !! f.2 = Some (mkV q (VFile c)) →
  19 + Z.of_nat (off + length src) ≤ max_blob →
  post (openfile_write clock startpos f src (Z.of_nat off)) s
    (λ r s', ∃ v', vbecame n s v' s' ∧ if in_place v f then r = Ok tt ∧ v' = vwrite f.2 (write_bytes c off src) v else r = Throw (FuseErrno ENOENT) ∧ v' = v).
Proof using startpos_ok clock_ok.
  intros Hs Ho Hh Hx Hlen. eapply post_bind; [by apply openfile_touch| |].
  - intros [] s1 [[Hs1 Hk1] Hr]. destruct (in_place v f); [|done].
    eapply post_runs; [eapply file_write_view; [exact Hs1|exact Hx|by apply Hk1, Hh|done]|]. intros [] s2 Hb2. eexists. split; [|done].
    rewrite (vwrite_eq _ _ _ _ _ Hx). eapply vbecame_trans; [|exact Hb2]. by split.
  - intros er s1 [Hb Hr]. exists v. split; [eapply vbecame_le; [|exact Hb]; lia|]. destruct (in_place v f); [done|]. by injection Hr as ->.
Qed.

(** The file is resized before the time stamp fails. *)
Lemma openfile_truncate_view n s v f q c k : fs_view (Datatypes.S (Datatypes.S n)) s v → open_ok v f → open_held s f → v !! f.2 = Some (mkV q (VFile c)) →
  19 + Z.of_nat k ≤ max_blob →
  post (openfile_truncate clock startpos f (Z.of_nat k)) s
    (λ r s', vbecame n s (vwrite f.2 (resize_bytes c k) v) s' ∧ r = if in_place v f then Ok tt else Throw (FuseErrno ENOENT)).
Proof using startpos_ok clock_ok.
  intros Hs Ho Hh Hx Hlen. rewrite (vwrite_eq _ _ _ _ _ Hx).
  eapply post_bind_runs; [eapply file_resize_view; [exact Hs|exact Hx|apply Hh|done]|]. intros [] s1 [Hs1 Hk1].
  pose proof Ho as [(pp & e & Hd) _]. assert (f.2 ≠ f.1) as Hne by (intros E; unfold dir_at in Hd; rewrite E in Hx; congruence).
  set (v1 := <[f.2 := _]> v) in *. assert (v1 !! f.1 = v !! f.1) as E1 by (unfold v1; by rewrite lookup_insert_ne).
  assert (in_place v f = in_place v1 f) as -> by (unfold in_place; by rewrite E1).
  eapply post_mono; [apply (openfile_touch n s1 v1)|].
  - done.
  - split; [exists pp, e; unfold dir_at; by rewrite E1|]. exists q, (resize_bytes c k). apply lookup_insert_eq.
  - destruct Hh. by split; apply Hk1.
  - intros r s2 [Hb2 Hr]. split; [|done]. eapply vbecame_trans; [|exact Hb2]. by split.
Qed.

Lemma openfile_stat_view n s v f q c : fs_view (Datatypes.S n) s v → open_ok v f → open_held s f → v !! f.2 = Some (mkV q (VFile c)) →
  post (openfile_stat startpos f) s (λ r s', vbecame (Datatypes.S n) s v s' ∧
    if in_place v f then ∃ st, r = Ok st ∧ st_size st = Z.of_nat (length c) else r = Throw (FuseErrno ENOENT)).
Proof using startpos_ok.
  intros Hs [(pp & e & Hd) _] [Hl Hl2] Hx. unfold openfile_stat.
  destruct (GetChild_by_id_view startpos startpos_ok n s v f.1 pp e Hs Hd Hl f.2) as (r & Er & Hr & _). eapply post_bind_eq; [exact Er|].
  unfold in_place. unfold dir_at in Hd. rewrite Hd. simpl. destruct r as [y|]; simpl in Hr; rewrite <- Hr.
  - eapply post_bind_runs; [by eapply file_size_view|]. intros r s1 [-> Hb1]. apply post_ret. split; [done|].
    rewrite bool_decide_true by by eexists. by eexists.
  - apply post_throw. split; [by apply vbecame_refl|]. by rewrite bool_decide_false by by intros [].
Qed.

Lemma openfile_flush_view n s v f : fs_view (Datatypes.S (Datatypes.S n)) s v → open_ok v f → open_held s f →
  runs (openfile_flush uninit f) s (λ _ s', vbecame n s v s').
Proof using uninit_ok.
  intros Hs [(pp & e & Hd) (q & c & Hx)] [Hl Hl2]. eapply runs_bind; [by eapply file_flush_view|]. intros [] s1 [Hs1 Hk1].
  eapply runs_mono; [eapply flush_dir_view; [done|exact Hs1|exact Hd|by apply Hk1|done]|]. intros [] s2 Hb2. eapply vbecame_trans; [|exact Hb2]. by split.
Qed.
Lemma openfile_fdatasync_view n s v f : fs_view n s v → open_ok v f → open_held s f →
  runs (openfile_fdatasync f) s (λ _ s', vbecame n s v s').
Proof. intros Hs [_ (q & c & Hx)] [_ Hl2]. by eapply file_flush_view. Qed.
End device.
