(* ===== verification/RenameSpec.v ===== *)
(** * Renaming and moving nodes

    [rename_spec] is what a rename means on the tree, with the errors POSIX
    asks for. [CryNode::rename] does it, except in two cases ([rename_fine]):
    within one directory it replaces a directory that has entries, and
    between directories it removes a file that a directory cannot replace
    before it says so. *)
From S2P Require Import Prelude Serialization DirEntry DirEntryList DirSpec Directory FsBlobs FsBlobSpec FsTree FsObjects FsObjSpec FsDirSpec FsView CryFs CrySpec NodeSpec BlobModel.
From Stdlib Require Import Lia ZArith.
Open Scope Z_scope.
Import DirEntry.

Section rename.
Context {S : Type} `{!BlobStore S} `{!BlobStoreSpec S}.
Context (uninit : nat → bytes) (uninit_ok : ∀ n, length (uninit n) = n).
Context (clock : nat → timespec) (clock_ok : ∀ n, time_ok (clock n)).
Context (startpos : Z → nat → nat) (startpos_ok : ∀ b n, 0 ≤ b < 256 → (0 < n)%nat → (startpos b n < n)%nat).
Context (root : bytes).
Implicit Types (s : fs S) (v : gmap bytes vnode) (d id p tp name : bytes) (node : CryNode).
Abbreviation tree_ok := (tree_ok root).
Abbreviation node_ok := (node_ok root).

(** A node cannot be moved below itself. *)
Definition not_below id (i : bytes) : result unit := if decide (i = id) then Throw (FuseErrno EINVAL) else Ok tt.
Definition entries_of v d : gmap bytes (EntryType * bytes) := match v_content <$> v !! d with Some (VDir e) => e | _ => ∅ end.
Lemma entries_of_eq v d p e : dir_at v d p e → entries_of v d = e.
Proof. unfold entries_of, dir_at. by intros ->. Qed.

(** What is at the new place already: nothing, the node itself, or another
    node that is replaced or stands in the way. *)
Definition rename_into v node (par tp name : bytes) (r : result unit) v' : Prop :=
  let id := CryFs._blockId node in
  match vfind name (entries_of v tp) with
  | None => r = Ok tt ∧ v' = vmove par tp id (node_type node, name) v
  | Some (y, ty) =>
      if decide (y = id) then r = Ok tt ∧ v' = v
      else if decide (ty = DIR ∧ node_type node ≠ DIR) then r = Throw (FuseErrno EISDIR) ∧ v' = v
      else if decide (ty ≠ DIR ∧ node_type node = DIR) then r = Throw (FuseErrno ENOTDIR) ∧ v' = v
      else if has_children v y then r = Throw (FuseErrno ENOTEMPTY) ∧ v' = v
      else r = Ok tt ∧ v' = vmove par tp id (node_type node, name) (verase tp y v)
  end.
Definition rename_spec v node (to : list bytes) (r : result unit) v' : Prop :=
  match _parent node with
  | None => r = Throw (FuseErrno EBUSY) ∧ v' = v
  | Some par =>
      if decide (to = []) then r = Throw (FuseErrno EBUSY) ∧ v' = v
      else match resolve_dir root v (not_below (CryFs._blockId node)) (parent_path to) with
           | Throw e => r = Throw e ∧ v' = v
           | Ok None => r = Throw (FuseErrno ENOENT) ∧ v' = v
           | Ok (Some (tp, _)) =>
               if decide (tp = CryFs._blockId node) then r = Throw (FuseErrno EINVAL) ∧ v' = v
               else rename_into v node par tp (filename to) r v'
           end
  end.

Definition into_fine v node (par tp name : bytes) : Prop :=
  match vfind name (entries_of v tp) with
  | None => True
  | Some (y, ty) => (par = tp → y ≠ CryFs._blockId node → node_type node = DIR → has_children v y = false) ∧
                    (par ≠ tp → node_type node = DIR → ty = DIR)
  end.
Definition rename_fine v node (to : list bytes) : Prop :=
  match _parent node, resolve_dir root v (not_below (CryFs._blockId node)) (parent_path to) with
  | Some par, Ok (Some (tp, _)) => into_fine v node par tp (filename to)
  | _, _ => True
  end.

Lemma vfind_unique v d p e id ty name : dirs_ok v → dir_at v d p e → e !! id = Some (ty, name) → vfind name e = Some (id, ty).
Proof.
  intros [_ Hk] Hd Hx. destruct (vfind name e) as [[id' ty']|] eqn:E.
  - apply vfind_Some in E. assert (id = id') as -> by by eapply Hk. rewrite E in Hx. by injection Hx as ->.
  - exfalso. by apply (vfind_None _ _ id ty E).
Qed.

Lemma moved_entry_ok x name : wf x → x00 ∉ name → (length name ≤ 255)%nat →
  new_entry_ok (_type x) name (_blockId x) (_mode x) (_uid x) (_gid x) (_lastAccessTime x) (_lastModificationTime x).
Proof.
  intros (Hm & Hr & Hu & Hg & Ha & Hmt & _ & _ & Hv) Hz Hl. unfold new_entry_ok, new_mode_ok.
  assert (flagged (_type x) (_mode x) = _mode x) as -> by (unfold mode_ok in Hm; destruct (_type x); by apply lor_type_flag).
  tauto.
Qed.

(** The end of a move: the old entry goes, the node points to its new
    directory. *)
Lemma rename_finish n s v1 node par tp pp ep name0 x :
  fs_view (2 + n) s v1 → dirs_ok v1 → dir_at v1 par pp ep → ep !! CryFs._blockId node = Some (node_type node, name0) → par ≠ CryFs._blockId node →
  node_there v1 node → is_Some (v1 !! tp) → loaded s par → _name x = name0 →
  runs (RemoveChild_by_name par (_name x) ;; _ ← CryNode_LoadBlob node ; setParentPointer (CryFs._blockId node) tp ;;
        mret (mkNode (Some tp) (_grandparent node) (CryFs._blockId node) (node_type node))) s
    (λ _ s', vbecame n s (vset_parent (CryFs._blockId node) tp (vunlink par (CryFs._blockId node) v1)) s').
Proof.
  intros Hs Hk Hpar Hx Hne (y & Hy & Hy') [z Hz] Hl Hname. set (id := CryFs._blockId node) in *.
  eapply runs_bind; [eapply (RemoveChild_by_name_view (1 + n)); [exact Hs|exact Hpar|done|rewrite Hname; by eapply vfind_unique]|].
  intros [] s1 [Hs1 Hk1]. unfold vunlink. rewrite (on_dir_eq _ _ _ _ _ Hpar). set (v2 := <[par := _]> v1) in *.
  assert (v2 !! id = Some y) as Hy2 by (unfold v2; by rewrite lookup_insert_ne).
  eapply runs_bind; [eapply CryNode_LoadBlob_view; [exact Hs1|by exists y]|]. intros r s2 (_ & [Hs2 Hk2] & Hl2).
  eapply runs_bind; [eapply setParentPointer_view; [exact Hs2|exact Hy2|done|by eapply view_valid; [exact Hs|exact Hz]]|].
  intros [] s3 Hb3. apply runs_ret. destruct y as [q c]. rewrite (vset_parent_eq _ _ _ _ _ Hy2).
  destruct Hb3 as [Hs3 Hk3]. split; [done|]. eauto using keeps_trans.
Qed.

(** The situation of a rename after the directories are found. *)
Record rename_at v node par tp pp ep pt et name0 : Prop := {
  ra_tree : tree_ok v;
  ra_dirs : dirs_ok v;
  ra_node : node_ok v node;
  ra_parent : _parent node = Some par;
  ra_par : dir_at v par pp ep;
  ra_entry : ep !! CryFs._blockId node = Some (node_type node, name0);
  ra_tp : dir_at v tp pt et;
  ra_ne : tp ≠ CryFs._blockId node }.

(** The node at the new place, another one than the renamed node. *)
Lemma replaced_facts v node par tp pp ep pt et name0 name y ty :
  rename_at v node par tp pp ep pt et name0 → vfind name et = Some (y, ty) → y ≠ CryFs._blockId node →
  ∃ c, v !! y = Some (mkV tp c) ∧ v_type c = ty ∧ y ≠ tp ∧ (has_children v y = false → y ≠ par ∧ childless c).
Proof.
  intros [Ht Hk Hn Hp Hpar Hx Htp Hne] Hf Hy. apply vfind_Some in Hf.
  destruct (tree_child _ _ Ht _ _ _ _ _ Htp Hf) as (c & Hc & Hty). exists c. split; [done|]. split; [done|].
  split; [intros ->; by apply (child_not_dir root v tp pt et tp (ty, name))|]. unfold has_children. rewrite Hc. simpl. intros Hch. split.
  - intros ->. unfold dir_at in Hpar. rewrite Hc in Hpar. injection Hpar as -> ->. apply bool_decide_eq_false in Hch. apply Hch.
    intros E. rewrite E in Hx. by rewrite lookup_empty in Hx.
  - destruct c as [|e|]; [done| |done]. simpl. apply bool_decide_eq_false in Hch. apply dec_stable in Hch. done.
Qed.

Lemma id_not_in_target v node par tp pp ep pt et name0 :
  rename_at v node par tp pp ep pt et name0 → par ≠ tp → et !! CryFs._blockId node = None.
Proof.
  intros [Ht Hk Hn Hp Hpar Hx Htp Hne] Hpt. apply eq_None_not_Some. intros [y Hy]. apply Hpt.
  eapply (parent_unique root v par tp); [done|by exists pp, ep, (node_type node, name0)|by exists pt, et, y].
Qed.

Section move.
Context (v : gmap bytes vnode) (node : CryNode) (par tp pp pt name0 name : bytes) (ep et : gmap bytes (EntryType * bytes)).
Context (Hra : rename_at v node par tp pp ep pt et name0) (Hname : x00 ∉ name) (Hlen : (length name ≤ 255)%nat).
Local Abbreviation id := (CryFs._blockId node).
Context (x : DirEntry.t) (Hwf : wf x) (Hview : view_entry x = (node_type node, name0)) (Hid : DirEntry._blockId x = id).
Context (tg : option bytes) (Htg : parent_edge root v tp tg).

(** Adding the entry, when the time stamps are updated. *)
Definition move_rest : M (fs S) CryNode :=
  _updateParentModificationTimestamp clock startpos node ;;
  _updateTargetDirModificationTimestamp clock startpos tp tg ;;
  AddOrOverwriteChild clock startpos tp name (DirEntry._blockId x) (_type x) (_mode x) (_uid x) (_gid x) (_lastAccessTime x) (_lastModificationTime x) (RemoveBlob uninit) ;;
  RemoveChild_by_name par (_name x) ;;
  _ ← CryNode_LoadBlob node ;
  setParentPointer id tp ;;
  mret (mkNode (Some tp) (_grandparent node) id (node_type node)).

Lemma move_new n s : fs_view (10 + n) s v → held s node → loaded s tp → loaded_opt s tg → par ≠ tp → vfind name et = None →
  runs move_rest s (λ _ s', vbecame n s (vmove par tp id (node_type node, name) v) s').
Proof using Hra Hname Hlen Hwf Hview Hid Htg startpos_ok clock_ok.
  intros Hs Hh Hl Hlg Hne Hf. pose proof Hra as [Ht Hk Hn Hp Hpar Hx Htp Htn]. unfold view_entry in Hview. injection Hview as Ety Enm.
  eapply runs_bind; [eapply (updateParent_view clock clock_ok startpos startpos_ok root (9 + n)); done|]. intros [] s1 [Hs1 Hk1].
  eapply runs_bind; [eapply (updateTarget_view clock clock_ok startpos startpos_ok root (8 + n)); [done..|by eapply loaded_opt_keeps]|]. intros [] s2 [Hs2 Hk2].
  rewrite Hid. pose proof (moved_entry_ok x name Hwf Hname Hlen) as Hnew. rewrite Hid in Hnew.
  eapply runs_bind; [eapply (AddOrOverwriteChild_new_view clock clock_ok startpos startpos_ok (7 + n)); [exact Hs2|exact Htp|by apply Hk2, Hk1|by eapply id_not_in_target|done|done]|].
  intros [] s3 [Hs3 Hk3]. rewrite Ety in *. pose proof (child_not_dir _ _ _ _ _ _ _ Ht Hk Hpar Hx) as Hpid.
  destruct (node_exists _ _ _ Ht Hn) as (z & Hz & Hz').
  eapply runs_mono.
  - eapply (rename_finish (5 + n) s3 _ node par tp pp ep name0 x Hs3); [by eapply view_dirs_ok|unfold dir_at; by rewrite lookup_insert_ne|done|done|..].
    + exists z. split; [by rewrite lookup_insert_ne|done].
    + rewrite lookup_insert_eq. by eexists.
    + apply Hk3, Hk2, Hk1. by apply (proj1 Hh).
    + done.
  - intros _ s4 [Hs4 Hk4]. split; [|eauto using keeps_trans]. eapply fs_view_le; [|]; last first.
    + unfold vmove. rewrite decide_False by done. unfold vlink at 1. rewrite (on_dir_eq _ _ _ _ _ Htp). exact Hs4.
    + lia.
Qed.

Lemma move_over n s y c : fs_view (10 + n) s v → held s node → loaded s tp → loaded_opt s tg → par ≠ tp → vfind name et = Some (y, v_type c) →
  v !! y = Some (mkV tp c) → y ≠ id → y ≠ tp → y ≠ par → (v_type c = DIR ↔ node_type node = DIR) →
  runs move_rest s (λ _ s', vdone n s (vmove par tp id (node_type node, name) (verase tp y v)) s').
Proof using Hra Hname Hlen Hwf Hview Hid Htg startpos_ok clock_ok uninit_ok.
  intros Hs Hh Hl Hlg Hne Hf Hy Hyi Hyt Hyp Hty. pose proof Hra as [Ht Hk Hn Hp Hpar Hx Htp Htn]. unfold view_entry in Hview. injection Hview as Ety Enm.
  eapply runs_bind; [eapply (updateParent_view clock clock_ok startpos startpos_ok root (9 + n)); done|]. intros [] s1 [Hs1 Hk1].
  eapply runs_bind; [eapply (updateTarget_view clock clock_ok startpos startpos_ok root (8 + n)); [done..|by eapply loaded_opt_keeps]|]. intros [] s2 [Hs2 Hk2].
  rewrite Hid. pose proof (moved_entry_ok x name Hwf Hname Hlen) as Hnew. rewrite Hid in Hnew.
  eapply runs_bind; [eapply (AddOrOverwriteChild_view clock clock_ok startpos startpos_ok (7 + n) s2 v tp pt et Hs2 Htp ltac:(by apply Hk2, Hk1)
    name id _ _ _ _ _ _ y (RemoveBlob uninit) (4 + n) (mkV tp c)); [lia|by eapply id_not_in_target|done|done|done|exact Hnew|by rewrite Ety|by apply RemoveBlob_removes]|].
  intros [] s3 [Hs3 Hk3]. rewrite Ety in *. pose proof (child_not_dir _ _ _ _ _ _ _ Ht Hk Hpar Hx) as Hpid.
  destruct (node_exists _ _ _ Ht Hn) as (z & Hz & Hz').
  assert (dir_at (delete y v) tp pt et) as Htp' by (unfold dir_at; by rewrite lookup_delete_ne).
  eapply runs_mono.
  - eapply (rename_finish (2 + n) s3 _ node par tp pp ep name0 x Hs3); [by eapply view_dirs_ok|unfold dir_at; by rewrite lookup_insert_ne, lookup_delete_ne|done|done|..].
    + exists z. split; [by rewrite lookup_insert_ne, lookup_delete_ne|done].
    + rewrite lookup_insert_eq. by eexists.
    + apply Hk3; [done|]. apply Hk2, Hk1. by apply (proj1 Hh).
    + done.
  - intros _ s4 [Hs4 Hk4]. unfold vmove. rewrite decide_False by done. unfold verase, vunlink at 2. rewrite (on_dir_eq _ _ _ _ _ Htp').
    unfold vlink. erewrite on_dir_eq; [|unfold dir_at; by rewrite lookup_insert_eq]. rewrite insert_insert_eq.
    eapply vremoved_done.
    + split; [eapply fs_view_le; [|exact Hs4]; lia|]. intros i Hi Hli. apply Hk4, Hk3; [done|]. by apply Hk2, Hk1.
    + unfold vset_parent, vunlink, on_dir. rewrite !lookup_alter_ne, lookup_insert_ne, lookup_delete_eq by done. done.
Qed.

Lemma move_rest_view n s : fs_view (10 + n) s v → held s node → loaded s tp → loaded_opt s tg → par ≠ tp →
  match vfind name et with
  | None => True
  | Some (y, ty) => has_children v y = false ∧ (ty = DIR ↔ node_type node = DIR)
  end →
  post move_rest s (λ r s', ∃ v', vdone n s v' s' ∧ rename_into v node par tp name (_ ← r ; Ok tt) v').
Proof using Hra Hname Hlen Hwf Hview Hid Htg startpos_ok clock_ok uninit_ok.
  intros Hs Hh Hl Hlg Hne Hpre. unfold rename_into. rewrite (entries_of_eq _ _ _ _ (ra_tp _ _ _ _ _ _ _ _ _ Hra)).
  destruct (vfind name et) as [[y ty]|] eqn:Hf.
  - destruct Hpre as [Hc Hty]. assert (y ≠ id) as Hy.
    { intros ->. apply vfind_Some in Hf. by rewrite (id_not_in_target _ _ _ _ _ _ _ _ _ Hra Hne) in Hf. }
    destruct (replaced_facts _ _ _ _ _ _ _ _ _ _ _ _ Hra Hf Hy) as (c & Hyc & <- & Hyt & Hyp). destruct (Hyp Hc) as [Hyp' _].
    eapply post_runs; [by eapply move_over|]. intros r s' Hd. eexists. split; [exact Hd|].
    rewrite decide_False by done. rewrite (decide_False (P := _ ∧ _)) by tauto. rewrite decide_False by tauto. by rewrite Hc.
  - eapply post_runs; [by eapply move_new|]. intros r s' Hb. eexists. split; [apply vbecame_done, Hb|]. done.
Qed.

(** The checks before anything is changed. *)
Definition move_check (pre : option DirEntry.t) : M (fs S) unit :=
  match pre with
  | None => mret tt
  | Some pre =>
      if decide (_type pre = DIR) then
        if decide (node_type node ≠ DIR) then mthrow (FuseErrno EISDIR)
        else
          type ← LoadBlob (DirEntry._blockId pre) ;
          if decide (type = FsBlobView.TDir) then
            count ← NumChildren (DirEntry._blockId pre) ;
            if decide (0 < count)%nat then mthrow (FuseErrno ENOTEMPTY) else mret tt
          else mthrow (FuseErrno EIO)
      else mret tt
  end.

Lemma move_check_view n s pre : fs_view (Datatypes.S n) s v → par ≠ tp → into_fine v node par tp name →
  ((λ y, (DirEntry._blockId y, _type y)) <$> pre) = vfind name et →
  post (move_check pre) s (λ r s', vbecame (Datatypes.S n) s v s' ∧
    match r with
    | Ok _ => match vfind name et with None => True | Some (y, ty) => has_children v y = false ∧ (ty = DIR ↔ node_type node = DIR) end
    | Throw e => rename_into v node par tp name (Throw e) v
    end).
Proof using Hra Hlen.
  intros Hs Hne Hfine Hpre. unfold into_fine, rename_into in *. rewrite (entries_of_eq _ _ _ _ (ra_tp _ _ _ _ _ _ _ _ _ Hra)) in *.
  pose proof (vbecame_refl _ _ _ Hs) as Hb. rewrite <- Hpre in Hfine |- *. destruct pre as [pre|]; simpl in Hpre, Hfine |- *; [|by apply post_ret].
  symmetry in Hpre. assert (DirEntry._blockId pre ≠ id) as Hy.
  { intros E. apply vfind_Some in Hpre. by rewrite E, (id_not_in_target _ _ _ _ _ _ _ _ _ Hra Hne) in Hpre. }
  destruct (replaced_facts _ _ _ _ _ _ _ _ _ _ _ _ Hra Hpre Hy) as (c & Hyc & Hty & Hyt & Hyp).
  destruct (decide (_type pre = DIR)) as [Hd|Hd].
  - rewrite Hd in Hty. destruct c as [|e|]; try done. destruct (decide (node_type node ≠ DIR)) as [Hnd|Hnd].
    + apply post_throw. split; [done|]. by rewrite decide_False, decide_True.
    + apply dec_stable in Hnd. unfold LoadBlob.
      apply (post_bind_runs _ _ _ (λ r s', r = FsBlobView.TDir ∧ vbecame (Datatypes.S n) s v s' ∧ loaded s' (DirEntry._blockId pre))).
      { eapply runs_bind; [by eapply load_view|]. intros r s1 (-> & Hb1 & Hl1). by apply runs_ret. }
      intros r s1 (-> & Hb1 & Hl1). rewrite decide_True by done.
      eapply post_bind_eq; [eapply (NumChildren_view n); [apply Hb1|exact Hyc|done]|].
      assert (has_children v (DirEntry._blockId pre) = bool_decide (0 < size e)%nat) as Hc.
      { unfold has_children. rewrite Hyc. simpl. apply bool_decide_ext. rewrite <- map_size_empty_iff. lia. }
      case_decide as Hsz.
      * apply post_throw. split; [done|]. rewrite decide_False by done. rewrite (decide_False (P := _ ∧ _)) by tauto. rewrite decide_False by tauto. by rewrite Hc, bool_decide_true.
      * apply post_ret. split; [done|]. rewrite Hc, bool_decide_false by done. by rewrite Hd, Hnd.
  - apply post_ret. split; [done|]. destruct Hfine as [_ Hfine]. split; [|split; [done|by intros E; apply Hfine]].
    unfold has_children. rewrite Hyc. simpl. destruct c; [done| |done]. by simpl in Hty.
Qed.

Lemma rename_move_view n s : fs_view (10 + n) s v → held s node → loaded s tp → loaded_opt s tg → par ≠ tp → into_fine v node par tp name →
  post (rename_move uninit clock startpos node par x tp tg name) s (λ r s', ∃ v', vdone n s v' s' ∧ rename_into v node par tp name (_ ← r ; Ok tt) v').
Proof using Hra Hname Hlen Hwf Hview Hid Htg startpos_ok clock_ok uninit_ok.
  intros Hs Hh Hl Hlg Hne Hfine. pose proof Hra as [Ht Hk Hn Hp Hpar Hx Htp Htn].
  destruct (GetChild_by_name_view (9 + n) s v tp pt et Hs Htp Hl name) as (r & Er & Hr & _). eapply post_bind_eq; [exact Er|].
  eapply post_bind; [by apply (move_check_view (9 + n) s r)| |].
  - intros [] s1 [[Hs1 Hk1] Hpre]. eapply post_mono; [apply (move_rest_view n s1); try done; [by eapply held_keeps|by apply Hk1|by eapply loaded_opt_keeps]|].
    intros r' s2 (v' & [Hs2 Hk2] & H). exists v'. split; [|done]. split; [done|]. intros i Hi Hli. apply Hk2; [done|by apply Hk1].
  - intros er s1 [Hb H]. exists v. split; [|done]. eapply vbecame_done, (vbecame_le (10 + n)); [lia|done].
Qed.
End move.

(** Within one directory. *)
Lemma rename_same_view n s v node par pp ep name0 name : rename_at v node par par pp ep pp ep name0 →
  fs_view (10 + n) s v → held s node → x00 ∉ name → (length name ≤ 255)%nat → into_fine v node par par name →
  post (_updateParentModificationTimestamp clock startpos node ;;
        RenameChild clock startpos par (CryFs._blockId node) name (RemoveBlob uninit) ;; mret node) s
    (λ r s', ∃ v', vdone n s v' s' ∧ rename_into v node par par name (_ ← r ; Ok tt) v').
Proof using startpos_ok clock_ok uninit_ok.
  intros Hra Hs Hh Hz Hlen Hfine. pose proof Hra as [Ht Hk Hn Hp Hpar Hx _ Hne]. set (id := CryFs._blockId node) in *.
  eapply post_bind_runs; [eapply (updateParent_view clock clock_ok startpos startpos_ok root (9 + n)); done|]. intros [] s1 [Hs1 Hk1].
  assert (loaded s1 par) as Hl by (by apply Hk1, (proj1 Hh)).
  unfold into_fine, rename_into in *. rewrite (entries_of_eq _ _ _ _ Hpar) in *. fold id in Hfine |- *.
  assert (∀ w s2, vbecame (8 + n) s1 w s2 → vdone n s w s2) as Hdone.
  { intros w s2 [Hs2 Hk2]. apply vbecame_done. split; [eapply fs_view_le; [|exact Hs2]; lia|by eapply keeps_trans]. }
  destruct (vfind name ep) as [[y ty]|] eqn:Hf.
  2: { eapply post_bind_runs; [eapply (RenameChild_simple_view clock clock_ok startpos startpos_ok (8 + n)); [exact Hs1|exact Hpar|done|exact Hx|by left|done|done]|].
    intros [] s2 Hb2. apply post_ret. eexists. split; [by apply Hdone|]. split; [done|]. unfold vmove. rewrite decide_True by done.
    unfold vlink. by rewrite (on_dir_eq _ _ _ _ _ Hpar). }
  destruct (decide (y = id)) as [->|Hy].
  { pose proof (vfind_Some _ _ _ _ Hf) as Hf'. rewrite Hx in Hf'. injection Hf' as <- ->.
    eapply post_bind_runs; [eapply (RenameChild_simple_view clock clock_ok startpos startpos_ok (8 + n)); [exact Hs1|exact Hpar|done|exact Hx|by right|done|done]|].
    intros [] s2 Hb2. apply post_ret. exists v. split; [|done]. apply Hdone. rewrite (insert_id ep) in Hb2 by done. by rewrite insert_id in Hb2. }
  destruct (replaced_facts _ _ _ _ _ _ _ _ _ _ _ _ Hra Hf Hy) as (c & Hyc & Hty & Hyt & Hyp).
  assert (vdone n s v s1) as Hnop by (apply Hdone, vbecame_refl; eapply fs_view_le; [|exact Hs1]; lia).
  destruct (decide (ty = DIR ∧ node_type node ≠ DIR)) as [[H1 H2]|HA].
  { eapply post_bind_throw; [eapply (RenameChild_refused_view clock startpos startpos_ok (8 + n)); [exact Hs1|exact Hpar|done|exact Hx|exact Hf|done|by left]|].
    by exists v. }
  destruct (decide (ty ≠ DIR ∧ node_type node = DIR)) as [[H1 H2]|HB].
  { eapply post_bind_throw; [eapply (RenameChild_refused_view clock startpos startpos_ok (8 + n)); [exact Hs1|exact Hpar|done|exact Hx|exact Hf|done|by right]|].
    by exists v. }
  assert (has_children v y = false) as Hc.
  { destruct (decide (node_type node = DIR)) as [Hd|Hd]; [by apply Hfine|]. unfold has_children. rewrite Hyc. simpl.
    destruct c; [done| |done]. exfalso. simpl in Hty. subst ty. by apply HA. }
  destruct (Hyp Hc) as [_ Hcl]. rewrite Hc.
  assert (ty = DIR ↔ node_type node = DIR) as Hiff by (destruct (decide (ty = DIR)), (decide (node_type node = DIR)); tauto).
  eapply post_bind_runs; [eapply (RenameChild_over_view clock clock_ok startpos startpos_ok (8 + n) s1 v par pp ep Hs1 Hpar Hl id name (node_type node) name0 y (mkV par c) (RemoveBlob uninit) (5 + n));
    [lia|done|by rewrite <- Hty in Hf|done|done|done|done|done|by rewrite <- Hty in Hiff|by apply RemoveBlob_removes]|].
  intros [] s2 [Hs2 Hk2]. apply post_ret. eexists. split; [|done].
  assert (dir_at (delete y v) par pp ep) as Hpar' by (unfold dir_at; by rewrite lookup_delete_ne).
  unfold vmove. rewrite decide_True by done. unfold verase, vunlink. rewrite (on_dir_eq _ _ _ _ _ Hpar').
  unfold vlink. erewrite on_dir_eq; [|unfold dir_at; by rewrite lookup_insert_eq]. rewrite insert_insert_eq.
  eapply vremoved_done.
  - split; [eapply fs_view_le; [|exact Hs2]; lia|]. intros i Hi Hli. apply Hk2; [done|by apply Hk1].
  - by rewrite lookup_insert_ne, lookup_delete_eq.
Qed.

Lemma rename_view n s v node to : fs_view (12 + n) s v → tree_ok v → node_ok v node → held s node →
  x00 ∉ filename to → (length (filename to) ≤ 255)%nat → rename_fine v node to →
  post (rename uninit clock startpos root node to) s (λ r s', ∃ v', vdone n s v' s' ∧ rename_spec v node to (_ ← r ; Ok tt) v').
Proof using startpos_ok clock_ok uninit_ok.
  intros Hs Ht Hn Hh Hz Hlen Hfine. pose proof (view_dirs_ok _ _ _ Hs) as Hk. unfold rename, rename_spec, rename_fine in *.
  assert (∀ s1, vbecame (12 + n) s v s1 → vdone n s v s1) as Hnop by (intros s1 Hb; eapply vbecame_done, (vbecame_le (12 + n)); [lia|done]).
  destruct (_parent node) as [par|] eqn:Hp; [|apply post_throw; exists v; split; [by apply Hnop, vbecame_refl|done]].
  case_decide as Hto; [apply post_throw; exists v; split; [by apply Hnop, vbecame_refl|done]|].
  set (id := CryFs._blockId node) in *.
  eapply post_bind; [apply (LoadDirBlobWithAncestors_view root (not_below id) _ (parent_path to) (11 + n) s v); [|done|done]| |].
  { intros i s0. unfold not_below. by case_decide. }
  2: { intros er s1 (<- & Hb & _). exists v. split; [by apply Hnop|done]. }
  intros target s1 (E & Hb & Hl). rewrite <- E in *. destruct target as [[tp tg]|]; [|apply post_throw; exists v; split; [by apply Hnop|done]].
  destruct (Hl _ _ eq_refl) as [Hltp Hltg]. symmetry in E. destruct (resolve_dir_found _ _ _ _ _ _ Ht E) as ((pt & et & Htp) & Hedge & _).
  destruct (decide (tp = id)) as [Htid|Htid]; [apply post_throw; exists v; split; [by apply Hnop|done]|].
  destruct (node_entry _ _ _ _ Hn Hp) as (pp & ep & name0 & Hpar & Hx). fold id in Hx.
  assert (held s1 node) as Hh1 by (eapply held_keeps; [apply Hb|done]).
  destruct (GetChild_by_id_view startpos startpos_ok (11 + n) s1 v par pp ep ltac:(apply Hb) Hpar ltac:(by apply (proj1 Hh1)) id) as (r & Er & Hr & Hrw).
  eapply post_bind_eq; [exact Er|]. rewrite Hx in Hr. apply fmap_Some in Hr as (x & -> & Hview). destruct (Hrw x eq_refl) as [Hwf Hid].
  assert (rename_at v node par tp pp ep pt et name0) as Hra by by constructor.
  assert (∀ s2 w, vdone n s1 w s2 → vdone n s w s2) as Hdone.
  { intros s2 w [H1 H2]. split; [done|]. intros i Hi Hli. apply H2; [done|by apply Hb]. }
  assert (fs_view (10 + n) s1 v) as Hs1 by (eapply fs_view_le; [|apply Hb]; lia).
  case_decide as Hsame.
  - subst tp. unfold dir_at in Htp. rewrite Hpar in Htp. injection Htp as <- <-. rewrite Hid.
    eapply post_mono; [by eapply (rename_same_view n s1)|].
    intros r s2 (v' & Hd & H). exists v'. split; [by apply Hdone|done].
  - eapply post_mono; [eapply (rename_move_view v node par tp pp pt name0 (filename to) ep et Hra Hz Hlen x Hwf); try done; by intros ->|].
    intros r s2 (v' & Hd & H). exists v'. split; [by apply Hdone|done].
Qed.

(** A rename keeps the tree. *)
Lemma rename_tree v node to r v' : tree_ok v → dirs_ok v → node_ok v node → rename_spec v node to r v' → tree_ok v'.
Proof.
  intros Ht Hk Hn. unfold rename_spec. destruct (_parent node) as [par|] eqn:Hp; [|by intros [_ ->]].
  case_decide; [by intros [_ ->]|].
  destruct (resolve_dir root v (not_below (CryFs._blockId node)) (parent_path to)) as [[[tp tg]|]|] eqn:E; [|by intros [_ ->]..].
  case_decide as Htid; [by intros [_ ->]|]. destruct (resolve_dir_found _ _ _ _ _ _ Ht E) as ((pt & et & Htp) & Hedge & Hres).
  destruct (node_entry _ _ _ _ Hn Hp) as (pp & ep & name0 & Hpar & Hx).
  assert (path_to root v (λ i, i ≠ CryFs._blockId node) tp) as Hpath.
  { eapply (path_from_parent root v _ tp tg Hedge); [|done]. eapply (resolve_path root v (not_below (CryFs._blockId node))); [| | |exact Hres]; try done.
    intros i. unfold not_below. by case_decide. }
  unfold rename_into. rewrite (entries_of_eq _ _ _ _ Htp). destruct (vfind (filename to) et) as [[y ty]|] eqn:Hf.
  2: { intros [_ ->]. by eapply tree_vmove. }
  case_decide as Hy; [by intros [_ ->]|]. case_decide; [by intros [_ ->]|]. case_decide; [by intros [_ ->]|].
  destruct (has_children v y) eqn:Hc; [by intros [_ ->]|]. intros [_ ->].
  assert (rename_at v node par tp pp ep pt et name0) as Hra by by constructor.
  destruct (replaced_facts _ _ _ _ _ _ _ _ _ _ _ _ Hra Hf Hy) as (c & Hyc & Hty & Hyt & Hyp). destruct (Hyp Hc) as [Hyp' Hcl].
  eapply (tree_replace root v tp pt et y c); try done. apply vfind_Some in Hf. by eexists.
Qed.
End rename.
