(* ===== verification/FilesystemImpl.v ===== *)
(** * The file system interface for FUSE (fspp/impl)

    [IdList] and [FuseOpenFileList] map descriptors to open files;
    [FilesystemImpl] offers the calls by path and by descriptor. The model is
    one thread: the reference counts of descriptors go up and down within one
    call, and the condition variable never has to wait (OpenFileThreads.v has
    the table with threads). *)
From S2P Require Import Prelude Serialization DirEntry DirEntryList FsBlobs FsObjects CryFs.
From Stdlib Require Import Lia ZArith.

(** ** IdList *)
Module IdList.
Record t (Entry : Type) := mk { _entries : gmap Z Entry; _id_counter : Z }.
Arguments mk {Entry} _ _.
Arguments _entries {Entry} _.
Arguments _id_counter {Entry} _.

Section idlist.
Context {Entry : Type}.
Definition new : t Entry := mk ∅ 0.
(** [++_id_counter] on [int]: an overflow is undefined. *)
Definition add (entry : Entry) : M (t Entry) Z :=
  s ← get_state ;
  let new_id := _id_counter s + 1 in
  if decide (new_id < 2 ^ 31)
  then put_state (mk (if decide (is_Some (_entries s !! new_id)) then _entries s else <[new_id := entry]> (_entries s)) new_id) ;; mret new_id
  else mthrow UndefinedBehaviour.
Definition get (id : Z) : M (t Entry) Entry :=
  s ← get_state ;
  match _entries s !! id with Some e => mret e | None => mthrow OutOfRange end.
Definition remove (id : Z) : M (t Entry) unit :=
  s ← get_state ;
  match _entries s !! id with
  | None => mthrow OutOfRange
  | Some _ => put_state (mk (delete id (_entries s)) (_id_counter s))
  end.
Definition size (s : t Entry) : nat := stdpp.base.size (_entries s).
End idlist.
End IdList.

(** [struct statvfs], the fields that are written. *)
Record posix_statvfs := mkPosixStatvfs { f_bsize : Z; f_frsize : Z; f_blocks : Z; f_bfree : Z; f_bavail : Z; f_files : Z; f_ffree : Z; f_favail : Z; f_namemax : Z }.

(** ** The state: the device, the open files and their reference counts *)
Definition OpenFile : Type := bytes * bytes.
Record filesystem (S : Type) := mkFS { device : fs S; _open_files : IdList.t OpenFile; _refcounts : gmap Z Z }.
Arguments mkFS {S} _ _ _.
Arguments device {S} _.
Arguments _open_files {S} _.
Arguments _refcounts {S} _.

Section filesystem.
Context {S : Type} `{!BlobStore S} (uninit : nat → bytes) (clock : nat → timespec) (startpos : Z → nat → nat).
Context (behavior : TimestampUpdateBehavior) (getuid getgid : Z) (_rootBlobId : bytes).
Abbreviation St := (filesystem S).

Definition on_device {A} (m : M (fs S) A) : M St A :=
  zoom device (λ d s, mkFS d (_open_files s) (_refcounts s)) m.
Definition on_open_files {A} (m : M (IdList.t OpenFile) A) : M St A :=
  zoom _open_files (λ o s, mkFS (device s) o (_refcounts s)) m.
Definition set_refcounts (f : gmap Z Z → gmap Z Z) : M St unit :=
  modify (λ s, mkFS (device s) (_open_files s) (f (_refcounts s))).

(** ** FuseOpenFileList *)
Definition OpenFileList_open (file : OpenFile) : M St Z :=
  descriptor ← on_open_files (IdList.add file) ;
  set_refcounts (λ r, if decide (is_Some (r !! descriptor)) then r else <[descriptor := 0]> r) ;;
  mret descriptor.

(** [_refcounts.at(descriptor)] *)
Definition refcount_at (descriptor : Z) : M St Z :=
  s ← get_state ;
  match _refcounts s !! descriptor with Some c => mret c | None => mthrow OutOfRange end.

(** The scope exit handler runs on every way out, also on a throw. *)
Definition scope_exit (descriptor : Z) : M St unit :=
  c ← refcount_at descriptor ; set_refcounts (<[descriptor := u64 (c - 1)]>).
Definition finally {A} (cleanup : M St unit) (m : M St A) : M St A :=
  r ← on_throw cleanup m ; cleanup ;; mret r.
(** [catch (std::out_of_range)] *)
Definition catch_out_of_range {A} (m : M St A) : M St A := λ s,
  match m s with (Throw OutOfRange, s') => (Throw (FuseErrno EBADF), s') | r => r end.

Definition OpenFileList_load {A} (descriptor : Z) (callback : OpenFile → M St A) : M St A :=
  catch_out_of_range (
    c ← refcount_at descriptor ;
    set_refcounts (<[descriptor := u64 (c + 1)]>) ;;
    finally (scope_exit descriptor) (
      loaded ← on_open_files (IdList.get descriptor) ;
      callback loaded)).

(** With one thread a positive count never goes down while [close] waits. *)
Definition OpenFileList_close (descriptor : Z) : M St unit :=
  c ← refcount_at descriptor ;
  if decide (c = 0) then
    on_open_files (IdList.remove descriptor) ;;
    set_refcounts (delete descriptor)
  else mthrow UndefinedBehaviour.

(** ** FilesystemImpl *)
Definition or_eio (m : M (fs S) (option CryNode)) : M St CryNode :=
  n ← on_device m ;
  match n with None => mthrow (FuseErrno EIO) | Some n => mret n end.
Definition FS_LoadFile (path : list bytes) : M St CryNode := or_eio (LoadFile _rootBlobId path).
Definition FS_LoadDir (path : list bytes) : M St CryNode := or_eio (LoadDir _rootBlobId path).
Definition FS_LoadSymlink (path : list bytes) : M St CryNode := or_eio (LoadSymlink _rootBlobId path).
(** [_device->Load(path)], ENOENT when there is none. *)
Definition FS_Load (path : list bytes) : M St CryNode :=
  n ← on_device (Load _rootBlobId path) ;
  match n with None => mthrow (FuseErrno ENOENT) | Some n => mret n end.

Definition openFile (path : list bytes) : M St Z :=
  file ← FS_LoadFile path ;
  f ← on_device (CryFs.open file) ;
  OpenFileList_open f.
Definition flush (descriptor : Z) : M St unit := OpenFileList_load descriptor (λ f, on_device (openfile_flush uninit f)).
Definition closeFile (descriptor : Z) : M St unit := OpenFileList_close descriptor.
Definition lstat (path : list bytes) : M St stat_info :=
  node ← FS_Load path ; on_device (CryFs.stat clock startpos getuid getgid node).
Definition fstat (descriptor : Z) : M St stat_info := OpenFileList_load descriptor (λ f, on_device (openfile_stat startpos f)).
Definition FS_chmod (path : list bytes) (mode : Z) : M St unit :=
  node ← FS_Load path ; on_device (CryFs.chmod clock startpos node mode).
Definition FS_chown (path : list bytes) (uid gid : Z) : M St unit :=
  node ← FS_Load path ; on_device (CryFs.chown clock startpos node uid gid).
Definition FS_truncate (path : list bytes) (size : Z) : M St unit :=
  file ← FS_LoadFile path ; on_device (CryFs.truncate clock startpos file size).
Definition ftruncate (descriptor size : Z) : M St unit :=
  OpenFileList_load descriptor (λ f, on_device (openfile_truncate clock startpos f size)).
Definition read (descriptor count offset : Z) : M St bytes :=
  OpenFileList_load descriptor (λ f, on_device (openfile_read clock startpos behavior f count offset)).
Definition write (descriptor : Z) (buf : bytes) (offset : Z) : M St unit :=
  OpenFileList_load descriptor (λ f, on_device (openfile_write clock startpos f buf offset)).
Definition fsync (descriptor : Z) : M St unit := OpenFileList_load descriptor (λ f, on_device (openfile_fsync uninit f)).
Definition fdatasync (descriptor : Z) : M St unit := OpenFileList_load descriptor (λ f, on_device (openfile_fdatasync f)).
Definition FS_access (path : list bytes) : M St unit := _ ← FS_Load path ; mret tt.
Definition FS_createAndOpenFile (path : list bytes) (mode uid gid : Z) : M St Z :=
  dir ← FS_LoadDir (parent_path path) ;
  file ← on_device (CryFs.createAndOpenFile clock startpos dir (filename path) mode uid gid) ;
  OpenFileList_open file.
Definition mkdir (path : list bytes) (mode uid gid : Z) : M St unit :=
  dir ← FS_LoadDir (parent_path path) ;
  on_device (CryFs.createDir clock startpos dir (filename path) mode uid gid).
Definition rmdir (path : list bytes) : M St unit :=
  node ← FS_Load path ; on_device (node_remove uninit clock startpos node).
Definition unlink (path : list bytes) : M St unit :=
  node ← FS_Load path ; on_device (node_remove uninit clock startpos node).
Definition FS_rename (from to : list bytes) : M St unit :=
  node ← FS_Load from ;
  _ ← on_device (CryFs.rename uninit clock startpos _rootBlobId node to) ;
  mret tt.
Definition readDir (path : list bytes) : M St (list (EntryType * bytes)) :=
  dir ← FS_LoadDir path ; on_device (CryFs.children clock startpos behavior dir).
Definition FS_utimens (path : list bytes) (a mt : timespec) : M St unit :=
  node ← FS_Load path ; on_device (CryFs.utimens clock startpos node a mt).
Definition FS_statfs : M St posix_statvfs :=
  stat ← on_device CryFs.statfs ;
  mret (mkPosixStatvfs (blocksize stat) (blocksize stat) (num_total_blocks stat) (num_free_blocks stat) (num_available_blocks stat)
          (num_total_inodes stat) (num_free_inodes stat) (num_available_inodes stat) (max_filename_length stat)).
Definition FS_createSymlink (target : bytes) (from : list bytes) (uid gid : Z) : M St unit :=
  parent ← FS_LoadDir (parent_path from) ;
  on_device (CryFs.createSymlink clock startpos parent (filename from) target uid gid).
(** The buffer of [size] bytes after the call; [buf] is its content before.
    [memcpy] copies the target with its null byte as far as it fits, and the
    last byte is set to zero. *)
Definition readSymlink (path : list bytes) (buf : bytes) : M St bytes :=
  lnk ← FS_LoadSymlink path ;
  target ← on_device (CryFs.target clock startpos behavior lnk) ;
  let size := length buf in
  buf' ← lift (Data.memcpy_to buf 0 (take (Nat.min (length target + 1) size) (target ++ [x00]))) ;
  lift (Data.memcpy_to buf' (size - 1) [x00]).
End filesystem.
