(* ===== verification/OpenFileThreads.v ===== *)
(** * Open files and threads (fspp/impl/FuseOpenFileList.h)

    FilesystemImpl.v runs each call alone. Here the calls of
    [FuseOpenFileList] run in threads: a critical section of [_mutex] is one
    step, the callback of [load] runs outside of it, [close] and the
    destructor sleep on the condition variable, and [notify_all] wakes the
    sleepers, who then compete for the mutex. *)
From S2P Require Import Prelude Threads Serialization FilesystemImpl.
From Stdlib Require Import Lia ZArith.
Open Scope Z_scope.

Module FuseOpenFileList.
Section open_files.
Context {OpenFile : Type}.

(** Where a thread is. [Idle r]: it does nothing, its last call ended with
    [r]; [Callback]: it uses the file, [r] is how the callback will end. *)
Inductive pc :=
| Idle (r : result unit)
| OpenEnter (file : OpenFile)
| LoadEnter (descriptor : Z) (r : result unit)
| Callback (descriptor : Z) (loaded : OpenFile) (r : result unit)
| LoadLeave (descriptor : Z) (r : result unit)
| CloseEnter (descriptor : Z)
| CloseSleep (descriptor : Z)
| DestructEnter
| DestructSleep
| Destructed.

Record state := mk {
  _open_files : IdList.t OpenFile;
  _refcounts : gmap Z Z;
  threads : gmap nat pc }.
Definition goto (t : nat) (p : pc) (s : state) : state := mk (_open_files s) (_refcounts s) (<[t := p]> (threads s)).
Definition set_refcounts (r : gmap Z Z) (s : state) : state := mk (_open_files s) r (threads s).
Definition set_open_files (o : IdList.t OpenFile) (s : state) : state := mk o (_refcounts s) (threads s).

(** [_refcount_zero_cv.notify_all()] *)
Definition wake (p : pc) : pc :=
  match p with CloseSleep d => CloseEnter d | DestructSleep => DestructEnter | p => p end.
Definition notify_all (s : state) : state := mk (_open_files s) (_refcounts s) (wake <$> threads s).

(** [catch (std::out_of_range)] around the whole of [load]. *)
Definition caught (r : result unit) : result unit :=
  match r with Throw OutOfRange => Throw (FuseErrno EBADF) | r => r end.
(** The handler of [OnScopeExit]. It runs in a destructor: an exception
    ends the program. *)
Definition on_scope_exit (descriptor : Z) (s : state) : option state :=
  match _refcounts s !! descriptor with
  | Some c => Some (notify_all (set_refcounts (<[descriptor := u64 (c - 1)]> (_refcounts s)) s))
  | None => None
  end.
Definition leave (t : nat) (descriptor : Z) (r : result unit) (s : state) : state :=
  match on_scope_exit descriptor s with
  | Some s' => goto t (Idle (caught r)) s'
  | None => goto t (Idle (Throw Terminate)) s
  end.

Definition open (t : nat) (file : OpenFile) (s : state) : state :=
  match IdList.add file (_open_files s) with
  | (Ok descriptor, o) =>
      goto t (Idle (Ok tt)) (set_open_files o (set_refcounts
        (if decide (is_Some (_refcounts s !! descriptor)) then _refcounts s else <[descriptor := 0]> (_refcounts s)) s))
  | (Throw e, o) => goto t (Idle (Throw e)) (set_open_files o s)
  end.
Definition load_enter (t : nat) (descriptor : Z) (r : result unit) (s : state) : state :=
  match _refcounts s !! descriptor with
  | None => goto t (Idle (caught (Throw OutOfRange))) s
  | Some c =>
      let s' := set_refcounts (<[descriptor := u64 (c + 1)]> (_refcounts s)) s in
      match IdList.get descriptor (_open_files s') with
      | (Ok loaded, _) => goto t (Callback descriptor loaded r) s'
      | (Throw e, _) => leave t descriptor (Throw e) s'
      end
  end.
Definition close (t : nat) (descriptor : Z) (s : state) : state :=
  match _refcounts s !! descriptor with
  | None => goto t (Idle (Throw OutOfRange)) s
  | Some c =>
      if decide (c = 0) then
        match IdList.remove descriptor (_open_files s) with
        | (Ok _, o) => goto t (Idle (Ok tt)) (set_open_files o (set_refcounts (delete descriptor (_refcounts s)) s))
        | (Throw e, o) => goto t (Idle (Throw e)) (set_open_files o s)
        end
      else goto t (CloseSleep descriptor) s
  end.
Definition all_zero (r : gmap Z Z) : bool := bool_decide (map_Forall (λ _ c, c = 0) r).
Definition destruct_list (t : nat) (s : state) : state :=
  goto t (if all_zero (_refcounts s) then Destructed else DestructSleep) s.

(** What a thread does next; [None] when it sleeps or has nothing to do. *)
Definition run (t : nat) (s : state) : option state :=
  p ← threads s !! t ;
  match p with
  | Idle _ | CloseSleep _ | DestructSleep | Destructed => None
  | OpenEnter file => Some (open t file s)
  | LoadEnter d r => Some (load_enter t d r s)
  | Callback d _ r => Some (goto t (LoadLeave d r) s)
  | LoadLeave d r => Some (leave t d r s)
  | CloseEnter d => Some (close t d s)
  | DestructEnter => Some (destruct_list t s)
  end.

Definition entry (p : pc) : bool :=
  match p with OpenEnter _ | LoadEnter _ _ | CloseEnter _ | DestructEnter => true | _ => false end.
(** A thread runs, an idle one calls, a sleeping one wakes up for no reason. *)
Inductive step : state → state → Prop :=
| step_run t s s' : run t s = Some s' → step s s'
| step_call t r p s : threads s !! t = Some (Idle r) → entry p = true → step s (goto t p s)
| step_spurious t p s : threads s !! t = Some p → step s (goto t (wake p) s).
Definition initial (n : nat) : state := mk IdList.new ∅ (gset_to_gmap (Idle (Ok tt)) (set_seq 0 n)).
Definition reachable (n : nat) : state → Prop := rtc step (initial n).

(** ** The invariant *)

(** The thread is in a call of [load] and has counted itself. *)
Definition in_load (d : Z) (p : pc) : bool :=
  match p with Callback d' _ _ | LoadLeave d' _ => bool_decide (d' = d) | _ => false end.
Definition sleeps_ok (r : gmap Z Z) (p : pc) : Prop :=
  match p with
  | CloseSleep d => ∃ c, r !! d = Some c ∧ c ≠ 0
  | DestructSleep => ∃ d c, r !! d = Some c ∧ c ≠ 0
  | _ => True
  end.
Definition loaded_ok (o : IdList.t OpenFile) (p : pc) : Prop :=
  match p with Callback d f _ => IdList._entries o !! d = Some f | _ => True end.
Record core (n : nat) (s : state) : Prop := {
  core_size : size (threads s) = n;
  core_same d : is_Some (_refcounts s !! d) ↔ is_Some (IdList._entries (_open_files s) !! d);
  core_count d c : _refcounts s !! d = Some c → c = Z.of_nat (tally (in_load d) (threads s));
  core_gone d : _refcounts s !! d = None → tally (in_load d) (threads s) = 0%nat;
  core_loaded t p : threads s !! t = Some p → loaded_ok (_open_files s) p }.
Definition sleepers (s : state) : Prop := ∀ t p, threads s !! t = Some p → sleeps_ok (_refcounts s) p.
Definition inv (n : nat) (s : state) : Prop := core n s ∧ sleepers s.

Lemma tally_other d t p p' m :
  m !! t = Some p → in_load d p' = in_load d p → tally (in_load d) (<[t := p']> m) = tally (in_load d) m.
Proof. intros Ht E. pose proof (tally_insert (in_load d) m t p p' Ht) as H. rewrite E in H. lia. Qed.
Lemma in_load_counted n s t p d :
  core n s → threads s !! t = Some p → in_load d p = true → ∃ c, _refcounts s !! d = Some c ∧ 0 < c.
Proof.
  intros Hc Ht Hp. assert (Hn : tally (in_load d) (threads s) ≠ 0%nat).
  { intros Hz. pose proof (tally_zero _ _ _ _ Hz Ht). congruence. }
  destruct (_refcounts s !! d) as [c|] eqn:E; [|by apply (core_gone n s Hc) in E].
  exists c. split; [done|]. apply (core_count n s Hc) in E. lia.
Qed.

Lemma core_match n s d :
  core n s → match _refcounts s !! d with Some c => c = Z.of_nat (tally (in_load d) (threads s))
                                        | None => tally (in_load d) (threads s) = 0%nat end.
Proof. intros [_ _ H3 H4 _]. destruct (_refcounts s !! d) eqn:E; auto. Qed.
(** A step that leaves the tables alone. *)
Lemma goto_keeps n t p p' s :
  inv n s → threads s !! t = Some p → (∀ d, in_load d p' = in_load d p) →
  loaded_ok (_open_files s) p' → sleeps_ok (_refcounts s) p' → inv n (goto t p' s).
Proof.
  intros [[H1 H2 H3 H4 H5] H6] Ht Hin Hl Hs. split; [split|]; simpl.
  - rewrite map_size_insert_Some by by eexists. done.
  - done.
  - intros d c Hd. rewrite (tally_other d t p p' _ Ht (Hin d)). by apply H3.
  - intros d Hd. rewrite (tally_other d t p p' _ Ht (Hin d)). by apply H4.
  - intros u q. rewrite lookup_insert. case_decide; [by intros [= <-]|by apply H5].
  - intros u q. simpl. rewrite lookup_insert. case_decide; [by intros [= <-]|by apply H6].
Qed.
(** The same, with new tables. *)
Lemma update_core n t p p' s o r :
  core n s → threads s !! t = Some p →
  (∀ d, is_Some (r !! d) ↔ is_Some (IdList._entries o !! d)) →
  (∀ d, match r !! d with Some c => c = Z.of_nat (tally (in_load d) (<[t := p']> (threads s)))
                        | None => tally (in_load d) (<[t := p']> (threads s)) = 0%nat end) →
  loaded_ok o p' → (∀ u q, u ≠ t → threads s !! u = Some q → loaded_ok (_open_files s) q → loaded_ok o q) →
  core n (mk o r (<[t := p']> (threads s))).
Proof.
  intros [H1 H2 H3 H4 H5] Ht Hsame Hcount Hl Hlo. split; simpl.
  - rewrite map_size_insert_Some by by eexists. done.
  - done.
  - intros d c Hd. specialize (Hcount d). by rewrite Hd in Hcount.
  - intros d Hd. specialize (Hcount d). by rewrite Hd in Hcount.
  - intros u q. rewrite lookup_insert. case_decide as Hu; [by intros [= <-]|]. intros Hq. eapply Hlo; [done..|]. by eapply H5.
Qed.
Lemma core_notify n s : core n s → inv n (notify_all s).
Proof.
  intros [H1 H2 H3 H4 H5].
  assert (Hw : ∀ d, tally (in_load d) (wake <$> threads s) = tally (in_load d) (threads s)).
  { intros d. apply tally_fmap. by intros []. }
  split; [split|]; simpl.
  - by rewrite map_size_fmap.
  - done.
  - intros d. rewrite Hw. apply H3.
  - intros d. rewrite Hw. apply H4.
  - intros t p. rewrite lookup_fmap. intros (q & Hq & ->)%fmap_Some. apply H5 in Hq. by destruct q.
  - intros t p. simpl. rewrite lookup_fmap. intros (q & Hq & ->)%fmap_Some. by destruct q.
Qed.

(** ** Every step keeps the invariant *)
Lemma count_after d t p p' m :
  m !! t = Some p →
  Z.of_nat (tally (in_load d) (<[t := p']> m)) =
  Z.of_nat (tally (in_load d) m) + Z.b2z (in_load d p') - Z.b2z (in_load d p).
Proof. intros Ht. pose proof (tally_insert (in_load d) m t p p' Ht). destruct (in_load d p), (in_load d p'); simpl in *; lia. Qed.

Lemma open_inv n t file s : inv n s → threads s !! t = Some (OpenEnter file) → inv n (open t file s).
Proof.
  intros [Hc Hs] Ht. pose proof Hc as [H1 H2 H3 H4 H5]. unfold open, IdList.add, mbind, M_bind, get_state.
  set (d := IdList._id_counter (_open_files s) + 1). destruct (decide (d < 2 ^ 31)) as [Hd|_]; simpl.
  2: { by eapply goto_keeps. }
  assert (Hgone : ∀ d', tally (in_load d') (<[t := Idle (Ok tt)]> (threads s)) = tally (in_load d') (threads s)).
  { intros d'. by eapply tally_other. }
  pose proof (H2 d) as Hsame.
  destruct (decide (is_Some (IdList._entries (_open_files s) !! d))) as [He|He].
  - rewrite decide_True by by apply H2. split; [|intros u q; simpl; rewrite lookup_insert; case_decide; [by intros [= <-]|by apply Hs]].
    apply (update_core n t _ _ s _ _ Hc Ht); [done| |done|done]. intros d'. rewrite Hgone. exact (core_match n s d' Hc).
  - rewrite decide_False by by rewrite H2. apply eq_None_not_Some in He.
    assert (Hr : _refcounts s !! d = None) by (apply eq_None_not_Some; rewrite Hsame, He; by intros [??]).
    split.
    + apply (update_core n t _ _ s _ _ Hc Ht); [ | |done|].
      * intros d'. simpl. rewrite !lookup_insert. case_decide; [done|apply H2].
      * intros d'. simpl. rewrite Hgone, lookup_insert. case_decide as Hdd; [subst d'; by rewrite (H4 d Hr)|].
        exact (core_match n s d' Hc).
      * intros u [] _ _; try done. simpl. intros Hl. rewrite lookup_insert_ne; [done|]. congruence.
    + intros u q. simpl. rewrite lookup_insert. case_decide; [by intros [= <-]|]. intros Hq. specialize (Hs u q Hq).
      destruct q; try done; simpl in *.
      * destruct Hs as (c & Hc' & Hne). exists c. rewrite lookup_insert_ne; [done|]. congruence.
      * destruct Hs as (d' & c & Hc' & Hne). exists d', c. rewrite lookup_insert_ne; [done|]. congruence.
Qed.

Lemma load_inv n t d r s :
  Z.of_nat n < 2 ^ 64 → inv n s → threads s !! t = Some (LoadEnter d r) → inv n (load_enter t d r s).
Proof.
  intros Hn [Hc Hs] Ht. pose proof Hc as [H1 H2 H3 H4 H5]. unfold load_enter.
  destruct (_refcounts s !! d) as [c|] eqn:Ed; [|by eapply goto_keeps].
  destruct (proj1 (H2 d)) as [f Hf]; [by eexists|]. unfold IdList.get, mbind, M_bind, get_state. simpl. rewrite Hf. simpl.
  pose proof (count_after d t _ (Callback d f r) _ Ht) as Hcount. simpl in Hcount. rewrite bool_decide_true in Hcount by done.
  pose proof (tally_le (in_load d) (<[t := Callback d f r]> (threads s))) as Hle.
  rewrite map_size_insert_Some, H1 in Hle by by eexists. pose proof (H3 d c Ed) as Ec.
  rewrite u64_small by (simpl in Hcount; lia). split.
  - unfold goto. simpl. apply (update_core n t _ _ s _ _ Hc Ht); [ | |done|done].
    + intros d'. rewrite lookup_insert. case_decide as Hdd; [subst d'; by rewrite Hf|apply H2].
    + intros d'. rewrite lookup_insert. case_decide as Hdd; [subst d'; simpl in Hcount; lia|].
      rewrite (tally_other d' t _ _ _ Ht) by (simpl; by rewrite bool_decide_false).
      exact (core_match n s d' Hc).
  - intros u q. simpl. rewrite lookup_insert. case_decide; [by intros [= <-]|]. intros Hq. specialize (Hs u q Hq).
    destruct q; try done; simpl in *.
    + destruct Hs as (c' & Hc' & Hne). rewrite lookup_insert. case_decide; [eexists; split; [done|lia]|eauto].
    + destruct Hs as (d' & c' & Hc' & Hne). exists d'. rewrite lookup_insert. case_decide; [eexists; split; [done|lia]|eauto].
Qed.

(** The thread that leaves wakes the others up, it does not sleep itself. *)
Lemma notify_goto t r s : goto t (Idle r) (notify_all s) = notify_all (goto t (Idle r) s).
Proof. unfold goto, notify_all. simpl. by rewrite fmap_insert. Qed.
Lemma leave_inv n t d r s :
  inv n s → threads s !! t = Some (LoadLeave d r) → Z.of_nat n < 2 ^ 64 → inv n (leave t d r s).
Proof.
  intros [Hc Hs] Ht Hn. pose proof Hc as [H1 H2 H3 H4 H5].
  destruct (in_load_counted n s t _ d Hc Ht) as (c & Ed & Hpos); [simpl; by apply bool_decide_true|].
  unfold leave, on_scope_exit. rewrite Ed, notify_goto. apply core_notify.
  pose proof (count_after d t _ (Idle (caught r)) _ Ht) as Hcount. simpl in Hcount. rewrite bool_decide_true in Hcount by done.
  pose proof (H3 d c Ed) as Ec. pose proof (tally_le (in_load d) (threads s)) as Hle. rewrite H1 in Hle.
  rewrite u64_small by lia. unfold goto. simpl. apply (update_core n t _ _ s _ _ Hc Ht); [ | |done|done].
  - intros d'. rewrite lookup_insert. case_decide as Hdd; [subst d'; rewrite <-H2, Ed; split; by eexists|apply H2].
  - intros d'. rewrite lookup_insert. case_decide as Hdd; [subst d'; simpl in Hcount; lia|].
    rewrite (tally_other d' t _ _ _ Ht) by (simpl; by rewrite bool_decide_false).
    exact (core_match n s d' Hc).
Qed.

(** No thread is in a call of [load] for a descriptor whose count is zero. *)
Lemma zero_count_unused n s d u p :
  core n s → _refcounts s !! d = Some 0 ∨ _refcounts s !! d = None → threads s !! u = Some p → in_load d p = false.
Proof.
  intros Hc Hd Hu. destruct (in_load d p) eqn:E; [|done].
  destruct (in_load_counted n s u p d Hc Hu E) as (c & Hc' & Hpos). destruct Hd; simplify_eq; lia.
Qed.
Lemma remove_entry d (o : IdList.t OpenFile) f :
  IdList._entries o !! d = Some f → IdList.remove d o = (Ok tt, IdList.mk (delete d (IdList._entries o)) (IdList._id_counter o)).
Proof. intros H. unfold IdList.remove, mbind, M_bind, get_state, put_state. by rewrite H. Qed.
Lemma close_inv n t d s : inv n s → threads s !! t = Some (CloseEnter d) → inv n (close t d s).
Proof.
  intros [Hc Hs] Ht. pose proof Hc as [H1 H2 H3 H4 H5]. unfold close.
  destruct (_refcounts s !! d) as [c|] eqn:Ed; [|by eapply goto_keeps].
  destruct (decide (c = 0)) as [->|Hne]; [|eapply goto_keeps; [done..|simpl; eauto]].
  destruct (proj1 (H2 d)) as [f Hf]; [by eexists|]. rewrite (remove_entry d _ f Hf).
  assert (Hun : ∀ u q, threads s !! u = Some q → in_load d q = false).
  { intros u q. apply (zero_count_unused n); [done|by left]. }
  split.
  - apply (update_core n t _ _ s _ _ Hc Ht); [| |done|].
    + intros d'. simpl. rewrite !lookup_delete. case_decide; [|apply H2]. split; by intros [].
    + intros d'. simpl. rewrite (tally_other d' t _ _ _ Ht) by done. rewrite lookup_delete. case_decide as Hdd.
      * subst d'. by apply tally_none.
      * exact (core_match n s d' Hc).
    + intros u [] _ Hu Hl; try done. simpl in *. rewrite lookup_delete_ne; [done|]. intros <-.
      specialize (Hun u _ Hu). simpl in Hun. by rewrite bool_decide_true in Hun.
  - intros u q. simpl. rewrite lookup_insert. case_decide; [by intros [= <-]|]. intros Hq. specialize (Hs u q Hq).
    destruct q; try done; simpl in *.
    + destruct Hs as (c' & Hc' & Hne). exists c'. rewrite lookup_delete_ne; [done|]. congruence.
    + destruct Hs as (d' & c' & Hc' & Hne). exists d', c'. rewrite lookup_delete_ne; [done|]. congruence.
Qed.
Lemma destruct_inv n t s : inv n s → threads s !! t = Some DestructEnter → inv n (destruct_list t s).
Proof.
  intros Hi Ht. unfold destruct_list. destruct (all_zero (_refcounts s)) eqn:E; [by eapply goto_keeps|].
  eapply goto_keeps; [done..|]. apply bool_decide_eq_false, map_not_Forall in E; [|solve_decision].
  destruct E as (d & c & ? & ?). by exists d, c.
Qed.
Lemma open_step_inv n s s' : Z.of_nat n < 2 ^ 64 → inv n s → step s s' → inv n s'.
Proof.
  intros Hn Hi Hst. destruct Hst as [t s s' Hr|t r p s Ht He|t p s Ht].
  - unfold run in Hr. destruct (threads s !! t) as [[]|] eqn:Ht; simplify_eq/=.
    + by apply open_inv.
    + by apply load_inv.
    + by eapply goto_keeps.
    + by apply leave_inv.
    + by apply close_inv.
    + by apply destruct_inv.
  - eapply goto_keeps; [done..| | |]; by destruct p.
  - eapply goto_keeps; [done..| | |]; destruct p; try done; by eapply (core_loaded n _ (proj1 Hi)) in Ht.
Qed.
Lemma open_files_inv n s : Z.of_nat n < 2 ^ 64 → reachable n s → inv n s.
Proof.
  intros Hn Hr. unfold reachable in Hr.
  assert (Hi : inv n (initial n)).
  { assert (Hidle : ∀ t p, threads (initial n) !! t = Some p → p = Idle (Ok tt)).
    { intros t p. simpl. rewrite lookup_gset_to_gmap. intros H. by repeat (case_guard || simplify_eq/=). }
    split; [split|].
    - simpl. rewrite <-(size_dom (D := gset nat)), dom_gset_to_gmap. apply size_set_seq.
    - intros d. simpl. rewrite !lookup_empty. split; by intros [].
    - intros d c. simpl. by rewrite lookup_empty.
    - intros d _. apply tally_none. by intros t p ->%Hidle.
    - by intros t p ->%Hidle.
    - by intros t p ->%Hidle. }
  induction Hr as [|s1 s2 s3 Hs _ IH]; [done|]. by eapply IH, open_step_inv.
Qed.

(** ** The theorems *)

(** C25. Whatever the threads do, an open file is not destroyed while a callback
    uses it, the handler that leaves [load] finds the counter it decrements
    (it would end the program otherwise), and a thread for which [close] or
    the destructor has returned finds no callback running on the descriptor,
    or on any. *)
Theorem loaded_files_live (n : nat) (s : state) :
  Z.of_nat n < 2 ^ 64 → reachable n s →
  (∀ t d f r, threads s !! t = Some (Callback d f r) → IdList._entries (_open_files s) !! d = Some f) ∧
  (∀ t d r, threads s !! t = Some (LoadLeave d r) → is_Some (on_scope_exit d s)) ∧
  (∀ t d s', threads s !! t = Some (CloseEnter d) → run t s = Some s' → threads s' !! t = Some (Idle (Ok tt)) →
     IdList._entries (_open_files s') !! d = None ∧ ∀ u p, threads s' !! u = Some p → in_load d p = false) ∧
  (∀ t s', threads s !! t = Some DestructEnter → run t s = Some s' → threads s' !! t = Some Destructed →
     ∀ u p d, threads s' !! u = Some p → in_load d p = false).
Proof.
  intros Hn Hr. pose proof (open_files_inv n s Hn Hr) as Hi. pose proof Hi as [Hc _]. split_and!.
  - intros t d f r Ht. exact (core_loaded n s Hc _ _ Ht).
  - intros t d r Ht. destruct (in_load_counted n s t _ d Hc Ht) as (c & Hd & _); [by apply bool_decide_true|].
    unfold on_scope_exit. by rewrite Hd.
  - intros t d s' Ht Hrun Ht'. pose proof (open_step_inv n s s' Hn Hi (step_run t s s' Hrun)) as [Hc' _].
    assert (Hgone : _refcounts s' !! d = None).
    { unfold run in Hrun. rewrite Ht in Hrun. injection Hrun as <-. unfold close in *.
      destruct (_refcounts s !! d) as [c|] eqn:Ed; [|by simpl in Ht'; rewrite lookup_insert_eq in Ht'].
      destruct (decide (c = 0)); [|by simpl in Ht'; rewrite lookup_insert_eq in Ht'].
      destruct (proj1 (core_same n s Hc d)) as [f Hf]; [by eexists|]. rewrite (remove_entry d _ f Hf). apply lookup_delete_eq. }
    split; [|intros u p; apply (zero_count_unused n); [done|by right]].
    apply eq_None_not_Some. rewrite <-(core_same n s' Hc'), Hgone. by intros [].
  - intros t s' Ht Hrun Ht' u p d Hu. pose proof (open_step_inv n s s' Hn Hi (step_run t s s' Hrun)) as [Hc' _].
    unfold run in Hrun. rewrite Ht in Hrun. injection Hrun as <-. unfold destruct_list in *. simpl in Ht'.
    rewrite lookup_insert_eq in Ht'. destruct (all_zero (_refcounts s)) eqn:Ez; [|done].
    apply bool_decide_eq_true in Ez. apply (zero_count_unused n _ d u p Hc'); [|done]. simpl.
    destruct (_refcounts s !! d) as [c|] eqn:Ed; [left|by right]. by rewrite (Ez d c Ed).
Qed.

(** C26. No wake-up is lost: as long as [close] sleeps some thread is in [load] on
    its descriptor, as long as the destructor sleeps some thread is in
    [load]; that thread can go on, and when it leaves the sleepers are
    awake. *)
Theorem sleepers_are_woken (n : nat) (s : state) (t : nat) (p : pc) :
  Z.of_nat n < 2 ^ 64 → reachable n s → threads s !! t = Some p → p = DestructSleep ∨ (∃ d, p = CloseSleep d) →
  (∃ u q d, threads s !! u = Some q ∧ in_load d q = true ∧ (∀ d', p = CloseSleep d' → d = d') ∧ is_Some (run u s)) ∧
  (∀ u d r s', threads s !! u = Some (LoadLeave d r) → run u s = Some s' →
     threads s' !! t = Some (wake p) ∧ is_Some (run t s')).
Proof.
  intros Hn Hr Ht Hp. pose proof (open_files_inv n s Hn Hr) as Hi. pose proof Hi as [Hc Hs]. split.
  - assert (Hd : ∃ d c, _refcounts s !! d = Some c ∧ c ≠ 0 ∧ ∀ d', p = CloseSleep d' → d = d').
    { specialize (Hs t p Ht). destruct Hp as [->|[d ->]]; simpl in Hs; [naive_solver|]. exists d. naive_solver. }
    destruct Hd as (d & c & Hd & Hne & Hdd). pose proof (core_count n s Hc d c Hd) as Ec.
    destruct (tally_pos (in_load d) (threads s)) as (u & q & Hu & Hq); [lia|].
    exists u, q, d. split_and!; [done..|]. unfold run. rewrite Hu. by destruct q.
  - intros u d r s' Hu Hrun.
    destruct (in_load_counted n s u _ d Hc Hu) as (c & Hd & _); [by apply bool_decide_true|].
    assert (Hut : u ≠ t) by (intros ->; naive_solver).
    unfold run in Hrun. rewrite Hu in Hrun. injection Hrun as <-. unfold leave, on_scope_exit. rewrite Hd. simpl.
    assert (Hw : (<[u := Idle (caught r)]> (wake <$> threads s)) !! t = Some (wake p)).
    { rewrite lookup_insert_ne, lookup_fmap, Ht by done. done. }
    split; [done|]. unfold run. simpl. rewrite Hw. by destruct Hp as [->|[? ->]].
Qed.
End open_files.
End FuseOpenFileList.

(** ** An execution: thread 0 opens a file and closes it while thread 1 uses it *)
Module OpenFileExample.
Import FuseOpenFileList.
Inductive action := ACall (t : nat) (p : pc (OpenFile := nat)) | ARun (t : nat).
Definition act (a : action) (s : state) : option state :=
  match a with
  | ACall t p => match threads s !! t with Some (Idle _) => if entry p then Some (goto t p s) else None | _ => None end
  | ARun t => run t s
  end.
Fixpoint acts (l : list action) (s : state) : option state :=
  match l with [] => Some s | a :: l => act a s ≫= acts l end.
Lemma acts_steps l s s' : acts l s = Some s' → rtc step s s'.
Proof.
  revert s. induction l as [|a l IH]; simpl; intros s Hs; [by simplify_eq|].
  apply bind_Some in Hs as (s1 & Hs1 & Hs). apply rtc_l with s1; [|by apply IH].
  destruct a as [t p|t]; simpl in Hs1; [|by eapply step_run]. repeat case_match; simplify_eq. by eapply step_call.
Qed.
Definition schedule : list action :=
  [ACall 0 (OpenEnter 7%nat); ARun 0; ACall 1 (LoadEnter 1 (Ok tt)); ARun 1; ACall 0 (CloseEnter 1); ARun 0].
Definition waiting : state := default (initial 2) (acts schedule (initial 2)).
Lemma waiting_reachable : reachable 2 waiting.
Proof. apply (acts_steps schedule). vm_compute. reflexivity. Qed.
Lemma loaded_files_live_witness :
  threads waiting !! 0%nat = Some (CloseSleep 1) ∧ IdList._entries (_open_files waiting) !! 1 = Some 7%nat.
Proof.
  split; [vm_compute; reflexivity|].
  apply (proj1 (loaded_files_live 2 waiting ltac:(lia) waiting_reachable) 1%nat 1 7%nat (Ok tt)). vm_compute. reflexivity.
Defined.
Lemma sleepers_are_woken_witness :
  ∃ u q d, threads waiting !! u = Some q ∧ in_load d q = true ∧ (∀ d', CloseSleep (OpenFile := nat) 1 = CloseSleep d' → d = d') ∧ is_Some (run u waiting).
Proof.
  apply (sleepers_are_woken 2 waiting 0 (CloseSleep 1) ltac:(lia) waiting_reachable).
  - vm_compute. reflexivity.
  - right. by exists 1.
Defined.
(** The callback ends, and only then the file is closed. *)
Example closed_after :
  (λ s, (threads s !! 0%nat, IdList._entries (_open_files s) !! 1)) <$> acts [ARun 1; ARun 1; ARun 0] waiting = Some (Some (Idle (Ok tt)), None).
Proof. vm_compute. reflexivity. Qed.
End OpenFileExample.
