(* ===== verification/OpenFiles.v ===== *)
(** * The table of open files

    [files_are n st o]: the open files of [st] are the map [o] from
    descriptors to files, nobody uses a descriptor at the moment, and [n] more
    files can be opened before the counter overflows. Descriptors are not
    reused. *)
From S2P Require Import Prelude Serialization DirEntry FsBlobs FsObjects CryFs FilesystemImpl.
From Stdlib Require Import Lia ZArith.
Open Scope Z_scope.

Section open_files.
Context {S : Type} `{!BlobStore S}.
Implicit Types (st : filesystem S) (o : gmap Z OpenFile) (fd : Z).

Definition files_are (n : nat) st o : Prop :=
  IdList._entries (_open_files st) = o ∧ (∀ fd, is_Some (o !! fd) → fd ≤ IdList._id_counter (_open_files st)) ∧
  IdList._id_counter (_open_files st) + Z.of_nat n < 2 ^ 31 ∧ _refcounts st = (λ _, 0) <$> o.

(** Only the device changed. *)
Definition stays st st' : Prop := _open_files st' = _open_files st ∧ _refcounts st' = _refcounts st.
Lemma stays_refl st : stays st st.
Proof. done. Qed.
Lemma stays_trans st1 st2 st3 : stays st1 st2 → stays st2 st3 → stays st1 st3.
Proof. intros [H1 H2] [H3 H4]. split; congruence. Qed.
Lemma files_stay n st st' o : stays st st' → files_are n st o → files_are n st' o.
Proof. intros [H1 H2]. unfold files_are. by rewrite H1, H2. Qed.
Lemma files_le n n' st o : (n' ≤ n)%nat → files_are n st o → files_are n' st o.
Proof. intros Hle (H1 & H2 & H3 & H4). split; [done|]. split; [done|]. split; [lia|done]. Qed.

Lemma post_on_device {A} (m : M (fs S) A) st (Q : result A → fs S → Prop) :
  post m (device st) Q → post (on_device m) st (λ r st', Q r (device st') ∧ stays st st').
Proof. intros H. apply post_zoom. eapply post_mono; [exact H|]. done. Qed.

Lemma OpenFileList_open_runs n st o f : files_are (Datatypes.S n) st o →
  runs (OpenFileList_open f) st (λ fd st', o !! fd = None ∧ files_are n st' (<[fd := f]> o) ∧ device st' = device st).
Proof.
  intros (<- & Hmax & Hcap & Href). set (c := IdList._id_counter (_open_files st)) in *. set (o := IdList._entries (_open_files st)) in *.
  assert (o !! (c + 1) = None) as Hnew.
  { apply eq_None_not_Some. intros Hs. specialize (Hmax _ Hs). lia. }
  eapply (runs_bind_eq _ _ _ (c + 1) (mkFS (device st) (IdList.mk (<[c + 1 := f]> o) (c + 1)) (_refcounts st))).
  { unfold on_open_files, zoom, IdList.add, get_state, put_state, mbind, M_bind. csimp. fold c o.
    rewrite decide_True by lia. by rewrite Hnew. }
  apply runs_bind_modify, runs_ret. split; [done|]. split; [|done]. unfold files_are. simpl. split; [done|]. split; [|split; [lia|]].
  - intros fd. destruct (decide (c + 1 = fd)) as [<-|]; [lia|]. rewrite lookup_insert_ne by done. intros Hs. specialize (Hmax _ Hs). lia.
  - rewrite Href, lookup_fmap, Hnew. simpl. by rewrite fmap_insert.
Qed.

Lemma OpenFileList_close_eq n st o fd : files_are n st o →
  post (OpenFileList_close fd) st (λ r st', device st' = device st ∧ files_are n st' (delete fd o) ∧ r = if decide (is_Some (o !! fd)) then Ok tt else Throw OutOfRange).
Proof.
  intros (<- & Hmax & Hcap & Href). set (o := IdList._entries (_open_files st)) in *. unfold OpenFileList_close.
  case_decide as Hs.
  - destruct Hs as [f Hf]. eapply (post_bind_eq _ _ _ 0 st).
    { unfold refcount_at, get_state, mbind, M_bind. csimp. by rewrite Href, lookup_fmap, Hf. }
    rewrite decide_True by done. eapply (post_bind_eq _ _ _ tt (mkFS (device st) (IdList.mk (delete fd o) (IdList._id_counter (_open_files st))) (_refcounts st))).
    { unfold on_open_files, zoom, IdList.remove, get_state, put_state, mbind, M_bind. csimp. fold o. by rewrite Hf. }
    unfold set_refcounts, modify, post. simpl. split; [done|]. split; [|done]. unfold files_are. simpl. split; [done|]. split; [|split; [done|]].
    + intros fd' [g Hg]. apply lookup_delete_Some in Hg as [_ Hg]. apply Hmax. by eexists.
    + by rewrite Href, fmap_delete.
  - apply eq_None_not_Some in Hs. eapply (post_bind_throw _ _ _ OutOfRange st).
    { unfold refcount_at, get_state, mbind, M_bind. csimp. by rewrite Href, lookup_fmap, Hs. }
    split; [done|]. split; [|done]. rewrite delete_id by done. done.
Qed.

Lemma OpenFileList_load_missing {A} n st o fd (cb : OpenFile → M (filesystem S) A) : files_are n st o → o !! fd = None →
  OpenFileList_load fd cb st = (Throw (FuseErrno EBADF), st).
Proof.
  intros (<- & _ & _ & Href) Hf. unfold OpenFileList_load, catch_out_of_range, refcount_at, get_state, mbind, M_bind. csimp.
  by rewrite Href, lookup_fmap, Hf.
Qed.

(** The reference count goes up and down, whatever the callback does. *)
Lemma OpenFileList_load_post {A} n st o fd f (m : OpenFile → M (fs S) A) (Q : result A → fs S → Prop) : files_are n st o → o !! fd = Some f →
  post (m f) (device st) (λ r d, Q r d ∧ r ≠ Throw OutOfRange) →
  post (OpenFileList_load fd (λ f, on_device (m f))) st (λ r st', Q r (device st') ∧ stays st st').
Proof.
  intros (<- & _ & _ & Href) Hf. set (o := IdList._entries (_open_files st)) in *. unfold post.
  assert (_refcounts st !! fd = Some 0) as Hc by (by rewrite Href, lookup_fmap, Hf).
  assert (IdList._entries (_open_files st) !! fd = Some f) as Hf' by done.
  unfold OpenFileList_load, catch_out_of_range, refcount_at, finally, on_throw, run_destructor, scope_exit, set_refcounts, on_open_files, IdList.get, on_device, zoom,
    refcount_at, get_state, modify, mbind, M_bind, mret, M_ret.
  cbn. rewrite Hc. cbn. rewrite Hf'. cbn. destruct (m f (device st)) as [[r|e] d]; cbn; rewrite lookup_insert_eq; cbn; intros [HQ Hne].
  - split; [done|]. split; [done|]. simpl. rewrite insert_insert_eq. by apply insert_id.
  - assert (stays st (mkFS d (_open_files st) (<[fd := 0]> (<[fd := 1]> (_refcounts st))))) as Hst.
    { split; [done|]. simpl. rewrite insert_insert_eq. by apply insert_id. }
    by destruct e.
Qed.
End open_files.
