(* ===== verification/Filesystem.v ===== *)
(** * The calls of the file system and the tree

    [run_call] is a call of [FilesystemImpl], [call_spec] says what it means
    for the tree and the table of open files, [call_ok] which calls the
    specification covers: valid arguments, no removal or replacement of a node
    that an open file uses, no eviction of an object in use, and not the two
    kinds of rename in which the code loses data ([rename_fine]). Sequences of
    such calls are specified by [calls_spec]. *)
From S2P Require Import Prelude Serialization DirEntry DirEntryList DirSpec Directory FsBlobs FsBlobSpec FsTree FsObjects FsObjSpec FsDirSpec FsView CryFs CrySpec RenameSpec FilesystemImpl OpenFiles NodeSpec BlobModel.
From Stdlib Require Import Lia ZArith.
Open Scope Z_scope.
Import DirEntry.

(** ** Calls *)
Inductive call :=
| COpen (path : list bytes)
| CCreate (path : list bytes) (mode uid gid : Z)
| CClose (fd : Z)
| CMkdir (path : list bytes) (mode uid gid : Z)
| CSymlink (target : bytes) (path : list bytes) (uid gid : Z)
| CRmdir (path : list bytes)
| CUnlink (path : list bytes)
| CRename (from to : list bytes)
| CLstat (path : list bytes)
| CAccess (path : list bytes)
| CChmod (path : list bytes) (mode : Z)
| CChown (path : list bytes) (uid gid : Z)
| CUtimens (path : list bytes) (a m : timespec)
| CTruncate (path : list bytes) (size : nat)
| CReadDir (path : list bytes)
| CReadSymlink (path : list bytes) (buf : bytes)
| CFstat (fd : Z)
| CFtruncate (fd : Z) (size : nat)
| CRead (fd : Z) (count offset : nat)
| CWrite (fd : Z) (buf : bytes) (offset : nat)
| CFlush (fd : Z)
| CFsync (fd : Z)
| CFdatasync (fd : Z)
| CStatfs
(** Not a call: the cache drops an object that nobody uses. *)
| CEvict (id : bytes).

Inductive value :=
| RUnit
| RFd (fd : Z)
| RStat (st : stat_info)
| RBytes (b : bytes)
| RList (l : list (EntryType * bytes))
| RStatfs (st : posix_statvfs).

Section calls.
Context {S : Type} `{!BlobStore S}.
Context (uninit : nat → bytes) (clock : nat → timespec) (startpos : Z → nat → nat).
Context (behavior : TimestampUpdateBehavior) (getuid getgid : Z) (root : bytes).

Definition unit_call (m : M (filesystem S) unit) : M (filesystem S) value := m ;; mret RUnit.
Definition evict_if_loaded (id : bytes) : M (fs S) unit :=
  s ← get_state ; if decide (is_Some (objects s !! id)) then evict uninit id else mret tt.

Definition run_call (c : call) : M (filesystem S) value :=
  match c with
  | COpen path => fd ← openFile root path ; mret (RFd fd)
  | CCreate path mode uid gid => fd ← FS_createAndOpenFile clock startpos root path mode uid gid ; mret (RFd fd)
  | CClose fd => unit_call (closeFile fd)
  | CMkdir path mode uid gid => unit_call (mkdir clock startpos root path mode uid gid)
  | CSymlink target path uid gid => unit_call (FS_createSymlink clock startpos root target path uid gid)
  | CRmdir path => unit_call (rmdir uninit clock startpos root path)
  | CUnlink path => unit_call (unlink uninit clock startpos root path)
  | CRename from to => unit_call (FS_rename uninit clock startpos root from to)
  | CLstat path => st ← lstat clock startpos getuid getgid root path ; mret (RStat st)
  | CAccess path => unit_call (FS_access root path)
  | CChmod path mode => unit_call (FS_chmod clock startpos root path mode)
  | CChown path uid gid => unit_call (FS_chown clock startpos root path uid gid)
  | CUtimens path a m => unit_call (FS_utimens clock startpos root path a m)
  | CTruncate path size => unit_call (FS_truncate clock startpos root path (Z.of_nat size))
  | CReadDir path => l ← readDir clock startpos behavior root path ; mret (RList l)
  | CReadSymlink path buf => b ← readSymlink clock startpos behavior root path buf ; mret (RBytes b)
  | CFstat fd => st ← fstat startpos fd ; mret (RStat st)
  | CFtruncate fd size => unit_call (ftruncate clock startpos fd (Z.of_nat size))
  | CRead fd count offset => b ← read clock startpos behavior fd (Z.of_nat count) (Z.of_nat offset) ; mret (RBytes b)
  | CWrite fd buf offset => unit_call (write clock startpos fd buf (Z.of_nat offset))
  | CFlush fd => unit_call (flush uninit fd)
  | CFsync fd => unit_call (fsync uninit fd)
  | CFdatasync fd => unit_call (fdatasync fd)
  | CStatfs => st ← FS_statfs ; mret (RStatfs st)
  | CEvict id => unit_call (on_device (evict_if_loaded id))
  end.

(** A sequence of calls; the results, thrown exceptions included. *)
Fixpoint run_calls (cs : list call) (st : filesystem S) : list (result value) * filesystem S :=
  match cs with
  | [] => ([], st)
  | c :: cs' => let '(r, st1) := run_call c st in let '(rs, st2) := run_calls cs' st1 in (r :: rs, st2)
  end.
End calls.

(** ** Specification *)
Section spec.
Context (root : bytes) (max_blob : Z).
Implicit Types (v : gmap bytes vnode) (o : gmap Z OpenFile) (r : result value) (path : list bytes).
Abbreviation fails r v' e v := (r = Throw (FuseErrno e) ∧ v' = v).

(** The node at a path, or the error of the call. *)
Definition at_node v path (missing : errno) r v' (k : CryNode → Prop) : Prop :=
  match resolve_node root v path with
  | Throw e => r = Throw e ∧ v' = v
  | Ok None => fails r v' missing v
  | Ok (Some node) => k node
  end.
Definition at_typed v path (ty : EntryType) (wrong : errno) r v' (k : CryNode → Prop) : Prop :=
  at_node v path EIO r v' (λ node, if decide (node_type node = ty) then k node else fails r v' wrong v).
(** The open file of a descriptor, with its content. *)
Definition at_fd v o (fd : Z) r v' (k : OpenFile → bytes → Prop) : Prop :=
  match o !! fd with
  | None => fails r v' EBADF v
  | Some f => ∃ q c, v !! f.2 = Some (mkV q (VFile c)) ∧ k f c
  end.
(** The numbers of [statfs]: [used] blocks, at least one for every node of
    the tree, and [free] ones that the store can still take. *)
Definition statvfs_of v (st : posix_statvfs) : Prop := ∃ used free blocksize, (stdpp.base.size v ≤ used)%nat ∧
  let total := u64 (u64 (Z.of_nat used) + free) in st = mkPosixStatvfs (u32 blocksize) (u32 blocksize) total free free total free free 255.
Definition void (r : result value) : result unit := _ ← r ; Ok tt.

Definition call_spec (c : call) v o r v' o' : Prop :=
  match c with
  | COpen path => at_typed v path FILE EISDIR r v' (λ node, v' = v ∧
      ∃ fd p, o !! fd = None ∧ _parent node = Some p ∧ r = Ok (RFd fd) ∧ o' = <[fd := (p, CryFs._blockId node)]> o)
  | CCreate path mode uid gid => at_typed v (parent_path path) DIR ENOTDIR r v' (λ dir,
      ∃ id, create_spec v (CryFs._blockId dir) (filename path) (VFile []) id (void r) v' ∧
        ∀ x, r = Ok x → ∃ fd, o !! fd = None ∧ x = RFd fd ∧ o' = <[fd := (CryFs._blockId dir, id)]> o)
  | CClose fd => v' = v ∧ o' = delete fd o ∧ r = if decide (is_Some (o !! fd)) then Ok RUnit else Throw OutOfRange
  | CMkdir path mode uid gid => at_typed v (parent_path path) DIR ENOTDIR r v' (λ dir,
      ∃ id, create_spec v (CryFs._blockId dir) (filename path) (VDir ∅) id (void r) v')
  | CSymlink target path uid gid => at_typed v (parent_path path) DIR ENOTDIR r v' (λ dir,
      ∃ id, create_spec v (CryFs._blockId dir) (filename path) (VSymlink target) id (void r) v')
  | CRmdir path | CUnlink path => at_node v path ENOENT r v' (λ node, remove_spec v node (void r) v')
  | CRename from to => at_node v from ENOENT r v' (λ node, rename_spec root v node to (void r) v')
  | CLstat path => at_node v path ENOENT r v' (λ node, v' = v ∧
      ∃ st x, r = Ok (RStat st) ∧ v !! CryFs._blockId node = Some x ∧ st_size st = v_size (v_content x))
  | CAccess path | CChmod path _ | CChown path _ _ | CUtimens path _ _ => at_node v path ENOENT r v' (λ _, r = Ok RUnit ∧ v' = v)
  | CTruncate path size => at_typed v path FILE EISDIR r v' (λ node, r = Ok RUnit ∧
      ∃ q c, v !! CryFs._blockId node = Some (mkV q (VFile c)) ∧ v' = vwrite (CryFs._blockId node) (resize_bytes c size) v)
  | CReadDir path => at_typed v path DIR ENOTDIR r v' (λ node, v' = v ∧
      ∃ l, r = Ok (RList ((DIR, dot) :: (DIR, dotdot) :: l)) ∧ l ≡ₚ (map_to_list (entries_of v (CryFs._blockId node))).*2)
  | CReadSymlink path buf => at_typed v path SYMLINK ENOTDIR r v' (λ node, v' = v ∧
      ∃ q t b, v !! CryFs._blockId node = Some (mkV q (VSymlink t)) ∧ r = Ok (RBytes b) ∧ length b = length buf ∧ SymlinkBlob.c_str b = take (length buf - 1) t)
  | CFstat fd => at_fd v o fd r v' (λ f c, v' = v ∧ if in_place v f then ∃ st, r = Ok (RStat st) ∧ st_size st = Z.of_nat (length c) else r = Throw (FuseErrno ENOENT))
  | CFtruncate fd size => at_fd v o fd r v' (λ f c, v' = vwrite f.2 (resize_bytes c size) v ∧ r = if in_place v f then Ok RUnit else Throw (FuseErrno ENOENT))
  | CRead fd count offset => at_fd v o fd r v' (λ f c, v' = v ∧ r = if in_place v f then Ok (RBytes (slice offset count c)) else Throw (FuseErrno ENOENT))
  | CWrite fd buf offset => at_fd v o fd r v' (λ f c,
      if in_place v f then r = Ok RUnit ∧ v' = vwrite f.2 (write_bytes c offset buf) v else fails r v' ENOENT v)
  | CFlush fd | CFsync fd | CFdatasync fd => at_fd v o fd r v' (λ _ _, r = Ok RUnit ∧ v' = v)
  | CStatfs => v' = v ∧ ∃ st, r = Ok (RStatfs st) ∧ statvfs_of v st
  | CEvict id => r = Ok RUnit ∧ v' = v
  end ∧
  (* the table of open files, where it is not described above *)
  match c, r with
  | COpen _, Ok _ | CCreate _ _ _ _, Ok _ | CClose _, _ => True
  | _, _ => o' = o
  end.

(** ** What a call may be given *)
Definition busy o (id : bytes) : Prop := ∃ fd f, o !! fd = Some f ∧ (f.1 = id ∨ f.2 = id).
Definition name_ok (name : bytes) : Prop := (x00 ∉ name) ∧ (length name ≤ 255)%nat.
Definition for_node v path (k : CryNode → Prop) : Prop := ∀ node, resolve_node root v path = Ok (Some node) → k node.
(** The node that a rename replaces. *)
Definition replaces v node to (y : bytes) : Prop :=
  ∃ tp g ty, resolve_dir root v (not_below (CryFs._blockId node)) (parent_path to) = Ok (Some (tp, g)) ∧
    vfind (filename to) (entries_of v tp) = Some (y, ty) ∧ y ≠ CryFs._blockId node.

Definition call_ok (c : call) v o : Prop :=
  match c with
  | CCreate path mode uid gid => args_ok FILE (filename path) mode uid gid
  | CMkdir path mode uid gid => args_ok DIR (filename path) mode uid gid
  | CSymlink target path uid gid => args_ok SYMLINK (filename path) symlink_mode uid gid ∧ (x00 ∉ target) ∧ 19 + Z.of_nat (length target) ≤ max_blob
  | CRmdir path | CUnlink path => for_node v path (λ node, ¬ busy o (CryFs._blockId node))
  | CRename from to => name_ok (filename to) ∧ for_node v from (λ node, rename_fine root v node to ∧ ∀ y, replaces v node to y → ¬ busy o y)
  | CChmod path mode => 0 ≤ mode < 2 ^ 32 ∧ for_node v path (λ node, mode_ok (node_type node) mode)
  | CChown path uid gid => 0 ≤ uid < 2 ^ 32 ∧ 0 ≤ gid < 2 ^ 32
  | CUtimens path a m => time_ok a ∧ time_ok m
  | CTruncate _ size | CFtruncate _ size => 19 + Z.of_nat size ≤ max_blob
  | CReadSymlink path buf => buf ≠ []
  | CRead fd count offset => Z.of_nat offset < 2 ^ 62 ∧ Z.of_nat count < 2 ^ 63
  | CWrite fd buf offset => 19 + Z.of_nat (offset + length buf) ≤ max_blob
  | CEvict id => ¬ busy o id
  | COpen _ | CClose _ | CLstat _ | CAccess _ | CReadDir _ | CFstat _ | CFlush _ | CFsync _ | CFdatasync _ | CStatfs => True
  end.
(** ... in a sequence of calls. *)
Fixpoint calls_ok (cs : list call) v o : Prop :=
  match cs with
  | [] => True
  | c :: cs' => call_ok c v o ∧ ∀ r v' o', call_spec c v o r v' o' → calls_ok cs' v' o'
  end.
Fixpoint calls_spec (cs : list call) v o (rs : list (result value)) v' o' : Prop :=
  match cs, rs with
  | [], [] => v' = v ∧ o' = o
  | c :: cs', r :: rs' => ∃ v1 o1, call_spec c v o r v1 o1 ∧ calls_spec cs' v1 o1 rs' v' o'
  | _, _ => False
  end.
End spec.
