(* ===== verification/FsRefine.v ===== *)
(** * The file system refines the tree

    The invariant [fs_inv] of the whole file system, and for every call that
    it preserves the invariant and meets its specification in Filesystem.v. *)
From S2P Require Import Prelude Serialization DirEntry DirEntryList DirSpec Directory FsBlobs FsBlobSpec FsTree FsObjects FsObjSpec FsDirSpec FsView CryFs CrySpec RenameSpec FilesystemImpl OpenFiles Filesystem NodeSpec BlobModel.
From Stdlib Require Import Lia ZArith.
Open Scope Z_scope.
Import DirEntry.

(** ** The types of nodes *)
Section types.
Implicit Types (v : gmap bytes vnode) (o : gmap Z OpenFile) (d id p : bytes).
Definition vtype v id : option EntryType := (λ x, v_type (v_content x)) <$> v !! id.

Lemma open_ok_type v f : open_ok v f ↔ vtype v f.1 = Some DIR ∧ vtype v f.2 = Some FILE.
Proof.
  unfold open_ok, vtype, dir_at. split.
  - intros [(pp & e & H1) (q & c & H2)]. by rewrite H1, H2.
  - intros [H1 H2]. split.
    + destruct (v !! f.1) as [[q [|e|]]|]; try done. by exists q, e.
    + destruct (v !! f.2) as [[q [c|e|]]|]; try done. by exists q, c.
Qed.
(** [v'] has the nodes of [v] that are not in [gone], with their types. *)
Definition vkept (gone : bytes → Prop) v v' : Prop := ∀ i t, ¬ gone i → vtype v i = Some t → vtype v' i = Some t.
Definition open_all v o : Prop := ∀ fd f, o !! fd = Some f → open_ok v f.

Lemma open_kept gone v v' o : vkept gone v v' → (∀ i, gone i → ¬ busy o i) → open_all v o → open_all v' o.
Proof.
  intros Hk Hb Ho fd f Hf. specialize (Ho fd f Hf). rewrite open_ok_type in *. destruct Ho as [H1 H2].
  split; apply Hk; try done; intros Hg; apply (Hb _ Hg); exists fd, f; auto.
Qed.
Lemma vkept_trans gone v1 v2 v3 : vkept gone v1 v2 → vkept gone v2 v3 → vkept gone v1 v3.
Proof. intros H1 H2 i t Hi H. by apply H2, H1. Qed.
Lemma vkept_refl gone v : vkept gone v v.
Proof. by intros i t. Qed.

Lemma vtype_on_dir f d v i : vtype (on_dir f d v) i = vtype v i.
Proof.
  unfold vtype, on_dir. destruct (decide (d = i)) as [<-|]; [|by rewrite lookup_alter_ne].
  rewrite lookup_alter_eq. by destruct (v !! d) as [[q []]|].
Qed.
Lemma vtype_set_parent q id v i : vtype (vset_parent id q v) i = vtype v i.
Proof.
  unfold vtype, vset_parent. destruct (decide (id = i)) as [<-|]; [|by rewrite lookup_alter_ne].
  rewrite lookup_alter_eq. by destruct (v !! id).
Qed.
Lemma kept_new gone d id c v : v !! id = None → vkept gone v (vnew d id c v).
Proof.
  intros Hid i t _ H. unfold vtype, vnew in *. rewrite lookup_insert_ne; [done|]. intros ->. by rewrite Hid in H.
Qed.
Lemma kept_create gone d id name c v : v !! id = None → vkept gone v (vcreate d id name c v).
Proof. intros Hid i t Hi H. unfold vcreate, vlink. rewrite vtype_on_dir. by apply (kept_new gone). Qed.
Lemma kept_erase (gone : bytes → Prop) d y v : gone y → vkept gone v (verase d y v).
Proof.
  intros Hy i t Hi H. unfold verase, vunlink. rewrite vtype_on_dir. unfold vtype in *. rewrite lookup_delete_ne; [done|]. by intros ->.
Qed.
Lemma kept_move gone (par tp : bytes) id x v : vkept gone v (vmove par tp id x v).
Proof.
  intros i t _ H. unfold vmove, vlink, vunlink. case_decide; [by rewrite vtype_on_dir|].
  by rewrite vtype_set_parent, !vtype_on_dir.
Qed.
Lemma kept_write gone id q c c' v : v !! id = Some (mkV q (VFile c)) → vkept gone v (vwrite id c' v).
Proof.
  intros Hx i t _ H. rewrite (vwrite_eq _ _ _ _ _ Hx). unfold vtype in *. destruct (decide (id = i)) as [<-|].
  - rewrite Hx in H. rewrite lookup_insert_eq. done.
  - by rewrite lookup_insert_ne.
Qed.
End types.

(** ** The buffer of [readlink] *)
Lemma c_str_stops (l r : bytes) : x00 ∉ l → SymlinkBlob.c_str (l ++ x00 :: r) = l.
Proof.
  induction l as [|x l IH]; intros Hl; simpl; [done|]. rewrite decide_False by (intros ->; apply Hl; left). by rewrite IH by (intros ?; apply Hl; by right).
Qed.
Lemma readlink_buffer (t buf : bytes) : buf ≠ [] → x00 ∉ t →
  ∃ b, (buf' ← Data.memcpy_to buf 0 (take (Nat.min (length t + 1) (length buf)) (t ++ [x00])) ;
        Data.memcpy_to buf' (length buf - 1) [x00]) = Ok b ∧ length b = length buf ∧ SymlinkBlob.c_str b = take (length buf - 1) t.
Proof.
  intros Hb Ht. assert (0 < length buf)%nat as Hpos by (destruct buf; simpl; [done|lia]). set (k := (length buf - 1)%nat).
  set (src := take _ _). assert (length src = Nat.min (length t + 1) (length buf)) as Hsrc.
  { unfold src. rewrite length_take, length_app. simpl. lia. }
  assert (∃ rest, splice 0 src buf = src ++ rest ∧ (length src + length rest = length buf)%nat) as (rest & Es & Hrest).
  { eexists. split; [unfold splice; rewrite take_0; done|]. rewrite length_drop. lia. }
  rewrite Data.memcpy_to_ok by (rewrite Hsrc; lia). cbn [mbind result_bind]. rewrite Es.
  rewrite Data.memcpy_to_ok by (rewrite length_app; simpl; lia).
  assert (splice k [x00] (src ++ rest) = take k (src ++ rest) ++ [x00]) as ->.
  { unfold splice. rewrite drop_ge; [done|]. rewrite length_app. simpl. unfold k. lia. }
  eexists. split; [done|]. split; [rewrite length_app, length_take, length_app; simpl; unfold k; lia|].
  destruct (decide (k ≤ length t)%nat) as [Hle|Hgt].
  - assert (take k (src ++ rest) = take k t) as ->.
    { rewrite take_app_le by (rewrite Hsrc; unfold k in *; lia). unfold src. rewrite take_take, Nat.min_l by (unfold k in *; lia). by rewrite take_app_le. }
    apply c_str_stops. intros H. apply Ht. by eapply subseteq_take.
  - assert (src = t ++ [x00]) as ->.
    { unfold src. apply take_ge. rewrite length_app. simpl. unfold k in *. lia. }
    rewrite (take_ge t k) by lia. rewrite <- app_assoc. rewrite take_app_ge by lia.
    destruct (k - length t)%nat as [|j] eqn:Ej; [lia|]. simpl. rewrite <- app_assoc. simpl. by apply c_str_stops.
Qed.

(** ** What the calls keep *)
Section good.
Context (root : bytes).
Implicit Types (v : gmap bytes vnode) (o : gmap Z OpenFile) (d id p : bytes) (node : CryNode).
(** The tree is well formed and has all open files. *)
Definition good v o : Prop := tree_ok root v ∧ open_all v o.

Lemma node_reach v node : tree_ok root v → node_ok root v node → reach root v (CryFs._blockId node).
Proof.
  intros Ht. unfold node_ok. destruct (_parent node) as [p|].
  - intros [(pp & e & name & Hd & Hx) _]. assert (edge v p (CryFs._blockId node)) as He by by exists pp, e, (node_type node, name).
    eapply path_edge; [by eapply tree_reach|done|done].
  - intros (-> & _). by constructor.
Qed.
Lemma good_create v o node name c id r v' : good v o → node_ok root v node → childless c →
  create_spec v (CryFs._blockId node) name c id r v' → good v' o.
Proof.
  intros [Ht Ho] Hn Hc (Hid & p & e & Hd & H). destruct (vfind name e); destruct H as [_ ->].
  - split; [by apply tree_vnew|]. eapply (open_kept (λ _, False)); [by apply kept_new|done|done].
  - split; [eapply tree_vcreate; try done; by apply node_reach|]. eapply (open_kept (λ _, False)); [by apply kept_create|done|done].
Qed.
Lemma good_remove v o node r v' : good v o → dirs_ok v → node_ok root v node → ¬ busy o (CryFs._blockId node) →
  remove_spec v node r v' → good v' o.
Proof.
  intros [Ht Ho] Hk Hn Hb. unfold remove_spec. destruct (has_children v (CryFs._blockId node)) eqn:Hc; [by intros [_ ->]|].
  destruct (_parent node) as [p|] eqn:Hp; [|by intros [_ ->]]. intros [_ ->]. destruct (node_entry _ _ _ _ Hn Hp) as (pp & e & name & Hd & Hx).
  destruct (node_exists _ _ _ Ht Hn) as ([q c] & Hy & _ & Hq). pose proof (Hq p Hp) as Eq. simpl in Eq. subst q. split.
  - eapply tree_verase; [done|done|exact Hd|by eexists|exact Hy|]. unfold has_children in Hc. rewrite Hy in Hc. simpl in Hc.
    destruct c; [done| |done]. simpl. apply bool_decide_eq_false in Hc. by apply dec_stable in Hc.
  - eapply (open_kept (λ i, i = CryFs._blockId node)); [by apply kept_erase|by intros i ->|done].
Qed.
Lemma good_rename v o node to r v' : good v o → dirs_ok v → node_ok root v node → (∀ y, replaces root v node to y → ¬ busy o y) →
  rename_spec root v node to r v' → good v' o.
Proof.
  intros [Ht Ho] Hk Hn Hb Hspec. split; [by eapply rename_tree|]. revert Hspec. unfold rename_spec.
  destruct (_parent node) as [par|]; [|by intros [_ ->]]. case_decide; [by intros [_ ->]|].
  destruct (resolve_dir root v (not_below (CryFs._blockId node)) (parent_path to)) as [[[tp g]|]|] eqn:E; [|by intros [_ ->]..].
  case_decide; [by intros [_ ->]|]. unfold rename_into. destruct (vfind (filename to) (entries_of v tp)) as [[y ty]|] eqn:Hf.
  - case_decide as Hy; [by intros [_ ->]|]. case_decide; [by intros [_ ->]|]. case_decide; [by intros [_ ->]|].
    destruct (has_children v y); [by intros [_ ->]|]. intros [_ ->]. eapply (open_kept (λ i, i = y)); [| |exact Ho].
    + eapply vkept_trans; [by apply kept_erase|apply kept_move].
    + intros i ->. apply Hb. by exists tp, g, ty.
  - intros [_ ->]. eapply (open_kept (λ _, False)); [apply kept_move|done|done].
Qed.
Lemma good_write v o id q c c' : good v o → v !! id = Some (mkV q (VFile c)) → good (vwrite id c' v) o.
Proof.
  intros [Ht Ho] Hx. split.
  - rewrite (vwrite_eq _ _ _ _ _ Hx). by eapply tree_same_shape.
  - eapply (open_kept (λ _, False)); [by eapply kept_write|done|done].
Qed.
End good.

(** ** The calls *)
Section calls.
Context {S : Type} `{!BlobStore S} `{!BlobStoreSpec S}.
Context (uninit : nat → bytes) (uninit_ok : ∀ n, length (uninit n) = n).
Context (clock : nat → timespec) (clock_ok : ∀ n, time_ok (clock n)).
Context (startpos : Z → nat → nat) (startpos_ok : ∀ b n, 0 ≤ b < 256 → (0 < n)%nat → (startpos b n < n)%nat).
Context (behavior : TimestampUpdateBehavior) (getuid getgid : Z) (root : bytes).
Implicit Types (st : filesystem S) (v : gmap bytes vnode) (o : gmap Z OpenFile) (path : list bytes) (node : CryNode) (wrong : errno) (ty : EntryType) (fd : Z).
Abbreviation call_spec := (call_spec root).
Abbreviation call_ok := (call_ok root max_blob).

Definition held_all (s : fs S) o : Prop := ∀ fd f, o !! fd = Some f → open_held s f.
Definition fs_inv (n : nat) st v o : Prop :=
  fs_view n (device st) v ∧ good root v o ∧ files_are n st o ∧ held_all (device st) o.

(** The device did [vdone]: the open files are still there. *)
Lemma inv_done n st v o st' v' : fs_inv (12 + n) st v o → stays st st' → vdone n (device st) v' (device st') → good root v' o → fs_inv n st' v' o.
Proof.
  intros (Hs & Hg & Hf & Hh) Hst [Hs' Hk'] Hg'. split; [done|]. split; [done|]. split.
  - eapply files_stay; [exact Hst|]. eapply files_le; [|exact Hf]. lia.
  - intros fd f Hfd. destruct (Hh fd f Hfd) as [H1 H2]. destruct Hg' as [_ Ho]. destruct (Ho fd f Hfd) as [(pp & e & Hd) (q & c & Hx)].
    split; (apply Hk'; [|done]); by eexists.
Qed.

(** *** Paths *)
Definition sel_node v path : result CryNode :=
  match resolve_node root v path with Throw e => Throw e | Ok None => Throw (FuseErrno ENOENT) | Ok (Some node) => Ok node end.
Definition sel_typed v path (ty : EntryType) (wrong : errno) : result CryNode :=
  match resolve_node root v path with
  | Throw e => Throw e
  | Ok None => Throw (FuseErrno EIO)
  | Ok (Some node) => if decide (node_type node = ty) then Ok node else Throw (FuseErrno wrong)
  end.
Lemma sel_node_spec v path r v' (k : CryNode → Prop) :
  match sel_node v path with Ok node => k node | Throw e => r = Throw e ∧ v' = v end → at_node root v path ENOENT r v' k.
Proof. unfold sel_node, at_node. by destruct (resolve_node root v path) as [[|]|]. Qed.
Lemma sel_typed_spec v path ty wrong r v' (k : CryNode → Prop) :
  match sel_typed v path ty wrong with Ok node => k node | Throw e => r = Throw e ∧ v' = v end → at_typed root v path ty wrong r v' k.
Proof. unfold sel_typed, at_typed, at_node. destruct (resolve_node root v path) as [[node|]|]; [|done..]. by case_decide. Qed.

(** The outcome of loading a node. *)
Definition loads n st v (sel : result CryNode) (r : result CryNode) st' : Prop :=
  r = sel ∧ stays st st' ∧ vbecame n (device st) v (device st') ∧ ∀ node, r = Ok node → held (device st') node.

Lemma FS_Load_loads n st v path : fs_view (Datatypes.S n) (device st) v → tree_ok root v →
  post (FS_Load root path) st (loads (Datatypes.S n) st v (sel_node v path)).
Proof.
  intros Hs Ht. eapply post_bind; [by apply post_on_device, Load_view| |].
  - intros r st1 [(E & Hb & Hh) Hst]. unfold loads, sel_node. rewrite <- E. destruct r as [node|]; [apply post_ret|apply post_throw].
    + split; [done|]. split; [done|]. split; [done|]. intros node' [= <-]. by apply Hh.
    + done.
  - intros e st1 [(E & Hb & Hh) Hst]. unfold loads, sel_node. by rewrite <- E.
Qed.

Lemma or_eio_loads n st v path ty wrong (m : M (fs S) (option CryNode)) :
  m = (loaded ← Load root path ;
       match loaded with None => mret None | Some node => if decide (node_type node = ty) then mret (Some node) else mthrow (FuseErrno wrong) end) →
  fs_view (Datatypes.S n) (device st) v → tree_ok root v →
  post (or_eio m) st (loads (Datatypes.S n) st v (sel_typed v path ty wrong)).
Proof.
  intros -> Hs Ht. unfold or_eio.
  apply (post_bind _ _ _ (λ r st', (vbecame (Datatypes.S n) (device st) v (device st') ∧ match r with
    | Ok (Some node) => sel_typed v path ty wrong = Ok node ∧ held (device st') node
    | Ok None => sel_typed v path ty wrong = Throw (FuseErrno EIO)
    | Throw e => sel_typed v path ty wrong = Throw e end) ∧ stays st st')).
  - apply (post_on_device _ _ (λ r s', vbecame (Datatypes.S n) (device st) v s' ∧ match r with
      | Ok (Some node) => sel_typed v path ty wrong = Ok node ∧ held s' node
      | Ok None => sel_typed v path ty wrong = Throw (FuseErrno EIO)
      | Throw e => sel_typed v path ty wrong = Throw e end)).
    unfold sel_typed. eapply post_bind; [by apply Load_view| |].
    + intros r s1 (E & Hb & Hh). rewrite <- E. destruct r as [node|]; [|by apply post_ret].
      case_decide; [apply post_ret|by apply post_throw]. split; [done|]. split; [done|]. by apply Hh.
    + intros e s1 (E & Hb & Hh). by rewrite <- E.
  - intros r st1 [[Hb H] Hst]. destruct r as [node|]; [apply post_ret|apply post_throw].
    + destruct H as [H Hh]. split; [done|]. split; [done|]. split; [done|]. by intros node' [= <-].
    + by split.
  - intros e st1 [[Hb H] Hst]. by split.
Qed.

(** A call on the node of a path. *)
Lemma path_call {A} (load : M (filesystem S) CryNode) (sel : result CryNode) (op : CryNode → M (fs S) A) (spec : CryNode → result A → gmap bytes vnode → fs S → Prop) n st v :
  post load st (loads (12 + n) st v sel) → fs_view (12 + n) (device st) v →
  (∀ node s, sel = Ok node → fs_view (12 + n) s v → held s node → post (op node) s (λ r s', ∃ v', vdone n s v' s' ∧ spec node r v' s')) →
  post (node ← load ; on_device (op node)) st (λ r st', ∃ v', stays st st' ∧ vdone n (device st) v' (device st') ∧
    match sel with Ok node => spec node r v' (device st') | Throw e => r = Throw e ∧ v' = v end).
Proof.
  intros Hload Hs Hop. eapply post_bind; [exact Hload| |].
  - intros node st1 (<- & Hst & Hb & Hh). eapply post_mono; [apply post_on_device, Hop; [done|apply Hb|by apply Hh]|].
    intros r st2 [(v' & [Hs2 Hk2] & Hspec) Hst2]. exists v'. split; [by eapply stays_trans|]. split; [|done]. split; [done|].
    intros i Hi Hl. apply Hk2; [done|by apply Hb].
  - intros e st1 (<- & Hst & Hb & Hh). exists v. split; [done|]. split; [|done]. eapply vbecame_done, (vbecame_le (12 + n)); [lia|done].
Qed.

Lemma sel_node_ok v path node : tree_ok root v → sel_node v path = Ok node → node_ok root v node ∧ resolve_node root v path = Ok (Some node).
Proof.
  intros Ht. unfold sel_node. destruct (resolve_node root v path) as [[n|]|] eqn:E; [|done..]. intros [= <-]. split; [by eapply resolve_node_ok|done].
Qed.
Lemma sel_typed_ok v path ty wrong node : tree_ok root v → sel_typed v path ty wrong = Ok node → node_ok root v node ∧ node_type node = ty.
Proof.
  intros Ht. unfold sel_typed. destruct (resolve_node root v path) as [[n|]|] eqn:E; [|done..]. case_decide; [|done]. intros [= <-].
  split; [by eapply resolve_node_ok|done].
Qed.

Lemma post_map {T A B} (m : M T A) (g : A → B) (s : T) (Q : result B → T → Prop) :
  post m s (λ r s', Q (x ← r ; Ok (g x)) s') → post (x ← m ; mret (g x)) s Q.
Proof. unfold post. intros H. unfold mbind, M_bind. destruct (m s) as [[a|e] s1]; exact H. Qed.

(** The outcome of a whole call. *)
Definition done n (c : call) v o (r : result value) st' : Prop := ∃ v' o', fs_inv n st' v' o' ∧ call_spec c v o r v' o'.

Section at_state.
Context (n : nat) (st : filesystem S) (v : gmap bytes vnode) (o : gmap Z OpenFile) (Hinv : fs_inv (12 + n) st v o).
Local Lemma Hview : fs_view (12 + n) (device st) v. Proof using Hinv. apply Hinv. Qed.
Local Lemma Htree : tree_ok root v. Proof using Hinv. apply Hinv. Qed.
Local Lemma Hdirs : dirs_ok v. Proof using Hinv. eapply view_dirs_ok, Hview. Qed.

(** A call on the node of a path that leaves the table of open files. *)
Lemma node_call {A} path (op : CryNode → M (fs S) A) (spec : CryNode → result A → gmap bytes vnode → Prop) (g : A → value) (c : call) :
  (∀ node s, node_ok root v node → resolve_node root v path = Ok (Some node) → fs_view (12 + n) s v → held s node →
    post (op node) s (λ r s', ∃ v', vdone n s v' s' ∧ spec node r v')) →
  (∀ node r v', node_ok root v node → resolve_node root v path = Ok (Some node) → spec node r v' → good root v' o) →
  (∀ r v', at_node root v path ENOENT (x ← r ; Ok (g x)) v' (λ node, spec node r v') → call_spec c v o (x ← r ; Ok (g x)) v' o) →
  post (x ← (node ← FS_Load root path ; on_device (op node)) ; mret (g x)) st (done n c v o).
Proof using Hinv.
  intros Hop Hgood Hc. apply post_map.
  eapply post_mono; [apply (path_call _ _ op (λ node r v' _, spec node r v') n st v (FS_Load_loads (11 + n) st v path Hview Htree) Hview)|].
  - intros node s Hsel Hs Hh. destruct (sel_node_ok _ _ _ Htree Hsel). by apply Hop.
  - intros r st' (v' & Hst & Hd & H). exists v', o. split.
    + eapply inv_done; [exact Hinv|done|done|]. destruct (sel_node v path) as [node|e] eqn:E.
      * destruct (sel_node_ok _ _ _ Htree E). by eapply Hgood.
      * destruct H as [_ ->]. apply Hinv.
    + apply Hc, sel_node_spec. destruct (sel_node v path); [done|]. by destruct H as [-> ->].
Qed.
Lemma typed_call {A} path ty wrong (load : M (filesystem S) CryNode) (op : CryNode → M (fs S) A) (spec : CryNode → result A → gmap bytes vnode → Prop) (g : A → value) (c : call) :
  post load st (loads (12 + n) st v (sel_typed v path ty wrong)) →
  (∀ node s, node_ok root v node → node_type node = ty → fs_view (12 + n) s v → held s node →
    post (op node) s (λ r s', ∃ v', vdone n s v' s' ∧ spec node r v')) →
  (∀ node r v', node_ok root v node → node_type node = ty → spec node r v' → good root v' o) →
  (∀ r v', at_typed root v path ty wrong (x ← r ; Ok (g x)) v' (λ node, spec node r v') → call_spec c v o (x ← r ; Ok (g x)) v' o) →
  post (x ← (node ← load ; on_device (op node)) ; mret (g x)) st (done n c v o).
Proof using Hinv.
  intros Hload Hop Hgood Hc. apply post_map.
  eapply post_mono; [apply (path_call _ _ op (λ node r v' _, spec node r v') n st v Hload Hview)|].
  - intros node s Hsel Hs Hh. destruct (sel_typed_ok _ _ _ _ _ Htree Hsel). by apply Hop.
  - intros r st' (v' & Hst & Hd & H). exists v', o. split.
    + eapply inv_done; [exact Hinv|done|done|]. destruct (sel_typed v path ty wrong) as [node|e] eqn:E.
      * destruct (sel_typed_ok _ _ _ _ _ Htree E). by eapply Hgood.
      * destruct H as [_ ->]. apply Hinv.
    + apply Hc, sel_typed_spec. destruct (sel_typed v path ty wrong); [done|]. by destruct H as [-> ->].
Qed.
Local Lemma LoadDir_loads path : post (FS_LoadDir root path) st (loads (12 + n) st v (sel_typed v path DIR ENOTDIR)).
Proof using Hinv. by apply (or_eio_loads (11 + n)); [|apply Hview|apply Htree]. Qed.
Local Lemma LoadFile_loads path : post (FS_LoadFile root path) st (loads (12 + n) st v (sel_typed v path FILE EISDIR)).
Proof using Hinv. by apply (or_eio_loads (11 + n)); [|apply Hview|apply Htree]. Qed.
Local Lemma LoadSymlink_loads path : post (FS_LoadSymlink root path) st (loads (12 + n) st v (sel_typed v path SYMLINK ENOTDIR)).
Proof using Hinv. by apply (or_eio_loads (11 + n)); [|apply Hview|apply Htree]. Qed.

(** A computation that leaves the tree alone. *)
Lemma post_same {A} (m : M (fs S) A) (s : fs S) (k : nat) (Q : A → fs S → Prop) (spec : result A → gmap bytes vnode → Prop) :
  runs m s Q → (∀ a s', Q a s' → vbecame (k + n) s v s' ∧ spec (Ok a) v) → post m s (λ r s', ∃ v', vdone n s v' s' ∧ spec r v').
Proof.
  intros H HQ. eapply post_runs; [exact H|]. intros a s' Ha. destruct (HQ _ _ Ha) as [Hb Hspec]. exists v. split; [|done].
  eapply vbecame_done, (vbecame_le (k + n)); [lia|done].
Qed.
Local Lemma good_v : good root v o. Proof using Hinv. apply Hinv. Qed.

Lemma mkdir_call path mode uid gid : call_ok (CMkdir path mode uid gid) v o →
  post (run_call uninit clock startpos behavior getuid getgid root (CMkdir path mode uid gid)) st (done n (CMkdir path mode uid gid) v o).
Proof using Hinv startpos_ok clock_ok.
  intros Hok. eapply (typed_call (parent_path path) DIR ENOTDIR _ _ (λ dir r v', ∃ id, create_spec v (CryFs._blockId dir) (filename path) (VDir ∅) id r v')); [apply LoadDir_loads|..].
  - intros node s Hn Hty Hs Hh. eapply post_mono; [eapply (createDir_view clock clock_ok startpos startpos_ok root n); [done|exact Htree|done|done|done|exact Hok]|].
    intros r s' (id & v' & Hb & Hc). exists v'. split; [by apply vbecame_done|by exists id].
  - intros node r v' Hn Hty (id & Hc). exact (good_create root _ _ _ _ (VDir ∅) _ _ _ good_v Hn eq_refl Hc).
  - intros r v' H. split; [|done]. destruct r as [[]|]; exact H.
Qed.
Lemma symlink_call target path uid gid : call_ok (CSymlink target path uid gid) v o →
  post (run_call uninit clock startpos behavior getuid getgid root (CSymlink target path uid gid)) st (done n (CSymlink target path uid gid) v o).
Proof using Hinv startpos_ok clock_ok.
  intros (Hok & Ht & Hl). eapply (typed_call (parent_path path) DIR ENOTDIR _ _ (λ dir r v', ∃ id, create_spec v (CryFs._blockId dir) (filename path) (VSymlink target) id r v')); [apply LoadDir_loads|..].
  - intros node s Hn Hty Hs Hh. eapply post_mono; [eapply (createSymlink_view clock clock_ok startpos startpos_ok root n); [done|exact Htree|done..]|].
    intros r s' (id & v' & Hb & Hc). exists v'. split; [by apply vbecame_done|by exists id].
  - intros node r v' Hn Hty (id & Hc). exact (good_create root _ _ _ _ (VSymlink target) _ _ _ good_v Hn I Hc).
  - intros r v' H. split; [|done]. destruct r as [[]|]; exact H.
Qed.

Lemma remove_call c path : c = CRmdir path ∨ c = CUnlink path → call_ok c v o →
  post (run_call uninit clock startpos behavior getuid getgid root c) st (done n c v o).
Proof using Hinv startpos_ok clock_ok uninit_ok.
  intros Hc Hok. assert (for_node root v path (λ node, ¬ busy o (CryFs._blockId node))) as Hb by (by destruct Hc as [->| ->]).
  assert (run_call uninit clock startpos behavior getuid getgid root c = unit_call (node ← FS_Load root path ; on_device (node_remove uninit clock startpos node))) as ->
    by (by destruct Hc as [->| ->]).
  eapply (node_call path _ (remove_spec v)).
  - intros node s Hn Hres Hs Hh. by apply (node_remove_view uninit uninit_ok clock clock_ok startpos startpos_ok root); [|exact Htree|..].
  - intros node r v' Hn Hres H. eapply good_remove; [apply good_v|apply Hdirs|done|by apply Hb|done].
  - intros r v' H. destruct Hc as [->| ->]; (split; [|done]); destruct r as [[]|]; exact H.
Qed.

Lemma rename_call from to : call_ok (CRename from to) v o →
  post (run_call uninit clock startpos behavior getuid getgid root (CRename from to)) st (done n (CRename from to) v o).
Proof using Hinv startpos_ok clock_ok uninit_ok.
  intros ([Hz Hlen] & Hfor).
  assert (∀ s, run_call uninit clock startpos behavior getuid getgid root (CRename from to) s =
    (x ← (node ← FS_Load root from ; on_device (CryFs.rename uninit clock startpos root node to)) ; mret ((λ _, RUnit) x)) s) as E.
  { intros s. unfold run_call, unit_call, FS_rename, mbind, M_bind. destruct (FS_Load root from s) as [[node|] s1]; [|done].
    by destruct (on_device _ s1) as [[|] ?]. }
  unfold post. rewrite E. fold (post (A := value) (S := filesystem S)).
  eapply (node_call from _ (λ node r v', rename_spec root v node to (_ ← r ; Ok tt) v') (λ _, RUnit)).
  - intros node s Hn Hres Hs Hh. destruct (Hfor node Hres) as [Hfine _].
    by apply (rename_view uninit uninit_ok clock clock_ok startpos startpos_ok root); [|exact Htree|..].
  - intros node r v' Hn Hres H. destruct (Hfor node Hres) as [_ Hb]. by eapply good_rename; [apply good_v|apply Hdirs|..].
  - intros r v' H. split; [|done]. assert (void (x ← r ; Ok RUnit) = (_ ← r ; Ok tt)) as E' by (by destruct r). simpl. rewrite E'. exact H.
Qed.

(** Attributes. *)
Lemma lstat_call path :
  post (run_call uninit clock startpos behavior getuid getgid root (CLstat path)) st (done n (CLstat path) v o).
Proof using Hinv startpos_ok clock_ok.
  eapply (node_call path _ (λ node r v', v' = v ∧ ∃ z x, r = Ok z ∧ v !! CryFs._blockId node = Some x ∧ st_size z = v_size (v_content x)) RStat).
  - intros node s Hn Hres Hs Hh. eapply (post_same _ s 12); [eapply (stat_view clock clock_ok startpos startpos_ok getuid getgid root (11 + n)); [exact Hs|exact Htree|done..]|].
    intros z s' (Hb & x & Hx & Hsz). split; [done|]. split; [done|]. by exists z, x.
  - intros node r v' _ _ [-> _]. apply good_v.
  - intros r v' H. split; [|done]. simpl. unfold at_node in *. destruct (resolve_node root v path) as [[node|]|]; [|done..].
    destruct H as (-> & z & x & -> & H). split; [done|]. by exists z, x.
Qed.

(** Calls that return nothing and change nothing the tree shows. *)
Lemma quiet_call c path (op : CryNode → M (fs S) unit) :
  (∀ s, run_call uninit clock startpos behavior getuid getgid root c s = unit_call (node ← FS_Load root path ; on_device (op node)) s) →
  (∀ r v', at_node root v path ENOENT r v' (λ _, r = Ok RUnit ∧ v' = v) → call_spec c v o r v' o) →
  (∀ node s, node_ok root v node → resolve_node root v path = Ok (Some node) → fs_view (12 + n) s v → held s node → runs (op node) s (λ _ s', vbecame (11 + n) s v s')) →
  post (run_call uninit clock startpos behavior getuid getgid root c) st (done n c v o).
Proof using Hinv.
  intros E Hc Hop. unfold post. rewrite E. eapply (node_call path op (λ _ r v', r = Ok tt ∧ v' = v) (λ _, RUnit)).
  - intros node s Hn Hres Hs Hh. eapply (post_same _ s 11); [by apply Hop|]. by intros [] s' Hb.
  - intros node r v' _ _ [_ ->]. apply good_v.
  - intros r v' H. apply Hc. unfold at_node in *. destruct (resolve_node root v path) as [[node|]|]; [|done..]. by destruct H as [-> ->].
Qed.
Lemma chmod_call path mode : call_ok (CChmod path mode) v o →
  post (run_call uninit clock startpos behavior getuid getgid root (CChmod path mode)) st (done n (CChmod path mode) v o).
Proof using Hinv startpos_ok clock_ok.
  intros [Hr Hm]. apply (quiet_call _ path (λ node, chmod clock startpos node mode)); [done|by split|].
  intros node s Hn Hres Hs Hh. eapply chmod_view; try done. by apply Hm.
Qed.
Lemma chown_call path uid gid : call_ok (CChown path uid gid) v o →
  post (run_call uninit clock startpos behavior getuid getgid root (CChown path uid gid)) st (done n (CChown path uid gid) v o).
Proof using Hinv startpos_ok clock_ok.
  intros [Hu Hg]. apply (quiet_call _ path (λ node, chown clock startpos node uid gid)); [done|by split|].
  intros node s Hn Hres Hs Hh. by eapply chown_view.
Qed.
Lemma utimens_call path a m : call_ok (CUtimens path a m) v o →
  post (run_call uninit clock startpos behavior getuid getgid root (CUtimens path a m)) st (done n (CUtimens path a m) v o).
Proof using Hinv startpos_ok clock_ok.
  intros [Hu Hg]. apply (quiet_call _ path (λ node, utimens clock startpos node a m)); [done|by split|].
  intros node s Hn Hres Hs Hh. by eapply utimens_view.
Qed.
Lemma access_call path :
  post (run_call uninit clock startpos behavior getuid getgid root (CAccess path)) st (done n (CAccess path) v o).
Proof using Hinv.
  apply (quiet_call _ path (λ _, mret tt)).
  - intros s. unfold run_call, unit_call, FS_access, mbind, M_bind. destruct (FS_Load root path s) as [[node|] s1]; [|done]. by destruct s1.
  - by split.
  - intros node s Hn Hres Hs Hh. apply runs_ret, vbecame_refl. eapply fs_view_le; [|exact Hs]. lia.
Qed.

(** Content. *)
Lemma truncate_call path k : call_ok (CTruncate path k) v o →
  post (run_call uninit clock startpos behavior getuid getgid root (CTruncate path k)) st (done n (CTruncate path k) v o).
Proof using Hinv startpos_ok clock_ok.
  intros Hk. eapply (typed_call path FILE EISDIR _ _ (λ node r v', r = Ok tt ∧ ∃ q c, v !! CryFs._blockId node = Some (mkV q (VFile c)) ∧ v' = vwrite (CryFs._blockId node) (resize_bytes c k) v) (λ _, RUnit)); [apply LoadFile_loads|..].
  - intros node s Hn Hty Hs Hh. destruct (node_exists _ _ _ Htree Hn) as ([q [c| |]] & Hx & Htx & _); rewrite Hty in Htx; try done.
    eapply post_runs; [eapply (truncate_view clock clock_ok startpos startpos_ok root (10 + n)); [exact Hs|exact Htree|done|done|exact Hx|exact Hk]|].
    intros [] s' Hb. eexists. split; [eapply vbecame_done, (vbecame_le (10 + n)); [lia|exact Hb]|]. split; [done|]. exists q, c. split; [done|].
    by rewrite (vwrite_eq _ _ _ _ _ Hx).
  - intros node r v' _ _ (_ & q & c & Hx & ->). eapply good_write; [apply good_v|exact Hx].
  - intros r v' H. split; [|done]. simpl. unfold at_typed, at_node in *. destruct (resolve_node root v path) as [[node|]|]; [|done..].
    case_decide; [|done]. by destruct H as (-> & H).
Qed.

Lemma readdir_call path :
  post (run_call uninit clock startpos behavior getuid getgid root (CReadDir path)) st (done n (CReadDir path) v o).
Proof using Hinv startpos_ok clock_ok.
  eapply (typed_call path DIR ENOTDIR _ _ (λ node r v', v' = v ∧ ∃ l, r = Ok ((DIR, dot) :: (DIR, dotdot) :: l) ∧ l ≡ₚ (map_to_list (entries_of v (CryFs._blockId node))).*2) RList); [apply LoadDir_loads|..].
  - intros node s Hn Hty Hs Hh. destruct (node_dir _ _ _ Htree Hn Hty) as (q & e & Hd).
    eapply (post_same _ s 11); [eapply (children_view clock clock_ok startpos startpos_ok behavior root (10 + n)); [exact Hs|exact Htree|done..|exact Hd]|].
    intros l s' (Hb & l' & Hl & ->). split; [done|]. split; [done|]. exists l'. split; [done|]. by rewrite (entries_of_eq _ _ _ _ Hd).
  - intros node r v' _ _ [-> _]. apply good_v.
  - intros r v' H. split; [|done]. simpl. unfold at_typed, at_node in *. destruct (resolve_node root v path) as [[node|]|]; [|done..].
    case_decide; [|done]. destruct H as (-> & l & -> & H). split; [done|]. by exists l.
Qed.

Lemma readsymlink_call path buf : call_ok (CReadSymlink path buf) v o →
  post (run_call uninit clock startpos behavior getuid getgid root (CReadSymlink path buf)) st (done n (CReadSymlink path buf) v o).
Proof using Hinv startpos_ok clock_ok.
  intros Hbuf. set (rest := λ t : bytes, buf' ← lift (Data.memcpy_to buf 0 (take (Nat.min (length t + 1) (length buf)) (t ++ [x00]))) ;
    lift (S := fs S) (Data.memcpy_to buf' (length buf - 1) [x00])).
  assert (∀ s, run_call uninit clock startpos behavior getuid getgid root (CReadSymlink path buf) s =
    (x ← (node ← FS_LoadSymlink root path ; on_device (t ← CryFs.target clock startpos behavior node ; rest t)) ; mret (RBytes x)) s) as E.
  { intros s. unfold run_call, readSymlink, on_device, zoom, mbind, M_bind. destruct (FS_LoadSymlink root path s) as [[node|] s1]; [|done].
    destruct (CryFs.target clock startpos behavior node (device s1)) as [[t|] d]; [|done]. unfold rest, lift, mbind, M_bind.
    destruct (Data.memcpy_to buf 0 _) as [b|]; [|done]. by destruct (Data.memcpy_to b _ _). }
  unfold post. rewrite E.
  eapply (typed_call path SYMLINK ENOTDIR _ _ (λ node r v', v' = v ∧ ∃ q t b, v !! CryFs._blockId node = Some (mkV q (VSymlink t)) ∧ r = Ok b ∧ length b = length buf ∧ SymlinkBlob.c_str b = take (length buf - 1) t) RBytes); [apply LoadSymlink_loads|..].
  - intros node s Hn Hty Hs Hh. destruct (node_exists _ _ _ Htree Hn) as ([q [| |t]] & Hx & Htx & _); rewrite Hty in Htx; try done.
    destruct (readlink_buffer t buf Hbuf (view_symlink_ok _ _ _ _ _ _ Hs Hx)) as (b & Eb & Hlb & Hcb).
    eapply post_bind_runs; [eapply (target_view clock clock_ok startpos startpos_ok behavior root (11 + n)); [exact Hs|exact Htree|done|done|exact Hx]|].
    intros r s' [-> Hb']. unfold post, rest, lift, mbind, M_bind. unfold mbind, result_bind in Eb. destruct (Data.memcpy_to buf 0 _) as [b'|]; [|done]. rewrite Eb. simpl.
    exists v. split; [eapply vbecame_done, (vbecame_le (11 + n)); [lia|done]|]. split; [done|]. by exists q, t, b.
  - intros node r v' _ _ [-> _]. apply good_v.
  - intros r v' H. split; [|done]. simpl. unfold at_typed, at_node in *. destruct (resolve_node root v path) as [[node|]|]; [|done..].
    case_decide; [|done]. destruct H as (-> & q & t & b & H1 & -> & H). split; [done|]. by exists q, t, b.
Qed.

(** *** Descriptors *)
Lemma fd_call {A} fd (m : OpenFile → M (fs S) A) (spec : OpenFile → bytes → result A → gmap bytes vnode → Prop) (g : A → value) (c : call) :
  (∀ f q b s, o !! fd = Some f → v !! f.2 = Some (mkV q (VFile b)) → open_ok v f → fs_view (12 + n) s v → open_held s f →
    post (m f) s (λ r s', (∃ v', vdone n s v' s' ∧ spec f b r v') ∧ r ≠ Throw OutOfRange)) →
  (∀ f q b r v', v !! f.2 = Some (mkV q (VFile b)) → spec f b r v' → good root v' o) →
  (∀ r v', at_fd v o fd (x ← r ; Ok (g x)) v' (λ f b, spec f b r v') → call_spec c v o (x ← r ; Ok (g x)) v' o) →
  post (x ← OpenFileList_load fd (λ f, on_device (m f)) ; mret (g x)) st (done n c v o).
Proof using Hinv.
  intros Hm Hgood Hc. apply post_map. pose proof Hinv as (Hs & [Ht Ho] & Hfiles & Hheld). destruct (o !! fd) as [f|] eqn:Hf.
  - pose proof (Ho fd f Hf) as Hok. pose proof Hok as [_ (q & b & Hx)].
    eapply post_mono; [eapply (OpenFileList_load_post _ _ _ _ _ m (λ r d, ∃ v', vdone n (device st) v' d ∧ spec f b r v')); [exact Hfiles|exact Hf|]|].
    + by apply (Hm f q b (device st) eq_refl Hx Hok Hs), (Hheld fd).
    + intros r st' [(v' & Hd & Hspec) Hst]. exists v', o. split.
      * eapply inv_done; [exact Hinv|done|done|by eapply Hgood].
      * apply Hc. unfold at_fd. rewrite Hf. by exists q, b.
  - unfold post. rewrite (OpenFileList_load_missing _ _ _ _ _ Hfiles Hf). exists v, o. split.
    + eapply inv_done; [exact Hinv|apply stays_refl|apply vbecame_done, vbecame_refl|done]. eapply fs_view_le; [|exact Hs]. lia.
    + apply (Hc (Throw (FuseErrno EBADF)) v). unfold at_fd. by rewrite Hf.
Qed.

Lemma fstat_call fd : post (run_call uninit clock startpos behavior getuid getgid root (CFstat fd)) st (done n (CFstat fd) v o).
Proof using Hinv startpos_ok.
  eapply (fd_call fd _ (λ f b r v', v' = v ∧ if in_place v f then ∃ z, r = Ok z ∧ st_size z = Z.of_nat (length b) else r = Throw (FuseErrno ENOENT)) RStat).
  - intros f q b s Hf Hx Hok Hs Hh. eapply post_mono; [eapply (openfile_stat_view startpos startpos_ok (11 + n)); [exact Hs|done|done|exact Hx]|].
    intros r s' [Hb H]. split; [|destruct (in_place v f); [by destruct H as (? & -> & _)|by rewrite H]].
    exists v. split; [|done]. eapply vbecame_done, (vbecame_le (12 + n)); [lia|done].
  - intros f q b r v' _ [-> _]. apply good_v.
  - intros r v' H. split; [|done]. simpl. unfold at_fd in *. destruct (o !! fd) as [f|]; [|done]. destruct H as (q & b & Hx & -> & H). exists q, b.
    split; [done|]. split; [done|]. destruct (in_place v f); [destruct H as (z & -> & H); by exists z|by rewrite H].
Qed.
Lemma ftruncate_call fd k : call_ok (CFtruncate fd k) v o →
  post (run_call uninit clock startpos behavior getuid getgid root (CFtruncate fd k)) st (done n (CFtruncate fd k) v o).
Proof using Hinv startpos_ok clock_ok.
  intros Hk. eapply (fd_call fd _ (λ f b r v', v' = vwrite f.2 (resize_bytes b k) v ∧ r = if in_place v f then Ok tt else Throw (FuseErrno ENOENT)) (λ _, RUnit)).
  - intros f q b s Hf Hx Hok Hs Hh. eapply post_mono; [eapply (openfile_truncate_view clock clock_ok startpos startpos_ok (10 + n)); [exact Hs|done|done|exact Hx|exact Hk]|].
    intros r s' [Hb ->]. split; [|by destruct (in_place v f)].
    eexists. split; [|done]. eapply vbecame_done, (vbecame_le (10 + n)); [lia|done].
  - intros f q b r v' Hx [-> _]. eapply good_write; [apply good_v|exact Hx].
  - intros r v' H. split; [|done]. simpl. unfold at_fd in *. destruct (o !! fd) as [f|]; [|done]. destruct H as (q & b & Hx & -> & ->). exists q, b.
    split; [done|]. split; [done|]. by destruct (in_place v f).
Qed.
Lemma read_call fd k off : call_ok (CRead fd k off) v o →
  post (run_call uninit clock startpos behavior getuid getgid root (CRead fd k off)) st (done n (CRead fd k off) v o).
Proof using Hinv startpos_ok clock_ok.
  intros [Hoff Hk]. eapply (fd_call fd _ (λ f b r v', v' = v ∧ r = if in_place v f then Ok (slice off k b) else Throw (FuseErrno ENOENT)) RBytes).
  - intros f q b s Hf Hx Hok Hs Hh. eapply post_mono; [eapply (openfile_read_view clock clock_ok startpos startpos_ok behavior (11 + n)); [exact Hs|done|done|exact Hx|done|done]|].
    intros r s' [Hb ->]. split; [|by destruct (in_place v f)].
    exists v. split; [|done]. eapply vbecame_done, (vbecame_le (11 + n)); [lia|done].
  - intros f q b r v' _ [-> _]. apply good_v.
  - intros r v' H. split; [|done]. simpl. unfold at_fd in *. destruct (o !! fd) as [f|]; [|done]. destruct H as (q & b & Hx & -> & ->). exists q, b.
    split; [done|]. split; [done|]. by destruct (in_place v f).
Qed.
Lemma write_call fd buf off : call_ok (CWrite fd buf off) v o →
  post (run_call uninit clock startpos behavior getuid getgid root (CWrite fd buf off)) st (done n (CWrite fd buf off) v o).
Proof using Hinv startpos_ok clock_ok.
  intros Hk. eapply (fd_call fd _ (λ f b r v', if in_place v f then r = Ok tt ∧ v' = vwrite f.2 (write_bytes b off buf) v else r = Throw (FuseErrno ENOENT) ∧ v' = v) (λ _, RUnit)).
  - intros f q b s Hf Hx Hok Hs Hh. eapply post_mono; [eapply (openfile_write_view clock clock_ok startpos startpos_ok (10 + n)); [exact Hs|done|done|exact Hx|exact Hk]|].
    intros r s' (v' & Hb & H). split; [|by destruct (in_place v f); destruct H as [-> _]].
    exists v'. split; [|done]. eapply vbecame_done, (vbecame_le (10 + n)); [lia|done].
  - intros f q b r v' Hx H. destruct (in_place v f); destruct H as [_ ->]; [eapply good_write; [apply good_v|exact Hx]|apply good_v].
  - intros r v' H. split; [|done]. simpl. unfold at_fd in *. destruct (o !! fd) as [f|]; [|done]. destruct H as (q & b & Hx & H). exists q, b.
    split; [done|]. by destruct (in_place v f); destruct H as [-> ->].
Qed.

(** Flushing. *)
Lemma sync_call c fd (m : OpenFile → M (fs S) unit) :
  run_call uninit clock startpos behavior getuid getgid root c = unit_call (OpenFileList_load fd (λ f, on_device (m f))) →
  (∀ r v', at_fd v o fd r v' (λ _ _, r = Ok RUnit ∧ v' = v) → call_spec c v o r v' o) →
  (∀ f s, fs_view (12 + n) s v → open_ok v f → open_held s f → runs (m f) s (λ _ s', vbecame (10 + n) s v s')) →
  post (run_call uninit clock startpos behavior getuid getgid root c) st (done n c v o).
Proof using Hinv.
  intros -> Hc Hm. eapply (fd_call fd _ (λ f b r v', r = Ok tt ∧ v' = v) (λ _, RUnit)).
  - intros f q b s Hf Hx Hok Hs Hh. eapply post_runs; [by apply Hm|]. intros [] s' Hb. split; [|done].
    exists v. split; [|done]. eapply vbecame_done, (vbecame_le (10 + n)); [lia|done].
  - intros f q b r v' _ [_ ->]. apply good_v.
  - intros r v' H. apply Hc. unfold at_fd in *. destruct (o !! fd) as [f|]; [|done]. destruct H as (q & b & Hx & -> & ->). by exists q, b.
Qed.
Lemma flush_call fd : post (run_call uninit clock startpos behavior getuid getgid root (CFlush fd)) st (done n (CFlush fd) v o).
Proof using Hinv uninit_ok.
  apply (sync_call _ fd (openfile_flush uninit)); [done|by split|]. intros f s Hs Hok Hh. by apply openfile_flush_view.
Qed.
Lemma fsync_call fd : post (run_call uninit clock startpos behavior getuid getgid root (CFsync fd)) st (done n (CFsync fd) v o).
Proof using Hinv uninit_ok.
  apply (sync_call _ fd (openfile_fsync uninit)); [done|by split|]. intros f s Hs Hok Hh. by apply (openfile_flush_view uninit).
Qed.
Lemma fdatasync_call fd : post (run_call uninit clock startpos behavior getuid getgid root (CFdatasync fd)) st (done n (CFdatasync fd) v o).
Proof using Hinv.
  apply (sync_call _ fd openfile_fdatasync); [done|by split|]. intros f s Hs Hok Hh. eapply runs_mono; [by eapply openfile_fdatasync_view|].
  intros [] s' Hb. eapply vbecame_le; [|exact Hb]. lia.
Qed.

Lemma statfs_call : post (run_call uninit clock startpos behavior getuid getgid root CStatfs) st (done n CStatfs v o).
Proof using Hinv.
  assert (runs CryFs.statfs (device st) (λ r s', vbecame (12 + n) (device st) v s' ∧ ∃ used free size, (stdpp.base.size v ≤ used)%nat ∧
      let total := u64 (u64 (Z.of_nat used) + free) in r = mkStatvfs 255 (u32 size) total free free total free free)) as H.
  { eapply runs_bind; [apply (ask_view _ _ _ _ (λ r, ∃ k, (size v ≤ k)%nat ∧ r = u64 (Z.of_nat k)) Hview)|].
    { intros b mm <- Hb. by apply blobs_numBlocks_spec. }
    intros used s1 [(k & Hk & ->) [Hv1 Hk1]].
    eapply runs_bind; [apply (ask_view _ _ _ _ (λ _, True) Hv1)|].
    { intros b mm _ Hb. eapply runs_mono; [by apply blobs_estimate_spec|]. done. }
    intros free s2 [_ [Hv2 Hk2]].
    eapply runs_bind; [apply (ask_view _ _ _ _ (λ _, True) Hv2)|].
    { intros b mm _ Hb. eapply runs_mono; [by apply blobs_blocksize_spec|]. done. }
    intros size s3 [_ [Hv3 Hk3]]. apply runs_ret. split; [split; [done|by eapply keeps_trans, keeps_trans]|]. by exists k, free, size. }
  apply post_map. unfold FS_statfs. apply post_map.
  eapply post_mono; [apply (post_on_device _ _ (λ r s', ∃ z, r = Ok z ∧ vbecame (12 + n) (device st) v s' ∧ ∃ used free size, (stdpp.base.size v ≤ used)%nat ∧
      let total := u64 (u64 (Z.of_nat used) + free) in z = mkStatvfs 255 (u32 size) total free free total free free)); eapply post_runs; [exact H|]|].
  { intros r s' HQ. by exists r. }
  intros r st' [(z & -> & Hb & used & free & size & Hu & ->) Hst]. exists v, o. split; [|split; [|done]].
  - eapply inv_done; [exact Hinv|done| |apply good_v]. eapply vbecame_done, (vbecame_le (12 + n)); [lia|done].
  - split; [done|]. eexists. split; [done|]. by exists used, free, size.
Qed.

(** *** Opening and closing *)
Lemma inv_open st1 v' f : fs_view n (device st1) v' → good root v' o → open_ok v' f → open_held (device st1) f → held_all (device st1) o →
  files_are (Datatypes.S n) st1 o →
  runs (OpenFileList_open f) st1 (λ fd st2, o !! fd = None ∧ fs_inv n st2 v' (<[fd := f]> o)).
Proof.
  intros Hs [Ht Ho] Hok Hh Hall Hf. eapply runs_mono; [by apply OpenFileList_open_runs|]. intros fd st2 (Hfd & Hf2 & Hdev). split; [done|].
  split; [by rewrite Hdev|]. split; [split; [done|]|split; [done|]].
  - intros fd' f'. destruct (decide (fd = fd')) as [<-|]; [rewrite lookup_insert_eq; by intros [= <-]|]. rewrite lookup_insert_ne by done. apply Ho.
  - rewrite Hdev. intros fd' f'. destruct (decide (fd = fd')) as [<-|]; [rewrite lookup_insert_eq; by intros [= <-]|].
    rewrite lookup_insert_ne by done. apply Hall.
Qed.
Local Lemma held_after st1 v' : vdone n (device st) v' (device st1) → good root v' o → held_all (device st1) o.
Proof using Hinv.
  intros [_ Hk] [_ Ho] fd f Hf. destruct Hinv as (_ & _ & _ & Hh). destruct (Hh fd f Hf) as [H1 H2].
  destruct (Ho fd f Hf) as [(pp & e & Hd) (q & c & Hx)]. split; (apply Hk; [|done]); by eexists.
Qed.
Local Lemma files_after st1 : stays st st1 → files_are (Datatypes.S n) st1 o.
Proof using Hinv. intros Hst. eapply files_stay; [exact Hst|]. destruct Hinv as (_ & _ & Hf & _). eapply files_le; [|exact Hf]. lia. Qed.

Lemma open_call path : post (run_call uninit clock startpos behavior getuid getgid root (COpen path)) st (done n (COpen path) v o).
Proof using Hinv.
  assert (∀ s, run_call uninit clock startpos behavior getuid getgid root (COpen path) s =
    (f ← (node ← FS_LoadFile root path ; on_device (CryFs.open node)) ; fd ← OpenFileList_open f ; mret (RFd fd)) s) as E.
  { intros s. unfold run_call, openFile, mbind, M_bind. destruct (FS_LoadFile root path s) as [[node|] s1]; [|done].
    by destruct (on_device _ s1) as [[|] ?]. }
  unfold post. rewrite E. eapply post_bind.
  - apply (path_call _ _ (λ node, CryFs.open node) (λ node r v' s', v' = v ∧ ∃ p, _parent node = Some p ∧ r = Ok (p, CryFs._blockId node) ∧ open_held s' (p, CryFs._blockId node))
      n st v (LoadFile_loads path) Hview).
    intros node s Hsel Hs Hh. destruct (sel_typed_ok _ _ _ _ _ Htree Hsel) as [Hn Hty].
    eapply post_runs; [by eapply open_view; [exact Hs|exact Htree|..]|]. intros [p i] s' (Hb & Hp & Hi & Hl). simpl in *. exists v.
    split; [eapply vbecame_done, (vbecame_le (12 + n)); [lia|done]|]. split; [done|]. exists p. by rewrite <- Hi.
  - intros f st1 (v' & Hst & Hd & H). destruct (sel_typed v path FILE EISDIR) as [node|e] eqn:Esel; [|by destruct H].
    destruct H as (-> & p & Hp & [= ->] & Hl). destruct (sel_typed_ok _ _ _ _ _ Htree Esel) as [Hn Hty].
    eapply post_bind_runs.
    + apply (inv_open st1 v (p, CryFs._blockId node)); [apply Hd|apply good_v| |done|by eapply held_after; [|apply good_v]|by apply files_after].
      destruct (node_entry _ _ _ _ Hn Hp) as (pp & e & name & Hdp & _). split; [by exists pp, e|].
      destruct (node_exists _ _ _ Htree Hn) as ([q [c| |]] & Hx & Htx & _); rewrite Hty in Htx; try done. by exists q, c.
    + intros fd st2 [Hfd Hi]. apply post_ret. eexists v, _. split; [exact Hi|]. split; [|done]. apply sel_typed_spec. rewrite Esel.
      split; [done|]. by exists fd, p.
  - intros e st1 (v' & Hst & Hd & H). exists v', o. destruct (sel_typed v path FILE EISDIR) as [node|e'] eqn:Esel; [by destruct H as (_ & p & _ & ? & _)|].
    destruct H as [[= <-] ->]. split; [eapply inv_done; [exact Hinv|done|done|apply good_v]|]. split; [|done].
    apply sel_typed_spec. by rewrite Esel.
Qed.

Lemma create_call path mode uid gid : call_ok (CCreate path mode uid gid) v o →
  post (run_call uninit clock startpos behavior getuid getgid root (CCreate path mode uid gid)) st (done n (CCreate path mode uid gid) v o).
Proof using Hinv startpos_ok clock_ok.
  intros Hok. assert (∀ s, run_call uninit clock startpos behavior getuid getgid root (CCreate path mode uid gid) s =
    (f ← (node ← FS_LoadDir root (parent_path path) ; on_device (CryFs.createAndOpenFile clock startpos node (filename path) mode uid gid)) ; fd ← OpenFileList_open f ; mret (RFd fd)) s) as E.
  { intros s. unfold run_call, FS_createAndOpenFile, mbind, M_bind. destruct (FS_LoadDir root (parent_path path) s) as [[node|] s1]; [|done].
    by destruct (on_device _ s1) as [[|] ?]. }
  unfold post. rewrite E. eapply post_bind.
  - apply (path_call _ _ (λ node, CryFs.createAndOpenFile clock startpos node (filename path) mode uid gid)
      (λ node r v' s', ∃ id, create_spec v (CryFs._blockId node) (filename path) (VFile []) id (_ ← r ; Ok tt) v' ∧
        ∀ f, r = Ok f → f = (CryFs._blockId node, id) ∧ open_held s' f) n st v (LoadDir_loads (parent_path path)) Hview).
    intros node s Hsel Hs Hh. destruct (sel_typed_ok _ _ _ _ _ Htree Hsel) as [Hn Hty].
    eapply post_mono; [eapply (createAndOpenFile_view clock clock_ok startpos startpos_ok root n); [done|exact Htree|done|done|done|exact Hok]|].
    intros r s' (id & v' & Hb & Hc & Hl). exists v'. split; [by apply vbecame_done|]. exists id. split; [done|]. intros f Hr. by destruct (Hl f Hr) as (-> & ?).
  - intros f st1 (v' & Hst & Hd & H). destruct (sel_typed v (parent_path path) DIR ENOTDIR) as [node|e] eqn:Esel; [|by destruct H].
    destruct H as (id & Hc & Hl). destruct (Hl f eq_refl) as [-> Hh]. destruct (sel_typed_ok _ _ _ _ _ Htree Esel) as [Hn Hty].
    assert (good root v' o) as Hgood by exact (good_create root _ _ _ _ (VFile []) _ _ _ good_v Hn I Hc).
    eapply post_bind_runs.
    + apply (inv_open st1 v' (CryFs._blockId node, id)); [apply Hd|done| |done|by eapply held_after|by apply files_after].
      destruct Hc as (Hid & p & e & Hdir & Hc). destruct (vfind (filename path) e); [by destruct Hc|]. destruct Hc as [_ ->].
      apply open_ok_type. simpl. unfold vcreate, vlink. rewrite !vtype_on_dir. unfold vtype, vnew. rewrite lookup_insert_eq. split; [|done].
      rewrite lookup_insert_ne by (intros ->; unfold dir_at in Hdir; congruence). unfold dir_at in Hdir. by rewrite Hdir.
    + intros fd st2 [Hfd Hi]. apply post_ret. eexists v', _. split; [exact Hi|]. split; [|done]. apply sel_typed_spec. rewrite Esel.
      exists id. split; [exact Hc|]. intros x [= <-]. by exists fd.
  - intros e st1 (v' & Hst & Hd & H). exists v', o. split.
    + eapply inv_done; [exact Hinv|done|done|]. destruct (sel_typed v (parent_path path) DIR ENOTDIR) as [node|e'] eqn:Esel.
      * destruct H as (id & Hc & _). destruct (sel_typed_ok _ _ _ _ _ Htree Esel) as [Hn Hty]. exact (good_create root _ _ _ _ (VFile []) _ _ _ good_v Hn I Hc).
      * destruct H as [_ ->]. apply good_v.
    + split; [|done]. apply sel_typed_spec. destruct (sel_typed v (parent_path path) DIR ENOTDIR) as [node|e']; [|by destruct H as [[= ->] ->]].
      destruct H as (id & Hc & _). by exists id.
Qed.

Lemma close_call fd : post (run_call uninit clock startpos behavior getuid getgid root (CClose fd)) st (done n (CClose fd) v o).
Proof using Hinv.
  destruct Hinv as (Hs & [Ht Ho] & Hf & Hh). eapply (post_map _ (λ _, RUnit)). eapply post_mono; [by apply OpenFileList_close_eq|].
  intros r st1 (Hdev & Hf1 & ->). exists v, (delete fd o). split.
  - split; [rewrite Hdev; eapply fs_view_le; [|exact Hs]; lia|]. split; [split; [done|]|split].
    + intros fd' f Hf'. apply lookup_delete_Some in Hf' as [_ Hf']. by eapply Ho.
    + eapply files_le; [|exact Hf1]. lia.
    + rewrite Hdev. intros fd' f Hf'. apply lookup_delete_Some in Hf' as [_ Hf']. by eapply Hh.
  - split; [|done]. split; [done|]. split; [done|]. by case_decide.
Qed.

Lemma evict_call id : call_ok (CEvict id) v o →
  post (run_call uninit clock startpos behavior getuid getgid root (CEvict id)) st (done n (CEvict id) v o).
Proof using Hinv uninit_ok.
  intros Hb. pose proof Hinv as (Hs & Hg & Hf & Hh). eapply (post_map _ (λ _, RUnit)).
  assert (runs (evict_if_loaded uninit id) (device st) (λ _ s', fs_view n s' v ∧ ∀ i, i ≠ id → loaded (device st) i → loaded s' i)) as Hev.
  { apply runs_bind_get. case_decide as Hl.
    - pose proof Hs as (a & Ha & E). pose proof Ha as (_ & m & _ & Hm). specialize (Hm id).
      destruct (a !! id) as [x|] eqn:Ex; [|destruct Hm as [_ Hm]; destruct Hl as [? Hl]; congruence].
      eapply runs_mono; [eapply (evict_view uninit uninit_ok (10 + n)); [exact Hs| |done]; by rewrite <- E, view_lookup, Ex|].
      intros [] s' [H1 H2]. split; [|done]. eapply fs_view_le; [|exact H1]. lia.
    - apply runs_ret. split; [eapply fs_view_le; [|exact Hs]; lia|done]. }
  eapply post_mono; [apply (post_on_device _ _ (λ r s', (fs_view n s' v ∧ ∀ i, i ≠ id → loaded (device st) i → loaded s' i) ∧ r = Ok tt));
    eapply post_runs; [exact Hev|by intros [] s' H]|].
  intros r st1 [[[H1 H2] ->] Hst]. exists v, o. split; [|done]. split; [done|]. split; [done|]. split.
  - eapply files_le; [|by eapply files_stay]. lia.
  - intros fd f Hfd. destruct (Hh fd f Hfd). split; (apply H2; [|done]); intros E; apply Hb; exists fd, f; auto.
Qed.
End at_state.

Lemma run_call_spec n st v o c : fs_inv (12 + n) st v o → call_ok c v o →
  post (run_call uninit clock startpos behavior getuid getgid root c) st (done n c v o).
Proof using uninit_ok clock_ok startpos_ok.
  intros Hinv Hok. destruct c.
  - by apply open_call.
  - by apply create_call.
  - by apply close_call.
  - by apply mkdir_call.
  - by apply symlink_call.
  - eapply remove_call; auto.
  - eapply remove_call; auto.
  - by apply rename_call.
  - by apply lstat_call.
  - by apply access_call.
  - by apply chmod_call.
  - by apply chown_call.
  - by apply utimens_call.
  - by apply truncate_call.
  - by apply readdir_call.
  - by apply readsymlink_call.
  - by apply fstat_call.
  - by apply ftruncate_call.
  - by apply read_call.
  - by apply write_call.
  - by apply flush_call.
  - by apply fsync_call.
  - by apply fdatasync_call.
  - by apply statfs_call.
  - by apply evict_call.
Qed.

Lemma run_calls_spec cs : ∀ n st v o, fs_inv (12 * length cs + n) st v o → calls_ok root max_blob cs v o →
  ∃ v' o', fs_inv n (run_calls uninit clock startpos behavior getuid getgid root cs st).2 v' o' ∧
    calls_spec root cs v o (run_calls uninit clock startpos behavior getuid getgid root cs st).1 v' o'.
Proof using uninit_ok clock_ok startpos_ok.
  induction cs as [|c cs IH]; intros n st v o Hinv Hok; [by exists v, o|]. destruct Hok as [Hc Hcs].
  assert (fs_inv (12 + (12 * length cs + n)) st v o) as Hinv1.
  { replace (12 + (12 * length cs + n))%nat with (12 * length (c :: cs) + n)%nat by (simpl; lia). done. }
  pose proof (run_call_spec _ _ _ _ _ Hinv1 Hc) as Hpost. unfold post in Hpost. simpl.
  destruct (run_call uninit clock startpos behavior getuid getgid root c st) as [r st1]. destruct Hpost as (v1 & o1 & Hinv2 & Hspec).
  simpl in Hinv2, Hspec. destruct (IH n st1 v1 o1 Hinv2 (Hcs _ _ _ Hspec)) as (v' & o' & H1 & H2).
  destruct (run_calls uninit clock startpos behavior getuid getgid root cs st1) as [rs st2]. exists v', o'. split; [done|]. by exists v1, o1.
Qed.
End calls.
