(* ===== verification/FsAttrs.v ===== *)
(** * The attributes of nodes

    The tree of FsTree.v forgets modes, owners and times. [attrs_set] says
    what [chmod], [chown] and [utimens] do to them, as [lstat] shows it: the
    attributes of the node are the new ones, its other attributes and those
    of every other node are as before. *)
From S2P Require Import Prelude Serialization DirEntry DirEntryList DirSpec Directory FsBlobs FsBlobSpec FsTree FsObjects FsObjSpec FsDirSpec FsView CryFs CrySpec RenameSpec FilesystemImpl OpenFiles Filesystem FsRefine NodeSpec BlobModel.
From Stdlib Require Import Lia ZArith.
Open Scope Z_scope.
Import DirEntry.

(** ** What the calls mean *)
Definition attr_path (c : call) : option (list bytes) :=
  match c with CChmod path _ | CChown path _ _ | CUtimens path _ _ => Some path | _ => None end.
(** The time of the last change of the attributes may be a new one. *)
Definition with_attrs (c : call) (t : timespec) (x : stat_info) : stat_info :=
  match c with
  | CChmod _ mode => mkStat (st_nlink x) mode (st_uid x) (st_gid x) (st_size x) (st_blocks x) (st_atime x) (st_mtime x) t
  | CChown _ uid gid =>
      mkStat (st_nlink x) (st_mode x) (if decide (uid = u32 (-1)) then st_uid x else uid) (if decide (gid = u32 (-1)) then st_gid x else gid)
        (st_size x) (st_blocks x) (st_atime x) (st_mtime x) t
  | CUtimens _ a m => mkStat (st_nlink x) (st_mode x) (st_uid x) (st_gid x) (st_size x) (st_blocks x) a m t
  | _ => x
  end.
(** ... for the entry of the node. *)
Definition entry_change (c : call) : DirEntry.t → DirEntry.t → Prop :=
  match c with CChmod _ mode => mode_set mode | CChown _ uid gid => owner_set uid gid | CUtimens _ a m => times_set a m | _ => any_change end.
Lemma entry_change_stat c path x x' k : attr_path c = Some path → entry_change c x x' →
  ∃ t, dirEntryToStatInfo x' k = with_attrs c t (dirEntryToStatInfo x k).
Proof.
  destruct c; try done; intros _.
  - intros [t ->]. by exists t.
  - intros (y & [t ->] & [t' ->]). exists (_lastMetadataChangeTime (if decide (gid ≠ u32 (-1)) then setGid gid t' (if decide (uid ≠ u32 (-1)) then setUid uid t x else x) else if decide (uid ≠ u32 (-1)) then setUid uid t x else x)).
    unfold dirEntryToStatInfo, with_attrs. by repeat (case_decide; try (exfalso; tauto)).
  - intros [t ->]. by exists t.
Qed.

Section attrs.
Context {S : Type} `{!BlobStore S} `{!BlobStoreSpec S}.
Context (uninit : nat → bytes) (clock : nat → timespec) (clock_ok : ∀ n, time_ok (clock n)).
Context (startpos : Z → nat → nat) (startpos_ok : ∀ b n, 0 ≤ b < 256 → (0 < n)%nat → (startpos b n < n)%nat).
Context (behavior : TimestampUpdateBehavior) (getuid getgid : Z) (root : bytes).
Implicit Types (s : fs S) (st : filesystem S) (v : gmap bytes vnode) (a : gmap bytes anode) (path : list bytes) (node : CryNode).
Abbreviation run c := (run_call uninit clock startpos behavior getuid getgid root c).

(** The entry of a node, in the directory [p]. *)
Definition entry_at a (p id : bytes) (x : DirEntry.t) : Prop := ∃ pp e, a !! p = Some (mkANode pp (ADir e)) ∧ e !! id = Some x.
Lemma node_entry_at a node p : node_ok root (view a) node → _parent node = Some p → ∃ x, entry_at a p (CryFs._blockId node) x ∧ _type x = node_type node.
Proof.
  intros Hn Hp. destruct (node_entry _ _ _ _ Hn Hp) as (pp & e & name & Hd & He). destruct (view_dir_at _ _ _ _ _ eq_refl Hd) as (e' & Ha & ->).
  rewrite lookup_fmap in He. apply fmap_Some in He as (x & Hx & [= -> _]). exists x. split; [by exists pp, e'|done].
Qed.

(** ** [lstat] *)
Lemma stat_entry n s a node p x y : fs_repr (Datatypes.S n) s a → tree_ok root (view a) → node_ok root (view a) node → held s node →
  _parent node = Some p → entry_at a p (CryFs._blockId node) x → view a !! CryFs._blockId node = Some y →
  runs (stat clock startpos getuid getgid node) s (λ r s', r = dirEntryToStatInfo x (v_size (v_content y)) ∧ became (Datatypes.S n) s a s').
Proof using startpos_ok.
  intros Hs Ht Hn [Hh _] Hp (pp & e & Hd & Hx) Hy. assert (fs_view (Datatypes.S n) s (view a)) as Hv by by exists a.
  unfold stat. rewrite Hp. eapply runs_bind_eq; [by eapply GetChild_by_id_eq, Hh|]. rewrite Hx.
  eapply runs_bind; [by eapply CryNode_LoadBlob_same, node_exists|]. intros r s1 (_ & [[Hv1 Hk1] A1] & Hl1).
  pose proof (A1 a Hs eq_refl) as Hs1. destruct (view_node_at _ _ _ _ eq_refl Hy) as (z & Hz & ->).
  eapply runs_bind; [by eapply lstat_size_spec|]. intros k s2 (-> & Hs2 & Hk2). apply runs_ret. split; [by destruct z as [? []]|].
  split; [done|]. by eapply keeps_trans.
Qed.

Lemma runs_on_device {A} (m : M (fs S) A) st (Q : A → fs S → Prop) : runs m (device st) Q → runs (on_device m) st (λ r st', Q r (device st')).
Proof. intros (r & s' & E & HQ). eexists _, _. split; [unfold on_device, zoom; by rewrite E|done]. Qed.
(** A call on the node of a path that is there. *)
Lemma on_node {A} n st a path node (op : CryNode → M (fs S) A) (Q : A → fs S → Prop) :
  fs_repr (Datatypes.S n) (device st) a → tree_ok root (view a) → resolve_node root (view a) path = Ok (Some node) →
  (∀ s, fs_repr (Datatypes.S n) s a → held s node → runs (op node) s Q) →
  runs (node ← FS_Load root path ; on_device (op node)) st (λ r st', Q r (device st')).
Proof.
  intros Hs Ht Hres Hop. assert (fs_view (Datatypes.S n) (device st) (view a)) as Hv by by exists a.
  destruct (Load_same root path n (device st) (view a) Hv Ht) as (E & [_ A1] & Hh). unfold post in E.
  destruct (Load root path (device st)) as [r s1] eqn:El. simpl in E, A1, Hh. rewrite Hres in E. subst r.
  eapply (runs_bind_eq _ _ _ node (mkFS s1 (_open_files st) (_refcounts st))).
  { unfold FS_Load, on_device, zoom, mbind, M_bind. by rewrite El. }
  apply runs_on_device, Hop; [by apply A1|by apply Hh].
Qed.

Lemma lstat_entry n st a path node p x y : fs_repr (Datatypes.S n) (device st) a → tree_ok root (view a) →
  resolve_node root (view a) path = Ok (Some node) → _parent node = Some p → entry_at a p (CryFs._blockId node) x → view a !! CryFs._blockId node = Some y →
  runs (run (CLstat path)) st (λ r st', r = RStat (dirEntryToStatInfo x (v_size (v_content y))) ∧ fs_repr (Datatypes.S n) (device st') a).
Proof using startpos_ok.
  intros Hs Ht Hres Hp Hx Hy. eapply runs_bind.
  - apply (on_node n st a path node _ (λ r s', r = dirEntryToStatInfo x (v_size (v_content y)) ∧ fs_repr (Datatypes.S n) s' a) Hs Ht Hres). intros s Hs1 Hh.
    eapply runs_mono; [eapply (stat_entry n s a); [done|done|by eapply resolve_node_ok|done..]|]. by intros r s' [-> [H _]].
  - intros r st' [-> H]. by apply runs_ret.
Qed.

(** ** [chmod], [chown] and [utimens] *)
Definition set_entry a (p id : bytes) (x' : DirEntry.t) (a' : gmap bytes anode) : Prop :=
  ∃ pp e, a !! p = Some (mkANode pp (ADir e)) ∧ a' = <[p := mkANode pp (ADir (<[id := x']> e))]> a.
Lemma set_entry_at a p id x' a' q i y : set_entry a p id x' a' → entry_at a q i y →
  entry_at a' q i (if decide (q = p ∧ i = id) then x' else y).
Proof.
  intros (pp & e & Hd & ->) (qq & e' & Hq & Hy). destruct (decide (p = q)) as [<-|Hne].
  - rewrite Hd in Hq. injection Hq as <- <-. exists pp, (<[id := x']> e). split; [apply lookup_insert_eq|]. destruct (decide (id = i)) as [<-|].
    + by rewrite decide_True, lookup_insert_eq.
    + rewrite decide_False by naive_solver. by rewrite lookup_insert_ne.
  - rewrite decide_False by naive_solver. exists qq, e'. by rewrite lookup_insert_ne.
Qed.
Lemma set_entry_view a p id x x' a' : set_entry a p id x' a' → entry_at a p id x → entry_like x x' → view a' = view a.
Proof.
  intros (pp & e & Hd & ->) (qq & e' & Hq & Hx) Hl. rewrite Hd in Hq. injection Hq as <- <-. eapply view_same; [exact Hd|].
  unfold view_node. simpl. by rewrite (view_touch _ _ _ _ Hx Hl).
Qed.

Lemma attr_entry c n st a o path node p x : fs_repr (Datatypes.S n) (device st) a → tree_ok root (view a) →
  call_ok root max_blob c (view a) o → attr_path c = Some path → resolve_node root (view a) path = Ok (Some node) → _parent node = Some p →
  entry_at a p (CryFs._blockId node) x → _type x = node_type node →
  runs (run c) st (λ r st', r = RUnit ∧ ∃ x' a', (entry_change c x x' ∧ entry_like x x') ∧ set_entry a p (CryFs._blockId node) x' a' ∧ fs_repr n (device st') a').
Proof using startpos_ok clock_ok.
  intros Hs Ht Hok Hc Hres Hp (pp & e & Hd & Hx) Hty.
  assert (∀ (op : CryNode → M (fs S) unit),
    (∀ s, fs_repr (Datatypes.S n) s a → loaded s p → runs (op node) s (λ _ s', retouched p (entry_change c) n s a pp e (CryFs._blockId node) x s')) →
    runs (unit_call (node ← FS_Load root path ; on_device (op node))) st
      (λ r st', r = RUnit ∧ ∃ x' a', (entry_change c x x' ∧ entry_like x x') ∧ set_entry a p (CryFs._blockId node) x' a' ∧ fs_repr n (device st') a')) as H.
  { intros op Hop. eapply runs_bind.
    - eapply (on_node n st a path node op (λ _ s', ∃ x' a', (entry_change c x x' ∧ entry_like x x') ∧ set_entry a p (CryFs._blockId node) x' a' ∧ fs_repr n s' a')); try done.
      intros s Hs1 [Hh _]. eapply runs_mono; [apply Hop; [done|by apply Hh]|]. intros [] s' (x' & Hx' & [Hr _]). eexists x', _. split; [done|]. split; [|exact Hr]. by exists pp, e.
    - intros [] st' HQ. by apply runs_ret. }
  destruct c; try done; injection Hc as <-.
  - destruct Hok as [Hr Hm]. specialize (Hm node Hres). cbv beta in Hm. rewrite <- Hty in Hm. apply (H (λ node, chmod clock startpos node mode)).
    intros s Hs1 Hl. unfold chmod. rewrite Hp. by eapply chmodChild_spec.
  - destruct Hok as [Hu Hg]. apply (H (λ node, chown clock startpos node uid gid)). intros s Hs1 Hl. unfold chown. rewrite Hp. by eapply chownChild_spec.
  - destruct Hok as [H1 H2]. apply (H (λ node, utimens clock startpos node a0 m)). intros s Hs1 Hl. unfold utimens. rewrite Hp. by eapply utimensChild_spec.
Qed.

(** ** As [lstat] shows it *)
Definition exists_at v path : Prop := path ≠ [] ∧ ∃ node, resolve_node root v path = Ok (Some node).
Lemma resolve_parent v path node : path ≠ [] → resolve_node root v path = Ok (Some node) → ∃ p, _parent node = Some p.
Proof.
  intros Hp. unfold resolve_node. rewrite decide_False by done. destruct (resolve_dir root v no_callback (parent_path path)) as [[[d g]|]|]; try done.
  cbn [mbind result_bind]. destruct (v !! d) as [[q [|e|]]|]; try done. simpl. destruct (vfind (filename path) e); [|done]. intros [= <-]. by exists d.
Qed.

(** [lstat] of [q] before and after the call on [path]. *)
Definition shows_attrs st (c : call) path (q : list bytes) : Prop := ∃ x t,
  (run_calls uninit clock startpos behavior getuid getgid root [CLstat q; c; CLstat q] st).1 =
    [Ok (RStat x); Ok RUnit; Ok (RStat (if decide (q = path) then with_attrs c t x else x))].

Lemma attrs_shown n st v o c path q : fs_inv root (2 + n) st v o → call_ok root max_blob c v o → attr_path c = Some path →
  exists_at v path → exists_at v q → shows_attrs st c path q.
Proof using startpos_ok clock_ok.
  intros ((a & Ha & <-) & [Ht _] & _) Hok Hc [Hp (node & Hres)] [Hq (node' & Hres')].
  destruct (resolve_parent _ _ _ Hp Hres) as [p Hpar], (resolve_parent _ _ _ Hq Hres') as [p' Hpar'].
  pose proof (resolve_node_ok _ _ _ _ Ht Hres) as Hn. pose proof (resolve_node_ok _ _ _ _ Ht Hres') as Hn'.
  destruct (node_entry_at _ _ _ Hn Hpar) as (x & Hx & Hty), (node_entry_at _ _ _ Hn' Hpar') as (x' & Hx' & _).
  destruct (node_exists _ _ _ Ht Hn') as (y & Hy & _).
  destruct (lstat_entry (1 + n) st a q node' p' x' y) as (r1 & st1 & E1 & -> & Ha1); try done.
  destruct (attr_entry c (1 + n) st1 a o path node p x) as (r2 & st2 & E2 & -> & z & a2 & [Hz Hlike] & Hset & Ha2); try done.
  pose proof (set_entry_view _ _ _ _ _ _ Hset Hx Hlike) as Ev.
  destruct (lstat_entry n st2 a2 q node' p' (if decide (p' = p ∧ CryFs._blockId node' = CryFs._blockId node) then z else x') y) as (r3 & st3 & E3 & -> & _);
    [done|by rewrite Ev|by rewrite Ev|done|by eapply set_entry_at|by rewrite Ev|].
  assert (dirs_ok (view a)) as Hk by (eapply view_dirs_ok; by exists a).
  destruct (entry_change_stat c path x z (v_size (v_content y)) Hc Hz) as [t Et].
  exists (dirEntryToStatInfo x' (v_size (v_content y))), t. cbn [run_calls]. rewrite E1, E2, E3. simpl. do 3 f_equal. destruct (decide (q = path)) as [->|Hne].
  - rewrite Hres in Hres'. injection Hres' as <-. rewrite Hpar in Hpar'. injection Hpar' as <-. rewrite decide_True by done.
    assert (x' = x) as -> by (destruct Hx as (? & ? & H1 & H2), Hx' as (? & ? & H3 & H4); congruence). by rewrite Et.
  - rewrite decide_False; [done|]. intros [_ Hid]. apply Hne. destruct (resolve_node_path _ _ _ _ Ht Hres) as [g Hg], (resolve_node_path _ _ _ _ Ht Hres') as [g' Hg'].
    rewrite Hid in Hg'. by eapply (paths_unique root (view a) no_callback no_callback).
Qed.
End attrs.
