(* ===== verification/Mount.v ===== *)
(** * File systems from formatting to unmounting

    The theorems about whole file systems: a formatted file system is the
    empty tree, calls that [call_ok] admits refine the tree, unmounting and
    mounting again keeps it; and concrete runs on the store of MemBlobs.v
    that show where a call does not do what it means to. *)
From S2P Require Import Prelude Serialization DirEntry DirEntryList DirSpec Directory FsBlobs FsBlobSpec MemBlobs FsTree FsObjects FsObjSpec FsDirSpec FsView CryFs CrySpec RenameSpec FilesystemImpl OpenFiles Filesystem FsRefine FsAttrs NodeSpec BlobModel.
From Stdlib Require Import Lia ZArith.
Open Scope Z_scope.
Import DirEntry.

(** ** Formatting *)
Section format.
Context {S : Type} `{!BlobStore S} `{!BlobStoreSpec S}.
Context (uninit : nat → bytes) (uninit_ok : ∀ n, length (uninit n) = n).

Definition empty_tree (root : bytes) : gmap bytes vnode := {[ root := mkV BlockId.Null (VDir ∅) ]}.
Lemma tree_empty root : tree_ok root (empty_tree root).
Proof.
  split.
  - exists ∅. apply lookup_insert_eq.
  - intros d p e id x Hd Hx. unfold dir_at, empty_tree in Hd. apply lookup_singleton_Some in Hd as [<- [= <- <-]]. by rewrite lookup_empty in Hx.
  - intros d id (p & e & x & Hd & Hx). unfold dir_at, empty_tree in Hd. apply lookup_singleton_Some in Hd as [<- [= <- <-]]. by rewrite lookup_empty in Hx.
Qed.

Lemma fs_view_empty n (b : S) t : room n 0 → blobs_are n b ∅ → fs_view n (mkFs b ∅ t) ∅.
Proof. intros Hr Hb. exists ∅. split; [|done]. split; [done|]. exists ∅. split; [done|]. intros id. by rewrite !lookup_empty. Qed.

Lemma format_view n s : fs_view (7 + n) s ∅ →
  runs (CreateRootBlobAndReturnId uninit) s (λ root s', BlockId.valid root ∧ fs_view n s' (empty_tree root)).
Proof using uninit_ok.
  intros Hs. eapply runs_bind; [apply (createDirBlob_view (2 + n)); [exact Hs|done]|]. intros root s1 (_ & Hval & [Hs1 _] & Hl).
  eapply runs_bind; [eapply (flush_dir_view uninit uninit_ok (1 + n) s1 _ root BlockId.Null ∅ Hs1); [apply lookup_insert_eq|done|done]|].
  intros [] s2 [Hs2 _]. by apply runs_ret.
Qed.

(** The device after mounting, with no object loaded and no open file. *)
Definition mount (b : S) : filesystem S := mkFS (mkFs b ∅ 0) IdList.new ∅.
Definition format (b : S) : option (bytes * filesystem S) :=
  match CreateRootBlobAndReturnId uninit (mkFs b ∅ 0) with
  | (Ok root, s) => Some (root, mkFS s IdList.new ∅)
  | _ => None
  end.

Lemma fs_inv_new root n (d : fs S) v : fs_view n d v → tree_ok root v → Z.of_nat n < 2 ^ 31 → fs_inv root n (mkFS d IdList.new ∅) v ∅.
Proof.
  intros Hs Ht Hn. split; [done|]. split; [split; [done|]; intros fd f Hf; by rewrite lookup_empty in Hf|]. split.
  - split; [done|]. split; [intros fd [? Hf]; by rewrite lookup_empty in Hf|]. split; [simpl; lia|]. simpl. by rewrite fmap_empty.
  - intros fd f Hf. by rewrite lookup_empty in Hf.
Qed.

Lemma format_spec n b : room (7 + n) 0 → blobs_are (7 + n) b ∅ → Z.of_nat n < 2 ^ 31 →
  ∃ root st, format b = Some (root, st) ∧ fs_inv root n st (empty_tree root) ∅.
Proof using uninit_ok.
  intros Hr Hb Hn. destruct (format_view n (mkFs b ∅ 0)) as (root & s' & E & _ & Hv); [by apply fs_view_empty|].
  exists root, (mkFS s' IdList.new ∅). unfold format. rewrite E. split; [done|]. apply fs_inv_new; [done|apply tree_empty|done].
Qed.
End format.

(** ** Unmounting *)
Section unmount.
Context {S : Type} `{!BlobStore S} `{!BlobStoreSpec S}.
Context (uninit : nat → bytes) (uninit_ok : ∀ n, length (uninit n) = n).
Implicit Types (s : fs S) (v : gmap bytes vnode).

(** The destructor of the cache evicts what is left in it. *)
Fixpoint evict_all (ids : list bytes) : M (fs S) unit :=
  match ids with [] => mret tt | id :: ids' => evict uninit id ;; evict_all ids' end.

Lemma evict_objects s id s' : evict uninit id s = (Ok tt, s') → objects s' = delete id (objects s).
Proof.
  unfold evict, object, get_state, mbind, M_bind. csimp. destruct (objects s !! id) as [b|]; [|done]. unfold modify. csimp.
  unfold run_destructor, on_base, zoom. destruct (FsBlobStore.destroy uninit b _) as [[|] b']; simpl; [|done]. by intros [= <-].
Qed.

Lemma evict_all_spec ids : ∀ n s v, NoDup ids → (∀ id, id ∈ ids ↔ loaded s id) → fs_view (2 * length ids + n) s v →
  runs (evict_all ids) s (λ _ s', objects s' = ∅ ∧ fs_view n s' v).
Proof using uninit_ok.
  induction ids as [|id ids IH]; intros n s v Hnd Hids Hs.
  - apply runs_ret. split; [|done]. apply map_eq. intros i. rewrite lookup_empty. apply eq_None_not_Some. intros Hl. apply Hids in Hl. by apply elem_of_nil in Hl.
  - apply NoDup_cons in Hnd as [Hni Hnd]. assert (loaded s id) as Hl by (apply Hids; left).
    assert (fs_view (2 + (2 * length ids + n)) s v) as Hs' by (eapply fs_view_le; [|exact Hs]; simpl; lia).
    assert (is_Some (v !! id)) as [x Hx].
    { pose proof Hs as (a & (_ & m & _ & Hm) & <-). specialize (Hm id). rewrite view_lookup. destruct (a !! id); [by eexists|].
      destruct Hm as [_ Hm]. destruct Hl as [? Hl]. congruence. }
    destruct (evict_view uninit uninit_ok _ s v id x Hs' Hx Hl) as ([] & s1 & E & Hs1 & _). eapply runs_bind_eq; [exact E|].
    apply IH; [done| |done]. intros i. unfold loaded. rewrite (evict_objects _ _ _ E). rewrite lookup_delete_is_Some.
    rewrite <- (Hids i), elem_of_cons. split; [|by intros [Hne [->|?]]]. intros Hi. split; [|by right]. by intros ->.
Qed.
End unmount.

(** ** Consequences of the specification *)
Lemma slice_write_bytes (c buf : bytes) off : slice off (length buf) (write_bytes c off buf) = buf.
Proof.
  unfold write_bytes. case_decide as Hb; [by subst buf|]. apply slice_splice_eq. rewrite length_pad. lia.
Qed.

Definition errno_only {A} (r : result A) : Prop := ∀ e, r = Throw e → ∃ er, e = FuseErrno er.
Lemma resolve_errno v f p : (∀ i, errno_only (f i)) → ∀ cur par, errno_only (resolve v f cur par p).
Proof.
  intros Hf. induction p as [|x p IH]; intros cur par e; simpl; [done|]. destruct (f cur) as [[]|e0] eqn:E; simpl.
  - destruct (v !! cur) as [[q [|e'|]]|]; simpl; try (intros [= <-]; by eexists). destruct (vfind x e') as [[id ty]|]; [apply IH|done].
  - intros [= <-]. by apply (Hf cur).
Qed.
Lemma resolve_dir_errno root v f p : (∀ i, errno_only (f i)) → errno_only (resolve_dir root v f p).
Proof.
  intros Hf e. unfold resolve_dir. pose proof (resolve_errno v f p Hf root None) as H. destruct (resolve v f root None p) as [[[c q]|]|e0]; simpl; [|done|].
  - destruct (v !! c) as [[q' [|e'|]]|]; simpl; try done; injection 1 as <-; by eexists.
  - intros [= <-]. by apply H.
Qed.
Lemma resolve_node_errno root v p : errno_only (resolve_node root v p).
Proof.
  intros e. unfold resolve_node. case_decide; [done|]. pose proof (resolve_dir_errno root v no_callback (parent_path p)) as Hr.
  destruct (resolve_dir root v no_callback (parent_path p)) as [[[d g]|]|e0]; simpl; [|done|].
  - by destruct (v !! d) as [[q' [|e'|]]|].
  - intros [= <-]. apply Hr; [|done]. by intros i e'.
Qed.
Lemma at_node_errno root v p er e v' (k : CryNode → Prop) : (∀ node, k node → ∃ er, e = FuseErrno er) →
  at_node root v p er (Throw e) v' k → ∃ er, e = FuseErrno er.
Proof.
  intros Hk. unfold at_node. pose proof (resolve_node_errno root v p) as H. destruct (resolve_node root v p) as [[node|]|e0].
  - apply Hk.
  - intros [[= ->] _]. by eexists.
  - intros [[= ->] _]. by apply H.
Qed.
Lemma at_typed_errno root v p ty wrong e v' (k : CryNode → Prop) : (∀ node, k node → ∃ er, e = FuseErrno er) →
  at_typed root v p ty wrong (Throw e) v' k → ∃ er, e = FuseErrno er.
Proof.
  intros Hk. apply at_node_errno. intros node. case_decide; [apply Hk|]. intros [[= ->] _]. by eexists.
Qed.
Lemma at_fd_errno v o fd e v' (k : OpenFile → bytes → Prop) : (∀ f c, k f c → ∃ er, e = FuseErrno er) →
  at_fd v o fd (Throw e) v' k → ∃ er, e = FuseErrno er.
Proof.
  intros Hk. unfold at_fd. destruct (o !! fd) as [f|]; [intros (q & c & _ & H); by eapply Hk|]. intros [[= ->] _]. by eexists.
Qed.
Lemma create_errno v d nm c id e v' : create_spec v d nm c id (Throw e) v' → ∃ er, e = FuseErrno er.
Proof. intros (_ & p & e0 & _ & H). destruct (vfind nm e0); destruct H as [[= ->] _]. by eexists. Qed.
Lemma remove_errno v node e v' : remove_spec v node (Throw e) v' → ∃ er, e = FuseErrno er.
Proof.
  unfold remove_spec. destruct (has_children v _); [intros [[= ->] _]; by eexists|]. destruct (_parent node); intros [[=] _]. subst. by eexists.
Qed.
Lemma rename_errno root v node to e v' : rename_spec root v node to (Throw e) v' → ∃ er, e = FuseErrno er.
Proof.
  unfold rename_spec. destruct (_parent node) as [par|]; [|intros [[= ->] _]; by eexists]. case_decide; [intros [[= ->] _]; by eexists|].
  pose proof (resolve_dir_errno root v (not_below (CryFs._blockId node)) (parent_path to)) as Hr.
  destruct (resolve_dir root v (not_below (CryFs._blockId node)) (parent_path to)) as [[[tp g]|]|e0].
  - case_decide; [intros [[= ->] _]; by eexists|]. unfold rename_into. destruct (vfind _ _) as [[y ty]|]; [|by intros [? _]].
    repeat case_decide; try (by intros [? _]); try (intros [[= ->] _]; by eexists). destruct (has_children v y); [intros [[= ->] _]; by eexists|by intros [? _]].
  - intros [[= ->] _]. by eexists.
  - intros [[= ->] _]. apply Hr; [|done]. intros i e1. unfold not_below. case_decide; [intros [= <-]; by eexists|done].
Qed.

Lemma call_spec_throws root c v o e v' o' : call_spec root c v o (Throw e) v' o' → (∃ er, e = FuseErrno er) ∨ ∃ fd, c = CClose fd ∧ e = OutOfRange.
Proof.
  intros [H _]. destruct c; simpl in H; try (left; revert H; first [apply at_typed_errno|apply at_node_errno|apply at_fd_errno]).
  - by intros node (_ & fd & p & _ & _ & ? & _).
  - intros node (id & H & _). by eapply create_errno.
  - right. exists fd. split; [done|]. destruct H as (_ & _ & H). case_decide; [done|by injection H as ->].
  - intros node (id & H). by eapply create_errno.
  - intros node (id & H). by eapply create_errno.
  - intros node H. by eapply remove_errno.
  - intros node H. by eapply remove_errno.
  - intros node H. by eapply rename_errno.
  - by intros node (_ & z & x & ? & _).
  - by intros node [? _].
  - by intros node [? _].
  - by intros node [? _].
  - by intros node [? _].
  - by intros node [? _].
  - by intros node (_ & l & ? & _).
  - by intros node (_ & q & t & b & _ & ? & _).
  - intros f c (_ & H). destruct (in_place v f); [by destruct H as (z & ? & _)|injection H as ->; by eexists].
  - intros f c (_ & H). destruct (in_place v f); [done|injection H as ->; by eexists].
  - intros f c (_ & H). destruct (in_place v f); [done|injection H as ->; by eexists].
  - intros f c H. destruct (in_place v f); [by destruct H|destruct H as [[= ->] _]; by eexists].
  - by intros f c [? _].
  - by intros f c [? _].
  - by intros f c [? _].
  - by destruct H as (_ & st & ? & _).
  - by destruct H.
Qed.
Lemma calls_spec_throws root cs : ∀ v o rs v' o' i e, calls_spec root cs v o rs v' o' → rs !! i = Some (Throw e) →
  (∃ er, e = FuseErrno er) ∨ (∃ fd, cs !! i = Some (CClose fd) ∧ e = OutOfRange).
Proof.
  induction cs as [|c cs IH]; intros v o [|r rs] v' o' i e; try done. intros (v1 & o1 & Hc & Hcs). destruct i as [|i]; simpl.
  - intros [= ->]. destruct (call_spec_throws _ _ _ _ _ _ _ Hc) as [?|(fd & -> & ->)]; [by left|right; by exists fd].
  - by eapply IH.
Qed.

(** ** The theorems *)
Section theorems.
Context {S : Type} `{!BlobStore S} `{!BlobStoreSpec S}.
Context (uninit : nat → bytes) (uninit_ok : ∀ n, length (uninit n) = n).
Context (clock : nat → timespec) (clock_ok : ∀ n, time_ok (clock n)).
Context (startpos : Z → nat → nat) (startpos_ok : ∀ b n, 0 ≤ b < 256 → (0 < n)%nat → (startpos b n < n)%nat).
Context (behavior : TimestampUpdateBehavior) (getuid getgid : Z) (root : bytes).
(** The results of a sequence of calls and the state after it. *)
Definition results (cs : list call) (st : filesystem S) : list (result value) := (run_calls uninit clock startpos behavior getuid getgid root cs st).1.
Definition after (cs : list call) (st : filesystem S) : filesystem S := (run_calls uninit clock startpos behavior getuid getgid root cs st).2.
(** [Load] of the path returns this node object. *)
Definition loads_node (path : list bytes) (st : filesystem S) (node : CryNode) : Prop := (Load root path (device st)).1 = Ok (Some node).

(** C2. The file system refines a tree, for the calls that [calls_ok]
    admits. On every blob store that keeps its contract, from every state that
    represents a tree [v] with open files [o], such a sequence of calls (open,
    create, close, mkdir, symlink, rmdir, unlink, rename, lstat, access,
    chmod, chown, utimens, truncate, readdir, readlink, fstat, ftruncate,
    read, write, flush, fsync, fdatasync, statfs, in any order, with cached
    objects dropped in between) returns and throws exactly what [call_spec]
    says of the tree, and leaves a state that represents the specified tree:
    entries and nodes match in both directions, parent pointers are right,
    there are no cycles, and what is in memory agrees with what is stored.
    Modes, owners and times are not part of the tree; for them: in the state
    after the calls, [chmod], [chown] or [utimens] of a node other than the
    root changes what [lstat] shows of it to the new mode, owner or times and
    nothing else but the time of change, and what [lstat] shows of every other
    node stays.
    [calls_ok] admits valid arguments (names without null byte of at most 255
    bytes, modes with the bits of the type, ids of 32 bits, sizes within the
    largest blob, offsets within range), no removal or replacement of a node
    that is open or that is the directory an open file was opened in, no
    eviction of an object in use, and not the two renames of
    [rename_replaces_nonempty_dir] and [rename_dir_over_file_dangles] below,
    where the code loses data. 12 steps of room are enough for every call. *)
Theorem filesystem_refines_tree cs n st v o :
  fs_inv root (12 * length cs + n) st v o → calls_ok root max_blob cs v o →
  ∃ v' o', fs_inv root n (after cs st) v' o' ∧ calls_spec root cs v o (results cs st) v' o' ∧
    ((2 ≤ n)%nat → ∀ c path q, attr_path c = Some path → call_ok root max_blob c v' o' → exists_at root v' path → exists_at root v' q →
      shows_attrs uninit clock startpos behavior getuid getgid root (after cs st) c path q).
Proof using uninit_ok clock_ok startpos_ok.
  intros Hinv Hok. destruct (run_calls_spec uninit uninit_ok clock clock_ok startpos startpos_ok behavior getuid getgid root cs n st v o Hinv Hok) as (v' & o' & Hinv' & Hspec).
  exists v', o'. split; [exact Hinv'|]. split; [exact Hspec|]. intros Hn c path q Hc Hcok Hpath Hq.
  apply (attrs_shown uninit clock clock_ok startpos startpos_ok behavior getuid getgid root (n - 2) _ v' o'); [|done..]. by replace (2 + (n - 2))%nat with n by lia.
Qed.

(** No two paths lead to the same node: when [Load] returns node objects
    of the same blob for two paths, the paths are equal. So there are no hard
    links and no cycles. *)
Theorem load_paths_unique p q node node' n st v o :
  fs_inv root (Datatypes.S n) st v o → loads_node p st node → loads_node q st node' →
  CryFs._blockId node = CryFs._blockId node' → p = q.
Proof.
  intros (Hs & [Ht _] & _) E1 E2 Hid. unfold loads_node in E1, E2.
  destruct (Load_view root p n (device st) v Hs Ht) as [H1 _], (Load_view root q n (device st) v Hs Ht) as [H2 _]. rewrite E1 in H1. rewrite E2 in H2.
  destruct (resolve_node_path _ _ _ _ Ht (eq_sym H1)) as [g Hg], (resolve_node_path _ _ _ _ Ht (eq_sym H2)) as [g' Hg'].
  rewrite <- Hid in Hg'. eapply (paths_unique root v no_callback no_callback); [done|by eapply view_dirs_ok|done|done].
Qed.

(** Unmounting loses nothing: when all loaded objects are dropped, in any
    order, their destructors write back what is not stored yet, and mounting
    the store again gives the same tree. *)
Theorem remount_preserves_tree ids n st v o :
  fs_inv root (2 * length ids + n) st v o → NoDup ids → (∀ id, id ∈ ids ↔ loaded (device st) id) → Z.of_nat n < 2 ^ 31 →
  runs (evict_all uninit ids) (device st) (λ _ s', objects s' = ∅ ∧ fs_inv root n (mount (base s')) v ∅).
Proof using uninit_ok.
  intros (Hs & [Ht _] & _) Hnd Hids Hn. eapply runs_mono; [by apply evict_all_spec|]. intros [] s' [Ho Hv]. split; [done|].
  apply fs_inv_new; [|done|done]. destruct Hv as (a & Ha & E). exists a. split; [|done]. destruct s' as [b ob t]. simpl in *. subst ob. exact Ha.
Qed.

(** What is written is read: after a file is opened, a write through the
    descriptor returns, and a read of the same range returns the bytes. *)
Theorem open_write_read path fd buf off n st v o :
  fs_inv root (36 + n) st v o → results [COpen path] st = [Ok (RFd fd)] →
  19 + Z.of_nat (off + length buf) ≤ max_blob →
  results [CWrite fd buf off; CRead fd (length buf) off] (after [COpen path] st) = [Ok RUnit; Ok (RBytes buf)].
Proof using uninit_ok clock_ok startpos_ok.
  intros Hinv E Hlen. pose proof max_blob_range as Hmax.
  pose proof (open_call uninit clock startpos behavior getuid getgid root (24 + n) st v o Hinv path) as H1.
  unfold results, after in E |- *. cbn [run_calls] in E |- *. unfold post in H1.
  destruct (run_call uninit clock startpos behavior getuid getgid root (COpen path) st) as [r1 st1]. cbn [fst snd] in E, H1 |- *. injection E as ->.
  destruct H1 as (v1 & o1 & Hinv1 & Hspec1 & _). simpl in Hspec1.
  unfold at_typed, at_node in Hspec1. destruct (resolve_node root v path) as [[node|]|] eqn:Hres; [|by destruct Hspec1..].
  case_decide as Hty; [|by destruct Hspec1]. destruct Hspec1 as (-> & fd' & p & Hfd & Hp & [= <-] & ->).
  assert (tree_ok root v) as Ht by apply Hinv. pose proof (resolve_node_ok _ _ _ _ Ht Hres) as Hn.
  set (f := (p, CryFs._blockId node)) in *. assert (∀ w, (∀ i, i ≠ f.2 → w !! i = v !! i) → in_place w f = true) as Hplace.
  { intros w Hw. destruct (node_entry _ _ _ _ Hn Hp) as (pp & e & nm & Hd & Hx).
    assert (p ≠ f.2) as Hne by (eapply child_not_dir; [exact Ht|eapply view_dirs_ok; apply Hinv|exact Hd|exact Hx]).
    unfold in_place. simpl. rewrite Hw by done. unfold dir_at in Hd. rewrite Hd. simpl. apply bool_decide_true. by eexists. }
  pose proof (write_call uninit clock clock_ok startpos startpos_ok behavior getuid getgid root (12 + n) st1 v _ Hinv1 fd buf off Hlen) as H2. unfold post in H2.
  destruct (run_call uninit clock startpos behavior getuid getgid root (CWrite fd buf off) st1) as [r2 st2]. destruct H2 as (v2 & o2 & Hinv2 & Hspec2 & ->). simpl in Hinv2, Hspec2.
  unfold at_fd in Hspec2. rewrite lookup_insert_eq in Hspec2. destruct Hspec2 as (q & c & Hx & H2). rewrite (Hplace v) in H2 by done. destruct H2 as [-> ->].
  rewrite (vwrite_eq _ _ _ _ _ Hx) in Hinv2.
  pose proof (read_call uninit clock clock_ok startpos startpos_ok behavior getuid getgid root n st2 _ _ Hinv2 fd (length buf) off ltac:(split; lia)) as H3. unfold post in H3.
  destruct (run_call uninit clock startpos behavior getuid getgid root (CRead fd (length buf) off) st2) as [r3 st3]. destruct H3 as (v3 & o3 & _ & Hspec3 & _). simpl in Hspec3.
  unfold at_fd in Hspec3. rewrite lookup_insert_eq in Hspec3. destruct Hspec3 as (q' & c' & Hx' & _ & H3). rewrite lookup_insert_eq in Hx'. injection Hx' as <- <-.
  rewrite Hplace in H3 by (intros i Hi; by rewrite lookup_insert_ne). rewrite H3. simpl. do 4 f_equal. apply slice_write_bytes.
Qed.

(** Errors are error numbers: a call on a valid state throws a
    [FuseErrnoException] or nothing, except that closing a descriptor that is
    not open throws the [std::out_of_range] of the table (the other calls
    turn it into EBADF). No assertion fails, no access is out of bounds and
    no exception leaves a destructor. *)
Theorem calls_throw_errnos cs n st v o i e :
  fs_inv root (12 * length cs + n) st v o → calls_ok root max_blob cs v o →
  results cs st !! i = Some (Throw e) →
  (∃ er, e = FuseErrno er) ∨ (∃ fd, cs !! i = Some (CClose fd) ∧ e = OutOfRange).
Proof using uninit_ok clock_ok startpos_ok.
  intros Hinv Hok Hi. destruct (run_calls_spec uninit uninit_ok clock clock_ok startpos startpos_ok behavior getuid getgid root cs n st v o Hinv Hok) as (v' & o' & _ & Hspec).
  by eapply calls_spec_throws.
Qed.
End theorems.

(** ** Concrete file systems *)
Definition z_uninit (n : nat) : bytes := replicate n x00.
Definition z_clock (n : nat) : timespec := mkTime (Z.of_nat n mod 2 ^ 32) 0.
Definition z_startpos (b : Z) (n : nat) : nat := Z.to_nat (b * Z.of_nat n / 256).
Definition fresh : bytes * filesystem mem := default ([], mount (mkMem ∅ 0)) (format z_uninit (mkMem ∅ 0)).
Abbreviation fresh_results cs := (results z_uninit z_clock z_startpos relatime 0 0 fresh.1 cs fresh.2).
Abbreviation fresh_after cs := (after z_uninit z_clock z_startpos relatime 0 0 fresh.1 cs fresh.2).
Definition a_ : bytes := [x61].
Definition b_ : bytes := [x62].
Definition f_ : bytes := [x66].

(** The hypotheses of the theorems hold for this file system. *)
Lemma z_uninit_ok n : length (z_uninit n) = n.
Proof. apply length_replicate. Qed.
Lemma z_clock_ok n : time_ok (z_clock n).
Proof. unfold z_clock, time_ok. simpl. pose proof (Z.mod_pos_bound (Z.of_nat n) (2 ^ 32)). lia. Qed.
Lemma z_startpos_ok b n : 0 ≤ b < 256 → (0 < n)%nat → (z_startpos b n < n)%nat.
Proof. intros Hb Hn. unfold z_startpos. apply Nat2Z.inj_lt. rewrite Z2Nat.id by (apply Z.div_pos; nia). apply Z.div_lt_upper_bound; nia. Qed.
Lemma fresh_inv : fs_inv fresh.1 1000 fresh.2 (empty_tree fresh.1) ∅.
Proof.
  destruct (format_spec z_uninit z_uninit_ok 1000 (mkMem ∅ 0)) as (root & st & E & H).
  - by unfold room; vm_compute.
  - split; [done|]. split; [|simpl; lia]. intros id c H. by rewrite lookup_empty in H.
  - lia.
  - unfold fresh. rewrite E. exact H.
Qed.
(** A state with a directory and a file in it. *)
Definition small_calls : list call := [CMkdir [a_] 493 0 0; CCreate [a_; f_] 420 0 0; CWrite 1 [x01; x02] 3; CClose 1].
Lemma small_calls_ok (r : bytes) (limit : Z) : 24 ≤ limit → calls_ok r limit small_calls (empty_tree r) ∅.
Proof.
  intros Hlim. unfold small_calls. split; [|intros ? v o _].
  { split; [by vm_compute|]. split; [by apply (bool_decide_unpack _)|]. split; [by vm_compute; lia|lia]. }
  split; [|intros r' v' o' _].
  { split; [by vm_compute|]. split; [by apply (bool_decide_unpack _)|]. split; [by vm_compute; lia|lia]. }
  split; [simpl; lia|intros r'' v'' o'' _]. split; [done|]. by intros.
Qed.
Lemma small_inv : ∃ v o, fs_inv fresh.1 900 (fresh_after small_calls) v o.
Proof.
  destruct (run_calls_spec z_uninit z_uninit_ok z_clock z_clock_ok z_startpos z_startpos_ok relatime 0 0 fresh.1 small_calls 952 fresh.2 (empty_tree fresh.1) ∅)
    as (v & o & H & _); [exact fresh_inv|by apply small_calls_ok; vm_compute|].
  exists v, o. unfold fs_inv in *. destruct H as (H1 & H2 & H3 & H4). split; [eapply fs_view_le; [|exact H1]; lia|].
  split; [done|]. split; [eapply files_le; [|exact H3]; lia|done].
Qed.

Lemma filesystem_refines_tree_witness :
  ∃ v' o', fs_inv fresh.1 952 (fresh_after small_calls) v' o' ∧
    calls_spec fresh.1 small_calls (empty_tree fresh.1) ∅ (fresh_results small_calls) v' o' ∧
    ((2 ≤ 952)%nat → ∀ c path q, attr_path c = Some path → call_ok fresh.1 max_blob c v' o' → exists_at fresh.1 v' path → exists_at fresh.1 v' q →
      shows_attrs z_uninit z_clock z_startpos relatime 0 0 fresh.1 (fresh_after small_calls) c path q).
Proof.
  apply (filesystem_refines_tree z_uninit z_uninit_ok z_clock z_clock_ok z_startpos z_startpos_ok relatime 0 0 fresh.1 small_calls 952 fresh.2).
  - exact fresh_inv.
  - by apply small_calls_ok; vm_compute.
Defined.

(** The attributes of a directory before and after [chmod], [chown] of the
    group, and [utimens]. *)
Example attributes_set :
  let t k := mkTime k 0 in
  fresh_results [CMkdir [a_] 493 3 4; CMkdir [b_] 493 0 0; CChmod [a_] 16832; CChown [a_] (2 ^ 32 - 1) 7; CUtimens [a_] (t 11) (t 12); CLstat [a_]; CLstat [b_]] =
    [Ok RUnit; Ok RUnit; Ok RUnit; Ok RUnit; Ok RUnit;
     Ok (RStat (mkStat 1 16832 3 7 4096 8 (t 11) (t 12) (t 6))); Ok (RStat (mkStat 1 16877 0 0 4096 8 (t 2) (t 2) (t 3)))].
Proof. by vm_compute. Qed.

Lemma calls_throw_errnos_witness :
  let cs := [CLstat [f_]; CRead 7 1 0; CClose 7] in
  fresh_results cs = [Throw (FuseErrno ENOENT); Throw (FuseErrno EBADF); Throw OutOfRange] ∧
  ((∃ er, FuseErrno EBADF = FuseErrno er) ∨ (∃ fd, cs !! 1%nat = Some (CClose fd) ∧ FuseErrno EBADF = OutOfRange)).
Proof.
  split; [by vm_compute|].
  apply (calls_throw_errnos z_uninit z_uninit_ok z_clock z_clock_ok z_startpos z_startpos_ok relatime 0 0 fresh.1 _ 964 fresh.2 (empty_tree fresh.1) ∅).
  - exact fresh_inv.
  - split; [done|]. intros ? ? ? _. split; [simpl; lia|]. intros ? ? ? _. by split.
  - by vm_compute.
Defined.

Lemma open_write_read_witness :
  let st := (fresh_after small_calls) in
  results z_uninit z_clock z_startpos relatime 0 0 fresh.1 [CWrite 2 [x05; x06; x07] 4; CRead 2 3 4]
    (after z_uninit z_clock z_startpos relatime 0 0 fresh.1 [COpen [a_; f_]] st) = [Ok RUnit; Ok (RBytes [x05; x06; x07])].
Proof.
  destruct small_inv as (v & o & Hinv).
  apply (open_write_read z_uninit z_uninit_ok z_clock z_clock_ok z_startpos z_startpos_ok relatime 0 0 fresh.1 [a_; f_] 2 [x05; x06; x07] 4 864 _ v o Hinv).
  - by vm_compute.
  - by vm_compute.
Defined.

Lemma load_paths_unique_witness :
  let node := mkNode (Some (mem_id 1)) (Some (mem_id 0)) (mem_id 2) FILE in
  loads_node fresh.1 [a_; f_] (fresh_after small_calls) node ∧ [a_; f_] = [a_; f_].
Proof.
  intros node. assert (loads_node fresh.1 [a_; f_] (fresh_after small_calls) node) as E by by vm_compute.
  split; [exact E|]. destruct small_inv as (v & o & Hinv).
  exact (load_paths_unique fresh.1 [a_; f_] [a_; f_] _ _ 899 (fresh_after small_calls) v o Hinv E E eq_refl).
Defined.

Lemma remount_preserves_tree_witness :
  ∃ v o, fs_inv fresh.1 900 (fresh_after small_calls) v o ∧
    runs (evict_all z_uninit (map_to_list (objects (device (fresh_after small_calls)))).*1) (device (fresh_after small_calls))
      (λ _ s', objects s' = ∅ ∧ fs_inv fresh.1 894 (mount (base s')) v ∅).
Proof.
  destruct small_inv as (v & o & Hinv). exists v, o. split; [done|].
  apply (remount_preserves_tree z_uninit z_uninit_ok fresh.1 _ 894 (fresh_after small_calls) v o).
  - exact Hinv.
  - apply NoDup_fst_map_to_list.
  - intros id. unfold loaded. split.
    + intros H. apply list_elem_of_fmap in H as ([i b] & -> & H). apply elem_of_map_to_list in H. by eexists.
    + intros [b H]. apply list_elem_of_fmap. exists (id, b). split; [done|]. by apply elem_of_map_to_list.
  - lia.
Defined.

(** ** Where the code does not do what it means to *)

(** A rename within one directory replaces a directory that has entries:
    [/b] has the child [/b/f], renaming [/a] to [/b] succeeds (between
    directories it fails with ENOTEMPTY), the blob of [/b] is removed, and
    [/b/f] is gone from the tree while its blob stays in the store. *)
Theorem rename_replaces_nonempty_dir :
  let cs := [CMkdir [a_] 493 0 0; CMkdir [b_] 493 0 0; CMkdir [b_; f_] 493 0 0; CRename [a_] [b_]; CLstat [b_; f_]; CAccess [b_]] in
  fresh_results cs = [Ok RUnit; Ok RUnit; Ok RUnit; Ok RUnit; Throw (FuseErrno ENOENT); Ok RUnit] ∧
  m_blobs (base (device (fresh_after cs))) !! mem_id 2 = None ∧
  is_Some (m_blobs (base (device (fresh_after cs))) !! mem_id 3).
Proof. split; [by vm_compute|]. split; [by vm_compute|]. by apply (bool_decide_unpack _); vm_compute. Qed.

(** Moving a directory onto a file of another directory fails with
    ENOTDIR, but only after the blob of the file was removed: the entry stays
    and loading the file fails with EIO, until an unlink, which fails with EIO
    too, drops the entry. *)
Theorem rename_dir_over_file_dangles :
  let cs := [CMkdir [a_] 493 0 0; CMkdir [b_] 493 0 0; CCreate [b_; f_] 420 0 0; CClose 1; CRename [a_] [b_; f_];
             CAccess [b_; f_]; CLstat [b_; f_]; COpen [b_; f_]; CUnlink [b_; f_]; CRmdir [b_]] in
  fresh_results cs = [Ok RUnit; Ok RUnit; Ok (RFd 1); Ok RUnit; Throw (FuseErrno ENOTDIR);
                      Ok RUnit; Throw (FuseErrno EIO); Throw (FuseErrno EIO); Throw (FuseErrno EIO); Ok RUnit].
Proof. by vm_compute. Qed.

(** Creating a node under a name that is taken fails with EEXIST, and the
    blob that was created for it stays in the store, where no path leads to
    it: after two calls of mkdir there are the root, the directory and one
    lost blob. *)
Theorem failed_create_leaks_blob :
  let cs := [CMkdir [a_] 493 0 0; CMkdir [a_] 493 0 0] in
  fresh_results cs = [Ok RUnit; Throw (FuseErrno EEXIST)] ∧
  size (m_blobs (base (device (fresh_after cs)))) = 3%nat.
Proof. split; by vm_compute. Qed.

(** An open file that is moved to another directory cannot be read,
    written or queried through its descriptor any more: the open file keeps
    the directory it was opened in and looks for its entry there (ENOENT);
    ftruncate reports the error after it has changed the file. *)
Theorem moved_open_file_fails :
  let cs := [CMkdir [a_] 493 0 0; CCreate [f_] 420 0 0; CRename [f_] [a_; f_]; CWrite 1 [x01] 0; CRead 1 1 0; CFstat 1; CFtruncate 1 7; CLstat [a_; f_]] in
  ∃ st, fresh_results cs = [Ok RUnit; Ok (RFd 1); Ok RUnit; Throw (FuseErrno ENOENT); Throw (FuseErrno ENOENT); Throw (FuseErrno ENOENT);
                            Throw (FuseErrno ENOENT); Ok (RStat st)] ∧ st_size st = 7.
Proof. eexists. split; by vm_compute. Qed.
