(* ===== verification/Fuse.v ===== *)
(** * The callbacks for FUSE (fspp/fuse/Fuse.cpp)

    [Fuse.t] is the object the callbacks are called on: the file system it
    forwards to, which is [InvalidFilesystem] before [init] and after
    [destroy]. A callback returns an [int] (zero, a count or a negated error
    number) and what it writes through its pointer arguments. Every callback
    catches all C++ exceptions; undefined behaviour and [std::terminate] are
    no exceptions and stay. The paths of boost are a parameter: a path is the
    string it was made of. Log output is not modelled. *)
From S2P Require Import Prelude Serialization DirEntry DirEntryList DirSpec Directory FsBlobs FsBlobSpec MemBlobs FsTree FsObjects FsObjSpec FsDirSpec FsView CryFs CrySpec RenameSpec FilesystemImpl OpenFiles Filesystem FsRefine Mount NodeSpec BlobModel.
From Stdlib Require Import Lia ZArith.
Open Scope Z_scope.
Import DirEntry.

(** The error numbers of Linux. *)
Definition errno_value (e : errno) : Z :=
  match e with
  | ENOENT => 2 | EIO => 5 | EBADF => 9 | EBUSY => 16 | EEXIST => 17
  | ENOTDIR => 20 | EISDIR => 21 | EINVAL => 22 | ENOTEMPTY => 39
  end.
Definition ENOMEM : Z := 12.
Definition ENOSYS : Z := 38.

(** boost::filesystem::path. [elements] are the names after the root
    directory, [is_root] is the comparison with the path "/", [append] is
    [operator/]. *)
Class BoostPath := {
  has_root_directory : bytes → bool;
  has_root_name : bytes → bool;
  generic_string : bytes → bytes;
  elements : bytes → list bytes;
  is_root : bytes → bool;
  append : bytes → bytes → bytes }.

Module Fuse.
Section fuse.
Context {path : BoostPath} {S : Type} `{!BlobStore S}.
Context (uninit : nat → bytes) (clock : nat → timespec) (startpos : Z → nat → nat).
(** The members [uid] and [gid] are never assigned: whatever is in memory. *)
Context (getuid getgid : Z) (root : bytes) (uid gid : Z).

(** The implementations of the interface [Filesystem]; the context of the
    device is set by [setContext]. *)
Inductive Filesystem :=
| InvalidFilesystem
| Impl (behavior : TimestampUpdateBehavior) (fs : filesystem S).
Record t := mk { _fs : Filesystem; _context : option TimestampUpdateBehavior; _running : bool }.
Definition new : t := mk InvalidFilesystem None false.
Definition running (f : t) : bool := _running f.
Definition set_fs (x : Filesystem) (f : t) : t := mk x (_context f) (_running f).

(** [_fs->...]: every method of [InvalidFilesystem] throws. *)
Definition call_fs {A} (m : TimestampUpdateBehavior → M (filesystem S) A) : M t A := λ f,
  match _fs f with
  | InvalidFilesystem => (Throw (LogicError "Filesystem not initialized yet"), f)
  | Impl behavior fs => let '(r, fs') := m behavior fs in (r, set_fs (Impl behavior fs') f)
  end.

(** The four handlers at the end of every callback. *)
Definition catch_all {T A} (handler : Z → A) (m : M T A) : M T A := λ f,
  match m f with
  | (Throw (AssertFailed _), f') => (Ok (handler (- errno_value EIO)), f')
  | (Throw (FuseErrno e), f') => (Ok (handler (- errno_value e)), f')
  | (Throw (RuntimeError _ | LogicError _ | OutOfRange | InvalidArgument | CryfsException _ | PtreeError | BadAlloc), f') =>
      (Ok (handler (- errno_value EIO)), f')
  | r => r
  end.
(** Callbacks without output, and with one. *)
Abbreviation catch_int m := (catch_all id m).
Abbreviation catch_out m := (catch_all (λ code, (code, None)) m).

Definition is_valid_fspp_path (p : bytes) : bool :=
  has_root_directory p && negb (has_root_name p) && bool_decide (p = generic_string p).
Definition slash : bytes := [x2f].
Abbreviation absolute p := (ASSERT (is_valid_fspp_path p) "has to be an absolute path").

Definition getattr (p : bytes) : M t (Z * option stat_info) := catch_out (
  absolute p ;;
  st ← call_fs (λ _, lstat clock startpos getuid getgid root (elements p)) ;
  mret (0, Some st)).
Definition fgetattr (p : bytes) (fh : Z) : M t (Z * option stat_info) :=
  if decide (p = slash) then getattr p else catch_out (
  absolute p ;;
  st ← call_fs (λ _, fstat startpos (i32 fh)) ;
  mret (0, Some st)).
(** [buf] is the buffer before the call. *)
Definition readlink (p : bytes) (buf : bytes) : M t (Z * option bytes) := catch_out (
  absolute p ;;
  buf' ← call_fs (λ behavior, readSymlink clock startpos behavior root (elements p) buf) ;
  mret (0, Some buf')).
Definition mkdir (p : bytes) (mode : Z) : M t Z := catch_int (
  absolute p ;;
  if is_root p then mret 0 else
  call_fs (λ _, FilesystemImpl.mkdir clock startpos root (elements p) mode uid gid) ;;
  mret 0).
Definition unlink (p : bytes) : M t Z := catch_int (
  absolute p ;;
  call_fs (λ _, FilesystemImpl.unlink uninit clock startpos root (elements p)) ;;
  mret 0).
Definition rmdir (p : bytes) : M t Z := catch_int (
  absolute p ;;
  call_fs (λ _, FilesystemImpl.rmdir uninit clock startpos root (elements p)) ;;
  mret 0).
Definition symlink (to from : bytes) : M t Z := catch_int (
  absolute from ;;
  call_fs (λ _, FS_createSymlink clock startpos root to (elements from) uid gid) ;;
  mret 0).
Definition rename (from to : bytes) : M t Z := catch_int (
  ASSERT (is_valid_fspp_path from) "from has to be an absolute path" ;;
  ASSERT (is_valid_fspp_path to) "rename target has to be an absolute path. If this assert throws, we have to add code here that makes the path absolute." ;;
  call_fs (λ _, FS_rename uninit clock startpos root (elements from) (elements to)) ;;
  mret 0).
Definition link (from to : bytes) : M t Z := mret ENOSYS.
Definition chmod (p : bytes) (mode : Z) : M t Z := catch_int (
  absolute p ;;
  call_fs (λ _, FS_chmod clock startpos root (elements p) mode) ;;
  mret 0).
Definition chown (p : bytes) (uid gid : Z) : M t Z := catch_int (
  absolute p ;;
  call_fs (λ _, FS_chown clock startpos root (elements p) uid gid) ;;
  mret 0).
Definition truncate (p : bytes) (size : Z) : M t Z := catch_int (
  absolute p ;;
  call_fs (λ _, FS_truncate clock startpos root (elements p) size) ;;
  mret 0).
Definition ftruncate (size fh : Z) : M t Z := catch_int (
  call_fs (λ _, FilesystemImpl.ftruncate clock startpos (i32 fh) size) ;;
  mret 0).
Definition utimens (p : bytes) (lastAccessTime lastModificationTime : timespec) : M t Z := catch_int (
  absolute p ;;
  call_fs (λ _, FS_utimens clock startpos root (elements p) lastAccessTime lastModificationTime) ;;
  mret 0).
(** [openFile] ignores the flags; the descriptor is an [int], the handle a
    [uint64_t]. *)
Definition open (p : bytes) (flags : Z) : M t (Z * option Z) := catch_out (
  absolute p ;;
  fd ← call_fs (λ _, openFile root (elements p)) ;
  mret (0, Some (u64 fd))).
Definition release (fh : Z) : M t Z := catch_int (
  call_fs (λ _, closeFile (i32 fh)) ;;
  mret 0).
(** The result is an [int]; the output are the bytes copied to [buf]. *)
Definition read (size offset fh : Z) : M t (Z * option bytes) := catch_out (
  data ← call_fs (λ behavior, FilesystemImpl.read clock startpos behavior (i32 fh) (i64 size) offset) ;
  mret (i32 (Z.of_nat (length data)), Some data)).
Definition write (buf : bytes) (offset fh : Z) : M t Z := catch_int (
  call_fs (λ _, FilesystemImpl.write clock startpos (i32 fh) buf offset) ;;
  mret (i32 (Z.of_nat (length buf)))).
Definition statfs (p : bytes) : M t (Z * option posix_statvfs) := catch_out (
  absolute p ;;
  st ← call_fs (λ _, FS_statfs) ;
  mret (0, Some st)).
Definition flush (fh : Z) : M t Z := catch_int (
  call_fs (λ _, FilesystemImpl.flush uninit (i32 fh)) ;;
  mret 0).
Definition fsync (datasync fh : Z) : M t Z := catch_int (
  (if decide (datasync = 0) then call_fs (λ _, FilesystemImpl.fsync uninit (i32 fh))
   else call_fs (λ _, fdatasync (i32 fh))) ;;
  mret 0).
Definition access (p : bytes) (mask : Z) : M t Z := catch_int (
  absolute p ;;
  call_fs (λ _, FS_access root (elements p)) ;;
  mret 0).
Definition create (p : bytes) (mode : Z) : M t (Z * option Z) := catch_out (
  absolute p ;;
  fd ← call_fs (λ _, FS_createAndOpenFile clock startpos root (elements p) mode uid gid) ;
  mret (0, Some (u64 fd))).

(** [readdir] hands every entry to [filler], which may call back and may
    change the buffer [B] of the caller and the [stat], which is reused. *)
Definition stat_zero : stat_info := mkStat 0 0 0 0 0 0 (mkTime 0 0) (mkTime 0 0) (mkTime 0 0).
Definition with_mode (mode : Z) (st : stat_info) : stat_info :=
  mkStat (st_nlink st) mode (st_uid st) (st_gid st) (st_size st) (st_blocks st) (st_atime st) (st_mtime st) (st_ctime st).
Definition type_mode (ty : EntryType) : Z :=
  match ty with DIR => mode_t.S_IFDIR_ | FILE => mode_t.S_IFREG_ | SYMLINK => mode_t.S_IFLNK_ end.
Definition on_fuse {A B} (m : M t A) : M (t * B) A := zoom fst (λ f s, (f, s.2)) m.
Fixpoint fill {B} (filler : bytes → stat_info → M (t * B) (Z * stat_info)) (entries : list (EntryType * bytes)) (stbuf : stat_info) : M (t * B) Z :=
  match entries with
  | [] => mret 0
  | (type, name) :: entries' =>
      '(res, stbuf') ← filler (SymlinkBlob.c_str name) (with_mode (type_mode type) stbuf) ;
      if decide (res = 0) then fill filler entries' stbuf' else mret (- ENOMEM)
  end.
Definition readdir {B} (p : bytes) (filler : bytes → stat_info → M (t * B) (Z * stat_info)) : M (t * B) Z := catch_int (
  absolute p ;;
  entries ← on_fuse (call_fs (λ behavior, readDir clock startpos behavior root (elements p))) ;
  fill filler entries stat_zero).

(** [_init] makes the file system; it may throw. [setContext] hands the
    context to the device. *)
Definition setContext (behavior : TimestampUpdateBehavior) : M t unit := λ f,
  match _fs f with
  | InvalidFilesystem => (Throw (LogicError "Filesystem not initialized yet"), f)
  | Impl _ fs => (Ok tt, set_fs (Impl behavior fs) f)
  end.
Definition init (_init : result (TimestampUpdateBehavior * filesystem S)) : M t unit :=
  '(behavior, fs) ← lift _init ;
  modify (set_fs (Impl behavior fs)) ;;
  modify (λ f, mk (_fs f) (Some noatime) (_running f)) ;;
  f ← get_state ;
  match _context f with
  | None => mthrow (AssertFailed "Context should have been initialized in Fuse::run() but somehow didn't")
  | Some context => setContext context
  end ;;
  modify (λ f, mk (_fs f) (_context f) true).

(** The old file system is destructed: the device drops its objects in the
    order [ids]; the result is the blob store it leaves. *)
Definition destroy (ids : list bytes) : M t (option S) :=
  f ← get_state ;
  left ← (match _fs f with
          | InvalidFilesystem => mret None
          | Impl behavior _ =>
              call_fs (λ _, on_device (run_destructor (evict_all uninit ids))) ;;
              f' ← get_state ;
              mret (match _fs f' with Impl _ fs' => Some (base (device fs')) | InvalidFilesystem => None end)
          end) ;
  modify (λ f, mk InvalidFilesystem (_context f) false) ;;
  mret left.
End fuse.
Arguments Filesystem S : clear implicits.
Arguments t S : clear implicits.
End Fuse.
