(* ===== verification/FuseSpec.v ===== *)
(** * What the callbacks for FUSE promise

    Every callback is one call of the file system with its result turned into
    an [int]: [run_op_call]. So a sequence of callbacks refines the tree of
    files, never throws, and returns zero, a count or a negated error number;
    before [init] and after [destroy] the callbacks fail with EIO. *)
From S2P Require Import Prelude Serialization DirEntry DirEntryList DirSpec Directory FsBlobs FsBlobSpec MemBlobs FsTree FsObjects FsObjSpec FsDirSpec FsView CryFs CrySpec RenameSpec FilesystemImpl OpenFiles Filesystem FsRefine Mount NodeSpec BlobModel Fuse.
From Stdlib Require Import Lia ZArith.
Open Scope Z_scope.
Import DirEntry.

(** ** Callbacks as data *)
Inductive op :=
| Getattr (p : bytes)
| Fgetattr (p : bytes) (fh : Z)
| Readlink (p : bytes) (buf : bytes)
| Mkdir (p : bytes) (mode : Z)
| Unlink (p : bytes)
| Rmdir (p : bytes)
| Symlink (to from : bytes)
| Rename (from to : bytes)
| Link (from to : bytes)
| Chmod (p : bytes) (mode : Z)
| Chown (p : bytes) (uid gid : Z)
| Truncate (p : bytes) (size : Z)
| Ftruncate (size fh : Z)
| Utimens (p : bytes) (a m : timespec)
| Open (p : bytes) (flags : Z)
| Release (fh : Z)
| Read (size offset fh : Z)
| Write (buf : bytes) (offset fh : Z)
| Statfs (p : bytes)
| Flush (fh : Z)
| Fsync (datasync fh : Z)
| Readdir (p : bytes)
| Access (p : bytes) (mask : Z)
| Create (p : bytes) (mode : Z).

Inductive output := ONone | OStat (st : stat_info) | OBytes (b : bytes) | OHandle (fh : Z) | ODir (l : list (bytes * Z)) | OStatfs (st : posix_statvfs).
Definition reply : Type := Z * output.

Section fuse.
Context {path : BoostPath} {S : Type} `{!BlobStore S}.
Context (uninit : nat → bytes) (clock : nat → timespec) (startpos : Z → nat → nat).
Context (getuid getgid : Z) (root : bytes) (uid gid : Z).
Implicit Types (f : Fuse.t S) (fs : filesystem S).

Definition out {A} (k : A → output) (m : M (Fuse.t S) (Z * option A)) : M (Fuse.t S) reply :=
  '(code, x) ← m ; mret (code, match x with Some a => k a | None => ONone end).
Definition int_only (m : M (Fuse.t S) Z) : M (Fuse.t S) reply := code ← m ; mret (code, ONone).
(** A filler that keeps the names and the modes. *)
Definition collect (name : bytes) (st : stat_info) : M (Fuse.t S * list (bytes * Z)) (Z * stat_info) :=
  modify (λ s, (s.1, s.2 ++ [(name, st_mode st)])) ;; mret (0, st).
Definition listing (m : M (Fuse.t S * list (bytes * Z)) Z) : M (Fuse.t S) reply := λ f,
  match m (f, []) with
  | (Ok code, (f', l)) => (Ok (code, ODir l), f')
  | (Throw e, (f', _)) => (Throw e, f')
  end.

Definition run_op (x : op) : M (Fuse.t S) reply :=
  match x with
  | Getattr p => out OStat (Fuse.getattr clock startpos getuid getgid root p)
  | Fgetattr p fh => out OStat (Fuse.fgetattr clock startpos getuid getgid root p fh)
  | Readlink p buf => out OBytes (Fuse.readlink clock startpos root p buf)
  | Mkdir p mode => int_only (Fuse.mkdir clock startpos root uid gid p mode)
  | Unlink p => int_only (Fuse.unlink uninit clock startpos root p)
  | Rmdir p => int_only (Fuse.rmdir uninit clock startpos root p)
  | Symlink to from => int_only (Fuse.symlink clock startpos root uid gid to from)
  | Rename from to => int_only (Fuse.rename uninit clock startpos root from to)
  | Link from to => int_only (Fuse.link from to)
  | Chmod p mode => int_only (Fuse.chmod clock startpos root p mode)
  | Chown p u g => int_only (Fuse.chown clock startpos root p u g)
  | Truncate p size => int_only (Fuse.truncate clock startpos root p size)
  | Ftruncate size fh => int_only (Fuse.ftruncate clock startpos size fh)
  | Utimens p a m => int_only (Fuse.utimens clock startpos root p a m)
  | Open p flags => out OHandle (Fuse.open root p flags)
  | Release fh => int_only (Fuse.release fh)
  | Read size offset fh => out OBytes (Fuse.read clock startpos size offset fh)
  | Write buf offset fh => int_only (Fuse.write clock startpos buf offset fh)
  | Statfs p => out OStatfs (Fuse.statfs p)
  | Flush fh => int_only (Fuse.flush uninit fh)
  | Fsync datasync fh => int_only (Fuse.fsync uninit datasync fh)
  | Readdir p => listing (Fuse.readdir clock startpos root p collect)
  | Access p mask => int_only (Fuse.access root p mask)
  | Create p mode => out OHandle (Fuse.create clock startpos root uid gid p mode)
  end.
Fixpoint run_ops (xs : list op) f : list (result reply) * Fuse.t S :=
  match xs with
  | [] => ([], f)
  | x :: xs' => let '(r, f1) := run_op x f in let '(rs, f2) := run_ops xs' f1 in (r :: rs, f2)
  end.

(** ** The call a callback makes, if any *)
Definition on_path (p : bytes) (c : call) : option call := if Fuse.is_valid_fspp_path p then Some c else None.
Definition call_of (x : op) : option call :=
  match x with
  | Getattr p => on_path p (CLstat (elements p))
  | Fgetattr p fh => on_path p (if decide (p = Fuse.slash) then CLstat (elements p) else CFstat (i32 fh))
  | Readlink p buf => on_path p (CReadSymlink (elements p) buf)
  | Mkdir p mode => if is_root p then None else on_path p (CMkdir (elements p) mode uid gid)
  | Unlink p => on_path p (CUnlink (elements p))
  | Rmdir p => on_path p (CRmdir (elements p))
  | Symlink to from => on_path from (CSymlink to (elements from) uid gid)
  | Rename from to => if Fuse.is_valid_fspp_path from then on_path to (CRename (elements from) (elements to)) else None
  | Link _ _ => None
  | Chmod p mode => on_path p (CChmod (elements p) mode)
  | Chown p u g => on_path p (CChown (elements p) u g)
  | Truncate p size => on_path p (CTruncate (elements p) (Z.to_nat size))
  | Ftruncate size fh => Some (CFtruncate (i32 fh) (Z.to_nat size))
  | Utimens p a m => on_path p (CUtimens (elements p) a m)
  | Open p _ => on_path p (COpen (elements p))
  | Release fh => Some (CClose (i32 fh))
  | Read size offset fh => Some (CRead (i32 fh) (Z.to_nat size) (Z.to_nat offset))
  | Write buf offset fh => Some (CWrite (i32 fh) buf (Z.to_nat offset))
  | Statfs p => on_path p CStatfs
  | Flush fh => Some (CFlush (i32 fh))
  | Fsync datasync fh => Some (if decide (datasync = 0) then CFsync (i32 fh) else CFdatasync (i32 fh))
  | Readdir p => on_path p (CReadDir (elements p))
  | Access p _ => on_path p (CAccess (elements p))
  | Create p mode => on_path p (CCreate (elements p) mode uid gid)
  end.
(** What a callback that makes no call returns. *)
Definition no_output (x : op) : output := match x with Readdir _ => ODir [] | _ => ONone end.
Definition no_call_reply (x : op) : reply :=
  match x with
  | Link _ _ => (ENOSYS, ONone)
  | Mkdir p _ => (if Fuse.is_valid_fspp_path p then 0 else - errno_value EIO, ONone)
  | _ => (- errno_value EIO, no_output x)
  end.
Definition error_code (e : exn) : Z := match e with FuseErrno e => - errno_value e | _ => - errno_value EIO end.
Definition reply_of (x : op) (r : result value) : reply :=
  match x, r with
  | _, Throw e => (error_code e, no_output x)
  | Read _ _ _, Ok (RBytes b) => (i32 (Z.of_nat (length b)), OBytes b)
  | Write buf _ _, Ok _ => (i32 (Z.of_nat (length buf)), ONone)
  | _, Ok (RStat st) => (0, OStat st)
  | _, Ok (RBytes b) => (0, OBytes b)
  | _, Ok (RFd fd) => (0, OHandle (u64 fd))
  | _, Ok (RList l) => (0, ODir ((λ '(ty, name), (SymlinkBlob.c_str name, Fuse.type_mode ty)) <$> l))
  | _, Ok (RStatfs st) => (0, OStatfs st)
  | _, Ok RUnit => (0, ONone)
  end.
(** What the callbacks catch. *)
Definition caught {A} (r : result A) : Prop :=
  match r with Throw (Terminate | OutOfFuel | UndefinedBehaviour) => False | _ => True end.
(** Sizes and offsets at their width. *)
Definition sizes_ok (x : op) : Prop :=
  match x with
  | Truncate _ size | Ftruncate size _ => 0 ≤ size
  | Read size offset _ => 0 ≤ size < 2 ^ 31 ∧ 0 ≤ offset
  | Write buf offset _ => 0 ≤ offset ∧ Z.of_nat (length buf) < 2 ^ 31
  | _ => True
  end.

(** ** Every callback is one call *)
Lemma catch_bind_call {A B} (h : Z → B) (k : A → M (Fuse.t S) B) (b : A → B) (m : TimestampUpdateBehavior → M (filesystem S) A) f behavior fs r fs' :
  Fuse._fs f = Fuse.Impl behavior fs → m behavior fs = (r, fs') → caught r → (∀ a g, k a g = (Ok (b a), g)) →
  Fuse.catch_all h (Fuse.call_fs m ≫= k) f = (Ok (match r with Ok a => b a | Throw e => h (error_code e) end), Fuse.set_fs (Fuse.Impl behavior fs') f).
Proof.
  intros Hf Hm Hr Hk. unfold Fuse.catch_all, Fuse.call_fs, mbind, M_bind. rewrite Hf, Hm. destruct r as [a|e]; [by rewrite Hk|by destruct e].
Qed.
Lemma catch_absolute {T A} (h : Z → A) (b : bool) msg (k : M T A) s :
  Fuse.catch_all h (ASSERT b msg ;; k) s = if b then Fuse.catch_all h k s else (Ok (h (- errno_value EIO)), s).
Proof. by destruct b. Qed.

Lemma value_call {A} (m : M (filesystem S) A) (k : A → value) fs fs' r : (a ← m ; mret (k a)) fs = (r, fs') →
  ∃ r0, m fs = (r0, fs') ∧ r = match r0 with Ok a => Ok (k a) | Throw e => Throw e end.
Proof.
  unfold mbind, M_bind. destruct (m fs) as [r0 fs0]. intros Hc. exists r0.
  destruct r0; injection Hc as <- <-; by split.
Qed.

Section one_call.
Context (f : Fuse.t S) (behavior : TimestampUpdateBehavior) (fs fs' : filesystem S) (r : result value).
Context (Hf : Fuse._fs f = Fuse.Impl behavior fs) (Hr : caught r).
Definition after_call : Fuse.t S := Fuse.set_fs (Fuse.Impl behavior fs') f.

Lemma int_call (m : TimestampUpdateBehavior → M (filesystem S) unit) code : unit_call (m behavior) fs = (r, fs') →
  ∃ r0 : result unit, r = match r0 with Ok _ => Ok RUnit | Throw e => Throw e end ∧
  int_only (Fuse.catch_all id (Fuse.call_fs m ;; mret code)) f = (Ok (match r0 with Ok _ => code | Throw e => error_code e end, ONone), after_call).
Proof using Hf Hr.
  intros (r0 & E & ->)%value_call. exists r0. split; [done|].
  etransitivity; [eapply bind_ok, (catch_bind_call _ _ (λ _, code) _ _ behavior fs r0 fs'); by destruct r0|by destruct r0].
Qed.
Lemma out_call {A B} (m : TimestampUpdateBehavior → M (filesystem S) A) (v : A → value) (code : A → Z) (g : A → B) (j : B → output) :
  (a ← m behavior ; mret (v a)) fs = (r, fs') →
  ∃ r0 : result A, r = match r0 with Ok a => Ok (v a) | Throw e => Throw e end ∧
  out j (Fuse.catch_all (λ c, (c, None)) (a ← Fuse.call_fs m ; mret (code a, Some (g a)))) f =
    (Ok (match r0 with Ok a => (code a, j (g a)) | Throw e => (error_code e, ONone) end), after_call).
Proof using Hf Hr.
  intros (r0 & E & ->)%value_call. exists r0. split; [done|].
  etransitivity; [eapply bind_ok, (catch_bind_call _ _ (λ a, (code a, Some (g a))) _ _ behavior fs r0 fs'); by destruct r0|by destruct r0].
Qed.
End one_call.

Lemma fill_collect l : ∀ stbuf f acc,
  Fuse.fill collect l stbuf (f, acc) = (Ok 0, (f, acc ++ ((λ '(ty, name), (SymlinkBlob.c_str name, Fuse.type_mode ty)) <$> l))).
Proof.
  induction l as [|[ty name] l IH]; intros stbuf f acc; simpl; [by rewrite app_nil_r|].
  unfold collect at 1, modify, mbind, M_bind, mret, M_ret. simpl. unfold mbind, M_bind in IH. rewrite IH. by rewrite <- app_assoc.
Qed.

(** The cases of callbacks without and with output: [m] is the method. *)
Ltac valid Hc := repeat match type of Hc with (if ?b then _ else _) = _ => destruct b eqn:?; try discriminate Hc end; try discriminate Hc; injection Hc as <-;
  repeat match goal with H : Fuse.is_valid_fspp_path _ = true |- _ => rewrite H end.
Ltac one_int Hf Hr E m code := let r0 := fresh in let H := fresh in
  destruct (int_call _ _ _ _ _ Hf Hr m code E) as (r0 & -> & H); etransitivity; [exact H|by destruct r0].
Ltac one_out Hf Hr E m v code g j := let r0 := fresh in let H := fresh in
  destruct (out_call _ _ _ _ _ Hf Hr m v code g j E) as (r0 & -> & H); etransitivity; [exact H|by destruct r0].
Lemma listing_call p f behavior fs r fs' : Fuse._fs f = Fuse.Impl behavior fs → Fuse.is_valid_fspp_path p = true →
  run_call uninit clock startpos behavior getuid getgid root (CReadDir (elements p)) fs = (r, fs') → caught r →
  listing (Fuse.readdir clock startpos root p collect) f = (Ok (reply_of (Readdir p) r), after_call f behavior fs').
Proof.
  intros Hf Hv (r0 & E & ->)%value_call Hr. unfold listing, Fuse.readdir. rewrite Hv. unfold Fuse.catch_all, Fuse.on_fuse, zoom, Fuse.call_fs.
  unfold ASSERT, mbind, M_bind, mret, M_ret. cbn [fst snd]. rewrite Hf, E. destruct r0 as [l|e]; cbn -[Fuse.fill]; [|by destruct e]. by rewrite fill_collect.
Qed.

Lemma run_op_call (x : op) (c : call) f behavior fs r fs' :
  Fuse._fs f = Fuse.Impl behavior fs → sizes_ok x → call_of x = Some c → run_call uninit clock startpos behavior getuid getgid root c fs = (r, fs') → caught r →
  run_op x f = (Ok (reply_of x r), after_call f behavior fs').
Proof.
  intros Hf Hs Hc E Hr.
  destruct x; simpl in Hc; unfold on_path in Hc; cbn [run_op];
    unfold Fuse.getattr, Fuse.fgetattr, Fuse.readlink, Fuse.mkdir, Fuse.unlink, Fuse.rmdir, Fuse.symlink, Fuse.rename, Fuse.chmod, Fuse.chown, Fuse.truncate,
      Fuse.ftruncate, Fuse.utimens, Fuse.open, Fuse.release, Fuse.read, Fuse.write, Fuse.statfs, Fuse.flush, Fuse.fsync, Fuse.access, Fuse.create, Fuse.getattr; valid Hc.
  - one_out Hf Hr E (λ _ : TimestampUpdateBehavior, lstat clock startpos getuid getgid root (elements p)) RStat (λ _ : stat_info, 0) (@id stat_info) OStat.
  - case_decide.
    + one_out Hf Hr E (λ _ : TimestampUpdateBehavior, lstat clock startpos getuid getgid root (elements p)) RStat (λ _ : stat_info, 0) (@id stat_info) OStat.
    + one_out Hf Hr E (λ _ : TimestampUpdateBehavior, fstat (S := S) startpos (i32 fh)) RStat (λ _ : stat_info, 0) (@id stat_info) OStat.
  - one_out Hf Hr E (λ b, readSymlink clock startpos b root (elements p) buf) RBytes (λ _ : bytes, 0) (@id bytes) OBytes.
  - one_int Hf Hr E (λ _ : TimestampUpdateBehavior, FilesystemImpl.mkdir clock startpos root (elements p) mode uid gid) 0.
  - one_int Hf Hr E (λ _ : TimestampUpdateBehavior, FilesystemImpl.unlink uninit clock startpos root (elements p)) 0.
  - one_int Hf Hr E (λ _ : TimestampUpdateBehavior, FilesystemImpl.rmdir uninit clock startpos root (elements p)) 0.
  - one_int Hf Hr E (λ _ : TimestampUpdateBehavior, FS_createSymlink clock startpos root to (elements from) uid gid) 0.
  - one_int Hf Hr E (λ _ : TimestampUpdateBehavior, FS_rename uninit clock startpos root (elements from) (elements to)) 0.
  - one_int Hf Hr E (λ _ : TimestampUpdateBehavior, FS_chmod clock startpos root (elements p) mode) 0.
  - one_int Hf Hr E (λ _ : TimestampUpdateBehavior, FS_chown clock startpos root (elements p) uid0 gid0) 0.
  - cbn [run_call] in E. rewrite Z2Nat.id in E by done.
    one_int Hf Hr E (λ _ : TimestampUpdateBehavior, FS_truncate clock startpos root (elements p) size) 0.
  - cbn [run_call] in E. rewrite Z2Nat.id in E by done.
    one_int Hf Hr E (λ _ : TimestampUpdateBehavior, FilesystemImpl.ftruncate clock startpos (i32 fh) size) 0.
  - one_int Hf Hr E (λ _ : TimestampUpdateBehavior, FS_utimens clock startpos root (elements p) a m) 0.
  - one_out Hf Hr E (λ _ : TimestampUpdateBehavior, openFile root (elements p)) RFd (λ _ : Z, 0) u64 OHandle.
  - one_int Hf Hr E (λ _ : TimestampUpdateBehavior, closeFile (S := S) (i32 fh)) 0.
  - destruct Hs. cbn [run_call] in E. rewrite !Z2Nat.id in E by lia. rewrite i64_small by lia.
    one_out Hf Hr E (λ b, FilesystemImpl.read clock startpos b (i32 fh) size offset) RBytes (λ d : bytes, i32 (Z.of_nat (length d))) (@id bytes) OBytes.
  - destruct Hs. cbn [run_call] in E. rewrite !Z2Nat.id in E by lia.
    one_int Hf Hr E (λ _ : TimestampUpdateBehavior, FilesystemImpl.write clock startpos (i32 fh) buf offset) (i32 (Z.of_nat (length buf))).
  - one_out Hf Hr E (λ _ : TimestampUpdateBehavior, FS_statfs (S := S)) RStatfs (λ _ : posix_statvfs, 0) (@id posix_statvfs) OStatfs.
  - one_int Hf Hr E (λ _ : TimestampUpdateBehavior, FilesystemImpl.flush uninit (i32 fh)) 0.
  - case_decide.
    + one_int Hf Hr E (λ _ : TimestampUpdateBehavior, FilesystemImpl.fsync uninit (i32 fh)) 0.
    + one_int Hf Hr E (λ _ : TimestampUpdateBehavior, fdatasync (S := S) (i32 fh)) 0.
  - by eapply listing_call.
  - one_int Hf Hr E (λ _ : TimestampUpdateBehavior, FS_access root (elements p)) 0.
  - one_out Hf Hr E (λ _ : TimestampUpdateBehavior, FS_createAndOpenFile clock startpos root (elements p) mode uid gid) RFd (λ _ : Z, 0) u64 OHandle.
Qed.
(** Before [init] and after [destroy] the call fails. *)
Lemma run_op_invalid (x : op) (c : call) f :
  Fuse._fs f = Fuse.InvalidFilesystem → call_of x = Some c → run_op x f = (Ok (- errno_value EIO, no_output x), f).
Proof.
  intros Hf Hc. destruct x; simpl in Hc; unfold on_path in Hc; cbn [run_op];
    unfold Fuse.getattr, Fuse.fgetattr, Fuse.readlink, Fuse.mkdir, Fuse.unlink, Fuse.rmdir, Fuse.symlink, Fuse.rename, Fuse.chmod, Fuse.chown, Fuse.truncate,
      Fuse.ftruncate, Fuse.utimens, Fuse.open, Fuse.release, Fuse.read, Fuse.write, Fuse.statfs, Fuse.flush, Fuse.fsync, Fuse.access, Fuse.create, Fuse.readdir, Fuse.getattr; valid Hc.
  all: repeat case_decide; cbv [out int_only listing Fuse.catch_all Fuse.on_fuse zoom Fuse.call_fs mbind M_bind ASSERT mret M_ret fst snd]; by rewrite Hf.
Qed.
(** ... or no call at all. *)
Lemma run_op_no_call (x : op) f : call_of x = None → run_op x f = (Ok (no_call_reply x), f).
Proof.
  destruct x; simpl; unfold on_path; intros Hc; try discriminate Hc; try done.
  all: repeat match type of Hc with (if ?b then _ else _) = _ => destruct b eqn:?; try discriminate Hc end.
  all: cbv [out int_only listing Fuse.getattr Fuse.fgetattr Fuse.readlink Fuse.mkdir Fuse.unlink Fuse.rmdir Fuse.symlink Fuse.rename Fuse.chmod Fuse.chown Fuse.truncate
      Fuse.utimens Fuse.open Fuse.statfs Fuse.access Fuse.create Fuse.readdir Fuse.catch_all mbind M_bind].
  all: repeat match goal with H : Fuse.is_valid_fspp_path _ = _ |- _ => rewrite H | H : is_root _ = _ |- _ => rewrite H end; try done.
  - by case_decide; rewrite ?Heqb.
  - by destruct (Fuse.is_valid_fspp_path p).
Qed.
End fuse.

(** ** The type of a reply *)
Definition failed (x : op) (rep : reply) : Prop := ∃ e, rep = (- errno_value e, no_output x).
Definition well_typed (x : op) (rep : reply) : Prop := failed x rep ∨
  match x with
  | Link _ _ => rep = (ENOSYS, ONone)
  | Getattr _ | Fgetattr _ _ => ∃ st, rep = (0, OStat st)
  | Readlink _ _ => ∃ b, rep = (0, OBytes b)
  | Read _ _ _ => ∃ b, rep = (i32 (Z.of_nat (length b)), OBytes b)
  | Write buf _ _ => rep = (i32 (Z.of_nat (length buf)), ONone)
  | Open _ _ | Create _ _ => ∃ fh, 0 ≤ fh < 2 ^ 64 ∧ rep = (0, OHandle fh)
  | Readdir _ => ∃ l, rep = (0, ODir l)
  | Statfs _ => ∃ st, rep = (0, OStatfs st)
  | _ => rep = (0, ONone)
  end.
Lemma error_code_errno e : ∃ er, error_code e = - errno_value er.
Proof. destruct e as [| | | | |er| | | | | |]; first [by exists EIO|by exists er]. Qed.

Section types.
Context {path : BoostPath} {S : Type} `{!BlobStore S}.
Implicit Types (f : Fuse.t S).
Lemma catch_post {T A} (h : Z → A) (m : M T A) s (Q : A → Prop) : (∀ a s', m s = (Ok a, s') → Q a) →
  post (Fuse.catch_all h m) s (λ r _, match r with Ok a => Q a ∨ ∃ e, a = h (- errno_value e) | Throw _ => ¬ caught r end).
Proof.
  intros H. unfold post, Fuse.catch_all. destruct (m s) as [[a|e] s'] eqn:E; simpl; [by left; eapply H|].
  destruct e as [| | | | |er| | | | | |]; simpl; first [by intros []|right; by exists EIO|right; by exists er].
Qed.
Lemma int_post x (m : M (Fuse.t S) Z) f : no_output x = ONone → (∀ a f', m f = (Ok a, f') → well_typed x (a, ONone)) →
  post (int_only (Fuse.catch_all id m)) f (λ r _, match r with Ok rep => well_typed x rep | Throw _ => ¬ caught r end).
Proof.
  intros Hx H. pose proof (catch_post id m f _ H) as Hp. revert Hp. unfold post, int_only, mbind, M_bind.
  destruct (Fuse.catch_all id m f) as [[a|e] f']; simpl; [|done]. intros [?|[e ->]]; [done|]. left. exists e. by rewrite Hx.
Qed.
Lemma out_post {A} x (j : A → output) (m : M (Fuse.t S) (Z * option A)) f : no_output x = ONone →
  (∀ c o f', m f = (Ok (c, o), f') → ∃ a, o = Some a ∧ well_typed x (c, j a)) →
  post (out j (Fuse.catch_all (λ c, (c, None)) m)) f (λ r _, match r with Ok rep => well_typed x rep | Throw _ => ¬ caught r end).
Proof.
  intros Hx H. pose proof (catch_post (λ c, (c, None)) m f (λ '(c, o), ∃ a, o = Some a ∧ well_typed x (c, j a))) as Hp.
  assert (∀ a f', m f = (Ok a, f') → let '(c, o) := a in ∃ a, o = Some a ∧ well_typed x (c, j a)) as H' by (intros [c o] f'; apply H).
  specialize (Hp H'). revert Hp. unfold post, out, mbind, M_bind. destruct (Fuse.catch_all _ m f) as [[[c o]|e] f']; simpl; [|done].
  intros [(a & -> & ?)|[e [= -> ->]]]; [done|]. left. exists e. by rewrite Hx.
Qed.
Lemma listing_post p clock startpos root f :
  post (listing (Fuse.readdir clock startpos root p collect)) f (λ r _, match r with Ok rep => well_typed (Readdir p) rep | Throw _ => ¬ caught r end).
Proof.
  unfold post, listing, Fuse.readdir, Fuse.catch_all, Fuse.on_fuse, zoom. unfold mbind, M_bind.
  destruct (Fuse.is_valid_fspp_path p); simpl; [|left; by exists EIO].
  destruct (Fuse.call_fs _ f) as [[l|e] f']; simpl; [rewrite fill_collect; right; by eexists|].
  destruct e as [| | | | |er| | | | | |]; simpl; first [by intros []|left; by exists EIO|left; by exists er].
Qed.
End types.

(** ** Specification *)
Section spec.
Context {path : BoostPath} (root : bytes) (max_blob : Z) (uid gid : Z).
Implicit Types (v : gmap bytes vnode) (o : gmap Z OpenFile) (x : op).

Definition op_spec x v o (rep : reply) v' o' : Prop :=
  match call_of uid gid x with
  | None => rep = no_call_reply x ∧ v' = v ∧ o' = o
  | Some c => ∃ r, call_spec root c v o r v' o' ∧ rep = reply_of x r
  end.
Definition op_ok x v o : Prop := sizes_ok x ∧ ∀ c, call_of uid gid x = Some c → call_ok root max_blob c v o.
Fixpoint ops_ok (xs : list op) v o : Prop :=
  match xs with
  | [] => True
  | x :: xs' => op_ok x v o ∧ ∀ rep v' o', op_spec x v o rep v' o' → ops_ok xs' v' o'
  end.
Fixpoint ops_spec (xs : list op) v o (reps : list (result reply)) v' o' : Prop :=
  match xs, reps with
  | [], [] => v' = v ∧ o' = o
  | x :: xs', Ok rep :: reps' => ∃ v1 o1, op_spec x v o rep v1 o1 ∧ ops_spec xs' v1 o1 reps' v' o'
  | _, _ => False
  end.
End spec.

Section theorems.
Context {path : BoostPath} {S : Type} `{!BlobStore S} `{!BlobStoreSpec S}.
Context (uninit : nat → bytes) (uninit_ok : ∀ n, length (uninit n) = n).
Context (clock : nat → timespec) (clock_ok : ∀ n, time_ok (clock n)).
Context (startpos : Z → nat → nat) (startpos_ok : ∀ b n, 0 ≤ b < 256 → (0 < n)%nat → (startpos b n < n)%nat).
Context (getuid getgid : Z) (root : bytes) (uid gid : Z).
Abbreviation run xs f := (run_ops uninit clock startpos getuid getgid root uid gid xs f).

(** The callbacks serve the file system [v] with the open files [o]. *)
Definition serves (n : nat) (f : Fuse.t S) v o : Prop :=
  ∃ behavior fs, Fuse._fs f = Fuse.Impl behavior fs ∧ fs_inv root n fs v o.

Lemma call_caught c v o r v' o' : call_spec root c v o r v' o' → caught r.
Proof using. destruct r as [|e]; [done|]. intros [[er ->]|(fd & -> & ->)]%call_spec_throws; done. Qed.

Lemma fs_inv_le n m fs v o : (n ≤ m)%nat → fs_inv root m fs v o → fs_inv root n fs v o.
Proof using.
  intros Hle (H1 & H2 & H3 & H4). split; [by eapply fs_view_le|]. split; [done|]. split; [by eapply files_le|done].
Qed.

Lemma fuse_op_spec n f v o x : serves (12 + n) f v o → op_ok root max_blob uid gid x v o →
  runs (run_op uninit clock startpos getuid getgid root uid gid x) f (λ rep f', ∃ v' o', serves n f' v' o' ∧ op_spec root uid gid x v o rep v' o').
Proof using uninit_ok clock_ok startpos_ok.
  intros (b & fs & Hf & Hinv) [Hs Hok]. unfold op_spec. destruct (call_of uid gid x) as [c|] eqn:Hc.
  - pose proof (run_call_spec uninit uninit_ok clock clock_ok startpos startpos_ok b getuid getgid root n fs v o c Hinv (Hok _ eq_refl)) as Hp. unfold post in Hp.
    destruct (run_call uninit clock startpos b getuid getgid root c fs) as [r fs'] eqn:E. destruct Hp as (v' & o' & Hinv' & Hspec). simpl in Hinv', Hspec.
    eexists _, _. split; [eapply run_op_call; [done..|by eapply call_caught]|]. exists v', o'. split; [|by exists r].
    by exists b, fs'.
  - eexists _, _. split; [by apply run_op_no_call|]. exists v, o. split; [|done]. exists b, fs. split; [done|].
    eapply fs_inv_le; [|exact Hinv]. lia.
Qed.

Lemma fuse_ops_spec (xs : list op) : ∀ n f v o,
  serves (12 * length xs + n) f v o → ops_ok root max_blob uid gid xs v o →
  ∃ v' o', serves n (run xs f).2 v' o' ∧ ops_spec root uid gid xs v o (run xs f).1 v' o'.
Proof using uninit_ok clock_ok startpos_ok.
  induction xs as [|x xs IH]; intros n f v o Hf Hok; [by exists v, o|]. destruct Hok as [Hx Hxs].
  replace (12 * length (x :: xs) + n)%nat with (12 + (12 * length xs + n))%nat in Hf by (simpl; lia).
  destruct (fuse_op_spec _ _ _ _ _ Hf Hx) as (rep & f1 & E & v1 & o1 & Hf1 & Hspec). simpl. rewrite E.
  destruct (IH n f1 v1 o1 Hf1 (Hxs _ _ _ Hspec)) as (v' & o' & H1 & H2).
  destruct (run xs f1) as [rs f2]. exists v', o'. split; [done|]. by exists v1, o1.
Qed.

(** C4. The callbacks refine the tree of files. When the object serves a file
    system that represents a tree, a sequence of callbacks that [ops_ok]
    admits returns (no exception leaves a callback), each with the reply that
    the specification of the call gives: zero and the output of the call, the
    number of bytes, or the negated error number; and the tree and the open
    files after the sequence are the specified ones. Callbacks on relative
    paths fail with EIO and change nothing. All callbacks of the class are
    included, [statfs] too. [ops_ok] asks of the call behind a callback what
    [call_ok] asks: valid arguments, no removal or replacement of a node that
    is open or that is the directory an open file was opened in, and not the
    renames of [rename_replaces_nonempty_dir] and
    [rename_dir_over_file_dangles] (Mount.v); sizes and offsets are not
    negative, and less than 2^31 bytes are read or written at once. *)
Theorem fuse_refines_tree (xs : list op) : ∀ n f v o,
  serves (12 * length xs + n) f v o → ops_ok root max_blob uid gid xs v o →
  ∃ v' o', serves n (run xs f).2 v' o' ∧ ops_spec root uid gid xs v o (run xs f).1 v' o'.
Proof using uninit_ok clock_ok startpos_ok. apply fuse_ops_spec. Qed.

(** The objects a served file system holds. *)
Definition holds (f : Fuse.t S) (id : bytes) : Prop := ∃ behavior fs, Fuse._fs f = Fuse.Impl behavior fs ∧ loaded (device fs) id.
Lemma init_serves n f b fs v o : fs_inv root n fs v o →
  ∃ f', Fuse.init (Ok (b, fs)) f = (Ok tt, f') ∧ Fuse.running f' = true ∧ serves n f' v o.
Proof using. intros H. eexists. split; [done|]. split; [done|]. by exists noatime, fs. Qed.

Lemma destroy_leaves n f v o ids : serves (2 * length ids + n) f v o → NoDup ids → (∀ id, id ∈ ids ↔ holds f id) → Z.of_nat n < 2 ^ 31 →
  ∃ left f', Fuse.destroy uninit ids f = (Ok (Some left), f') ∧ Fuse._fs f' = Fuse.InvalidFilesystem ∧ Fuse.running f' = false ∧ fs_inv root n (mount left) v ∅.
Proof using uninit_ok.
  intros (b & fs & Hf & Hinv) Hnd Hids Hn. destruct Hinv as (Hs & [Ht _] & _).
  assert (∀ id, id ∈ ids ↔ loaded (device fs) id) as Hids'.
  { intros id. rewrite Hids. split; [|intros ?; by exists b, fs]. intros (b' & fs' & E & H). rewrite Hf in E. by injection E as <- <-. }
  destruct (evict_all_spec uninit uninit_ok ids n (device fs) v Hnd Hids' Hs) as ([] & d & E & Ho & Hv).
  exists (base d). eexists. split.
  { unfold Fuse.destroy, Fuse.call_fs, on_device, zoom, run_destructor, get_state, modify, mbind, M_bind. rewrite Hf, Hf, E. done. }
  split; [done|]. split; [done|]. apply fs_inv_new; [|done|done]. destruct Hv as (a & Ha & Hva). exists a. split; [|done].
  destruct d as [base0 ob t0]. simpl in *. subst ob. exact Ha.
Qed.

(** C30. A session. [init] with a file system that represents a tree makes
    the object serve it. Callbacks that [ops_ok] admits (valid arguments, no
    removal or replacement of a node in use by an open file, and not the two
    renames of Mount.v that lose data) follow the specification; [destroy]
    (the objects the file system holds are dropped in any order) leaves a blob
    store, the object is not running, and every callback that needs the file
    system then fails with EIO and changes nothing. [init] with what is left
    serves the tree of the end of the session again: nothing is lost. *)
Theorem fuse_session (xs : list op) n b b' fs v :
  fs_inv root (12 * length xs + n) fs v ∅ → ops_ok root max_blob uid gid xs v ∅ → Z.of_nat n < 2 ^ 31 →
  ∃ f1 v' o', Fuse.init (Ok (b, fs)) Fuse.new = (Ok tt, f1) ∧ Fuse.running f1 = true ∧ ops_spec root uid gid xs v ∅ (run xs f1).1 v' o' ∧
  ∀ ids, NoDup ids → (∀ id, id ∈ ids ↔ holds (run xs f1).2 id) → (2 * length ids ≤ n)%nat →
  ∃ left f2 f3, Fuse.destroy uninit ids (run xs f1).2 = (Ok (Some left), f2) ∧ Fuse.running f2 = false ∧
    (∀ x c, call_of uid gid x = Some c → run_op uninit clock startpos getuid getgid root uid gid x f2 = (Ok (- errno_value EIO, no_output x), f2)) ∧
    Fuse.init (Ok (b', mount left)) f2 = (Ok tt, f3) ∧ serves (n - 2 * length ids) f3 v' ∅.
Proof using uninit_ok clock_ok startpos_ok.
  intros Hinv Hok Hn. destruct (init_serves _ Fuse.new b _ _ _ Hinv) as (f1 & E1 & Hr1 & Hs1).
  destruct (fuse_ops_spec xs n f1 v ∅ Hs1 Hok) as (v' & o' & Hs2 & Hspec). exists f1, v', o'. do 3 (split; [done|]).
  intros ids Hnd Hids Hle. destruct (destroy_leaves (n - 2 * length ids) (run xs f1).2 v' o' ids) as (left & f2 & E2 & Hi & Hr2 & Hinv2); [|done|done|lia|].
  { replace (2 * length ids + (n - 2 * length ids))%nat with n by lia. done. }
  destruct (init_serves _ f2 b' _ _ _ Hinv2) as (f3 & E3 & _ & Hs3). exists left, f2, f3.
  do 2 (split; [done|]). split; [|done]. intros x c Hc. by eapply run_op_invalid.
Qed.

(** C31. The callbacks are typed. On every state, also one that stands for no
    tree, a callback never lets a C++ exception out, and its reply has the
    type of the callback: a failure is a negated error number without output,
    a success is zero with the output of the callback, except for [read] and
    [write], which return a count, and [link], which returns the positive
    ENOSYS. *)
Theorem callbacks_typed (x : op) (f : Fuse.t S) :
  post (run_op uninit clock startpos getuid getgid root uid gid x) f (λ r _, match r with Ok rep => well_typed x rep | Throw _ => ¬ caught r end).
Proof using.
  destruct x; cbn [run_op].
  all: try (by right).
  all: unfold Fuse.fgetattr; repeat case_decide.
  all: try (apply int_post; [done|]; intros code f'; repeat (case_match; try done)).
  all: try (apply out_post; [done|]; intros c' o' f').
  all: try apply listing_post.
  all: repeat (let E := fresh in intros (? & ? & _ & E)%bind_inv; revert E; cbv beta; try case_match).
  all: let E := fresh in intros E; injection E; intros; subst; try (eexists; split; [done|]); right; simpl; try done; try (by eexists).
  all: eexists; split; [|done]; apply u64_range.
Qed.
End theorems.

(** ** A concrete session *)

(** Paths as POSIX has them: names between slashes. *)
Fixpoint split_path (cur p : bytes) : list bytes :=
  match p with
  | [] => if decide (cur = []) then [] else [cur]
  | b :: p' => if decide (b = x2f) then (if decide (cur = []) then [] else [cur]) ++ split_path [] p' else split_path (cur ++ [b]) p'
  end.
Definition posix : BoostPath := {|
  has_root_directory p := bool_decide (head p = Some x2f);
  has_root_name p := bool_decide (take 2 p = [x2f; x2f]);
  generic_string p := p;
  elements p := split_path [] p;
  is_root p := bool_decide (p = [x2f]);
  append p q := if decide (last p = Some x2f) then p ++ q else p ++ x2f :: q |}.
Definition slash_a : bytes := [x2f; x61].
Definition slash_af : bytes := [x2f; x61; x2f; x66].
Definition small_ops : list op :=
  [Mkdir slash_a 493; Create slash_af 420; Write [x01; x02] 3 1; Link slash_a slash_a; Mkdir [x2f] 493; Getattr [x61]; Release 1].
Lemma small_ops_ok (r : bytes) (limit : Z) v o : 24 ≤ limit → @ops_ok posix r limit 0 0 small_ops v o.
Proof.
  intros Hlim. unfold small_ops. split; [split; [done|]|intros ? v1 o1 _].
  { intros c [= <-]. split; [by vm_compute|]. split; [by apply (bool_decide_unpack _)|]. split; [by vm_compute; lia|lia]. }
  split; [split; [done|]|intros ? v2 o2 _].
  { intros c [= <-]. split; [by vm_compute|]. split; [by apply (bool_decide_unpack _)|]. split; [by vm_compute; lia|lia]. }
  split; [split; [by vm_compute|]|intros ? v3 o3 _].
  { intros c [= <-]. simpl. lia. }
  do 3 (split; [split; [done|by intros c [=]]|intros ? ? ? _]). split; [split; [done|]|done]. by intros c [= <-].
Qed.

Abbreviation small_run f := (@run_ops posix mem _ z_uninit z_clock z_startpos 0 0 fresh.1 0 0 small_ops f).
Definition fresh_fuse : Fuse.t mem := Fuse.mk (Fuse.Impl noatime fresh.2) (Some noatime) true.

Lemma fuse_refines_tree_witness :
  (small_run fresh_fuse).1 = [Ok (0, ONone); Ok (0, OHandle 1); Ok (2, ONone); Ok (38, ONone); Ok (0, ONone); Ok (-5, ONone); Ok (0, ONone)] ∧
  ∃ v' o', @serves mem _ _ fresh.1 900 (small_run fresh_fuse).2 v' o' ∧
    @ops_spec posix fresh.1 0 0 small_ops (empty_tree fresh.1) ∅ (small_run fresh_fuse).1 v' o'.
Proof.
  split; [by vm_compute|].
  apply (@fuse_refines_tree posix mem _ _ z_uninit z_uninit_ok z_clock z_clock_ok z_startpos z_startpos_ok 0 0 fresh.1 0 0 small_ops 900 fresh_fuse).
  - exists noatime, fresh.2. split; [done|]. eapply fs_inv_le; [|exact fresh_inv]. simpl. lia.
  - by apply small_ops_ok; vm_compute.
Defined.

(** All objects a served file system holds. *)
Definition held_ids (f : Fuse.t mem) : list bytes :=
  match Fuse._fs f with Fuse.InvalidFilesystem => [] | Fuse.Impl _ fs => (map_to_list (objects (device fs))).*1 end.
Lemma held_ids_ok f : NoDup (held_ids f) ∧ ∀ id, id ∈ held_ids f ↔ holds f id.
Proof.
  unfold held_ids, holds. destruct (Fuse._fs f) as [|b fs]; (split; [first [constructor|apply NoDup_fst_map_to_list]|]); intros id.
  - split; [by intros ?%elem_of_nil|by intros (b & fs & ? & _)].
  - rewrite list_elem_of_fmap. split.
    + intros ([i x] & -> & H). exists b, fs. split; [done|]. apply elem_of_map_to_list in H. by eexists.
    + intros (b' & fs' & [= <- <-] & [x H]). exists (id, x). split; [done|]. by apply elem_of_map_to_list.
Qed.

Lemma fuse_session_witness :
  let ids := held_ids (small_run fresh_fuse).2 in
  ∃ v' o', Fuse.init (Ok (relatime, fresh.2)) Fuse.new = (Ok tt, fresh_fuse) ∧
  @ops_spec posix fresh.1 0 0 small_ops (empty_tree fresh.1) ∅ (small_run fresh_fuse).1 v' o' ∧
  ∃ left f2 f3, Fuse.destroy z_uninit ids (small_run fresh_fuse).2 = (Ok (Some left), f2) ∧
    Fuse.init (Ok (relatime, mount left)) f2 = (Ok tt, f3) ∧ @serves mem _ _ fresh.1 (900 - 2 * length ids) f3 v' ∅.
Proof.
  intros ids.
  destruct (@fuse_session posix mem _ _ z_uninit z_uninit_ok z_clock z_clock_ok z_startpos z_startpos_ok 0 0 fresh.1 0 0 small_ops 900 relatime relatime fresh.2 (empty_tree fresh.1))
    as (f1 & v' & o' & E1 & _ & Hspec & H).
  - eapply fs_inv_le; [|exact fresh_inv]. simpl. lia.
  - by apply small_ops_ok; vm_compute.
  - lia.
  - assert (fresh_fuse = f1) as <- by (by injection E1).
    exists v', o'. split; [exact E1|]. split; [exact Hspec|].
    destruct (H ids) as (left & f2 & f3 & E2 & _ & _ & E3 & Hs); [apply held_ids_ok|apply held_ids_ok|by apply (bool_decide_unpack _); vm_compute|].
    exact (ex_intro _ left (ex_intro _ f2 (ex_intro _ f3 (conj E2 (conj E3 Hs))))).
Defined.
