(* ===== verification/Jni.v ===== *)
(** * The JNI functions (jni/libcryfs-jni.cpp)

    The functions the Java side calls with a pointer to a [Fuse] object, as a
    number. [heap] are the objects that exist; a call on a number that is not
    the address of one of them is undefined. [validFusePtrs] is the set the
    code keeps. The calls of the Java virtual machine only convert strings
    and arrays: a string is its bytes, an array is a byte list that is
    written back after the call. *)
From S2P Require Import Prelude Serialization DirEntry DirEntryList DirSpec Directory FsBlobs FsBlobSpec MemBlobs FsTree FsObjects FsObjSpec FsDirSpec FsView CryFs CrySpec RenameSpec FilesystemImpl OpenFiles Filesystem FsRefine Mount NodeSpec BlobModel Fuse FuseSpec.
From Stdlib Require Import Lia ZArith.
Open Scope Z_scope.
Import DirEntry.

Module Jni.
Section jni.
Context {path : BoostPath} {S : Type} `{!BlobStore S}.
Context (uninit : nat → bytes) (clock : nat → timespec) (startpos : Z → nat → nat).
Context (getuid getgid : Z) (root : bytes) (uid gid : Z).

Record t := mk { heap : gmap Z (Fuse.t S); validFusePtrs : gset Z }.
Definition new : t := mk ∅ ∅.

(** [reinterpret_cast<Fuse*>(fusePtr)->...] *)
Definition on_ptr {A} (fusePtr : Z) (m : M (Fuse.t S) A) : M t A := λ s,
  match heap s !! fusePtr with
  | None => (Throw UndefinedBehaviour, s)
  | Some f => let '(r, f') := m f in (r, mk (<[fusePtr := f']> (heap s)) (validFusePtrs s))
  end.

(** The end of [cryfs_init]: [fuse] is what [initFilesystem] returned or
    threw; [ptr] is the address of a new object, the null pointer is zero.
    The second component is the error code for the Java side. *)
Definition cryfs_init (fuse : result (option (Fuse.t S))) (ptr : Z) : M t (Z * option ErrorCode) :=
  match fuse with
  | Ok (Some f) =>
      modify (λ s, mk (<[ptr := f]> (heap s)) ({[ptr]} ∪ validFusePtrs s)) ;; mret (ptr, None)
  | Ok None => mret (0, None)
  | Throw (CryfsException code) => mret (0, Some code)
  | Throw e => mthrow e
  end.

(** [create] and [open] return the handle as a [jlong]. [*fh] is only
    assigned on success. *)
Definition handle_or_error (r : Z * option Z) : Z :=
  match r with (code, fh) => if decide (code = 0) then i64 (default 0 fh) else -1 end.
Definition cryfs_create (fusePtr : Z) (p : bytes) (mode : Z) : M t Z :=
  r ← on_ptr fusePtr (Fuse.create clock startpos root uid gid p mode) ;
  mret (handle_or_error r).
Definition cryfs_open (fusePtr : Z) (p : bytes) (flags : Z) : M t Z :=
  r ← on_ptr fusePtr (Fuse.open root p flags) ;
  mret (handle_or_error r).
(** The array after the call. *)
Definition cryfs_read (fusePtr fileHandle fileOffset : Z) (buffer : bytes) (dstOffset len : Z) : M t (Z * bytes) :=
  '(result, data) ← on_ptr fusePtr (Fuse.read clock startpos (u64 len) fileOffset (u64 fileHandle)) ;
  match data with
  | None => mret (result, buffer)
  | Some data => buffer' ← lift (Data.memcpy_to buffer (Z.to_nat dstOffset) data) ; mret (result, buffer')
  end.
Definition cryfs_write (fusePtr fileHandle fileOffset : Z) (buffer : bytes) (srcOffset len : Z) : M t Z :=
  data ← lift (Data.memcpy_from buffer (Z.to_nat srcOffset) (Z.to_nat (u64 len))) ;
  on_ptr fusePtr (Fuse.write clock startpos data fileOffset (u64 fileHandle)).
Definition cryfs_truncate (fusePtr : Z) (p : bytes) (size : Z) : M t Z :=
  on_ptr fusePtr (Fuse.truncate clock startpos root p size).
Definition cryfs_unlink (fusePtr : Z) (p : bytes) : M t Z := on_ptr fusePtr (Fuse.unlink uninit clock startpos root p).
Definition cryfs_release (fusePtr fileHandle : Z) : M t Z := on_ptr fusePtr (Fuse.release (u64 fileHandle)).
Definition cryfs_mkdir (fusePtr : Z) (p : bytes) (mode : Z) : M t Z := on_ptr fusePtr (Fuse.mkdir clock startpos root uid gid p mode).
Definition cryfs_rmdir (fusePtr : Z) (p : bytes) : M t Z := on_ptr fusePtr (Fuse.rmdir uninit clock startpos root p).
Definition cryfs_getattr (fusePtr : Z) (p : bytes) : M t (Z * option stat_info) :=
  on_ptr fusePtr (Fuse.getattr clock startpos getuid getgid root p).
Definition cryfs_rename (fusePtr : Z) (src dst : bytes) : M t Z := on_ptr fusePtr (Fuse.rename uninit clock startpos root src dst).

(** The filler of [cryfs_readdir]: it looks up every entry but "." and ".."
    and hands it to the filler of the caller. [getattr] writes the [stat]
    only when it succeeds. *)
Section readdir.
Context {B : Type} (filler : bytes → stat_info → B → Z * B).
Definition call_filler (name : bytes) (st : stat_info) : M (Fuse.t S * B) Z := λ s,
  let '(r, b) := filler name st s.2 in (Ok r, (s.1, b)).
Definition readDir (helper_path name : bytes) (st : stat_info) : M (Fuse.t S * B) (Z * stat_info) :=
  if decide (name = dot) then mret (0, st)
  else if decide (name = dotdot) then mret (0, st)
  else
    let mode := st_mode st in
    '(_, st') ← Fuse.on_fuse (Fuse.getattr clock startpos getuid getgid root (append helper_path name)) ;
    let st'' := Fuse.with_mode mode (default st st') in
    res ← call_filler name st'' ;
    mret (res, st'').
Definition cryfs_readdir (fusePtr : Z) (p : bytes) (data : B) : M t (Z * B) :=
  on_ptr fusePtr (λ f, match Fuse.readdir clock startpos root p (readDir p) (f, data) with
                       | (Ok result, (f', data')) => (Ok (result, data'), f')
                       | (Throw e, (f', _)) => (Throw e, f')
                       end).
End readdir.

(** [destroy] and [delete]; [ids] is the order in which the objects of the
    device are dropped. *)
Definition cryfs_destroy (ids : list bytes) (fusePtr : Z) : M t (option S) :=
  left ← on_ptr fusePtr (Fuse.destroy uninit ids) ;
  modify (λ s, mk (delete fusePtr (heap s)) (validFusePtrs s)) ;;
  modify (λ s, mk (heap s) (validFusePtrs s ∖ {[fusePtr]})) ;;
  mret left.
Definition cryfs_is_closed (fusePtr : Z) (s : t) : bool := bool_decide (fusePtr ∉ validFusePtrs s).

(** ** Which pointers may be used

    A step is one JNI function, with any arguments and any result. A new
    object is at an address that is not null and not in use. *)
Inductive step : t → t → Prop :=
| step_init fuse ptr s : ptr ≠ 0 → heap s !! ptr = None → step s (cryfs_init fuse ptr s).2
| step_create ptr p mode s : step s (cryfs_create ptr p mode s).2
| step_open ptr p flags s : step s (cryfs_open ptr p flags s).2
| step_read ptr fh off buf dst len s : step s (cryfs_read ptr fh off buf dst len s).2
| step_write ptr fh off buf src len s : step s (cryfs_write ptr fh off buf src len s).2
| step_truncate ptr p size s : step s (cryfs_truncate ptr p size s).2
| step_unlink ptr p s : step s (cryfs_unlink ptr p s).2
| step_release ptr fh s : step s (cryfs_release ptr fh s).2
| step_readdir {B} (filler : bytes → stat_info → B → Z * B) ptr p data s : step s (cryfs_readdir filler ptr p data s).2
| step_mkdir ptr p mode s : step s (cryfs_mkdir ptr p mode s).2
| step_rmdir ptr p s : step s (cryfs_rmdir ptr p s).2
| step_getattr ptr p s : step s (cryfs_getattr ptr p s).2
| step_rename ptr src dst s : step s (cryfs_rename ptr src dst s).2
| step_destroy ids ptr left s s' : cryfs_destroy ids ptr s = (Ok left, s') → step s s'.

Definition pointers_ok (s : t) : Prop := dom (heap s) = validFusePtrs s ∧ 0 ∉ validFusePtrs s.

Lemma on_ptr_ok {A} ptr (m : M (Fuse.t S) A) s : pointers_ok s → pointers_ok (on_ptr ptr m s).2.
Proof.
  intros [H H0]. unfold on_ptr. destruct (heap s !! ptr) as [f|] eqn:E; [|done]. destruct (m f) as [r f']. split; [|done]. simpl.
  rewrite dom_insert_L, H. apply subseteq_union_1_L, singleton_subseteq_l. rewrite <- H. by eapply elem_of_dom_2.
Qed.
Lemma bind_state {T A B} (m : M T A) (k : A → M T B) s (P : T → Prop) : P (m s).2 → (∀ a s', P s' → P (k a s').2) → P ((m ≫= k) s).2.
Proof. intros H Hk. unfold mbind, M_bind. destruct (m s) as [[a|e] s']; [by apply Hk|done]. Qed.

Lemma step_ok s s' : step s s' → pointers_ok s → pointers_ok s'.
Proof.
  destruct 1; intros Hs; try (by apply on_ptr_ok); try (by apply (bind_state _ _ _ pointers_ok); [by apply on_ptr_ok|]).
  - destruct Hs as [Hs H0'], fuse as [[f|]|e]; [|done|by destruct e]. split; simpl; [by rewrite dom_insert_L, Hs|].
    by intros [?%elem_of_singleton|?]%elem_of_union.
  - unfold cryfs_read. apply (bind_state _ _ _ pointers_ok); [by apply on_ptr_ok|]. intros [r [d|]] s' Hs'; [|done]. apply (bind_state _ _ _ pointers_ok); [done|by intros].
  - unfold cryfs_write. apply (bind_state _ _ _ pointers_ok); [done|]. intros d s' Hs'. by apply on_ptr_ok.
  - unfold cryfs_destroy in H. apply bind_inv in H as (l & s1 & E & H). injection H as _ <-.
    assert (pointers_ok s1) as [Hd H0]. { pose proof (on_ptr_ok ptr (Fuse.destroy uninit ids) s Hs) as H'. by rewrite E in H'. }
    split; simpl; [by rewrite dom_delete_L, Hd|]. by intros [? _]%elem_of_difference.
Qed.
End jni.

(** [operator/] of boost appends one name to an absolute path. This is
    required of the root path and of paths that do not end in a slash: boost
    decomposes "/a/" with a last element that stands for the empty name, which
    is not an element of "/a/x". *)
Definition no_trailing_slash (p : bytes) : Prop := p = [x2f] ∨ last p ≠ Some x2f.
Definition plain (name : bytes) : Prop := name ≠ [] ∧ (x2f ∉ name) ∧ (x00 ∉ name) ∧ name ≠ dot ∧ name ≠ dotdot.
Class BoostPathOk {path : BoostPath} : Prop := {
  append_elements p name : Fuse.is_valid_fspp_path p = true → no_trailing_slash p → plain name → elements (append p name) = elements p ++ [name];
  append_valid p name : Fuse.is_valid_fspp_path p = true → no_trailing_slash p → plain name → Fuse.is_valid_fspp_path (append p name) = true }.

Section listing.
Context {path : BoostPath} {path_ok : BoostPathOk} {S : Type} `{!BlobStore S} `{!BlobStoreSpec S}.
Context (uninit : nat → bytes) (uninit_ok : ∀ n, length (uninit n) = n).
Context (clock : nat → timespec) (clock_ok : ∀ n, time_ok (clock n)).
Context (startpos : Z → nat → nat) (startpos_ok : ∀ b n, 0 ≤ b < 256 → (0 < n)%nat → (startpos b n < n)%nat).
Context (getuid getgid : Z) (root : bytes).
Implicit Types (f : Fuse.t S).

Lemma resolve_child v p node name id ty : tree_ok root v → dirs_ok v → resolve_node root v p = Ok (Some node) → node_type node = DIR →
  entries_of v (CryFs._blockId node) !! id = Some (ty, name) →
  ∃ child x, resolve_node root v (p ++ [name]) = Ok (Some child) ∧ CryFs._blockId child = id ∧ v !! id = Some x.
Proof using.
  intros Ht Hk Hp Hty Hx. destruct (resolve_node_path _ _ _ _ Ht Hp) as [g Hg].
  destruct (node_dir _ _ _ Ht (resolve_node_ok _ _ _ _ Ht Hp) Hty) as (q & e & Hd). rewrite (entries_of_eq _ _ _ _ Hd) in Hx.
  destruct (tree_child _ _ Ht _ _ _ _ _ Hd Hx) as (c & Hc & _). unfold resolve_node. rewrite decide_False by (by destruct p).
  unfold parent_path, filename. rewrite length_app, last_snoc, take_app_length' by (simpl; lia). simpl. unfold resolve_dir. rewrite Hg. simpl.
  unfold dir_at in Hd. rewrite Hd. simpl. rewrite Hd. simpl. rewrite (vfind_unique _ _ _ _ _ _ _ Hk Hd Hx). simpl. by eexists _, _.
Qed.

Lemma c_str_plain name : x00 ∉ name → SymlinkBlob.c_str name = name.
Proof using. induction name as [|b name IH]; [done|]. intros Hn. simpl. rewrite decide_False by (intros ->; apply Hn; left). f_equal. apply IH. intros ?. apply Hn. by right. Qed.

(** [getattr] of an existing node. *)
Lemma getattr_serves n f v o p node : serves root (12 + n) f v o → Fuse.is_valid_fspp_path p = true → resolve_node root v (elements p) = Ok (Some node) →
  runs (Fuse.getattr clock startpos getuid getgid root p) f (λ r f', ∃ st x, r = (0, Some st) ∧ v !! CryFs._blockId node = Some x ∧ st_size st = v_size (v_content x) ∧ serves root n f' v o).
Proof using uninit_ok clock_ok startpos_ok.
  intros (b & fs & Hf & Hinv) Hv Hn.
  pose proof (run_call_spec uninit uninit_ok clock clock_ok startpos startpos_ok b getuid getgid root n fs v o (CLstat (elements p)) Hinv I) as Hp. unfold post in Hp.
  destruct (run_call uninit clock startpos b getuid getgid root (CLstat (elements p)) fs) as [r fs'] eqn:E. destruct Hp as (v' & o' & Hinv' & Hspec & Ho).
  simpl in Hinv', Hspec, Ho. unfold at_node in Hspec. rewrite Hn in Hspec. destruct Hspec as (-> & st & x & -> & Hx & Hsz). subst o'.
  apply value_call in E as (r0 & E & Hr0). destruct r0 as [st'|]; [|done]. injection Hr0 as <-.
  unfold Fuse.getattr. rewrite Hv. eexists _, _. split.
  { etransitivity; [apply (catch_bind_call (λ c, (c, None)) _ (λ st, (0, Some st)) _ f b fs (Ok st) fs'); done|done]. }
  exists st, x. do 3 (split; [done|]). by exists b, fs'.
Qed.

(** The entries of a directory, with the ids they stand for. *)
Lemma permutation_fmap_inv {A B} (g : A → B) (l : list B) (k : list A) : l ≡ₚ g <$> k → ∃ k', l = g <$> k' ∧ k' ≡ₚ k.
Proof using. intros H. symmetry in H. destruct (Permutation_map_inv _ _ (symmetry H)) as (k' & -> & Hk). by exists k'. Qed.
Lemma readdir_serves n b fs v o p node : fs_inv root (12 + n) fs v o → resolve_node root v p = Ok (Some node) → node_type node = DIR →
  ∃ es fs', FilesystemImpl.readDir clock startpos b root p fs = (Ok ((DIR, dot) :: (DIR, dotdot) :: es.*2), fs') ∧
    es ≡ₚ map_to_list (entries_of v (CryFs._blockId node)) ∧ fs_inv root n fs' v o.
Proof using uninit_ok clock_ok startpos_ok.
  intros Hinv Hn Hty.
  pose proof (run_call_spec uninit uninit_ok clock clock_ok startpos startpos_ok b 0 0 root n fs v o (CReadDir p) Hinv I) as Hp. unfold post in Hp.
  destruct (run_call uninit clock startpos b 0 0 root (CReadDir p) fs) as [r fs'] eqn:E. destruct Hp as (v' & o' & Hinv' & Hspec & Ho).
  simpl in Hinv', Hspec, Ho. unfold at_typed, at_node in Hspec. rewrite Hn, decide_True in Hspec by done. destruct Hspec as (-> & l & -> & Hl). subst o'.
  apply value_call in E as (r0 & E & Hr0). destruct r0 as [l0|]; [|done]. injection Hr0 as <-.
  apply permutation_fmap_inv in Hl as (es & -> & Hes). by exists es, fs'.
Qed.

(** What the caller's filler collects. *)
Definition keep (name : bytes) (st : stat_info) (l : list (bytes * Z * Z)) : Z * list (bytes * Z * Z) := (0, l ++ [(name, st_mode st, st_size st)]).
Definition size_at (v : gmap bytes vnode) (id : bytes) : Z := default 0 ((λ x, v_size (v_content x)) <$> v !! id).

Lemma fill_dots p l st s : Fuse.fill (readDir clock startpos getuid getgid root keep p) ((DIR, dot) :: (DIR, dotdot) :: l) st s =
  Fuse.fill (readDir clock startpos getuid getgid root keep p) l (Fuse.with_mode mode_t.S_IFDIR_ (Fuse.with_mode mode_t.S_IFDIR_ st)) s.
Proof using. done. Qed.
Lemma fill_children p node v o (Hv : Fuse.is_valid_fspp_path p = true) (Hsl : no_trailing_slash p) (Hn : resolve_node root v (elements p) = Ok (Some node)) (Hty : node_type node = DIR) es :
  Forall (λ q, entries_of v (CryFs._blockId node) !! q.1 = Some q.2 ∧ plain q.2.2) es → ∀ n f st acc, serves root (12 * length es + n) f v o →
  runs (Fuse.fill (readDir clock startpos getuid getgid root keep p) es.*2 st) (f, acc) (λ c s',
    c = 0 ∧ s'.2 = acc ++ ((λ q, (q.2.2, Fuse.type_mode q.2.1, size_at v q.1)) <$> es) ∧ serves root n s'.1 v o).
Proof using path_ok uninit_ok clock_ok startpos_ok.
  induction 1 as [|[id [ty name]] es [Hx Hpl] _ IH]; intros n f st acc Hf; cbn [length] in Hf.
  { apply runs_ret. simpl. by rewrite app_nil_r. }
  simpl in Hx, Hpl |- *. assert (tree_ok root v ∧ dirs_ok v) as [Ht Hk].
  { destruct Hf as (b & fs & _ & H). split; [apply H|]. eapply view_dirs_ok, H. }
  destruct (resolve_child _ _ _ _ _ _ Ht Hk Hn Hty Hx) as (child & x & Hc & Hid & Hvx).
  rewrite <- append_elements in Hc by done. replace (12 * Datatypes.S (length es) + n)%nat with (12 + (12 * length es + n))%nat in Hf by lia.
  destruct (getattr_serves _ _ _ _ _ _ Hf (append_valid _ _ Hv Hsl Hpl) Hc) as (r & f1 & E & st1 & x' & -> & Hx' & Hsz & Hf1).
  rewrite Hid, Hvx in Hx'. injection Hx' as <-. destruct Hpl as (_ & _ & H0 & Hd1 & Hd2). rewrite c_str_plain by done.
  set (st2 := Fuse.with_mode (Fuse.type_mode ty) st1).
  eapply (runs_bind_eq _ _ _ (0, st2) (f1, acc ++ [(name, Fuse.type_mode ty, size_at v id)])).
  { unfold readDir. rewrite !decide_False by done. erewrite bind_ok by (unfold Fuse.on_fuse, zoom; cbn [fst snd]; rewrite E; reflexivity).
    unfold size_at. rewrite Hvx. simpl. by rewrite <- Hsz. }
  rewrite decide_True by done. eapply runs_mono; [by apply IH|]. intros c s' (-> & -> & Hs'). split; [done|]. split; [by rewrite <- app_assoc|done].
Qed.

(** C32. Listing a directory through the Java interface: when the object at
    the pointer serves a file system, [cryfs_readdir] on the path of a
    directory (absolute, without a slash at its end unless it is "/", with
    children whose names have no slash and no null byte and are neither "."
    nor "..") returns 0, and the caller's filler gets every child once, with
    its name, the mode of its type and its size, and neither "." nor "..".
    The tree is unchanged: the calls of [getattr] for every entry in between
    read it only. *)
Theorem readdir_lists_children n ptr f s v o p node :
  heap s !! ptr = Some f → serves root (12 * (1 + size (entries_of v (CryFs._blockId node))) + n) f v o →
  Fuse.is_valid_fspp_path p = true → no_trailing_slash p → resolve_node root v (elements p) = Ok (Some node) → node_type node = DIR →
  map_Forall (λ _ q, plain q.2) (entries_of v (CryFs._blockId node)) →
  runs (cryfs_readdir clock startpos getuid getgid root keep ptr p []) s (λ r s', ∃ l f',
    r = (0, l) ∧ l ≡ₚ (λ q, (q.2.2, Fuse.type_mode q.2.1, size_at v q.1)) <$> map_to_list (entries_of v (CryFs._blockId node)) ∧
    heap s' !! ptr = Some f' ∧ serves root n f' v o).
Proof using path_ok uninit_ok clock_ok startpos_ok.
  intros Hf (b & fs & Hfs & Hinv) Hv Hsl Hn Hty Hpl. set (e := entries_of v (CryFs._blockId node)) in *.
  replace (12 * (1 + size e) + n)%nat with (12 + (12 * size e + n))%nat in Hinv by lia.
  destruct (readdir_serves _ b _ _ _ _ _ Hinv Hn Hty) as (es & fs' & E & Hperm & Hinv').
  destruct (fill_children p node v o Hv Hsl Hn Hty es) with (n := n) (f := Fuse.set_fs (Fuse.Impl b fs') f) (st := Fuse.with_mode mode_t.S_IFDIR_ (Fuse.with_mode mode_t.S_IFDIR_ Fuse.stat_zero)) (acc := @nil (bytes * Z * Z)) as (c & [f2 l] & E2 & -> & Hl & Hs2).
  { apply Forall_forall. intros q Hq. rewrite Hperm, elem_of_map_to_list' in Hq. split; [done|]. by eapply Hpl. }
  { exists b, fs'. split; [done|]. rewrite (Permutation_length Hperm), length_map_to_list. done. }
  simpl in Hl, Hs2. eexists _, _. split.
  { unfold cryfs_readdir, on_ptr. rewrite Hf. unfold Fuse.readdir. rewrite Hv. unfold Fuse.catch_all.
    erewrite bind_ok by done. erewrite bind_ok by (unfold Fuse.on_fuse, zoom, Fuse.call_fs; cbn [fst snd]; rewrite Hfs, E; reflexivity).
    rewrite fill_dots, E2. reflexivity. }
  exists l, f2. split; [done|]. split; [|split; [apply lookup_insert_eq|done]]. rewrite Hl. simpl. by apply fmap_Permutation.
Qed.
End listing.

Section closed.
Context {path : BoostPath} {S : Type} `{!BlobStore S}.
Context (uninit : nat → bytes) (clock : nat → timespec) (startpos : Z → nat → nat).
Context (getuid getgid : Z) (root : bytes) (uid gid : Z).

(** A closed pointer is known. After any sequence of JNI functions, in
    which every new object got a fresh address, [cryfs_is_closed] returns
    true exactly for the numbers that are no object: the null pointer, what
    was never returned and what was destroyed. On the others no function
    accesses a deleted object. *)
Theorem is_closed_exact (s : t) (ptr : Z) :
  rtc (step uninit clock startpos getuid getgid root uid gid) new s →
  (cryfs_is_closed ptr s = true ↔ heap s !! ptr = None) ∧ cryfs_is_closed 0 s = true.
Proof using.
  intros Hs. assert (pointers_ok s) as [Hd H0].
  { refine (rtc_ind_r pointers_ok new _ _ s Hs); [split; [apply dom_empty_L|set_solver]|]. intros y z _ Hst Hy. by eapply step_ok. }
  unfold cryfs_is_closed. rewrite !bool_decide_eq_true, <- Hd, not_elem_of_dom. split; [done|]. by rewrite Hd.
Qed.
End closed.
Arguments t S : clear implicits.
End Jni.

(** ** Concrete runs *)
Lemma split_slash (p q : bytes) : ∀ cur, split_path cur (p ++ x2f :: q) = split_path cur p ++ split_path [] q.
Proof.
  induction p as [|b p IH]; intros cur; simpl; [done|]. case_decide; [|apply IH]. by rewrite IH, app_assoc.
Qed.
Lemma split_name (name : bytes) : ∀ cur, x2f ∉ name → cur ++ name ≠ [] → split_path cur name = [cur ++ name].
Proof.
  induction name as [|b name IH]; intros cur Hn Hc; simpl.
  - rewrite app_nil_r in *. by rewrite decide_False.
  - rewrite decide_False by (intros ->; apply Hn; left). rewrite IH; [by rewrite <- app_assoc| |by destruct cur].
    intros ?. apply Hn. by right.
Qed.
Definition posix_ok : @Jni.BoostPathOk posix.
Proof.
  split; intros p name Hp Htr (Hne & Hsl & _).
  - simpl. case_decide as Hl.
    + destruct Htr as [->|?]; [|done]. simpl. by rewrite (split_name name []).
    + by rewrite split_slash, (split_name name []).
  - unfold Fuse.is_valid_fspp_path in *. simpl in *. apply andb_true_iff in Hp as [Hp _]. apply andb_true_iff in Hp as [Hh Hr].
    apply bool_decide_eq_true in Hh. apply negb_true_iff, bool_decide_eq_false in Hr.
    rewrite !andb_true_iff, negb_true_iff, !bool_decide_eq_true, bool_decide_eq_false. split; [|done].
    destruct p as [|b p]; [done|]. injection Hh as ->. destruct p as [|b p].
    + destruct name as [|c name]; [done|]. simpl. split; [done|]. intros [= ->]. apply Hsl. left.
    + case_decide; (split; [done|]); intros E; apply Hr; by injection E as ->.
Defined.

(** The root directory with one child. *)
Definition one_call : list call := [CMkdir [a_] 493 0 0].
Definition one_fuse : Fuse.t mem := Fuse.mk (Fuse.Impl noatime (fresh_after one_call)) (Some noatime) true.
Lemma one_serves : ∃ v o id, serves fresh.1 900 one_fuse v o ∧ entries_of v fresh.1 = {[ id := (DIR, a_) ]}.
Proof.
  destruct (run_calls_spec z_uninit z_uninit_ok z_clock z_clock_ok z_startpos z_startpos_ok relatime 0 0 fresh.1 one_call 988 fresh.2 (empty_tree fresh.1) ∅)
    as (v & o & Hinv & Hspec); [exact fresh_inv| |].
  { split; [|done]. split; [by vm_compute|]. split; [by apply (bool_decide_unpack _)|]. split; [by vm_compute; lia|lia]. }
  assert ((run_calls z_uninit z_clock z_startpos relatime 0 0 fresh.1 one_call fresh.2).1 = [Ok RUnit]) as E by by vm_compute. rewrite E in Hspec.
  destruct Hspec as (v1 & o1 & [Hspec _] & [-> ->]). simpl in Hspec. unfold at_typed, at_node in Hspec. simpl in Hspec.
  destruct Hspec as (id & Hid & p & e & Hd & Hf). unfold dir_at, empty_tree in Hd, Hid. apply lookup_singleton_Some in Hd as [_ [= <- <-]].
  destruct (vfind _ _) as [q|]; [destruct Hf as [Hf _]; discriminate Hf|]. destruct Hf as [_ ->]. exists (vcreate fresh.1 id a_ (VDir ∅) (empty_tree fresh.1)), o1, id. split.
  - exists noatime, (fresh_after one_call). split; [done|]. eapply fs_inv_le; [|exact Hinv]. lia.
  - apply lookup_singleton_None in Hid. unfold entries_of, vcreate, vlink. rewrite (on_dir_eq _ _ _ BlockId.Null ∅), lookup_insert_eq; [done|].
    unfold dir_at, vnew, empty_tree. by rewrite lookup_insert_ne, lookup_singleton_eq.
Qed.

Abbreviation one_jni := (Jni.mk {[ 7 := one_fuse ]} {[ 7 ]}).
Lemma readdir_lists_children_witness : ∃ v id, entries_of v fresh.1 = {[ id := (DIR, a_) ]} ∧
  runs (@Jni.cryfs_readdir posix mem _ z_clock z_startpos 0 0 fresh.1 _ Jni.keep 7 [x2f] []) one_jni (λ r s', ∃ l f',
    r = (0, l) ∧ l ≡ₚ (λ q, (q.2.2, Fuse.type_mode q.2.1, Jni.size_at v q.1)) <$> map_to_list (entries_of v fresh.1) ∧
    Jni.heap s' !! 7 = Some f' ∧ ∃ o, serves fresh.1 876 f' v o).
Proof.
  destruct one_serves as (v & o & id & Hs & He). exists v, id. split; [done|].
  eapply runs_mono; [apply (@Jni.readdir_lists_children posix posix_ok mem _ _ z_uninit z_uninit_ok z_clock z_clock_ok z_startpos z_startpos_ok 0 0 fresh.1 876 7 one_fuse one_jni v o [x2f]
    (mkNode None None fresh.1 DIR))|].
  - apply lookup_singleton_eq.
  - simpl. rewrite He, map_size_singleton. exact Hs.
  - by vm_compute.
  - by left.
  - done.
  - done.
  - simpl. rewrite He. apply map_Forall_singleton. by split_and!; apply (bool_decide_unpack _); vm_compute.
  - intros r s' (l & f' & H1 & H2 & H3 & H4). exists l, f'. do 3 (split; [done|]). by exists o.
Defined.

Lemma is_closed_exact_witness :
  let s := Jni.mk {[ 7 := one_fuse ]} {[ 7 ]} in
  (Jni.cryfs_is_closed 7 s = true ↔ Jni.heap s !! 7 = None) ∧ Jni.cryfs_is_closed 0 s = true.
Proof.
  intros s. apply (@Jni.is_closed_exact posix mem _ z_uninit z_clock z_startpos 0 0 fresh.1 0 0 s 7).
  eapply rtc_l; [|apply rtc_refl].
  assert (s = (Jni.cryfs_init (Ok (Some one_fuse)) 7 Jni.new).2) as -> by (unfold s, Jni.cryfs_init; simpl; f_equal; set_solver).
  by apply Jni.step_init.
Defined.
