(* ===== verification/Setup.v ===== *)
(** * Setting up a file system (cryfs/impl/filesystem/CryDevice.cpp: the
      constructor; cryfs-cli/Cli.cpp: [initFilesystem])

    From a configuration to a mounted file system: [CreateBlobStore] builds
    the stack of Stack.v over the block files of OnDisk.v, with the cipher
    and key of the configuration and the integrity data of the local state;
    then the root blob is looked up in the configuration or created.

    The blob store works on the finite map that the stack is proved to be, so
    the state after [CreateBlobStore] is a blob store [S] and, next to it, the
    other files of the disk; OnDisk.v shows that block operations do not touch
    them. [signal_occurred] asks the signal handler during a migration. *)
From S2P Require Import Prelude Serialization Serializer Version BlockStore Cipher Encrypted KnownBlockVersions Integrity CryCipher ConfigCrypto CryConfig ConfigFile OnDisk LocalState ConfigLoader Cli QueueMap Cache Caching Stack DirEntry FsBlobs FsBlobSpec FsTree FsObjects FsObjSpec FsDirSpec FsView CryFs CrySpec FilesystemImpl OpenFiles Filesystem FsRefine Mount Fuse Jni.
From Stdlib Require Import Lia ZArith.
Open Scope Z_scope.

Module CryDevice.
Abbreviation encrypted_t Rng := (EncryptedBlockStore2.t (world Rng) bytes Rng).
Abbreviation device_stack_t Rng := (Cache.t bytes CachingBlockStore2.CachedBlock
  * CachingBlockStore2.inner (IntegrityBlockStore2.t (EncryptedBlockStore2.t (world Rng) bytes Rng)))%type.

(** ** The block stores *)
Section blocks.
Context {crypto : CryptoPP} {memory : Memory} {boost : PropertyTree} {Rng : Type} {random : RandomGenerator Rng}
  (baseDir : ConfigFile.path) (free_disk_space_in_bytes : world Rng → Z) (signal_occurred : bytes → bool).
#[local] Instance disk : BlockStore2 (world Rng) := OnDiskBlockStore2.ops baseDir free_disk_space_in_bytes.

(** The cipher of the configuration and the key for the encrypted store. *)
Definition CreateEncryptedBlockStore (config : CryConfig.t) : result (cipher * bytes) :=
  c ← CryCiphers.find (CryConfig._cipher config) ;
  key ← CryCiphers.blockstoreKey (CryConfig._encKey config) ;
  mret (CryCiphers.Cipher c, key).

Definition on_disk {A} (m : M (world Rng) A) : M (encrypted_t Rng) A := EncryptedBlockStore2.base m.

(** Migration of a file system without version numbers; the block size grows
    by the header less the block id, which the encryption layer stored
    before. *)
Definition migrate_blocks (c : cipher) (configFile : CryConfigFile.t) (integrityFilePath : ConfigFile.path) (myClientId : Z) :
    M (encrypted_t Rng) CryConfigFile.t :=
  (λ e, let file := files (EncryptedBlockStore2._baseBlockStore e) !! integrityFilePath in
        let '(r, (e', file')) := @IntegrityBlockStore2.migrateFromBlockstoreWithoutVersionNumbers (encrypted_t Rng)
          (@EncryptedBlockStore2.ops _ _ _ disk (cipher_ops c)) signal_occurred myClientId (e, file) in
        let '(_, e'') := on_disk (match file' with Some data => StoreToFile data integrityFilePath | None => mret tt end) e' in
        (r, e'')) ;;
  let configFile := CryConfigLoader.update_config (λ config, CryConfig.SetBlocksizeBytes
    (u64 (CryConfig._blocksizeBytes config + Z.of_nat IntegrityBlockStore2.HEADER_LENGTH - Z.of_nat BlockId.BINARY_LENGTH)) config) configFile in
  let configFile := CryConfigLoader.update_config (CryConfig.SetHasVersionNumbers true) configFile in
  on_disk (CryConfigFile.save configFile) ;;
  mret configFile.

(** The constructor of the integrity layer; reading a state file of the old
    format saves it in the new one. *)
Definition new_integrity (integrityFilePath : ConfigFile.path) (myClientId : Z) (allowIntegrityViolations missingBlockIsIntegrityViolation : bool) :
    M (encrypted_t Rng) (IntegrityBlockStore2.t (encrypted_t Rng)) :=
  e ← get_state ;
  let file := files (EncryptedBlockStore2._baseBlockStore e) !! integrityFilePath in
  s ← lift (IntegrityBlockStore2.new e file myClientId allowIntegrityViolations missingBlockIsIntegrityViolation) ;
  let file' := KnownBlockVersions.stateFile (IntegrityBlockStore2._knownBlockVersions s) in
  (if decide (file' = file) then mret tt
   else on_disk (match file' with Some data => StoreToFile data integrityFilePath | None => mret tt end)) ;;
  e' ← get_state ;
  mret (IntegrityBlockStore2.mk e' (IntegrityBlockStore2._knownBlockVersions s) allowIntegrityViolations missingBlockIsIntegrityViolation
    (IntegrityBlockStore2.violations s)).

(** [IntegrityViolationOnPreviousRun] becomes an error code. *)
Definition violation_code {T A} (m : M T A) : M T A := λ s,
  match m s with
  | (Throw e, s') => if decide (e = RuntimeError "IntegrityViolationOnPreviousRun") then (Throw (CryfsException IntegrityViolationOnPreviousRun), s') else (Throw e, s')
  | r => r
  end.

Definition CreateIntegrityEncryptedBlockStore (c : cipher) (localStateDir : ConfigFile.path) (configFile : CryConfigFile.t) (myClientId : Z)
    (allowIntegrityViolations missingBlockIsIntegrityViolation : bool) : M (encrypted_t Rng) (IntegrityBlockStore2.t (encrypted_t Rng) * CryConfigFile.t) :=
  statePath ← on_disk (LocalStateDir.forFilesystemId localStateDir (CryConfig._filesystemId (CryConfigFile._config configFile))) ;
  let integrityFilePath := statePath ++ [str "integritydata"] in
  configFile ←
    (if negb (CryConfig._hasVersionNumbers (CryConfigFile._config configFile))
     then migrate_blocks c configFile integrityFilePath myClientId else mret configFile) ;
  s ← violation_code (new_integrity integrityFilePath myClientId allowIntegrityViolations missingBlockIsIntegrityViolation) ;
  mret (s, configFile).

(** The cipher, the stack, the block size of the blob store and the
    configuration after a migration; [prng] is the generator of the
    encryption layer. *)
Definition CreateBlobStore (localStateDir : ConfigFile.path) (configFile : CryConfigFile.t) (prng : Rng) (myClientId : Z)
    (allowIntegrityViolations missingBlockIsIntegrityViolation : bool) :
    M (world Rng) (cipher * device_stack_t Rng * Z * CryConfigFile.t) := λ w,
  match CreateEncryptedBlockStore (CryConfigFile._config configFile) with
  | Throw e => (Throw e, w)
  | Ok (c, key) =>
      match CreateIntegrityEncryptedBlockStore c localStateDir configFile myClientId allowIntegrityViolations missingBlockIsIntegrityViolation
              (EncryptedBlockStore2.mk w key prng) with
      | (Ok (i, configFile), e) =>
          (Ok (c, CachingBlockStore2.new i, CryConfig._blocksizeBytes (CryConfigFile._config configFile), configFile), EncryptedBlockStore2._baseBlockStore e)
      | (Throw ex, e) => (Throw ex, EncryptedBlockStore2._baseBlockStore e)
      end
  end.
End blocks.

(** ** The root blob *)
Section root.
Context {crypto : CryptoPP} {memory : Memory} {boost : PropertyTree} {Rng : Type} {random : RandomGenerator Rng} {S : Type} `{!FsBlobs.BlobStore S}
  (uninitialised : nat → bytes) (signal : M S bool) (perBlobCallback : Z → M S unit) (depth : nat).

Definition on_blobs {A} (m : M S A) : M (S * world Rng) A := zoom fst (λ b s, (b, s.2)) m.
Definition on_files {T A} (m : M (world Rng) A) : M (T * world Rng) A := zoom snd (λ w s, (s.1, w)) m.
Definition on_fs {A} (m : M (fs S) A) : M (fs S * world Rng) A := zoom fst (λ d s, (d, s.2)) m.

Definition MigrateOrCreateFsBlobStore (configFile : CryConfigFile.t) : M (S * world Rng) CryConfigFile.t :=
  let rootBlobId := CryConfig._rootBlob (CryConfigFile._config configFile) in
  if decide ([] = rootBlobId) then mret configFile
  else if negb (CryConfig._hasParentPointers (CryConfigFile._config configFile)) then
    id ← lift (FixedSizeData_FromString BlockId.BINARY_LENGTH rootBlobId) ;
    on_blobs (FsBlobStore.migrate signal perBlobCallback depth id) ;;
    let configFile := CryConfigLoader.update_config (CryConfig.SetHasParentPointers true) configFile in
    on_files (CryConfigFile.save configFile) ;;
    mret configFile
  else mret configFile.

Definition GetOrCreateRootBlobId (configFile : CryConfigFile.t) : M (fs S * world Rng) (bytes * CryConfigFile.t) :=
  let root_blockId := CryConfig._rootBlob (CryConfigFile._config configFile) in
  if decide (root_blockId = []) then
    new_blockId ← on_fs (CreateRootBlobAndReturnId uninitialised) ;
    text ← lift (FixedSizeData_ToString new_blockId) ;
    let configFile := CryConfigLoader.update_config (CryConfig.SetRootBlob text) configFile in
    on_files (CryConfigFile.save configFile) ;;
    mret (new_blockId, configFile)
  else
    id ← lift (FixedSizeData_FromString BlockId.BINARY_LENGTH root_blockId) ;
    mret (id, configFile).

(** The constructor, once the blob store [b] is there: the device, its root
    and the configuration. *)
Definition new (b : S) (configFile : CryConfigFile.t) : M (world Rng) (fs S * bytes * CryConfigFile.t) := λ w,
  match MigrateOrCreateFsBlobStore configFile (b, w) with
  | (Throw e, (_, w')) => (Throw e, w')
  | (Ok configFile, (b', w')) =>
      match GetOrCreateRootBlobId configFile (mkFs b' ∅ 0, w') with
      | (Throw e, (_, w'')) => (Throw e, w'')
      | (Ok (root, configFile), (d, w'')) => (Ok (d, root, configFile), w'')
      end
  end.
End root.
End CryDevice.

(** ** Cli::initFilesystem *)
Section init.
Context {crypto : CryptoPP} {memory : Memory} {boost : PropertyTree} {sha : SHA} {kdf : ScryptKDF} {Rng : Type} {random : RandomGenerator Rng}
  (VersionString : bytes) (fuel : nat) (normal : ConfigFile.path → bytes) (settings : SCrypt.SCryptSettings)
  (free_disk_space_in_bytes : world Rng → Z) (signal_occurred : bytes → bool) (prng : Rng).
Context {S : Type} `{!FsBlobs.BlobStore S} (uninitialised : nat → bytes) (clock : nat → DirEntry.timespec) (startpos : Z → nat → nat)
  (signal : M S bool) (perBlobCallback : Z → M S unit) (depth : nat).
(** The constructor of the blob store over the stack, with the block size. *)
Context (BlobStoreOnBlocks : cipher → CryDevice.device_stack_t Rng → Z → S).

Definition _sanityCheckFilesystem (root : bytes) : M (fs S) unit :=
  rootDir ← CryFs.Load root [] ;
  match rootDir with
  | None => mthrow (CryfsException InvalidFilesystem)
  | Some rootDir =>
      if decide (node_type rootDir ≠ DirEntry.DIR) then mthrow (CryfsException InvalidFilesystem)
      else _ ← CryFs.children clock startpos noatime rootDir ; mret tt
  end.

(** The handlers: [CryfsException] leaves the function, any other exception
    ends in a null pointer. *)
Definition catch_setup {T A} (m : M T A) : M T (option A) := λ s,
  match m s with
  | (Ok a, s') => (Ok (Some a), s')
  | (Throw e, s') =>
      (match e with CryfsException _ | OutOfFuel | UndefinedBehaviour | Terminate => Throw e | _ => Ok None end, s')
  end.

Definition with_device {A} (d : fs S) (m : M (fs S) A) : M (world Rng) (fs S) := λ w,
  match m d with (Ok _, d') => (Ok d', w) | (Throw e, _) => (Throw e, w) end.

Definition initFilesystem (options : Cli.ProgramOptions) (credentials : Cli.Credentials) : M (world Rng) (option (Fuse.t S * bytes)) :=
  catch_setup (
    Cli._sanityChecks options ;;
    config ← Cli._loadOrCreateConfig VersionString fuel normal settings options (Cli.localStateDir options) credentials ;
    let missingBlockIsIntegrityViolation :=
      CryConfig.missingBlockIsIntegrityViolation (CryConfigFile._config (CryConfigLoader.configFile config)) in
    '(c, stack, blocksize, configFile) ← CryDevice.CreateBlobStore (Cli.baseDir options) free_disk_space_in_bytes signal_occurred
      (Cli.localStateDir options) (CryConfigLoader.configFile config) prng (CryConfigLoader.myClientId config)
      (Cli.allowIntegrityViolations options) missingBlockIsIntegrityViolation ;
    '(device, root, _) ← CryDevice.new uninitialised signal perBlobCallback depth (BlobStoreOnBlocks c stack blocksize) configFile ;
    device ← with_device device (_sanityCheckFilesystem root) ;
    match Fuse.init (Ok (noatime, mkFS device IdList.new ∅)) Fuse.new with
    | (Ok _, fuse) => mret (fuse, root)
    | (Throw e, _) => mthrow e
    end).
End init.

(** ** The block store of a new file system *)
Section new_blocks.
Context {crypto : CryptoPP} {crypto_laws : CryptoPPLaws} {upper : OnDiskBlockStore2.HexUppercase} {memory : Memory} {boost : PropertyTree}
  {boost_laws : PropertyTreeLaws} {sha : SHA} {kdf : ScryptKDF} {kdf_laws : ScryptLaws} {Rng : Type} {random : RandomGenerator Rng}
  (baseDir : ConfigFile.path) (free : world Rng → Z) (signal_occurred : bytes → bool).
Implicit Types (w : world Rng).

(** The operations of the stack with the cipher [c]. *)
#[local] Instance base_ops : BlockStore2 (world Rng) := OnDiskBlockStore2.ops baseDir free.
#[local] Instance base_spec : BlockStore2Spec (world Rng) := OnDiskBlockStore2.spec baseDir free.
Definition stack_ops (c : cipher) : BlockStore2 (CryDevice.device_stack_t Rng) :=
  @CachingBlockStore2.ops _ (@IntegrityBlockStore2.ops _ (@EncryptedBlockStore2.ops _ _ _ base_ops (cipher_ops c))).

(** New directories of the local state are not directories of blocks. *)
Lemma represents_grown n w w' m p : (∀ x, x ∈ ancestors p → ∀ d name, x ≠ baseDir ++ [d; name]) →
  files w' = files w → grown_dirs p w w' → OnDiskBlockStore2.represents baseDir n w m → OnDiskBlockStore2.represents baseDir n w' m.
Proof.
  intros Hp F [D A] [Hroot Hfiles Hblocks Hdirs Hprefix Honly Hno]. split; rewrite ?F; try done.
  - by apply D.
  - intros id Hid. by apply D, Hdirs.
  - intros d name Hin. apply Honly. apply elem_of_union in Hin as [Hin|Hin]; [set_solver|]. apply elem_of_union_r.
    apply A in Hin as [Hin|Hin]; [done|]. by eapply Hp in Hin.
  - intros id Hid [Hin|Hin]%A; [by eapply Hno|]. by eapply Hp in Hin.
Qed.

(** Without old data nothing is migrated, and the version table is empty. *)
Lemma CreateBlobStore_new appDir f cc key prng client allow missing w :
  let config := CryConfigFile._config f in
  let dir := state_dir appDir (CryConfig._filesystemId config) in
  CryCiphers.find (CryConfig._cipher config) = Ok cc → CryConfig._encKey config = hex_encode key → CryConfig._hasVersionNumbers config = true →
  appDir ≠ [] → no_file_above dir w → files w !! (dir ++ [str "integritydata"]) = None → 0 < client →
  runs (CryDevice.CreateBlobStore baseDir free signal_occurred appDir f prng client allow missing) w (λ r w',
    r = (CryCiphers.Cipher cc, CachingBlockStore2.new (IntegrityBlockStore2.mk (EncryptedBlockStore2.mk w' key prng)
           (KnownBlockVersions.init client) allow missing 0), CryConfig._blocksizeBytes config, f)
    ∧ grown dir w w').
Proof.
  intros config dir Hc Hk Hv Ha Hn Hi Hcl. destruct (runs_forFilesystemId appDir _ w Ha Hn) as (p & w1 & E & -> & Hg & _).
  pose proof Hg as (F1 & _). exists (CryCiphers.Cipher cc, CachingBlockStore2.new (IntegrityBlockStore2.mk (EncryptedBlockStore2.mk w1 key prng)
    (KnownBlockVersions.init client) allow missing 0), CryConfig._blocksizeBytes config, f), w1. split; [|done].
  unfold CryDevice.CreateBlobStore, CryDevice.CreateEncryptedBlockStore. fold config. rewrite Hc. csimp. rewrite Hk. unfold CryCiphers.blockstoreKey.
  rewrite (proj2 (key_string_roundtrip key)). csimp.
  unfold CryDevice.CreateIntegrityEncryptedBlockStore. fold config.
  erewrite bind_ok by (apply EncryptedBlockStore2.encrypted_base_ok; exact E). fold dir. rewrite Hv. cbn [negb]. erewrite bind_ok by done.
  unfold CryDevice.new_integrity, CryDevice.violation_code, mbind, M_bind. csimp. cbn [EncryptedBlockStore2._baseBlockStore].
  rewrite F1, Hi. unfold IntegrityBlockStore2.new, KnownBlockVersions.new, KnownBlockVersions.CLIENT_ID_FOR_DELETED_BLOCK.
  rewrite assert_ok by (apply bool_decide_true; lia). done.
Qed.

(** The same with the integrity data of an earlier run. *)
Lemma CreateBlobStore_violated appDir f cc key prng k file allow missing w :
  let config := CryConfigFile._config f in
  let dir := state_dir appDir (CryConfig._filesystemId config) in
  CryCiphers.find (CryConfig._cipher config) = Ok cc → CryConfig._encKey config = hex_encode key → CryConfig._hasVersionNumbers config = true →
  appDir ≠ [] → no_file_above dir w → files w !! (dir ++ [str "integritydata"]) = Some file →
  KnownBlockVersions.new (Some file) (KnownBlockVersions._myClientId k) = Ok (KnownBlockVersions.set_file (Some file) k) →
  KnownBlockVersions._integrityViolationOnPreviousRun k = true →
  ∃ w', CryDevice.CreateBlobStore baseDir free signal_occurred appDir f prng (KnownBlockVersions._myClientId k) allow missing w =
    (Throw (CryfsException IntegrityViolationOnPreviousRun), w') ∧ files w' = files w.
Proof.
  intros config dir Hc Hk Hv Ha Hn Hi Hnew Hviol. destruct (runs_forFilesystemId appDir _ w Ha Hn) as (p & w1 & E & -> & Hg & _).
  pose proof Hg as (F1 & _). exists w1. split; [|done].
  unfold CryDevice.CreateBlobStore, CryDevice.CreateEncryptedBlockStore. fold config. rewrite Hc. csimp. rewrite Hk. unfold CryCiphers.blockstoreKey.
  rewrite (proj2 (key_string_roundtrip key)). csimp.
  unfold CryDevice.CreateIntegrityEncryptedBlockStore. fold config.
  erewrite bind_ok by (apply EncryptedBlockStore2.encrypted_base_ok; exact E). fold dir. rewrite Hv. cbn [negb]. erewrite bind_ok by done.
  unfold CryDevice.new_integrity, CryDevice.violation_code, mbind, M_bind. csimp. cbn [EncryptedBlockStore2._baseBlockStore].
  rewrite F1, Hi. unfold IntegrityBlockStore2.new. rewrite Hnew. csimp. unfold KnownBlockVersions.integrityViolationOnPreviousRun.
  cbn [KnownBlockVersions._integrityViolationOnPreviousRun KnownBlockVersions.set_file]. rewrite Hviol. done.
Qed.

(** C12. An integrity violation is not forgotten. When the version table was
    told of a violation and then saved, the next attempt to set up the block
    stores fails with [IntegrityViolationOnPreviousRun], whatever is in the
    base directory and also when violations are allowed by an option, and no
    file is changed; this goes on as long as the integrity file is there. *)
Theorem violation_prevents_setup appDir f cc key prng k file allow missing w :
  let config := CryConfigFile._config f in
  let dir := state_dir appDir (CryConfig._filesystemId config) in
  KnownBlockVersions.well_typed k → KnownBlockVersions._valid k = true → KnownBlockVersions._myClientId k ≠ 0 →
  Z.of_nat (KnownBlockVersions.state_file_size k) < 2 ^ 63 →
  KnownBlockVersions.destroy (KnownBlockVersions.setIntegrityViolationOnPreviousRun true k).2 = Some file →
  files w !! (dir ++ [str "integritydata"]) = Some file →
  CryCiphers.find (CryConfig._cipher config) = Ok cc → CryConfig._encKey config = hex_encode key → CryConfig._hasVersionNumbers config = true →
  appDir ≠ [] → no_file_above dir w →
  ∃ w', CryDevice.CreateBlobStore baseDir free signal_occurred appDir f prng (KnownBlockVersions._myClientId k) allow missing w =
    (Throw (CryfsException IntegrityViolationOnPreviousRun), w') ∧ files w' = files w.
Proof.
  intros config dir Hw Hv Hcl Hsz Hd Hf Hc Hk Hvn Ha Hn. set (k' := (KnownBlockVersions.setIntegrityViolationOnPreviousRun true k).2) in *.
  destruct (KnownBlockVersions.state_file_ok k') as (file' & Ef & En); [done..|]. rewrite Hd in Ef. injection Ef as <-.
  by apply (CreateBlobStore_violated appDir f cc key prng k' file allow missing w).
Qed.

(** A base directory without blocks. *)
Record no_blocks w : Prop := {
  nb_root : baseDir ∈ dirs w;
  nb_entries d name : baseDir ++ [d; name] ∉ dom (files w) ∪ dirs w;
  nb_prefix id : BlockId.valid id → files w !! OnDiskBlockStore2.prefix_dir baseDir id = None }.
Lemma no_blocks_repr n w : no_blocks w → OnDiskBlockStore2.represents baseDir n w ∅.
Proof.
  intros [Hroot Hno Hp]. split; try done.
  - intros id Hid. rewrite lookup_empty. apply not_elem_of_dom. intros H. eapply Hno, elem_of_union_l, H.
  - intros id [d H]. by rewrite lookup_empty in H.
  - intros d name H. by apply Hno in H.
  - intros id Hid H. eapply Hno, elem_of_union_r, H.
Qed.

(** The stack over a base directory without blocks is the empty map, for
    every supported cipher. *)
Lemma stack_is_map os cc key prng client allow missing w :
  cc ∈ CryCiphers.SUPPORTED_CIPHERS → length key = KEYSIZE (CryCiphers.Cipher cc) → no_blocks w → 0 < client < 2 ^ 32 →
  Z.of_nat (length os) < 2 ^ 64 - 1 →
  let stack := CachingBlockStore2.new (IntegrityBlockStore2.mk (EncryptedBlockStore2.mk w key prng) (KnownBlockVersions.init client) allow missing 0) in
  @ops_ok _ (stack_ops (CryCiphers.Cipher cc)) CachingBlockStore2.cached (2 ^ 32 - 128) os stack ∅ →
  ∃ s', @run_ops _ (stack_ops (CryCiphers.Cipher cc)) os stack = (Ok (model_ops os ∅).1, s').
Proof.
  intros Hcc Hk Hw Hcl Hn stack Hok. destruct (supported_ok cc Hcc) as (Hc & _ & _ & _ & _ & Hov).
  pose (H1 := cipher_ops (CryCiphers.Cipher cc) : Cipher bytes Rng). pose (H2 := cipher_spec (CryCiphers.Cipher cc) Hc : @CipherSpec bytes Rng H1).
  assert (repr (0 + length os) stack ∅) as Hr.
  { apply CachingBlockStore2.caching_represents_new, integrity_represents_new; [by apply no_blocks_repr|done|done|simpl; lia]. }
  destruct (run_ops_spec os 0 _ ∅ Hr) as (s' & E & _); [|by exists s'].
  change (ops_ok (refuses (S := CryDevice.device_stack_t Rng)) (2 ^ 32 - 128) os stack ∅) in Hok. eapply ops_ok_le, Hok. cbn [maxSize CachingBlockStore2.spec IntegrityBlockStore2.spec].
  unfold IntegrityBlockStore2.limit. cbn [maxSize EncryptedBlockStore2.spec]. unfold EncryptedBlockStore2.limit.
  cbn [maxSize base_spec OnDiskBlockStore2.spec]. unfold OnDiskBlockStore2.limit. cbn [overhead H2 cipher_spec].
  change (Z.of_nat IntegrityBlockStore2.HEADER_LENGTH) with 30. lia.
Qed.
End new_blocks.

(** ** From an empty directory to a block store *)
Section new_filesystem.
Context {crypto : CryptoPP} {crypto_laws : CryptoPPLaws} {upper : OnDiskBlockStore2.HexUppercase} {memory : Memory} {boost : PropertyTree}
  {boost_laws : PropertyTreeLaws} {sha : SHA} {kdf : ScryptKDF} {kdf_laws : ScryptLaws} {Rng : Type} {random : RandomGenerator Rng}
  (VersionString : bytes) (fuel : nat) (normal : ConfigFile.path → bytes) (settings : SCrypt.SCryptSettings)
  (free : world Rng → Z) (signal_occurred : bytes → bool).
Implicit Types (w : world Rng).
Import Cli.

Lemma separate_app (appDir base rest rest' : ConfigFile.path) : separate appDir base → base ++ rest ≠ appDir ++ rest'.
Proof.
  intros [H1 H2] E. destruct (prefix_weak_total base appDir (appDir ++ rest')) as [H|H]; [rewrite <- E; by apply prefix_app_r|by apply prefix_app_r|done|done].
Qed.
Lemma separate_above (appDir base rest rest' : ConfigFile.path) p : separate appDir base → p ∈ ancestors (appDir ++ rest') → p ≠ base ++ rest.
Proof.
  intros Hs Hp ->. unfold ancestors in Hp. apply list_elem_of_fmap in Hp as (n & E & _).
  apply (separate_app appDir base (rest ++ drop n (appDir ++ rest')) rest' Hs). rewrite app_assoc, E. apply take_drop.
Qed.

(** Opening for the first time adds no blocks. *)
Lemma first_no_blocks options pw id key e m r w w' : first_opened VersionString normal settings pw options id key e m r w w' →
  configFile options = None → separate (localStateDir options) (baseDir options) →
  no_blocks (baseDir options) w → no_blocks (baseDir options) w'.
Proof.
  intros [_ _ _ _ _ _ _ _ HF [HD HA]] Hcf Hs [Hroot Hno Hp]. unfold _determineConfigFile in HF. rewrite Hcf in HF.
  assert (∀ rest, baseDir options ++ rest ≠ baseDir options ++ [str "cryfs.config"] → files w' !! (baseDir options ++ rest) = files w !! (baseDir options ++ rest)) as K.
  { intros rest Hr. apply HF; [done| |].
    - rewrite state_dir_app, <- app_assoc. by apply separate_app.
    - by apply separate_app. }
  split.
  - by apply HD.
  - intros d name [Hf|Hd]%elem_of_union.
    + apply elem_of_dom in Hf. rewrite K in Hf by (intros H%app_inv_head; discriminate H). apply elem_of_dom in Hf. eapply Hno, elem_of_union_l, Hf.
    + apply HA in Hd as [Hd|Hd]; [eapply Hno, elem_of_union_r, Hd|]. rewrite state_dir_app in Hd. by eapply separate_above in Hd.
  - intros bid Hid. unfold OnDiskBlockStore2.prefix_dir in *. rewrite K; [by apply Hp|].
    intros [= H%(f_equal length)]%app_inv_head. rewrite length_take in H. change (length (str "cryfs.config")) with 12%nat in H.
    unfold OnDiskBlockStore2.PREFIX_LENGTH in H. lia.
Qed.

(** C10. A new file system on the disk. When a client opens an empty base
    directory for the first time, the configuration is created and the stack
    of block stores is set up with its cipher and key; the block files below
    the base directory then are a finite map: every sequence of fewer than
    2^64 - 1 block operations, with ids of 16 bytes and blocks of at most
    2^32 - 128 bytes, in which a creation is of an id that is not in use or of
    one whose block is in the cache, returns what the same operations on a map
    that starts empty return. *)
Theorem new_filesystem_on_disk options pw prng os w :
  first_ok VersionString fuel normal settings pw options w → configFile options = None →
  separate (localStateDir options) (baseDir options) → no_blocks (baseDir options) w →
  Z.of_nat (length os) < 2 ^ 64 - 1 →
  runs (config ← _loadOrCreateConfig VersionString fuel normal settings options (localStateDir options) (first pw) ;
        CryDevice.CreateBlobStore (baseDir options) free signal_occurred (localStateDir options) (CryConfigLoader.configFile config) prng
          (CryConfigLoader.myClientId config) (allowIntegrityViolations options)
          (CryConfig.missingBlockIsIntegrityViolation (CryConfigFile._config (CryConfigLoader.configFile config)))) w
    (λ '(c, stack, blocksize, _) w', NAME c = chosen_cipher (loader_of settings options (first pw))
      ∧ blocksize = CryConfigCreator._generateBlocksizeBytes (blocksizeBytes options)
      ∧ (@ops_ok _ (stack_ops (baseDir options) free c) CachingBlockStore2.cached (2 ^ 32 - 128) os stack ∅ →
         ∃ s', @run_ops _ (stack_ops (baseDir options) free c) os stack = (Ok (model_ops os ∅).1, s'))).
Proof.
  intros Hf Hcf Hs Hnb Hn. eapply runs_bind; [by apply runs_first|]. intros r w1 (id & key & e & m & Hfo).
  pose proof (first_no_blocks _ _ _ _ _ _ _ _ _ Hfo Hcf Hs Hnb) as Hnb1.
  pose proof Hfo as [Hr _ Ho _ [Ha _] Hid [_ (cc & Ecc & Hk)] Hcl HF [_ HA]]. subst r. cbn [CryConfigLoader.configFile CryConfigLoader.myClientId].
  destruct (find_Ok _ _ Ecc) as [Hcc Hname]. eapply runs_mono.
  { eapply CreateBlobStore_new; [exact Ecc|done|done|done|apply Ho| |lia]. simpl. rewrite HF.
    - by apply fresh_no_file, (fi_client _ _ _ _ _ _ _ Hf).
    - pose proof (fi_separate _ _ _ _ _ _ _ Hf) as Hsq. by apply not_eq_sym, separate_state.
    - by intros H%app_inv_head.
    - intros H%eq_sym. by apply basedirs_not_state in H. }
  simpl. intros x w2 [-> (F2 & D2 & _ & A2)]. split_and!; [done|done|].
  intros Hok. apply stack_is_map; try done.
  destruct Hnb1 as [Hroot Hno Hp]. split; [by apply D2| |by rewrite F2].
  intros d name [Hin|Hin]%elem_of_union; [rewrite F2 in Hin; eapply Hno, elem_of_union_l, Hin|].
  apply A2 in Hin as [Hin|Hin]; [eapply Hno, elem_of_union_r, Hin|]. rewrite state_dir_app in Hin. by eapply separate_above in Hin.
Qed.
End new_filesystem.

(** ** The root blob is created once *)
Section root_once.
Context {crypto : CryptoPP} {crypto_laws : CryptoPPLaws} {memory : Memory} {boost : PropertyTree}
  {boost_laws : PropertyTreeLaws} {sha : SHA} {kdf : ScryptKDF} {kdf_laws : ScryptLaws} {Rng : Type} {random : RandomGenerator Rng}
  (VersionString : bytes) (fuel : nat).
Context {S : Type} `{!FsBlobs.BlobStore S} `{!BlobStoreSpec S} (uninitialised : nat → bytes) (uninitialised_ok : ∀ n, length (uninitialised n) = n)
  (signal : M S bool) (perBlobCallback : Z → M S unit) (depth : nat).
Implicit Types (w : world Rng).
Import CryConfigLoader.

(** Writing another root into the configuration keeps it openable. *)
Lemma openable_root l q c e m root file w w' : openable VersionString l q c e m w → separate (_localStateDir l) q →
  storable (CryConfig.SetRootBlob root c) → stored (Rng := Rng) (CryConfig.SetRootBlob root c) e file → files w' = <[q := file]> (files w) →
  openable VersionString l q (CryConfig.SetRootBlob root c) e m w'.
Proof.
  intros [?? ?????? [Ha Hn] Hr ?] Hs Hst Hfile F. destruct (local_state_kept _ q (CryConfig._filesystemId c) m file w w' Hs F) as [Hno Hre].
  split; try done.
  - exists file. by rewrite F, lookup_insert_eq.
  - split; [done|]. by apply Hno.
  - by apply Hre.
Qed.

Lemma runs_new_root n b q c e w : blobs_are (7 + n) b ∅ → room (7 + n) 0 → Z.of_nat n < 2 ^ 31 → CryConfig._rootBlob c = [] →
  encryptor_ok e → parent_path q ∈ dirs w →
  (∀ root, length root = BlockId.BINARY_LENGTH → storable (CryConfig.SetRootBlob (hex_encode root) c)) →
  runs (CryDevice.new uninitialised signal perBlobCallback depth b (CryConfigFile.mk q c e CryConfigFile.ReadWrite)) w (λ '(d, root, f) w',
    let c' := CryConfig.SetRootBlob (hex_encode root) c in
    f = CryConfigFile.mk q c' e CryConfigFile.ReadWrite ∧ length root = BlockId.BINARY_LENGTH
    ∧ fs_inv root n (mkFS d IdList.new ∅) (empty_tree root) ∅
    ∧ ∃ file, stored (Rng := Rng) c' e file ∧ files w' = <[q := file]> (files w)).
Proof using uninitialised_ok crypto_laws boost_laws kdf_laws sha.
  intros Hb Hr Hn Hroot He Hp Hst.
  destruct (format_view uninitialised uninitialised_ok n (mkFs b ∅ 0)) as (root & d & E & Hval & Hv); [by apply fs_view_empty|].
  set (f := CryConfigFile.mk q (CryConfig.SetRootBlob (hex_encode root) c) e CryConfigFile.ReadWrite).
  assert (runs (CryConfigFile.save f) w (λ _ w', ∃ file, stored (Rng := Rng) (CryConfig.SetRootBlob (hex_encode root) c) e file ∧ files w' = <[q := file]> (files w))) as (x & w' & Es & Hf).
  { apply runs_save; [done|by apply Hst|done|done|]. intros file rng' Hs. by exists file. }
  exists (d, root, f), w'. split.
  - unfold CryDevice.new, CryDevice.MigrateOrCreateFsBlobStore. cbn [CryConfigFile._config]. rewrite Hroot, decide_True by done. csimp.
    unfold CryDevice.GetOrCreateRootBlobId. cbn [CryConfigFile._config]. rewrite Hroot, decide_True by done.
    erewrite bind_ok by (unfold CryDevice.on_fs, zoom; cbn [fst]; rewrite E; reflexivity).
    destruct (FixedSizeData_string_roundtrip root) as [Er _]. erewrite bind_ok by (unfold lift; rewrite Er; reflexivity). cbv zeta.
    change (update_config _ _) with f. erewrite bind_ok by (unfold CryDevice.on_files, zoom; cbn [snd]; rewrite Es; reflexivity). done.
  - split_and!; [done|done|by apply fs_inv_new; [|apply tree_empty|]|done].
Qed.

(** C11. The root directory is created once. On an empty blob store, the
    constructor of the device creates the root blob, which gives the empty
    tree, and saves its id in the configuration. From then on, every loader
    that could open the configuration opens one with which the constructor
    finds this root again, creates nothing and writes no file. *)
Theorem root_created_once n b l q c e m w : blobs_are (7 + n) b ∅ → room (7 + n) 0 → Z.of_nat n < 2 ^ 31 →
  openable VersionString l q c e m w → CryConfig._rootBlob c = [] → CryConfig._hasParentPointers c = true → parent_path q ∈ dirs w →
  separate (_localStateDir l) q →
  (∀ root, length root = BlockId.BINARY_LENGTH → storable (CryConfig.SetRootBlob (hex_encode root) c)) →
  runs (CryDevice.new uninitialised signal perBlobCallback depth b (CryConfigFile.mk q c e CryConfigFile.ReadWrite)) w (λ '(d, root, _) w',
    fs_inv root n (mkFS d IdList.new ∅) (empty_tree root) ∅
    ∧ ∀ up allow, runs (loadOrCreate VersionString fuel l q up allow) w' (λ r w2, ∃ res, r = inr res
        ∧ ∀ b' w3, CryDevice.new uninitialised signal perBlobCallback depth b' (configFile res) w3 = (Ok (mkFs b' ∅ 0, root, configFile res), w3))).
Proof using uninitialised_ok crypto_laws boost_laws kdf_laws sha.
  intros Hb Hr Hn Ho Hroot Hpp Hp Hs Hst. eapply runs_mono; [apply (runs_new_root n b q c e w); try done; apply Ho|].
  intros [[d root] f] w' (-> & Hlen & Hinv & file & Hfile & F). split; [done|]. intros up allow.
  assert (openable VersionString l q (CryConfig.SetRootBlob (hex_encode root) c) e m w') as Ho' by (eapply openable_root; eauto).
  pose proof Ho' as [(file' & Hf & _) _ _ _ _ _ _ _ _ _ _].
  unfold loadOrCreate. eapply runs_bind_eq; [done|]. rewrite bool_decide_true by (rewrite Hf; by left).
  eapply runs_mono; [by apply runs_loadConfig|]. simpl. intros r w2 (-> & _ & _). eexists. split; [done|]. simpl. intros b' w3.
  assert (hex_encode root ≠ []) as Hne. { intros Hx%(f_equal length). rewrite hex_encode_length, Hlen in Hx. discriminate Hx. }
  unfold CryDevice.new, CryDevice.MigrateOrCreateFsBlobStore. cbn. rewrite decide_False by congruence. rewrite Hpp. cbn [negb]. csimp.
  unfold CryDevice.GetOrCreateRootBlobId. cbn. rewrite decide_False by done.
  destruct (FixedSizeData_string_roundtrip root) as [_ E]. rewrite Hlen in E. by rewrite E.
Qed.
End root_once.

(** ** Mounting a file system whose root blob is missing *)
Section no_root.
Context {S : Type} `{!FsBlobs.BlobStore S} (clock : nat → DirEntry.timespec) (startpos : Z → nat → nat).

(** The two checks for [InvalidFilesystem] cannot fail: the base directory is
    loaded without looking at its blob. A missing blob is noticed when the
    children are listed, and that exception carries no error code. *)
Theorem missing_root_has_no_code root (d d' : fs S) : FsObjects.load root d = (Ok None, d') →
  _sanityCheckFilesystem clock startpos root d = (Throw (FuseErrno EIO), d').
Proof.
  intros E. unfold _sanityCheckFilesystem. erewrite bind_ok by done. cbv beta iota. rewrite decide_False by (intros Hn; by apply Hn).
  unfold CryFs.children, CryDir_LoadBlob, CryNode_LoadBlob, LoadBlob, mbind, M_bind. csimp. simpl. by rewrite E.
Qed.
End no_root.

(** ** jni/libcryfs-jni.cpp: the functions that open a file system and change
    its password *)
Section jni.
Context {crypto : CryptoPP} {memory : Memory} {boost : PropertyTree} {sha : SHA} {kdf : ScryptKDF} {Rng : Type} {random : RandomGenerator Rng}
  (VersionString : bytes) (fuel : nat) (normal : ConfigFile.path → bytes)
  (free_disk_space_in_bytes : world Rng → Z) (signal_occurred : bytes → bool) (prng : Rng).
Context {S : Type} `{!FsBlobs.BlobStore S} (uninitialised : nat → bytes) (clock : nat → DirEntry.timespec) (startpos : Z → nat → nat)
  (signal : M S bool) (perBlobCallback : Z → M S unit) (depth : nat) (BlobStoreOnBlocks : cipher → CryDevice.device_stack_t Rng → Z → S).

(** The local variable [returnedHash] has no value yet. *)
Definition forget_hash (w : world Rng) : world Rng := mkWorld (files w) (dirs w) (rng w) None.
Definition jni_options (baseDir localStateDir : ConfigFile.path) (createBaseDir : bool) (cipher : option bytes) : Cli.ProgramOptions :=
  Cli.mkOptions baseDir None localStateDir false false createBaseDir cipher None false None.
Definition jni_credentials (password : option bytes) (givenHash : bytes) (wantsHash : bool) : Cli.Credentials :=
  match password with
  | None => Cli.mkCredentials None givenHash false
  | Some password => Cli.mkCredentials (Some password) [] wantsHash
  end.

(** The handler catches a [CryfsException]; its code is used by the rest. *)
Definition catches {A} (fuse : result (option (A * bytes))) : result (result (option A)) :=
  match fuse with
  | Ok fuse => Ok (Ok (fst <$> fuse))
  | Throw (CryfsException code) => Ok (Throw (CryfsException code))
  | Throw e => Throw e
  end.
(** Returns the pointer, the error code and the hash for the Java side;
    [ptr] is the address of a new object. The hash is read when it was
    asked for, written or not. *)
Definition cryfs_init (baseDir localStateDir : ConfigFile.path) (password : option bytes) (givenHash : bytes) (wantsHash createBaseDir : bool)
    (cipher : option bytes) (ptr : Z) : M (world Rng * Jni.t S) (Z * option ErrorCode * option bytes) := λ '(w, j),
  let credentials := jni_credentials password givenHash wantsHash in
  let '(fuse, w') := initFilesystem VersionString fuel normal SCrypt.DefaultSettings free_disk_space_in_bytes signal_occurred prng
    uninitialised clock startpos signal perBlobCallback depth BlobStoreOnBlocks
    (jni_options baseDir localStateDir createBaseDir cipher) credentials (forget_hash w) in
  let hash := if Cli.returnedHash credentials then
                match ConfigFile.returnedHash w' with None => Throw UndefinedBehaviour | Some hash => Ok (Some hash) end
              else Ok None in
  match catches fuse, hash with
  | Throw e, _ | _, Throw e => (Throw e, (w', j))
  | Ok fuse, Ok hash => let '(r, j') := Jni.cryfs_init fuse ptr j in (x ← r ; mret (x, hash), (w', j'))
  end.

(** No exception is caught. *)
Definition cryfs_change_encryption_key (baseDir localStateDir : ConfigFile.path) (currentPassword : option bytes) (givenHash newPassword : bytes)
    (wantsHash : bool) : M (world Rng) (bool * option bytes) :=
  modify forget_hash ;;
  let currentKeyProvider := match currentPassword with
    | None => CryDirectKeyProvider givenHash
    | Some currentPassword => CryPresetPasswordBasedKeyProvider currentPassword SCrypt.DefaultSettings false
    end in
  let newKeyProvider := CryPresetPasswordBasedKeyProvider newPassword SCrypt.DefaultSettings wantsHash in
  let configLoader := CryConfigLoader.mk currentKeyProvider None None None localStateDir in
  result ← CryConfigLoader.changeEncryptionKey VersionString fuel configLoader (baseDir ++ [str "cryfs.config"]) false false newKeyProvider ;
  w ← get_state ;
  mret (match result with None => true | Some _ => false end, ConfigFile.returnedHash w).
End jni.

(** ** Changing the password through the JNI functions *)
Section jni_password.
Context {crypto : CryptoPP} {crypto_laws : CryptoPPLaws} {memory : Memory} {boost : PropertyTree} {boost_laws : PropertyTreeLaws}
  {sha : SHA} {kdf : ScryptKDF} {kdf_laws : ScryptLaws} {Rng : Type} {random : RandomGenerator Rng}
  (VersionString : bytes) (fuel : nat) (normal : ConfigFile.path → bytes).
Implicit Types (w : world Rng).
Import Cli CryConfigLoader.

Lemma openable_loader l l' q c e m w : openable VersionString l q c e m w → _localStateDir l' = _localStateDir l →
  gives_key (_keyProvider l') (CryConfigEncryptor._kdfParameters e) (CryConfigEncryptor._derivedKey e) →
  _checkCipher l' c = Ok tt → _checkMissingBlocksAreIntegrityViolations l' c (LocalStateMetadata._myClientId m) = Ok tt →
  openable VersionString l' q c e m w.
Proof. intros [] Hd ? ? ?. split; rewrite ?Hd; done. Qed.

Lemma DefaultSettings_ok : settings_ok SCrypt.DefaultSettings.
Proof. split; [by vm_compute|]. split; [by vm_compute|]. split; [by exists 20|]. by vm_compute. Qed.

(** After a file system has been created with one password, it can be changed
    to another one; the options of the first opening with the new password
    then open the same configuration as the same client. *)
Theorem jni_change_password options pw new wantsHash id key e m r w0 w :
  first_opened VersionString normal SCrypt.DefaultSettings pw options id key e m r w0 w → Cli.configFile options = None →
  Forall printable (normal (baseDir options)) → baseDir options ∈ dirs w → separate (localStateDir options) (_determineConfigFile options) →
  runs (cryfs_change_encryption_key VersionString fuel (baseDir options) (localStateDir options) (Some pw) [] new wantsHash) w (λ x w',
    x.1 = true
    ∧ runs (_loadOrCreateConfig VersionString fuel normal SCrypt.DefaultSettings options (localStateDir options) (mkCredentials (Some new) [] false)) w'
        (λ r' _, CryConfigFile._config (CryConfigLoader.configFile r') = CryConfigFile._config (CryConfigLoader.configFile r) ∧ myClientId r' = myClientId r)).
Proof.
  intros [Hr _ Ho Hk [Ha Hn] Hid _ _ _ _] Hcf Hpr Hbase Hs. set (l := loader_of SCrypt.DefaultSettings options (first pw)) in *.
  set (c := created_config VersionString l id key (LocalStateMetadata._myClientId m)) in *. set (q := _determineConfigFile options) in *.
  assert (q = baseDir options ++ [str "cryfs.config"]) as Hq by (unfold q, _determineConfigFile; by rewrite Hcf).
  set (jl := mk (Rng := Rng) (CryPresetPasswordBasedKeyProvider pw SCrypt.DefaultSettings false) None None None (localStateDir options)).
  set (pnew := CryPresetPasswordBasedKeyProvider (Rng := Rng) new SCrypt.DefaultSettings false).
  destruct (agrees_checks VersionString l jl id key (LocalStateMetadata._myClientId m)) as [H1 H2]; [split; by left|].
  assert (openable VersionString jl q c e m (forget_hash w)) as Hj.
  { assert (openable VersionString jl q c e m w) as [] by (apply (openable_loader l); try done; eapply preset_gives_any, Ho). by split. }
  unfold cryfs_change_encryption_key. apply runs_bind_modify. cbv zeta. rewrite <- Hq. fold jl. eapply runs_bind.
  { apply (runs_changeEncryptionKey VersionString fuel jl q c e m false false _ pnew); [done| |by apply matching_preset, DefaultSettings_ok|done].
    rewrite Hq, parent_path_app. done. }
  intros res w1 (-> & F1 & e' & Ho1). apply runs_bind_get. apply runs_ret. split; [done|].
  destruct (agrees_checks VersionString l l id key (LocalStateMetadata._myClientId m) (agrees_self l)) as [H3 H4].
  destruct (separate_basedirs _ _ Hs) as [Hb Hanc].
  eapply runs_mono; [apply (runs_open VersionString fuel normal SCrypt.DefaultSettings options (mkCredentials (Some new) [] false) c e' m {[ normal (baseDir options) := id ]} w1)|].
  - apply (openable_loader (with_provider pnew jl)); [done..|apply Ho1|done|done].
  - done.
  - eapply knows_files, Hk. apply F1. done.
  - by apply fits_self.
  - split; [done|]. unfold no_file_above in *. rewrite Forall_forall in *. intros p Hp. rewrite F1; [by apply Hn|]. by intros ->.
  - done.
  - right. right. by rewrite lookup_singleton_eq.
  - simpl. intros r' w2 (-> & _ & _). by rewrite Hr.
Qed.
End jni_password.

(** A request for the hash of the password when the base directory is
    missing: the variable is read although nobody has written it. *)
Theorem failed_init_reads_unwritten_hash `{!CryptoPP, !Memory, !PropertyTree, !SHA, !ScryptKDF} {Rng} `{!RandomGenerator Rng} {S} `{!FsBlobs.BlobStore S}
    version fuel normal free stop prng uninitialised clock startpos (signal : M S bool) callback depth blobs baseDir localStateDir pw hash cipher ptr
    (w : world Rng) j :
  baseDir ∉ dirs w → files w !! baseDir = None →
  (cryfs_init version fuel normal free stop prng uninitialised clock startpos signal callback depth blobs
    baseDir localStateDir (Some pw) hash true false cipher ptr (w, j)).1 = Throw UndefinedBehaviour.
Proof.
  intros Hd Hf. unfold cryfs_init, initFilesystem, catch_setup. unfold mbind at 1, M_bind at 1.
  rewrite sanityChecks_spec. cbn [Cli.baseDir Cli.createMissingBasedir jni_options dirs files forget_hash].
  rewrite decide_False by done. rewrite decide_False by (rewrite Hf; by intros [? ?]). done.
Qed.

(** ** Witnesses *)
Module SetupExample.
Import Cli CliExample Toy ToyTree ToyKdf ToySha OnDiskExample MemBlobs.
#[local] Existing Instance toy_upper.

Lemma ex_separate : separate w_appDir [str "base"].
Proof. split; apply (bool_decide_unpack _); by vm_compute. Qed.
Lemma ex_no_blocks : no_blocks [str "base"] w_disk.
Proof.
  split; cbn [files dirs w_disk].
  - by apply elem_of_singleton.
  - intros d name [H|H]%elem_of_union; [by rewrite dom_empty_L in H|]. apply elem_of_singleton in H. discriminate H.
  - intros id _. apply lookup_empty.
Qed.
Definition new_ops : list block_op := [OpCreate id1 [x07; x08]; OpStore id2 [x09]; OpLoad id1; OpRemove id2; OpLoad id2; OpStore id1 []].
Lemma new_ops_ok {S} (ops : BlockStore2 S) refused (s : S) : @ops_ok S ops refused (2 ^ 32 - 128) new_ops s ∅.
Proof. split; [split; [by split|by intros [? [=]]]|]. by repeat (split; [split; [by repeat split; vm_compute|done]|]). Qed.
Lemma new_filesystem_on_disk_witness :
  runs (config ← ex_open (first (str "pw")) ;
        CryDevice.CreateBlobStore [str "base"] (λ _, 0) (λ _, false) w_appDir (CryConfigLoader.configFile config) 1
          (CryConfigLoader.myClientId config) false
          (CryConfig.missingBlockIsIntegrityViolation (CryConfigFile._config (CryConfigLoader.configFile config)))) w_disk
    (λ '(c, stack, blocksize, _) w', NAME c = str "aes-128-gcm" ∧ blocksize = 16384
      ∧ ∃ s', @run_ops _ (stack_ops [str "base"] (λ _, 0) c) new_ops stack = (Ok (model_ops new_ops ∅).1, s')).
Proof.
  eapply runs_mono.
  - apply (new_filesystem_on_disk w_version 2 ex_normal SCrypt.TestSettings (λ _, 0) (λ _, false) ex_options (str "pw") 1 new_ops w_disk
      ex_first_ok eq_refl ex_separate ex_no_blocks). done.
  - intros [[[c s] b] f] w' (H1 & H2 & H3). split; [exact H1|]. split; [exact H2|]. apply H3. apply new_ops_ok.
Defined.

Definition ex_signal : M mem bool := mret false.
Definition ex_callback (_ : Z) : M mem unit := mret tt.
Lemma ex_root_storable id key clientId root : length id = CryConfig.FilesystemID_LENGTH → (length key ≤ CryCiphers.MAX_KEY_SIZE)%nat →
  0 < clientId < 2 ^ 32 → length root = BlockId.BINARY_LENGTH →
  storable (CryConfig.SetRootBlob (hex_encode root) (created_config w_version (loader_of (Rng := Z) SCrypt.TestSettings ex_options ex_first) id key clientId)).
Proof.
  intros Hid Hkey Hc Hroot. destruct (created_storable w_version 2 _ id key clientId ex_creatable Hid Hkey Hc) as ((Hs & Hok) & Hn & _).
  split; [|split; [done|]].
  - split; [|done]. simpl in Hs. rewrite Forall_cons in Hs. destruct Hs as [_ Hs]. simpl. constructor; [apply hex_printable|done].
  - change BlockId.BINARY_LENGTH with 16%nat in Hroot. change CryConfig.FilesystemID_LENGTH with 16%nat in Hid.
    change CryCiphers.MAX_KEY_SIZE with 56%nat in Hkey. intros text. unfold CryConfig.save.
    destruct (FixedSizeData_string_roundtrip id) as [E _]. cbn [CryConfig._filesystemId created_config CryConfig.SetRootBlob]. rewrite E.
    intros [= <-]. rewrite length_text_build. unfold CryConfig.entries. rewrite !sum_list_with_app. simpl sum_list_with.
    rewrite !length_hex, Hid, Hroot. simpl. lia.
Qed.

Lemma root_created_once_witness : ∃ l q c e m (w : world Z),
  openable w_version l q c e m w ∧
  runs (CryDevice.new z_uninit ex_signal ex_callback 1 (mkMem ∅ 0) (CryConfigFile.mk q c e CryConfigFile.ReadWrite)) w (λ '(d, root, _) w',
    fs_inv root 100 (mkFS d IdList.new ∅) (empty_tree root) ∅
    ∧ runs (CryConfigLoader.loadOrCreate w_version 2 l q false false) w' (λ r w2, ∃ res, r = inr res
        ∧ ∀ b' w3, CryDevice.new z_uninit ex_signal ex_callback 1 b' (CryConfigLoader.configFile res) w3 = (Ok (mkFs b' ∅ 0, root, CryConfigLoader.configFile res), w3))).
Proof.
  destruct (runs_first w_version 2 ex_normal SCrypt.TestSettings (str "pw") ex_options w_disk ex_first_ok) as (r & w & _ & id & key & e & m & Hfo).
  pose proof Hfo as [_ _ Ho _ _ Hid [Hkey _] Hcl _ [HD _]]. do 5 eexists. exists w. split; [exact Ho|].
  eapply runs_mono.
  - apply (root_created_once w_version 2 z_uninit z_uninit_ok ex_signal ex_callback 1 100 (mkMem ∅ 0)
      (loader_of SCrypt.TestSettings ex_options ex_first) w_file (created_config w_version (loader_of SCrypt.TestSettings ex_options ex_first) id key
      (LocalStateMetadata._myClientId m)) e m w).
    + split; [done|]. split; [|by vm_compute]. intros i x Hi. by rewrite lookup_empty in Hi.
    + by unfold room; vm_compute.
    + by vm_compute.
    + exact Ho.
    + done.
    + done.
    + apply HD, w_parent.
    + apply w_separate.
    + intros root Hroot. by apply ex_root_storable.
  - intros [[d root] f] w' [Hinv Hre]. split; [done|]. apply Hre.
Defined.

(** A version table that has been told of a violation. *)
Definition ex_versions : KnownBlockVersions.t := KnownBlockVersions.mk false {[ (9, replicate 16 x01) := 3 ]} {[ replicate 16 x01 := 9 ]} None 9 true.
Definition ex_integrity : bytes :=
  default [] (KnownBlockVersions.destroy (KnownBlockVersions.setIntegrityViolationOnPreviousRun true ex_versions).2).
Definition ex_config : CryConfigFile.t :=
  CryConfigFile.mk w_file (created_config w_version (w_loader (str "pw")) (replicate 16 x05) (replicate 16 x06) 9) (CryConfigEncryptor.mk [] []) CryConfigFile.ReadWrite.
Definition ex_violated : world Z := mkWorld {[ state_dir w_appDir (replicate 16 x05) ++ [str "integritydata"] := ex_integrity ]} ∅ 1 None.
Lemma violation_prevents_setup_witness : ∃ w',
  CryDevice.CreateBlobStore [str "base"] (λ _, 0) (λ _, false) w_appDir ex_config 1 9 true false ex_violated =
    (Throw (CryfsException IntegrityViolationOnPreviousRun), w') ∧ files w' = files ex_violated.
Proof.
  apply (violation_prevents_setup [str "base"] (λ _, 0) (λ _, false) w_appDir ex_config (CryCiphers.CryCipherInstance ciphers.AES128_GCM None)
    (replicate 16 x06) 1 ex_versions ex_integrity true false ex_violated).
  - split; apply map_Forall_singleton; split_and!; simpl; try lia; done.
  - done.
  - done.
  - by vm_compute.
  - by vm_compute.
  - by vm_compute.
  - by vm_compute.
  - done.
  - done.
  - done.
  - apply (bool_decide_unpack _). by vm_compute.
Defined.

(** Changing the password with a hash of the wrong length: the failed
    assertion leaves the function for the Java side. *)
Theorem change_key_lets_exceptions_out : ∃ msg,
  (cryfs_change_encryption_key (Rng := Z) w_version 2 [str "base"] w_appDir None [] (str "new") false (ex_open ex_first w_disk).2).1 =
  Throw (AssertFailed msg).
Proof. eexists. vm_compute. reflexivity. Qed.
End SetupExample.
