(* ===== verification/EndToEnd.v ===== *)
(** * A file system on blocks

    The file system of Mount.v on the data trees of OnBlocks.v: from an empty
    block store, through formatting, calls, unmounting and mounting again,
    everything is kept in blocks and behaves as a tree of files. *)
From S2P Require Import Prelude Serialization DirEntry DirSpec Directory FsBlobs FsBlobSpec MemBlobs FsTree FsObjects FsObjSpec FsView CryFs CrySpec FilesystemImpl OpenFiles Filesystem FsRefine Mount Nodes Tree NodeLogic NodeSpec TreeSpec BlobModel BlobSpec Blob Footprint OnBlocks.
From Stdlib Require Import Lia ZArith.
Open Scope Z_scope.
Import DirEntry.

(** A new block store; block ids are drawn from [ids]. *)
Definition new_store (ids : list bytes) : blob_store := mkBlobs ∅ ids ∅.
(** What is left when the process ends. *)
Definition only_blocks (s : blob_store) : blob_store := mkBlobs (b_blocks s) (b_ids s) ∅.

Section theorems.
Context {cfg : TreeConfig} {cfg_ok : TreeConfigOk}.
Context (uninit : nat → bytes) (uninit_ok : ∀ n, length (uninit n) = n).
Context (clock : nat → timespec) (clock_ok : ∀ n, time_ok (clock n)).
Context (startpos : Z → nat → nat) (startpos_ok : ∀ b n, 0 ≤ b < 256 → (0 < n)%nat → (startpos b n < n)%nat).
Context (behavior : TimestampUpdateBehavior) (getuid getgid : Z).

Lemma new_store_are n ids : NoDup ids → Forall new_id ids → (n * op_cost ≤ length ids)%nat → blobs_are n (new_store ids) ∅.
Proof using.
  intros Hnd Hnew Hn. split; [|split; [done|split; [|split; [done|apply map_Forall_empty]]]].
  - exists ∅. split; [done|]. unfold p_forest. by rewrite map_to_list_empty.
  - split; [done|]. split; [done|]. intros id _. apply lookup_empty.
Qed.

Lemma only_blocks_are n s m : blobs_are n s m → blobs_are n (only_blocks s) m.
Proof using.
  intros ((B & HB & Hf) & Hdom & Hids & Hn & Hmax). split; [|split; [simpl; rewrite dom_empty_L; apply empty_subseteq|done]].
  exists B. split; [done|]. eapply p_forest_mono, Hf. intros r c d _ (H1 & H2 & _). by split.
Qed.

(** C1. The whole file system on blocks. A file system formatted on an empty
    block store refines a tree: for a sequence of calls that [calls_ok]
    admits the results are those [calls_spec] allows for the tree that starts
    with an empty root directory, whatever trees of blocks the blobs grow
    into. [calls_ok] admits valid arguments, no removal or replacement of a
    node that is open or that is the directory an open file was opened in, no
    eviction of an object in use, and not the renames of
    [rename_replaces_nonempty_dir] and [rename_dir_over_file_dangles]
    (Mount.v), where the code loses data. The configuration has to satisfy
    [TreeConfigOk]: the capacity of the trees, and [powers_fit], by which the
    floating point logarithm does not round up at powers of the fan-out; where
    it does, the traversal throws ([full_subtree_throws]). [op_cost] block ids
    are enough for one write to a blob, 12 writes for one call and 7 for
    formatting. *)
Theorem filesystem_on_blocks (cs : list call) (n : nat) (ids : list bytes) :
  NoDup ids → Forall new_id ids → ((7 + (12 * length cs + n)) * op_cost ≤ length ids)%nat →
  room (S := blob_store) (7 + (12 * length cs + n)) 0 → Z.of_nat (12 * length cs + n) < 2 ^ 31 →
  ∃ root st, format uninit (new_store ids) = Some (root, st) ∧
    (calls_ok root (max_blob (S := blob_store)) cs (empty_tree root) ∅ →
     ∃ v o, fs_inv root n (after uninit clock startpos behavior getuid getgid root cs st) v o ∧
            calls_spec root cs (empty_tree root) ∅ (results uninit clock startpos behavior getuid getgid root cs st) v o).
Proof using uninit_ok clock_ok startpos_ok.
  intros Hnd Hnew Hcost Hroom Hn.
  destruct (format_spec uninit uninit_ok (12 * length cs + n) (new_store ids)) as (root & st & E & Hinv); [done|by apply new_store_are|done|].
  exists root, st. split; [done|]. intros Hok. by apply run_calls_spec.
Qed.

(** C9. Everything is in the blocks. When the process ends after unmounting
    (all loaded objects are dropped, in any order), mounting what is in the
    block store gives the same tree: nothing lives only in an open tree or
    in a loaded directory. *)
Theorem remount_from_blocks (root : bytes) (ids : list bytes) (n : nat) (st : filesystem blob_store) v o :
  fs_inv root (2 * length ids + n) st v o → NoDup ids → (∀ id, id ∈ ids ↔ loaded (device st) id) → Z.of_nat n < 2 ^ 31 →
  runs (evict_all uninit ids) (device st) (λ _ s', fs_inv root n (mount (only_blocks (base s'))) v ∅).
Proof using uninit_ok.
  intros (Hs & [Ht _] & _) Hnd Hids Hn. eapply runs_mono; [by apply evict_all_spec|]. intros [] s' [Ho (a & (Hr & m & Hm & Hx) & <-)].
  apply fs_inv_new; [|done|done]. exists a. split; [|done]. split; [done|]. exists m. split; [by apply only_blocks_are|].
  intros i. specialize (Hx i). by rewrite Ho in Hx.
Qed.
End theorems.

(** ** A concrete configuration: leaves of 64 bytes, four children *)
Definition e_cfg : TreeConfig := {|
  layout := DataNodeLayout.mk 72; uninit_byte := xee; std_log := small_log; buffer := z_uninit; freeBytes := 2 ^ 30; physicalBlockSizeBytes := 128 |}.
Lemma e_powers_fit : powers_fit (DataNodeLayout.mk 72) 5 small_log.
Proof. intros d Hd. assert (d = 2 ∨ d = 3 ∨ d = 4 ∨ d = 5)%nat as [->|[->|[->| ->]]] by lia; by vm_compute. Qed.
Definition e_ok : @TreeConfigOk e_cfg.
Proof.
  refine (@Build_TreeConfigOk e_cfg 5 _ _ small_log_ok e_powers_fit z_uninit_ok).
  - split; vm_compute; done.
  - split; [lia|vm_compute; done].
Defined.
Definition e_ids : list bytes := mem_id <$> seq 0 (Z.to_nat 330000).
Lemma e_ids_ok : NoDup e_ids ∧ Forall new_id e_ids.
Proof.
  assert (∀ i, i ∈ seq 0 (Z.to_nat 330000) → Z.of_nat i < 2 ^ 64) as Hi by (intros i H; apply elem_of_seq in H; lia).
  unfold e_ids. revert Hi. generalize (NoDup_seq 0 (Z.to_nat 330000)). induction (seq 0 (Z.to_nat 330000)) as [|i l IH]; intros Hnd Hi; [by split; constructor|].
  apply NoDup_cons in Hnd as [Hni Hnd]. destruct IH as [H1 H2]; [done|intros; apply Hi; by right|].
  split; constructor; [|done| |done].
  - intros H. apply list_elem_of_fmap in H as (j & E & Hj). apply mem_id_inj in E; [congruence|apply Hi; by left|apply Hi; by right].
  - split; [apply length_serialize|apply mem_id_not_null, Hi; by left].
Qed.
Lemma e_ids_length k : (Z.of_nat k ≤ 330000)%Z → (k ≤ length e_ids)%nat.
Proof. unfold e_ids. rewrite length_fmap, length_seq. lia. Qed.

Lemma filesystem_on_blocks_witness :
  ∃ root st v o, @format blob_store (@on_blocks e_cfg) z_uninit (new_store e_ids) = Some (root, st) ∧
    @fs_inv blob_store (@on_blocks e_cfg) (@on_blocks_spec e_cfg e_ok) root 5
      (@after blob_store (@on_blocks e_cfg) z_uninit z_clock z_startpos relatime 0 0 root small_calls st) v o ∧
    calls_spec root small_calls (empty_tree root) ∅
      (@results blob_store (@on_blocks e_cfg) z_uninit z_clock z_startpos relatime 0 0 root small_calls st) v o.
Proof.
  destruct (@filesystem_on_blocks e_cfg e_ok z_uninit z_uninit_ok z_clock z_clock_ok z_startpos z_startpos_ok relatime 0 0 small_calls 5 e_ids) as (root & st & E & H).
  - apply e_ids_ok.
  - apply e_ids_ok.
  - apply e_ids_length. by vm_compute.
  - split; by vm_compute.
  - by vm_compute.
  - destruct H as (v & o & H1 & H2); [by apply small_calls_ok; vm_compute|]. exact (ex_intro _ root (ex_intro _ st (ex_intro _ v (ex_intro _ o (conj E (conj H1 H2)))))).
Defined.

(** After formatting at most the root directory is loaded. *)
Lemma e_format : ∃ root st, @fs_inv blob_store (@on_blocks e_cfg) (@on_blocks_spec e_cfg e_ok) root 40 st (empty_tree root) ∅.
Proof.
  destruct (@format_spec blob_store (@on_blocks e_cfg) (@on_blocks_spec e_cfg e_ok) z_uninit z_uninit_ok 40 (new_store e_ids)) as (root & st & _ & H).
  - split; by vm_compute.
  - apply new_store_are; [apply e_ids_ok|apply e_ids_ok|]. apply e_ids_length. by vm_compute.
  - by vm_compute.
  - by exists root, st.
Qed.
Lemma loaded_in_view {T} `{!BlobStore T} `{!BlobStoreSpec T} n (s : fs T) v id : fs_view n s v → loaded s id → is_Some (v !! id).
Proof.
  intros (a & (_ & m & _ & Hm) & <-) [b Hb]. specialize (Hm id). rewrite view_lookup. destruct (a !! id); [by eexists|].
  destruct Hm as [_ Hm]. congruence.
Qed.

Lemma remount_from_blocks_witness :
  ∃ root (st : filesystem blob_store) ids n,
    @fs_inv blob_store (@on_blocks e_cfg) (@on_blocks_spec e_cfg e_ok) root 40 st (empty_tree root) ∅ ∧ (36 ≤ n)%nat ∧
    runs (@evict_all blob_store (@on_blocks e_cfg) z_uninit ids) (device st)
      (λ _ s', @fs_inv blob_store (@on_blocks e_cfg) (@on_blocks_spec e_cfg e_ok) root n (mount (only_blocks (base s'))) (empty_tree root) ∅).
Proof.
  destruct e_format as (root & st & H). pose (ids := if decide (is_Some (objects (device st) !! root)) then [root] else []).
  assert (length ids ≤ 1)%nat as Hlen by (unfold ids; by case_decide; simpl; lia).
  exists root, st, ids, (40 - 2 * length ids)%nat. split; [exact H|]. split; [lia|].
  apply (@remount_from_blocks e_cfg e_ok z_uninit z_uninit_ok root ids _ st (empty_tree root) ∅).
  - replace (2 * length ids + (40 - 2 * length ids))%nat with 40%nat by lia. exact H.
  - unfold ids. case_decide; repeat constructor. by intros ?%elem_of_nil.
  - intros id. unfold ids, loaded. split.
    + case_decide as Hd; [|by intros ?%elem_of_nil]. by intros ->%list_elem_of_singleton.
    + intros Hl. assert (id = root) as ->.
      { destruct H as (Hv & _). apply (loaded_in_view _ _ _ _ Hv) in Hl as [x Hx]. unfold empty_tree in Hx. by apply lookup_singleton_Some in Hx as [-> _]. }
      rewrite decide_True by done. by apply list_elem_of_singleton.
  - lia.
Defined.
